(* ===== verification/_CoqProject ===== *)
-Q . S2P
Prelude.v
Double.v
ByteOrder.v
Constants.v
Text.v
IPv4Address.v
WireBuffer.v
ControlMessage.v
PacketFlags.v
PacketHeader.v
Beacon.v
OrderedMap.v
Discovery.v
Mailbox.v
MailboxRuns.v
MailboxPromises.v
AckRanges.v
SequenceBuffer.v
RttEstimator.v
MessageAssembler.v
MediaAssembler.v
SendScheduler.v
ReliableLink.v
LinkStreams.v
LinkReceive.v
LinkWire.v
Flow.v
Protocol.v
Delivery.v
LinkTimers.v
LinkRuns.v
Engine.v
SessionSpec.v
LinkIdentity.v
SchedulerRules.v
EngineSessions.v
EngineStep.v
Backlog.v
EngineLogic.v
EngineEffects.v
EngineInvariant.v
EngineRefines.v
EngineKeeps.v
EngineSends.v
EngineReceives.v
EngineSettles.v
EngineGrowth.v
EngineRound.v
EngineRuns.v
EngineShutdown.v
EngineEnds.v
EngineDeadlines.v
EngineTypes.v
EngineExample.v
ShutdownExample.v
Logging.v
TaskQueue.v
NetworkInformation.v
LinuxAdapters.v
WindowsAdapters.v
MacAdapters.v
Adapters.v
NetLinkCore.v
CoreRuns.v
CoreTypes.v
CoreExample.v
SocketErrors.v
SocketPlatform.v
SocketLaws.v
ReadWaiter.v
UdpSocket.v
SocketPromises.v
SocketOwnership.v
SocketExample.v
SocketWorld.v
NetLink.v
CInterface.v
