(* ===== verification/Prelude.v ===== *)
(** * NetLink: a verification library

    NetLink is a C++ library for discovering peers in a local network and exchanging
    messages with them over UDP.  This library models its transport, its sessions, its
    engine and the core that runs it in Rocq, one definition for each function of the
    sources, and proves what the program promises.  Paths below are relative to
    [src/src/internal/].

    ** The program and its parts

    One I/O thread per instance runs [NetworkEngine::run].  Each round of its loop takes the
    commands of the application from the [Mailbox], receives datagrams, runs the timers
    that are due, lets the [SendScheduler] hand out the send budget, and passes a batch of
    events on; [NetLinkCore] posts the batch to a [TaskQueue], whose thread calls the
    application back.  A session with a peer is a [Peer] of the engine; its data travels on
    a [ReliableLink], which fragments messages, numbers, acknowledges and retransmits
    them, keeps a congestion window and gives a silent peer up.  Peers find each other by
    [Beacon]s, which [DiscoveryLogic] keeps track of, and open and end sessions with
    [ControlMessage]s.

    ** Files and sources

    Shared: this file (record updates, machine integers, tactics, lists), [Double]
    (binary64 arithmetic), [OrderedMap] ([std::map]), [Constants] ([TransportConstants.h]),
    [Text] (decimal numbers and [std::string]).

    Wire formats: [ByteOrder], [WireBuffer], [PacketFlags], [PacketHeader], [AckRanges]
    (all of [Channel/Protocol/]), [ControlMessage] ([Session/ControlMessage.h]), [Beacon]
    ([Discovery/Beacon.h]), [IPv4Address] ([Socket/IPv4Address.h], [SocketTypes.h]).  A
    decoder returns [None] if it would read outside its buffer, so that a result [Some _]
    on every input says that it never does.

    Components of a link: [SequenceBuffer] ([Channel/Queue/]), [RttEstimator]
    ([Channel/Reliability/RttEstimator.h]), [MessageAssembler] and [MediaAssembler]
    ([Channel/Fragmentation/]).

    The link: [ReliableLink] translates [Channel/Reliability/ReliableLink.{h,cpp}], every
    operation of it.  [LinkStreams] and [LinkReceive] say what the operations do to the
    streams of messages, [LinkWire] what the remote decodes.  [Flow], [Protocol] and
    [Delivery] put two links and a network together that loses, repeats and reorders;
    [LinkTimers] and [LinkRuns] are about loss detection, timers and the congestion window
    in every life a link can have; [LinkIdentity] shows that its stream id stays.

    Around the links: [SendScheduler] ([Channel/SendScheduler.h]) with [SchedulerRules];
    [Mailbox] ([Channel/Mailbox.h]) with [MailboxRuns] and [MailboxPromises], where any
    threads take the atomic steps of its operations in any order; [Discovery]
    ([Discovery/DiscoveryLogic.{h,cpp}]).

    The engine: [Engine] holds the state of [Engine/NetworkEngine.h] and the monad its
    handlers are written in, [EngineSessions] and [EngineStep] the handlers of
    [Engine/NetworkEngine.cpp].  [SessionSpec] is the abstract specification: the stages
    of a session and what the application is told.  [EngineLogic] is a program logic of
    weakest preconditions for the monad; [EngineEffects], [EngineInvariant],
    [EngineRefines], [EngineKeeps], [EngineSends], [EngineReceives] and [EngineRound] show
    that every handler keeps the invariant, which includes the refinement of the
    specification; [EngineGrowth] counts what the loop over the touched peers adds to their
    vector while it iterates it; [EngineRuns] draws the conclusions and [EngineExample] runs
    an engine.  [EngineDeadlines] shows that the deadlines the loop wakes for are those of
    the links.  [EngineSettles], [EngineShutdown] and [EngineEnds] follow a shutdown to its end in the
    same logic, and [ShutdownExample] runs one; [EngineTypes] bounds what the engine stores
    and says about peers.  [Backlog] takes what the engine shares with those that drop its
    batches apart into single accesses.

    Around the engine: [TaskQueue] ([Util/TaskQueue.h], [joinOrDetach] of
    [Util/ThreadUtils.h]) is the queue of the event thread, as passages under its mutex and
    a labelled step relation of all threads; [Logging] ([NetLinkLog.{h,cpp}]) has the sinks
    of threads and their scopes.  [NetworkInformation], [LinuxAdapters], [WindowsAdapters]
    and [MacAdapters] ([Network/]) say what is made of the adapters the operating system
    reports, [Adapters] which of them is used ([Core/NetLinkCore.cpp]).  [NetLinkCore]
    holds the rest of [Core/NetLinkCore.{h,cpp}] and interleaves the threads of the engine
    and of the queue with callers of every public function; [CoreRuns] says what the
    application sees, [CoreTypes] what values it sees, and [CoreExample] runs it.

    Below the engine: [SocketErrors], [SocketPlatform] and [ReadWaiter] translate
    [Socket/Platform/] and [Util/Timing/] for Linux, macOS and Windows over type classes of
    system calls, [UdpSocket] translates [Socket/SocketHandle.cpp] and
    [Socket/UdpSocket.cpp].  [SocketLaws] has what is relied on, [SocketPromises] what a
    socket promises, [SocketOwnership] a logic of the handles that are held, and
    [SocketExample] a small operating system to run them on.  [SocketWorld] puts the
    engine on these sockets: an instance of the interface it is verified against.

    Above the core: [NetLink] translates the class of [NetLink.cpp] and [CInterface] the
    functions of [capi/NetLinkC.cpp] over it.

    ** How the code is modelled

    Member functions are functions on records, updated with [r <| member := value |>].
    Integers are [Z] with the width written out ([u8], [u16], [u32], [u64]); time points
    and durations are nanoseconds; bytes are [Byte.byte].  A mutex that is held from the
    first to the last access of an operation makes it one atomic step; an operation that
    waits is two steps, with any steps of other threads in between.  What is not in the
    sources is a parameter: the type class [World] of [Engine] stands for sockets,
    adapters, the random generator and the other threads, which interfere whenever the
    engine reaches for what is shared, and [WorldOk] says what is relied on;
    [MessageSource] of [ReliableLink] stands for where a link takes its messages from, and
    the queues of a peer of the engine are its instance ([EngineStep]).

    ** What the theorems show

    - What two links promise: every message is delivered once and in order on each
      acknowledged lane, and all of it once nothing is pending
      ([Delivery.delivered_in_order], [Delivery.drained_delivered]).
    - What a link does at its own end: every fragment is accounted for, a timer is armed
      while something is outstanding, losses are declared, the congestion window is
      respected, a peer is given up exactly when it owes an acknowledgement or is silent
      for its time-out ([LinkRuns]).
    - What the engine promises: it refines the specification of sessions, so that the
      contract of [NetLinkCallbacks] holds; a round returns, with a send rate set and room
      in the vector of touched peers; the tables agree; other threads see the sessions as
      they are; a failure between two steps leaves no session behind and none that the
      application was not told the end of ([EngineRuns]); the loop does not oversleep what
      the links wait for ([EngineDeadlines.loop_wakes]); a shutdown ends within the linger
      time ([EngineEnds.shutdown_in_time]); what waits for the application is accounted for,
      and the engine is not called when it is gone ([Backlog.backlog_accounts]).
    - What the mailbox promises to pushers, waiters and the I/O thread
      ([MailboxPromises]); the budget and the turns of the scheduler ([SendScheduler]).
    - Data structures against reference definitions: the ring of slots is a finite map,
      the ranges of an Ack are the set of seqs, assembling yields the message.
    - Wire formats: a decoder accepts exactly what an encoder wrote, within bounds.
    - What the application sees: through starts and stops in any order, the callbacks are
      told what the engines handed over, in order, according to the contract, and of no
      event after a [stop] that waited has returned ([CoreRuns]); tasks run in order, and draining and stopping
      end ([TaskQueue]); the adapter that is used and shown is the selected one
      ([Adapters], [LinuxAdapters], [WindowsAdapters]), and the routing table of a Mac is
      read within its bounds ([MacAdapters]); log lines go to the outermost sink of their
      thread ([Logging]).
    - What a socket promises: datagrams are handed over whole and in order, an interrupt is
      not lost, a time-out is not early, a shutdown is seen ([SocketPromises]); [bind]
      leaves nothing open that it does not return ([SocketOwnership]).
    - What the C interface promises: what an application that uses it is told about peers
      fits the C structs ([CInterface.told_values_fit]), and texts are cut between
      characters.  That its functions are steps of the core, so that what holds of the core
      holds of its instances, is a lemma ([CInterface.interface_refines]).

    ** Fuel and bounds

    Recursion that is not structural takes fuel, and theorems that promise a result prove
    it sufficient.  The loops of a link run over lists, or over the slots of a buffer
    with the number of its entries as fuel.  A round of the
    engine needs [MaxPeers + burst] for the scheduler ([EngineRuns.round_returns]: one turn
    for each peer to find nothing to send and one for each datagram the budget allows), and
    for the vector of touched peers twice the room it takes ([EngineGrowth.roomy]), as the
    loop over it may push to it once for each of its elements;
    the loop over the Acks of a link has its own fuel from the number of pending Acks
    ([EngineStep]); the draw of a free stream id ends within the fuel by [WorldOk], which
    says that a generator does not repeat taken ids for ever.  A system call of a socket is
    made again after every signal that interrupts it: more rounds than signals will come
    are enough ([SocketLaws.retrying_ok]), and four for a wait on Windows, whose timer is
    signalled at most three times before the deadline has passed ([ReadWaiter]).  Binary64 arithmetic is
    exact rounding of rationals; the ranges that occur exclude overflow and subnormals.

    ** Not modelled

    - The operating system: its calls are the fields of [Kernel] and [WaitKernel], and what
      is documented of them the laws [KernelOk] and [WaitOk].
    - The calls of the operating system in [Network/], whose answers are parameters of the
      backends; the conversion of wide characters on Windows; the release of what Windows
      and the process give back at their end.
    - What the texts of log lines say: they are arguments of the steps that write them.
      Atomics that only publish statistics are written, but not read by other threads.
    - Of the engine: the stop token of [run], which only the end of a thread that is not yet
      joined would use, and [localEndpoint], a second reference to the socket for tests.  An exception ends
      the loop of an engine between two steps; one in the middle of a step may find the
      invariant broken, and [EngineRuns.failure_ends_sessions] says what follows if it does
      not, of the events as well that the step had gathered and that are dropped.
    - Of [joinOrDetach], the branch for a thread that would join itself: the core gets there
      only if the instance is destroyed from a callback, which [NetLink.h] rules out.
    - Declarations, deleted constructors and accessors of classes, for which the fields of
      records stand; random seeds, for which the drawn numbers are parameters.
    - The memory model: steps under a mutex are atomic and in one order. *)
From stdpp Require Export base tactics numbers list gmap.
From Stdlib Require Export ZArith Lia.
From Stdlib Require Import Strings.Byte.

#[global] Open Scope Z_scope.

(** ** Record updates

    The sources assign single members of large structs.  [r <| m := v |>] is the
    struct [r] with member [m] replaced; [r <| m ::= f |>] applies [f] to it.  A
    record takes part by declaring its [Eta] expansion once. *)
Class Eta (R : Type) := eta : R -> R.
Class Update {R T : Type} (p : R -> T) := update : (T -> T) -> R -> R.
Arguments update {R T} p {_} f r.

Ltac build_update :=
  lazymatch goal with
  | |- @Update ?R ?T ?p =>
    let expansion := constr:(_ : Eta R) in
    let expansion := (eval red in expansion) in
    lazymatch (eval pattern p in expansion) with
    | (fun g => @?body g) p =>
      let setter := constr:(fun f : T -> T => body (fun r : R => f (p r))) in
      let setter := (eval cbv beta in setter) in
      exact setter
    end
  end.
#[export] Hint Extern 1 (Update _) => build_update : typeclass_instances.

Declare Scope netlink_scope.
Delimit Scope netlink_scope with NL.
Notation "r <| p := v |>" := (update p (fun _ => v) r)
  (at level 1, left associativity, p constr at next level, format "r  <| p  :=  v |>")
  : netlink_scope.
Notation "r <| p '::=' f |>" := (update p f r)
  (at level 1, left associativity, p constr at next level, format "r  <| p  '::='  f |>")
  : netlink_scope.
#[global] Open Scope netlink_scope.

(** ** Fixed-width integers

    An unsigned integer of [w] bits is a [Z] in [[0, 2^w)]; arithmetic that may leave
    the range is followed by the reduction the language performs. *)
Definition wrap (w z : Z) : Z := z mod 2 ^ w.
Abbreviation u8 := (wrap 8) (only parsing).
Abbreviation u16 := (wrap 16) (only parsing).
Abbreviation u32 := (wrap 32) (only parsing).
Abbreviation u64 := (wrap 64) (only parsing).

Definition is_uint (w z : Z) : Prop := 0 <= z < 2 ^ w.
#[global] Instance is_uint_dec w z : Decision (is_uint w z).
Proof. unfold is_uint. apply _. Defined.

(** The two's complement reading of a 32-bit pattern: [static_cast<int32_t>]. *)
Definition sint32 (z : Z) : Z :=
  let m := wrap 32 z in if m <? 2 ^ 31 then m else m - 2 ^ 32.

(** ** Time

    A [steady_clock] time point and every duration derived from one is a number of
    nanoseconds; [ms] and [us] convert from the coarser units. *)
Abbreviation TimePoint := Z (only parsing).
Abbreviation Duration := Z (only parsing).
Definition ms (n : Z) : Duration := n * 1000000.
Definition us (n : Z) : Duration := n * 1000.

(** ** Bytes *)
Abbreviation byte := Byte.byte (only parsing).
Abbreviation bytes := (list Byte.byte) (only parsing).

#[global] Instance byte_eq_dec : EqDecision Byte.byte := Byte.byte_eq_dec.

(** The value of a byte, and [static_cast<uint8_t>]. *)
Definition byteZ (b : byte) : Z := Z.of_N (Byte.to_N b).
Definition toByte (z : Z) : byte :=
  default Byte.x00 (Byte.of_N (Z.to_N (wrap 8 z))).

(** ** Vectors and spans, indexed by [size_t] *)
Definition zlen {A} (l : list A) : Z := Z.of_nat (length l).
Definition ztake {A} (n : Z) (l : list A) : list A := take (Z.to_nat n) l.
Definition zdrop {A} (n : Z) (l : list A) : list A := drop (Z.to_nat n) l.
Definition zlookup {A} (l : list A) (i : Z) : option A :=
  if (i <? 0) then None else l !! Z.to_nat i.

(** Copies [src] over the elements of [dst] from [offset] on: [memcpy] and
    [std::ranges::copy] into a buffer that is large enough. *)
Definition blit {A} (dst : list A) (offset : Z) (src : list A) : list A :=
  ztake offset dst ++ src ++ zdrop (offset + zlen src) dst.

(** ** Tactics *)


(** Case analysis on the scrutinee of a [match] or [if] in the goal. *)
Ltac split_match :=
  match goal with
  | |- context [match ?x with _ => _ end] =>
    lazymatch x with
    | context [match _ with _ => _ end] => fail
    | _ => destruct x eqn:?
    end
  end.
Ltac split_match_in H :=
  match type of H with
  | context [match ?x with _ => _ end] =>
    lazymatch x with
    | context [match _ with _ => _ end] => fail
    | _ => destruct x eqn:?
    end
  end.

(** Turns boolean tests of the code into propositions. *)
Ltac bool_prop :=
  repeat match goal with
  | H : (_ && _)%bool = true |- _ => apply andb_true_iff in H as [? ?]
  | H : (_ || _)%bool = false |- _ => apply orb_false_iff in H as [? ?]
  | H : (_ || _)%bool = true |- _ => apply orb_true_iff in H
  | H : (_ && _)%bool = false |- _ => apply andb_false_iff in H
  | H : negb _ = true |- _ => apply negb_true_iff in H
  | H : negb _ = false |- _ => apply negb_false_iff in H
  | H : bool_decide _ = true |- _ => apply bool_decide_eq_true in H
  | H : bool_decide _ = false |- _ => apply bool_decide_eq_false in H
  | H : (_ =? _) = true |- _ => apply Z.eqb_eq in H
  | H : (_ =? _) = false |- _ => apply Z.eqb_neq in H
  | H : (_ <=? _) = true |- _ => apply Z.leb_le in H
  | H : (_ <=? _) = false |- _ => apply Z.leb_gt in H
  | H : (_ <? _) = true |- _ => apply Z.ltb_lt in H
  | H : (_ <? _) = false |- _ => apply Z.ltb_ge in H
  end.

(** ** Lemmas *)
Create HintDb netlink discriminated.

Lemma wrap_bounds w z : 0 <= w -> is_uint w (wrap w z).
Proof. intros. unfold is_uint, wrap. apply Z.mod_pos_bound. lia. Qed.

Lemma wrap_small w z : is_uint w z -> wrap w z = z.
Proof. unfold is_uint, wrap. apply Z.mod_small. Qed.

Lemma wrap_wrap w z : 0 <= w -> wrap w (wrap w z) = wrap w z.
Proof. intros. by apply wrap_small, wrap_bounds. Qed.

#[export] Hint Resolve wrap_bounds : netlink.

Lemma byteZ_range b : is_uint 8 (byteZ b).
Proof.
  unfold is_uint, byteZ. pose proof (Byte.to_N_bounded b).
  change (2 ^ 8) with 256. lia.
Qed.

Lemma byteZ_toByte z : byteZ (toByte z) = wrap 8 z.
Proof.
  unfold byteZ, toByte. pose proof (wrap_bounds 8 z ltac:(lia)) as Hb.
  unfold is_uint in Hb. change (2 ^ 8) with 256 in Hb.
  destruct (Byte.of_N (Z.to_N (wrap 8 z))) as [b|] eqn:E; simpl.
  - apply Byte.to_of_N in E. rewrite E. lia.
  - apply Byte.of_N_None_iff in E. lia.
Qed.

Lemma toByte_byteZ b : toByte (byteZ b) = b.
Proof.
  unfold toByte. rewrite wrap_small by apply byteZ_range.
  unfold byteZ. rewrite N2Z.id, Byte.of_to_N. done.
Qed.

Lemma byteZ_inj b1 b2 : byteZ b1 = byteZ b2 -> b1 = b2.
Proof. intros E. by rewrite <- (toByte_byteZ b1), E, toByte_byteZ. Qed.

#[export] Hint Resolve byteZ_range : netlink.

Section zlists.
Context {A : Type}.
Implicit Types l k : list A.

Lemma zlen_nonneg l : 0 <= zlen l.
Proof. unfold zlen. lia. Qed.

Lemma zlen_app l k : zlen (l ++ k) = zlen l + zlen k.
Proof. unfold zlen. rewrite length_app. lia. Qed.

Lemma zlen_cons x l : zlen (x :: l) = 1 + zlen l.
Proof. unfold zlen. simpl length. lia. Qed.

Lemma zlen_nil : zlen (@nil A) = 0.
Proof. done. Qed.

Lemma zlen_replicate n (x : A) : 0 <= n -> zlen (replicate (Z.to_nat n) x) = n.
Proof. intros. unfold zlen. rewrite length_replicate. lia. Qed.

Lemma zlen_nil_inv l : zlen l = 0 -> l = [].
Proof. unfold zlen. intros. apply nil_length_inv. lia. Qed.

Lemma zlen_ztake n l : zlen (ztake n l) = Z.min (Z.max 0 n) (zlen l).
Proof. unfold zlen, ztake. rewrite length_take. lia. Qed.

Lemma zlen_zdrop n l : zlen (zdrop n l) = zlen l - Z.min (Z.max 0 n) (zlen l).
Proof. unfold zlen, zdrop. rewrite length_drop. lia. Qed.

Lemma ztake_zdrop n l : ztake n l ++ zdrop n l = l.
Proof. apply take_drop. Qed.

Lemma ztake_app_exact n l k : zlen l = n -> ztake n (l ++ k) = l.
Proof. unfold zlen, ztake. intros <-. rewrite Nat2Z.id. apply take_app_length. Qed.

Lemma zdrop_app_exact n l k : zlen l = n -> zdrop n (l ++ k) = k.
Proof. unfold zlen, zdrop. intros <-. rewrite Nat2Z.id. apply drop_app_length. Qed.

Lemma ztake_zlen n l : ztake (zlen (ztake n l)) l = ztake n l.
Proof.
  unfold ztake, zlen. rewrite Nat2Z.id, length_take.
  destruct (Nat.le_ge_cases (Z.to_nat n) (length l)).
  - by rewrite Nat.min_l.
  - by rewrite Nat.min_r, !take_ge by lia.
Qed.

Lemma ztake_ge n l : zlen l <= n -> ztake n l = l.
Proof. unfold zlen, ztake. intros. apply take_ge. lia. Qed.

Lemma zdrop_ge n l : zlen l <= n -> zdrop n l = [].
Proof. unfold zlen, zdrop. intros. apply drop_ge. lia. Qed.

Lemma zdrop_zdrop m n l : 0 <= m -> 0 <= n -> zdrop m (zdrop n l) = zdrop (n + m) l.
Proof. unfold zdrop. intros. rewrite drop_drop. f_equal. lia. Qed.

Lemma zdrop_0 l : zdrop 0 l = l.
Proof. done. Qed.

Lemma zlookup_Some_range l i x : zlookup l i = Some x -> 0 <= i < zlen l.
Proof.
    unfold zlookup, zlen. destruct (Z.ltb_spec i 0); [done|].
    intros H1%lookup_lt_Some. lia.
Qed.

Lemma zlookup_is_Some l i : 0 <= i < zlen l -> is_Some (zlookup l i).
Proof.
    unfold zlookup, zlen. intros. destruct (Z.ltb_spec i 0); [lia|].
    apply lookup_lt_is_Some. lia.
Qed.

Lemma zlookup_app_l l k i : 0 <= i < zlen l -> zlookup (l ++ k) i = zlookup l i.
Proof.
    unfold zlookup, zlen. intros. destruct (i <? 0); [done|].
    apply lookup_app_l. lia.
Qed.

Lemma zlookup_app_r l k i : zlen l <= i -> zlookup (l ++ k) i = zlookup k (i - zlen l).
Proof.
    unfold zlookup, zlen. intros.
    destruct (Z.ltb_spec i 0), (Z.ltb_spec (i - Z.of_nat (length l)) 0); try lia.
    rewrite lookup_app_r by lia. f_equal. lia.
Qed.

(** A copy into a buffer of exactly the right size. *)
Lemma blit_prefix (x : A) n l k :
    n = zlen l + zlen k ->
    blit (blit (replicate (Z.to_nat n) x) 0 l) (zlen l) k = l ++ k.
Proof.
    intros ->. pose proof (zlen_nonneg l). pose proof (zlen_nonneg k).
    assert (E : blit (replicate (Z.to_nat (zlen l + zlen k)) x) 0 l =
                l ++ zdrop (zlen l) (replicate (Z.to_nat (zlen l + zlen k)) x)) by done.
    rewrite E. unfold blit.
    rewrite ztake_app_exact by done. f_equal.
    rewrite zdrop_ge, app_nil_r; [done|].
    rewrite zlen_app, zlen_zdrop, zlen_replicate by lia. lia.
Qed.

Lemma zlookup_lookup l i : 0 <= i -> zlookup l i = l !! Z.to_nat i.
Proof. unfold zlookup. intros. by destruct (Z.ltb_spec i 0); [lia|]. Qed.

Lemma list_eq_zlookup l k : (forall i, 0 <= i -> zlookup l i = zlookup k i) -> l = k.
Proof.
    intros H. apply list_eq. intros i. specialize (H (Z.of_nat i) ltac:(lia)).
    rewrite !zlookup_lookup, Nat2Z.id in H by lia. done.
Qed.

Lemma zlookup_ztake n l i : i < n -> zlookup (ztake n l) i = zlookup l i.
Proof.
    intros. unfold zlookup, ztake. destruct (Z.ltb_spec i 0); [done|].
    rewrite lookup_take. by rewrite decide_True by lia.
Qed.

Lemma zlookup_zdrop n l i : 0 <= n -> 0 <= i -> zlookup (zdrop n l) i = zlookup l (n + i).
Proof.
    intros. rewrite !zlookup_lookup by lia. unfold zdrop. rewrite lookup_drop. f_equal. lia.
Qed.

Lemma zlookup_ge l i : zlen l <= i -> zlookup l i = None.
Proof.
    intros. destruct (zlookup l i) eqn:E; [|done]. apply zlookup_Some_range in E. lia.
Qed.

Lemma zlen_blit dst off src :
    0 <= off -> off + zlen src <= zlen dst -> zlen (@blit A dst off src) = zlen dst.
Proof.
    intros. unfold blit. rewrite !zlen_app, zlen_ztake, zlen_zdrop.
    pose proof (zlen_nonneg src). lia.
Qed.

Lemma zlookup_blit dst off src i :
    0 <= off -> off + zlen src <= zlen dst -> 0 <= i ->
    zlookup (@blit A dst off src) i =
    if (off <=? i) && (i <? off + zlen src) then zlookup src (i - off) else zlookup dst i.
Proof.
    intros Ho Hl Hi. unfold blit. pose proof (zlen_nonneg src).
    assert (Et : zlen (ztake off dst) = off) by (rewrite zlen_ztake; lia).
    destruct (Z.leb_spec off i); simpl.
    - rewrite zlookup_app_r, Et by lia. destruct (Z.ltb_spec i (off + zlen src)).
      + by rewrite zlookup_app_l by lia.
      + rewrite zlookup_app_r, zlookup_zdrop by lia. f_equal. lia.
    - rewrite zlookup_app_l by lia. by apply zlookup_ztake.
Qed.
End zlists.

#[export] Hint Resolve zlen_nonneg : netlink.
Create Rewrite HintDb zlen.
#[export] Hint Rewrite @zlen_app @zlen_cons @zlen_nil @zlen_ztake @zlen_zdrop : zlen.
