(* ===== verification/Double.v ===== *)
(** * Double-precision arithmetic

    The congestion window and the send budget are C++ [double]s.  A finite double is its
    exact rational value; an operation is the exact operation followed by rounding to the
    nearest multiple of the unit in the last place of a 53-bit significand, ties to even
    (IEEE 754 binary64).  Overflow, subnormal numbers and NaN do not occur in the ranges
    the program uses and are not modelled. *)
From Stdlib Require Import QArith Qpower Qround Lqa.
From S2P Require Import Prelude.

#[local] Open Scope Q_scope.

(** The nearest integer, ties to the even one. *)
Definition nearest (q : Q) : Z :=
  let n := Qnum q in
  let d := Zpos (Qden q) in
  let k := (n / d)%Z in
  let r := (n mod d)%Z in
  if (2 * r <? d)%Z then k
  else if (d <? 2 * r)%Z then (k + 1)%Z
  else if Z.even k then k else (k + 1)%Z.

(** [2 ^ e], for any integer [e]. *)
Definition pow2 (e : Z) : Q := Qpower 2 e.

(** The exponent [e] of [2^e <= q < 2^(e+1)], for a positive [q]. *)
Definition exponent (q : Q) : Z :=
  let k := (Z.log2 (Qnum q) - Z.log2 (Zpos (Qden q)))%Z in
  if Qle_bool (pow2 k) q then k else (k - 1)%Z.

(** Rounding to a multiple of [2^e]. *)
Definition round_to (e : Z) (q : Q) : Q := inject_Z (nearest (q * pow2 (- e))) * pow2 e.

Definition round_pos (q : Q) : Q := round_to (exponent q - 52) q.

Definition rnd (q : Q) : Q :=
  Qred (if (Qnum q =? 0)%Z then 0
        else if (Qnum q <? 0)%Z then - round_pos (- q) else round_pos q).

(** The operations of the program. *)
Definition dadd (a b : Q) : Q := rnd (a + b).
Definition dsub (a b : Q) : Q := rnd (a - b).
Definition dmul (a b : Q) : Q := rnd (a * b).
Definition ddiv (a b : Q) : Q := rnd (a / b).
Definition dofZ (z : Z) : Q := rnd (inject_Z z).
Definition dltb (a b : Q) : bool := negb (Qle_bool b a).
Definition dleb (a b : Q) : bool := Qle_bool a b.

(** [std::min], [std::max] and the conversion to [size_t] of a non-negative value. *)
Definition dmin (a b : Q) : Q := if dltb b a then b else a.
Definition dmax (a b : Q) : Q := if dltb a b then b else a.
Definition dtrunc (a : Q) : Z := Qfloor a.

(** ** Rounding is monotone, and exact on small integers *)
Lemma nearest_bounds q :
  inject_Z (nearest q) - (1 # 2) <= q <= inject_Z (nearest q) + (1 # 2) /\
  (q == inject_Z (nearest q) - (1 # 2) \/ q == inject_Z (nearest q) + (1 # 2) ->
   Z.even (nearest q) = true).
Proof.
  destruct q as [n d]. unfold nearest; cbn [Qnum Qden].
  pose proof (Z.div_mod n (Zpos d) ltac:(lia)) as E.
  pose proof (Z.mod_pos_bound n (Zpos d) ltac:(lia)) as B.
  set (k := (n / Zpos d)%Z) in *. set (r := (n mod Zpos d)%Z) in *.
  unfold Qle, Qeq, Qminus, Qplus, Qopp, inject_Z; cbn [Qnum Qden].
  destruct (Z.ltb_spec (2 * r) (Zpos d)); [|destruct (Z.ltb_spec (Zpos d) (2 * r))].
  - split; [split; nia|]. intros; nia.
  - split; [split; nia|]. intros; nia.
  - destruct (Z.even k) eqn:Ek.
    + split; [split; nia|done].
    + split; [split; nia|]. intros _. rewrite Z.add_1_r, Z.even_succ, <- Z.negb_even, Ek. done.
Qed.

Lemma inject_Z_succ x y : (x < y)%Z -> inject_Z x + 1 <= inject_Z y.
Proof. intros. change 1 with (inject_Z 1). rewrite <- inject_Z_plus, <- Zle_Qle. lia. Qed.

Lemma nearest_mono p q : p <= q -> (nearest p <= nearest q)%Z.
Proof.
  intros Hpq. destruct (Z.le_gt_cases (nearest p) (nearest q)) as [|Hlt]; [done|exfalso].
  destruct (nearest_bounds p) as [[Lp Up] Tp]. destruct (nearest_bounds q) as [[Lq Uq] Tq].
  pose proof (inject_Z_succ _ _ Hlt) as Hs.
  assert (Ep : p == inject_Z (nearest p) - (1 # 2)) by lra.
  assert (Eq : q == inject_Z (nearest q) + (1 # 2)) by lra.
  specialize (Tp (or_introl Ep)). specialize (Tq (or_intror Eq)).
  assert (Es : nearest p = (nearest q + 1)%Z).
  { assert (Hle : inject_Z (nearest p) <= inject_Z (nearest q + 1)).
    { rewrite inject_Z_plus. change (inject_Z 1) with 1. lra. }
    rewrite <- Zle_Qle in Hle. lia. }
  rewrite Es, Z.add_1_r, Z.even_succ, <- Z.negb_even, Tq in Tp. done.
Qed.

Lemma nearest_Z q z : q == inject_Z z -> nearest q = z.
Proof.
  intros E. destruct (nearest_bounds q) as [[L U] _].
  destruct (Z.lt_trichotomy (nearest q) z) as [H|[H|H]]; [|done|];
    apply inject_Z_succ in H; exfalso; lra.
Qed.

#[global] Instance nearest_proper : Proper (Qeq ==> eq) nearest.
Proof.
  intros p q E. apply Z.le_antisymm; apply nearest_mono; lra.
Qed.

Lemma pow2_pos e : 0 < pow2 e.
Proof. by apply Qpower_0_lt. Qed.

Lemma pow2_add a b : pow2 (a + b) == pow2 a * pow2 b.
Proof. by apply Qpower_plus. Qed.

Lemma pow2_opp e : pow2 (- e) * pow2 e == 1.
Proof. rewrite <- pow2_add, Z.add_opp_diag_l. done. Qed.

Lemma pow2_Z e : (0 <= e)%Z -> pow2 e == inject_Z (2 ^ e).
Proof. intros. unfold pow2. rewrite Zpower_Qpower by done. reflexivity. Qed.

Lemma pow2_le a b : (a <= b)%Z -> pow2 a <= pow2 b.
Proof.
  intros. replace b with (a + (b - a))%Z by lia. rewrite pow2_add.
  pose proof (pow2_pos a).
  assert (1 <= pow2 (b - a)).
  { rewrite pow2_Z by lia. change 1 with (inject_Z 1). rewrite <- Zle_Qle. lia. }
  nra.
Qed.

(** A rounded value does not cross a multiple of the unit. *)
Lemma round_to_le e q k : q <= inject_Z k * pow2 e -> round_to e q <= inject_Z k * pow2 e.
Proof.
  intros H. unfold round_to. pose proof (pow2_pos e). pose proof (pow2_pos (- e)).
  pose proof (pow2_opp e).
  apply Qmult_le_compat_r; [|lra]. rewrite <- Zle_Qle.
  rewrite <- (nearest_Z (inject_Z k) k) by done. apply nearest_mono.
  apply Qle_trans with (inject_Z k * pow2 e * pow2 (- e)).
  - apply Qmult_le_compat_r; lra.
  - rewrite <- Qmult_assoc, (Qmult_comm (pow2 e)), pow2_opp. lra.
Qed.

Lemma round_to_ge e q k : inject_Z k * pow2 e <= q -> inject_Z k * pow2 e <= round_to e q.
Proof.
  intros H. unfold round_to. pose proof (pow2_pos e). pose proof (pow2_pos (- e)).
  pose proof (pow2_opp e).
  apply Qmult_le_compat_r; [|lra]. rewrite <- Zle_Qle.
  rewrite <- (nearest_Z (inject_Z k) k) by done. apply nearest_mono.
  apply Qle_trans with (inject_Z k * pow2 e * pow2 (- e)).
  - rewrite <- Qmult_assoc, (Qmult_comm (pow2 e)), pow2_opp. lra.
  - apply Qmult_le_compat_r; lra.
Qed.

Lemma round_to_mono e p q : p <= q -> round_to e p <= round_to e q.
Proof.
  intros. unfold round_to. pose proof (pow2_pos e). pose proof (pow2_pos (- e)).
  apply Qmult_le_compat_r; [|lra]. rewrite <- Zle_Qle. apply nearest_mono.
  apply Qmult_le_compat_r; lra.
Qed.

Lemma exponent_spec q : 0 < q -> pow2 (exponent q) <= q /\ q < pow2 (exponent q + 1).
Proof.
  intros Hq. destruct q as [n d]. assert (Hn : (0 < n)%Z) by (unfold Qlt in Hq; simpl in Hq; lia).
  unfold exponent; cbn [Qnum Qden].
  pose proof (Z.log2_spec n Hn) as [Ln Un]. pose proof (Z.log2_nonneg n).
  pose proof (Z.log2_spec (Zpos d) ltac:(lia)) as [Ld Ud]. pose proof (Z.log2_nonneg (Zpos d)).
  set (a := Z.log2 n) in *. set (b := Z.log2 (Zpos d)) in *.
  assert (Eq : n # d == inject_Z n / inject_Z (Zpos d)) by apply Qmake_Qdiv.
  assert (Hd : 0 < inject_Z (Zpos d)) by done.
  assert (Ln' : pow2 a <= inject_Z n) by (rewrite pow2_Z, <- Zle_Qle by lia; lia).
  assert (Un' : inject_Z n < pow2 (a + 1)) by (rewrite pow2_Z, <- Zlt_Qlt by lia; lia).
  assert (Ld' : pow2 b <= inject_Z (Zpos d)) by (rewrite pow2_Z, <- Zle_Qle by lia; lia).
  assert (Ud' : inject_Z (Zpos d) < pow2 (b + 1)) by (rewrite pow2_Z, <- Zlt_Qlt by lia; lia).
  assert (Hhi : n # d < pow2 (a - b + 1)).
  { rewrite Eq. apply Qlt_shift_div_r; [done|].
    apply Qlt_le_trans with (pow2 (a + 1)); [done|].
    replace (a + 1)%Z with (a - b + 1 + b)%Z by lia. rewrite (pow2_add _ b).
    pose proof (pow2_pos (a - b + 1)). nra. }
  assert (Hlo : pow2 (a - b - 1) <= n # d).
  { rewrite Eq. apply Qle_shift_div_l; [done|].
    apply Qle_trans with (pow2 a); [|done].
    replace a with (a - b - 1 + (b + 1))%Z at 2 by lia. rewrite (pow2_add _ (b + 1)).
    pose proof (pow2_pos (a - b - 1)). nra. }
  destruct (Qle_bool (pow2 (a - b)) (n # d)) eqn:E.
  - by apply Qle_bool_iff in E.
  - split; [done|]. rewrite Z.sub_add. apply Qnot_le_lt. intros Hc%Qle_bool_iff. congruence.
Qed.

Lemma exponent_mono p q : 0 < p -> p <= q -> (exponent p <= exponent q)%Z.
Proof.
  intros Hp Hpq. destruct (exponent_spec p Hp) as [Lp _].
  destruct (exponent_spec q ltac:(lra)) as [_ Uq].
  destruct (Z.le_gt_cases (exponent p) (exponent q)) as [|Hlt]; [done|].
  pose proof (pow2_le (exponent q + 1) (exponent p) ltac:(lia)). exfalso. lra.
Qed.

(** The rounded value of [q] stays between the powers of two around [q]. *)
Lemma round_pos_range q :
  0 < q -> pow2 (exponent q) <= round_pos q <= pow2 (exponent q + 1).
Proof.
  intros Hq. destruct (exponent_spec q Hq) as [L U]. set (e := exponent q) in *.
  unfold round_pos. fold e.
  assert (E0 : pow2 e == inject_Z (2 ^ 52) * pow2 (e - 52)).
  { rewrite <- pow2_Z, <- pow2_add by lia. by rewrite Zplus_minus. }
  assert (E1 : pow2 (e + 1) == inject_Z (2 ^ 53) * pow2 (e - 52)).
  { rewrite <- pow2_Z, <- pow2_add by lia. replace (53 + (e - 52))%Z with (e + 1)%Z by lia. done. }
  rewrite E0, E1. split; [apply round_to_ge; lra|apply round_to_le; lra].
Qed.

Lemma round_pos_mono p q : 0 < p -> p <= q -> round_pos p <= round_pos q.
Proof.
  intros Hp Hpq. pose proof (exponent_mono p q Hp Hpq) as He.
  destruct (Z.eq_dec (exponent p) (exponent q)) as [E|Hne].
  - unfold round_pos. rewrite E. by apply round_to_mono.
  - destruct (round_pos_range p Hp) as [_ Up].
    destruct (round_pos_range q ltac:(lra)) as [Lq _].
    pose proof (pow2_le (exponent p + 1) (exponent q) ltac:(lia)). lra.
Qed.

Lemma round_pos_pos q : 0 < q -> 0 < round_pos q.
Proof. intros Hq. destruct (round_pos_range q Hq). pose proof (pow2_pos (exponent q)). lra. Qed.

Lemma Qsign q :
  (Qnum q = 0%Z /\ q == 0) \/ ((Qnum q < 0)%Z /\ q < 0) \/ ((0 < Qnum q)%Z /\ 0 < q).
Proof. destruct q as [n d]. unfold Qeq, Qlt; simpl. lia. Qed.

Lemma rnd_cases q :
  (q == 0 /\ rnd q == 0) \/ (q < 0 /\ rnd q == - round_pos (- q)) \/
  (0 < q /\ rnd q == round_pos q).
Proof.
  unfold rnd. rewrite !Qred_correct.
  destruct (Qsign q) as [[E H]|[[E H]|[E H]]].
  - left. rewrite E. done.
  - right; left. destruct (Z.eqb_spec (Qnum q) 0); [lia|].
    destruct (Z.ltb_spec (Qnum q) 0); [|lia]. done.
  - right; right. destruct (Z.eqb_spec (Qnum q) 0); [lia|].
    destruct (Z.ltb_spec (Qnum q) 0); [lia|]. done.
Qed.

Lemma rnd_mono p q : p <= q -> rnd p <= rnd q.
Proof.
  intros H. destruct (rnd_cases p) as [[Hp Ep]|[[Hp Ep]|[Hp Ep]]];
    destruct (rnd_cases q) as [[Hq Eq]|[[Hq Eq]|[Hq Eq]]]; try (exfalso; lra);
    rewrite Ep, Eq.
  - lra.
  - pose proof (round_pos_pos q Hq). lra.
  - pose proof (round_pos_pos (- p) ltac:(lra)). lra.
  - pose proof (round_pos_mono (- q) (- p) ltac:(lra) ltac:(lra)). lra.
  - pose proof (round_pos_pos (- p) ltac:(lra)). pose proof (round_pos_pos q Hq). lra.
  - apply round_pos_mono; lra.
Qed.

#[global] Instance rnd_proper : Proper (Qeq ==> Qeq) rnd.
Proof. intros p q E. apply Qle_antisym; apply rnd_mono; lra. Qed.

Lemma round_to_exact e q k : q == inject_Z k * pow2 e -> round_to e q == q.
Proof.
  intros E. apply Qle_antisym.
  - rewrite E at 2. apply round_to_le. lra.
  - rewrite E at 1. apply round_to_ge. lra.
Qed.

Lemma round_pos_Z z : (0 < z <= 2 ^ 53)%Z -> round_pos (inject_Z z) == inject_Z z.
Proof.
  intros Hz. assert (Hq : 0 < inject_Z z) by (change 0 with (inject_Z 0); rewrite <- Zlt_Qlt; lia).
  destruct (exponent_spec _ Hq) as [L U]. unfold round_pos. set (e := exponent (inject_Z z)) in *.
  destruct (Z.le_gt_cases e 52) as [He|He].
  - apply round_to_exact with (z * 2 ^ (52 - e))%Z.
    rewrite inject_Z_mult, <- pow2_Z, <- Qmult_assoc, <- pow2_add by lia.
    replace (52 - e + (e - 52))%Z with 0%Z by lia. rewrite Qmult_1_r. reflexivity.
  - assert (E : (2 ^ 53 <= z)%Z).
    { rewrite Zle_Qle. rewrite <- pow2_Z by lia.
      pose proof (pow2_le 53 e ltac:(lia)). lra. }
    assert (Ez : z = (2 ^ 53)%Z) by lia.
    assert (He' : e = 53%Z).
    { destruct (Z.eq_dec e 53) as [|Hne]; [done|exfalso].
      pose proof (pow2_le 54 e ltac:(lia)) as Hp. rewrite Ez, <- pow2_Z in L by lia.
      assert (H54 : pow2 54 <= pow2 53) by lra. by vm_compute in H54. }
    rewrite He', Ez. apply round_to_exact with (2 ^ 52)%Z.
    rewrite <- !pow2_Z, <- pow2_add by lia. reflexivity.
Qed.

(** Integers of at most 53 bits are doubles. *)
Lemma rnd_Z z : (- 2 ^ 53 <= z <= 2 ^ 53)%Z -> rnd (inject_Z z) == inject_Z z.
Proof.
  intros Hz. destruct (rnd_cases (inject_Z z)) as [[Hp Ep]|[[Hp Ep]|[Hp Ep]]]; rewrite Ep.
  - by symmetry.
  - change (- inject_Z z) with (inject_Z (- z)). rewrite round_pos_Z.
    + rewrite inject_Z_opp. lra.
    + change 0 with (inject_Z 0) in Hp. rewrite <- Zlt_Qlt in Hp. lia.
  - apply round_pos_Z. change 0 with (inject_Z 0) in Hp. rewrite <- Zlt_Qlt in Hp. lia.
Qed.

Lemma rnd_le_Z q z : (- 2 ^ 53 <= z <= 2 ^ 53)%Z -> q <= inject_Z z -> rnd q <= inject_Z z.
Proof. intros Hz Hq. rewrite <- (rnd_Z z) by done. by apply rnd_mono. Qed.

Lemma rnd_ge_Z q z : (- 2 ^ 53 <= z <= 2 ^ 53)%Z -> inject_Z z <= q -> inject_Z z <= rnd q.
Proof. intros Hz Hq. rewrite <- (rnd_Z z) by done. by apply rnd_mono. Qed.

Lemma dltb_lt a b : dltb a b = true <-> a < b.
Proof.
  unfold dltb. rewrite negb_true_iff. split.
  - intros E. apply Qnot_le_lt. intros H%Qle_bool_iff. congruence.
  - intros H. apply not_true_is_false. rewrite Qle_bool_iff. lra.
Qed.

Lemma dleb_le a b : dleb a b = true <-> a <= b.
Proof. apply Qle_bool_iff. Qed.

Lemma dmin_spec a b : dmin a b <= a /\ dmin a b <= b /\ (dmin a b = a \/ dmin a b = b).
Proof.
  unfold dmin. destruct (dltb b a) eqn:E.
  - apply dltb_lt in E. split_and!; [lra|lra|by right].
  - split_and!; [lra| |by left]. apply Qnot_lt_le. rewrite <- dltb_lt. congruence.
Qed.

Lemma dmax_spec a b : a <= dmax a b /\ b <= dmax a b /\ (dmax a b = a \/ dmax a b = b).
Proof.
  unfold dmax. destruct (dltb a b) eqn:E.
  - apply dltb_lt in E. split_and!; [lra|lra|by right].
  - split_and!; [lra| |by left]. apply Qnot_lt_le. rewrite <- dltb_lt. congruence.
Qed.

Lemma dtrunc_bounds a : inject_Z (dtrunc a) <= a < inject_Z (dtrunc a) + 1.
Proof.
  split; [apply Qfloor_le|]. pose proof (Qlt_floor a) as H.
  rewrite inject_Z_plus in H. done.
Qed.

(** 0.1 + 0.2 is not 0.3: the values of the hardware. *)
Example double_sum :
  dadd (ddiv 1 10) (ddiv 2 10) = 1351079888211149 # 4503599627370496 /\
  ddiv 3 10 = 5404319552844595 # 18014398509481984.
Proof. split; reflexivity. Qed.
