(* ===== verification/ByteOrder.v ===== *)
(** * Big-endian fields of the wire format

    [Channel/Protocol/ByteOrder.h].  A write yields the bytes it stores at [out]; a
    read looks at the bytes from an offset on.  Reading past the end of the buffer is
    undefined behaviour in the source: it is [None] here, so that a decoder that
    returns [Some _] on every input never leaves its buffer. *)
From S2P Require Import Prelude.

Definition writeUint16 (value : Z) : bytes :=
  [toByte (Z.shiftr value 8); toByte value].

Definition writeUint32 (value : Z) : bytes :=
  [toByte (Z.shiftr value 24); toByte (Z.shiftr value 16); toByte (Z.shiftr value 8);
   toByte value].

Definition writeUint64 (value : Z) : bytes :=
  writeUint32 (u32 (Z.shiftr value 32)) ++ writeUint32 (u32 value).

Definition readUint8 (buf : bytes) (at_ : Z) : option Z := byteZ <$> zlookup buf at_.

Definition readUint16 (buf : bytes) (at_ : Z) : option Z :=
  b0 ← readUint8 buf at_;
  b1 ← readUint8 buf (at_ + 1);
  Some (u16 (Z.lor (Z.shiftl b0 8) b1)).

Definition readUint32 (buf : bytes) (at_ : Z) : option Z :=
  b0 ← readUint8 buf at_;
  b1 ← readUint8 buf (at_ + 1);
  b2 ← readUint8 buf (at_ + 2);
  b3 ← readUint8 buf (at_ + 3);
  Some (Z.lor (Z.lor (Z.lor (u32 (Z.shiftl b0 24)) (u32 (Z.shiftl b1 16)))
                     (u32 (Z.shiftl b2 8))) b3).

Definition readUint64 (buf : bytes) (at_ : Z) : option Z :=
  hi ← readUint32 buf at_;
  lo ← readUint32 buf (at_ + 4);
  Some (Z.lor (u64 (Z.shiftl hi 32)) lo).

#[global] Arguments writeUint16 : simpl never.
#[global] Arguments writeUint32 : simpl never.
#[global] Arguments writeUint64 : simpl never.

(** ** Arithmetic of shifted fields *)
Lemma shiftr_div z n : 0 <= n -> Z.shiftr z n = z / 2 ^ n.
Proof. intros. by apply Z.shiftr_div_pow2. Qed.

Lemma land_shiftl_small n a b :
  0 <= n -> 0 <= b < 2 ^ n -> Z.land (Z.shiftl a n) b = 0.
Proof.
  intros Hn Hb. apply Z.bits_inj'. intros i Hi. rewrite Z.land_spec, Z.bits_0.
  destruct (Z.lt_ge_cases i n).
  - by rewrite Z.shiftl_spec_low by lia.
  - rewrite <- (Z.mod_small b (2 ^ n)) by done.
    rewrite Z.mod_pow2_bits_high by lia. apply andb_false_r.
Qed.

Lemma lor_shiftl_add n a b :
  0 <= n -> 0 <= b < 2 ^ n -> Z.lor (Z.shiftl a n) b = a * 2 ^ n + b.
Proof.
  intros Hn Hb. rewrite <- Z.shiftl_mul_pow2 by done.
  pose proof (Z.add_lor_land (Z.shiftl a n) b).
  rewrite land_shiftl_small in * by done. lia.
Qed.

Ltac pow_const :=
  change (2 ^ 8) with 256 in *; change (2 ^ 16) with 65536 in *;
  change (2 ^ 24) with 16777216 in *; change (2 ^ 31) with 2147483648 in *;
  change (2 ^ 32) with 4294967296 in *; change (2 ^ 64) with 18446744073709551616 in *.

(** Joining bytes the way the readers do is positional notation. *)
Lemma join16 b0 b1 :
  is_uint 8 b0 -> is_uint 8 b1 -> wrap 16 (Z.lor (Z.shiftl b0 8) b1) = b0 * 256 + b1.
Proof.
  unfold is_uint. intros. rewrite lor_shiftl_add by lia.
  apply wrap_small. unfold is_uint. pow_const. lia.
Qed.

Lemma join32 b0 b1 b2 b3 :
  is_uint 8 b0 -> is_uint 8 b1 -> is_uint 8 b2 -> is_uint 8 b3 ->
  Z.lor (Z.lor (Z.lor (wrap 32 (Z.shiftl b0 24)) (wrap 32 (Z.shiftl b1 16)))
               (wrap 32 (Z.shiftl b2 8))) b3
  = ((b0 * 256 + b1) * 256 + b2) * 256 + b3.
Proof.
  unfold is_uint. intros.
  rewrite !wrap_small by
    (unfold is_uint; rewrite Z.shiftl_mul_pow2 by lia; pow_const; lia).
  rewrite <- !Z.lor_assoc.
  rewrite (lor_shiftl_add 8) by lia.
  rewrite (lor_shiftl_add 16) by (pow_const; lia).
  rewrite (lor_shiftl_add 24) by (pow_const; lia). pow_const. lia.
Qed.

Lemma join64 hi lo :
  is_uint 32 hi -> is_uint 32 lo ->
  Z.lor (wrap 64 (Z.shiftl hi 32)) lo = hi * 4294967296 + lo.
Proof.
  unfold is_uint. intros.
  rewrite wrap_small by
    (unfold is_uint; rewrite Z.shiftl_mul_pow2 by lia; pow_const; lia).
  by rewrite lor_shiftl_add by lia.
Qed.

(** ** What the readers return

    A read succeeds exactly when the written form of an integer of that width starts
    at the offset: reading inverts writing, and only what a writer stores is read. *)
Definition reads_at (w : bytes) (buf : bytes) (at_ : Z) : Prop :=
  exists pre post, buf = pre ++ w ++ post /\ zlen pre = at_.

Lemma readUint8_at pre b post : readUint8 (pre ++ b :: post) (zlen pre) = Some (byteZ b).
Proof.
  unfold readUint8. rewrite zlookup_app_r by lia. by rewrite Z.sub_diag.
Qed.

Lemma readUint8_shift pre post i :
  0 <= i -> readUint8 (pre ++ post) (zlen pre + i) = readUint8 post i.
Proof.
  intros. unfold readUint8. rewrite zlookup_app_r by lia. do 2 f_equal. lia.
Qed.

Lemma readUint8_inv buf i v :
  readUint8 buf i = Some v -> exists b, v = byteZ b /\ reads_at [b] buf i.
Proof.
  unfold readUint8, zlookup. destruct (Z.ltb_spec i 0); [done|].
  destruct (buf !! Z.to_nat i) as [b|] eqn:E; intros; simplify_eq/=.
  exists b. split; [done|].
  exists (take (Z.to_nat i) buf), (drop (S (Z.to_nat i)) buf). split.
  - simpl. by rewrite take_drop_middle.
  - apply lookup_lt_Some in E. unfold zlen. rewrite length_take. lia.
Qed.

Lemma reads_at_range w buf at_ : reads_at w buf at_ -> 0 <= at_ /\ at_ + zlen w <= zlen buf.
Proof.
  intros (pre & post & -> & <-). autorewrite with zlen.
  pose proof (zlen_nonneg pre). pose proof (zlen_nonneg post). lia.
Qed.

Lemma reads_at_det w1 w2 buf i :
  reads_at w1 buf i -> reads_at w2 buf i -> zlen w1 = zlen w2 -> w1 = w2.
Proof.
  intros (p1 & q1 & -> & H1) (p2 & q2 & E & H2) Hlen.
  unfold zlen in *. apply app_inj_1 in E as [_ E]; [|lia].
  by apply app_inj_1 in E as [E _]; [|lia].
Qed.

(** Adjacent fields. *)
Lemma reads_at_app w1 w2 buf i :
  reads_at w1 buf i -> reads_at w2 buf (i + zlen w1) -> reads_at (w1 ++ w2) buf i.
Proof.
  intros (p1 & q1 & -> & <-) (p2 & q2 & E & H2).
  rewrite app_assoc in E. unfold zlen in *.
  apply app_inj_1 in E as [<- ->]; [|rewrite length_app; lia].
  exists p1, q2. by rewrite <- !app_assoc.
Qed.

Lemma reads_at_app_inv w1 w2 buf i :
  reads_at (w1 ++ w2) buf i -> reads_at w1 buf i /\ reads_at w2 buf (i + zlen w1).
Proof.
  intros (p & q & -> & <-). split.
  - exists p, (w2 ++ q). by rewrite <- !app_assoc.
  - exists (p ++ w1), q. rewrite <- !app_assoc. by autorewrite with zlen.
Qed.

Lemma readUint8_complete b buf i : reads_at [b] buf i -> readUint8 buf i = Some (byteZ b).
Proof. intros (p & q & -> & <-). apply readUint8_at. Qed.

Lemma reads_at_cons b w buf i :
  reads_at (b :: w) buf i <-> reads_at [b] buf i /\ reads_at w buf (i + 1).
Proof.
  change (b :: w) with ([b] ++ w). split.
  - apply reads_at_app_inv.
  - intros [? ?]. by apply reads_at_app.
Qed.

Lemma reads_at_four b0 b1 b2 b3 buf i :
  reads_at [b0; b1; b2; b3] buf i <->
  reads_at [b0] buf i /\ reads_at [b1] buf (i + 1) /\
  reads_at [b2] buf (i + 2) /\ reads_at [b3] buf (i + 3).
Proof.
  rewrite (reads_at_cons b0 [_; _; _]), (reads_at_cons b1 [_; _]), (reads_at_cons b2 [_]).
  by rewrite <- !Z.add_assoc.
Qed.

(** Splitting an integer into its bytes and reading it back. *)
Lemma split16 v : is_uint 16 v -> wrap 8 (Z.shiftr v 8) * 256 + wrap 8 v = v.
Proof.
  unfold is_uint, wrap. rewrite shiftr_div by lia. pow_const. intros.
  Z.div_mod_to_equations. lia.
Qed.

Lemma split32 v :
  is_uint 32 v ->
  ((wrap 8 (Z.shiftr v 24) * 256 + wrap 8 (Z.shiftr v 16)) * 256 + wrap 8 (Z.shiftr v 8)) * 256
  + wrap 8 v = v.
Proof.
  unfold is_uint, wrap. rewrite !shiftr_div by lia. pow_const. intros.
  Z.div_mod_to_equations. lia.
Qed.

Lemma split64 v :
  is_uint 64 v -> wrap 32 (Z.shiftr v 32) * 4294967296 + wrap 32 v = v.
Proof.
  unfold is_uint, wrap. rewrite !shiftr_div by lia. pow_const. intros.
  Z.div_mod_to_equations. lia.
Qed.

Lemma toByte_eq z b : wrap 8 z = byteZ b -> toByte z = b.
Proof. intros E. apply byteZ_inj. by rewrite byteZ_toByte. Qed.

Ltac byte_digits :=
  unfold is_uint, wrap in *; rewrite ?shiftr_div by lia; pow_const;
  Z.div_mod_to_equations; lia.

Lemma writeUint16_join b0 b1 : writeUint16 (byteZ b0 * 256 + byteZ b1) = [b0; b1].
Proof.
  pose proof (byteZ_range b0). pose proof (byteZ_range b1).
  unfold writeUint16. repeat f_equal; apply toByte_eq; byte_digits.
Qed.

Lemma writeUint32_join b0 b1 b2 b3 :
  writeUint32 (((byteZ b0 * 256 + byteZ b1) * 256 + byteZ b2) * 256 + byteZ b3)
  = [b0; b1; b2; b3].
Proof.
  pose proof (byteZ_range b0). pose proof (byteZ_range b1).
  pose proof (byteZ_range b2). pose proof (byteZ_range b3).
  unfold writeUint32. repeat f_equal; apply toByte_eq; byte_digits.
Qed.

Lemma writeUint64_join hi lo :
  is_uint 32 hi -> is_uint 32 lo ->
  writeUint64 (hi * 4294967296 + lo) = writeUint32 hi ++ writeUint32 lo.
Proof. intros. unfold writeUint64. do 2 f_equal; byte_digits. Qed.

Lemma writeUint16_length v : zlen (writeUint16 v) = 2.
Proof. done. Qed.
Lemma writeUint32_length v : zlen (writeUint32 v) = 4.
Proof. done. Qed.
Lemma writeUint64_length v : zlen (writeUint64 v) = 8.
Proof. done. Qed.
#[export] Hint Rewrite writeUint16_length writeUint32_length writeUint64_length : zlen.

Lemma bind_Some_inv {A B} (m : option A) (f : A -> option B) y :
  m ≫= f = Some y -> exists x, m = Some x /\ f x = Some y.
Proof. destruct m; simpl; eauto; done. Qed.

Ltac invert_reads :=
  repeat match goal with
  | H : (_ ≫= _) = Some _ |- _ =>
    let v := fresh "v" in let E := fresh "E" in apply bind_Some_inv in H as (v & E & H)
  | H : readUint8 _ _ = Some _ |- _ => apply readUint8_inv in H as (? & -> & ?)
  end.

(** The reader of each width accepts exactly what the writer of that width stores. *)
Lemma readUint16_spec buf i v :
  readUint16 buf i = Some v <-> is_uint 16 v /\ reads_at (writeUint16 v) buf i.
Proof.
  split.
  - unfold readUint16. intros H. invert_reads. simplify_eq.
    rewrite join16 by apply byteZ_range. split.
    + pose proof (byteZ_range x). pose proof (byteZ_range x0).
      unfold is_uint in *; pow_const; lia.
    + rewrite writeUint16_join, reads_at_cons. done.
  - intros [Hv (H0 & H1)%reads_at_cons]. unfold readUint16.
    rewrite (readUint8_complete _ _ _ H0). simpl.
    rewrite (readUint8_complete _ _ _ H1). simpl. f_equal.
    rewrite join16 by apply byteZ_range. rewrite !byteZ_toByte. by apply split16.
Qed.

Lemma readUint32_spec buf i v :
  readUint32 buf i = Some v <-> is_uint 32 v /\ reads_at (writeUint32 v) buf i.
Proof.
  split.
  - unfold readUint32. intros H. invert_reads. simplify_eq.
    rewrite join32 by apply byteZ_range. split.
    + pose proof (byteZ_range x). pose proof (byteZ_range x0).
      pose proof (byteZ_range x1). pose proof (byteZ_range x2).
      unfold is_uint in *; pow_const; lia.
    + by rewrite writeUint32_join, reads_at_four.
  - intros [Hv (H0 & H1 & H2 & H3)%reads_at_four]. unfold readUint32.
    rewrite (readUint8_complete _ _ _ H0), (readUint8_complete _ _ _ H1),
      (readUint8_complete _ _ _ H2), (readUint8_complete _ _ _ H3). simpl. f_equal.
    rewrite join32 by apply byteZ_range. rewrite !byteZ_toByte. by apply split32.
Qed.

Lemma readUint64_spec buf i v :
  readUint64 buf i = Some v <-> is_uint 64 v /\ reads_at (writeUint64 v) buf i.
Proof.
  split.
  - unfold readUint64. intros H. invert_reads.
    apply readUint32_spec in E as [Hhi Rhi]. apply readUint32_spec in E0 as [Hlo Rlo].
    simplify_eq. rewrite join64 by done. split.
    + clear Rhi Rlo. unfold is_uint in *; pow_const; lia.
    + rewrite writeUint64_join by done. by apply reads_at_app.
  - intros [Hv (Hhi & Hlo)%reads_at_app_inv]. unfold readUint64.
    rewrite writeUint32_length in Hlo.
    rewrite (proj2 (readUint32_spec _ _ _) (conj (wrap_bounds 32 _ ltac:(lia)) Hhi)). simpl.
    rewrite (proj2 (readUint32_spec _ _ _) (conj (wrap_bounds 32 _ ltac:(lia)) Hlo)). simpl.
    rewrite join64 by (apply wrap_bounds; lia). by rewrite split64.
Qed.

(** A read of a field that lies inside the buffer succeeds. *)
Lemma readUint8_total buf i : 0 <= i < zlen buf -> is_Some (readUint8 buf i).
Proof. intros [b E]%zlookup_is_Some. unfold readUint8. rewrite E. by eexists. Qed.

Ltac total_reads :=
  repeat match goal with
  | |- context [readUint8 ?b ?i] =>
    let E := fresh in
    destruct (readUint8_total b i ltac:(lia)) as [? E]; rewrite E; clear E; simpl
  end.

Lemma readUint16_total buf i : 0 <= i -> i + 2 <= zlen buf -> is_Some (readUint16 buf i).
Proof. intros. unfold readUint16. total_reads. by eexists. Qed.

Lemma readUint32_total buf i : 0 <= i -> i + 4 <= zlen buf -> is_Some (readUint32 buf i).
Proof. intros. unfold readUint32. total_reads. by eexists. Qed.

Lemma readUint64_total buf i : 0 <= i -> i + 8 <= zlen buf -> is_Some (readUint64 buf i).
Proof.
  intros. unfold readUint64.
  destruct (readUint32_total buf i) as [? ->]; [lia..|]. simpl.
  destruct (readUint32_total buf (i + 4)) as [? ->]; [lia..|]. by eexists.
Qed.
