(* ===== verification/Constants.v ===== *)
(** * The fixed numbers of the transport

    [TransportConstants.h] and the limits of [NetLink.h].  Sizes are in bytes, durations
    in nanoseconds. *)
From S2P Require Import Prelude.

Definition PackageBufferSize : Z := 65536.
Definition MaxMessagePayload : Z := 16 * 1024 * 1024.
Definition MaxMediaPayload : Z := 64 * 1024.
Definition MaxDatagramSize : Z := 1200.

Definition BeaconInterval : Duration := ms 2000.
Definition PeerExpiry : Duration := ms 6000.
Definition MaxDiscoveredPeers : Z := 1024.
Definition DecisionTimeout : Duration := ms 30000.
Definition DrainTimeout : Duration := ms 1000.
Definition CloseLinger : Duration := ms 250.
Definition MaxPendingSessions : Z := 64.

Definition ControlWindow : Z := 32.
Definition ReliableWindow : Z := 256.
Definition BulkWindow : Z := 256.

Definition MinCongestionWindow : Z := 8.
Definition MaxCongestionWindow : Z := 256.
Definition InitialCongestionWindow : Z := 32.

Definition FastRetransmitThreshold : Z := 3.
(** in milliseconds *)
Definition MinPauseProbeInterval : Z := 50.

Definition MediaQueueMessages : Z := 32.
Definition MediaAssemblySlots : nat := 4.

Definition BacklogPauseBytes : Z := 32 * 1024 * 1024.
Definition BacklogResumeBytes : Z := 16 * 1024 * 1024.
Definition AssemblyBudgetBytes : Z := 256 * 1024 * 1024.
Definition DefaultSendQueueBytes : Z := 64 * 1024 * 1024.
Definition DefaultMaxSendRate : Z := 80000.

(** [netlink::MaxMessageSize], [netlink::MaxMediaMessageSize], [netlink::MaxDisplayName] and
    [netlink::MaxPeers] *)
Definition MaxMessageSize : Z := Z.shiftl 16 20.
Definition MaxMediaMessageSize : Z := Z.shiftl 64 10.
Definition MaxDisplayName : Z := 64.
Definition MaxPeers : Z := 256.

(** The members of type [std::chrono::milliseconds] are numbers of milliseconds. *)
Record LinkTimings := mkLinkTimings {
  initialRto : Z;
  minRto : Z;
  maxRto : Z;
  peerTimeout : Z;
  keepAlive : Z;
  initialCwnd : Z;
  fixedCwnd : Z;
}.

Definition defaultTimings : LinkTimings :=
  {| initialRto := 100; minRto := 20; maxRto := 1000; peerTimeout := 5000;
     keepAlive := 1000; initialCwnd := InitialCongestionWindow; fixedCwnd := 0 |}.

(** What [std::clamp] and the timers need of the timings. *)
Definition timings_ok (t : LinkTimings) : Prop :=
  0 < minRto t <= maxRto t /\ 0 <= initialRto t /\ 0 < peerTimeout t /\ 0 < keepAlive t /\
  0 <= initialCwnd t < 2 ^ 53 /\ 0 <= fixedCwnd t < 2 ^ 53.

(** What [NetworkEngine.cpp] asserts: the limits of the interface are those of the transport. *)
Lemma limits_agree : MaxMessageSize = MaxMessagePayload /\ MaxMediaMessageSize = MaxMediaPayload.
Proof. done. Qed.
