(* ===== verification/Text.v ===== *)
(** * Decimal numbers in text

    What the sources use of [std::string]: a string is its bytes, [std::to_string] of an
    unsigned number, [std::from_chars] for a [uint16_t], and [find] for a character. *)
From S2P Require Import Prelude.

Abbreviation text := (list Byte.byte) (only parsing).

Definition dot : byte := Byte.x2e.
Definition colon : byte := Byte.x3a.
Definition isDigit (c : byte) : bool := (48 <=? byteZ c) && (byteZ c <=? 57).
Definition digitOf (c : byte) : Z := byteZ c - 48.
Definition digitChar (d : Z) : byte := toByte (48 + d).

(** The value of a row of digits. *)
Definition decimalValue (l : text) : Z := fold_left (fun v c => v * 10 + digitOf c) l 0.

(** [std::to_string]; the logarithm bounds the number of digits. *)
Fixpoint decimalDigits (fuel : nat) (n : Z) : text :=
  match fuel with
  | O => []
  | S fuel => if n <? 10 then [digitChar n] else decimalDigits fuel (n / 10) ++ [digitChar (n mod 10)]
  end.
Definition decimal (n : Z) : text := decimalDigits (S (Z.to_nat (Z.log2 n))) n.

#[global] Arguments decimal : simpl never.

(** The digits a text starts with, and the rest. *)
Fixpoint spanDigits (l : text) : text * text :=
  match l with
  | c :: l' => if isDigit c then let '(ds, rest) := spanDigits l' in (c :: ds, rest) else ([], l)
  | [] => ([], [])
  end.

(** [std::from_chars] into a [uint16_t]: the longest row of digits; [None] is an error,
    no digits or a value that does not fit. *)
Definition fromChars16 (l : text) : option Z :=
  let ds := (spanDigits l).1 in
  if bool_decide (ds = []) then None
  else let v := decimalValue ds in if v <? 2 ^ 16 then Some v else None.

(** [find] of a character: its first position. *)
Fixpoint findChar (c : byte) (l : text) : option nat :=
  match l with
  | [] => None
  | x :: l => if bool_decide (x = c) then Some O else S <$> findChar c l
  end.

(** ** Printing and reading numbers *)
Lemma isDigit_spec c : isDigit c = true <-> 0 <= digitOf c <= 9.
Proof. unfold isDigit, digitOf. rewrite andb_true_iff, !Z.leb_le. lia. Qed.

Lemma digitOf_char d : 0 <= d <= 9 -> digitOf (digitChar d) = d.
Proof. intros. unfold digitOf, digitChar. rewrite byteZ_toByte, wrap_small by (unfold is_uint; lia). lia. Qed.

Lemma digitChar_of c : isDigit c = true -> digitChar (digitOf c) = c.
Proof.
  intros _. unfold digitChar, digitOf. replace (48 + (byteZ c - 48)) with (byteZ c) by lia. apply toByte_byteZ.
Qed.

Lemma decimalValue_snoc l c : decimalValue (l ++ [c]) = decimalValue l * 10 + digitOf c.
Proof. unfold decimalValue. by rewrite fold_left_app. Qed.

Definition digits (l : text) : Prop := Forall (fun c => isDigit c = true) l.

Lemma digits_snoc l c : digits (l ++ [c]) <-> digits l /\ isDigit c = true.
Proof. unfold digits. rewrite Forall_app, Forall_singleton. done. Qed.

Lemma decimalValue_nonneg l : digits l -> 0 <= decimalValue l.
Proof.
  induction l as [|c l IH] using rev_ind; [done|]. rewrite digits_snoc, decimalValue_snoc.
  intros [Hl Hc%isDigit_spec]. specialize (IH Hl). lia.
Qed.

(** A number as it is printed: digits, no leading zero but for zero itself. *)
Definition canonical (l : text) : Prop :=
  digits l /\ l <> [] /\ (head l = Some (digitChar 0) -> l = [digitChar 0]).

Lemma digitChar_digit d : 0 <= d <= 9 -> isDigit (digitChar d) = true.
Proof. intros. apply isDigit_spec. rewrite digitOf_char; lia. Qed.

(** The front of a longer number is a number, and not zero. *)
Lemma canonical_front l c :
  l <> [] -> canonical (l ++ [c]) -> canonical l /\ 0 < decimalValue l.
Proof.
  intros Hl (Hd & _ & Hz). rewrite digits_snoc in Hd. destruct Hd as [Hd Hc].
  assert (Hh : head l <> Some (digitChar 0)).
  { intros E. destruct l as [|x l]; [done|]. specialize (Hz E). by destruct l. }
  split; [split; [done|split; [done|done]]|]. clear Hz Hc c. revert Hl Hd Hh.
  induction l as [|c l IH] using rev_ind; [done|]. intros _ Hd Hh. rewrite digits_snoc in Hd.
  destruct Hd as [Hd Hc]. rewrite decimalValue_snoc. pose proof (proj1 (isDigit_spec c) Hc).
  destruct (decide (l = [])) as [->|Hl].
  - assert (digitOf c <> 0); [|change (decimalValue []) with 0; lia].
    intros E. apply Hh. simpl. by rewrite <- (digitChar_of c Hc), E.
  - assert (0 < decimalValue l); [|lia]. apply IH; [done|done|]. intros E. apply Hh. by destruct l.
Qed.

Lemma canonical_inj l k : canonical l -> canonical k -> decimalValue l = decimalValue k -> l = k.
Proof.
  revert k. induction l as [|c l IH] using rev_ind; intros k Hl Hk E; [by destruct Hl as (_ & ? & _)|].
  destruct k as [|d k _] using rev_ind; [by destruct Hk as (_ & ? & _)|].
  rewrite !decimalValue_snoc in E.
  assert (Hc : 0 <= digitOf c <= 9) by (apply isDigit_spec; destruct Hl as ([_ ?]%digits_snoc & _); done).
  assert (Hd : 0 <= digitOf d <= 9) by (apply isDigit_spec; destruct Hk as ([_ ?]%digits_snoc & _); done).
  assert (Hcd : digitOf c = digitOf d -> c = d) by (unfold digitOf; intros; apply byteZ_inj; lia).
  destruct (decide (l = [])) as [->|Nl], (decide (k = [])) as [->|Nk].
  - change (decimalValue []) with 0 in E. by rewrite Hcd by lia.
  - destruct (canonical_front k d Nk Hk) as [_ ?]. change (decimalValue []) with 0 in E. lia.
  - destruct (canonical_front l c Nl Hl) as [_ ?]. change (decimalValue []) with 0 in E. lia.
  - destruct (canonical_front l c Nl Hl) as [Hl' _], (canonical_front k d Nk Hk) as [Hk' _].
    rewrite Hcd by lia. by rewrite (IH k) by (done || lia).
Qed.

Lemma decimalDigits_S fuel n : decimalDigits (S fuel) n =
  if n <? 10 then [digitChar n] else decimalDigits fuel (n / 10) ++ [digitChar (n mod 10)].
Proof. done. Qed.

Lemma canonical_digit n : 0 <= n <= 9 -> canonical [digitChar n] /\ decimalValue [digitChar n] = n.
Proof.
  intros Hn. split; [|unfold decimalValue; simpl; rewrite digitOf_char; lia].
  split; [by apply Forall_singleton, digitChar_digit|]. split; [done|]. simpl. by intros [= ->].
Qed.

Lemma canonical_snoc l d :
  canonical l -> 0 < decimalValue l -> 0 <= d <= 9 ->
  canonical (l ++ [digitChar d]) /\ decimalValue (l ++ [digitChar d]) = decimalValue l * 10 + d.
Proof.
  intros (Hd & Hne & Hz) Hp Hdd. split; [|by rewrite decimalValue_snoc, digitOf_char].
  split; [apply digits_snoc; split; [done|by apply digitChar_digit]|]. split; [by destruct l|].
  intros E. exfalso. assert (El : l = [digitChar 0]) by (apply Hz; by destruct l). subst l. vm_compute in Hp. done.
Qed.

Lemma decimalDigits_spec fuel : forall n, 0 <= n < 2 ^ (Z.of_nat fuel + 1) ->
  canonical (decimalDigits (S fuel) n) /\ decimalValue (decimalDigits (S fuel) n) = n.
Proof.
  induction fuel as [|fuel IH]; intros n Hn; rewrite decimalDigits_S;
    (destruct (Z.ltb_spec n 10) as [Hs|Hs]; [by apply canonical_digit; lia|]).
  { change (2 ^ (Z.of_nat 0 + 1)) with 2 in Hn. lia. }
  assert (Hq : 0 <= n / 10 < 2 ^ (Z.of_nat fuel + 1)).
  { rewrite Nat2Z.inj_succ, <- Z.add_1_r, Z.pow_add_r in Hn by lia. change (2 ^ 1) with 2 in Hn.
    split; [apply Z.div_pos; lia|]. apply Z.div_lt_upper_bound; lia. }
  destruct (IH (n / 10) Hq) as [Hc Hv]. assert (1 <= n / 10) by (apply Z.div_le_lower_bound; lia).
  destruct (canonical_snoc _ (n mod 10) Hc) as [Hc' Hv']; [lia|pose proof (Z.mod_pos_bound n 10); lia|].
  split; [done|]. rewrite Hv', Hv. pose proof (Z.div_mod n 10). lia.
Qed.

Lemma decimal_spec n : 0 <= n -> canonical (decimal n) /\ decimalValue (decimal n) = n.
Proof.
  intros Hn. apply decimalDigits_spec. split; [done|]. rewrite Z2Nat.id by apply Z.log2_nonneg.
  destruct (decide (n = 0)) as [->|]; [done|]. apply Z.log2_spec. lia.
Qed.

(** What is printed is read back, and only what is printed has no leading zeros. *)
Lemma decimal_value l : canonical l -> decimal (decimalValue l) = l.
Proof.
  intros Hl. destruct (decimal_spec (decimalValue l)) as [Hc Hv]; [apply decimalValue_nonneg, Hl|].
  by apply canonical_inj.
Qed.

(** A text that does not go on with a digit. *)
Definition ends_number (rest : text) : Prop := forall c, head rest = Some c -> isDigit c = false.

Lemma spanDigits_app l rest : digits l -> ends_number rest -> spanDigits (l ++ rest) = (l, rest).
Proof.
  intros Hl Hr. induction Hl as [|c l Hc Hl IH]; simpl.
  - destruct rest as [|c rest]; [done|]. simpl. by rewrite (Hr c).
  - by rewrite Hc, IH.
Qed.

Lemma fromChars16_decimal n rest :
  is_uint 16 n -> ends_number rest -> fromChars16 (decimal n ++ rest) = Some n.
Proof.
  intros [Hn Hn'] Hr. destruct (decimal_spec n Hn) as [(Hd & Hne & _) Hv]. unfold fromChars16.
  rewrite spanDigits_app by done. cbn [fst]. rewrite bool_decide_eq_false_2 by done. rewrite Hv.
  by destruct (Z.ltb_spec n (2 ^ 16)); [|lia].
Qed.

Lemma fromChars16_range l v : fromChars16 l = Some v -> is_uint 16 v.
Proof.
  unfold fromChars16. destruct (bool_decide _); [done|]. destruct (Z.ltb_spec (decimalValue (spanDigits l).1) (2 ^ 16)); [|done].
  intros [= <-]. split; [|done]. apply decimalValue_nonneg. clear. induction l as [|c l IH]; simpl; [constructor|].
  destruct (isDigit c) eqn:E; [|constructor]. destruct (spanDigits l). by constructor.
Qed.

(** The number of digits. *)
Lemma canonical_size l : canonical l -> 2 <= zlen l -> 10 ^ (zlen l - 1) <= decimalValue l.
Proof.
  induction l as [|c l IH] using rev_ind; [done|]. intros Hc Hl.
  assert (Hd : 0 <= digitOf c) by (apply isDigit_spec; destruct Hc as ([_ ?]%digits_snoc & _); done).
  rewrite zlen_app, zlen_cons, zlen_nil in *. rewrite decimalValue_snoc.
  assert (Hne : l <> []) by (intros ->; rewrite zlen_nil in Hl; lia).
  destruct (canonical_front l c Hne Hc) as [Hc' Hp]. replace (zlen l + (1 + 0) - 1) with (Z.succ (zlen l - 1)) by lia.
  rewrite Z.pow_succ_r by lia. destruct (Z.le_gt_cases 2 (zlen l)); [specialize (IH Hc' ltac:(done)); lia|].
  replace (zlen l - 1) with 0 by (pose proof (zlen_nonneg l); lia). change (10 ^ 0) with 1. lia.
Qed.

Lemma findChar_app c l rest : c ∉ l -> findChar c (l ++ c :: rest) = Some (length l).
Proof.
  induction l as [|x l IH]; simpl; intros H; [by rewrite bool_decide_eq_true_2|].
  rewrite elem_of_cons in H. rewrite bool_decide_eq_false_2 by naive_solver. rewrite IH by naive_solver. done.
Qed.

Lemma findChar_none c l : c ∉ l -> findChar c l = None.
Proof.
  induction l as [|x l IH]; simpl; intros H; [done|]. rewrite elem_of_cons in H.
  rewrite bool_decide_eq_false_2 by naive_solver. rewrite IH by naive_solver. done.
Qed.

Lemma dot_not_digits l : digits l -> dot ∉ l.
Proof. intros Hl Hin. unfold digits in Hl. rewrite Forall_forall in Hl. by specialize (Hl _ Hin). Qed.

Lemma decimal_digits n : 0 <= n -> digits (decimal n).
Proof. intros Hn. apply (decimal_spec n Hn). Qed.
