(* ===== verification/IPv4Address.v ===== *)
(** * Addresses

    [Socket/IPv4Address.h] and the address of [Socket/SocketTypes.h]. *)
From S2P Require Import Prelude ByteOrder Text.

Record IPv4Address := mkIPv4 { ipValue : Z }.
#[export] Instance IPv4Address_eq_dec : EqDecision IPv4Address.
Proof. solve_decision. Defined.

(** The digits of one octet: its value, their number and what follows them. *)
Fixpoint octetLoop (l : text) (octet digits : Z) : option (Z * Z * text) :=
  match l with
  | c :: rest =>
    if isDigit c then
      let octet := u32 (u32 (octet * 10) + u32 (digitOf c)) in
      let digits := digits + 1 in
      if (255 <? octet) || (3 <? digits) then None else octetLoop rest octet digits
    else Some (octet, digits, l)
  | [] => Some (octet, digits, [])
  end.

(** The octets that are missing: the loop [while (octets < 4)]. *)
Fixpoint parseOctets (missing : nat) (value : Z) (l : text) : option (Z * text) :=
  match missing with
  | O => Some (value, l)
  | S missing =>
    match l with
    | [] => None
    | c :: _ =>
      if negb (isDigit c) then None
      else
        let leadingZero := bool_decide (c = digitChar 0) in
        match octetLoop l 0 0 with
        | None => None
        | Some (octet, digits, l) =>
          if leadingZero && (1 <? digits) then None
          else
            let value := Z.lor (u32 (Z.shiftl value 8)) octet in
            match missing, l with
            | O, _ => Some (value, l)
            | S _, c :: l => if bool_decide (c = dot) then parseOctets missing value l else None
            | S _, [] => None
            end
        end
    end
  end.

Definition parse (l : text) : option IPv4Address :=
  match parseOctets 4 0 l with
  | Some (value, []) => Some (mkIPv4 value)
  | _ => None
  end.

Definition fromHostOrder (value : Z) : IPv4Address := mkIPv4 value.
Definition toHostOrder (a : IPv4Address) : Z := ipValue a.

Definition octet (a : IPv4Address) (shift : Z) : Z := Z.land (Z.shiftr (ipValue a) shift) 255.
Definition ipToString (a : IPv4Address) : text :=
  decimal (octet a 24) ++ [dot] ++ decimal (octet a 16) ++ [dot] ++ decimal (octet a 8) ++ [dot] ++
  decimal (Z.land (ipValue a) 255).

Definition isUnspecified (a : IPv4Address) : bool := ipValue a =? 0.
Definition isBroadcast (a : IPv4Address) : bool := ipValue a =? 0xFFFFFFFF.
Definition unspecified : IPv4Address := mkIPv4 0.
Definition broadcast : IPv4Address := mkIPv4 0xFFFFFFFF.

(** [~] on a [uint32_t]. *)
Definition not32 (z : Z) : Z := 2 ^ 32 - 1 - z.

Definition isNetmask (a : IPv4Address) : bool :=
  if ipValue a =? 0 then false
  else let inverted := not32 (ipValue a) in Z.land inverted (u32 (inverted + 1)) =? 0.

Definition subnetBroadcast (address mask : IPv4Address) : IPv4Address :=
  fromHostOrder (Z.lor (toHostOrder address) (not32 (toHostOrder mask))).

Definition sameSubnet (first second mask : IPv4Address) : bool :=
  Z.land (toHostOrder first) (toHostOrder mask) =? Z.land (toHostOrder second) (toHostOrder mask).

Record SocketAddress := mkSocketAddress { ip : IPv4Address; port : Z }.
#[export] Instance SocketAddress_eq_dec : EqDecision SocketAddress.
Proof. solve_decision. Defined.

Definition addressToString (a : SocketAddress) : text := ipToString (ip a) ++ [colon] ++ decimal (port a).
Definition anyAddress (port : Z) : SocketAddress := mkSocketAddress unspecified port.

(** ** Parsing *)
Definition push (v : Z) (c : byte) : Z := v * 10 + digitOf c.

Lemma push_mono l : forall v, digits l -> 0 <= v -> v <= fold_left push l v.
Proof.
  induction l as [|c l IH]; intros v Hd Hv; simpl; [lia|]. apply Forall_cons in Hd as [Hc%isDigit_spec Hd].
  assert (v <= push v c) by (unfold push; lia). specialize (IH (push v c) Hd ltac:(lia)). lia.
Qed.

Lemma octetLoop_sound l : forall o d o' d' rest, 0 <= o <= 255 ->
  octetLoop l o d = Some (o', d', rest) ->
  exists ds, l = ds ++ rest /\ digits ds /\ ends_number rest /\ o' = fold_left push ds o /\
    d' = d + zlen ds /\ 0 <= o' <= 255.
Proof.
  induction l as [|c l IH]; intros o d o' d' rest Ho H; simpl in H.
  - injection H as <- <- <-. exists []. rewrite zlen_nil. split_and!; try done; [constructor|lia..].
  - destruct (isDigit c) eqn:Ec.
    + pose proof (proj1 (isDigit_spec c) Ec) as Hc.
      rewrite (wrap_small 32 (o * 10)), (wrap_small 32 (digitOf c)), wrap_small in H by (unfold is_uint; lia).
      destruct (Z.ltb_spec 255 (o * 10 + digitOf c)); [done|]. destruct (_ <? _); [done|]. simpl in H.
      destruct (IH (o * 10 + digitOf c) _ _ _ _ ltac:(lia) H) as (ds & -> & Hd & Hr & -> & -> & Hb).
      exists (c :: ds). rewrite zlen_cons. change (fold_left push (c :: ds) o) with (fold_left push ds (o * 10 + digitOf c)).
      split_and!; try done; [by constructor|lia..].
    + injection H as <- <- <-. exists []. rewrite zlen_nil. split_and!; try done; [constructor| |lia..].
      intros x [= <-]. done.
Qed.

Lemma octetLoop_complete ds : forall o d rest, digits ds -> ends_number rest -> 0 <= o ->
  fold_left push ds o <= 255 -> d + zlen ds <= 3 ->
  octetLoop (ds ++ rest) o d = Some (fold_left push ds o, d + zlen ds, rest).
Proof.
  induction ds as [|c ds IH]; intros o d rest Hd Hr Ho Hv Hn.
  - simpl. rewrite zlen_nil, Z.add_0_r. destruct rest as [|c rest]; [done|]. simpl. by rewrite (Hr c).
  - apply Forall_cons in Hd as [Ec Hd]. pose proof (proj1 (isDigit_spec c) Ec) as Hc. simpl in Hv |- *. rewrite Ec.
    pose proof (push_mono ds (push o c) Hd ltac:(unfold push; lia)) as Hm. rewrite zlen_cons in *.
    assert (Hp : push o c = o * 10 + digitOf c) by done. pose proof (zlen_nonneg ds).
    rewrite (wrap_small 32 (o * 10)), (wrap_small 32 (digitOf c)), wrap_small by (unfold is_uint; lia). rewrite <- Hp.
    destruct (Z.ltb_spec 255 (push o c)); [lia|]. destruct (Z.ltb_spec 3 (d + 1)); [lia|]. simpl.
    rewrite IH by (done || lia). do 2 f_equal. f_equal. lia.
Qed.

(** The text of some octets, and the number they make. *)
Fixpoint dotted (os : list Z) : text :=
  match os with
  | [] => []
  | [o] => decimal o
  | o :: os => decimal o ++ dot :: dotted os
  end.
Definition joinOctets (v : Z) (os : list Z) : Z := fold_left (fun v o => Z.lor (u32 (Z.shiftl v 8)) o) os v.

Lemma ends_dot rest : ends_number (dot :: rest).
Proof. by intros c [= <-]. Qed.

(** One octet is read exactly if it is printed there. *)
Lemma octet_exact c l o d rest :
  octetLoop (c :: l) 0 0 = Some (o, d, rest) -> isDigit c = true ->
  (bool_decide (c = digitChar 0) && (1 <? d)) = false ->
  c :: l = decimal o ++ rest /\ ends_number rest /\ 0 <= o <= 255.
Proof.
  intros H Hc Hz. destruct (octetLoop_sound _ 0 _ _ _ _ ltac:(lia) H) as (ds & E & Hd & Hr & -> & -> & Hb).
  split; [|done]. rewrite E. f_equal. symmetry. apply decimal_value. split; [done|].
  assert (Hne : ds <> []). { intros ->. simpl in E. rewrite <- E in Hr. rewrite (Hr c eq_refl) in Hc. done. }
  split; [done|]. destruct ds as [|x ds]; [done|]. injection E as <- ->. simpl. intros [= ->].
  rewrite bool_decide_eq_true_2 in Hz by done. rewrite zlen_cons in Hz. apply Z.ltb_ge in Hz.
  assert (ds = []) as -> by (apply zlen_nil_inv; pose proof (zlen_nonneg ds); lia). done.
Qed.

Lemma octet_complete o rest :
  0 <= o <= 255 -> ends_number rest ->
  exists c l, decimal o ++ rest = c :: l /\ isDigit c = true /\
    octetLoop (c :: l) 0 0 = Some (o, zlen (decimal o), rest) /\
    (bool_decide (c = digitChar 0) && (1 <? zlen (decimal o))) = false.
Proof.
  intros Ho Hr. destruct (decimal_spec o ltac:(lia)) as [(Hd & Hne & Hz) Hv].
  assert (Hlen : zlen (decimal o) <= 3).
  { destruct (Z.le_gt_cases (zlen (decimal o)) 3) as [|Hl]; [done|].
    pose proof (canonical_size (decimal o) (conj Hd (conj Hne Hz)) ltac:(lia)) as Hs.
    assert (10 ^ 3 <= 10 ^ (zlen (decimal o) - 1)) by (apply Z.pow_le_mono_r; lia). lia. }
  pose proof (octetLoop_complete (decimal o) 0 0 rest Hd Hr ltac:(lia)) as H.
  change (fold_left push (decimal o) 0) with (decimalValue (decimal o)) in H. rewrite Hv in H. specialize (H ltac:(lia) ltac:(lia)).
  destruct (decimal o) as [|c l] eqn:E; [done|]. exists c, (l ++ rest). split; [done|]. split; [by apply Forall_cons in Hd as [? _]|].
  split; [done|]. destruct (bool_decide_reflect (c = digitChar 0)) as [->|]; [|done].
  specialize (Hz eq_refl). by rewrite Hz.
Qed.

Lemma parseOctets_sound n : forall v l v' rest, parseOctets (S n) v l = Some (v', rest) ->
  exists os, length os = S n /\ Forall (fun o => 0 <= o <= 255) os /\ l = dotted os ++ rest /\
    ends_number rest /\ v' = joinOctets v os.
Proof.
  induction n as [|n IH]; intros v l v' rest H; cbn [parseOctets] in H; (destruct l as [|c l]; [done|]);
    (destruct (isDigit c) eqn:Ec; [|done]); cbn [negb] in H;
    (destruct (octetLoop (c :: l) 0 0) as [[[o d] r]|] eqn:Eo; [|done]);
    (destruct (bool_decide (c = digitChar 0) && (1 <? d)) eqn:Ez; [done|]);
    destruct (octet_exact _ _ _ _ _ Eo Ec Ez) as (-> & Hr & Ho).
  - injection H as <- <-. exists [o]. split_and!; try done. by apply Forall_singleton.
  - destruct r as [|x r]; [done|]. destruct (bool_decide_reflect (x = dot)) as [->|]; [|done].
    destruct (IH _ _ _ _ H) as (os & Hl & Hos & -> & Hr' & ->). exists (o :: os). split_and!; try done.
    + simpl. by rewrite Hl.
    + by constructor.
    + destruct os; [done|]. cbn [dotted]. by rewrite <- app_assoc.
Qed.

Lemma parseOctets_complete os : forall v rest, os <> [] -> Forall (fun o => 0 <= o <= 255) os -> ends_number rest ->
  parseOctets (length os) v (dotted os ++ rest) = Some (joinOctets v os, rest).
Proof.
  induction os as [|o os IH]; intros v rest Hne Hos Hr; [done|]. apply Forall_cons in Hos as [Ho Hos].
  destruct os as [|o' os].
  - destruct (octet_complete o rest Ho Hr) as (c & l & E & Ec & El & Ez). cbn [dotted length parseOctets]. rewrite E, Ec.
    cbn [negb]. by rewrite El, Ez.
  - destruct (octet_complete o (dot :: dotted (o' :: os) ++ rest) Ho (ends_dot _)) as (c & l & E & Ec & El & Ez).
    change (dotted (o :: o' :: os)) with (decimal o ++ dot :: dotted (o' :: os)). rewrite <- app_assoc.
    change ((dot :: dotted (o' :: os)) ++ rest) with (dot :: dotted (o' :: os) ++ rest). rewrite E.
    cbn [length]. remember (S (length os)) as m eqn:Em. cbn [parseOctets]. rewrite Ec. cbn [negb]. rewrite El, Ez.
    subst m. rewrite bool_decide_eq_true_2 by done. apply (IH (Z.lor (u32 (Z.shiftl v 8)) o) rest); done.
Qed.

(** ** The number and its octets *)
Lemma octet_spec a s : 0 <= s -> octet a s = ipValue a / 2 ^ s mod 256.
Proof. intros Hs. unfold octet. rewrite shiftr_div by done. by rewrite (Z.land_ones _ 8). Qed.

Lemma joinOctets_four a b c d :
  0 <= a <= 255 -> 0 <= b <= 255 -> 0 <= c <= 255 -> 0 <= d <= 255 ->
  joinOctets 0 [a; b; c; d] = ((a * 256 + b) * 256 + c) * 256 + d.
Proof.
  intros. unfold joinOctets. simpl.
  assert (Hs : forall v o, 0 <= v < 2 ^ 24 -> 0 <= o <= 255 -> Z.lor (u32 (Z.shiftl v 8)) o = v * 256 + o).
  { intros v o Hv Ho. rewrite wrap_small by (unfold is_uint; rewrite Z.shiftl_mul_pow2 by lia; pow_const; lia).
    rewrite lor_shiftl_add by lia. lia. }
  rewrite (Hs 0 a), (Hs (0 * 256 + a) b), (Hs _ c), (Hs _ d) by (pow_const; lia). lia.
Qed.

Lemma ipToString_dotted a :
  ipToString a = dotted [octet a 24; octet a 16; octet a 8; Z.land (ipValue a) 255].
Proof. reflexivity. Qed.

Lemma octets_join v : is_uint 32 v ->
  ((octet (mkIPv4 v) 24 * 256 + octet (mkIPv4 v) 16) * 256 + octet (mkIPv4 v) 8) * 256 + Z.land v 255 = v.
Proof.
  unfold is_uint. intros Hv. rewrite !octet_spec by lia. rewrite (Z.land_ones _ 8) by lia.
  cbn [ipValue]. pow_const. Z.div_mod_to_equations. lia.
Qed.

(** ** Netmasks *)
Lemma land_succ_zero_iff x : 0 <= x -> Z.land x (x + 1) = 0 <-> exists j, 0 <= j /\ x = 2 ^ j - 1.
Proof.
  intros Hx. split.
  - revert x Hx. apply (Zlt_0_ind (fun x => Z.land x (x + 1) = 0 -> exists j, 0 <= j /\ x = 2 ^ j - 1)).
    intros x IH Hx H. destruct (Z.Even_or_Odd x) as [[k ->]|[k ->]].
    + assert (Z.land (2 * k) (2 * k + 1) = 2 * k) as E; [|rewrite E in H; exists 0; split; [lia|]; rewrite H; done].
      rewrite <- (Z.add_0_r (2 * k)) at 1. change 0 with (Z.b2z false) at 1. change 1 with (Z.b2z true).
      apply Z.bits_inj'. intros n Hn. rewrite Z.land_spec. destruct (decide (n = 0)) as [->|].
      * rewrite !Z.testbit_0_r, Z.testbit_even_0. done.
      * replace n with (Z.succ (n - 1)) by lia. rewrite !Z.testbit_succ_r by lia.
        rewrite Z.testbit_even_succ by lia. apply andb_diag.
    + destruct (IH k ltac:(lia)) as (j & Hj & ->).
      * apply Z.bits_inj'. intros n Hn. rewrite Z.land_spec, Z.bits_0.
        assert (Hb : Z.testbit (Z.land (2 * k + 1) (2 * k + 1 + 1)) (Z.succ n) = false) by (rewrite H; apply Z.bits_0).
        rewrite Z.land_spec in Hb. replace (2 * k + 1 + 1) with (2 * (k + 1)) in Hb by lia.
        rewrite Z.testbit_odd_succ, Z.testbit_even_succ in Hb by lia. done.
      * exists (j + 1). split; [lia|]. rewrite Z.pow_add_r by lia. lia.
  - intros (j & Hj & ->). replace (2 ^ j - 1 + 1) with (2 ^ j) by lia. rewrite Z.sub_1_r, <- Z.ones_equiv, Z.land_comm.
    rewrite Z.land_ones by done. apply Z.mod_same. pose proof (Z.pow_pos_nonneg 2 j). lia.
Qed.

(** The mask of a subnet with [k] bits for the network. *)
Definition maskOf (k : Z) : Z := 2 ^ 32 - 2 ^ (32 - k).

Lemma isNetmask_spec m : is_uint 32 (ipValue m) ->
  isNetmask m = true <-> exists k, 1 <= k <= 32 /\ ipValue m = maskOf k.
Proof.
  unfold is_uint, isNetmask, maskOf, not32. intros Hm. destruct (Z.eqb_spec (ipValue m) 0) as [E|E].
  - split; [done|]. intros (k & Hk & Ek). assert (2 ^ (32 - k) < 2 ^ 32) by (apply Z.pow_lt_mono_r; lia). lia.
  - rewrite wrap_small by (unfold is_uint; lia). rewrite Z.eqb_eq, land_succ_zero_iff by lia. split.
    + intros (j & Hj & Ej). exists (32 - j). replace (32 - (32 - j)) with j by lia. split; [|lia].
      split; [|lia]. assert (2 ^ j < 2 ^ 32) as H%Z.pow_lt_mono_r_iff by lia; lia.
    + intros (k & Hk & Ek). exists (32 - k). lia.
Qed.

Lemma testbit_high a n : 0 <= a < 2 ^ 32 -> 32 <= n -> Z.testbit a n = false.
Proof. intros Ha Hn. rewrite <- (Z.mod_small a (2 ^ 32)) by done. by apply Z.mod_pow2_bits_high; lia. Qed.

Lemma land_mask a k : 0 <= a < 2 ^ 32 -> 1 <= k <= 32 ->
  Z.land a (maskOf k) = Z.shiftl (Z.shiftr a (32 - k)) (32 - k).
Proof.
  intros Ha Hk. assert (Em : maskOf k = Z.shiftl (Z.ones k) (32 - k)).
  { rewrite Z.shiftl_mul_pow2, Z.ones_equiv by lia. unfold maskOf.
    replace (2 ^ 32) with (2 ^ k * 2 ^ (32 - k)) by (rewrite <- Z.pow_add_r by lia; f_equal; lia). lia. }
  rewrite Em. apply Z.bits_inj'. intros n Hn. rewrite Z.land_spec.
  destruct (Z.lt_ge_cases n (32 - k)) as [Hl|Hl].
  - rewrite !Z.shiftl_spec_low by done. apply andb_false_r.
  - rewrite !Z.shiftl_spec, Z.shiftr_spec by lia. replace (n - (32 - k) + (32 - k)) with n by lia.
    destruct (Z.lt_ge_cases n 32); [rewrite Z.ones_spec_low by lia; apply andb_true_r|].
    by rewrite testbit_high.
Qed.

Lemma lor_ones a h : 0 <= h -> Z.lor a (2 ^ h - 1) = a / 2 ^ h * 2 ^ h + (2 ^ h - 1).
Proof.
  intros Hh. pose proof (Z.pow_pos_nonneg 2 h). rewrite <- lor_shiftl_add by lia.
  rewrite Z.sub_1_r, <- Z.ones_equiv, <- shiftr_div by lia. apply Z.bits_inj'. intros n Hn. rewrite !Z.lor_spec.
  destruct (Z.lt_ge_cases n h).
  - rewrite Z.ones_spec_low by lia. by rewrite !orb_true_r.
  - rewrite Z.shiftl_spec, Z.shiftr_spec by lia. do 2 f_equal. lia.
Qed.

Lemma sameSubnet_spec a b m k :
  is_uint 32 (ipValue a) -> is_uint 32 (ipValue b) -> 1 <= k <= 32 -> ipValue m = maskOf k ->
  sameSubnet a b m = true <-> ipValue a / 2 ^ (32 - k) = ipValue b / 2 ^ (32 - k).
Proof.
  intros Ha Hb Hk Em. unfold sameSubnet, toHostOrder. rewrite Em, !land_mask by done. rewrite Z.eqb_eq.
  rewrite !Z.shiftl_mul_pow2, !shiftr_div by lia. pose proof (Z.pow_pos_nonneg 2 (32 - k)). split; [|by intros ->].
  intros E. apply Z.mul_cancel_r in E; [done|lia].
Qed.

Lemma subnetBroadcast_spec a m k : 1 <= k <= 32 -> ipValue m = maskOf k ->
  ipValue (subnetBroadcast a m) = ipValue a / 2 ^ (32 - k) * 2 ^ (32 - k) + (2 ^ (32 - k) - 1).
Proof.
  intros Hk Em. unfold subnetBroadcast, fromHostOrder, toHostOrder, not32. cbn [ipValue]. rewrite Em.
  replace (2 ^ 32 - 1 - maskOf k) with (2 ^ (32 - k) - 1) by (unfold maskOf; lia). apply lor_ones. lia.
Qed.

(** ** What the addresses promise *)

Lemma parse_sound l a : parse l = Some a -> is_uint 32 (ipValue a) /\ l = ipToString a.
Proof.
  unfold parse.
  destruct (parseOctets 4 0 l) as [[v [|? ?]]|] eqn:E; [|done..]. intros [= <-].
  destruct (parseOctets_sound _ _ _ _ _ E) as (os & Hl & Hos & -> & _ & ->).
  destruct os as [|o1 [|o2 [|o3 [|o4 [|? ?]]]]]; try done.
  repeat (apply Forall_cons in Hos as [? Hos]). rewrite joinOctets_four by done. cbn [ipValue].
  split; [unfold is_uint; pow_const; lia|]. rewrite app_nil_r, ipToString_dotted, !octet_spec by lia.
  rewrite (Z.land_ones _ 8) by lia. cbn [ipValue]. pow_const.
  f_equal. repeat f_equal; Z.div_mod_to_equations; lia.
Qed.
Lemma parse_complete a : is_uint 32 (ipValue a) -> parse (ipToString a) = Some a.
Proof.
  unfold parse.
  intros Hv. destruct a as [v]. cbn [ipValue] in Hv.
  assert (Hb : forall s, 0 <= s -> 0 <= octet (mkIPv4 v) s <= 255).
  { intros s Hs. rewrite octet_spec by done. pose proof (Z.mod_pos_bound (ipValue (mkIPv4 v) / 2 ^ s) 256). lia. }
  assert (Hl : 0 <= Z.land v 255 <= 255).
  { rewrite (Z.land_ones _ 8) by lia. pose proof (Z.mod_pos_bound v (2 ^ 8)). pow_const. lia. }
  rewrite ipToString_dotted, <- (app_nil_r (dotted _)). cbn [ipValue].
  pose proof (parseOctets_complete [octet (mkIPv4 v) 24; octet (mkIPv4 v) 16; octet (mkIPv4 v) 8; Z.land v 255] 0 []) as H.
  cbn [length] in H. rewrite H; [|done| |done].
  + rewrite joinOctets_four, octets_join by (done || (apply Hb; lia)). done.
  + repeat (apply Forall_cons; split; [by apply Hb; lia||done|]). by constructor.
Qed.

(** Parsing is exactly the inverse of printing: a text is accepted if and only if it is
    the dotted quad an address is printed as, and then that address is the result; so there
    are no leading zeros, signs, blanks, missing or further octets, or values over 255. *)
Theorem parse_exact l a : parse l = Some a <-> is_uint 32 (ipValue a) /\ l = ipToString a.
Proof. split; [apply parse_sound|]. intros [Ha ->]. by apply parse_complete. Qed.

(** Subnets.  A mask is a netmask exactly if it is some ones followed by zeros; two
    addresses are in the same subnet exactly if they agree on the bits of the ones; and the
    broadcast address is the last one of the subnet, and in it. *)
Theorem subnets_spec m a b :
  is_uint 32 (ipValue m) -> is_uint 32 (ipValue a) -> is_uint 32 (ipValue b) ->
  (isNetmask m = true <-> exists k, 1 <= k <= 32 /\ ipValue m = maskOf k) /\
  (forall k, 1 <= k <= 32 -> ipValue m = maskOf k ->
     (sameSubnet a b m = true <-> ipValue a / 2 ^ (32 - k) = ipValue b / 2 ^ (32 - k)) /\
     sameSubnet a (subnetBroadcast a m) m = true /\
     (sameSubnet a b m = true -> ipValue b <= ipValue (subnetBroadcast a m))).
Proof.
  intros Hm Ha Hb. split; [by apply isNetmask_spec|]. intros k Hk Em.
  pose proof (subnetBroadcast_spec a m k Hk Em) as Eb. pose proof (Z.pow_pos_nonneg 2 (32 - k) ltac:(lia) ltac:(lia)) as Hp.
  set (h := 2 ^ (32 - k)) in *. unfold is_uint in *.
  assert (Hdiv : ipValue (subnetBroadcast a m) / h = ipValue a / h).
  { rewrite Eb, Z.div_add_l by lia. rewrite (Z.div_small (h - 1)) by lia. lia. }
  assert (Hu : is_uint 32 (ipValue (subnetBroadcast a m))).
  { unfold is_uint. rewrite Eb. split; [pose proof (Z.div_pos (ipValue a) h); nia|].
    assert (E32 : 2 ^ 32 = 2 ^ k * h) by (unfold h; rewrite <- Z.pow_add_r by lia; f_equal; lia).
    assert (ipValue a / h < 2 ^ k) by (apply Z.div_lt_upper_bound; lia). nia. }
  pose proof (sameSubnet_spec a b m k Ha Hb Hk Em) as Hs. split; [done|]. split.
  - by rewrite (sameSubnet_spec a _ m k).
  - rewrite Hs. fold h. intros E. rewrite Eb, E. pose proof (Z.div_mod (ipValue b) h). pose proof (Z.mod_pos_bound (ipValue b) h). lia.
Qed.

Lemma subnets_spec_witness :
  let m := mkIPv4 0xFFFFFF00 in let a := mkIPv4 0xC0A80107 in
  maskOf 24 = ipValue m /\ ipToString (subnetBroadcast a m) = ipToString (mkIPv4 0xC0A801FF) /\
  sameSubnet a (subnetBroadcast a m) m = true.
Proof.
  intros m a. split; [reflexivity|]. split; [vm_compute; reflexivity|].
  apply (subnets_spec m a a) with (k := 24); first [lia | reflexivity | split; [discriminate|reflexivity]].
Defined.
