(* ===== verification/WireBuffer.v ===== *)
(** * Fields of binary messages, written and read one after another

    [Channel/Protocol/WireBuffer.h].  A [WireWriter] is the bytes written so far.  A
    [WireReader] is what is left to read and whether a read went past the end; its
    operations are actions of a small state monad, in which [None] stands for an access
    outside the bytes, as in [ByteOrder].  [parses m W] says what an action reads. *)
From S2P Require Import Prelude ByteOrder.

(** ** Writing *)
Definition writeU8 (value : Z) (out : bytes) : bytes := out ++ [toByte value].
Definition writeU16 (value : Z) (out : bytes) : bytes := out ++ writeUint16 value.
Definition writeU64 (value : Z) (out : bytes) : bytes := out ++ writeUint64 value.

(** The size is cut to one byte, and with it the text. *)
Definition writeText (value : bytes) (out : bytes) : bytes :=
  let size := u8 (Z.min (zlen value) 255) in
  writeU8 size out ++ ztake size value.

Definition writeBytes (value : bytes) (out : bytes) : bytes := out ++ value.

(** ** Reading *)
Record WireReader := mkReader { rdBytes : bytes; rdFailed : bool }.
#[export] Instance eta_WireReader : Eta WireReader := fun r => mkReader (rdBytes r) (rdFailed r).

Definition Reader (A : Type) : Type := WireReader -> option (A * WireReader).
#[export] Instance reader_ret : MRet Reader := fun A a r => Some (a, r).
#[export] Instance reader_bind : MBind Reader := fun A B f m r =>
  match m r with Some (a, r') => f a r' | None => None end.

(** The value of a field that was read: [None] if the access is not inside it. *)
Definition inside {A} (o : option A) : Reader A := fun r => (fun a => (a, r)) <$> o.
Definition gets {A} (f : WireReader -> A) : Reader A := fun r => Some (f r, r).

Definition next (size : Z) : Reader bytes := fun r =>
  if rdFailed r || (zlen (rdBytes r) <? size) then Some ([], r <| rdFailed := true |>)
  else Some (ztake size (rdBytes r), r <| rdBytes ::= zdrop size |>).

Definition readU8 : Reader Z :=
  field ← next 1;
  match field with [] => mret 0 | _ => inside (readUint8 field 0) end.

Definition readU16 : Reader Z :=
  field ← next 2;
  match field with [] => mret 0 | _ => inside (readUint16 field 0) end.

Definition readU64 : Reader Z :=
  field ← next 8;
  match field with [] => mret 0 | _ => inside (readUint64 field 0) end.

Definition readText : Reader bytes := size ← readU8; next size.

Definition complete (r : WireReader) : bool := negb (rdFailed r) && bool_decide (rdBytes r = []).
Definition failed (r : WireReader) : bool := rdFailed r.

(** ** What an action reads

    [parses m W]: whatever the reader, [m] stays inside its bytes; if it ends without
    failure then it has consumed bytes [w] and returned a value [a] with [W a w]; and
    where such bytes are in front it consumes exactly them. *)
Record parses {A} (m : Reader A) (W : A -> bytes -> Prop) : Prop := {
  ps_safe : forall r, is_Some (m r);
  ps_sound : forall r a r', m r = Some (a, r') -> rdFailed r' = false ->
    rdFailed r = false /\ exists w, rdBytes r = w ++ rdBytes r' /\ W a w;
  ps_complete : forall a w rest, W a w -> m (mkReader (w ++ rest) false) = Some (a, mkReader rest false);
}.

Lemma parses_ret {A} (a : A) : parses (mret a) (fun b w => b = a /\ w = []).
Proof.
  split; [by eexists| |].
  - intros r b r' [= <- <-] Hf. split; [done|]. by exists [].
  - by intros b w rest [-> ->].
Qed.

Lemma parses_bind {A B} (m : Reader A) (f : A -> Reader B) W V :
  parses m W -> (forall r a r', m r = Some (a, r') -> parses (f a) (V a)) ->
  parses (m ≫= f) (fun b w => exists a w1 w2, w = w1 ++ w2 /\ W a w1 /\ V a b w2).
Proof.
  intros [Sm Dm Cm] Hf. unfold mbind, reader_bind. split.
  - intros r. destruct (Sm r) as [[a r'] E]. rewrite E. by apply (Hf _ _ _ E).
  - intros r b r' H Hr'. destruct (m r) as [[a r1]|] eqn:E; [|done].
    destruct (ps_sound _ _ (Hf _ _ _ E) _ _ _ H Hr') as (Hr1 & w2 & E2 & HV).
    destruct (Dm _ _ _ E Hr1) as (Hr & w1 & E1 & HW). split; [done|].
    exists (w1 ++ w2). split; [by rewrite E1, E2, app_assoc|]. eauto 10.
  - intros b w rest (a & w1 & w2 & -> & HW & HV). rewrite <- app_assoc.
    rewrite (Cm _ _ (w2 ++ rest) HW). by eapply (Hf _ _ _ (Cm _ _ (w2 ++ rest) HW)).
Qed.

Lemma parses_iff {A} (m : Reader A) W W' :
  parses m W -> (forall a w, W a w <-> W' a w) -> parses m W'.
Proof.
  intros [S D C] H. split; [done| |].
  - intros r a r' E Hr. destruct (D r a r' E Hr) as (? & w & ? & ?%H). eauto.
  - intros a w rest Hw. by apply C, H.
Qed.

Lemma parses_next n : 0 <= n -> parses (next n) (fun f w => f = w /\ zlen w = n).
Proof.
  intros Hn. unfold next. split.
  - intros r. destruct (_ || _); by eexists.
  - intros r f r' H Hr'. destruct (rdFailed r) eqn:Ef; simpl in H; [by injection H as <- <-|].
    destruct (Z.ltb_spec (zlen (rdBytes r)) n); injection H as <- <-; [done|].
    split; [done|]. exists (ztake n (rdBytes r)). split; [symmetry; apply ztake_zdrop|].
    split; [done|]. rewrite zlen_ztake. lia.
  - intros f w rest [-> Hw]. cbn [rdFailed rdBytes orb]. rewrite zlen_app.
    pose proof (zlen_nonneg rest). destruct (Z.ltb_spec (zlen w + zlen rest) n); [lia|].
    change (update rdBytes (zdrop n) (mkReader (w ++ rest) false)) with (mkReader (zdrop n (w ++ rest)) false).
    by rewrite ztake_app_exact, zdrop_app_exact.
Qed.

(** A field of fixed size, by the reader of [ByteOrder] and the writer it inverts. *)
Lemma parses_field n (get : bytes -> Z -> option Z) (put : Z -> bytes) (ok : Z -> Prop) :
  0 < n -> (forall v, zlen (put v) = n) ->
  (forall buf v, get buf 0 = Some v <-> ok v /\ reads_at (put v) buf 0) ->
  (forall buf, n <= zlen buf -> is_Some (get buf 0)) ->
  parses (field ← next n; match field with [] => mret 0 | _ => inside (get field 0) end)
    (fun v w => w = put v /\ ok v).
Proof.
  intros Hn Hlen Hget Htot.
  assert (Hin : forall f v, zlen f = n -> get f 0 = Some v -> f = put v /\ ok v).
  { intros f v Hf (Hv & pre & post & E & Hp)%Hget. split; [|done]. apply zlen_nil_inv in Hp as ->.
    simpl in E. rewrite E in Hf |- *. rewrite zlen_app, Hlen in Hf.
    assert (post = []) as -> by (apply zlen_nil_inv; lia). by rewrite app_nil_r. }
  pose proof (parses_next n ltac:(lia)) as Hnext. unfold mbind, reader_bind. split.
  - intros r. destruct (ps_safe _ _ Hnext r) as [[f r'] E]. rewrite E. destruct f as [|b f]; [by eexists|].
    unfold next in E. destruct (_ || _) eqn:Et; [done|]. injection E as Ef _. bool_prop.
    destruct (Htot (b :: f)) as [v Ev]; [rewrite <- Ef, zlen_ztake; lia|].
    unfold inside. rewrite Ev. by eexists.
  - intros r v r' H Hr'. destruct (next n r) as [[f r1]|] eqn:E; [|done].
    assert (Hr1 : rdFailed r1 = false).
    { destruct f; [by injection H as _ <-|]. unfold inside in H.
      destruct (get _ 0); [|done]. by injection H as _ <-. }
    destruct (ps_sound _ _ Hnext _ _ _ E Hr1) as (Hr & w & Ew & -> & Hw). split; [done|].
    destruct w as [|b w]; [rewrite zlen_nil in Hw; lia|]. unfold inside in H.
    destruct (get (b :: w) 0) as [v'|] eqn:Eg; [|done]. injection H as <- <-.
    exists (b :: w). split; [done|]. by apply Hin.
  - intros v w rest [-> Hv]. rewrite (ps_complete _ _ Hnext (put v) (put v) rest) by (split; [done|apply Hlen]).
    destruct (put v) as [|b w] eqn:Ep; [specialize (Hlen v); rewrite Ep, zlen_nil in Hlen; lia|].
    unfold inside. rewrite (proj2 (Hget (b :: w) v)); [done|]. split; [done|].
    exists [], []. by rewrite Ep, app_nil_r.
Qed.

Lemma parses_u16 : parses readU16 (fun v w => w = writeUint16 v /\ is_uint 16 v).
Proof.
  apply (parses_field 2 readUint16); [done|done|intros; apply readUint16_spec|].
  intros. by apply readUint16_total.
Qed.

Lemma parses_u64 : parses readU64 (fun v w => w = writeUint64 v /\ is_uint 64 v).
Proof.
  apply (parses_field 8 readUint64); [done|done|intros; apply readUint64_spec|].
  intros. by apply readUint64_total.
Qed.

Lemma readUint8_spec buf i v : readUint8 buf i = Some v <-> is_uint 8 v /\ reads_at [toByte v] buf i.
Proof.
  split.
  - intros (b & -> & H)%readUint8_inv. rewrite toByte_byteZ. split; [apply byteZ_range|done].
  - intros [Hv H]. by rewrite (readUint8_complete _ _ _ H), byteZ_toByte, wrap_small.
Qed.

Lemma parses_u8 : parses readU8 (fun v w => w = [toByte v] /\ is_uint 8 v).
Proof.
  apply (parses_field 1 readUint8); [done|done|intros; apply readUint8_spec|].
  intros. apply readUint8_total. lia.
Qed.

(** A text is its length in one byte, and its bytes. *)
Definition text_bytes (s : bytes) : bytes := toByte (zlen s) :: s.

Lemma readU8_range r v r' : readU8 r = Some (v, r') -> is_uint 8 v.
Proof.
  unfold readU8, mbind, reader_bind, next. destruct (_ || _); [by intros [= <- _]|].
  destruct (ztake 1 (rdBytes r)) as [|b f]; [by intros [= <- _]|].
  unfold inside. destruct (readUint8 _ _) as [w|] eqn:E; [|done].
  apply readUint8_spec in E as [Hw _]. by intros [= <- _].
Qed.

Lemma parses_text : parses readText (fun s w => w = text_bytes s /\ zlen s <= 255).
Proof.
  eapply parses_iff.
  - apply parses_bind; [apply parses_u8|]. intros r n r' E%readU8_range. apply parses_next, E.
  - intros s w. split.
    + intros (n & w1 & w2 & -> & [-> Hn] & -> & Hw). unfold text_bytes, is_uint in *. rewrite Hw. split; [done|]. lia.
    + intros [-> Hs]. pose proof (zlen_nonneg s).
      exists (zlen s), [toByte (zlen s)], s. split_and!; try done. unfold is_uint. lia.
Qed.

(** Reading a message is reading its fields. *)
Create HintDb parses discriminated.
#[export] Hint Resolve parses_u8 parses_u16 parses_u64 parses_text : parses.
Ltac parse_fields :=
  repeat (eapply parses_bind; [solve [eauto with parses]|intros ? ? ? _]); apply parses_ret.

(** What [writeText] appends: a text that is short enough as it is, a longer one cut. *)
Lemma writeText_short s out : zlen s <= 255 -> writeText s out = out ++ text_bytes s.
Proof.
  intros Hs. pose proof (zlen_nonneg s). unfold writeText, writeU8, text_bytes.
  rewrite Z.min_l, wrap_small, ztake_ge by (unfold is_uint; lia). by rewrite <- app_assoc.
Qed.

Lemma writeText_cut s out : writeText s out = out ++ text_bytes (ztake 255 s).
Proof.
  destruct (Z.le_gt_cases (zlen s) 255) as [Hs|Hs].
  - rewrite (ztake_ge 255) by done. by apply writeText_short.
  - unfold writeText, writeU8, text_bytes. rewrite Z.min_r by lia.
    rewrite (wrap_small 8 255) by done. rewrite zlen_ztake, <- app_assoc. simpl. do 3 f_equal. lia.
Qed.

(** ** Whole messages

    A message is read by an action over the whole of it that also says whether what it
    read is acceptable; it is accepted if nothing is left over. *)
Definition decodeWhole {A} (m : Reader (option A)) (d : bytes) : option (option A) :=
  match m (mkReader d false) with
  | Some (o, r) => Some (if complete r then o else None)
  | None => None
  end.

Lemma decodeWhole_safe {A} (m : Reader (option A)) W d : parses m W -> decodeWhole m d <> None.
Proof. intros H. unfold decodeWhole. by destruct (ps_safe _ _ H (mkReader d false)) as [[o r] ->]. Qed.

Lemma decodeWhole_iff {A} (m : Reader (option A)) W d a :
  parses m W -> decodeWhole m d = Some (Some a) <-> W (Some a) d.
Proof.
  intros H. unfold decodeWhole. split.
  - destruct (m _) as [[o r]|] eqn:E; [|done]. unfold complete.
    destruct (rdFailed r) eqn:Ef; [done|]. destruct (bool_decide_reflect (rdBytes r = [])) as [En|]; [|done].
    intros [= ->]. destruct (ps_sound _ _ H _ _ _ E Ef) as (_ & w & Ew & HW).
    simpl in Ew. by rewrite En, app_nil_r in Ew; subst w.
  - intros HW. pose proof (ps_complete _ _ H _ _ [] HW) as E. rewrite app_nil_r in E. by rewrite E.
Qed.
