(* ===== verification/ControlMessage.v ===== *)
(** * The messages that open and end a session

    [Session/ControlMessage.h].  They travel on the Control lane; the tag of the message
    says which one it is.  Hello and Accept end with an extension: a length, and fields of
    a type, a length and a value, all of which this version skips. *)
From S2P Require Import Prelude ByteOrder WireBuffer.

Inductive ControlType := CHello | CAccept | CDecline | CClose.
Definition control_to_Z (c : ControlType) : Z :=
  match c with CHello => 1 | CAccept => 2 | CDecline => 3 | CClose => 4 end.
(** [static_cast<ControlType>] of a tag; [None] for a value that names no message. *)
Definition controlType (tag : Z) : option ControlType :=
  if tag =? 1 then Some CHello else if tag =? 2 then Some CAccept
  else if tag =? 3 then Some CDecline else if tag =? 4 then Some CClose else None.

Inductive DeclineReason := Declined | Incompatible.
#[export] Instance DeclineReason_eq_dec : EqDecision DeclineReason.
Proof. solve_decision. Defined.
Definition reason_to_Z (r : DeclineReason) : Z := match r with Declined => 0 | Incompatible => 1 end.

Definition writeExt (out : bytes) : bytes := writeU16 0 out.

(** The loop of [skipExt] over the fields.  [Some true] is leaving it, [Some false] the
    early return; the fuel is the number of bytes, of which every round takes two. *)
Fixpoint skipFields (fuel : nat) (inFailed : bool) (fields : WireReader) : option bool :=
  if negb inFailed && negb (complete fields) then
    match fuel with
    | O => None
    | S fuel =>
      match (_ ← readU8; size ← readU8; next size) fields with
      | Some (_, fields) => if failed fields then Some false else skipFields fuel inFailed fields
      | None => None
      end
    end
  else Some true.

Definition skipExt : Reader bool :=
  size ← readU16;
  field ← next size;
  isFailed ← gets failed;
  skipped ← inside (skipFields (length field) isFailed (mkReader field false));
  mret (skipped && negb isFailed).

Record Hello := mkHello {
  fromInstance : Z;
  toInstance : Z;
  helloAppIdHash : Z;
  helloMajor : Z;
  helloMinor : Z;
  helloName : bytes;
}.
Record Accept := mkAccept { acceptName : bytes }.
Record Decline := mkDecline { declineReason : DeclineReason; declineText : bytes }.

Definition encodeHello (h : Hello) : bytes :=
  let out := writeU64 (fromInstance h) [] in
  let out := writeU64 (toInstance h) out in
  let out := writeU64 (helloAppIdHash h) out in
  let out := writeU16 (helloMajor h) out in
  let out := writeU16 (helloMinor h) out in
  let out := writeText (helloName h) out in
  writeExt out.

Definition readHello : Reader (option Hello) :=
  from ← readU64;
  to ← readU64;
  app ← readU64;
  major ← readU16;
  minor ← readU16;
  name ← readText;
  ext ← skipExt;
  mret (if negb ext || (from =? 0) then None else Some (mkHello from to app major minor name)).
Definition decodeHello : bytes -> option (option Hello) := decodeWhole readHello.

Definition encodeAccept (a : Accept) : bytes := writeExt (writeText (acceptName a) []).

Definition readAccept : Reader (option Accept) :=
  name ← readText;
  ext ← skipExt;
  mret (if negb ext then None else Some (mkAccept name)).
Definition decodeAccept : bytes -> option (option Accept) := decodeWhole readAccept.

Definition encodeDecline (d : Decline) : bytes :=
  writeText (declineText d) (writeU8 (reason_to_Z (declineReason d)) []).

Definition readDecline : Reader (option Decline) :=
  reason ← readU8;
  text ← readText;
  mret (Some (mkDecline (if reason =? reason_to_Z Incompatible then Incompatible else Declined) text)).
Definition decodeDecline : bytes -> option (option Decline) := decodeWhole readDecline.

Definition encodeClose (reason : Z) : bytes := [toByte reason].

(** ** The extension *)

(** A sequence of fields: type, length, value. *)
Inductive fields_ok : bytes -> Prop :=
| fields_nil : fields_ok []
| fields_cons type value rest :
    zlen value <= 255 -> fields_ok rest -> fields_ok (type :: text_bytes value ++ rest).

Definition ext_bytes (fields : bytes) : bytes := writeUint16 (zlen fields) ++ fields.

Lemma complete_mk d : complete (mkReader d false) = bool_decide (d = []).
Proof. done. Qed.

Lemma parses_one :
  parses (_ ← readU8; size ← readU8; next size)
    (fun v w => exists type, w = type :: text_bytes v /\ zlen v <= 255).
Proof.
  eapply parses_iff.
  - apply parses_bind; [apply parses_u8|]. intros r a r' _. apply parses_text.
  - intros v w. split.
    + intros (t & w1 & w2 & -> & [-> _] & [-> Hv]). by exists (toByte t).
    + intros (t & -> & Hv). exists (byteZ t), [t], (text_bytes v).
      rewrite toByte_byteZ. split_and!; [done|done|apply byteZ_range|done|done].
Qed.

(** A field is read as it is, and nothing else starts like it. *)
Lemma one_complete t v rest :
  zlen v <= 255 ->
  (_ ← readU8; size ← readU8; next size) (mkReader (t :: text_bytes v ++ rest) false)
  = Some (v, mkReader rest false).
Proof.
  intros Hv. apply (ps_complete _ _ parses_one v (t :: text_bytes v) rest). by exists t.
Qed.

Lemma fields_ok_inv t v d : zlen v <= 255 -> fields_ok (t :: text_bytes v ++ d) -> fields_ok d.
Proof.
  intros Hv Hok. remember (t :: text_bytes v ++ d) as x eqn:Ex. destruct Hok as [|t0 v0 rest Hv0 Hr]; [done|].
  pose proof (one_complete t0 v0 rest Hv0) as E. rewrite Ex, one_complete in E by done. by injection E as _ ->.
Qed.

(** The loop ends, and it accepts exactly the sequences of fields. *)
Lemma skipFields_spec fuel : forall d, (length d <= fuel)%nat ->
  exists b, skipFields fuel false (mkReader d false) = Some b /\ (b = true <-> fields_ok d).
Proof.
  induction fuel as [|fuel IH]; intros d Hlen.
  - destruct d; [|simpl in Hlen; lia]. exists true. split; [done|]. split; [constructor|done].
  - cbn [skipFields negb andb]. rewrite complete_mk. destruct (bool_decide_reflect (d = [])) as [->|Hd].
    { exists true. split; [done|]. split; [constructor|done]. }
    cbn [negb]. destruct (ps_safe _ _ parses_one (mkReader d false)) as [[v [d' f']] E]. rewrite E.
    unfold failed. cbn [rdFailed]. destruct f'.
    + exists false. split; [done|]. split; [done|]. intros Hok. inversion Hok as [|t v0 rest Hv Hr E']; [done|].
      rewrite <- E', one_complete in E by done. done.
    + destruct (ps_sound _ _ parses_one _ _ _ E eq_refl) as (_ & w & Ew & t & -> & Hv). simpl in Ew. subst d.
      destruct (IH d') as (b & Eb & Hb).
      { simpl in Hlen. rewrite length_app in Hlen. lia. }
      exists b. split; [done|]. rewrite Hb. split; [by apply fields_cons|by apply fields_ok_inv].
Qed.

Lemma parses_ext :
  parses skipExt (fun b w => exists fields, w = ext_bytes fields /\ is_uint 16 (zlen fields) /\
    (b = true <-> fields_ok fields)).
Proof.
  assert (Hfields : forall d, exists b, skipFields (length d) false (mkReader d false) = Some b /\ (b = true <-> fields_ok d))
    by (intros d; by apply skipFields_spec).
  assert (Hu16 : forall r n r', readU16 r = Some (n, r') -> 0 <= n).
  { intros r n r'. unfold readU16, mbind, reader_bind, next. destruct (_ || _); [by intros [= <- _]|].
    destruct (ztake 2 (rdBytes r)); [by intros [= <- _]|]. unfold inside.
    destruct (readUint16 _ _) eqn:E; [|done]. apply readUint16_spec in E as [[? _] _]. by intros [= <- _]. }
  unfold skipExt. split.
  - intros r. unfold mbind, reader_bind. destruct (ps_safe _ _ parses_u16 r) as [[n r1] E]. rewrite E.
    destruct (ps_safe _ _ (parses_next n (Hu16 _ _ _ E)) r1) as [[f r2] ->]. simpl.
    destruct (failed r2); unfold inside; [|destruct (Hfields f) as (b & -> & _); by eexists].
    destruct (length f); by eexists.
  - intros r b r' H Hr'. unfold mbind, reader_bind in H.
    destruct (readU16 r) as [[n r1]|] eqn:E; [|done]. destruct (next n r1) as [[f r2]|] eqn:E2; [|done].
    simpl in H. unfold inside in H. destruct (skipFields _ _ _) as [sk|] eqn:Es; [|done]. simpl in H. injection H as <- ->.
    unfold failed in *. rewrite Hr' in *.
    destruct (ps_sound _ _ (parses_next n (Hu16 _ _ _ E)) _ _ _ E2 Hr') as (Hr1 & w2 & Ew2 & -> & Hw2).
    destruct (ps_sound _ _ parses_u16 _ _ _ E Hr1) as (Hr & w1 & Ew1 & -> & Hn). split; [done|].
    exists (writeUint16 n ++ w2). split; [by rewrite Ew1, Ew2, app_assoc|]. exists w2. unfold ext_bytes. rewrite Hw2.
    split; [done|]. split; [done|]. rewrite andb_true_r. destruct (Hfields w2) as (b & Eb & Hb). by rewrite Es in Eb; simplify_eq.
  - intros b w rest (f & -> & Hf & Hb). unfold mbind, reader_bind, ext_bytes. rewrite <- app_assoc.
    rewrite (ps_complete _ _ parses_u16 (zlen f) _ (f ++ rest)) by done.
    rewrite (ps_complete _ _ (parses_next (zlen f) (zlen_nonneg f)) f f rest) by done. simpl.
    destruct (Hfields f) as (b' & Eb & Hb'). unfold inside, failed. simpl. rewrite Eb. simpl. rewrite andb_true_r.
    assert (b = b') as -> by (destruct b, b'; naive_solver). done.
Qed.
#[export] Hint Resolve parses_ext : parses.

(** ** The messages *)
Record hello_ok (h : Hello) : Prop := {
  ho_from : is_uint 64 (fromInstance h);
  ho_from_nonzero : fromInstance h <> 0;
  ho_to : is_uint 64 (toInstance h);
  ho_app : is_uint 64 (helloAppIdHash h);
  ho_major : is_uint 16 (helloMajor h);
  ho_minor : is_uint 16 (helloMinor h);
  ho_name : zlen (helloName h) <= 255;
}.

Definition hello_bytes (h : Hello) : bytes :=
  writeUint64 (fromInstance h) ++ writeUint64 (toInstance h) ++ writeUint64 (helloAppIdHash h) ++
  writeUint16 (helloMajor h) ++ writeUint16 (helloMinor h) ++ text_bytes (helloName h).

(** An extension that a reader skips. *)
Definition extension (w : bytes) : Prop :=
  exists fields, w = ext_bytes fields /\ is_uint 16 (zlen fields) /\ fields_ok fields.

Lemma no_extension : extension (writeUint16 0).
Proof. exists []. split_and!; [done|done|constructor]. Qed.

Lemma readHello_parses : exists W, parses readHello W /\
  forall h w, W (Some h) w <-> hello_ok h /\ exists e, extension e /\ w = hello_bytes h ++ e.
Proof.
  eexists. split; [unfold readHello; parse_fields|]. cbv beta. intros h w. split.
  - intros (from & ? & ? & -> & [-> ?] & to & ? & ? & -> & [-> ?] & app & ? & ? & -> & [-> ?] & major & ? & ? & -> &
      [-> ?] & minor & ? & ? & -> & [-> ?] & name & ? & ? & -> & [-> ?] & b & e & ? & -> & (f & -> & Hf & Hb) & E & ->).
    destruct b; [|done]. destruct (Z.eqb_spec from 0); [done|]. simpl in E. injection E as ->.
    split; [done|]. exists (ext_bytes f). unfold hello_bytes. cbn [fromInstance toInstance helloAppIdHash helloMajor helloMinor helloName].
    rewrite app_nil_r, <- !app_assoc. split; [|done]. exists f. split_and!; [done..|]. by apply Hb.
  - intros [[] (e & (f & -> & Hf & Hok) & ->)]. unfold hello_bytes. rewrite <- !app_assoc.
    do 6 (eexists _, _, _; split; [reflexivity|split; [done|]]).
    exists true, (ext_bytes f), []. rewrite app_nil_r. split; [done|]. split; [by exists f|]. split; [|done].
    destruct (Z.eqb_spec (fromInstance h) 0); [done|]. by destruct h.
Qed.

Lemma encodeHello_bytes h : zlen (helloName h) <= 255 -> encodeHello h = hello_bytes h ++ writeUint16 0.
Proof.
  intros Hn. unfold encodeHello, writeExt, hello_bytes, writeU64, writeU16. cbv zeta.
  rewrite writeText_short by done. by rewrite <- !app_assoc.
Qed.

Lemma readAccept_parses : exists W, parses readAccept W /\
  forall a w, W (Some a) w <-> zlen (acceptName a) <= 255 /\ exists e, extension e /\ w = text_bytes (acceptName a) ++ e.
Proof.
  eexists. split; [unfold readAccept; parse_fields|]. cbv beta. intros a w. split.
  - intros (name & ? & ? & -> & [-> ?] & b & e & ? & -> & (f & -> & Hf & Hb) & E & ->).
    destruct b; [|done]. injection E as ->. split; [done|]. exists (ext_bytes f). rewrite app_nil_r. split; [|done].
    exists f. split_and!; [done..|]. by apply Hb.
  - intros (Hn & e & (f & -> & Hf & Hok) & ->). destruct a as [name].
    exists name, (text_bytes name), (ext_bytes f). split; [done|]. split; [done|].
    exists true, (ext_bytes f), []. rewrite app_nil_r. split; [done|]. split; [by exists f|done].
Qed.

Lemma readDecline_parses : exists W, parses readDecline W /\
  forall d w, W (Some d) w <-> zlen (declineText d) <= 255 /\
    exists b, w = b :: text_bytes (declineText d) /\ (declineReason d = Incompatible <-> byteZ b = 1).
Proof.
  eexists. split; [unfold readDecline; parse_fields|]. cbv beta. intros d w. split.
  - intros (r & ? & ? & -> & [-> Hr] & t & ? & ? & -> & [-> ?] & [= ->] & ->). cbn [declineText declineReason].
    split; [done|]. exists (toByte r). rewrite app_nil_r, byteZ_toByte, wrap_small by done. split; [done|].
    destruct (Z.eqb_spec r 1); split; done || lia.
  - intros (Ht & b & -> & Hb). destruct d as [r t].
    exists (byteZ b), [b], (text_bytes t). rewrite toByte_byteZ. split; [done|]. split; [split; [done|apply byteZ_range]|].
    exists t, (text_bytes t), []. rewrite app_nil_r. split; [done|]. split; [done|]. split; [|done]. do 2 f_equal.
    cbn [declineReason] in Hb. change (reason_to_Z Incompatible) with 1. destruct (Z.eqb_spec (byteZ b) 1), r; naive_solver.
Qed.

(** ** The codec *)

(** A Hello survives the wire, and its decoder is exact: whatever bytes come, it reads
    none outside them; it accepts a body if and only if that is the fixed fields and the
    name of a Hello with a sender, followed by an extension, whose fields it skips whatever
    they are; and the Hello that was encoded is decoded to itself. *)
Theorem hello_exact d h :
  decodeHello d <> None /\
  (decodeHello d = Some (Some h) <-> hello_ok h /\ exists e, extension e /\ d = hello_bytes h ++ e) /\
  (hello_ok h -> decodeHello (encodeHello h) = Some (Some h)).
Proof.
  destruct readHello_parses as (W & HW & Hiff). unfold decodeHello. split; [by eapply decodeWhole_safe|].
  split; [rewrite (decodeWhole_iff _ W) by done; apply Hiff|].
  intros Hok. rewrite (decodeWhole_iff _ W) by done. apply Hiff. split; [done|].
  exists (writeUint16 0). split; [apply no_extension|]. apply encodeHello_bytes, Hok.
Qed.

Definition sampleHello : Hello := mkHello 5 9 0xCBF29CE484222325 1 2 [Byte.x41; Byte.x42].
Lemma sampleHello_ok : hello_ok sampleHello.
Proof. split; vm_compute; first [discriminate | split; [congruence|reflexivity]]. Qed.

Lemma hello_exact_witness :
  decodeHello (encodeHello sampleHello) = Some (Some sampleHello) /\
  decodeHello (hello_bytes sampleHello ++ ext_bytes [Byte.x07; Byte.x01; Byte.xff]) = Some (Some sampleHello).
Proof.
  split; [apply (hello_exact [] sampleHello), sampleHello_ok|vm_compute; reflexivity].
Defined.

(** The answers to a Hello.  Accept and Decline are decoded without a read outside the
    body, from exactly the bodies of their form, and to what was encoded; any reason but
    [Incompatible] counts as [Declined]. *)
Theorem answers_exact d a c :
  (decodeAccept d <> None /\ decodeDecline d <> None) /\
  (decodeAccept d = Some (Some a) <->
     zlen (acceptName a) <= 255 /\ exists e, extension e /\ d = text_bytes (acceptName a) ++ e) /\
  (decodeDecline d = Some (Some c) <-> zlen (declineText c) <= 255 /\
     exists b, d = b :: text_bytes (declineText c) /\ (declineReason c = Incompatible <-> byteZ b = 1)) /\
  (zlen (acceptName a) <= 255 -> decodeAccept (encodeAccept a) = Some (Some a)) /\
  (zlen (declineText c) <= 255 -> decodeDecline (encodeDecline c) = Some (Some c)).
Proof.
  destruct readAccept_parses as (W & HW & Ha), readDecline_parses as (V & HV & Hd). unfold decodeAccept, decodeDecline.
  split; [split; by eapply decodeWhole_safe|].
  split; [rewrite (decodeWhole_iff _ W) by done; apply Ha|].
  split; [rewrite (decodeWhole_iff _ V) by done; apply Hd|]. split.
  - intros Hn. rewrite (decodeWhole_iff _ W) by done. apply Ha. split; [done|]. exists (writeUint16 0).
    split; [apply no_extension|]. unfold encodeAccept, writeExt, writeU16. by rewrite writeText_short.
  - intros Hn. rewrite (decodeWhole_iff _ V) by done. apply Hd. split; [done|].
    exists (toByte (reason_to_Z (declineReason c))). unfold encodeDecline. rewrite writeText_short by done.
    split; [done|]. by destruct (declineReason c).
Qed.

Lemma answers_exact_witness :
  decodeDecline (encodeDecline (mkDecline Incompatible [Byte.x41])) = Some (Some (mkDecline Incompatible [Byte.x41])) /\
  decodeDecline [Byte.x09; Byte.x00] = Some (Some (mkDecline Declined [])).
Proof.
  split; [|vm_compute; reflexivity].
  apply (answers_exact [] (mkAccept []) (mkDecline Incompatible [Byte.x41])). vm_compute. congruence.
Defined.
