(* ===== verification/PacketFlags.v ===== *)
(** * Bit-packed packet flags

    [Channel/Protocol/PacketFlags.h]: the kind, the lane and four single bits of every
    packet, in one byte. *)
From S2P Require Import Prelude.

Inductive PacketKind := Data | Ack | Ping | KBeacon.
Inductive Lane := Control | Reliable | Bulk | Media.
Inductive FlagBit := Fragmented | LastFragment | Paused | Encrypted.

#[global] Instance PacketKind_eq_dec : EqDecision PacketKind.
Proof. solve_decision. Defined.
#[global] Instance Lane_eq_dec : EqDecision Lane.
Proof. solve_decision. Defined.

(** [std::to_underlying] of the three enumerations *)
Definition kind_to_Z (k : PacketKind) : Z :=
  match k with Data => 0 | Ack => 1 | Ping => 2 | KBeacon => 3 end.
Definition lane_to_Z (l : Lane) : Z :=
  match l with Control => 0 | Reliable => 1 | Bulk => 2 | Media => 3 end.
Definition bit_to_Z (b : FlagBit) : Z :=
  match b with
  | Fragmented => Z.shiftl 1 4 | LastFragment => Z.shiftl 1 5
  | Paused => Z.shiftl 1 6 | Encrypted => Z.shiftl 1 7
  end.

(** The casts back: only the values of two bits are ever cast. *)
Definition kind_of_Z (z : Z) : PacketKind :=
  if z =? 0 then Data else if z =? 1 then Ack else if z =? 2 then Ping else KBeacon.
Definition lane_of_Z (z : Z) : Lane :=
  if z =? 0 then Control else if z =? 1 then Reliable else if z =? 2 then Bulk else Media.

Definition KindMask : Z := 3.
Definition LaneMask : Z := 12.
Definition LaneShift : Z := 2.

Record PacketFlags := mkFlags { mBits : Z }.

#[global] Instance PacketFlags_eq_dec : EqDecision PacketFlags.
Proof. solve_decision. Defined.

Definition noFlags : PacketFlags := mkFlags 0.
Definition fromRaw (raw : Z) : PacketFlags := mkFlags raw.
Definition raw (f : PacketFlags) : Z := mBits f.

Definition kind (f : PacketFlags) : PacketKind := kind_of_Z (Z.land (mBits f) KindMask).
Definition lane (f : PacketFlags) : Lane :=
  lane_of_Z (Z.shiftr (Z.land (mBits f) LaneMask) LaneShift).
Definition has (f : PacketFlags) (bit : FlagBit) : bool :=
  negb (Z.land (mBits f) (bit_to_Z bit) =? 0).

Definition isFragmented (f : PacketFlags) : bool := has f Fragmented.
Definition isLastFragment (f : PacketFlags) : bool := has f LastFragment.
Definition isPaused (f : PacketFlags) : bool := has f Paused.

Definition setKind (k : PacketKind) (f : PacketFlags) : PacketFlags :=
  mkFlags (u8 (Z.lor (Z.land (mBits f) (Z.lnot KindMask)) (kind_to_Z k))).
Definition setLane (l : Lane) (f : PacketFlags) : PacketFlags :=
  mkFlags (u8 (Z.lor (Z.land (mBits f) (Z.lnot LaneMask)) (Z.shiftl (lane_to_Z l) LaneShift))).
Definition setBit (bit : FlagBit) (on : bool) (f : PacketFlags) : PacketFlags :=
  if on then mkFlags (u8 (Z.lor (mBits f) (bit_to_Z bit)))
  else mkFlags (u8 (Z.land (mBits f) (Z.lnot (bit_to_Z bit)))).
Definition setFragment (fragmented last : bool) (f : PacketFlags) : PacketFlags :=
  setBit LastFragment (fragmented && last) (setBit Fragmented fragmented f).

Definition isValid (f : PacketFlags) : bool :=
  if has f Encrypted then false
  else if isLastFragment f && negb (isFragmented f) then false
  else if isFragmented f && negb (bool_decide (kind f = Data)) then false
  else if isPaused f && negb (bool_decide (kind f = Ack)) then false
  else if (bool_decide (kind f = Ack) || bool_decide (kind f = Ping))
          && bool_decide (lane f = Media) then false
  else if bool_decide (kind f = KBeacon) && negb (Z.land (mBits f) (Z.lnot KindMask) =? 0)
       then false
  else true.

Definition dataFlags (l : Lane) : PacketFlags := setLane l (setKind Data noFlags).
Definition ackFlags (l : Lane) (paused : bool) : PacketFlags :=
  setBit Paused paused (setLane l (setKind Ack noFlags)).
Definition pingFlags (l : Lane) : PacketFlags := setLane l (setKind Ping noFlags).

(** ** Properties

    A flags byte has 256 values: a property of all of them is checked on each. *)
Definition is_flags (f : PacketFlags) : Prop := is_uint 8 (mBits f).

Definition all_flags : list PacketFlags := mkFlags <$> seqZ 0 256.

Lemma elem_of_all_flags f : is_flags f <-> f ∈ all_flags.
Proof.
  destruct f as [b]. unfold is_flags, is_uint, all_flags; cbn [mBits].
  rewrite list_elem_of_fmap. change (2 ^ 8) with 256. split.
  - intros H. exists b. split; [done|]. apply elem_of_seqZ. lia.
  - intros (? & [= <-] & H%elem_of_seqZ). lia.
Qed.

(** Checks a decidable property of every flags byte by evaluation. *)
Lemma flags_check (P : PacketFlags -> Prop) `{!forall f, Decision (P f)} :
  bool_decide (Forall P all_flags) = true -> forall f, is_flags f -> P f.
Proof.
  intros Hall%bool_decide_eq_true f Hf%elem_of_all_flags.
  rewrite Forall_forall in Hall. by apply Hall.
Qed.

(** What a sender produces: the packets of a link and the beacon. *)
Inductive produced : PacketFlags -> Prop :=
| produced_whole l : produced (dataFlags l)
| produced_fragment l last : produced (setFragment true last (dataFlags l))
| produced_ack l paused : l <> Media -> produced (ackFlags l paused)
| produced_ping l : l <> Media -> produced (pingFlags l)
| produced_beacon : produced (setKind KBeacon noFlags).

Definition produced_flags : list PacketFlags :=
  (dataFlags <$> [Control; Reliable; Bulk; Media])
  ++ (setFragment true true ∘ dataFlags <$> [Control; Reliable; Bulk; Media])
  ++ (setFragment true false ∘ dataFlags <$> [Control; Reliable; Bulk; Media])
  ++ (flip ackFlags true <$> [Control; Reliable; Bulk])
  ++ (flip ackFlags false <$> [Control; Reliable; Bulk])
  ++ (pingFlags <$> [Control; Reliable; Bulk]) ++ [setKind KBeacon noFlags].

Lemma produced_flags_sound f : f ∈ produced_flags -> produced f.
Proof.
  unfold produced_flags. rewrite !elem_of_app, !list_elem_of_fmap.
  assert (Hm : forall l, l ∈ [Control; Reliable; Bulk] -> l <> Media) by set_solver.
  intros [(?&->&_)|[(?&->&_)|[(?&->&_)|[(l&->&Hl)|[(l&->&Hl)|[(l&->&Hl)|Hb]]]]]].
  - apply produced_whole.
  - apply produced_fragment.
  - apply produced_fragment.
  - by apply produced_ack, Hm.
  - by apply produced_ack, Hm.
  - by apply produced_ping, Hm.
  - apply list_elem_of_singleton in Hb as ->. apply produced_beacon.
Qed.

Lemma produced_flags_complete f : produced f -> f ∈ produced_flags.
Proof.
  intros []; repeat match goal with
  | l : Lane |- _ => destruct l | b : bool |- _ => destruct b end;
  try done; eapply bool_decide_unpack; vm_compute; done.
Qed.

(** The receiver's check accepts exactly the flags some sender produces. *)
Lemma isValid_produced f : is_flags f -> isValid f = true <-> produced f.
Proof.
  intros Hf.
  assert (E : isValid f = bool_decide (f ∈ produced_flags)).
  { revert f Hf. apply (flags_check _). vm_compute. done. }
  rewrite E, bool_decide_eq_true. split.
  - apply produced_flags_sound.
  - apply produced_flags_complete.
Qed.

(** Setting one field does not disturb the others. *)
Record flag_view := mkView {
  v_kind : PacketKind; v_lane : Lane; v_frag : bool; v_last : bool; v_paused : bool;
  v_enc : bool }.
Definition view (f : PacketFlags) : flag_view :=
  mkView (kind f) (lane f) (isFragmented f) (isLastFragment f) (isPaused f) (has f Encrypted).
#[global] Instance flag_view_eq_dec : EqDecision flag_view.
Proof. solve_decision. Defined.
#[global] Instance flag_view_eta : Eta flag_view :=
  fun v => mkView (v_kind v) (v_lane v) (v_frag v) (v_last v) (v_paused v) (v_enc v).

Lemma setKind_view k f : is_flags f -> view (setKind k f) = (view f) <| v_kind := k |>.
Proof. revert f. destruct k; apply (flags_check _); vm_compute; done. Qed.

Lemma setLane_view l f : is_flags f -> view (setLane l f) = (view f) <| v_lane := l |>.
Proof. revert f. destruct l; apply (flags_check _); vm_compute; done. Qed.

Lemma setFragment_view frag last f :
  is_flags f ->
  view (setFragment frag last f) =
  (view f) <| v_frag := frag |> <| v_last := frag && last |>.
Proof. revert f. destruct frag, last; apply (flags_check _); vm_compute; done. Qed.

(** The view determines the byte: nothing else is encoded in it. *)
Lemma view_inj f g : is_flags f -> is_flags g -> view f = view g -> f = g.
Proof.
  intros Hf. revert g.
  assert (H : forall f, is_flags f -> Forall (fun g => view f = view g -> f = g) all_flags).
  { apply (flags_check _). vm_compute. done. }
  intros g Hg. specialize (H f Hf). rewrite Forall_forall in H.
  apply H. by apply elem_of_all_flags.
Qed.

(** [isValid] accepts exactly the flag bytes this implementation sends: data of any
    lane, whole or as a fragment, last or not; Acks of the acknowledged lanes, paused or
    not; Pings of those lanes; and the beacon. *)
Theorem flags_valid_iff f : is_flags f -> isValid f = true <-> produced f.
Proof. apply isValid_produced. Qed.

Lemma flags_valid_iff_witness :
  isValid (ackFlags Bulk true) = true /\ produced (ackFlags Bulk true) /\ isValid (ackFlags Media true) = false.
Proof.
  split; [reflexivity|]. split; [|reflexivity].
  apply (flags_valid_iff (ackFlags Bulk true)); [split; vm_compute; congruence|reflexivity].
Defined.

(** The fields of the flag byte do not disturb each other.  Each setter changes the
    field it is named after, no other one; and the fields determine the byte. *)
Theorem flags_fields_independent f g k l frag last :
  is_flags f -> is_flags g ->
  view (setKind k f) = (view f) <| v_kind := k |> /\
  view (setLane l f) = (view f) <| v_lane := l |> /\
  view (setFragment frag last f) = (view f) <| v_frag := frag |> <| v_last := frag && last |> /\
  (view f = view g -> f = g).
Proof.
  intros Hf Hg. split_and!; [by apply setKind_view|by apply setLane_view|by apply setFragment_view|by apply view_inj].
Qed.

Lemma flags_fields_independent_witness :
  view (setLane Bulk (fromRaw 0x31)) = mkView Ack Bulk true true false false /\
  view (setLane Bulk (fromRaw 0x31)) = (view (fromRaw 0x31)) <| v_lane := Bulk |>.
Proof.
  split; [reflexivity|].
  apply (flags_fields_independent (fromRaw 0x31) (fromRaw 0) Data Bulk true true);
    split; vm_compute; congruence.
Defined.
