(* ===== verification/PacketHeader.v ===== *)
(** * The header of every datagram of a link

    [Channel/Protocol/PacketHeader.h].  A decoder returns [None] when it would read
    outside the datagram (undefined behaviour), [Some None] for [std::nullopt] and
    [Some (Some p)] for a packet. *)
From S2P Require Import Prelude Constants ByteOrder PacketFlags.

Definition ProtocolMagic : Z := 0x4E4C.
Definition ProtocolVersion : Z := 3.
Definition BaseHeaderSize : Z := 20.
Definition FragmentExtensionSize : Z := 4.
Definition TagExtensionSize : Z := 4.
Definition LengthExtensionSize : Z := 4.
Definition MaxHeaderSize : Z :=
  BaseHeaderSize + FragmentExtensionSize + TagExtensionSize + LengthExtensionSize.
Definition MaxFragmentBody : Z := MaxDatagramSize - MaxHeaderSize.

Definition fragmentsOf (length : Z) : Z :=
  if length =? 0 then 1 else (length + MaxFragmentBody - 1) / MaxFragmentBody.

Definition maxMessageSize (l : Lane) : Z :=
  if bool_decide (l = Media) then MaxMediaPayload else MaxMessagePayload.

Record PacketHeader := mkHeader {
  flags : PacketFlags;
  srcStreamID : Z;
  dstStreamID : Z;
  seq : Z;
  fragIndex : Z;
  fragCount : Z;
  tag : Z;
  totalLength : Z;
}.
#[global] Instance PacketHeader_eta : Eta PacketHeader := fun h =>
  mkHeader (flags h) (srcStreamID h) (dstStreamID h) (seq h) (fragIndex h) (fragCount h)
    (tag h) (totalLength h).
#[global] Instance PacketHeader_eq_dec : EqDecision PacketHeader.
Proof. solve_decision. Defined.

Definition startsMessage (h : PacketHeader) : bool :=
  bool_decide (kind (flags h) = Data) && (negb (isFragmented (flags h)) || (fragIndex h =? 0)).
Definition startsFragmentedMessage (h : PacketHeader) : bool :=
  isFragmented (flags h) && (fragIndex h =? 0).

Definition encodedSize (h : PacketHeader) : Z :=
  BaseHeaderSize + (if isFragmented (flags h) then FragmentExtensionSize else 0)
  + (if startsMessage h then TagExtensionSize else 0)
  + (if startsFragmentedMessage h then LengthExtensionSize else 0).

Record DecodedPacket := mkPacket { header : PacketHeader; body : bytes }.

(** The bytes [encodeHeader] stores at [out]; the number it returns is their length. *)
Definition encodeHeader (h : PacketHeader) : bytes :=
  writeUint16 ProtocolMagic ++ [toByte ProtocolVersion] ++ [toByte (raw (flags h))]
  ++ writeUint32 (srcStreamID h) ++ writeUint32 (dstStreamID h) ++ writeUint64 (seq h)
  ++ (if isFragmented (flags h) then writeUint16 (fragIndex h) ++ writeUint16 (fragCount h)
      else [])
  ++ (if startsMessage h then writeUint32 (tag h) else [])
  ++ (if startsFragmentedMessage h then writeUint32 (totalLength h) else []).

Definition encodePacket (h : PacketHeader) (b : bytes) : bytes :=
  let datagram := replicate (Z.to_nat (encodedSize h + zlen b)) Byte.x00 in
  let head := encodeHeader h in
  blit (blit datagram 0 head) (zlen head) b.

(** ** Decoding *)

(** Runs [k] on the result of a decoding step that neither left the buffer nor
    rejected the datagram. *)
Definition decode_then {A B} (m : option (option A)) (k : A -> option (option B)) :
    option (option B) :=
  match m with
  | Some (Some a) => k a
  | Some None => Some None
  | None => None
  end.
Notation "x ⇐ m ; k" := (decode_then m (fun x => k))
  (at level 20, m at level 100, k at level 200, right associativity,
   format "x  ⇐  m ;  '/' k") : netlink_scope.

Definition decodeFragmentExtension (d : bytes) (p : PacketHeader * Z) :
    option (option (PacketHeader * Z)) :=
  let '(h, size) := p in
  if isFragmented (flags h) then
    if zlen d <? size + FragmentExtensionSize then Some None
    else
      idx ← readUint16 d size;
      cnt ← readUint16 d (size + 2);
      if (cnt <? 2) || (fragmentsOf (maxMessageSize (lane (flags h))) <? cnt) || (cnt <=? idx)
      then Some None
      else if negb (Bool.eqb (isLastFragment (flags h)) (idx + 1 =? cnt)) then Some None
      else Some (Some (h <| fragIndex := idx |> <| fragCount := cnt |>,
                       size + FragmentExtensionSize))
  else Some (Some (h, size)).

Definition decodeTagExtension (d : bytes) (p : PacketHeader * Z) :
    option (option (PacketHeader * Z)) :=
  let '(h, size) := p in
  if startsMessage h then
    if zlen d <? size + TagExtensionSize then Some None
    else
      t ← readUint32 d size;
      Some (Some (h <| tag := t |>, size + TagExtensionSize))
  else Some (Some (h, size)).

Definition decodeLengthExtension (d : bytes) (p : PacketHeader * Z) :
    option (option (PacketHeader * Z)) :=
  let '(h, size) := p in
  if startsFragmentedMessage h then
    if zlen d <? size + LengthExtensionSize then Some None
    else
      len ← readUint32 d size;
      if (maxMessageSize (lane (flags h)) <? len) || negb (fragmentsOf len =? fragCount h)
      then Some None
      else Some (Some (h <| totalLength := len |>, size + LengthExtensionSize))
  else Some (Some (h, size)).

(** The decoder fills the header in stages; each stage is given the header so far and
    [size], the number of bytes it was read from.
    The fixed fields, up to [BaseHeaderSize]: *)
Definition decodeBaseHeader (d : bytes) : option (option (PacketHeader * Z)) :=
  if zlen d <? BaseHeaderSize then Some None
  else
    magic ← readUint16 d 0;
    version ← readUint8 d 2;
    if negb (magic =? ProtocolMagic) || negb (version =? ProtocolVersion) then Some None
    else
      flagByte ← readUint8 d 3;
      let fl := fromRaw flagByte in
      if negb (isValid fl) || bool_decide (kind fl = KBeacon) then Some None
      else
        src ← readUint32 d 4;
        dst ← readUint32 d 8;
        sq ← readUint64 d 12;
        if (src =? 0) || (bool_decide (kind fl = Data) && (sq =? 0)) then Some None
        else Some (Some ({| flags := fl; srcStreamID := src; dstStreamID := dst; seq := sq;
                            fragIndex := 0; fragCount := 0; tag := 0; totalLength := 0 |},
                         BaseHeaderSize)).

Definition decodeHeader (d : bytes) : option (option DecodedPacket) :=
  p ⇐ decodeBaseHeader d;
  p ⇐ decodeFragmentExtension d p;
  p ⇐ decodeTagExtension d p;
  p ⇐ decodeLengthExtension d p;
  Some (Some {| header := p.1; body := zdrop p.2 d |}).

Definition isBodySizeValid (h : PacketHeader) (size : Z) : bool :=
  match kind (flags h) with
  | Data =>
    if negb (isFragmented (flags h)) then size <=? MaxFragmentBody
    else if isLastFragment (flags h) then (0 <? size) && (size <=? MaxFragmentBody)
    else size =? MaxFragmentBody
  | Ping => size =? 0
  | Ack | KBeacon => true
  end.

Definition decodePacket (d : bytes) : option (option DecodedPacket) :=
  if MaxDatagramSize <? zlen d then Some None
  else
    p ⇐ decodeHeader d;
    if isBodySizeValid (header p) (zlen (body p)) then Some (Some p) else Some None.

(** ** What is decoded

    [wire_header] are the headers a datagram can carry: fields in their range, and the
    fields that are not on the wire zero. *)
Record wire_header (h : PacketHeader) : Prop := {
  wh_flags : is_flags (flags h);
  wh_valid : isValid (flags h) = true;
  wh_kind : kind (flags h) <> KBeacon;
  wh_src : is_uint 32 (srcStreamID h);
  wh_src_nonzero : srcStreamID h <> 0;
  wh_dst : is_uint 32 (dstStreamID h);
  wh_seq : is_uint 64 (seq h);
  wh_seq_nonzero : kind (flags h) = Data -> seq h <> 0;
  wh_fragment :
    if isFragmented (flags h) then
      is_uint 16 (fragIndex h) /\ is_uint 16 (fragCount h)
      /\ 2 <= fragCount h <= fragmentsOf (maxMessageSize (lane (flags h)))
      /\ fragIndex h < fragCount h
      /\ isLastFragment (flags h) = (fragIndex h + 1 =? fragCount h)
    else fragIndex h = 0 /\ fragCount h = 0;
  wh_tag : if startsMessage h then is_uint 32 (tag h) else tag h = 0;
  wh_length :
    if startsFragmentedMessage h then
      is_uint 32 (totalLength h) /\ totalLength h <= maxMessageSize (lane (flags h))
      /\ fragmentsOf (totalLength h) = fragCount h
    else totalLength h = 0;
}.

Lemma encodeHeader_length h : zlen (encodeHeader h) = encodedSize h.
Proof.
  unfold encodeHeader, encodedSize. autorewrite with zlen.
  destruct (isFragmented _), (startsMessage h), (startsFragmentedMessage h);
    autorewrite with zlen; reflexivity.
Qed.

Lemma encodePacket_app h b : encodePacket h b = encodeHeader h ++ b.
Proof. unfold encodePacket. apply blit_prefix. by rewrite encodeHeader_length. Qed.

Lemma encodedSize_bounds h : BaseHeaderSize <= encodedSize h <= MaxHeaderSize.
Proof. unfold encodedSize. repeat case_match; cbv; split; discriminate. Qed.

Lemma decode_then_Some {A B} (m : option (option A)) (k : A -> option (option B)) y :
  decode_then m k = Some (Some y) <-> exists x, m = Some (Some x) /\ k x = Some (Some y).
Proof. destruct m as [[x|]|]; simpl; naive_solver. Qed.

(** Each stage, on success, reads exactly what the encoder writes for it. *)
Definition fragment_ext (h : PacketHeader) : bytes :=
  if isFragmented (flags h) then writeUint16 (fragIndex h) ++ writeUint16 (fragCount h) else [].
Definition tag_ext (h : PacketHeader) : bytes :=
  if startsMessage h then writeUint32 (tag h) else [].
Definition length_ext (h : PacketHeader) : bytes :=
  if startsFragmentedMessage h then writeUint32 (totalLength h) else [].
Definition base_header (h : PacketHeader) : bytes :=
  writeUint16 ProtocolMagic ++ [toByte ProtocolVersion] ++ [toByte (raw (flags h))]
  ++ writeUint32 (srcStreamID h) ++ writeUint32 (dstStreamID h) ++ writeUint64 (seq h).

Lemma encodeHeader_parts h :
  encodeHeader h = base_header h ++ fragment_ext h ++ tag_ext h ++ length_ext h.
Proof. unfold encodeHeader, base_header. by rewrite <- !app_assoc. Qed.

Lemma reads_at_nil d i : 0 <= i <= zlen d -> reads_at [] d i.
Proof.
  intros. exists (ztake i d), (zdrop i d). simpl. rewrite ztake_zdrop, zlen_ztake.
  split; [done|lia].
Qed.

(** A header with only the fixed fields filled in, every one in its range. *)
Record base_fields (h : PacketHeader) : Prop := {
  bf_flags : is_flags (flags h);
  bf_valid : isValid (flags h) = true;
  bf_kind : kind (flags h) <> KBeacon;
  bf_src : is_uint 32 (srcStreamID h);
  bf_src_nonzero : srcStreamID h <> 0;
  bf_dst : is_uint 32 (dstStreamID h);
  bf_seq : is_uint 64 (seq h);
  bf_seq_nonzero : kind (flags h) = Data -> seq h <> 0;
}.
Definition strip_extensions (h : PacketHeader) : PacketHeader :=
  h <| fragIndex := 0 |> <| fragCount := 0 |> <| tag := 0 |> <| totalLength := 0 |>.

Lemma decodeBaseHeader_sound d h size :
  decodeBaseHeader d = Some (Some (h, size)) ->
  size = BaseHeaderSize /\ reads_at (base_header h) d 0 /\ base_fields h /\
  strip_extensions h = h.
Proof.
  unfold decodeBaseHeader. intros H.
  destruct (Z.ltb_spec (zlen d) BaseHeaderSize); [done|].
  apply bind_Some_inv in H as (magic & [_ R0]%readUint16_spec & H).
  apply bind_Some_inv in H as (version & (bv & -> & R2)%readUint8_inv & H).
  split_match_in H; [done|]. bool_prop.
  apply bind_Some_inv in H as (fb & (bf & -> & R3)%readUint8_inv & H).
  simpl in H. split_match_in H; [done|]. bool_prop.
  apply bind_Some_inv in H as (src & [Hsrc R4]%readUint32_spec & H).
  apply bind_Some_inv in H as (dst & [Hdst R8]%readUint32_spec & H).
  apply bind_Some_inv in H as (sq & [Hsq R12]%readUint64_spec & H).
  split_match_in H; [done|]. bool_prop. simplify_eq/=.
  split; [done|]. split; [|split; [|done]].
  - assert (E : toByte ProtocolVersion = bv) by (apply toByte_eq; by rewrite H2).
    unfold base_header, raw, fromRaw; cbn [flags srcStreamID dstStreamID seq mBits].
    rewrite E, toByte_byteZ.
    repeat (apply reads_at_app; [done|]). done.
  - split; simpl; try done; try (by apply byteZ_range).
    intros Hk. match goal with H : _ \/ _ |- _ => destruct H end; by bool_prop.
Qed.

Lemma decodeBaseHeader_complete d h :
  reads_at (base_header h) d 0 -> base_fields h ->
  decodeBaseHeader d = Some (Some (strip_extensions h, BaseHeaderSize)).
Proof.
  intros Hr []. unfold decodeBaseHeader.
  pose proof (reads_at_range _ _ _ Hr) as [_ Hlen].
  destruct (Z.ltb_spec (zlen d) BaseHeaderSize) as [Hlt|_];
    [change (zlen (base_header h)) with 20 in Hlen; unfold BaseHeaderSize in Hlt; lia|].
  unfold base_header in Hr.
  apply reads_at_app_inv in Hr as [R0 Hr]. apply reads_at_app_inv in Hr as [R2 Hr].
  apply reads_at_app_inv in Hr as [R3 Hr]. apply reads_at_app_inv in Hr as [R4 Hr].
  apply reads_at_app_inv in Hr as [R8 R12].
  change (reads_at [toByte ProtocolVersion] d 2) in R2.
  change (reads_at [toByte (raw (flags h))] d 3) in R3.
  change (reads_at (writeUint32 (srcStreamID h)) d 4) in R4.
  change (reads_at (writeUint32 (dstStreamID h)) d 8) in R8.
  change (reads_at (writeUint64 (seq h)) d 12) in R12.
  rewrite (proj2 (readUint16_spec d 0 ProtocolMagic)) by (split; [done|exact R0]). simpl.
  rewrite (readUint8_complete _ _ _ R2). simpl.
  rewrite (readUint8_complete _ _ _ R3). simpl.
  rewrite byteZ_toByte, wrap_small by done.
  assert (Ef : fromRaw (raw (flags h)) = flags h) by by destruct (flags h).
  rewrite Ef, bf_valid0. simpl. rewrite bool_decide_eq_false_2 by done.
  rewrite (proj2 (readUint32_spec d 4 _) (conj bf_src0 R4)). simpl.
  rewrite (proj2 (readUint32_spec d 8 _) (conj bf_dst0 R8)). simpl.
  rewrite (proj2 (readUint64_spec d 12 _) (conj bf_seq0 R12)). simpl.
  rewrite (proj2 (Z.eqb_neq _ _) bf_src_nonzero0). simpl.
  destruct (bool_decide_reflect (kind (flags h) = Data)) as [HD|]; simpl;
    [rewrite (proj2 (Z.eqb_neq _ _) (bf_seq_nonzero0 HD))|]; simpl; by destruct h.
Qed.

(** The extensions.  [ext_ok] is what the decoder checks of each of them. *)
Definition fragment_ok (h : PacketHeader) : Prop :=
  if isFragmented (flags h) then
    is_uint 16 (fragIndex h) /\ is_uint 16 (fragCount h)
    /\ 2 <= fragCount h <= fragmentsOf (maxMessageSize (lane (flags h)))
    /\ fragIndex h < fragCount h
    /\ isLastFragment (flags h) = (fragIndex h + 1 =? fragCount h)
  else fragIndex h = 0 /\ fragCount h = 0.
Definition tag_ok (h : PacketHeader) : Prop :=
  if startsMessage h then is_uint 32 (tag h) else tag h = 0.
Definition length_ok (h : PacketHeader) : Prop :=
  if startsFragmentedMessage h then
    is_uint 32 (totalLength h) /\ totalLength h <= maxMessageSize (lane (flags h))
    /\ fragmentsOf (totalLength h) = fragCount h
  else totalLength h = 0.

Lemma decodeFragmentExtension_sound d h size h' size' :
  fragIndex h = 0 -> fragCount h = 0 -> 0 <= size <= zlen d ->
  decodeFragmentExtension d (h, size) = Some (Some (h', size')) ->
  reads_at (fragment_ext h') d size /\ size' = size + zlen (fragment_ext h') /\
  fragment_ok h' /\ h' <| fragIndex := 0 |> <| fragCount := 0 |> = h.
Proof.
  unfold decodeFragmentExtension. intros E1 E2 Hs H.
  destruct (isFragmented (flags h)) eqn:F.
  - destruct (Z.ltb_spec (zlen d) (size + FragmentExtensionSize)); [done|].
    apply bind_Some_inv in H as (idx & [Hi Ri]%readUint16_spec & H).
    apply bind_Some_inv in H as (cnt & [Hc Rc]%readUint16_spec & H).
    do 2 (split_match_in H; [done|]). bool_prop. injection H as <- <-.
    unfold fragment_ext, fragment_ok. change (flags (_ <| fragCount := _ |>)) with (flags h).
    rewrite F. split; [by apply reads_at_app|]. split; [done|]. split.
    + simpl. split_and!; try done. by apply eqb_prop.
    + destruct h; simpl in *; by subst.
  - injection H as <- <-. unfold fragment_ext, fragment_ok. rewrite F, zlen_nil.
    split; [by apply reads_at_nil|]. split; [lia|]. split; [done|].
    destruct h; simpl in *; by subst.
Qed.

Lemma decodeFragmentExtension_complete d h size :
  reads_at (fragment_ext h) d size -> fragment_ok h ->
  decodeFragmentExtension d (h <| fragIndex := 0 |> <| fragCount := 0 |>, size)
  = Some (Some (h, size + zlen (fragment_ext h))).
Proof.
  unfold decodeFragmentExtension, fragment_ext, fragment_ok. intros Hr Hok.
  change (flags (_ <| fragCount := _ |>)) with (flags h).
  destruct (isFragmented (flags h)) eqn:F.
  - destruct Hok as (Hi & Hc & Hb & Hlt & Hl).
    pose proof (reads_at_range _ _ _ Hr) as [_ Hlen]. autorewrite with zlen in Hlen.
    apply reads_at_app_inv in Hr as [Ri Rc]. rewrite writeUint16_length in Rc.
    destruct (Z.ltb_spec (zlen d) (size + FragmentExtensionSize));
      [unfold FragmentExtensionSize in *; lia|].
    rewrite (proj2 (readUint16_spec _ _ _) (conj Hi Ri)). simpl.
    rewrite (proj2 (readUint16_spec _ _ _) (conj Hc Rc)). simpl.
    rewrite Hl, eqb_reflx.
    destruct (Z.ltb_spec (fragCount h) 2); [lia|].
    destruct (Z.ltb_spec (fragmentsOf (maxMessageSize (lane (flags h)))) (fragCount h)); [lia|].
    destruct (Z.leb_spec (fragCount h) (fragIndex h)); [lia|]. by destruct h.
  - destruct Hok. unfold zlen; simpl. rewrite Z.add_0_r. destruct h; simpl in *; by subst.
Qed.

Lemma decodeTagExtension_sound d h size h' size' :
  tag h = 0 -> 0 <= size <= zlen d ->
  decodeTagExtension d (h, size) = Some (Some (h', size')) ->
  reads_at (tag_ext h') d size /\ size' = size + zlen (tag_ext h') /\
  tag_ok h' /\ h' <| tag := 0 |> = h.
Proof.
  unfold decodeTagExtension. intros E Hs H. destruct (startsMessage h) eqn:F.
  - destruct (Z.ltb_spec (zlen d) (size + TagExtensionSize)); [done|].
    apply bind_Some_inv in H as (t & [Ht Rt]%readUint32_spec & H). injection H as <- <-.
    unfold tag_ext, tag_ok. change (startsMessage (_ <| tag := _ |>)) with (startsMessage h).
    rewrite F. do 3 (split; [done|]). destruct h; simpl in *; by subst.
  - injection H as <- <-. unfold tag_ext, tag_ok. rewrite F, zlen_nil.
    split; [by apply reads_at_nil|]. split; [lia|]. split; [done|].
    destruct h; simpl in *; by subst.
Qed.

Lemma decodeTagExtension_complete d h size :
  reads_at (tag_ext h) d size -> tag_ok h ->
  decodeTagExtension d (h <| tag := 0 |>, size) = Some (Some (h, size + zlen (tag_ext h))).
Proof.
  unfold decodeTagExtension, tag_ext, tag_ok. intros Hr Hok.
  change (startsMessage (_ <| tag := _ |>)) with (startsMessage h).
  destruct (startsMessage h) eqn:F.
  - pose proof (reads_at_range _ _ _ Hr) as [_ Hlen]. autorewrite with zlen in Hlen.
    destruct (Z.ltb_spec (zlen d) (size + TagExtensionSize));
      [unfold TagExtensionSize in *; lia|].
    rewrite (proj2 (readUint32_spec _ _ _) (conj Hok Hr)). by destruct h.
  - destruct h; simpl in *; subst. by rewrite Z.add_0_r.
Qed.

Lemma decodeLengthExtension_sound d h size h' size' :
  totalLength h = 0 -> 0 <= size <= zlen d ->
  decodeLengthExtension d (h, size) = Some (Some (h', size')) ->
  reads_at (length_ext h') d size /\ size' = size + zlen (length_ext h') /\
  length_ok h' /\ h' <| totalLength := 0 |> = h.
Proof.
  unfold decodeLengthExtension. intros E Hs H. destruct (startsFragmentedMessage h) eqn:F.
  - destruct (Z.ltb_spec (zlen d) (size + LengthExtensionSize)); [done|].
    apply bind_Some_inv in H as (n & [Hn Rn]%readUint32_spec & H).
    split_match_in H; [done|]. bool_prop. injection H as <- <-.
    unfold length_ext, length_ok.
    change (startsFragmentedMessage (_ <| totalLength := _ |>)) with (startsFragmentedMessage h).
    rewrite F. do 2 (split; [done|]). split; [done|]. destruct h; simpl in *; by subst.
  - injection H as <- <-. unfold length_ext, length_ok. rewrite F, zlen_nil.
    split; [by apply reads_at_nil|]. split; [lia|]. split; [done|].
    destruct h; simpl in *; by subst.
Qed.

Lemma decodeLengthExtension_complete d h size :
  reads_at (length_ext h) d size -> length_ok h ->
  decodeLengthExtension d (h <| totalLength := 0 |>, size)
  = Some (Some (h, size + zlen (length_ext h))).
Proof.
  unfold decodeLengthExtension, length_ext, length_ok. intros Hr Hok.
  change (startsFragmentedMessage (_ <| totalLength := _ |>)) with (startsFragmentedMessage h).
  destruct (startsFragmentedMessage h) eqn:F.
  - destruct Hok as (Hn & Hmax & Hcnt).
    pose proof (reads_at_range _ _ _ Hr) as [_ Hlen]. autorewrite with zlen in Hlen.
    destruct (Z.ltb_spec (zlen d) (size + LengthExtensionSize));
      [unfold LengthExtensionSize in *; lia|].
    rewrite (proj2 (readUint32_spec _ _ _) (conj Hn Hr)). simpl.
    destruct (Z.ltb_spec (maxMessageSize (lane (flags h))) (totalLength h)); [lia|].
    rewrite Hcnt, Z.eqb_refl. by destruct h.
  - destruct h; simpl in *; subst. by rewrite Z.add_0_r.
Qed.

Lemma wire_header_alt h :
  wire_header h <-> base_fields h /\ fragment_ok h /\ tag_ok h /\ length_ok h.
Proof.
  split.
  - intros []. split_and!; [by split|done..].
  - intros ([] & Hf & Ht & Hl). by split.
Qed.

(** The decoder accepts exactly the encodings of wire headers. *)
Lemma decodeHeader_sound d p :
  decodeHeader d = Some (Some p) ->
  wire_header (header p) /\ d = encodeHeader (header p) ++ body p.
Proof.
  unfold decodeHeader. intros ([h1 s1] & H1 & H)%decode_then_Some.
  apply decode_then_Some in H as ([h2 s2] & H2 & H).
  apply decode_then_Some in H as ([h3 s3] & H3 & H).
  apply decode_then_Some in H as ([h4 s4] & H4 & H). simplify_eq/=.
  apply decodeBaseHeader_sound in H1 as (-> & R1 & B1 & S1).
  pose proof (reads_at_range _ _ _ R1) as [_ L1]. change (0 + zlen (base_header h1)) with 20 in L1.
  unfold BaseHeaderSize in *.
  apply decodeFragmentExtension_sound in H2 as (R2 & -> & K2 & <-);
    [|exact (eq_sym (f_equal fragIndex S1))|exact (eq_sym (f_equal fragCount S1))|lia].
  pose proof (reads_at_range _ _ _ R2) as [_ L2]. pose proof (zlen_nonneg (fragment_ext h2)).
  apply decodeTagExtension_sound in H3 as (R3 & -> & K3 & <-);
    [|exact (eq_sym (f_equal tag S1))|lia].
  pose proof (reads_at_range _ _ _ R3) as [_ L3]. pose proof (zlen_nonneg (tag_ext h3)).
  apply decodeLengthExtension_sound in H4 as (R4 & -> & K4 & <-);
    [|exact (eq_sym (f_equal totalLength S1))|lia].
  split.
  - apply wire_header_alt. split; [by destruct B1|]. done.
  - assert (R : reads_at (encodeHeader h4) d 0).
    { rewrite encodeHeader_parts. apply reads_at_app; [exact R1|].
      apply reads_at_app; [exact R2|]. apply reads_at_app; [exact R3|exact R4]. }
    destruct R as (pre & post & -> & ->%zlen_nil_inv). cbn [app header body].
    rewrite zdrop_app_exact; [done|].
    rewrite encodeHeader_parts, !zlen_app. change (zlen (base_header h4)) with 20.
    rewrite !Z.add_assoc. done.
Qed.

Lemma decodeHeader_complete h b :
  wire_header h ->
  decodeHeader (encodeHeader h ++ b) = Some (Some {| header := h; body := b |}).
Proof.
  intros (B & Kf & Kt & Kl)%wire_header_alt.
  remember (encodeHeader h ++ b) as d eqn:Ed.
  assert (R' : reads_at (encodeHeader h) d 0) by by exists [], b.
  rewrite encodeHeader_parts in R'.
  apply reads_at_app_inv in R' as [R1 R']. apply reads_at_app_inv in R' as [R2 R'].
  apply reads_at_app_inv in R' as [R3 R4]. unfold decodeHeader.
  rewrite (decodeBaseHeader_complete _ _ R1 B). cbn [decode_then].
  change (strip_extensions h) with
    (h <| totalLength := 0 |> <| tag := 0 |> <| fragIndex := 0 |> <| fragCount := 0 |>).
  rewrite (decodeFragmentExtension_complete _ (h <| totalLength := 0 |> <| tag := 0 |>))
    by done. cbn [decode_then].
  rewrite (decodeTagExtension_complete _ (h <| totalLength := 0 |>)) by done.
  cbn [decode_then]. rewrite decodeLengthExtension_complete by done.
  cbn [decode_then fst snd]. do 3 f_equal.
  rewrite Ed, zdrop_app_exact; [done|]. rewrite encodeHeader_parts, !zlen_app.
  change (zlen (base_header h)) with 20. unfold BaseHeaderSize. rewrite !Z.add_assoc. done.
Qed.

(** No datagram makes the decoder read outside its bytes. *)
Lemma decode_then_safe {A B} (m : option (option A)) (k : A -> option (option B)) :
  m <> None -> (forall x, m = Some (Some x) -> k x <> None) -> decode_then m k <> None.
Proof. destruct m as [[x|]|]; simpl; naive_solver. Qed.

Ltac read_in_bounds lem :=
  match goal with
  | |- context [?r ?d ?i ≫= _] =>
    let E := fresh in destruct (lem d i) as [? E]; [lia..|rewrite E; clear E; cbn [mbind option_bind]]
  end.

Lemma decodeBaseHeader_safe d : decodeBaseHeader d <> None.
Proof.
  unfold decodeBaseHeader. destruct (Z.ltb_spec (zlen d) BaseHeaderSize) as [|Hlen]; [done|].
  unfold BaseHeaderSize in Hlen.
  read_in_bounds readUint16_total. read_in_bounds readUint8_total.
  case_match; [done|]. read_in_bounds readUint8_total. simpl. case_match; [done|].
  read_in_bounds readUint32_total. read_in_bounds readUint32_total.
  read_in_bounds readUint64_total. by case_match.
Qed.

Lemma decodeFragmentExtension_safe d p : 0 <= p.2 -> decodeFragmentExtension d p <> None.
Proof.
  destruct p as [h size]. intros Hs. simpl in Hs. unfold decodeFragmentExtension.
  case_match; [|done].
  destruct (Z.ltb_spec (zlen d) (size + FragmentExtensionSize)) as [|Hlen]; [done|].
  unfold FragmentExtensionSize in Hlen.
  read_in_bounds readUint16_total. read_in_bounds readUint16_total. by repeat case_match.
Qed.

Lemma decodeTagExtension_safe d p : 0 <= p.2 -> decodeTagExtension d p <> None.
Proof.
  destruct p as [h size]. intros Hs. simpl in Hs. unfold decodeTagExtension.
  case_match; [|done].
  destruct (Z.ltb_spec (zlen d) (size + TagExtensionSize)) as [|Hlen]; [done|].
  unfold TagExtensionSize in Hlen. by read_in_bounds readUint32_total.
Qed.

Lemma decodeLengthExtension_safe d p : 0 <= p.2 -> decodeLengthExtension d p <> None.
Proof.
  destruct p as [h size]. intros Hs. simpl in Hs. unfold decodeLengthExtension.
  case_match; [|done].
  destruct (Z.ltb_spec (zlen d) (size + LengthExtensionSize)) as [|Hlen]; [done|].
  unfold LengthExtensionSize in Hlen. read_in_bounds readUint32_total. by repeat case_match.
Qed.

(** Every stage moves [size] forward. *)
Lemma stage_sizes d :
  (forall p, decodeBaseHeader d = Some (Some p) -> 0 <= p.2) /\
  (forall p q, 0 <= p.2 -> decodeFragmentExtension d p = Some (Some q) -> 0 <= q.2) /\
  (forall p q, 0 <= p.2 -> decodeTagExtension d p = Some (Some q) -> 0 <= q.2).
Proof.
  split_and!.
  - intros [h s] (-> & _)%decodeBaseHeader_sound. done.
  - intros [h s] [h' s'] Hs H. unfold decodeFragmentExtension in H. simpl in *.
    case_match; [|by simplify_eq]. case_match; [done|]. invert_reads.
    repeat (case_match; [done|]). simplify_eq. unfold FragmentExtensionSize. lia.
  - intros [h s] [h' s'] Hs H. unfold decodeTagExtension in H. simpl in *.
    case_match; [|by simplify_eq]. case_match; [done|]. invert_reads.
    simplify_eq. unfold TagExtensionSize. lia.
Qed.

Lemma decodeHeader_safe d : decodeHeader d <> None.
Proof.
  destruct (stage_sizes d) as (S1 & S2 & S3). unfold decodeHeader.
  apply decode_then_safe; [apply decodeBaseHeader_safe|]. intros p1 H1.
  apply decode_then_safe; [by eauto using decodeFragmentExtension_safe|]. intros p2 H2.
  apply decode_then_safe; [by eauto using decodeTagExtension_safe|]. intros p3 H3.
  apply decode_then_safe; [by eauto using decodeLengthExtension_safe|]. done.
Qed.

Lemma decodePacket_sound d p :
  decodePacket d = Some (Some p) ->
  wire_header (header p) /\ isBodySizeValid (header p) (zlen (body p)) = true /\
  zlen d <= MaxDatagramSize /\ d = encodeHeader (header p) ++ body p.
Proof.
  unfold decodePacket. destruct (Z.ltb_spec MaxDatagramSize (zlen d)); [done|].
  intros (q & Hq & Hp)%decode_then_Some. case_match; [|done]. simplify_eq.
  by apply decodeHeader_sound in Hq as [? ?].
Qed.

Lemma decodePacket_complete h b :
  wire_header h -> isBodySizeValid h (zlen b) = true ->
  encodedSize h + zlen b <= MaxDatagramSize ->
  decodePacket (encodeHeader h ++ b) = Some (Some {| header := h; body := b |}).
Proof.
  intros Hh Hb Hs. unfold decodePacket. rewrite zlen_app, encodeHeader_length.
  destruct (Z.ltb_spec MaxDatagramSize (encodedSize h + zlen b)); [lia|].
  rewrite decodeHeader_complete by done. simpl. by rewrite Hb.
Qed.

(** ** Fragments *)
Lemma fragmentsOf_pos n : 0 <= n -> 1 <= fragmentsOf n.
Proof.
  unfold fragmentsOf. destruct (Z.eqb_spec n 0); [lia|].
  change MaxFragmentBody with 1168. intros. Z.div_mod_to_equations. lia.
Qed.

(** [fragmentsOf n] is the least number of fragments that hold [n] bytes. *)
Lemma fragmentsOf_spec n k :
  0 < n -> fragmentsOf n = k <-> (k - 1) * MaxFragmentBody < n <= k * MaxFragmentBody.
Proof.
  unfold fragmentsOf. intros. destruct (Z.eqb_spec n 0); [lia|].
  change MaxFragmentBody with 1168. Z.div_mod_to_equations. lia.
Qed.

Lemma fragmentsOf_max l : fragmentsOf (maxMessageSize l) <= 14365.
Proof. destruct l; vm_compute; discriminate. Qed.

Lemma fragmentsOf_mono m n : 0 <= m <= n -> fragmentsOf m <= fragmentsOf n.
Proof.
  intros. destruct (Z.eqb_spec m 0) as [->|].
  - change (fragmentsOf 0) with 1. apply fragmentsOf_pos. lia.
  - unfold fragmentsOf. destruct (Z.eqb_spec m 0), (Z.eqb_spec n 0); try lia.
    apply Z.div_le_mono; [done|lia].
Qed.

(** A packet of data has at most one fragment's worth of body; of a fragmented message all
    fragments but the last are full, and the last is not empty.  A Ping has no body. *)
Definition body_fits (h : PacketHeader) (size : Z) : Prop :=
  match kind (flags h) with
  | Data =>
    size <= MaxFragmentBody /\
    (isFragmented (flags h) = true -> if isLastFragment (flags h) then 0 < size else size = MaxFragmentBody)
  | Ping => size = 0
  | Ack | KBeacon => True
  end.

Lemma isBodySizeValid_iff h size : isBodySizeValid h size = true <-> body_fits h size.
Proof.
  unfold isBodySizeValid, body_fits. destruct (kind (flags h)); [|done|apply Z.eqb_eq|done].
  destruct (isFragmented (flags h)); cbn [negb]; [|rewrite Z.leb_le; intuition congruence].
  destruct (isLastFragment (flags h)); [rewrite andb_true_iff, Z.ltb_lt, Z.leb_le; tauto|].
  rewrite Z.eqb_eq. split; [intros ->; by split|intros [_ H]; by apply H].
Qed.

(** C3: [decodePacket] is the inverse of [encodePacket], and accepts nothing else.  It
    returns a packet if and only if the datagram is the encoding of that packet, the header
    is one that can be on the wire, the body has a size that fits the kind of packet, and
    the whole is not longer than a datagram may be. *)
Theorem decodePacket_iff d p :
  decodePacket d = Some (Some p) <->
  d = encodePacket (header p) (body p) /\ wire_header (header p) /\
  body_fits (header p) (zlen (body p)) /\
  encodedSize (header p) + zlen (body p) <= MaxDatagramSize.
Proof.
  rewrite encodePacket_app, <- isBodySizeValid_iff. split.
  - intros (Hw & Hb & Hs & E)%decodePacket_sound. rewrite E, zlen_app, encodeHeader_length in Hs. done.
  - intros (-> & Hw & Hb & Hs). destruct p. by apply decodePacket_complete.
Qed.

(** The decoder is safe on any input: whatever bytes arrive, no read of
    [decodePacket] is outside the datagram (the model's [None]). *)
Theorem decodePacket_in_bounds d : decodePacket d <> None.
Proof.
  unfold decodePacket. destruct (_ <? _); [done|]. apply decode_then_safe; [apply decodeHeader_safe|].
  intros p _. by destruct (isBodySizeValid _ _).
Qed.

(** What [encodeHeader] writes fits into the buffer of [MaxHeaderSize] bytes it is
    given, and [encodedSize] is its length; a fragment of any message, with the largest
    header, fits into a datagram; and [fragmentsOf] is the least number of fragments. *)
Theorem header_and_fragment_fit h n k :
  zlen (encodeHeader h) = encodedSize h /\ zlen (encodeHeader h) <= MaxHeaderSize /\
  MaxHeaderSize + MaxFragmentBody <= MaxDatagramSize /\
  (0 < n -> fragmentsOf n = k <-> (k - 1) * MaxFragmentBody < n <= k * MaxFragmentBody).
Proof.
  rewrite encodeHeader_length. pose proof (encodedSize_bounds h). split_and!; try lia; [done|].
  apply fragmentsOf_spec.
Qed.

Lemma header_and_fragment_fit_witness : fragmentsOf 1200 = 2 /\ 1 * MaxFragmentBody < 1200 <= 2 * MaxFragmentBody.
Proof.
  assert (E : fragmentsOf 1200 = 2) by reflexivity. split; [exact E|].
  apply (header_and_fragment_fit (mkHeader noFlags 0 0 0 0 0 0 0) 1200 2); [lia|exact E].
Defined.
