(* ===== verification/Beacon.v ===== *)
(** * Announcements

    [Discovery/Beacon.h]: the datagram an engine announces itself with, and what both
    sides of it compare, the application and its version. *)
From S2P Require Import Prelude ByteOrder Constants Text WireBuffer ControlMessage PacketFlags PacketHeader.

(** FNV-1a, 64 bit. *)
Definition hashAppId (appId : text) : Z :=
  fold_left (fun hash c => u64 (Z.lxor hash (byteZ c) * 0x100000001B3)) appId 0xCBF29CE484222325.

Record AppVersion := mkVersion { verMajor : Z; verMinor : Z }.
#[export] Instance AppVersion_eq_dec : EqDecision AppVersion.
Proof. solve_decision. Defined.

Definition versionToString (v : AppVersion) : text := decimal (verMajor v) ++ [dot] ++ decimal (verMinor v).

Definition versionNumber (t : text) : Z := match fromChars16 t with Some v => v | None => 0 end.

Definition parseAppVersion (version : text) : AppVersion :=
  match findChar dot version with
  | None => mkVersion (versionNumber version) 0
  | Some firstDot =>
    let rest := drop (S firstDot) version in
    let minor := match findChar dot rest with Some i => take i rest | None => rest end in
    mkVersion (versionNumber (take firstDot version)) (versionNumber minor)
  end.

Record Beacon := mkBeacon {
  instanceId : Z;
  beaconAppIdHash : Z;
  version : AppVersion;
  reply : bool;
  beaconName : bytes;
}.

Definition BeaconPrefixSize : Z := 4.
Definition BeaconReplyFlag : Z := 1.

(** [None] is a read outside the datagram. *)
Definition isBeacon (d : bytes) : option bool :=
  if BeaconPrefixSize <=? zlen d then
    magic ← readUint16 d 0;
    if magic =? ProtocolMagic then
      v ← readUint8 d 2;
      if v =? ProtocolVersion then
        k ← readUint8 d 3;
        Some (k =? kind_to_Z KBeacon)
      else Some false
    else Some false
  else Some false.

Definition encodeBeacon (b : Beacon) : bytes :=
  let out := writeU16 ProtocolMagic [] in
  let out := writeU8 ProtocolVersion out in
  let out := writeU8 (kind_to_Z KBeacon) out in
  let out := writeU64 (instanceId b) out in
  let out := writeU64 (beaconAppIdHash b) out in
  let out := writeU16 (verMajor (version b)) out in
  let out := writeU16 (verMinor (version b)) out in
  let out := writeU8 (if reply b then BeaconReplyFlag else 0) out in
  let out := writeText (beaconName b) out in
  writeExt out.

Definition readBeacon : Reader (option Beacon) :=
  id ← readU64;
  app ← readU64;
  major ← readU16;
  minor ← readU16;
  fl ← readU8;
  name ← readText;
  ext ← skipExt;
  mret (if negb (Z.ldiff fl BeaconReplyFlag =? 0) || negb ext || (id =? 0) then None
        else Some {| instanceId := id; beaconAppIdHash := app; version := mkVersion major minor;
                     reply := negb (Z.land fl BeaconReplyFlag =? 0); beaconName := name |}).

Definition decodeBeacon (d : bytes) : option (option Beacon) :=
  announces ← isBeacon d;
  if negb announces || (MaxDatagramSize <? zlen d) then Some None
  else decodeWhole readBeacon (zdrop BeaconPrefixSize d).

(** ** The datagram *)
Record beacon_ok (b : Beacon) : Prop := {
  bo_id : is_uint 64 (instanceId b);
  bo_id_nonzero : instanceId b <> 0;
  bo_app : is_uint 64 (beaconAppIdHash b);
  bo_major : is_uint 16 (verMajor (version b));
  bo_minor : is_uint 16 (verMinor (version b));
  bo_name : zlen (beaconName b) <= 255;
}.

Definition beacon_prefix : bytes :=
  writeUint16 ProtocolMagic ++ [toByte ProtocolVersion; toByte (kind_to_Z KBeacon)].

Definition beacon_bytes (b : Beacon) : bytes :=
  writeUint64 (instanceId b) ++ writeUint64 (beaconAppIdHash b) ++ writeUint16 (verMajor (version b)) ++
  writeUint16 (verMinor (version b)) ++ [toByte (if reply b then 1 else 0)] ++ text_bytes (beaconName b).

Lemma reads_at_prefix w d : reads_at w d 0 <-> exists rest, d = w ++ rest.
Proof.
  split.
  - intros (pre & post & -> & Hp%zlen_nil_inv). subst pre. by exists post.
  - intros [rest ->]. by exists [], rest.
Qed.

Lemma isBeacon_safe d : isBeacon d <> None.
Proof.
  unfold isBeacon. destruct (Z.leb_spec BeaconPrefixSize (zlen d)) as [Hl|]; [|done]. unfold BeaconPrefixSize in Hl.
  destruct (readUint16_total d 0) as [m ->]; [lia..|]. simpl. destruct (m =? ProtocolMagic); [|done].
  destruct (readUint8_total d 2) as [v ->]; [lia|]. simpl. destruct (v =? ProtocolVersion); [|done].
  by destruct (readUint8_total d 3) as [k ->]; [lia|].
Qed.

Lemma isBeacon_true d : isBeacon d = Some true <-> exists rest, d = beacon_prefix ++ rest.
Proof.
  rewrite <- reads_at_prefix. unfold isBeacon. split.
  - destruct (_ <=? _); [|done]. intros H.
    apply bind_Some_inv in H as (m & [_ R0]%readUint16_spec & H). destruct (Z.eqb_spec m ProtocolMagic) as [->|]; [|done].
    apply bind_Some_inv in H as (v & [_ R2]%readUint8_spec & H). destruct (Z.eqb_spec v ProtocolVersion) as [->|]; [|done].
    apply bind_Some_inv in H as (k & [_ R3]%readUint8_spec & H). injection H as H. apply Z.eqb_eq in H as ->.
    apply reads_at_app; [done|]. apply reads_at_cons. done.
  - intros H. pose proof (reads_at_range _ _ _ H) as [_ Hlen]. change (zlen beacon_prefix) with 4 in Hlen.
    apply reads_at_app_inv in H as [R0 H]. change (0 + zlen (writeUint16 ProtocolMagic)) with 2 in H.
    apply reads_at_cons in H as [R2 R3].
    destruct (Z.leb_spec BeaconPrefixSize (zlen d)); [|unfold BeaconPrefixSize in *; lia].
    rewrite (proj2 (readUint16_spec d 0 ProtocolMagic)) by done. simpl.
    rewrite (proj2 (readUint8_spec d 2 ProtocolVersion)) by done. simpl.
    by rewrite (proj2 (readUint8_spec d 3 (kind_to_Z KBeacon))) by done.
Qed.

Lemma replyFlag fl : is_uint 8 fl -> Z.ldiff fl BeaconReplyFlag = 0 ->
  fl = if negb (Z.land fl BeaconReplyFlag =? 0) then 1 else 0.
Proof.
  intros _ H. unfold BeaconReplyFlag in *. rewrite (Z.ldiff_ones_r _ 1), shiftr_div, Z.shiftl_mul_pow2 in H by lia.
  rewrite (Z.land_ones _ 1) by lia. change (2 ^ 1) with 2 in *. pose proof (Z.div_mod fl 2 ltac:(lia)) as Hd.
  pose proof (Z.mod_pos_bound fl 2 ltac:(lia)). destruct (Z.eqb_spec (fl mod 2) 0); simpl; lia.
Qed.

Lemma readBeacon_parses : exists W, parses readBeacon W /\
  forall b w, W (Some b) w <-> beacon_ok b /\ exists e, extension e /\ w = beacon_bytes b ++ e.
Proof.
  eexists. split; [unfold readBeacon; parse_fields|]. cbv beta. intros b w. split.
  - intros (id & ? & ? & -> & [-> ?] & app & ? & ? & -> & [-> ?] & major & ? & ? & -> & [-> ?] & minor & ? & ? & -> &
      [-> ?] & fl & ? & ? & -> & [-> Hfl] & name & ? & ? & -> & [-> ?] & x & e & ? & -> & (f & -> & Hf & Hx) & E & ->).
    destruct (Z.eqb_spec (Z.ldiff fl BeaconReplyFlag) 0) as [Hd|]; [|done].
    destruct x; [|done]. destruct (Z.eqb_spec id 0); [done|]. simpl in E. injection E as ->.
    split; [done|]. exists (ext_bytes f). unfold beacon_bytes. cbn [instanceId beaconAppIdHash version reply beaconName verMajor verMinor].
    rewrite <- (replyFlag fl Hfl Hd), app_nil_r, <- !app_assoc. split; [|done]. exists f. split_and!; [done..|]. by apply Hx.
  - intros [[] (e & (f & -> & Hf & Hok) & ->)]. unfold beacon_bytes. rewrite <- !app_assoc.
    do 4 (eexists _, _, _; split; [reflexivity|split; [done|]]).
    exists (if reply b then 1 else 0). eexists _, _. split; [reflexivity|]. split; [by destruct (reply b)|].
    eexists _, _, _. split; [reflexivity|]. split; [done|].
    exists true, (ext_bytes f), []. rewrite app_nil_r. split; [done|]. split; [by exists f|]. split; [|done].
    destruct (Z.eqb_spec (instanceId b) 0); [done|]. destruct b as [? ? [? ?] [] ?]; done.
Qed.

Lemma encodeBeacon_bytes b : zlen (beaconName b) <= 255 ->
  encodeBeacon b = beacon_prefix ++ beacon_bytes b ++ writeUint16 0.
Proof.
  intros Hn. unfold encodeBeacon, writeExt, beacon_bytes, beacon_prefix, writeU64, writeU16, writeU8. cbv zeta.
  rewrite writeText_short by done. by rewrite <- !app_assoc.
Qed.

Lemma beacon_bytes_size b : zlen (beacon_bytes b) = 22 + zlen (beaconName b).
Proof. unfold beacon_bytes, text_bytes. autorewrite with zlen. rewrite ?zlen_cons, ?zlen_nil. lia. Qed.

(** The byte that makes a datagram a beacon is not the flag byte of any packet. *)
Lemma beacon_no_packet d : isBeacon d = Some true -> decodePacket d = Some None.
Proof.
  intros [rest ->]%isBeacon_true. destruct (decodePacket _) as [[p|]|] eqn:E; [| done |].
  - exfalso. apply decodePacket_sound in E as (Hw & _ & _ & E). rewrite encodeHeader_parts in E.
    unfold beacon_prefix, base_header in E. rewrite <- !app_assoc in E.
    apply app_inv_head in E. injection E as E _. apply (wh_kind _ Hw).
    assert (Eb : raw (flags (header p)) = 3).
    { rewrite <- (wrap_small 8 (raw (flags (header p)))) by apply (wh_flags _ Hw).
      by rewrite <- byteZ_toByte, <- E. }
    unfold kind. unfold raw in Eb. by rewrite Eb.
  - exfalso. unfold decodePacket in E. destruct (_ <? _); [done|].
    revert E. apply decode_then_safe; [apply decodeHeader_safe|]. intros p _. by destruct (isBodySizeValid _ _).
Qed.

(** A beacon survives the wire, and its decoder is exact: whatever datagram comes, no
    byte outside it is read; it is taken for the beacon [b] if and only if it is the prefix,
    the fields and the name of [b] and an extension, no longer than a datagram may be; a
    beacon that is sent is short enough and decoded to itself; and what looks like a beacon
    is never also a packet. *)
Theorem beacon_exact d b :
  (isBeacon d <> None /\ decodeBeacon d <> None) /\
  (decodeBeacon d = Some (Some b) <->
     beacon_ok b /\ zlen d <= MaxDatagramSize /\
     exists e, extension e /\ d = beacon_prefix ++ beacon_bytes b ++ e) /\
  (beacon_ok b -> decodeBeacon (encodeBeacon b) = Some (Some b) /\ zlen (encodeBeacon b) <= MaxDatagramSize) /\
  (isBeacon d = Some true -> decodePacket d = Some None).
Proof.
  destruct readBeacon_parses as (W & HW & Hiff).
  assert (Hdec : forall d b, decodeBeacon d = Some (Some b) <-> beacon_ok b /\ zlen d <= MaxDatagramSize /\
    exists e, extension e /\ d = beacon_prefix ++ beacon_bytes b ++ e).
  { clear d b. intros d b. unfold decodeBeacon. split.
    - destruct (isBeacon d) as [[|]|] eqn:Ei; cbn [mbind option_bind negb orb]; [|done..]. destruct (Z.ltb_spec MaxDatagramSize (zlen d)); [done|].
      rewrite (decodeWhole_iff _ W), Hiff by done. apply isBeacon_true in Ei as [rest ->].
      change BeaconPrefixSize with (zlen beacon_prefix). rewrite zdrop_app_exact by done.
      intros (Hb & e & He & ->). split; [done|]. split; [done|]. by exists e.
    - intros (Hb & Hd & e & He & ->). rewrite (proj2 (isBeacon_true _)) by by eexists. cbn [mbind option_bind negb orb].
      destruct (Z.ltb_spec MaxDatagramSize (zlen (beacon_prefix ++ beacon_bytes b ++ e))); [lia|].
      change BeaconPrefixSize with (zlen beacon_prefix). rewrite zdrop_app_exact by done.
      rewrite (decodeWhole_iff _ W), Hiff by done. split; [done|]. by exists e. }
  split; [split; [apply isBeacon_safe|]|split; [apply Hdec|split; [|apply beacon_no_packet]]].
  - unfold decodeBeacon. destruct (isBeacon d) eqn:E; [simpl|by destruct (isBeacon_safe d)].
    destruct (_ || _); [done|]. by eapply decodeWhole_safe.
  - intros Hb. assert (Hs : zlen (encodeBeacon b) <= MaxDatagramSize).
    { rewrite encodeBeacon_bytes, !zlen_app, beacon_bytes_size by apply Hb. change (zlen beacon_prefix) with 4.
      rewrite writeUint16_length. pose proof (bo_name _ Hb). unfold MaxDatagramSize. lia. }
    split; [|done]. apply Hdec. split; [done|]. split; [done|]. exists (writeUint16 0). split; [apply no_extension|].
    apply encodeBeacon_bytes, Hb.
Qed.

Definition sampleBeacon : Beacon :=
  {| instanceId := 77; beaconAppIdHash := hashAppId [Byte.x61]; version := mkVersion 1 4; reply := true;
     beaconName := [Byte.x41; Byte.x42] |}.
Lemma sampleBeacon_ok : beacon_ok sampleBeacon.
Proof. split; vm_compute; first [discriminate | split; [congruence|reflexivity]]. Qed.

Lemma beacon_exact_witness :
  hashAppId [Byte.x61] = 0xAF63DC4C8601EC8C /\
  decodeBeacon (encodeBeacon sampleBeacon) = Some (Some sampleBeacon) /\
  decodePacket (encodeBeacon sampleBeacon) = Some None.
Proof.
  split; [vm_compute; reflexivity|]. split.
  - apply (beacon_exact [] sampleBeacon), sampleBeacon_ok.
  - apply (beacon_exact (encodeBeacon sampleBeacon) sampleBeacon). vm_compute. reflexivity.
Defined.

(** Versions.  A version that was printed is read back, also with further components
    behind it, which are ignored; and whatever the text, what is read fits its fields. *)
Theorem version_roundtrip v t rest :
  is_uint 16 (verMajor v) -> is_uint 16 (verMinor v) ->
  parseAppVersion (versionToString v) = v /\
  parseAppVersion (versionToString v ++ dot :: rest) = v /\
  (is_uint 16 (verMajor (parseAppVersion t)) /\ is_uint 16 (verMinor (parseAppVersion t))).
Proof.
  intros Ha Hi. assert (Hn : forall t, is_uint 16 (versionNumber t)).
  { intros x. unfold versionNumber. destruct (fromChars16 x) eqn:E; [by eapply fromChars16_range|unfold is_uint; lia]. }
  assert (Hd : forall n, is_uint 16 n -> dot ∉ decimal n) by (intros n [? _]; by apply dot_not_digits, decimal_digits).
  assert (Hr : forall n, is_uint 16 n -> versionNumber (decimal n) = n).
  { intros n H. unfold versionNumber. rewrite <- (app_nil_r (decimal n)), fromChars16_decimal; done. }
  destruct v as [a i]. cbn [verMajor verMinor] in *. unfold versionToString, parseAppVersion. cbn [verMajor verMinor].
  rewrite <- !app_assoc. cbn [app]. rewrite !findChar_app by by apply Hd.
  assert (Hdrop : forall l k : text, drop (S (length l)) (l ++ dot :: k) = k) by (intros l k; induction l; [done|simpl; done]).
  rewrite !Hdrop, !take_app_length. split; [|split].
  - rewrite (findChar_none dot) by by apply Hd.
    by rewrite !Hr.
  - rewrite findChar_app by by apply Hd.
    rewrite take_app_length. by rewrite !Hr.
  - destruct (findChar dot t); cbn [verMajor verMinor]; split; try apply Hn. unfold is_uint. lia.
Qed.

Lemma version_roundtrip_witness :
  parseAppVersion (versionToString (mkVersion 3 14) ++ [dot; Byte.x37]) = mkVersion 3 14.
Proof. apply (version_roundtrip (mkVersion 3 14) [] [Byte.x37]); split; (discriminate || reflexivity). Defined.
