(* ===== verification/OrderedMap.v ===== *)
(** * Ordered maps

    [std::map] with integer keys: a finite map whose loops run over the keys in ascending
    order. *)
From S2P Require Import Prelude.
From stdpp Require Import sorting.

Abbreviation sorted := (StronglySorted Z.le) (only parsing).

Definition keysOf {A} (m : gmap Z A) : list Z := merge_sort Z.le (map_to_list m).*1.

(** [for (auto &[id, x] : m)] on the values. *)
Definition valuesOf {A} (m : gmap Z A) : list A := omap (fun k => m !! k) (keysOf m).

Lemma elem_of_keysOf {A} (m : gmap Z A) k : k ∈ keysOf m <-> is_Some (m !! k).
Proof.
  unfold keysOf. rewrite merge_sort_Permutation, list_elem_of_fmap. split.
  - intros ([k' x] & -> & H%elem_of_map_to_list). by exists x.
  - intros [x H]. exists (k, x). split; [done|]. by apply elem_of_map_to_list.
Qed.

Lemma NoDup_keysOf {A} (m : gmap Z A) : NoDup (keysOf m).
Proof. unfold keysOf. rewrite merge_sort_Permutation. apply NoDup_fst_map_to_list. Qed.

Lemma Sorted_keysOf {A} (m : gmap Z A) : StronglySorted Z.le (keysOf m).
Proof. apply StronglySorted_merge_sort; apply _. Qed.

Lemma keysOf_dom {A B} (m : gmap Z A) (m' : gmap Z B) :
  (forall k, is_Some (m !! k) <-> is_Some (m' !! k)) -> keysOf m = keysOf m'.
Proof.
  intros H. apply (StronglySorted_unique Z.le); [apply Sorted_keysOf..|].
  apply NoDup_Permutation; [apply NoDup_keysOf..|]. intros k. by rewrite !elem_of_keysOf.
Qed.

Lemma keysOf_empty {A} : keysOf (∅ : gmap Z A) = [].
Proof. done. Qed.

Lemma elem_of_valuesOf {A} (m : gmap Z A) x : x ∈ valuesOf m <-> exists k, m !! k = Some x.
Proof.
  unfold valuesOf. rewrite list_elem_of_omap. split.
  - intros (k & _ & H). by exists k.
  - intros [k H]. exists k. split; [|done]. apply elem_of_keysOf. by exists x.
Qed.

Lemma keysOf_size {A} (m : gmap Z A) : length (keysOf m) = size m.
Proof.
  rewrite <- length_map_to_list. unfold keysOf. by rewrite merge_sort_Permutation, length_fmap.
Qed.

Lemma sorted_filter {A} (R : relation A) (P : A -> Prop) `{forall x, Decision (P x)} l :
  StronglySorted R l -> StronglySorted R (filter P l).
Proof.
  induction 1 as [|x l Hl IH Hx]; [constructor|]. rewrite filter_cons. case_decide; [|done].
  constructor; [done|]. rewrite Forall_forall in Hx |- *. intros y [_ Hy]%list_elem_of_filter. by apply Hx.
Qed.
