(* ===== verification/Discovery.v ===== *)
(** * Discovered peers

    [Discovery/DiscoveryLogic.h] and [.cpp]: which peers announced themselves, and when this
    engine announces itself.  The structs [PeerInfo] and [PeerId] of [NetLink.h] are here
    too; a [PeerId] is its value. *)
From S2P Require Import Prelude Constants Text IPv4Address WireBuffer Beacon OrderedMap.

Abbreviation PeerId := Z (only parsing).

Record PeerInfo := mkPeerInfo {
  infoId : PeerId;
  displayName : text;
  infoAddress : text;
  infoPort : Z;
  infoVersion : text;
}.
#[export] Instance PeerInfo_eq_dec : EqDecision PeerInfo.
Proof. solve_decision. Defined.
#[export] Instance eta_PeerInfo : Eta PeerInfo := fun r =>
  mkPeerInfo (infoId r) (displayName r) (infoAddress r) (infoPort r) (infoVersion r).

Record LocalIdentity := mkIdentity {
  localInstance : Z;
  localAppIdHash : Z;
  localVersion : AppVersion;
  localName : text;
}.

Record KnownPeer := mkKnown { info : PeerInfo; endpoint : SocketAddress }.
#[export] Instance KnownPeer_eq_dec : EqDecision KnownPeer.
Proof. solve_decision. Defined.

Inductive Sighting := Ignored | Known | New.
#[export] Instance Sighting_eq_dec : EqDecision Sighting.
Proof. solve_decision. Defined.

Record Seen := mkSeen { sighting : Sighting; seenPeer : option KnownPeer; seenReply : bool }.
Definition notSeen : Seen := mkSeen Ignored None false.

Record Entry := mkEntry { entryPeer : KnownPeer; lastSeen : TimePoint }.

Record DiscoveryLogic := mkDiscovery {
  mIdentity : LocalIdentity;
  mLocalIp : IPv4Address;
  mMask : IPv4Address;
  mAnnouncing : bool;
  mKnown : gmap PeerId Entry;
}.
#[export] Instance eta_DiscoveryLogic : Eta DiscoveryLogic := fun r =>
  mkDiscovery (mIdentity r) (mLocalIp r) (mMask r) (mAnnouncing r) (mKnown r).

Definition newDiscovery (identity : LocalIdentity) : DiscoveryLogic :=
  mkDiscovery identity (mkIPv4 0) (mkIPv4 0) false ∅.

Definition setInterface (ip mask : IPv4Address) (d : DiscoveryLogic) : DiscoveryLogic :=
  d <| mLocalIp := ip |> <| mMask := mask |>.

Definition clear (d : DiscoveryLogic) : list PeerId * DiscoveryLogic :=
  (keysOf (mKnown d), d <| mKnown := ∅ |>).

Definition setAnnouncing (announcing : bool) (d : DiscoveryLogic) : DiscoveryLogic :=
  d <| mAnnouncing := announcing |>.

Definition isInSubnet (d : DiscoveryLogic) (address : IPv4Address) : bool :=
  negb (isNetmask (mMask d)) || sameSubnet (mLocalIp d) address (mMask d).

Definition broadcastAddress (d : DiscoveryLogic) : IPv4Address :=
  if isNetmask (mMask d) then subnetBroadcast (mLocalIp d) (mMask d) else broadcast.

Definition beacon (reply_ : bool) (d : DiscoveryLogic) : bytes :=
  encodeBeacon {| instanceId := localInstance (mIdentity d); beaconAppIdHash := localAppIdHash (mIdentity d);
                  version := localVersion (mIdentity d); reply := reply_; beaconName := localName (mIdentity d) |}.

(** What a beacon must be for anything to be stored. *)
Definition isWelcome (from : SocketAddress) (b : Beacon) (d : DiscoveryLogic) : bool :=
  negb (instanceId b =? localInstance (mIdentity d)) && (beaconAppIdHash b =? localAppIdHash (mIdentity d)) &&
  bool_decide (version b = localVersion (mIdentity d)) && isInSubnet d (ip from) &&
  (zlen (beaconName b) <=? MaxDisplayName).

Definition infoOf (from : SocketAddress) (b : Beacon) : PeerInfo :=
  {| infoId := instanceId b; displayName := beaconName b; infoAddress := ipToString (ip from); infoPort := port from;
     infoVersion := versionToString (version b) |}.

(** [None] is a read outside the datagram. *)
Definition onBeacon (from : SocketAddress) (datagram : bytes) (now : TimePoint) (d : DiscoveryLogic) :
    option (Seen * DiscoveryLogic) :=
  decoded ← decodeBeacon datagram;
  match decoded with
  | None => Some (notSeen, d)
  | Some b =>
    if negb (isWelcome from b d) then Some (notSeen, d)
    else
      let id := instanceId b in
      let it := mKnown d !! id in
      let isNew := bool_decide (it = None) in
      let changed :=
        match it with
        | Some e => negb (bool_decide (endpoint (entryPeer e) = from)) ||
                    negb (bool_decide (displayName (info (entryPeer e)) = beaconName b))
        | None => false
        end in
      if isNew && (MaxDiscoveredPeers <=? Z.of_nat (size (mKnown d))) then Some (notSeen, d)
      else
        let peer :=
          match it with
          | Some e => if changed then mkKnown (infoOf from b) from else entryPeer e
          | None => mkKnown (infoOf from b) from
          end in
        Some (mkSeen (if isNew || changed then New else Known) (Some peer)
                     (isNew && mAnnouncing d && negb (reply b)),
              d <| mKnown ::= <[id := mkEntry peer now]> |>)
  end.

(** The loop of [expire] over the ids. *)
Definition expireStep (now : TimePoint) (hasSession : PeerId -> bool) (acc : list PeerId * DiscoveryLogic)
    (id : PeerId) : list PeerId * DiscoveryLogic :=
  match mKnown acc.2 !! id with
  | Some e =>
    if (now - lastSeen e <? PeerExpiry) || hasSession id then acc
    else (acc.1 ++ [id], acc.2 <| mKnown ::= delete id |>)
  | None => acc
  end.
Definition expire (now : TimePoint) (hasSession : PeerId -> bool) (d : DiscoveryLogic) :
    list PeerId * DiscoveryLogic :=
  fold_left (expireStep now hasSession) (keysOf (mKnown d)) ([], d).

Definition find (id : PeerId) (d : DiscoveryLogic) : option KnownPeer := entryPeer <$> mKnown d !! id.

Definition discoveredPeers (d : DiscoveryLogic) : list PeerInfo :=
  (fun e => info (entryPeer e)) <$> valuesOf (mKnown d).

(** ** The table *)

(** Only peers that are welcome are in the table, each under its own id, and what is told
    about them is what their last beacon said. *)
Record entry_ok (d : DiscoveryLogic) (id : PeerId) (e : Entry) : Prop := {
  eo_id : infoId (info (entryPeer e)) = id;
  eo_other : id <> localInstance (mIdentity d);
  eo_nonzero : id <> 0;
  eo_name : zlen (displayName (info (entryPeer e))) <= MaxDisplayName;
  eo_version : infoVersion (info (entryPeer e)) = versionToString (localVersion (mIdentity d));
  eo_address : infoAddress (info (entryPeer e)) = ipToString (ip (endpoint (entryPeer e)));
  eo_port : infoPort (info (entryPeer e)) = port (endpoint (entryPeer e));
  eo_subnet : isInSubnet d (ip (endpoint (entryPeer e))) = true;
}.
Record discovery_ok (d : DiscoveryLogic) : Prop := {
  do_size : Z.of_nat (size (mKnown d)) <= MaxDiscoveredPeers;
  do_entries : forall id e, mKnown d !! id = Some e -> entry_ok d id e;
}.

(** Whether [onBeacon] stores anything, and what. *)
Definition records (from : SocketAddress) (datagram : bytes) (d : DiscoveryLogic) : option Beacon :=
  match decodeBeacon datagram with
  | Some (Some b) =>
    if isWelcome from b d &&
       (bool_decide (is_Some (mKnown d !! instanceId b)) || (Z.of_nat (size (mKnown d)) <? MaxDiscoveredPeers))
    then Some b else None
  | _ => None
  end.

Lemma isWelcome_spec from b d : isWelcome from b d = true ->
  instanceId b <> localInstance (mIdentity d) /\ version b = localVersion (mIdentity d) /\
  isInSubnet d (ip from) = true /\ zlen (beaconName b) <= MaxDisplayName.
Proof. unfold isWelcome. intros H. bool_prop. done. Qed.

Lemma decodeBeacon_total datagram : exists o, decodeBeacon datagram = Some o.
Proof.
  unfold decodeBeacon. destruct (isBeacon datagram) as [x|] eqn:E; [cbn [mbind option_bind]|by destruct (isBeacon_safe datagram)].
  destruct (_ || _); [by eexists|]. destruct readBeacon_parses as (W & HW & _).
  destruct (decodeWhole readBeacon _) eqn:E'; [by eexists|]. by apply (decodeWhole_safe _ W) in E'.
Qed.

Lemma decodeBeacon_nonzero datagram b : decodeBeacon datagram = Some (Some b) -> instanceId b <> 0.
Proof.
  unfold decodeBeacon. destruct (isBeacon datagram) as [x|]; cbn [mbind option_bind]; [|done].
  destruct (_ || _); [done|]. destruct readBeacon_parses as (W & HW & Hiff).
  rewrite (decodeWhole_iff _ W), Hiff by done. intros [[] _]. done.
Qed.

(** What is known of the sender of a welcome beacon afterwards, whatever was known before. *)
Definition recorded (from : SocketAddress) (b : Beacon) (now : TimePoint) : Entry :=
  mkEntry (mkKnown (infoOf from b) from) now.

Lemma onBeacon_none from datagram now d :
  records from datagram d = None -> onBeacon from datagram now d = Some (notSeen, d).
Proof.
  unfold records, onBeacon. destruct (decodeBeacon_total datagram) as [[b|] ->]; cbn [mbind option_bind]; [|done].
  destruct (isWelcome from b d); [|done]. cbn [negb andb].
  destruct (mKnown d !! instanceId b) as [e|] eqn:E; [by rewrite bool_decide_eq_true_2 by by eexists|].
  rewrite (bool_decide_eq_false_2 (is_Some None)) by (by intros [? [=]]).
  rewrite bool_decide_eq_true_2 by done. cbn [orb andb].
  rewrite Z.ltb_antisym. by destruct (_ <=? _).
Qed.

(** A peer that is known at the same address under the same name is known as it is. *)
Lemma unchanged_same from b d e :
  isWelcome from b d = true -> entry_ok d (instanceId b) e ->
  endpoint (entryPeer e) = from -> displayName (info (entryPeer e)) = beaconName b ->
  entryPeer e = mkKnown (infoOf from b) from.
Proof.
  intros (_ & Hv & _)%isWelcome_spec [Hi _ _ _ Hver Ha Hp _] He Hn.
  destruct e as [[[] ?] ?]. cbn in *. unfold infoOf. by subst; rewrite Hv.
Qed.

Lemma onBeacon_some from datagram now d b :
  discovery_ok d -> records from datagram d = Some b ->
  exists seen, onBeacon from datagram now d = Some (seen, d <| mKnown ::= <[instanceId b := recorded from b now]> |>) /\
    seenPeer seen = Some (mkKnown (infoOf from b) from) /\
    sighting seen = (if bool_decide (find (instanceId b) d = Some (mkKnown (infoOf from b) from)) then Known else New) /\
    seenReply seen = (bool_decide (mKnown d !! instanceId b = None) && mAnnouncing d && negb (reply b)).
Proof.
  intros Hok. unfold records, onBeacon. destruct (decodeBeacon datagram) as [[b'|]|] eqn:Ed; [|done..].
  cbn [mbind option_bind]. destruct (isWelcome from b' d) eqn:Ew; [|done]. cbn [negb andb].
  destruct (_ || _) eqn:Ec; [|done]. intros [= ->]. unfold find.
  destruct (mKnown d !! instanceId b) as [e|] eqn:E; cbn [fmap option_fmap option_map].
  - rewrite (bool_decide_eq_false_2 (Some e = None)) by done. cbn [andb orb].
    destruct (bool_decide_reflect (endpoint (entryPeer e) = from)) as [He|He].
    2: { eexists. split; [reflexivity|]. cbn [negb orb seenPeer sighting seenReply]. split; [done|]. split; [|done].
         rewrite bool_decide_eq_false_2; [done|]. intros [= H]. by rewrite H in He. }
    destruct (bool_decide_reflect (displayName (info (entryPeer e)) = beaconName b)) as [Hn|Hn].
    2: { eexists. split; [reflexivity|]. cbn [negb orb seenPeer sighting seenReply]. split; [done|]. split; [|done].
         rewrite bool_decide_eq_false_2; [done|]. intros [= H]. by rewrite H in Hn. }
    pose proof (unchanged_same from b d e Ew (do_entries _ Hok _ _ E) He Hn) as Hp. rewrite Hp.
    eexists. split; [reflexivity|]. cbn [negb orb seenPeer sighting seenReply]. split; [done|]. split; [|done].
    by rewrite bool_decide_eq_true_2.
  - rewrite bool_decide_eq_true_2 by done. cbn [andb orb] in *.
    rewrite (bool_decide_eq_false_2 (is_Some None)) in Ec by (by intros [? [=]]). cbn [orb] in Ec. apply Z.ltb_lt in Ec.
    destruct (Z.leb_spec MaxDiscoveredPeers (Z.of_nat (size (mKnown d)))); [lia|].
    eexists. split; [reflexivity|]. cbn [seenPeer sighting seenReply]. done.
Qed.

(** ** Expiry *)
Definition isExpired (now : TimePoint) (hasSession : PeerId -> bool) (d : DiscoveryLogic) (id : PeerId) : bool :=
  match mKnown d !! id with
  | Some e => (PeerExpiry <=? now - lastSeen e) && negb (hasSession id)
  | None => false
  end.

Lemma expireStep_spec now hs d l acc id :
  (forall k, k ∈ id :: l -> mKnown acc.2 !! k = mKnown d !! k) -> id ∉ l ->
  let acc' := expireStep now hs acc id in
  (forall k, k ∈ l -> mKnown acc'.2 !! k = mKnown d !! k) /\
  acc'.1 = acc.1 ++ (if isExpired now hs d id then [id] else []) /\
  mKnown acc'.2 = (if isExpired now hs d id then delete id (mKnown acc.2) else mKnown acc.2) /\
  mIdentity acc'.2 = mIdentity acc.2 /\ mLocalIp acc'.2 = mLocalIp acc.2 /\ mMask acc'.2 = mMask acc.2 /\
  mAnnouncing acc'.2 = mAnnouncing acc.2.
Proof.
  intros H Hn acc'. unfold acc', expireStep, isExpired. rewrite (H id) by set_solver.
  destruct (mKnown d !! id) as [e|] eqn:E.
  - rewrite Z.leb_antisym. destruct (now - lastSeen e <? PeerExpiry); cbn [orb negb andb].
    { rewrite app_nil_r. split_and!; try done. intros. apply H. set_solver. }
    destruct (hs id); cbn [negb].
    { rewrite app_nil_r. split_and!; try done. intros. apply H. set_solver. }
    split_and!; try done. intros k Hk. cbn. rewrite lookup_delete_ne by set_solver. apply H. set_solver.
  - rewrite app_nil_r. split_and!; try done. intros. apply H. set_solver.
Qed.

Lemma expire_loop now hs d : forall l acc, NoDup l ->
  (forall k, k ∈ l -> mKnown acc.2 !! k = mKnown d !! k) ->
  let r := fold_left (expireStep now hs) l acc in
  r.1 = acc.1 ++ filter (fun k => isExpired now hs d k = true) l /\
  (forall k, mKnown r.2 !! k = if bool_decide (k ∈ l) && isExpired now hs d k then None else mKnown acc.2 !! k) /\
  mIdentity r.2 = mIdentity acc.2 /\ mLocalIp r.2 = mLocalIp acc.2 /\ mMask r.2 = mMask acc.2 /\
  mAnnouncing r.2 = mAnnouncing acc.2.
Proof.
  induction l as [|id l IH]; intros acc Hnd H; cbn [fold_left].
  - cbn. rewrite app_nil_r. done.
  - apply NoDup_cons in Hnd as [Hn Hnd].
    destruct (expireStep_spec now hs d l acc id H Hn) as (Hl & E1 & E2 & E3 & E4 & E5 & E6).
    destruct (IH (expireStep now hs acc id) Hnd Hl) as (F1 & F2 & F3 & F4 & F5 & F6). cbv zeta. split_and!; try congruence.
    + rewrite F1, E1, <- app_assoc. f_equal. rewrite filter_cons. by destruct (isExpired now hs d id).
    + intros k. rewrite F2, E2. destruct (decide (k = id)) as [->|Hk].
      * rewrite (bool_decide_eq_false_2 (id ∈ l)), (bool_decide_eq_true_2 (id ∈ id :: l)) by set_solver. cbn [andb].
        destruct (isExpired now hs d id); [apply lookup_delete_eq|done].
      * rewrite (bool_decide_ext (k ∈ id :: l) (k ∈ l)) by set_solver.
        destruct (isExpired now hs d id); [by rewrite lookup_delete_ne|done].
Qed.

Lemma expired_peers now hs d :
  let r := expire now hs d in
  r.1 = filter (fun k => isExpired now hs d k = true) (keysOf (mKnown d)) /\
  (forall k, mKnown r.2 !! k = if isExpired now hs d k then None else mKnown d !! k) /\
  mIdentity r.2 = mIdentity d /\ mLocalIp r.2 = mLocalIp d /\ mMask r.2 = mMask d /\ mAnnouncing r.2 = mAnnouncing d.
Proof.
  destruct (expire_loop now hs d (keysOf (mKnown d)) ([], d) (NoDup_keysOf _) ltac:(done)) as (E1 & E2 & E3).
  unfold expire. split; [done|]. split; [|done]. intros k. rewrite E2. cbn [snd].
  destruct (isExpired now hs d k) eqn:E; [|by rewrite andb_false_r]. rewrite bool_decide_eq_true_2; [done|].
  apply elem_of_keysOf. unfold isExpired in E. destruct (mKnown d !! k); [by eexists|done].
Qed.

(** ** The invariant *)
Lemma entry_ok_same d d' id e :
  mIdentity d' = mIdentity d -> mLocalIp d' = mLocalIp d -> mMask d' = mMask d -> entry_ok d id e -> entry_ok d' id e.
Proof. intros E1 E2 E3 []. unfold isInSubnet in *. split; rewrite ?E1; unfold isInSubnet; rewrite ?E2, ?E3; done. Qed.

Lemma onBeacon_ok from datagram now d seen d' :
  discovery_ok d -> onBeacon from datagram now d = Some (seen, d') -> discovery_ok d'.
Proof.
  intros Hok H. destruct (records from datagram d) as [b|] eqn:Er.
  2: { rewrite onBeacon_none in H by done. by injection H as _ <-. }
  destruct (onBeacon_some from datagram now d b Hok Er) as (seen0 & E & _). rewrite E in H. injection H as _ <-.
  unfold records in Er. destruct (decodeBeacon datagram) as [[b'|]|] eqn:Ed; [|done..].
  destruct (isWelcome from b' d) eqn:Ew; [|done]. cbn [andb] in Er. destruct (_ || _) eqn:Ec; [|done]. injection Er as ->.
  destruct (isWelcome_spec _ _ _ Ew) as (Hi & Hv & Hs & Hn). split.
  - cbn. destruct (mKnown d !! instanceId b) as [e|] eqn:Ek.
    + rewrite map_size_insert_Some by by eexists. apply Hok.
    + rewrite map_size_insert_None by done. rewrite bool_decide_eq_false_2 in Ec by (by intros [? [=]]).
      cbn [orb] in Ec. apply Z.ltb_lt in Ec. lia.
  - cbn. intros id e [[<- <-]|[Hne He]]%lookup_insert_Some.
    + split; try done; [by eapply decodeBeacon_nonzero|]. cbn. by rewrite Hv.
    + apply (entry_ok_same d); try done. by apply Hok.
Qed.

Lemma expire_ok now hs d : discovery_ok d -> discovery_ok (expire now hs d).2.
Proof.
  intros Hok. destruct (expired_peers now hs d) as (_ & El & E1 & E2 & E3 & _).
  assert (Hsub : mKnown (expire now hs d).2 ⊆ mKnown d).
  { apply map_subseteq_spec. intros k e. rewrite El. by destruct (isExpired now hs d k). }
  split.
  - apply map_subseteq_size in Hsub. pose proof (do_size _ Hok). lia.
  - intros id e He. apply (entry_ok_same d); try done. apply Hok. by eapply lookup_weaken.
Qed.

(** ** What discovery promises *)

(** What a beacon does.  Whatever datagram comes from wherever, it is read without
    leaving it, and changes nothing unless it is a beacon of another instance of the same
    application and version, from this subnet, with a name that is not too long, and there
    is room for a peer that is not known.  Otherwise its sender is known from now on with
    the name it gave and the address it came from, and nothing else is different; it counts
    as new exactly if it was not known like that; and it is answered exactly if it was not
    known at all, this engine announces itself, and the beacon was not an answer itself. *)
Theorem beacon_recorded from datagram now d :
  discovery_ok d ->
  exists seen d', onBeacon from datagram now d = Some (seen, d') /\ discovery_ok d' /\
  match records from datagram d with
  | None => seen = notSeen /\ d' = d
  | Some b =>
    find (instanceId b) d' = Some (mkKnown (infoOf from b) from) /\
    (forall id, id <> instanceId b -> find id d' = find id d) /\
    seenPeer seen = find (instanceId b) d' /\
    (sighting seen = New <-> find (instanceId b) d' <> find (instanceId b) d) /\ sighting seen <> Ignored /\
    (seenReply seen = true <-> find (instanceId b) d = None /\ mAnnouncing d = true /\ reply b = false)
  end.
Proof.
  intros Hok. destruct (records from datagram d) as [b|] eqn:Er.
  2: { exists notSeen, d. by rewrite (onBeacon_none from datagram now d Er). }
  destruct (onBeacon_some from datagram now d b Hok Er) as (seen & E & Ep & Es & Ey).
  exists seen, (d <| mKnown ::= <[instanceId b := recorded from b now]> |>). split; [done|].
  split; [by eapply onBeacon_ok|]. unfold find in *. cbn [mKnown update].
  rewrite lookup_insert_eq. cbn. split; [done|]. split; [intros id Hid; by rewrite lookup_insert_ne|]. split; [done|].
  split; [|split].
  - rewrite Es. clear Ey Es. case_bool_decide as Hd; split; intros Hc; try done.
  - rewrite Es. clear Ey Es. by case_bool_decide.
  - rewrite Ey, !andb_true_iff, bool_decide_eq_true, negb_true_iff, fmap_None. naive_solver.
Qed.

(** What is forgotten.  [expire] drops exactly the peers that did not announce
    themselves for [PeerExpiry] and that there is no session with, and returns them, each
    once and in ascending order; what is known of the others stays, and the table stays
    well formed; and [clear] returns everybody. *)
Theorem expire_exact now hasSession d :
  discovery_ok d ->
  let r := expire now hasSession d in
  discovery_ok r.2 /\ NoDup r.1 /\ sorted r.1 /\
  (forall id, id ∈ r.1 <-> exists e, mKnown d !! id = Some e /\ PeerExpiry <= now - lastSeen e /\ hasSession id = false) /\
  (forall id, mKnown r.2 !! id = if bool_decide (id ∈ r.1) then None else mKnown d !! id) /\
  (forall id, id ∈ (clear d).1 <-> is_Some (find id d)) /\ discovery_ok (clear d).2.
Proof.
  intros Hok r. destruct (expired_peers now hasSession d) as (E1 & El & _). fold r in E1, El.
  assert (Hin : forall id, id ∈ r.1 <-> isExpired now hasSession d id = true).
  { intros id. rewrite E1, list_elem_of_filter. split; [by intros [? _]|]. intros H. split; [done|]. apply elem_of_keysOf.
    unfold isExpired in H. destruct (mKnown d !! id); [by eexists|done]. }
  split; [by apply expire_ok|]. split; [rewrite E1; apply NoDup_filter, NoDup_keysOf|].
  split; [rewrite E1; apply sorted_filter, Sorted_keysOf|]. split; [|split; [|split]].
  - intros id. rewrite Hin. unfold isExpired. destruct (mKnown d !! id) as [e|].
    + rewrite andb_true_iff, Z.leb_le, negb_true_iff. naive_solver.
    + naive_solver.
  - intros id. rewrite El. case_bool_decide as H; rewrite Hin in H; [by rewrite H|]. by destruct (isExpired now hasSession d id).
  - intros id. unfold clear, find. cbn. rewrite elem_of_keysOf, fmap_is_Some. done.
  - split; cbn; [done|]. by intros id e ?%lookup_empty_Some.
Qed.

(** An engine with instance 1 that announces itself, and the first beacon of another one. *)
Module Example.
Definition me : LocalIdentity := mkIdentity 1 (hashAppId [Byte.x61]) (mkVersion 1 4) [Byte.x4d].
Definition fresh : DiscoveryLogic := setAnnouncing true (setInterface (mkIPv4 0xC0A80101) (mkIPv4 0xFFFFFF00) (newDiscovery me)).
Definition other : LocalIdentity := mkIdentity 77 (hashAppId [Byte.x61]) (mkVersion 1 4) [Byte.x41].
Definition from : SocketAddress := mkSocketAddress (mkIPv4 0xC0A80107) 4000.
Definition announcement : bytes := beacon false (newDiscovery other).

Lemma empty_ok d : mKnown d = ∅ -> discovery_ok d.
Proof. intros E. split; rewrite E; [done|]. by intros id e ?%lookup_empty_Some. Qed.

Lemma beacon_recorded_witness :
  records from announcement fresh <> None /\
  exists seen d', onBeacon from announcement 5 fresh = Some (seen, d') /\ discovery_ok d' /\ seenReply seen = true.
Proof.
  split; [vm_compute; discriminate|].
  destruct (beacon_recorded from announcement 5 fresh (empty_ok fresh eq_refl)) as (seen & d' & E & Hok & H).
  exists seen, d'. split; [exact E|]. split; [exact Hok|].
  destruct (records from announcement fresh) as [b|] eqn:Er; [|by vm_compute in Er].
  apply H. vm_compute in Er. injection Er as <-. repeat split; vm_compute; reflexivity.
Defined.

Lemma expire_exact_witness :
  let d := match onBeacon from announcement 5 fresh with Some (_, d) => d | None => fresh end in
  (expire (5 + PeerExpiry) (fun _ => false) d).1 = [77] /\
  (77 ∈ (expire (5 + PeerExpiry) (fun _ => false) d).1 <->
     exists e, mKnown d !! 77 = Some e /\ PeerExpiry <= 5 + PeerExpiry - lastSeen e /\ false = false).
Proof.
  intros d. split; [vm_compute; reflexivity|].
  apply (expire_exact (5 + PeerExpiry) (fun _ => false) d).
  apply (onBeacon_ok from announcement 5 fresh (mkSeen New (Some (mkKnown (mkPeerInfo 77 [Byte.x41] (ipToString (ip from)) 4000 (versionToString (mkVersion 1 4))) from)) true)); [apply empty_ok; reflexivity|].
  vm_compute. reflexivity.
Defined.
End Example.
