(* ===== verification/Mailbox.v ===== *)
(** * What the application and the I/O thread share

    [Channel/Mailbox.h].  Every operation holds the mutex from its first to its last access
    of the state, so it is one atomic step; the two that wait, [push] and [flush], are two
    steps, before the wait and after it, with any steps of other threads in between.  Of
    the doorbell and of the condition variable the model keeps how often they were rung and
    notified. *)
From S2P Require Import Prelude Constants PacketFlags OrderedMap Discovery.
From Stdlib Require Import QArith.QArith.
#[local] Open Scope Z_scope.

Record PeerStats := mkPeerStats {
  rtt : Z;
  bytesQueued : Z;
  statBytesSent : Z;
  statBytesReceived : Z;
  statRetransmissions : Z;
  statMediaSent : Z;
  statMediaDropped : Z;
  statMediaIncomplete : Z;
  statMediaLoss : Q;
}.
#[global] Instance eta_PeerStats : Eta PeerStats := fun r =>
  mkPeerStats (rtt r) (bytesQueued r) (statBytesSent r) (statBytesReceived r) (statRetransmissions r)
    (statMediaSent r) (statMediaDropped r) (statMediaIncomplete r) (statMediaLoss r).
Definition noPeerStats : PeerStats := mkPeerStats 0 0 0 0 0 0 0 0 0.

Module Box.

Inductive Push := Queued | Full | TooLarge | Closed | Stopped.
Inductive Command :=
  Connect | AcceptPeer | DeclinePeer | Disconnect | Announce | StopAnnouncing | CheckInterface | ResumeReceiving | Shutdown.
Inductive Session := NoSession | Requested | Pending | Connected.
#[global] Instance Push_eq_dec : EqDecision Push.
Proof. solve_decision. Defined.
#[global] Instance Command_eq_dec : EqDecision Command.
Proof. solve_decision. Defined.
#[global] Instance Session_eq_dec : EqDecision Session.
Proof. solve_decision. Defined.

Record PostedCommand := mkPosted { command : Command; commandPeer : PeerId }.
Record Mail := mkMail { mailTag : Z; mailBody : bytes }.
Record Work := mkWork { commands : list PostedCommand; ready : list PeerId }.

Record LaneQueue := mkQueue { queue : list Mail; queueBytes : Z }.
#[global] Instance eta_LaneQueue : Eta LaneQueue := fun r => mkQueue (queue r) (queueBytes r).
Definition emptyQueue : LaneQueue := mkQueue [] 0.

Record Peer := mkPeer {
  lanes : Lane -> LaneQueue;
  accepted : Z;
  done_ : Z;
  epoch : Z;
  mediaDropped : Z;
  listed : bool;
  isSealed : bool;
  peerStats : PeerStats;
}.
#[global] Instance eta_Peer : Eta Peer := fun r =>
  mkPeer (lanes r) (accepted r) (done_ r) (epoch r) (mediaDropped r) (listed r) (isSealed r) (peerStats r).
Definition newPeer : Peer := mkPeer (fun _ => emptyQueue) 0 0 0 0 false false noPeerStats.
Definition setLane (l : Lane) (q : LaneQueue) (p : Peer) : Peer :=
  p <| lanes ::= fun f l' => if decide (l' = l) then q else f l' |>.

Record Mailbox := mkMailbox {
  mDoorbell : Z;
  mChanged : Z;
  mQueueBytes : Z;
  mPeers : gmap PeerId Peer;
  mCommands : list PostedCommand;
  mReady : list PeerId;
  mEpochs : Z;
  mSignalled : bool;
  mRunning : bool;
  mDiscovered : list PeerInfo;
  mSessions : gmap PeerId Session;
}.
#[global] Instance eta_Mailbox : Eta Mailbox := fun r =>
  mkMailbox (mDoorbell r) (mChanged r) (mQueueBytes r) (mPeers r) (mCommands r) (mReady r) (mEpochs r)
    (mSignalled r) (mRunning r) (mDiscovered r) (mSessions r).
Definition newMailbox : Mailbox := mkMailbox 0 0 DefaultSendQueueBytes ∅ [] [] 0 false true [] ∅.

Definition ringIf (ring : bool) (m : Mailbox) : Mailbox := if ring then m <| mDoorbell ::= Z.succ |> else m.
Definition notifyAll (m : Mailbox) : Mailbox := m <| mChanged ::= Z.succ |>.

(** ** Any thread *)
Definition setQueueBytes (n : Z) (m : Mailbox) : Mailbox := m <| mQueueBytes := n |>.
Definition setRunning (running : bool) (m : Mailbox) : Mailbox := notifyAll (m <| mRunning := running |>).
Definition isRunning (m : Mailbox) : bool := mRunning m.

Definition post (c : Command) (p : PeerId) (m : Mailbox) : Mailbox :=
  let ring := negb (mSignalled m) in
  ringIf ring (m <| mCommands ::= fun cs => cs ++ [mkPosted c p] |> <| mSignalled := true |>).

Definition maxPayload (l : Lane) : Z := if decide (l = Media) then MaxMediaPayload else MaxMessagePayload.

Definition hasRoom (m : Mailbox) (p : Peer) (l : Lane) (size : Z) : bool :=
  bool_decide (queue (lanes p l) = []) || (u64 (queueBytes (lanes p l) + size) <=? mQueueBytes m).

(** The caller holds the mutex; the result says whether the doorbell has to be rung. *)
Definition enqueue (id : PeerId) (p : Peer) (l : Lane) (mail : Mail) (m : Mailbox) : bool * Mailbox :=
  let q := lanes p l in
  let '(q, p) :=
    match queue q with
    | oldest :: rest =>
      if decide (l = Media) then
        if MediaQueueMessages <=? zlen (queue q)
        then (mkQueue rest (u64 (queueBytes q - zlen (mailBody oldest))), p <| mediaDropped ::= fun n => u64 (n + 1) |>)
        else (q, p)
      else (q, p)
    | [] => (q, p)
    end in
  let q := mkQueue (queue q ++ [mail]) (u64 (queueBytes q + zlen (mailBody mail))) in
  let p := setLane l q p in
  let p := if decide (l = Media) then p else p <| accepted ::= fun n => u64 (n + 1) |> in
  let m := if listed p then m else m <| mReady ::= fun r => r ++ [id] |> in
  let m := m <| mPeers ::= <[id := p <| listed := true |>]> |> in
  (negb (mSignalled m), m <| mSignalled := true |>).

(** A push that waits for room, or the outcome of one. *)
Record PushWait := mkPushWait { pwPeer : PeerId; pwLane : Lane; pwMail : Mail; pwEpoch : Z }.
Inductive PushState := PushReturns (r : Push) | PushWaits (w : PushWait).

Definition enqueueAndRing (id : PeerId) (p : Peer) (l : Lane) (mail : Mail) (m : Mailbox) : Mailbox :=
  let '(ring, m) := enqueue id p l mail m in ringIf ring m.

Definition push (id : PeerId) (l : Lane) (mail : Mail) (timeout : Z) (m : Mailbox) : PushState * Mailbox :=
  let size := zlen (mailBody mail) in
  if maxPayload l <? size then (PushReturns TooLarge, m)
  else if negb (mRunning m) then (PushReturns Stopped, m)
  else
    match mPeers m !! id with
    | None => (PushReturns Closed, m)
    | Some p =>
      if isSealed p then (PushReturns Closed, m)
      else if negb (bool_decide (l = Media)) && negb (hasRoom m p l size) then
        if timeout <=? 0 then (PushReturns Full, m)
        else (PushWaits (mkPushWait id l mail (epoch p)), m)
      else (PushReturns Queued, enqueueAndRing id p l mail m)
    end.

Definition pushGone (w : PushWait) (m : Mailbox) : bool :=
  match mPeers m !! pwPeer w with
  | None => true
  | Some p => negb (epoch p =? pwEpoch w) || isSealed p
  end.
Definition pushHasRoom (w : PushWait) (m : Mailbox) : bool :=
  match mPeers m !! pwPeer w with
  | None => false
  | Some p => hasRoom m p (pwLane w) (zlen (mailBody (pwMail w)))
  end.

(** The condition the push waits for; a time-out ends the wait without it. *)
Definition pushReady (w : PushWait) (m : Mailbox) : bool :=
  negb (mRunning m) || pushGone w m || pushHasRoom w m.

Definition pushResume (w : PushWait) (m : Mailbox) : Push * Mailbox :=
  if pushGone w m then (Closed, m)
  else if negb (mRunning m) then (Stopped, m)
  else
    match mPeers m !! pwPeer w with
    | None => (Closed, m)
    | Some p =>
      if negb (hasRoom m p (pwLane w) (zlen (mailBody (pwMail w)))) then (Full, m)
      else (Queued, enqueueAndRing (pwPeer w) p (pwLane w) (pwMail w) m)
    end.

(** One round of the loop of [pushToAll]. *)
Definition pushOne (l : Lane) (mail : Mail) (acc : Z * bool * Mailbox) (id : PeerId) : Z * bool * Mailbox :=
  let '(taken, ring, m) := acc in
  match mPeers m !! id with
  | None => acc
  | Some p =>
    if isSealed p || (negb (bool_decide (l = Media)) && negb (hasRoom m p l (zlen (mailBody mail)))) then acc
    else let '(r, m) := enqueue id p l mail m in (taken + 1, ring || r, m)
  end.

Definition pushToAll (l : Lane) (mail : Mail) (m : Mailbox) : Z * Mailbox :=
  if maxPayload l <? zlen (mailBody mail) then (0, m)
  else if negb (mRunning m) then (0, m)
  else
    let '(taken, ring, m) := fold_left (pushOne l mail) (keysOf (mPeers m)) (0, false, m) in
    (taken, ringIf ring m).

Record FlushWait := mkFlushWait { fwPeer : PeerId; fwEpoch : Z; fwTarget : Z }.
Inductive FlushState := FlushReturns (r : bool) | FlushWaits (w : FlushWait).

Definition flush (id : PeerId) (m : Mailbox) : FlushState :=
  match mPeers m !! id with
  | None => FlushReturns true
  | Some p => FlushWaits (mkFlushWait id (epoch p) (accepted p))
  end.

Definition flushDone (w : FlushWait) (m : Mailbox) : bool :=
  match mPeers m !! fwPeer w with
  | None => true
  | Some p => negb (epoch p =? fwEpoch w) || (fwTarget w <=? done_ p)
  end.
Definition flushReady (w : FlushWait) (m : Mailbox) : bool := negb (mRunning m) || flushDone w m.
Definition flushResume (w : FlushWait) (m : Mailbox) : bool := flushDone w m.

Definition seal (id : PeerId) (m : Mailbox) : Mailbox :=
  match mPeers m !! id with
  | None => m
  | Some p =>
    notifyAll (m <| mPeers ::= <[id := setLane Media emptyQueue (p <| isSealed := true |>)]> |>
                 <| mSessions ::= <[id := Pending]> |>)
  end.

Definition discovered (m : Mailbox) : list PeerInfo := mDiscovered m.
Definition isDiscovered (id : PeerId) (m : Mailbox) : bool := existsb (fun i => infoId i =? id) (mDiscovered m).
Definition session (id : PeerId) (m : Mailbox) : Session := default NoSession (mSessions m !! id).
Definition connected (m : Mailbox) : list PeerId :=
  filter (fun id => mSessions m !! id = Some Connected) (keysOf (mSessions m)).

Definition stats (id : PeerId) (m : Mailbox) : option PeerStats :=
  match mPeers m !! id with
  | None => None
  | Some p =>
    let s := (peerStats p) <| statMediaDropped := mediaDropped p |> in
    Some (fold_left (fun s l => s <| bytesQueued ::= fun n => u64 (n + queueBytes (lanes p l)) |>)
            [Control; Reliable; Bulk; Media] s)
  end.

(** ** I/O thread *)
Definition drain (m : Mailbox) : Work * Mailbox :=
  let w := mkWork (mCommands m) (mReady m) in
  let m := m <| mCommands := [] |> <| mReady := [] |> in
  let m := fold_left (fun m id =>
             match mPeers m !! id with
             | Some p => m <| mPeers ::= <[id := p <| listed := false |>]> |>
             | None => m
             end) (ready w) m in
  (w, m <| mSignalled := false |>).

Definition take (id : PeerId) (l : Lane) (m : Mailbox) : option Mail * Mailbox :=
  match mPeers m !! id with
  | None => (None, m)
  | Some p =>
    match queue (lanes p l) with
    | [] => (None, m)
    | mail :: rest =>
      let q := mkQueue rest (u64 (queueBytes (lanes p l) - zlen (mailBody mail))) in
      (Some mail, notifyAll (m <| mPeers ::= <[id := setLane l q p]> |>))
    end
  end.

Definition settle (id : PeerId) (m : Mailbox) : bool * Mailbox :=
  match mPeers m !! id with
  | None => (true, m)
  | Some p =>
    if existsb (fun l => negb (bool_decide (queue (lanes p l) = []))) [Reliable; Bulk] then (false, m)
    else if done_ p =? accepted p then (true, m)
    else (true, notifyAll (m <| mPeers ::= <[id := p <| done_ := accepted p |>]> |>))
  end.

Definition open (id : PeerId) (m : Mailbox) : Mailbox :=
  let m := m <| mPeers ::= <[id := newPeer]> |> in
  let m := m <| mEpochs ::= fun n => u64 (n + 1) |> in
  m <| mPeers ::= <[id := newPeer <| epoch := mEpochs m |>]> |> <| mSessions ::= <[id := Connected]> |>.

Definition close (id : PeerId) (m : Mailbox) : Mailbox :=
  notifyAll (m <| mPeers ::= delete id |> <| mSessions ::= delete id |>
               <| mReady ::= filter (fun x => x <> id) |>).

Definition publishSession (id : PeerId) (s : Session) (m : Mailbox) : Mailbox := m <| mSessions ::= <[id := s]> |>.
Definition publishDiscovered (peers : list PeerInfo) (m : Mailbox) : Mailbox := m <| mDiscovered := peers |>.
Definition publishStats (id : PeerId) (s : PeerStats) (m : Mailbox) : Mailbox :=
  match mPeers m !! id with
  | Some p => m <| mPeers ::= <[id := p <| peerStats := s |>]> |>
  | None => m
  end.
End Box.
