(* ===== verification/MailboxRuns.v ===== *)
(** * The mailbox in use

    Runs of the mailbox: any threads perform its operations in any order.  The invariant of
    these runs, and what they promise to the threads. *)
From S2P Require Import Prelude Constants PacketFlags OrderedMap Discovery Mailbox.
Import Box.

(** ** Runs *)

(** One atomic step of some thread.  [Resume] ends the wait of a push, with the condition it
    waits for or by time-out; flushing changes nothing. *)
Inductive action :=
| Post (c : Command) (id : PeerId)
| PushMail (id : PeerId) (l : Lane) (mail : Mail) (timeout : Z)
| Resume (w : PushWait)
| PushAll (l : Lane) (mail : Mail)
| Seal (id : PeerId)
| SetRunning (b : bool)
| Drain
| Take (id : PeerId) (l : Lane)
| Settle (id : PeerId)
| Open (id : PeerId)
| Close (id : PeerId)
| PublishSession (id : PeerId) (s : Session)
| PublishDiscovered (ps : list PeerInfo)
| PublishStats (id : PeerId) (s : PeerStats).

Definition perform (a : action) (m : Mailbox) : Mailbox :=
  match a with
  | Post c id => post c id m
  | PushMail id l mail t => (push id l mail t m).2
  | Resume w => (pushResume w m).2
  | PushAll l mail => (pushToAll l mail m).2
  | Seal id => seal id m
  | SetRunning b => setRunning b m
  | Drain => (drain m).2
  | Take id l => (take id l m).2
  | Settle id => (settle id m).2
  | Open id => open id m
  | Close id => close id m
  | PublishSession id s => publishSession id s m
  | PublishDiscovered ps => publishDiscovered ps m
  | PublishStats id s => publishStats id s m
  end.

(** What the callers see to: the application never pushes on the Control lane, a push only
    resumes that waits, and the engine opens a session only where there is none. *)
Definition allowed (a : action) (m : Mailbox) : Prop :=
  match a with
  | PushMail _ l _ _ | PushAll l _ => l <> Control
  | Resume w => pwLane w <> Control /\ pwLane w <> Media /\ zlen (mailBody (pwMail w)) <= maxPayload (pwLane w)
  | Open id => mPeers m !! id = None
  | _ => True
  end.

(** What an action puts into the queues, and what it takes out. *)
Definition takers (l : Lane) (mail : Mail) (m : Mailbox) : list PeerId :=
  filter (fun id => match mPeers m !! id with
                    | Some p => negb (isSealed p) && (bool_decide (l = Media) || hasRoom m p l (zlen (mailBody mail)))
                    | None => false
                    end = true) (keysOf (mPeers m)).

Definition pushedBy (a : action) (m : Mailbox) : list (PeerId * Lane * Mail) :=
  match a with
  | PushMail id l mail t => match (push id l mail t m).1 with PushReturns Queued => [(id, l, mail)] | _ => [] end
  | Resume w => match (pushResume w m).1 with Queued => [(pwPeer w, pwLane w, pwMail w)] | _ => [] end
  | PushAll l mail =>
    if (maxPayload l <? zlen (mailBody mail)) || negb (mRunning m) then []
    else (fun id => (id, l, mail)) <$> takers l mail m
  | _ => []
  end.
Definition takenBy (a : action) (m : Mailbox) : list (PeerId * Lane * Mail) :=
  match a with
  | Take id l => match (take id l m).1 with Some mail => [(id, l, mail)] | None => [] end
  | _ => []
  end.

(** The messages of one lane of one peer in a log. *)
Definition onLane (id : PeerId) (l : Lane) (log : list (PeerId * Lane * Mail)) : list Mail :=
  (fun x => x.2) <$> filter (fun x => x.1 = (id, l)) log.

(** A run, with the number of its steps and, for every lane of every peer, what was pushed
    and what was taken since the session was opened. *)
Definition logs := PeerId -> Lane -> list Mail.
Definition logOf (a : action) (by_ : list (PeerId * Lane * Mail)) (log : logs) : logs := fun id l =>
  match a with
  | Open id' => if decide (id' = id) then [] else log id l ++ onLane id l by_
  | _ => log id l ++ onLane id l by_
  end.

Inductive run (q : Z) : nat -> Mailbox -> logs -> logs -> Prop :=
| run_start : run q 0 (setQueueBytes q newMailbox) (fun _ _ => []) (fun _ _ => [])
| run_step n m pushed taken a : run q n m pushed taken -> allowed a m ->
    run q (S n) (perform a m) (logOf a (pushedBy a m) pushed) (logOf a (takenBy a m) taken).

(** ** The invariant *)
Definition totalBytes (ms : list Mail) : Z := foldr (fun mail n => zlen (mailBody mail) + n) 0 ms.

Record queue_ok (q : Z) (l : Lane) (lq : LaneQueue) : Prop := {
  qo_bytes : queueBytes lq = totalBytes (queue lq);
  qo_sizes : Forall (fun mail => zlen (mailBody mail) <= maxPayload l) (queue lq);
  qo_limit : if decide (l = Media) then zlen (queue lq) <= MediaQueueMessages
             else queueBytes lq <= q \/ zlen (queue lq) <= 1;
}.

Definition waitingMails (p : Peer) : Z := zlen (queue (lanes p Reliable)) + zlen (queue (lanes p Bulk)).

Record peer_ok (q n : Z) (p : Peer) : Prop := {
  po_lanes : forall l, queue_ok q l (lanes p l);
  po_control : queue (lanes p Control) = [];
  po_counts : 0 <= done_ p /\ accepted p <= n;
  po_waiting : done_ p + waitingMails p <= accepted p;
  po_sealed : isSealed p = true -> queue (lanes p Media) = [];
}.

Record mailbox_ok (q n : Z) (m : Mailbox) : Prop := {
  mo_limit : mQueueBytes m = q;
  mo_signal : mCommands m <> [] \/ mReady m <> [] -> mSignalled m = true;
  mo_nodup : NoDup (mReady m);
  mo_ready : forall id, id ∈ mReady m <-> exists p, mPeers m !! id = Some p /\ listed p = true;
  mo_peers : forall id p, mPeers m !! id = Some p -> peer_ok q n p;
  mo_epochs : 0 <= mEpochs m <= n;
  mo_epoch : forall id p, mPeers m !! id = Some p -> 0 < epoch p <= mEpochs m;
  mo_distinct : forall id id' p p', mPeers m !! id = Some p -> mPeers m !! id' = Some p' -> epoch p = epoch p' -> id = id';
}.

Lemma totalBytes_app a b : totalBytes (a ++ b) = totalBytes a + totalBytes b.
Proof. induction a; simpl; [done|]. lia. Qed.

Lemma totalBytes_nonneg a : 0 <= totalBytes a.
Proof. induction a as [|x a IH]; simpl; [done|]. pose proof (zlen_nonneg (mailBody x)). lia. Qed.

Lemma totalBytes_le a b : Forall (fun mail => zlen (mailBody mail) <= b) a -> 0 <= b -> totalBytes a <= b * zlen a.
Proof.
  induction 1 as [|x a Hx Ha IH]; intros Hb; [unfold zlen; simpl; lia|]. rewrite zlen_cons. simpl. specialize (IH Hb). lia.
Qed.

(** ** Queues *)
Lemma maxPayload_bounds l : 0 < maxPayload l <= MaxMessagePayload.
Proof. unfold maxPayload, MaxMediaPayload, MaxMessagePayload. case_decide; lia. Qed.

Lemma queue_ok_bytes q l lq : 0 <= q <= 2 ^ 63 -> queue_ok q l lq -> 0 <= queueBytes lq <= 2 ^ 63.
Proof.
  intros Hq [Hb Hs Hl]. pose proof (totalBytes_nonneg (queue lq)). split; [lia|].
  pose proof (maxPayload_bounds l) as Hm. unfold MaxMessagePayload in Hm.
  pose proof (totalBytes_le _ _ Hs ltac:(lia)) as Ht. pose proof (zlen_nonneg (queue lq)).
  assert (Hc : forall c, zlen (queue lq) <= c -> c <= 32 -> queueBytes lq <= 2 ^ 63).
  { intros c H1 H2. assert (maxPayload l * zlen (queue lq) <= 16 * 1024 * 1024 * 32) by nia. lia. }
  case_decide; [by apply (Hc 32)|]. destruct Hl as [Hl|Hl]; [lia|]. apply (Hc 1); lia.
Qed.

(** Taking the oldest message, and adding one. *)
Lemma queue_ok_tail q l lq mail rest :
  0 <= q <= 2 ^ 63 -> queue_ok q l lq -> queue lq = mail :: rest ->
  let lq' := mkQueue rest (u64 (queueBytes lq - zlen (mailBody mail))) in
  queue_ok q l lq' /\ queueBytes lq' = queueBytes lq - zlen (mailBody mail).
Proof.
  intros Hq Hok E lq'. pose proof (queue_ok_bytes _ _ _ Hq Hok) as Hb. destruct Hok as [Eb Hs Hl]. rewrite E in *.
  simpl in Eb. pose proof (totalBytes_nonneg rest). pose proof (zlen_nonneg (mailBody mail)).
  assert (Hw : queueBytes lq' = queueBytes lq - zlen (mailBody mail)).
  { unfold lq'. cbn [queueBytes]. apply wrap_small. unfold is_uint. lia. }
  split; [|done]. apply Forall_cons in Hs as [_ Hs]. split; [rewrite Hw; cbn [queue lq']; lia|done|].
  rewrite Hw. cbn [queue lq']. rewrite zlen_cons in Hl. case_decide; [lia|]. destruct Hl; [left; lia|right; lia].
Qed.

Lemma queue_ok_add q l lq mail :
  0 <= q <= 2 ^ 63 -> queue_ok q l lq -> zlen (mailBody mail) <= maxPayload l ->
  (if decide (l = Media) then zlen (queue lq) < MediaQueueMessages
   else queue lq = [] \/ queueBytes lq + zlen (mailBody mail) <= q) ->
  queue_ok q l (mkQueue (queue lq ++ [mail]) (u64 (queueBytes lq + zlen (mailBody mail)))).
Proof.
  intros Hq Hok Hm Hroom. pose proof (queue_ok_bytes _ _ _ Hq Hok) as Hb. destruct Hok as [Eb Hs Hl].
  pose proof (zlen_nonneg (mailBody mail)). pose proof (maxPayload_bounds l). unfold MaxMessagePayload in *.
  rewrite wrap_small by (unfold is_uint; lia). split; cbn [queue queueBytes].
  - rewrite totalBytes_app, Eb. simpl. lia.
  - apply Forall_app. split; [done|]. by apply Forall_singleton.
  - rewrite zlen_app, zlen_cons, zlen_nil. case_decide; [lia|]. destruct Hroom as [->|]; [right; rewrite zlen_nil; lia|by left].
Qed.

(** ** What [enqueue] does *)

(** The oldest media message makes room. *)
Definition trimmed (l : Lane) (lq : LaneQueue) : LaneQueue :=
  match queue lq with
  | oldest :: rest =>
    if decide (l = Media) then
      if MediaQueueMessages <=? zlen (queue lq)
      then mkQueue rest (u64 (queueBytes lq - zlen (mailBody oldest))) else lq
    else lq
  | [] => lq
  end.

Record enqueued (id : PeerId) (p : Peer) (l : Lane) (mail : Mail) (m m' : Mailbox) (p' : Peer) : Prop := {
  en_box : m' = m <| mReady := if listed p then mReady m else mReady m ++ [id] |>
                  <| mPeers := <[id := p']> (mPeers m) |> <| mSignalled := true |>;
  en_lane : lanes p' l = mkQueue (queue (trimmed l (lanes p l)) ++ [mail])
                                 (u64 (queueBytes (trimmed l (lanes p l)) + zlen (mailBody mail)));
  en_others : forall l', l' <> l -> lanes p' l' = lanes p l';
  en_accepted : accepted p' = if decide (l = Media) then accepted p else u64 (accepted p + 1);
  en_done : done_ p' = done_ p;
  en_epoch : epoch p' = epoch p;
  en_listed : listed p' = true;
  en_sealed : isSealed p' = isSealed p;
}.

Lemma enqueue_spec id p l mail m :
  (enqueue id p l mail m).1 = negb (mSignalled m) /\
  exists p', enqueued id p l mail m (enqueue id p l mail m).2 p'.
Proof.
  unfold enqueue. fold (trimmed l (lanes p l)).
  assert (Ht : exists d, match queue (lanes p l) with
    | oldest :: rest =>
      if decide (l = Media) then
        if MediaQueueMessages <=? zlen (queue (lanes p l))
        then (mkQueue rest (u64 (queueBytes (lanes p l) - zlen (mailBody oldest))), p <| mediaDropped ::= fun n => u64 (n + 1) |>)
        else (lanes p l, p)
      else (lanes p l, p)
    | [] => (lanes p l, p)
    end = (trimmed l (lanes p l), p <| mediaDropped := d |>)).
  { unfold trimmed. destruct (queue (lanes p l)) as [|x r]; [by exists (mediaDropped p); destruct p|].
    case_decide; [|by exists (mediaDropped p); destruct p]. case_match; [by eexists|by exists (mediaDropped p); destruct p]. }
  destruct Ht as [d ->]. cbv zeta.
  split; [by destruct (decide (l = Media)), (listed p) eqn:E; cbn; rewrite ?E|].
  pose (p1 := setLane l (mkQueue (queue (trimmed l (lanes p l)) ++ [mail])
    (u64 (queueBytes (trimmed l (lanes p l)) + zlen (mailBody mail)))) (p <| mediaDropped := d |>)).
  exists ((if decide (l = Media) then p1 else p1 <| accepted ::= fun n => u64 (n + 1) |>) <| listed := true |>).
  assert (Eq : lanes p1 l = mkQueue (queue (trimmed l (lanes p l)) ++ [mail])
    (u64 (queueBytes (trimmed l (lanes p l)) + zlen (mailBody mail)))) by (cbn; by rewrite decide_True).
  assert (Eo : forall l', l' <> l -> lanes p1 l' = lanes p l') by (intros; cbn; by rewrite decide_False).
  fold p1. destruct (decide (l = Media)) as [Hl|Hl]; split; try done;
    first [by rewrite decide_True by done | by rewrite decide_False by done | idtac].
  - change (listed p1) with (listed p). by destruct (listed p), m.
  - change (listed (update accepted _ p1)) with (listed p). by destruct (listed p), m.
Qed.

(** ** [pushToAll] *)
Definition isTaker (l : Lane) (mail : Mail) (m : Mailbox) (id : PeerId) : bool :=
  match mPeers m !! id with
  | Some p => negb (isSealed p) && (bool_decide (l = Media) || hasRoom m p l (zlen (mailBody mail)))
  | None => false
  end.

(** The peers of [ids] got the message, where there was room, and nobody else. *)
Record pushed_all (l : Lane) (mail : Mail) (ids : list PeerId) (m0 m m' : Mailbox) (r r' : bool) : Prop := {
  pa_limit : mQueueBytes m' = mQueueBytes m;
  pa_commands : mCommands m' = mCommands m;
  pa_running : mRunning m' = mRunning m;
  pa_epochs : mEpochs m' = mEpochs m;
  pa_bell : mDoorbell m' = mDoorbell m;
  pa_changed : mChanged m' = mChanged m;
  pa_signal : mSignalled m' = mSignalled m || existsb (isTaker l mail m0) ids;
  pa_ring : r' = r || (negb (mSignalled m) && existsb (isTaker l mail m0) ids);
  pa_taker : forall id, id ∈ ids -> isTaker l mail m0 id = true ->
    exists p p' m1 m2, mPeers m0 !! id = Some p /\ mPeers m' !! id = Some p' /\ enqueued id p l mail m1 m2 p';
  pa_other : forall id, ~ (id ∈ ids /\ isTaker l mail m0 id = true) -> mPeers m' !! id = mPeers m !! id;
}.

Lemma isTaker_room l mail m0 m p id :
  mQueueBytes m = mQueueBytes m0 -> mPeers m !! id = mPeers m0 !! id -> mPeers m0 !! id = Some p ->
  isTaker l mail m0 id = negb (isSealed p || (negb (bool_decide (l = Media)) && negb (hasRoom m p l (zlen (mailBody mail))))).
Proof.
  intros Eq E Ep. unfold isTaker, hasRoom. rewrite Ep, Eq.
  by destruct (isSealed p), (bool_decide (l = Media)), (bool_decide _), (_ <=? _).
Qed.

Lemma pushOne_all l mail m0 : forall ids taken r m, NoDup ids -> mQueueBytes m = mQueueBytes m0 ->
  (forall id, id ∈ ids -> mPeers m !! id = mPeers m0 !! id) ->
  let f := fold_left (pushOne l mail) ids (taken, r, m) in
  pushed_all l mail ids m0 m f.2 r f.1.2 /\
  f.1.1 = taken + zlen (filter (fun id => isTaker l mail m0 id = true) ids).
Proof.
  induction ids as [|id ids IH]; intros taken r m Hnd Eq Hs f.
  { split; [|unfold f, zlen; simpl; lia]. split; try done; unfold f; cbn.
    - by rewrite orb_false_r.
    - by rewrite andb_false_r, orb_false_r.
    - set_solver. }
  apply NoDup_cons in Hnd as [Hni Hnd]. pose proof (Hs id ltac:(set_solver)) as Eid.
  rewrite filter_cons. unfold f. cbn [fold_left existsb]. unfold pushOne at 2 4 6.
  rewrite Eid. destruct (mPeers m0 !! id) as [p|] eqn:Ep.
  2: { assert (Ht : isTaker l mail m0 id = false) by (unfold isTaker; by rewrite Ep).
       destruct (IH taken r m Hnd Eq) as [[? ? ? ? ? ? ? ? Ht' Ho'] Hc]; [intros; apply Hs; set_solver|].
       rewrite decide_False by by rewrite Ht. split; [|done]. split; try done; cbn [existsb]; rewrite ?Ht; try done.
       - intros x Hx Hxt. apply Ht'; [|done]. apply elem_of_cons in Hx as [->|]; [congruence|done].
       - intros x Hx. apply Ho'. set_solver. }
  pose proof (isTaker_room l mail m0 m p id Eq ltac:(congruence) Ep) as Et.
  destruct (isSealed p || _) eqn:Ec; cbn [negb] in Et.
  - destruct (IH taken r m Hnd Eq) as [[? ? ? ? ? ? ? ? Ht' Ho'] Hc]; [intros; apply Hs; set_solver|].
    rewrite decide_False by by rewrite Et. split; [|done]. split; try done; cbn [existsb]; rewrite ?Et; try done.
    + intros x Hx Hxt. apply Ht'; [|done]. apply elem_of_cons in Hx as [->|]; [congruence|done].
    + intros x Hx. apply Ho'. set_solver.
  - destruct (enqueue_spec id p l mail m) as [Er (p' & He)]. destruct (enqueue id p l mail m) as [r1 m1]. cbn [fst snd] in *.
    pose proof (en_box _ _ _ _ _ _ _ He) as Em.
    destruct (IH (taken + 1) (r || r1) m1 Hnd) as [[F1 F2 F3 F0 F4 F5 F6 F7 Ht' Ho'] Hc].
    { by rewrite Em. }
    { intros x Hx. rewrite Em. cbn. rewrite lookup_insert_ne by set_solver. apply Hs. set_solver. }
    rewrite decide_True by done. rewrite zlen_cons. split; [|rewrite Hc; lia].
    split; rewrite ?F1, ?F2, ?F3, ?F0, ?F4, ?F5; try (by rewrite Em); cbn [existsb]; rewrite ?Et.
    + rewrite F6, Em. cbn. by rewrite orb_true_r.
    + rewrite F7, Er, Em. cbn. by rewrite andb_true_r, <- orb_assoc, orb_false_r.
    + intros x Hx Hxt. destruct (decide (x = id)) as [->|Hne].
      * exists p, p', m, m1. split; [done|]. split; [|done]. rewrite Ho' by set_solver. rewrite Em. cbn. apply lookup_insert_eq.
      * apply Ht'; [set_solver|done].
    + intros x Hx. rewrite Ho' by set_solver. rewrite Em. cbn. rewrite lookup_insert_ne; [done|]. intros <-. apply Hx. set_solver.
Qed.

(** ** [drain] *)
Lemma drain_peers ids : forall m, NoDup ids ->
  let m' := fold_left (fun m id =>
     match mPeers m !! id with
     | Some p => m <| mPeers ::= <[id := p <| listed := false |>]> |>
     | None => m
     end) ids m in
  (forall id, mPeers m' !! id = if decide (id ∈ ids) then (fun p => p <| listed := false |>) <$> mPeers m !! id
                               else mPeers m !! id) /\
  m' = m <| mPeers := mPeers m' |>.
Proof.
  induction ids as [|x ids IH]; intros m Hnd; cbn [fold_left].
  - split; [|by destruct m]. intros id. by rewrite decide_False by set_solver.
  - apply NoDup_cons in Hnd as [Hx Hnd]. destruct (mPeers m !! x) as [p|] eqn:E.
    + destruct (IH (m <| mPeers ::= <[x := p <| listed := false |>]> |>) Hnd) as [H1 H2]. cbv zeta in *. split.
      * intros id. rewrite H1. cbn. destruct (decide (id = x)) as [->|Hne].
        -- rewrite decide_False, decide_True by set_solver. by rewrite lookup_insert_eq, E.
        -- rewrite lookup_insert_ne by done. destruct (decide (id ∈ ids)); [by rewrite decide_True by set_solver|].
           by rewrite decide_False by set_solver.
      * rewrite H2 at 1. by destruct m.
    + destruct (IH m Hnd) as [H1 H2]. cbv zeta in *. split; [|done]. intros id. rewrite H1.
      destruct (decide (id = x)) as [->|Hne]; [by rewrite decide_False, decide_True, E by set_solver|].
      destruct (decide (id ∈ ids)); [by rewrite decide_True by set_solver|]. by rewrite decide_False by set_solver.
Qed.

Section Invariant.
Context (q : Z) (Hq : 0 <= q <= 2 ^ 63).

(** What a push has to check before it puts a message into the lane. *)
Record fitting (m : Mailbox) (p : Peer) (l : Lane) (mail : Mail) : Prop := {
  fi_lane : l <> Control;
  fi_size : zlen (mailBody mail) <= maxPayload l;
  fi_open : isSealed p = false;
  fi_room : l <> Media -> hasRoom m p l (zlen (mailBody mail)) = true;
}.

Lemma trimmed_ok l lq :
  queue_ok q l lq ->
  queue_ok q l (trimmed l lq) /\ (l = Media -> zlen (queue (trimmed l lq)) < MediaQueueMessages) /\
  (l <> Media -> trimmed l lq = lq).
Proof.
  intros Hok. unfold trimmed. destruct (queue lq) as [|x r] eqn:E.
  { split; [done|]. split; [|done]. intros _. by rewrite E. }
  destruct (decide (l = Media)) as [Hl|Hl]; [|done].
  destruct (Z.leb_spec MediaQueueMessages (zlen (x :: r))) as [Hf|Hf].
  - split; [by apply queue_ok_tail|]. split; [|done]. intros _. cbn [queue]. pose proof (qo_limit _ _ _ Hok) as H.
    rewrite decide_True, E, zlen_cons in H by done. lia.
  - split; [done|]. split; [|done]. by rewrite E.
Qed.

Lemma hasRoom_true m p l size : mQueueBytes m = q -> queue_ok q l (lanes p l) -> 0 <= size <= maxPayload l ->
  hasRoom m p l size = true -> queue (lanes p l) = [] \/ queueBytes (lanes p l) + size <= q.
Proof.
  intros Em Hok Hs H. unfold hasRoom in H. apply orb_true_iff in H as [H|H].
  - left. by apply bool_decide_eq_true in H.
  - right. pose proof (queue_ok_bytes _ _ _ Hq Hok). pose proof (maxPayload_bounds l). unfold MaxMessagePayload in *.
    rewrite wrap_small, Em in H by (unfold is_uint; lia). by apply Z.leb_le in H.
Qed.

Lemma enqueued_peer n id p l mail m m' p' :
  0 <= n < 2 ^ 64 - 1 -> mQueueBytes m = q -> peer_ok q n p -> fitting m p l mail ->
  enqueued id p l mail m m' p' -> peer_ok q (n + 1) p'.
Proof.
  intros Hn Em [Hl Hc [Hd Ha] Hw Hs] [Fl Fs Fo Fr] [_ El Eo Ea Ed _ _ Es]. pose proof (zlen_nonneg (mailBody mail)) as Hm.
  destruct (trimmed_ok l (lanes p l) (Hl l)) as (Ht & Htm & Hte).
  assert (Hnew : queue_ok q l (lanes p' l)).
  { rewrite El. apply queue_ok_add; [done|done|done|]. case_decide as D; [by apply Htm|]. rewrite Hte by done.
    apply (hasRoom_true m p l (zlen (mailBody mail))); try done. by apply Fr. }
  assert (Hwait : waitingMails p' = waitingMails p + if decide (l = Media) then 0 else 1).
  { unfold waitingMails. destruct l; try done.
    - rewrite (Eo Bulk), El, Hte by done. cbn [queue]. rewrite zlen_app, zlen_cons, zlen_nil, decide_False by done. lia.
    - rewrite (Eo Reliable), El, Hte by done. cbn [queue]. rewrite zlen_app, zlen_cons, zlen_nil, decide_False by done. lia.
    - rewrite (Eo Reliable), (Eo Bulk), decide_True by done. lia. }
  pose proof (zlen_nonneg (queue (lanes p Reliable))). pose proof (zlen_nonneg (queue (lanes p Bulk))).
  assert (0 <= waitingMails p) by (unfold waitingMails; lia).
  split.
  - intros l'. destruct (decide (l' = l)) as [->|Hne]; [done|]. rewrite Eo by done. apply Hl.
  - by rewrite Eo by congruence.
  - rewrite Ed, Ea. split; [done|]. case_decide; [lia|]. rewrite wrap_small by (unfold is_uint; lia). lia.
  - rewrite Ed, Ea, Hwait. case_decide; [lia|]. rewrite wrap_small by (unfold is_uint; lia). lia.
  - rewrite Es, Fo. done.
Qed.

Lemma mailbox_ok_mono n n' m : n <= n' -> mailbox_ok q n m -> mailbox_ok q n' m.
Proof.
  intros Hn []. split; try done; [|lia]. intros id p Hp. destruct (mo_peers0 id p Hp) as [? ? [? ?] ? ?].
  split; try done. split; [done|lia].
Qed.

Lemma enqueued_ok n id p l mail m m' p' :
  mailbox_ok q n m -> mPeers m !! id = Some p -> enqueued id p l mail m m' p' -> peer_ok q n p' -> mailbox_ok q n m'.
Proof.
  intros [? ? Hnd Hr Hp ? He Hdis] Hid [-> _ _ _ _ Ee Elist _] Hok. split; cbn; try done.
  - destruct (listed p) eqn:E; [done|]. apply NoDup_app. split; [done|]. split; [|apply NoDup_singleton].
    intros x Hx ->%list_elem_of_singleton. apply Hr in Hx as (p0 & E0 & E1). congruence.
  - intros x. destruct (decide (x = id)) as [->|Hne].
    + rewrite lookup_insert_eq. split; [intros _; by exists p'|]. intros _. destruct (listed p) eqn:E.
      * apply Hr. by exists p.
      * apply elem_of_app. right. by apply list_elem_of_singleton.
    + rewrite lookup_insert_ne by done. rewrite <- Hr. destruct (listed p); [done|].
      rewrite elem_of_app, list_elem_of_singleton. naive_solver.
  - intros x px [[<- <-]|[Hne Hx]]%lookup_insert_Some; [done|]. by apply (Hp x).
  - intros x px [[<- <-]|[Hne Hx]]%lookup_insert_Some; [rewrite Ee; by apply (He id)|]. by apply (He x).
  - intros x y px py [[<- <-]|[Hne Hx]]%lookup_insert_Some [[<- <-]|[Hne' Hy]]%lookup_insert_Some E; try done.
    + apply (Hdis id y p py); congruence.
    + apply (Hdis x id px p); congruence.
    + by apply (Hdis x y px py).
Qed.

Lemma ring_ok n b m : mailbox_ok q n m -> mailbox_ok q n (ringIf b m).
Proof. destruct b; [|done]. intros []. by split. Qed.

(** A peer that stays what it is for everybody else. *)
Lemma set_peer_ok n m id p p' :
  mailbox_ok q n m -> mPeers m !! id = Some p -> epoch p' = epoch p -> listed p' = listed p -> peer_ok q n p' ->
  mailbox_ok q n (m <| mPeers ::= <[id := p']> |>).
Proof.
  intros [? ? Hnd Hr Hp ? He Hdis] Hid Ee El Hok. split; cbn; try done.
  - intros x. rewrite Hr. destruct (decide (x = id)) as [->|Hne]; [rewrite lookup_insert_eq|by rewrite lookup_insert_ne].
    split; intros (p0 & E & ?); simplify_eq; eexists; (split; [done|]); congruence.
  - intros x px [[<- <-]|[Hne Hx]]%lookup_insert_Some; [done|]. by apply (Hp x).
  - intros x px [[<- <-]|[Hne Hx]]%lookup_insert_Some; [rewrite Ee; by apply (He id)|]. by apply (He x).
  - intros x y px py [[<- <-]|[Hne Hx]]%lookup_insert_Some [[<- <-]|[Hne' Hy]]%lookup_insert_Some E; try done.
    + apply (Hdis id y p py); congruence.
    + apply (Hdis x id px p); congruence.
    + by apply (Hdis x y px py).
Qed.

Lemma enqueue_keeps n id p l mail m :
  0 <= n < 2 ^ 64 - 1 -> mailbox_ok q (n + 1) m -> mPeers m !! id = Some p -> peer_ok q n p -> fitting m p l mail ->
  mailbox_ok q (n + 1) (enqueue id p l mail m).2.
Proof.
  intros Hn Hok Hid Hp Hf. destruct (enqueue_spec id p l mail m) as [_ (p' & He)].
  apply (enqueued_ok _ id p l mail m _ p' Hok Hid He).
  by eapply enqueued_peer; [| apply (mo_limit _ _ _ Hok) | | |].
Qed.

Lemma pushOne_ok n l mail : forall ids taken r m, 0 <= n < 2 ^ 64 - 1 -> NoDup ids ->
  l <> Control -> zlen (mailBody mail) <= maxPayload l ->
  mailbox_ok q (n + 1) m -> (forall id p, id ∈ ids -> mPeers m !! id = Some p -> peer_ok q n p) ->
  mailbox_ok q (n + 1) (fold_left (pushOne l mail) ids (taken, r, m)).2.
Proof.
  induction ids as [|id ids IH]; intros taken r m Hn Hnd Hl Hs Hok Hp; [done|]. apply NoDup_cons in Hnd as [Hni Hnd].
  cbn [fold_left]. unfold pushOne at 2. destruct (mPeers m !! id) as [p|] eqn:E; [|apply IH; try done; intros; eapply Hp; set_solver].
  destruct (isSealed p || _) eqn:Ec; [apply IH; try done; intros; eapply Hp; set_solver|].
  apply orb_false_iff in Ec as [Es Er]. pose proof (enqueue_keeps n id p l mail m Hn Hok E) as Hk.
  destruct (enqueue_spec id p l mail m) as [_ (p' & He)]. destruct (enqueue id p l mail m) as [r1 m1]. cbn [snd] in *.
  apply IH; try done.
  - apply Hk; [apply (Hp id); set_solver|]. split; try done. intros Hm. rewrite bool_decide_eq_false_2 in Er by done.
    cbn in Er. by apply negb_false_iff in Er.
  - intros x px Hx Hpx. rewrite (en_box _ _ _ _ _ _ _ He) in Hpx. cbn in Hpx. rewrite lookup_insert_ne in Hpx by set_solver.
    eapply Hp; [|done]. set_solver.
Qed.

(** ** Every operation keeps the invariant *)
Lemma peer_ok_mono n n' p : n <= n' -> peer_ok q n p -> peer_ok q n' p.
Proof. intros Hn [? ? [? ?] ? ?]. split; try done. lia. Qed.

Lemma drain_ok n m : mailbox_ok q n m -> mailbox_ok q n (drain m).2.
Proof.
  intros [? ? Hnd Hr Hp ? He Hdis]. unfold drain. cbn [ready].
  destruct (drain_peers (mReady m) (m <| mCommands := [] |> <| mReady := [] |>) Hnd) as [H1 H2]. cbv zeta in *.
  set (m' := fold_left _ (mReady m) _) in *. change (mPeers (update _ _ (update _ _ m))) with (mPeers m) in H1.
  assert (Hin : forall id p, mPeers m' !! id = Some p -> exists p0, mPeers m !! id = Some p0 /\
    epoch p = epoch p0 /\ listed p = false /\ (forall n, peer_ok q n p0 -> peer_ok q n p)).
  { intros id p Hid. rewrite H1 in Hid. case_decide as Hd.
    - destruct (mPeers m !! id) as [p0|] eqn:E; [|done]. injection Hid as <-. exists p0. split_and!; try done.
      by intros ? [].
    - exists p. split_and!; try done. destruct (listed p) eqn:El; [|done]. destruct Hd. apply Hr. by exists p. }
  rewrite H2. split; cbn; try done.
  - intros [?|?]; done.
  - constructor.
  - intros id. split; [set_solver|]. intros (p & Hid & Hl). destruct (Hin _ _ Hid) as (? & _ & _ & ? & _). congruence.
  - intros id p Hid. destruct (Hin _ _ Hid) as (p0 & E & _ & _ & Hk). apply Hk. by apply (Hp id).
  - intros id p Hid. destruct (Hin _ _ Hid) as (p0 & E & -> & _). by apply (He id).
  - intros x y px py Hx Hy E. destruct (Hin _ _ Hx) as (p0 & Ex & E1 & _), (Hin _ _ Hy) as (p1 & Ey & E2 & _).
    apply (Hdis x y p0 p1); congruence.
Qed.

Lemma notify_ok n m : mailbox_ok q n m -> mailbox_ok q n (notifyAll m).
Proof. intros []. by split. Qed.

Lemma sessions_ok n m f : mailbox_ok q n m -> mailbox_ok q n (m <| mSessions ::= f |>).
Proof. intros []. by split. Qed.

(** A push that is [Queued] is one that fits. *)
Lemma push_cases id l mail t m :
  match (push id l mail t m).1 with
  | PushReturns Queued => exists p, mPeers m !! id = Some p /\ zlen (mailBody mail) <= maxPayload l /\ isSealed p = false /\
      (l <> Media -> hasRoom m p l (zlen (mailBody mail)) = true) /\
      (push id l mail t m).2 = enqueueAndRing id p l mail m
  | _ => (push id l mail t m).2 = m
  end.
Proof.
  unfold push. destruct (Z.ltb_spec (maxPayload l) (zlen (mailBody mail))); [done|]. destruct (mRunning m); [cbn [negb]|done].
  destruct (mPeers m !! id) as [p|]; [|done]. destruct (isSealed p) eqn:Es; [done|].
  destruct (negb (bool_decide (l = Media)) && negb (hasRoom m p l (zlen (mailBody mail)))) eqn:Er.
  - by destruct (t <=? 0).
  - cbn [fst snd]. exists p. split_and!; try done. intros Hl. rewrite bool_decide_eq_false_2 in Er by done.
    cbn in Er. by apply negb_false_iff in Er.
Qed.

Lemma resume_cases w m :
  match (pushResume w m).1 with
  | Queued => exists p, mPeers m !! pwPeer w = Some p /\ isSealed p = false /\ epoch p = pwEpoch w /\
      hasRoom m p (pwLane w) (zlen (mailBody (pwMail w))) = true /\
      (pushResume w m).2 = enqueueAndRing (pwPeer w) p (pwLane w) (pwMail w) m
  | _ => (pushResume w m).2 = m
  end.
Proof.
  unfold pushResume, pushGone. destruct (mPeers m !! pwPeer w) as [p|]; [|done].
  destruct (Z.eqb_spec (epoch p) (pwEpoch w)) as [Ee|]; cbn [negb orb]; [|done].
  destruct (isSealed p) eqn:Es; [done|]. destruct (mRunning m); cbn [negb]; [|done].
  destruct (hasRoom m p _ _) eqn:Er; [|done]. cbn [negb fst snd]. by exists p.
Qed.

Lemma enqueueAndRing_ok n id p l mail m :
  0 <= n < 2 ^ 64 - 1 -> mailbox_ok q n m -> mPeers m !! id = Some p -> fitting m p l mail ->
  mailbox_ok q (n + 1) (enqueueAndRing id p l mail m).
Proof.
  intros Hn Hok Hid Hf. unfold enqueueAndRing.
  pose proof (enqueue_keeps n id p l mail m Hn (mailbox_ok_mono n (n + 1) m ltac:(lia) Hok) Hid (mo_peers _ _ _ Hok _ _ Hid) Hf) as H.
  destruct (enqueue id p l mail m) as [r m']. by apply ring_ok.
Qed.

Lemma take_ok n id l m : mailbox_ok q n m -> mailbox_ok q n (take id l m).2.
Proof.
  intros Hok. unfold take. destruct (mPeers m !! id) as [p|] eqn:E; [|done].
  destruct (queue (lanes p l)) as [|mail rest] eqn:El; [done|]. apply notify_ok, (set_peer_ok n m id p); try done.
  destruct (mo_peers _ _ _ Hok _ _ E) as [Hl Hc Hn Hw Hs].
  destruct (queue_ok_tail q l (lanes p l) mail rest Hq (Hl l) El) as [Ht _].
  set (lq := mkQueue rest _) in *.
  assert (Hlanes : forall l', lanes (setLane l lq p) l' = if decide (l' = l) then lq else lanes p l') by done.
  assert (Hsub : forall l', zlen (queue (lanes (setLane l lq p) l')) <= zlen (queue (lanes p l')) /\
    (queue (lanes p l') = [] -> queue (lanes (setLane l lq p) l') = [])).
  { intros l'. rewrite Hlanes. case_decide as D; [|done]. subst l'. rewrite El. cbn [queue lq]. rewrite zlen_cons.
    split; [lia|done]. }
  split; try done.
  - intros l'. rewrite Hlanes. case_decide as D; [by subst|apply Hl].
  - by apply Hsub.
  - cbn [done_ accepted]. unfold waitingMails in *. pose proof (proj1 (Hsub Reliable)). pose proof (proj1 (Hsub Bulk)).
    change (done_ (setLane l lq p)) with (done_ p). change (accepted (setLane l lq p)) with (accepted p). lia.
  - intros H. by apply Hsub, Hs.
Qed.

Lemma settle_ok n id m : mailbox_ok q n m -> mailbox_ok q n (settle id m).2.
Proof.
  intros Hok. unfold settle. destruct (mPeers m !! id) as [p|] eqn:E; [|done].
  destruct (existsb _ _) eqn:Ee; [done|]. destruct (done_ p =? accepted p); [done|].
  apply notify_ok, (set_peer_ok n m id p); try done. destruct (mo_peers _ _ _ Hok _ _ E) as [Hl Hc Hn Hw Hs].
  cbn [existsb] in Ee. bool_prop. split; try done.
  - cbn. pose proof (zlen_nonneg (queue (lanes p Reliable))). pose proof (zlen_nonneg (queue (lanes p Bulk))).
    unfold waitingMails in Hw. lia.
  - cbn [done_ accepted update]. unfold waitingMails. change (lanes (p <| done_ := accepted p |>)) with (lanes p).
    repeat match goal with H : queue _ = [] |- _ => rewrite H end. change (zlen (@nil Mail)) with 0. cbn. lia.
Qed.

Lemma seal_ok n id m : mailbox_ok q n m -> mailbox_ok q n (seal id m).
Proof.
  intros Hok. unfold seal. destruct (mPeers m !! id) as [p|] eqn:E; [|done]. apply notify_ok, sessions_ok, (set_peer_ok n m id p); try done.
  destruct (mo_peers _ _ _ Hok _ _ E) as [Hl Hc Hn Hw Hs]. split; try done.
  intros l. cbn. case_decide as D; [|apply Hl]. subst l. split; cbn; [done|constructor|done].
Qed.

Lemma open_ok n id m : 0 <= n < 2 ^ 64 - 1 -> mailbox_ok q n m -> mPeers m !! id = None -> mailbox_ok q (n + 1) (open id m).
Proof.
  intros Hn Hok Hid. destruct (mailbox_ok_mono n (n + 1) m ltac:(lia) Hok) as [? ? Hnd Hr Hp Hep He Hdis].
  pose proof (mo_epochs _ _ _ Hok) as Hb. assert (Hw : wrap 64 (mEpochs m + 1) = mEpochs m + 1) by (apply wrap_small; unfold is_uint; lia).
  assert (Hlook : forall x, mPeers (open id m) !! x = if decide (x = id) then Some (newPeer <| epoch := mEpochs m + 1 |>) else mPeers m !! x).
  { intros x. unfold open. cbn. rewrite Hw. case_decide as D; [subst; apply lookup_insert_eq|]. by rewrite !lookup_insert_ne. }
  split; try done.
  - intros x. change (mReady (open id m)) with (mReady m). rewrite Hr, Hlook. case_decide as D; [|done]. subst x. rewrite Hid.
    split; [by intros (? & ? & _)|]. by intros (p & [= <-] & ?).
  - intros x p. rewrite Hlook. case_decide as D; [|by apply Hp]. intros [= <-]. split; cbn; try done; [|lia].
    intros l. split; cbn; [done|constructor|]. case_decide; [done|]. right. done.
  - change (mEpochs (open id m)) with (wrap 64 (mEpochs m + 1)). lia.
  - change (mEpochs (open id m)) with (wrap 64 (mEpochs m + 1)). rewrite Hw. intros x p. rewrite Hlook. case_decide as D.
    + intros [= <-]. cbn. lia.
    + intros Hx. specialize (He x p Hx). lia.
  - intros x y px py. rewrite !Hlook. case_decide as Dx; case_decide as Dy; subst; try done.
    + intros [= <-] Hy. specialize (He _ _ Hy). cbn. lia.
    + intros Hx [= <-]. specialize (He _ _ Hx). cbn. lia.
    + apply Hdis.
Qed.

Lemma close_ok n id m : mailbox_ok q n m -> mailbox_ok q n (close id m).
Proof.
  intros [? Hsig Hnd Hr Hp ? He Hdis]. apply notify_ok. split; cbn; try done.
  - intros [H|H]; apply Hsig; [by left|]. right. intros E. by rewrite E in H.
  - by apply NoDup_filter.
  - intros x. rewrite list_elem_of_filter, Hr. destruct (decide (x = id)) as [->|Hne].
    + rewrite lookup_delete_eq. split; [by intros [? _]|]. by intros (? & ? & _).
    + rewrite lookup_delete_ne by done. naive_solver.
  - intros x p [_ Hx]%lookup_delete_Some. by apply (Hp x).
  - intros x p [_ Hx]%lookup_delete_Some. by apply (He x).
  - intros x y px py [_ Hx]%lookup_delete_Some [_ Hy]%lookup_delete_Some. by apply Hdis.
Qed.

Lemma stats_ok n id st m : mailbox_ok q n m -> mailbox_ok q n (publishStats id st m).
Proof.
  intros Hok. unfold publishStats. destruct (mPeers m !! id) as [p|] eqn:E; [|done]. apply (set_peer_ok n m id p); try done.
  by destruct (mo_peers _ _ _ Hok _ _ E).
Qed.

Lemma perform_ok n a m : 0 <= n < 2 ^ 64 - 1 -> mailbox_ok q n m -> allowed a m -> mailbox_ok q (n + 1) (perform a m).
Proof.
  intros Hn Hok Ha. pose proof (mailbox_ok_mono n (n + 1) m ltac:(lia) Hok) as Hok'.
  destruct a; cbn [perform]; try (by apply (mailbox_ok_mono n); [lia|]; eauto using seal_ok, drain_ok, take_ok, settle_ok, close_ok, stats_ok).
  - unfold post. apply ring_ok. destruct Hok'. split; cbn; done.
  - pose proof (push_cases id l mail timeout m) as H. destruct (push id l mail timeout m) as [[[]|] m']; cbn [fst snd] in *; try (by subst).
    destruct H as (p & Hid & Hs & Hse & Hr & ->). by apply enqueueAndRing_ok.
  - pose proof (resume_cases w m) as H. destruct (pushResume w m) as [[] m']; cbn [fst snd] in *; try (by subst).
    destruct H as (p & Hid & Hse & _ & Hr & ->), Ha as (? & ? & ?). by apply enqueueAndRing_ok.
  - unfold pushToAll. destruct (Z.ltb_spec (maxPayload l) (zlen (mailBody mail))); [done|]. destruct (mRunning m); cbn [negb]; [|done].
    pose proof (pushOne_ok n l mail (keysOf (mPeers m)) 0 false m Hn (NoDup_keysOf _) Ha ltac:(lia) Hok') as Hall.
    destruct (fold_left _ _ _) as [[t r] m']. cbn [snd] in *. apply ring_ok, Hall. intros x p _ Hx. by apply (mo_peers _ _ _ Hok x).
  - destruct Hok'. split; cbn; done.
  - by apply open_ok.
  - destruct Hok'. split; cbn; done.
  - destruct Hok'. split; cbn; done.
Qed.

Lemma start_ok : mailbox_ok q 0 (setQueueBytes q newMailbox).
Proof.
  split; cbn; try done; try lia; first [by intros [?|?] | by constructor | intros id].
  split; [set_solver|]. intros (p & H & _). by rewrite lookup_empty in H.
Qed.

Lemma run_ok n m pushed taken : run q n m pushed taken -> Z.of_nat n < 2 ^ 64 -> mailbox_ok q (Z.of_nat n) m.
Proof.
  induction 1 as [|n m pushed taken a Hr IH Ha]; intros Hn; [apply start_ok|].
  rewrite Nat2Z.inj_succ, <- Z.add_1_r. apply perform_ok; [lia|apply IH; lia|done].
Qed.
End Invariant.
