(* ===== verification/MailboxPromises.v ===== *)
(** * What the mailbox promises

    To those who push: order, limits and an honest answer.  To those who wait: that they are
    woken.  To the I/O thread: that the doorbell rings. *)
From S2P Require Import Prelude Constants PacketFlags OrderedMap Discovery Mailbox MailboxRuns.
Import Box.

#[local] Arguments onLane : simpl never.

Lemma onLane_one id l x :
  onLane id l [x] = if decide (x.1 = (id, l)) then [x.2] else [].
Proof. unfold onLane. rewrite filter_cons. by case_decide. Qed.

Lemma onLane_all id l l' mail ids : NoDup ids ->
  onLane id l ((fun x => (x, l', mail)) <$> ids) = if decide (l' = l /\ id ∈ ids) then [mail] else [].
Proof.
  induction 1 as [|x ids Hx Hnd IH]; [by rewrite decide_False by set_solver|]. rewrite fmap_cons. unfold onLane in *. rewrite filter_cons.
  cbn [fst snd]. destruct (decide ((x, l') = (id, l))) as [[= -> ->]|Hne].
  - rewrite fmap_cons, IH. rewrite decide_False by naive_solver. by rewrite decide_True by set_solver.
  - rewrite IH. apply decide_ext. set_solver.
Qed.

Lemma trimmed_queue l lq : exists d, queue lq = d ++ queue (trimmed l lq) /\ (l <> Media -> d = []).
Proof.
  unfold trimmed. destruct (queue lq) as [|x r] eqn:E; [by exists []; rewrite E|].
  destruct (decide (l = Media)); [|by exists []; rewrite E].
  destruct (_ <=? _); [by exists [x]|by exists []; rewrite E].
Qed.

(** What happened to one lane of one peer in a step. *)
Definition lane_step (p p' : Peer) (l : Lane) (pushed taken : list Mail) : Prop :=
  exists d, queue (lanes p l) ++ pushed = d ++ taken ++ queue (lanes p' l) /\ (l <> Media -> d = []).

Lemma lane_same p p' l : queue (lanes p' l) = queue (lanes p l) -> lane_step p p' l [] [].
Proof. intros E. exists []. by rewrite app_nil_r, E. Qed.

Lemma enqueued_lane id p l mail m m' p' l' :
  enqueued id p l mail m m' p' -> lane_step p p' l' (if decide (l = l') then [mail] else []) [].
Proof.
  intros [_ El Eo _ _ _ _ _]. case_decide as D.
  - subst l'. destruct (trimmed_queue l (lanes p l)) as (d & E & Hd). exists d. rewrite El, E. cbn [queue].
    by rewrite <- app_assoc.
  - apply lane_same. by rewrite Eo.
Qed.

Lemma enqueueAndRing_lookup id p l mail m x : exists p' m', enqueued id p l mail m m' p' /\
  mPeers (enqueueAndRing id p l mail m) !! x = if decide (x = id) then Some p' else mPeers m !! x.
Proof.
  unfold enqueueAndRing. destruct (enqueue_spec id p l mail m) as [_ (p' & He)]. exists p', (enqueue id p l mail m).2.
  split; [done|]. pose proof (en_box _ _ _ _ _ _ _ He) as Em. destruct (enqueue id p l mail m) as [r m1]. cbn [snd] in Em.
  assert (E : mPeers (ringIf r m1) = mPeers m1) by by destruct r. rewrite E, Em. cbn.
  case_decide as D; [subst; apply lookup_insert_eq|by rewrite lookup_insert_ne].
Qed.

Section Steps.
Context (q n : Z) (m : Mailbox) (Hok : mailbox_ok q n m).

Definition stepped (id : PeerId) (p' : Peer) (pushed taken : Lane -> list Mail) : Prop :=
  exists p, mPeers m !! id = Some p /\ epoch p' = epoch p /\ forall l, lane_step p p' l (pushed l) (taken l).

Lemma stepped_same id p' : mPeers m !! id = Some p' -> stepped id p' (fun _ => []) (fun _ => []).
Proof. intros E. exists p'. split_and!; try done. intros l. by apply lane_same. Qed.

Lemma pushing_step id p l mail x p' :
  mPeers m !! id = Some p -> mPeers (enqueueAndRing id p l mail m) !! x = Some p' ->
  stepped x p' (fun l' => onLane x l' [(id, l, mail)]) (fun _ => []).
Proof.
  intros Hid. destruct (enqueueAndRing_lookup id p l mail m x) as (p1 & m1 & He & ->). case_decide as D.
  - subst x. intros [= <-]. exists p. split_and!; [done|apply He|]. intros l'. rewrite onLane_one. cbn [fst snd].
    pose proof (enqueued_lane id p l mail m m1 p1 l' He) as H. case_decide as D; case_decide as D'; naive_solver.
  - intros Hx. exists p'. split_and!; try done. intros l'. rewrite onLane_one. cbn [fst snd].
    rewrite decide_False by naive_solver. by apply lane_same.
Qed.

Lemma pushAll_step l mail x p' :
  mPeers (pushToAll l mail m).2 !! x = Some p' ->
  stepped x p' (fun l' => onLane x l' (pushedBy (PushAll l mail) m)) (fun _ => []).
Proof.
  unfold pushToAll. cbn [pushedBy]. destruct (_ <? _); [apply stepped_same|]. destruct (mRunning m); [|apply stepped_same].
  cbn [negb orb]. destruct (pushOne_all l mail m (keysOf (mPeers m)) 0 false m (NoDup_keysOf _) eq_refl ltac:(done)) as [Hpa _].
  destruct (fold_left _ _ _) as [[t r] m']. cbn [fst snd] in *.
  assert (E : mPeers (ringIf r m') = mPeers m') by by destruct r. rewrite E. clear E.
  assert (Hnd : NoDup (takers l mail m)) by apply NoDup_filter, NoDup_keysOf.
  assert (Hin : x ∈ takers l mail m <-> isTaker l mail m x = true).
  { unfold takers. rewrite list_elem_of_filter, elem_of_keysOf. unfold isTaker. destruct (mPeers m !! x) eqn:E; [|naive_solver].
    rewrite is_Some_alt. naive_solver. }
  intros Hx. destruct (isTaker l mail m x) eqn:Et.
  - destruct (pa_taker _ _ _ _ _ _ _ _ Hpa x) as (p & p1 & m1 & m2 & Hp & Hp1 & He); [|done|].
    { apply elem_of_keysOf. unfold isTaker in Et. destruct (mPeers m !! x); [by eexists|done]. }
    rewrite Hx in Hp1. injection Hp1 as <-. exists p. split_and!; [done|apply He|]. intros l'. rewrite onLane_all by done.
    pose proof (enqueued_lane x p l mail m1 m2 p' l' He) as H. case_decide as D; case_decide as D'; naive_solver.
  - rewrite (pa_other _ _ _ _ _ _ _ _ Hpa) in Hx by (by intros [_ ?]; congruence). exists p'. split_and!; try done.
    intros l'. rewrite onLane_all by done. rewrite decide_False by naive_solver. by apply lane_same.
Qed.

Lemma take_step id l x p' :
  mPeers (take id l m).2 !! x = Some p' -> stepped x p' (fun _ => []) (fun l' => onLane x l' (takenBy (Take id l) m)).
Proof.
  cbn [takenBy]. unfold take. destruct (mPeers m !! id) as [p|] eqn:E; [|apply stepped_same].
  destruct (queue (lanes p l)) as [|mail rest] eqn:El; [apply stepped_same|]. cbn.
  destruct (decide (x = id)) as [->|Hne].
  - rewrite lookup_insert_eq. intros [= <-]. exists p. split_and!; try done. intros l'. rewrite onLane_one. cbn [fst snd].
    exists []. rewrite app_nil_r. split; [|done]. cbn. destruct (decide (l' = l)) as [->|D].
    + rewrite decide_True by done. by rewrite El.
    + by rewrite decide_False by naive_solver.
  - rewrite lookup_insert_ne by done. intros Hx. exists p'. split_and!; try done. intros l'. rewrite onLane_one. cbn [fst snd].
    rewrite decide_False by naive_solver. by apply lane_same.
Qed.

(** A change of one peer that leaves its acknowledged lanes alone. *)
Lemma set_step id p p1 x p' :
  mPeers m !! id = Some p -> epoch p1 = epoch p -> (forall l, l <> Media -> lanes p1 l = lanes p l) ->
  (lanes p1 Media = lanes p Media \/ queue (lanes p1 Media) = []) ->
  <[id := p1]> (mPeers m) !! x = Some p' -> stepped x p' (fun _ => []) (fun _ => []).
Proof.
  intros Hid Ee Hl Hm [[<- <-]|[Hne Hx]]%lookup_insert_Some; [|by apply stepped_same].
  exists p. split_and!; try done. intros l. destruct (decide (l = Media)) as [->|D]; [|apply lane_same; by rewrite Hl].
  destruct Hm as [E|E]; [apply lane_same; by rewrite E|]. exists (queue (lanes p Media)). by rewrite E, !app_nil_r.
Qed.

Lemma perform_lane a id p' :
  a <> Open id -> mPeers (perform a m) !! id = Some p' ->
  stepped id p' (fun l => onLane id l (pushedBy a m)) (fun l => onLane id l (takenBy a m)).
Proof.
  intros Ha. destruct a; cbn [perform pushedBy takenBy]; try apply stepped_same.
  - unfold post. destruct (negb _); apply stepped_same.
  - pose proof (push_cases id0 l mail timeout m) as H. destruct (push id0 l mail timeout m) as [[[]|] m'];
      cbn [fst snd] in *; try (subst; apply stepped_same). destruct H as (p & Hid & _ & _ & _ & ->). by apply pushing_step.
  - pose proof (resume_cases w m) as H. destruct (pushResume w m) as [[] m']; cbn [fst snd] in *; try (subst; apply stepped_same).
    destruct H as (p & Hid & _ & _ & _ & ->). by apply pushing_step.
  - apply pushAll_step.
  - unfold seal. destruct (mPeers m !! id0) as [p|] eqn:E; [|apply stepped_same]. cbn.
    apply (set_step id0 p); try done; [|by right]. intros l Hl. cbn. by rewrite decide_False.
  - unfold drain. cbn [snd]. destruct (drain_peers (mReady m) (m <| mCommands := [] |> <| mReady := [] |>)) as [H1 _].
    { apply (mo_nodup _ _ _ Hok). }
    cbv zeta in H1. change (mPeers (update mSignalled _ ?x)) with (mPeers x). cbn [ready]. rewrite H1. cbn.
    case_decide; [|apply stepped_same]. destruct (mPeers m !! id) as [p|] eqn:E; [|done]. intros [= <-].
    exists p. split_and!; try done. intros l. by apply lane_same.
  - apply take_step.
  - unfold settle. destruct (mPeers m !! id0) as [p|] eqn:E; [|apply stepped_same]. destruct (existsb _ _); [apply stepped_same|].
    destruct (_ =? _); [apply stepped_same|]. cbn. apply (set_step id0 p); try done. by left.
  - unfold open. cbn. rewrite !lookup_insert_ne by congruence. apply stepped_same.
  - cbn. intros [_ Hx]%lookup_delete_Some. by apply stepped_same.
  - unfold publishStats. destruct (mPeers m !! id0) as [p|] eqn:E; [|apply stepped_same]. cbn. apply (set_step id0 p); try done. by left.
Qed.
End Steps.

(** ** Order *)
Lemma logOf_other a by_ log id l : a <> Open id -> logOf a by_ log id l = log id l ++ onLane id l by_.
Proof.
  intros H. unfold logOf. destruct a; try done. by rewrite decide_False by congruence.
Qed.

Lemma logOf_open id by_ log l : logOf (Open id) by_ log id l = [].
Proof. unfold logOf. by rewrite decide_True. Qed.

(** The lane of a peer and its logs. *)
Record in_order (l : Lane) (p : Peer) (pushed taken : list Mail) : Prop := {
  io_suffix : queue (lanes p l) `suffix_of` pushed;
  io_sublist : taken ++ queue (lanes p l) `sublist_of` pushed;
  io_exact : l <> Media -> pushed = taken ++ queue (lanes p l);
}.

Lemma in_order_step l p p' P T pu ta : in_order l p P T -> lane_step p p' l pu ta -> in_order l p' (P ++ pu) (T ++ ta).
Proof.
  intros [Hs Hu He] (d & E & Hd). split.
  - destruct Hs as [k ->]. exists (k ++ d ++ ta). rewrite <- !app_assoc. by rewrite E.
  - rewrite <- app_assoc. trans (T ++ d ++ ta ++ queue (lanes p' l)).
    + apply sublist_app; [done|]. by apply sublist_inserts_l.
    + rewrite <- E, app_assoc. by apply sublist_app.
  - intros Hl. rewrite (He Hl), <- !app_assoc, E, (Hd Hl). done.
Qed.

Lemma run_order q n m P T : 0 <= q <= 2 ^ 63 -> run q n m P T -> Z.of_nat n < 2 ^ 64 ->
  forall id p l, mPeers m !! id = Some p -> in_order l p (P id l) (T id l).
Proof.
  intros Hq. induction 1 as [|n m P T a Hr IH Ha]; intros Hn id p l Hid.
  { cbn in Hid. by apply lookup_empty_Some in Hid. }
  pose proof (run_ok q Hq n m P T Hr ltac:(lia)) as Hok.
  assert (Hdec : a = Open id \/ a <> Open id).
  { destruct a; try (by right). destruct (decide (id0 = id)) as [->|]; [by left|right; congruence]. }
  destruct Hdec as [->|Hne].
  - rewrite !logOf_open. cbn in Hid. rewrite lookup_insert_eq in Hid. injection Hid as <-. split; cbn; done.
  - rewrite !logOf_other by done. destruct (perform_lane q _ m Hok a id p Hne Hid) as (p0 & E & _ & Hl).
    apply (in_order_step l p0); [|apply Hl]. apply IH; [lia|done].
Qed.

(** ** Waking up *)

(** Nothing that a thread can wait for has come about. *)
Record calm (m m' : Mailbox) : Prop := {
  ca_running : mRunning m' = mRunning m;
  ca_peers : forall id p, mPeers m !! id = Some p -> exists p', mPeers m' !! id = Some p' /\
    epoch p' = epoch p /\ isSealed p' = isSealed p /\ done_ p' = done_ p /\
    forall l size, l <> Media -> 0 <= size <= maxPayload l -> hasRoom m' p' l size = true -> hasRoom m p l size = true;
}.

Lemma calm_push m m' w : calm m m' -> pwLane w <> Media -> zlen (mailBody (pwMail w)) <= maxPayload (pwLane w) ->
  pushReady w m' = true -> pushReady w m = true.
Proof.
  intros [Hr Hp] Hl Hs. unfold pushReady, pushGone, pushHasRoom. rewrite Hr. destruct (mRunning m); [|done]. cbn [negb orb].
  destruct (mPeers m !! pwPeer w) as [p|] eqn:E; [|done]. destruct (Hp _ _ E) as (p' & -> & -> & -> & _ & Hroom).
  intros [H|H]%orb_true_iff; [by rewrite H|]. rewrite (Hroom _ _ Hl) in *; [by rewrite orb_true_r| |done].
  split; [apply zlen_nonneg|done].
Qed.

Lemma calm_flush m m' w : calm m m' -> flushReady w m' = true -> flushReady w m = true.
Proof.
  intros [Hr Hp]. unfold flushReady, flushDone. rewrite Hr. destruct (mRunning m); [|done]. cbn [negb orb].
  destruct (mPeers m !! fwPeer w) as [p|] eqn:E; [|done]. by destruct (Hp _ _ E) as (p' & -> & -> & _ & -> & _).
Qed.

Lemma calm_peers m m' : mRunning m' = mRunning m -> mPeers m' = mPeers m -> mQueueBytes m' = mQueueBytes m -> calm m m'.
Proof. intros E1 E2 E3. split; [done|]. intros id p Hid. exists p. rewrite E2. split_and!; try done. unfold hasRoom. by rewrite E3. Qed.

Section Calm.
Context (q n : Z) (m : Mailbox) (Hq : 0 <= q <= 2 ^ 63) (Hn : 0 <= n < 2 ^ 64 - 1) (Hok : mailbox_ok q n m).

(** A message more makes no room. *)
Lemma enqueued_room id p l mail m0 m1 m' p' l' size :
  mQueueBytes m' = q -> peer_ok q n p -> peer_ok q (n + 1) p' -> enqueued id p l mail m0 m1 p' ->
  l' <> Media -> 0 <= size <= maxPayload l' -> hasRoom m' p' l' size = true -> hasRoom m p l' size = true.
Proof.
  intros Em Hp Hp' He Hl Hs H. destruct (enqueued_lane _ _ _ _ _ _ _ l' He) as (d & E & Hd). rewrite (Hd Hl) in E. cbn in E.
  set (pu := if decide (l = l') then _ else _) in E. pose proof (po_lanes _ _ _ Hp l') as Ho. pose proof (po_lanes _ _ _ Hp' l') as Ho'.
  assert (Hb : queueBytes (lanes p l') <= queueBytes (lanes p' l')).
  { rewrite (qo_bytes _ _ _ Ho), (qo_bytes _ _ _ Ho'), <- E, totalBytes_app. pose proof (totalBytes_nonneg pu). lia. }
  pose proof (queue_ok_bytes q l' _ Hq Ho). pose proof (maxPayload_bounds l'). unfold MaxMessagePayload in *.
  unfold hasRoom. destruct (hasRoom_true q Hq m' p' l' size Em Ho' Hs H) as [E'|Hle].
  - rewrite E' in E. apply app_nil in E as [-> _]. by rewrite bool_decide_eq_true_2.
  - rewrite (mo_limit _ _ _ Hok), wrap_small by (unfold is_uint; lia). apply orb_true_iff. right. apply Z.leb_le. lia.
Qed.

(** A peer of [m'] that got a message, or none. *)
Lemma calm_enqueued m' :
  mailbox_ok q (n + 1) m' -> mRunning m' = mRunning m ->
  (forall id p, mPeers m !! id = Some p -> mPeers m' !! id = Some p \/
     exists l mail m0 m1 p', mPeers m' !! id = Some p' /\ enqueued id p l mail m0 m1 p') -> calm m m'.
Proof.
  intros Hok' Er H. split; [done|]. intros id p Hid. destruct (H id p Hid) as [E|(l & mail & m0 & m1 & p' & E & He)].
  - exists p. split_and!; try done. intros l size _ _. unfold hasRoom. by rewrite (mo_limit _ _ _ Hok), (mo_limit _ _ _ Hok').
  - exists p'. split_and!; try done; [apply He..|]. intros l' size Hl Hs.
    apply (enqueued_room id p l mail m0 m1 m' p'); try done; [apply Hok'|by apply (mo_peers _ _ _ Hok id)|by apply (mo_peers _ _ _ Hok' id)].
Qed.

Lemma enqueueAndRing_running id p l mail :
  mRunning (enqueueAndRing id p l mail m) = mRunning m.
Proof.
  unfold enqueueAndRing. destruct (enqueue_spec id p l mail m) as [_ (p' & He)].
  pose proof (en_box _ _ _ _ _ _ _ He) as Em. destruct (enqueue id p l mail m) as [[] m1]; cbn [snd] in Em; subst; done.
Qed.

Lemma pushing_calm id p l mail :
  mPeers m !! id = Some p -> mailbox_ok q (n + 1) (enqueueAndRing id p l mail m) -> calm m (enqueueAndRing id p l mail m).
Proof.
  intros Hid Hok'. apply calm_enqueued; [done|apply enqueueAndRing_running|]. intros x px Hx.
  destruct (enqueueAndRing_lookup id p l mail m x) as (p' & m' & He & ->). case_decide as D; [|by left].
  subst x. rewrite Hid in Hx. injection Hx as <-. right. by exists l, mail, m, m', p'.
Qed.

Lemma pushAll_calm l mail : mailbox_ok q (n + 1) (pushToAll l mail m).2 -> calm m (pushToAll l mail m).2.
Proof.
  intros Hok'. unfold pushToAll in *. destruct (_ <? _); [by apply calm_peers|]. destruct (mRunning m) eqn:Er; [|by apply calm_peers].
  cbn [negb] in *. destruct (pushOne_all l mail m (keysOf (mPeers m)) 0 false m (NoDup_keysOf _) eq_refl ltac:(done)) as [Hpa _].
  destruct (fold_left _ _ _) as [[t r] m']. cbn [fst snd] in *.
  assert (Em : mPeers (ringIf r m') = mPeers m' /\ mRunning (ringIf r m') = mRunning m') by by destruct r.
  destruct Em as [E1 E2]. apply calm_enqueued; [done|rewrite E2, (pa_running _ _ _ _ _ _ _ _ Hpa); done|].
  rewrite E1. intros x p Hx. destruct (isTaker l mail m x) eqn:Et.
  - destruct (pa_taker _ _ _ _ _ _ _ _ Hpa x) as (p0 & p1 & m1 & m2 & Hp & Hp1 & He); [|done|].
    { apply elem_of_keysOf. by eexists. }
    rewrite Hx in Hp. injection Hp as <-. right. by exists l, mail, m1, m2, p1.
  - left. rewrite (pa_other _ _ _ _ _ _ _ _ Hpa); [done|]. intros [_ ?]; congruence.
Qed.

(** Every step either notifies, or nothing came about that somebody waits for. *)
Lemma perform_calm a : allowed a m ->
  mChanged (perform a m) = mChanged m + 1 \/ calm m (perform a m).
Proof.
  intros Ha. pose proof (perform_ok q Hq n a m Hn Hok Ha) as Hok'.
  destruct a; cbn [perform] in *; try (by right; apply calm_peers); try (by left).
  - right. unfold post. destruct (negb _); by apply calm_peers.
  - right. pose proof (push_cases id l mail timeout m) as H. destruct (push id l mail timeout m) as [[[]|] m'];
      cbn [fst snd] in *; try (subst; by apply calm_peers). destruct H as (p & Hid & _ & _ & _ & ->). by apply pushing_calm.
  - right. pose proof (resume_cases w m) as H. destruct (pushResume w m) as [[] m']; cbn [fst snd] in *; try (subst; by apply calm_peers).
    destruct H as (p & Hid & _ & _ & _ & ->). by apply pushing_calm.
  - right. by apply pushAll_calm.
  - unfold seal. destruct (mPeers m !! id); [by left|by right; apply calm_peers].
  - right. unfold drain in *. cbn [snd] in *. destruct (drain_peers (mReady m) (m <| mCommands := [] |> <| mReady := [] |>)) as [H1 H2].
    { apply (mo_nodup _ _ _ Hok). }
    cbv zeta in H1, H2. cbn [ready]. split; [by rewrite H2|]. intros x p Hx.
    change (mPeers (update mSignalled _ ?y)) with (mPeers y). rewrite H1. cbn. rewrite Hx. cbn.
    exists (if decide (x ∈ mReady m) then p <| listed := false |> else p).
    assert (Eq : mQueueBytes (update mSignalled (fun _ => false) (fold_left (fun m id => match mPeers m !! id with
       | Some p => m <| mPeers ::= <[id := p <| listed := false |>]> |> | None => m end) (mReady m)
       (m <| mCommands := [] |> <| mReady := [] |>))) = mQueueBytes m) by (by rewrite H2).
    unfold hasRoom. rewrite Eq. by case_decide.
  - unfold take. destruct (mPeers m !! id) as [p|]; [|by right; apply calm_peers].
    destruct (queue (lanes p l)); [by right; apply calm_peers|by left].
  - unfold settle. destruct (mPeers m !! id) as [p|]; [|by right; apply calm_peers].
    destruct (existsb _ _); [by right; apply calm_peers|]. destruct (_ =? _); [by right; apply calm_peers|by left].
  - right. split; [done|]. intros x p Hx. exists p. cbn in *. destruct (decide (x = id)) as [->|Hne]; [congruence|].
    rewrite !lookup_insert_ne by done. split_and!; done.
  - right. unfold publishStats. destruct (mPeers m !! id) as [p|] eqn:E; [|by apply calm_peers]. split; [done|]. intros x px Hx.
    cbn. destruct (decide (x = id)) as [->|Hne]; [|rewrite lookup_insert_ne by done; exists px; split_and!; done].
    rewrite lookup_insert_eq. rewrite E in Hx. injection Hx as <-. eexists. split_and!; try done.
Qed.

(** ** The doorbell *)
Lemma enqueueAndRing_bell id p l mail :
  mSignalled (enqueueAndRing id p l mail m) = true /\
  mDoorbell (enqueueAndRing id p l mail m) = mDoorbell m + if mSignalled m then 0 else 1.
Proof.
  unfold enqueueAndRing. destruct (enqueue_spec id p l mail m) as [Er (p' & He)].
  pose proof (en_box _ _ _ _ _ _ _ He) as Em. destruct (enqueue id p l mail m) as [r m1]. cbn [fst snd] in *. subst.
  destruct (mSignalled m); cbn; split; done || lia.
Qed.

Lemma perform_bell a :
  mDoorbell (perform a m) = mDoorbell m + if negb (mSignalled m) && mSignalled (perform a m) then 1 else 0.
Proof.
  assert (Hsame : forall m', mDoorbell m' = mDoorbell m -> mSignalled m' = mSignalled m ->
    mDoorbell m' = mDoorbell m + if negb (mSignalled m) && mSignalled m' then 1 else 0).
  { intros m' -> ->. destruct (mSignalled m); cbn; lia. }
  destruct a; cbn [perform]; try (by apply Hsame).
  - unfold post. destruct (mSignalled m); cbn; lia.
  - pose proof (push_cases id l mail timeout m) as H. destruct (push id l mail timeout m) as [[[]|] m'];
      cbn [fst snd] in *; try (subst; by apply Hsame). destruct H as (p & Hid & _ & _ & _ & ->).
    destruct (enqueueAndRing_bell id p l mail) as [-> ->]. by destruct (mSignalled m).
  - pose proof (resume_cases w m) as H. destruct (pushResume w m) as [[] m']; cbn [fst snd] in *; try (subst; by apply Hsame).
    destruct H as (p & Hid & _ & _ & _ & ->). destruct (enqueueAndRing_bell (pwPeer w) p (pwLane w) (pwMail w)) as [-> ->].
    by destruct (mSignalled m).
  - unfold pushToAll. destruct (_ <? _); [by apply Hsame|]. destruct (mRunning m); [cbn [negb]|by apply Hsame].
    destruct (pushOne_all l mail m (keysOf (mPeers m)) 0 false m (NoDup_keysOf _) eq_refl ltac:(done)) as [Hpa _].
    destruct (fold_left _ _ _) as [[t r] m']. cbn [fst snd] in *. destruct Hpa as [_ _ _ _ Hb _ Hs Hr _ _]. subst r.
    destruct (mSignalled m) eqn:Em; cbn [negb andb orb] in *; [cbn; rewrite Hb; lia|].
    destruct (existsb _ _); cbn; rewrite Hb, Hs; done || lia.
  - unfold seal. destruct (mPeers m !! id); by apply Hsame.
  - unfold drain. cbn [snd]. destruct (drain_peers (mReady m) (m <| mCommands := [] |> <| mReady := [] |>)) as [_ H2].
    { apply (mo_nodup _ _ _ Hok). }
    cbv zeta in H2. cbn [ready]. rewrite H2. cbn. rewrite andb_false_r. lia.
  - unfold take. destruct (mPeers m !! id) as [p|]; [|by apply Hsame]. destruct (queue (lanes p l)); by apply Hsame.
  - unfold settle. destruct (mPeers m !! id) as [p|]; [|by apply Hsame].
    destruct (existsb _ _); [by apply Hsame|]. destruct (_ =? _); by apply Hsame.
  - unfold publishStats. destruct (mPeers m !! id); by apply Hsame.
Qed.
End Calm.

(** ** Counting *)
Definition pushCount (id : PeerId) (log : list (PeerId * Lane * Mail)) : Z :=
  zlen (onLane id Reliable log) + zlen (onLane id Bulk log).

Section Counts.
Context (q n : Z) (m : Mailbox) (Hn : 0 <= n < 2 ^ 64 - 1) (Hok : mailbox_ok q n m).

Definition counted (id : PeerId) (p' : Peer) (c : Z) : Prop :=
  exists p, mPeers m !! id = Some p /\ accepted p' = accepted p + c /\
    (done_ p' = done_ p \/ (done_ p' = accepted p' /\ queue (lanes p' Reliable) = [] /\ queue (lanes p' Bulk) = [])).

Lemma counted_same id p' : mPeers m !! id = Some p' -> counted id p' 0.
Proof. intros E. exists p'. split; [done|]. split; [lia|by left]. Qed.

Lemma counted_set id p p1 x p' :
  mPeers m !! id = Some p -> accepted p1 = accepted p -> done_ p1 = done_ p ->
  <[id := p1]> (mPeers m) !! x = Some p' -> counted x p' 0.
Proof.
  intros Hid Ea Ed [[<- <-]|[_ Hx]]%lookup_insert_Some; [|by apply counted_same].
  exists p. split; [done|]. split; [lia|by left].
Qed.

Lemma pushCount_one id l mail : l <> Control ->
  pushCount id [(id, l, mail)] = if decide (l = Media) then 0 else 1.
Proof. intros Hl. unfold pushCount. rewrite !onLane_one. cbn [fst snd]. destruct l; repeat case_decide; simplify_eq; done. Qed.

Lemma pushCount_none id id' l mail : id <> id' -> pushCount id [(id', l, mail)] = 0.
Proof. intros Hne. unfold pushCount. rewrite !onLane_one. cbn [fst]. by rewrite !decide_False by congruence. Qed.

Lemma enqueued_count id p l mail m0 m1 p' : peer_ok q n p -> enqueued id p l mail m0 m1 p' ->
  accepted p' = accepted p + (if decide (l = Media) then 0 else 1).
Proof.
  intros Hp [_ _ _ -> _ _ _ _]. case_decide; [lia|]. destruct Hp as [_ _ [? ?] Hw _].
  pose proof (zlen_nonneg (queue (lanes p Reliable))). pose proof (zlen_nonneg (queue (lanes p Bulk))). unfold waitingMails in Hw.
  apply wrap_small. unfold is_uint. lia.
Qed.

Lemma pushing_count id p l mail x p' :
  l <> Control -> mPeers m !! id = Some p -> mPeers (enqueueAndRing id p l mail m) !! x = Some p' ->
  counted x p' (pushCount x [(id, l, mail)]).
Proof.
  intros Hl Hid. destruct (enqueueAndRing_lookup id p l mail m x) as (p1 & m1 & He & ->). case_decide as D.
  - subst x. intros [= <-]. rewrite pushCount_one by done. exists p. split; [done|]. split; [|left; apply He].
    eapply enqueued_count; [|done]. by apply (mo_peers _ _ _ Hok id).
  - intros Hx. rewrite pushCount_none by done. by apply counted_same.
Qed.

Lemma pushAll_count l mail x p' : l <> Control ->
  mPeers (pushToAll l mail m).2 !! x = Some p' -> counted x p' (pushCount x (pushedBy (PushAll l mail) m)).
Proof.
  intros Hl. unfold pushToAll. cbn [pushedBy]. destruct (_ <? _); [apply counted_same|]. destruct (mRunning m); [|apply counted_same].
  cbn [negb orb]. destruct (pushOne_all l mail m (keysOf (mPeers m)) 0 false m (NoDup_keysOf _) eq_refl ltac:(done)) as [Hpa _].
  destruct (fold_left _ _ _) as [[t r] m']. cbn [fst snd] in *.
  assert (E : mPeers (ringIf r m') = mPeers m') by by destruct r. rewrite E. clear E.
  assert (Hnd : NoDup (takers l mail m)) by apply NoDup_filter, NoDup_keysOf.
  assert (Hin : x ∈ takers l mail m <-> isTaker l mail m x = true).
  { unfold takers. rewrite list_elem_of_filter, elem_of_keysOf. unfold isTaker. destruct (mPeers m !! x) eqn:E; [|naive_solver].
    rewrite is_Some_alt. naive_solver. }
  intros Hx. unfold pushCount. rewrite !onLane_all by done. destruct (isTaker l mail m x) eqn:Et.
  - destruct (pa_taker _ _ _ _ _ _ _ _ Hpa x) as (p & p1 & m1 & m2 & Hp & Hp1 & He); [|done|].
    { apply elem_of_keysOf. unfold isTaker in Et. destruct (mPeers m !! x); [by eexists|done]. }
    rewrite Hx in Hp1. injection Hp1 as <-. exists p. split; [done|]. split; [|left; apply He].
    rewrite (enqueued_count x p l mail m1 m2 p' (mo_peers _ _ _ Hok x _ Hp) He). f_equal.
    assert (Hx' : x ∈ takers l mail m) by by apply Hin.
    clear - Hx' Hl. destruct l; repeat case_decide; try done; naive_solver.
  - rewrite (pa_other _ _ _ _ _ _ _ _ Hpa) in Hx by (by intros [_ ?]; congruence).
    rewrite !decide_False by naive_solver. by apply counted_same.
Qed.

Lemma perform_counted a id p' :
  allowed a m -> a <> Open id -> mPeers (perform a m) !! id = Some p' -> counted id p' (pushCount id (pushedBy a m)).
Proof.
  intros Hal Ha. destruct a; cbn [perform pushedBy allowed] in *; try apply counted_same.
  - unfold post. destruct (negb _); apply counted_same.
  - pose proof (push_cases id0 l mail timeout m) as H. destruct (push id0 l mail timeout m) as [[[]|] m'];
      cbn [fst snd] in *; try (subst; apply counted_same). destruct H as (p & Hid & _ & _ & _ & ->). by apply pushing_count.
  - pose proof (resume_cases w m) as H. destruct (pushResume w m) as [[] m']; cbn [fst snd] in *; try (subst; apply counted_same).
    destruct H as (p & Hid & _ & _ & _ & ->), Hal as (? & _ & _). by apply pushing_count.
  - by apply pushAll_count.
  - unfold seal. destruct (mPeers m !! id0) as [p|] eqn:E; [|apply counted_same]. by apply (counted_set id0 p).
  - unfold drain. cbn [snd]. destruct (drain_peers (mReady m) (m <| mCommands := [] |> <| mReady := [] |>)) as [H1 _].
    { apply (mo_nodup _ _ _ Hok). }
    cbv zeta in H1. change (mPeers (update mSignalled _ ?x)) with (mPeers x). cbn [ready]. rewrite H1. cbn.
    case_decide; [|apply counted_same]. destruct (mPeers m !! id) as [p|] eqn:E; [|done]. intros [= <-].
    exists p. split; [done|]. change (pushCount id []) with 0. split; [cbn; lia|by left].
  - unfold take. destruct (mPeers m !! id0) as [p|] eqn:E; [|apply counted_same].
    destruct (queue (lanes p l)); [apply counted_same|]. by apply (counted_set id0 p).
  - unfold settle. destruct (mPeers m !! id0) as [p|] eqn:E; [|apply counted_same]. destruct (existsb _ _) eqn:Ex; [apply counted_same|].
    destruct (_ =? _); [apply counted_same|]. cbn [existsb] in Ex. bool_prop. cbn.
    intros [[<- <-]|[_ Hx]]%lookup_insert_Some; [|by apply counted_same].
    exists p. split; [done|]. change (pushCount id0 []) with 0. split; [cbn; lia|]. right. done.
  - unfold open. cbn. rewrite !lookup_insert_ne by congruence. apply counted_same.
  - cbn. intros [_ Hx]%lookup_delete_Some. by apply counted_same.
  - unfold publishStats. destruct (mPeers m !! id0) as [p|] eqn:E; [|apply counted_same]. by apply (counted_set id0 p).
Qed.
End Counts.

(** ** Flushing *)

(** Every acknowledged message is counted, and [done_] counts the messages up to some point,
    all of which were taken. *)
Record settled_to (p : Peer) (P T : Lane -> list Mail) (a b : Z) : Prop := {
  se_accepted : accepted p = zlen (P Reliable) + zlen (P Bulk);
  se_done : done_ p = a + b;
  se_reliable : 0 <= a <= zlen (T Reliable);
  se_bulk : 0 <= b <= zlen (T Bulk);
}.

Lemma prefix_zlen {A} (l k : list A) : zlen l <= zlen (l ++ k).
Proof. rewrite zlen_app. pose proof (zlen_nonneg k). lia. Qed.

(** One step of a session that goes on. *)
Lemma settled_step q n m a id p p' P T x y :
  0 <= q <= 2 ^ 63 -> 0 <= n < 2 ^ 64 - 1 -> mailbox_ok q n m -> allowed a m -> a <> Open id ->
  mPeers m !! id = Some p -> mPeers (perform a m) !! id = Some p' ->
  (forall l, in_order l p' (P l ++ onLane id l (pushedBy a m)) (T l ++ onLane id l (takenBy a m))) ->
  settled_to p P T x y ->
  exists x' y', settled_to p' (fun l => P l ++ onLane id l (pushedBy a m)) (fun l => T l ++ onLane id l (takenBy a m)) x' y' /\
    ((x' = x /\ y' = y) \/ (zlen (P Reliable) <= x' /\ zlen (P Bulk) <= y')).
Proof.
  intros Hq Hn Hok Hal Ha Hp Hp' Hio [Ea Ed Hr Hb].
  destruct (perform_counted q n m Hn Hok a id p' Hal Ha Hp') as (p0 & Hp0 & Eacc & Hdone). rewrite Hp in Hp0. injection Hp0 as <-.
  assert (Eacc' : accepted p' = zlen (P Reliable ++ onLane id Reliable (pushedBy a m)) + zlen (P Bulk ++ onLane id Bulk (pushedBy a m))).
  { rewrite !zlen_app. unfold pushCount in Eacc. lia. }
  pose proof (prefix_zlen (T Reliable) (onLane id Reliable (takenBy a m))). pose proof (prefix_zlen (T Bulk) (onLane id Bulk (takenBy a m))).
  destruct Hdone as [E|(E & Er & Eb)].
  - exists x, y. split; [|by left]. split; [done|lia..].
  - exists (zlen (P Reliable ++ onLane id Reliable (pushedBy a m))), (zlen (P Bulk ++ onLane id Bulk (pushedBy a m))).
    pose proof (prefix_zlen (P Reliable) (onLane id Reliable (pushedBy a m))). pose proof (prefix_zlen (P Bulk) (onLane id Bulk (pushedBy a m))).
    pose proof (io_exact _ _ _ _ (Hio Reliable) ltac:(done)) as F1. pose proof (io_exact _ _ _ _ (Hio Bulk) ltac:(done)) as F2.
    rewrite Er, app_nil_r in F1. rewrite Eb, app_nil_r in F2.
    split; [|by right]. split; [done|by rewrite E, Eacc'|rewrite F1|rewrite F2]; (split; [apply zlen_nonneg|lia]).
Qed.

Lemma open_or_not a id : a = Open id \/ a <> Open id.
Proof. destruct a; try (by right). destruct (decide (id0 = id)) as [->|]; [by left|right; congruence]. Qed.

Lemma settled_ext p P P' T T' x y : (forall l, P' l = P l) -> (forall l, T' l = T l) -> settled_to p P T x y -> settled_to p P' T' x y.
Proof. intros EP ET []. split; rewrite ?EP, ?ET; done. Qed.

Lemma run_settled q n m P T : 0 <= q <= 2 ^ 63 -> run q n m P T -> Z.of_nat n < 2 ^ 64 ->
  forall id p, mPeers m !! id = Some p -> exists x y, settled_to p (P id) (T id) x y.
Proof.
  intros Hq. induction 1 as [|n m P T a Hr IH Ha]; intros Hn id p Hid.
  { cbn in Hid. by apply lookup_empty_Some in Hid. }
  pose proof (run_ok q Hq n m P T Hr ltac:(lia)) as Hok. destruct (open_or_not a id) as [->|Hne].
  - cbn in Hid. rewrite lookup_insert_eq in Hid. injection Hid as <-. exists 0, 0. split; rewrite ?logOf_open; done.
  - destruct (perform_lane q _ m Hok a id p Hne Hid) as (p0 & E & _).
    destruct (IH ltac:(lia) id p0 E) as (x & y & Hs).
    destruct (settled_step q (Z.of_nat n) m a id p0 p (P id) (T id) x y) as (x' & y' & Hs' & _); try done; [lia| |].
    + intros l. rewrite <- (logOf_other a (pushedBy a m) P id l Hne), <- (logOf_other a (takenBy a m) T id l Hne). apply (run_order q (S n) (perform a m) _ _ Hq (run_step q n m P T a Hr Ha) Hn id p l Hid).
    + exists x', y'. refine (settled_ext _ _ _ _ _ _ _ _ _ Hs'); intros l; exact (logOf_other a _ _ id l Hne).
Qed.

Lemma enqueueAndRing_epochs id p l mail m : mEpochs (enqueueAndRing id p l mail m) = mEpochs m.
Proof.
  unfold enqueueAndRing. destruct (enqueue_spec id p l mail m) as [_ (p' & He)].
  pose proof (en_box _ _ _ _ _ _ _ He) as Em. destruct (enqueue id p l mail m) as [[] m1]; cbn [snd] in Em; subst; done.
Qed.

Lemma perform_epochs a m : NoDup (mReady m) ->
  mEpochs (perform a m) = match a with Open _ => u64 (mEpochs m + 1) | _ => mEpochs m end.
Proof.
  intros Hnd. destruct a; cbn [perform]; try done.
  - unfold post. by destruct (negb _).
  - pose proof (push_cases id l mail timeout m) as H. destruct (push id l mail timeout m) as [[[]|] m']; cbn [fst snd] in *; try (by subst).
    destruct H as (p & Hid & _ & _ & _ & ->). apply enqueueAndRing_epochs.
  - pose proof (resume_cases w m) as H. destruct (pushResume w m) as [[] m']; cbn [fst snd] in *; try (by subst).
    destruct H as (p & Hid & _ & _ & _ & ->). apply enqueueAndRing_epochs.
  - unfold pushToAll. destruct (_ <? _); [done|]. destruct (mRunning m); [cbn [negb]|done].
    destruct (pushOne_all l mail m (keysOf (mPeers m)) 0 false m (NoDup_keysOf _) eq_refl ltac:(done)) as [Hpa _].
    destruct (fold_left _ _ _) as [[t r] m']. cbn [fst snd] in *. rewrite <- (pa_epochs _ _ _ _ _ _ _ _ Hpa). by destruct r.
  - unfold seal. by destruct (mPeers m !! id).
  - unfold drain. cbn [snd]. destruct (drain_peers (mReady m) (m <| mCommands := [] |> <| mReady := [] |>) Hnd) as [_ H2].
    cbv zeta in H2. cbn [ready]. by rewrite H2.
  - unfold take. destruct (mPeers m !! id) as [p|]; [|done]. by destruct (queue (lanes p l)).
  - unfold settle. destruct (mPeers m !! id) as [p|]; [|done]. destruct (existsb _ _); [done|]. by destruct (_ =? _).
  - unfold publishStats. by destruct (mPeers m !! id).
Qed.

(** A run that goes on from a given state. *)
Inductive continues (q : Z) (n0 : nat) (m0 : Mailbox) (P0 T0 : logs) : nat -> Mailbox -> logs -> logs -> Prop :=
| cont_refl : continues q n0 m0 P0 T0 n0 m0 P0 T0
| cont_step n m P T a : continues q n0 m0 P0 T0 n m P T -> allowed a m ->
    continues q n0 m0 P0 T0 (S n) (perform a m) (logOf a (pushedBy a m) P) (logOf a (takenBy a m) T).

Lemma continues_run q n0 m0 P0 T0 n m P T :
  run q n0 m0 P0 T0 -> continues q n0 m0 P0 T0 n m P T -> run q n m P T.
Proof. intros Hr. induction 1; [done|]. by constructor. Qed.

(** The session goes on, and what was pushed before is either not settled yet or taken; or
    it is over. *)
Definition follows (id : PeerId) (p0 : Peer) (P0 : logs) (m : Mailbox) (P T : logs) : Prop :=
  epoch p0 <= mEpochs m /\
  ((exists p x y, mPeers m !! id = Some p /\ epoch p = epoch p0 /\ settled_to p (P id) (T id) x y /\
     (forall l, P0 id l `prefix_of` P id l) /\
     ((x <= zlen (P0 id Reliable) /\ y <= zlen (P0 id Bulk)) \/ (zlen (P0 id Reliable) <= x /\ zlen (P0 id Bulk) <= y))) \/
   (forall p, mPeers m !! id = Some p -> epoch p <> epoch p0)).

Lemma follows_continues q n0 m0 P0 T0 n m P T id p0 :
  0 <= q <= 2 ^ 63 -> run q n0 m0 P0 T0 -> mPeers m0 !! id = Some p0 ->
  continues q n0 m0 P0 T0 n m P T -> Z.of_nat n < 2 ^ 64 -> follows id p0 P0 m P T.
Proof.
  intros Hq Hr0 Hp0. induction 1 as [|n m P T a Hc IH Ha]; intros Hn.
  - pose proof (run_ok q Hq _ _ _ _ Hr0 Hn) as Hok. split; [apply (mo_epoch _ _ _ Hok _ _ Hp0)|]. left.
    destruct (run_settled q _ _ _ _ Hq Hr0 Hn id p0 Hp0) as (x & y & Hs). exists p0, x, y. split_and!; try done. left.
    pose proof (run_order q _ _ _ _ Hq Hr0 Hn id p0 Reliable Hp0) as [_ H1 _]. pose proof (run_order q _ _ _ _ Hq Hr0 Hn id p0 Bulk Hp0) as [_ H2 _].
    apply sublist_length in H1, H2. rewrite length_app in H1, H2. destruct Hs. unfold zlen in *. lia.
  - pose proof (continues_run _ _ _ _ _ _ _ _ _ Hr0 Hc) as Hr. pose proof (run_ok q Hq _ _ _ _ Hr ltac:(lia)) as Hok.
    pose proof (run_ok q Hq _ _ _ _ (run_step q n m P T a Hr Ha) Hn) as Hok'.
    destruct (IH ltac:(lia)) as [Hep Hf].
    pose proof (mo_epochs _ _ _ Hok) as Hb. pose proof (perform_epochs a m (mo_nodup _ _ _ Hok)) as Ee.
    assert (Hle : mEpochs m <= mEpochs (perform a m)).
    { rewrite Ee. destruct a; try lia. rewrite wrap_small by (unfold is_uint; lia). lia. }
    split; [lia|]. destruct (open_or_not a id) as [->|Hne].
    { right. intros p Hp. cbn in Hp. rewrite lookup_insert_eq in Hp. injection Hp as <-. cbn.
      rewrite wrap_small by (unfold is_uint; lia). lia. }
    destruct (mPeers (perform a m) !! id) as [p'|] eqn:Ep'; [|by right].
    destruct (perform_lane q _ m Hok a id p' Hne Ep') as (p & Ep & Eep & _).
    destruct Hf as [(p1 & x & y & Ep1 & Eep1 & Hs & Hpre & Hxy)|Hno]; [|right; intros ? [= <-]; rewrite Eep; by apply Hno].
    rewrite Ep in Ep1. injection Ep1 as <-. left.
    destruct (settled_step q (Z.of_nat n) m a id p p' (P id) (T id) x y) as (x' & y' & Hs' & Hcase); try done; [lia| |].
    { intros l. rewrite <- (logOf_other a (pushedBy a m) P id l Hne), <- (logOf_other a (takenBy a m) T id l Hne). by apply (run_order q (S n) (perform a m) _ _ Hq (run_step q n m P T a Hr Ha) Hn id p' l). }
    exists p', x', y'. split; [done|]. split; [congruence|]. split; [refine (settled_ext _ _ _ _ _ _ _ _ _ Hs'); intros l; exact (logOf_other a _ _ id l Hne)|]. split.
    + intros l. rewrite logOf_other by done. by apply prefix_app_r.
    + destruct Hcase as [[-> ->]|[H1 H2]]; [done|]. right. pose proof (Hpre Reliable) as [k1 E1]. pose proof (Hpre Bulk) as [k2 E2].
      rewrite E1, zlen_app in H1. rewrite E2, zlen_app in H2. pose proof (zlen_nonneg k1). pose proof (zlen_nonneg k2). lia.
Qed.

Lemma prefix_by_length {A} (l k m : list A) : l `prefix_of` m -> k `prefix_of` m -> zlen l <= zlen k -> l `prefix_of` k.
Proof.
  intros [x Hx] [y Hy] H. rewrite Hx in Hy. unfold zlen in H. apply app_eq_inv in Hy as [(d & -> & _)|(d & -> & _)]; [|by exists d].
  rewrite length_app in H. destruct d; [by rewrite app_nil_r|]. cbn in H. lia.
Qed.

(** ** The promises *)

(** C32: in every run of the threads, the bytes a lane counts are those of the messages it
    holds; no message is over the lane's limit; a reliable lane holds at most one message or
    at most [mQueueBytes] bytes, the media lane at most [MediaQueueMessages] messages; the
    ready list names exactly the listed peers, each once; work is never left unsignalled; and
    no wrap-around ever hides a message that was acknowledged but not settled. *)
Theorem mailbox_accounts q n m P T :
  0 <= q <= 2 ^ 63 -> run q n m P T -> Z.of_nat n < 2 ^ 64 ->
  (mCommands m <> [] \/ mReady m <> [] -> mSignalled m = true) /\
  NoDup (mReady m) /\
  (forall id, id ∈ mReady m <-> exists p, mPeers m !! id = Some p /\ listed p = true) /\
  forall id p, mPeers m !! id = Some p ->
    0 <= done_ p /\ done_ p + zlen (queue (lanes p Reliable)) + zlen (queue (lanes p Bulk)) <= accepted p /\
    forall l, queueBytes (lanes p l) = totalBytes (queue (lanes p l)) /\
      Forall (fun mail => zlen (mailBody mail) <= maxPayload l) (queue (lanes p l)) /\
      (if decide (l = Media) then zlen (queue (lanes p l)) <= MediaQueueMessages
       else queueBytes (lanes p l) <= mQueueBytes m \/ zlen (queue (lanes p l)) <= 1).
Proof.
  intros Hq Hr Hn. destruct (run_ok q Hq n m P T Hr Hn) as [El Hs Hnd Hrd Hp _ _ _].
  do 3 (split; [done|]). intros id p Hid. destruct (Hp id p Hid) as [Hl _ Hc Hw _]. unfold waitingMails in Hw.
  do 2 (split; [lia|]). intros l. rewrite El. by destruct (Hl l).
Qed.

(** C31: No wake-up is lost: whatever a thread does in one step, either it notifies the
    condition variable, or no push and no flush that waits has its condition come about by
    that step; and the doorbell rings exactly when work arrives at a mailbox that was not
    signalled before. *)
Theorem no_lost_wakeup q n m P T a :
  0 <= q <= 2 ^ 63 -> run q n m P T -> Z.of_nat n < 2 ^ 64 - 1 -> allowed a m ->
  (mChanged (perform a m) = mChanged m + 1 \/
   (forall w, pwLane w <> Media -> zlen (mailBody (pwMail w)) <= maxPayload (pwLane w) ->
      pushReady w (perform a m) = true -> pushReady w m = true) /\
   (forall w, flushReady w (perform a m) = true -> flushReady w m = true)) /\
  mDoorbell (perform a m) = mDoorbell m + (if negb (mSignalled m) && mSignalled (perform a m) then 1 else 0) /\
  (mCommands (perform a m) <> [] \/ mReady (perform a m) <> [] -> mSignalled (perform a m) = true).
Proof.
  intros Hq Hr Hn Ha. pose proof (run_ok q Hq n m P T Hr ltac:(lia)) as Hok.
  pose proof (perform_ok q Hq (Z.of_nat n) a m ltac:(lia) Hok Ha) as Hok'. split; [|split].
  - destruct (perform_calm q (Z.of_nat n) m Hq ltac:(lia) Hok a Ha) as [E|Hc]; [by left|right].
    split; intros w; [intros Hl Hz|]; [by apply calm_push|by apply calm_flush].
  - by apply (perform_bell q (Z.of_nat n) m Hok a).
  - apply (mo_signal _ _ _ Hok').
Qed.

(** C29: A reliable lane is a queue: what was pushed since the session was opened is what was
    taken followed by what still waits, in the order of the pushes.  The media lane loses its
    oldest messages only: what was taken and what waits is a part of what was pushed, in
    order, and what waits is its end. *)
Theorem lane_fifo q n m P T id p l :
  0 <= q <= 2 ^ 63 -> run q n m P T -> Z.of_nat n < 2 ^ 64 -> mPeers m !! id = Some p ->
  (l <> Media -> P id l = T id l ++ queue (lanes p l)) /\
  T id l ++ queue (lanes p l) `sublist_of` P id l /\
  queue (lanes p l) `suffix_of` P id l.
Proof. intros Hq Hr Hn Hid. by destruct (run_order q n m P T Hq Hr Hn id p l Hid). Qed.

(** C30: A flush that succeeds while its session lasts has seen every message out: all that
    was pushed on the reliable lanes before the flush began has been taken by the engine when
    it returns, whatever the threads did in between. *)
Theorem flush_complete q n0 m0 P0 T0 n m P T id w l :
  0 <= q <= 2 ^ 63 -> run q n0 m0 P0 T0 -> flush id m0 = FlushWaits w ->
  continues q n0 m0 P0 T0 n m P T -> Z.of_nat n < 2 ^ 64 -> flushResume w m = true -> l = Reliable \/ l = Bulk ->
  (exists p, mPeers m !! id = Some p /\ epoch p = fwEpoch w /\ P0 id l `prefix_of` T id l) \/
  (forall p, mPeers m !! id = Some p -> epoch p <> fwEpoch w).
Proof.
  intros Hq Hr0 Hf Hc Hn Hd Hl. unfold flush in Hf. destruct (mPeers m0 !! id) as [p0|] eqn:Hp0; [|done]. injection Hf as <-. cbn [fwEpoch].
  assert (Hn0 : Z.of_nat n0 < 2 ^ 64) by (clear -Hc Hn; induction Hc; [done|apply IHHc; lia]).
  destruct (follows_continues _ _ _ _ _ _ _ _ _ id p0 Hq Hr0 Hp0 Hc Hn) as [_ [(p & x & y & Hp & Ee & [Ea Ed Hx Hy] & Hpre & Hxy)|Hno]]; [left|by right].
  exists p. split_and!; [done..|]. unfold flushResume, flushDone in Hd. cbn [fwPeer fwEpoch fwTarget] in Hd. rewrite Hp, Ee, Z.eqb_refl in Hd.
  cbn [negb orb] in Hd. apply Z.leb_le in Hd. destruct (run_settled q _ _ _ _ Hq Hr0 Hn0 id p0 Hp0) as (x0 & y0 & [Ea0 _ _ _]).
  pose proof (io_exact _ _ _ _ (run_order q _ _ _ _ Hq (continues_run _ _ _ _ _ _ _ _ _ Hr0 Hc) Hn id p l Hp)) as HT.
  apply (prefix_by_length _ _ (P id l)); [apply Hpre| |destruct Hl as [-> | ->]; lia].
  rewrite HT by (by destruct Hl as [-> | ->]). by apply prefix_app_r.
Qed.

(** ** A run *)
Module Example.
Definition hi : Mail := mkMail 3 [Byte.x68; Byte.x69].

(** The engine opens a session, the application pushes a message and begins to flush. *)
Definition before : list action := [Open 7; PushMail 7 Reliable hi 0].
(** The engine takes the message and reports that it is out. *)
Definition after : list action := [Drain; Take 7 Reliable; Settle 7].

Definition stepLogs (s : Mailbox * logs * logs) (a : action) : Mailbox * logs * logs :=
  let '(m, P, T) := s in (perform a m, logOf a (pushedBy a m) P, logOf a (takenBy a m) T).
Definition begun : Mailbox * logs * logs :=
  fold_left stepLogs before (setQueueBytes 1024 newMailbox, fun _ _ => [], fun _ _ => []).
Definition ended : Mailbox * logs * logs := fold_left stepLogs after begun.

Lemma begun_run : run 1024 2 begun.1.1 begun.1.2 begun.2.
Proof.
  unfold begun, before. cbn [fold_left stepLogs fst snd].
  apply run_step; [apply run_step; [apply run_start|]|]; [by vm_compute|discriminate].
Qed.

Lemma ended_continues : continues 1024 2 begun.1.1 begun.1.2 begun.2 5 ended.1.1 ended.1.2 ended.2.
Proof.
  unfold ended, after. destruct begun as [[m P] T]. cbn [fold_left stepLogs fst snd].
  apply cont_step; [apply cont_step; [apply cont_step; [apply cont_refl|]|]|]; exact I.
Qed.

Lemma begun_peer : exists p, mPeers begun.1.1 !! 7 = Some p /\ queue (lanes p Reliable) = [hi].
Proof. eexists. split; vm_compute; reflexivity. Qed.

Lemma mailbox_accounts_witness : NoDup (mReady begun.1.1) /\ begun.1.2 7 Reliable = [hi].
Proof.
  split; [|vm_compute; reflexivity].
  apply (mailbox_accounts 1024 2 begun.1.1 begun.1.2 begun.2); [lia|exact begun_run|lia].
Defined.

Lemma no_lost_wakeup_witness :
  mDoorbell begun.1.1 = 1 /\ mDoorbell (perform (Post Disconnect 7) begun.1.1) = 1 + 0.
Proof.
  split; [vm_compute; reflexivity|].
  apply (no_lost_wakeup 1024 2 begun.1.1 begun.1.2 begun.2 (Post Disconnect 7)); [lia|exact begun_run|lia|exact I].
Defined.

Lemma lane_fifo_witness : exists p, mPeers begun.1.1 !! 7 = Some p /\
  begun.1.2 7 Reliable = begun.2 7 Reliable ++ queue (lanes p Reliable).
Proof.
  destruct begun_peer as (p & Hp & Hq). exists p. split; [exact Hp|].
  apply (lane_fifo 1024 2 begun.1.1 begun.1.2 begun.2 7 p Reliable); [lia|exact begun_run|lia|exact Hp|discriminate].
Defined.

Lemma flush_complete_witness : ended.2 7 Reliable = [hi] /\
  ((exists p, mPeers ended.1.1 !! 7 = Some p /\ epoch p = 1 /\ begun.1.2 7 Reliable `prefix_of` ended.2 7 Reliable) \/
   (forall p, mPeers ended.1.1 !! 7 = Some p -> epoch p <> 1)).
Proof.
  split; [vm_compute; reflexivity|].
  apply (flush_complete 1024 2 begun.1.1 begun.1.2 begun.2 5 ended.1.1 ended.1.2 ended.2 7 (mkFlushWait 7 1 1) Reliable);
    [lia|exact begun_run|vm_compute; reflexivity|exact ended_continues|lia|vm_compute; reflexivity|left; reflexivity].
Defined.
End Example.
