(* ===== verification/AckRanges.v ===== *)
(** * The body of an Ack

    [Channel/Protocol/AckRanges.h]: what the receiver of a lane holds besides
    everything up to the seq in the header, as ranges of seqs. *)
From stdpp Require Import sorting.
From S2P Require Import Prelude Constants ByteOrder PacketFlags PacketHeader.

Definition AckFieldsSize : Z := 8.
Definition SeqRangeSize : Z := 10.
Definition UINT16_MAX : Z := 65535.

Record SeqRange := mkRange { first : Z; count : Z }.
#[global] Instance SeqRange_eta : Eta SeqRange := fun r => mkRange (first r) (count r).
#[global] Instance SeqRange_eq_dec : EqDecision SeqRange.
Proof. solve_decision. Defined.

Definition rangeLast (r : SeqRange) : Z := u64 (first r + count r - 1).

Record AckBody := mkAck { serial : Z; ackMediaReceived : Z; ranges : list SeqRange }.

Definition encodeRange (r : SeqRange) : bytes := writeUint64 (first r) ++ writeUint16 (count r).

Definition encodeAck (ack : AckBody) (maxRanges : Z) : bytes :=
  let n := Z.min (zlen (ranges ack)) maxRanges in
  writeUint32 (serial ack) ++ writeUint32 (ackMediaReceived ack)
  ++ mjoin (encodeRange <$> ztake n (ranges ack)).

(** The loop over the ranges, from [offset] to the end of the body. *)
Fixpoint decodeRanges (fuel : nat) (d : bytes) (offset : Z) : option (option (list SeqRange)) :=
  match fuel with
  | O => Some (Some [])
  | S fuel =>
    if offset <? zlen d then
      f ← readUint64 d offset;
      c ← readUint16 d (offset + 8);
      let range := {| first := f; count := c |} in
      if (count range =? 0) || (first range =? 0) || (rangeLast range <? first range)
      then Some None
      else
        rest ⇐ decodeRanges fuel d (offset + SeqRangeSize);
        Some (Some (range :: rest))
    else Some (Some [])
  end.

Definition decodeAck (d : bytes) : option (option AckBody) :=
  if (zlen d <? AckFieldsSize) || negb ((zlen d - AckFieldsSize) mod SeqRangeSize =? 0)
  then Some None
  else
    s ← readUint32 d 0;
    m ← readUint32 d 4;
    rs ⇐ decodeRanges (length d) d AckFieldsSize;
    Some (Some {| serial := s; ackMediaReceived := m; ranges := rs |}).

(** One step of the loop of [toRanges].  The vector is kept back to front: its last
    element, [ranges.back()], is the head of the list. *)
Definition addSeq (acc : list SeqRange) (sq : Z) : list SeqRange :=
  match acc with
  | back :: before =>
    if sq <=? rangeLast back then acc
    else if (sq =? u64 (rangeLast back + 1)) && (count back <? UINT16_MAX)
         then back <| count ::= Z.add 1 |> :: before
         else {| first := sq; count := 1 |} :: acc
  | [] => [{| first := sq; count := 1 |}]
  end.

Definition toRanges (seqs : list Z) : list SeqRange :=
  match seqs with
  | [] => []
  | _ =>
    let sorted := if bool_decide (Sorted Z.le seqs) then seqs else merge_sort Z.le seqs in
    reverse (fold_left addSeq sorted [])
  end.

(** ** Encoding and decoding *)
Definition range_ok (r : SeqRange) : Prop :=
  0 < first r /\ 1 <= count r <= UINT16_MAX /\ first r + count r - 1 < 2 ^ 64.
Definition ack_ok (a : AckBody) : Prop :=
  is_uint 32 (serial a) /\ is_uint 32 (ackMediaReceived a) /\ Forall range_ok (ranges a).

Lemma rangeLast_ok r : range_ok r -> rangeLast r = first r + count r - 1.
Proof. intros (? & ? & ?). apply wrap_small. unfold is_uint. lia. Qed.

(** The wrap-around test of the decoder is the overflow test: *)
Lemma range_ok_check r :
  is_uint 64 (first r) -> is_uint 16 (count r) ->
  (count r =? 0) || (first r =? 0) || (rangeLast r <? first r) = false <-> range_ok r.
Proof.
  unfold range_ok, rangeLast, is_uint, wrap, UINT16_MAX. intros H1 H2.
  rewrite !orb_false_iff, !Z.eqb_neq, Z.ltb_ge. pow_const.
  destruct (Z.lt_ge_cases (first r + count r - 1) 18446744073709551616) as [Hlt|Hge].
  - destruct (Z.lt_ge_cases (first r + count r - 1) 0).
    + split; lia.
    + rewrite Z.mod_small by lia. lia.
  - assert (E : (first r + count r - 1) mod 18446744073709551616
                = first r + count r - 1 - 18446744073709551616).
    { symmetry. apply Z.mod_unique with 1; lia. }
    rewrite E. lia.
Qed.

Lemma encodeRange_length r : zlen (encodeRange r) = SeqRangeSize.
Proof. done. Qed.

Lemma encodeRanges_length rs : zlen (mjoin (encodeRange <$> rs)) = SeqRangeSize * zlen rs.
Proof.
  induction rs as [|r rs IH]; [done|].
  change (mjoin (encodeRange <$> r :: rs)) with (encodeRange r ++ mjoin (encodeRange <$> rs)).
  rewrite zlen_app, IH, encodeRange_length, zlen_cons. unfold SeqRangeSize. lia.
Qed.

Lemma decodeRanges_complete rs : forall d offset fuel,
  reads_at (mjoin (encodeRange <$> rs)) d offset ->
  offset + SeqRangeSize * zlen rs = zlen d -> Forall range_ok rs ->
  (length rs <= fuel)%nat -> decodeRanges fuel d offset = Some (Some rs).
Proof.
  induction rs as [|r rs IH]; intros d offset fuel Hr Hlen Hok Hf.
  - rewrite (zlen_nil (A:=SeqRange)) in Hlen. destruct fuel; [done|]. cbn [decodeRanges].
    destruct (Z.ltb_spec offset (zlen d)); [lia|done].
  - destruct fuel; [simpl in Hf; lia|]. cbn [decodeRanges].
    rewrite zlen_cons in Hlen. pose proof (zlen_nonneg rs). unfold SeqRangeSize in Hlen.
    destruct (Z.ltb_spec offset (zlen d)); [|lia].
    change (mjoin (encodeRange <$> r :: rs)) with (encodeRange r ++ mjoin (encodeRange <$> rs)) in Hr.
    apply reads_at_app_inv in Hr as [(R1 & R2)%reads_at_app_inv Hr].
    rewrite writeUint64_length in R2. apply Forall_cons in Hok as [Hr0 Hok].
    assert (Hf64 : is_uint 64 (first r)) by (destruct Hr0 as (?&?&?); unfold is_uint; lia).
    assert (Hc16 : is_uint 16 (count r))
      by (destruct Hr0 as (?&?&?); unfold is_uint, UINT16_MAX in *; pow_const; lia).
    rewrite (proj2 (readUint64_spec _ _ _) (conj Hf64 R1)). simpl.
    rewrite (proj2 (readUint16_spec _ _ _) (conj Hc16 R2)). simpl.
    pose proof (proj2 (range_ok_check r Hf64 Hc16) Hr0) as Hchk.
    destruct r as [f c]. simpl in *. rewrite Hchk.
    rewrite (IH d (offset + SeqRangeSize)); [done| |unfold SeqRangeSize; lia|done|lia].
    done.
Qed.

Lemma decodeRanges_sound fuel : forall d offset rs,
  0 <= offset <= zlen d -> (zlen d - offset) mod SeqRangeSize = 0 ->
  zlen d - offset <= Z.of_nat fuel ->
  decodeRanges fuel d offset = Some (Some rs) ->
  Forall range_ok rs /\ reads_at (mjoin (encodeRange <$> rs)) d offset /\
  offset + SeqRangeSize * zlen rs = zlen d.
Proof.
  induction fuel as [|fuel IH]; intros d offset rs Hoff Hmod Hf H; cbn [decodeRanges] in H.
  { simplify_eq. change (SeqRangeSize * zlen []) with 0.
    split; [done|]. split; [by apply reads_at_nil|lia]. }
  destruct (Z.ltb_spec offset (zlen d)).
  - apply bind_Some_inv in H as (f & [Hf64 R1]%readUint64_spec & H).
    apply bind_Some_inv in H as (c & [Hc16 R2]%readUint16_spec & H). simpl in H.
    split_match_in H; [done|]. apply decode_then_Some in H as (rest & Hrest & H). simplify_eq.
    unfold SeqRangeSize in *.
    assert (10 <= zlen d - offset) by (Z.div_mod_to_equations; lia).
    apply IH in Hrest as (Hok & R3 & Hlen); [|lia|Z.div_mod_to_equations; lia|lia].
    rewrite zlen_cons. split; [|split; [|lia]].
    + constructor; [|done]. by apply (range_ok_check {| first := f; count := c |}).
    + change (mjoin (encodeRange <$> ?r :: rest))
        with (encodeRange r ++ mjoin (encodeRange <$> rest)).
      apply reads_at_app; [by apply reads_at_app|done].
  - simplify_eq. change (SeqRangeSize * zlen []) with 0.
    split; [done|]. split; [by apply reads_at_nil|lia].
Qed.

Lemma decodeRanges_safe fuel : forall d offset,
  0 <= offset <= zlen d -> (zlen d - offset) mod SeqRangeSize = 0 ->
  decodeRanges fuel d offset <> None.
Proof.
  induction fuel as [|fuel IH]; intros d offset Hoff Hmod; cbn [decodeRanges]; [done|].
  destruct (Z.ltb_spec offset (zlen d)); [|done]. unfold SeqRangeSize in *.
  assert (10 <= zlen d - offset) by (Z.div_mod_to_equations; lia).
  read_in_bounds readUint64_total. read_in_bounds readUint16_total. simpl.
  case_match; [done|]. apply decode_then_safe; [|done].
  apply IH; Z.div_mod_to_equations; lia.
Qed.

Lemma decodeAck_safe d : decodeAck d <> None.
Proof.
  unfold decodeAck. case_match; [done|]. bool_prop. unfold AckFieldsSize in *.
  read_in_bounds readUint32_total. read_in_bounds readUint32_total.
  apply decode_then_safe; [apply decodeRanges_safe; lia|done].
Qed.

Lemma decodeAck_sound d a :
  decodeAck d = Some (Some a) -> ack_ok a /\ d = encodeAck a (zlen (ranges a)).
Proof.
  unfold decodeAck. intros H. split_match_in H; [done|]. bool_prop.
  apply bind_Some_inv in H as (s & [Hs R0]%readUint32_spec & H).
  apply bind_Some_inv in H as (m & [Hm R4]%readUint32_spec & H).
  apply decode_then_Some in H as (rs & Hrs & H). simplify_eq.
  unfold AckFieldsSize in *.
  apply decodeRanges_sound in Hrs as (Hok & R8 & Hlen); [|lia|done|unfold zlen; lia].
  split; [done|]. unfold encodeAck; cbn [serial ackMediaReceived ranges].
  rewrite Z.min_id, ztake_ge by lia.
  assert (R : reads_at (writeUint32 s ++ writeUint32 m ++ mjoin (encodeRange <$> rs)) d 0)
    by (by repeat (apply reads_at_app; [done|])).
  destruct R as (pre & post & E & ->%zlen_nil_inv). cbn [app] in E.
  assert (post = []) as ->.
  { apply zlen_nil_inv. apply (f_equal zlen) in E. rewrite !zlen_app in E.
    rewrite encodeRanges_length in E. autorewrite with zlen in E. lia. }
  by rewrite app_nil_r in E.
Qed.

Lemma decodeAck_complete a n :
  ack_ok a -> 0 <= n ->
  decodeAck (encodeAck a n) = Some (Some (mkAck (serial a) (ackMediaReceived a) (ztake n (ranges a)))).
Proof.
  intros (Hs & Hm & Hr) Hn. unfold encodeAck.
  assert (E : ztake (Z.min (zlen (ranges a)) n) (ranges a) = ztake n (ranges a)).
  { destruct (Z.le_ge_cases n (zlen (ranges a))).
    - by rewrite Z.min_r by lia.
    - by rewrite Z.min_l, !ztake_ge by lia. }
  rewrite E. clear E. set (rs := ztake n (ranges a)).
  assert (Hok : Forall range_ok rs) by by apply Forall_take.
  set (d := writeUint32 (serial a) ++ writeUint32 (ackMediaReceived a) ++ mjoin (encodeRange <$> rs)).
  assert (Hlen : zlen d = 8 + 10 * zlen rs).
  { unfold d. rewrite !zlen_app, encodeRanges_length. autorewrite with zlen.
    unfold SeqRangeSize. lia. }
  assert (R : reads_at d d 0) by (exists [], []; by rewrite app_nil_r).
  apply reads_at_app_inv in R as [R0 (R4 & R8)%reads_at_app_inv].
  change (0 + zlen (writeUint32 (serial a))) with 4 in R4.
  unfold decodeAck, AckFieldsSize, SeqRangeSize in *. pose proof (zlen_nonneg rs).
  destruct (Z.ltb_spec (zlen d) 8); [lia|].
  replace ((zlen d - 8) mod 10) with 0 by (rewrite Hlen; Z.div_mod_to_equations; lia).
  rewrite (proj2 (readUint32_spec _ _ _) (conj Hs R0)). cbn [mbind option_bind].
  rewrite (proj2 (readUint32_spec _ _ _) (conj Hm R4)). cbn [mbind option_bind].
  rewrite (decodeRanges_complete rs); [done|exact R8|unfold SeqRangeSize; lia|done|].
  unfold zlen in *. lia.
Qed.

(** ** From seqs to ranges *)
Definition in_range (s : Z) (r : SeqRange) : Prop := first r <= s <= first r + count r - 1.
Definition in_ranges (s : Z) (rs : list SeqRange) : Prop := Exists (in_range s) rs.

(** Ranges back to front: disjoint, descending, and no two of them could be one. *)
Fixpoint separated (rs : list SeqRange) : Prop :=
  match rs with
  | r2 :: (r1 :: _) as rest =>
    first r1 + count r1 - 1 < first r2 /\
    (first r2 = first r1 + count r1 -> count r1 = UINT16_MAX) /\ separated rest
  | _ => True
  end.

Lemma addSeq_step acc s :
  Forall range_ok acc -> separated acc -> 0 < s < 2 ^ 64 ->
  (forall r, head acc = Some r -> first r + count r - 1 <= s) ->
  Forall range_ok (addSeq acc s) /\ separated (addSeq acc s) /\
  (forall x, in_ranges x (addSeq acc s) <-> x = s \/ in_ranges x acc) /\
  (exists r, head (addSeq acc s) = Some r /\ first r + count r - 1 = s).
Proof.
  unfold in_ranges, in_range. intros Hok Hsep Hs Hb. destruct acc as [|back before]; simpl.
  - split_and!; [|done| |eexists; split; [done|simpl; lia]].
    + constructor; [|done]. unfold range_ok, UINT16_MAX; simpl; lia.
    + intros x. rewrite Exists_cons, Exists_nil. simpl. lia.
  - apply Forall_cons in Hok as [Hback Hok]. rewrite rangeLast_ok by done.
    specialize (Hb back eq_refl). destruct Hback as (F & C & L). unfold UINT16_MAX in *.
    destruct (Z.leb_spec s (first back + count back - 1)).
    { assert (s = first back + count back - 1) as -> by lia. split_and!; try done.
      - by constructor.
      - intros x. rewrite Exists_cons. split; [tauto|]. intros [->|]; [left; lia|tauto].
      - by exists back. }
    rewrite (wrap_small 64 (first back + _ - 1 + 1)) by (unfold is_uint; lia).
    destruct ((s =? _) && _) eqn:E; bool_prop.
    + subst s. split_and!.
      * constructor; [|done]. unfold range_ok, UINT16_MAX; simpl. lia.
      * destruct before; [done|]. simpl in *. tauto.
      * intros x. rewrite !Exists_cons. simpl. split.
        -- intros [?|?]; [|tauto]. destruct (decide (x = first back + count back - 1 + 1)); [tauto|].
           right; left; lia.
        -- intros [?|[?|?]]; [left; lia|left; lia|tauto].
      * eexists. split; [done|]. simpl. lia.
    + split_and!.
      * constructor; [|by constructor]. unfold range_ok, UINT16_MAX; simpl; lia.
      * simpl. unfold UINT16_MAX. split_and!; [lia| |by destruct before].
        intros. destruct E; bool_prop; lia.
      * intros x. rewrite Exists_cons. simpl. split; intros [?|?]; auto; left; lia.
      * eexists. split; [done|]. simpl. lia.
Qed.

Lemma addSeq_fold l : forall acc,
  StronglySorted Z.le l -> Forall (fun s => 0 < s < 2 ^ 64) l ->
  Forall range_ok acc -> separated acc ->
  (forall r s, head acc = Some r -> s ∈ l -> first r + count r - 1 <= s) ->
  let res := fold_left addSeq l acc in
  Forall range_ok res /\ separated res /\
  (forall x, in_ranges x res <-> x ∈ l \/ in_ranges x acc).
Proof.
  induction l as [|s l IH]; intros acc Hs Hl Hok Hsep Hb; simpl.
  - split_and!; [done..|]. intros x. rewrite elem_of_nil. tauto.
  - apply StronglySorted_inv in Hs as [Hs Hle]. apply Forall_cons in Hl as [Hs0 Hl].
    destruct (addSeq_step acc s) as (A & B & C & (r & Hr & Er)); try done.
    { intros r Hr. apply (Hb r s Hr). by left. }
    destruct (IH (addSeq acc s)) as (A' & B' & C'); try done.
    { intros r' s' Hr' Hin. rewrite Hr in Hr'. simplify_eq.
      rewrite Forall_forall in Hle. by apply Hle. }
    split_and!; [done..|]. intros x. rewrite C', C, elem_of_cons. tauto.
Qed.

(** Front to back: every range starts after the previous one ended, and the two could
    not have been one range. *)
Fixpoint ascending (rs : list SeqRange) : Prop :=
  match rs with
  | r1 :: (r2 :: _) as rest =>
    first r1 + count r1 - 1 < first r2 /\
    (first r2 = first r1 + count r1 -> count r1 = UINT16_MAX) /\ ascending rest
  | _ => True
  end.

Lemma ascending_snoc rs r :
  ascending (rs ++ [r]) <->
  ascending rs /\ (forall p, last rs = Some p ->
    first p + count p - 1 < first r /\ (first r = first p + count p -> count p = UINT16_MAX)).
Proof.
  induction rs as [|a rs IH]; [by simpl; naive_solver|].
  destruct rs as [|b rs]; [simpl; naive_solver|].
  change ((a :: b :: rs) ++ [r]) with (a :: b :: (rs ++ [r])).
  change (last (a :: b :: rs)) with (last (b :: rs)).
  change ((b :: rs) ++ [r]) with (b :: (rs ++ [r])) in IH.
  cbn [ascending] in *. rewrite IH. tauto.
Qed.

Lemma ascending_reverse rs : separated rs <-> ascending (reverse rs).
Proof.
  induction rs as [|r rs IH]; [done|]. rewrite reverse_cons, ascending_snoc, last_reverse, <- IH.
  destruct rs as [|r1 rs]; simpl; naive_solver.
Qed.

Lemma toRanges_sorted seqs :
  exists l, toRanges seqs = reverse (fold_left addSeq l []) /\
            StronglySorted Z.le l /\ l ≡ₚ seqs.
Proof.
  destruct seqs as [|s seqs]; [by exists []; split_and!; constructor|].
  unfold toRanges. case_bool_decide as H.
  - exists (s :: seqs). split_and!; [done| |done].
    apply Sorted_StronglySorted; [|done]. intros x y z; lia.
  - exists (merge_sort Z.le (s :: seqs)). split_and!; [done| |apply merge_sort_Permutation].
    apply StronglySorted_merge_sort; [intros x y z; lia|intros x y; lia].
Qed.

Lemma toRanges_spec seqs :
  Forall (fun s => 0 < s < 2 ^ 64) seqs ->
  Forall range_ok (toRanges seqs) /\ ascending (toRanges seqs) /\
  (forall s, in_ranges s (toRanges seqs) <-> s ∈ seqs).
Proof.
  intros Hall. destruct (toRanges_sorted seqs) as (l & -> & Hs & Hp).
  destruct (addSeq_fold l []) as (A & B & C); try done.
  { by rewrite Hp. }
  split_and!.
  - by apply Forall_reverse.
  - by apply ascending_reverse.
  - intros s. unfold in_ranges. rewrite Exists_exists. setoid_rewrite elem_of_reverse.
    rewrite <- Exists_exists. fold (in_ranges s (fold_left addSeq l [])).
    rewrite C. unfold in_ranges. rewrite Exists_nil, Hp. tauto.
Qed.

(** C37: an Ack survives the wire, and nothing but an Ack is taken for one.  [decodeAck]
    never reads outside the body; what it returns is what the body encodes; and of an Ack
    with more ranges than fit, the first ones arrive. *)
Theorem ack_roundtrip d a n :
  decodeAck d <> None /\
  (decodeAck d = Some (Some a) <-> ack_ok a /\ d = encodeAck a (zlen (ranges a))) /\
  (ack_ok a -> 0 <= n -> decodeAck (encodeAck a n) =
     Some (Some {| serial := serial a; ackMediaReceived := ackMediaReceived a; ranges := ztake n (ranges a) |})).
Proof.
  split_and!; [apply decodeAck_safe| |apply decodeAck_complete]. split; [apply decodeAck_sound|].
  intros [Ha ->]. rewrite decodeAck_complete by (done || apply zlen_nonneg). rewrite ztake_ge by lia. by destruct a.
Qed.

Definition someAck : AckBody := {| serial := 5; ackMediaReceived := 9; ranges := [mkRange 3 2; mkRange 7 1] |}.
Lemma ack_roundtrip_witness :
  decodeAck (encodeAck someAck 1) = Some (Some {| serial := 5; ackMediaReceived := 9; ranges := [mkRange 3 2] |}).
Proof.
  apply (ack_roundtrip [] someAck 1); [|lia]. split; [done|]. split; [done|].
  apply Forall_cons; split; [done|]. apply Forall_cons; split; [done|].
  by constructor.
Defined.

(** [toRanges] names exactly the seqs it is given, in whatever order: its ranges are
    well formed, ascending, disjoint and as long as their width allows, and a seq lies in
    one of them if and only if it was in the list. *)
Theorem toRanges_exact seqs :
  Forall (fun s => 0 < s < 2 ^ 64) seqs ->
  Forall range_ok (toRanges seqs) /\ ascending (toRanges seqs) /\
  (forall s, in_ranges s (toRanges seqs) <-> s ∈ seqs).
Proof. apply toRanges_spec. Qed.

Lemma toRanges_exact_witness :
  toRanges [8; 3; 4; 10; 9] = [mkRange 3 2; mkRange 8 3] /\
  (forall s, in_ranges s (toRanges [8; 3; 4; 10; 9]) <-> s ∈ [8; 3; 4; 10; 9]).
Proof. split; [vm_compute; reflexivity|]. apply (toRanges_exact [8; 3; 4; 10; 9]). repeat constructor. Defined.
