(* ===== verification/SequenceBuffer.v ===== *)
(** * A ring buffer keyed by a 64-bit sequence number

    [Channel/Queue/SequenceBuffer.h].  The buffer is a vector of slots and a count; seqs
    that are a capacity apart share a slot.  Its promise to the link is a finite map:
    [to_map] is the abstraction, and each operation is proved to be a map operation. *)
From S2P Require Import Prelude.

Module SeqBuf.

Section SequenceBuffer.
Context {T : Type} `{!Inhabited T}.

Record Slot := mkSlot { slot_seq : Z; occupied : bool; value : T }.

Record SequenceBuffer := mkBuffer { mSlots : list Slot; mSize : Z }.

(** [T{}] is [inhabitant]. *)
Definition emptySlot : Slot := {| slot_seq := 0; occupied := false; value := inhabitant |}.

Definition newBuffer (capacity : Z) : SequenceBuffer :=
  {| mSlots := replicate (Z.to_nat capacity) emptySlot; mSize := 0 |}.

Definition capacity (b : SequenceBuffer) : Z := zlen (mSlots b).

Definition index (b : SequenceBuffer) (sq : Z) : nat :=
  Z.to_nat (Z.land sq (u64 (zlen (mSlots b) - 1))).

Definition slotAt (b : SequenceBuffer) (sq : Z) : Slot :=
  default emptySlot (mSlots b !! index b sq).

Definition setSlot (b : SequenceBuffer) (sq : Z) (s : Slot) : list Slot :=
  <[index b sq := s]> (mSlots b).

Definition insert (b : SequenceBuffer) (sq : Z) (v : T) : SequenceBuffer :=
  {| mSlots := setSlot b sq {| slot_seq := sq; occupied := true; value := v |};
     mSize := if occupied (slotAt b sq) then mSize b else mSize b + 1 |}.

Definition find (b : SequenceBuffer) (sq : Z) : option T :=
  let slot := slotAt b sq in
  if occupied slot && (slot_seq slot =? sq) then Some (value slot) else None.

Definition contains (b : SequenceBuffer) (sq : Z) : bool := bool_decide (is_Some (find b sq)).

(** What a caller does through the pointer [find] returned. *)
Definition modify (b : SequenceBuffer) (sq : Z) (f : T -> T) : SequenceBuffer :=
  match find b sq with
  | Some v =>
    {| mSlots := setSlot b sq {| slot_seq := sq; occupied := true; value := f v |};
       mSize := mSize b |}
  | None => b
  end.

Definition releaseSlot (s : Slot) : Slot :=
  {| slot_seq := slot_seq s; occupied := false; value := inhabitant |}.

Definition take (b : SequenceBuffer) (sq : Z) : option T * SequenceBuffer :=
  let slot := slotAt b sq in
  if negb (occupied slot) || negb (slot_seq slot =? sq) then (None, b)
  else (Some (value slot),
        {| mSlots := setSlot b sq (releaseSlot slot); mSize := mSize b - 1 |}).

Definition erase (b : SequenceBuffer) (sq : Z) : bool * SequenceBuffer :=
  let slot := slotAt b sq in
  if negb (occupied slot) || negb (slot_seq slot =? sq) then (false, b)
  else (true, {| mSlots := setSlot b sq (releaseSlot slot); mSize := mSize b - 1 |}).

(** The loops over the slots rebuild the vector slot by slot. *)
Definition clearStep (b : SequenceBuffer) (slot : Slot) : SequenceBuffer :=
  if occupied slot
  then {| mSlots := mSlots b ++ [releaseSlot slot]; mSize := mSize b - 1 |}
  else {| mSlots := mSlots b ++ [slot]; mSize := mSize b |}.

Definition clear (b : SequenceBuffer) : SequenceBuffer :=
  fold_left clearStep (mSlots b) {| mSlots := []; mSize := mSize b |}.

Definition empty (b : SequenceBuffer) : bool := mSize b =? 0.

(** [forEach] with a visitor that keeps state [S] and says whether the entry stays. *)
Definition visitStep {S : Type} (fn : S -> Z -> T -> S * bool) (p : S * SequenceBuffer)
    (slot : Slot) : S * SequenceBuffer :=
  let '(st, b) := p in
  if occupied slot then
    let '(st, keep) := fn st (slot_seq slot) (value slot) in
    if keep then (st, {| mSlots := mSlots b ++ [slot]; mSize := mSize b |})
    else (st, {| mSlots := mSlots b ++ [releaseSlot slot]; mSize := mSize b - 1 |})
  else (st, {| mSlots := mSlots b ++ [slot]; mSize := mSize b |}).

Definition forEach {S : Type} (fn : S -> Z -> T -> S * bool) (st : S) (b : SequenceBuffer) :
    S * SequenceBuffer :=
  fold_left (visitStep fn) (mSlots b) (st, {| mSlots := []; mSize := mSize b |}).

(** ** Abstraction *)
Definition slot_entry (s : Slot) : option (Z * T) :=
  if occupied s then Some (slot_seq s, value s) else None.
Definition entries (l : list Slot) : list (Z * T) := omap slot_entry l.
Definition to_map (b : SequenceBuffer) : gmap Z T := list_to_map (entries (mSlots b)).

(** The capacity is a power of two, an entry lies in the slot of its seq, and the count
    is the number of entries. *)
Record buffer_ok (b : SequenceBuffer) : Prop := {
  ok_capacity : exists n, 0 <= n < 64 /\ zlen (mSlots b) = 2 ^ n;
  ok_home : forall i s, mSlots b !! i = Some s -> occupied s = true -> index b (slot_seq s) = i;
  ok_size : mSize b = zlen (entries (mSlots b));
}.

Lemma index_mod b sq :
  buffer_ok b -> index b sq = Z.to_nat (sq mod zlen (mSlots b)).
Proof.
  intros [(n & Hn & E) _ _]. unfold index.
  assert (0 < 2 ^ n) by lia. assert (2 ^ n < 2 ^ 64) by (apply Z.pow_lt_mono_r; lia).
  rewrite wrap_small by (unfold is_uint; lia).
  rewrite E, <- Z.land_ones by lia. by rewrite Z.ones_equiv, Z.sub_1_r.
Qed.

Lemma index_lt b sq : buffer_ok b -> (index b sq < length (mSlots b))%nat.
Proof.
  intros Hb. rewrite index_mod by done. destruct Hb as [(n & Hn & E) _ _].
  assert (0 < 2 ^ n) by lia.
  pose proof (Z.mod_pos_bound sq (zlen (mSlots b))). unfold zlen in *. lia.
Qed.

Lemma slotAt_lookup b sq : buffer_ok b -> mSlots b !! index b sq = Some (slotAt b sq).
Proof.
  intros Hb. unfold slotAt.
  destruct (lookup_lt_is_Some_2 (mSlots b) _ (index_lt b sq Hb)) as [s E]. by rewrite E.
Qed.

Lemma setSlot_lookup b sq s i :
  buffer_ok b ->
  setSlot b sq s !! i = if decide (i = index b sq) then Some s else mSlots b !! i.
Proof.
  intros Hb. unfold setSlot. case_decide as E.
  - subst. apply list_lookup_insert_eq. by apply index_lt.
  - by apply list_lookup_insert_ne.
Qed.

Lemma setSlot_length b sq s : zlen (setSlot b sq s) = zlen (mSlots b).
Proof. unfold zlen, setSlot. by rewrite length_insert. Qed.

Lemma index_setSlot b sq s n k : index {| mSlots := setSlot b sq s; mSize := n |} k = index b k.
Proof. unfold index; simpl. by rewrite setSlot_length. Qed.

Definition slot_count (s : Slot) : Z := if occupied s then 1 else 0.

Lemma entries_middle l1 s l2 :
  zlen (entries (l1 ++ s :: l2)) = zlen (entries l1) + slot_count s + zlen (entries l2).
Proof.
  unfold entries, slot_count. rewrite omap_app, zlen_app. simpl.
  change (list_omap _ _ slot_entry l2) with (omap slot_entry l2).
  destruct (slot_entry s) eqn:E; unfold slot_entry in E; destruct (occupied s);
    simplify_eq; rewrite ?zlen_cons; lia.
Qed.

Lemma entries_insert l i s s' :
  l !! i = Some s ->
  zlen (entries (<[i := s']> l)) = zlen (entries l) - slot_count s + slot_count s'.
Proof.
  intros E. pose proof (lookup_lt_Some _ _ _ E).
  rewrite insert_take_drop by done. rewrite <- (take_drop_middle l i s E) at 3.
  rewrite !entries_middle. lia.
Qed.

Lemma setSlot_ok b sq s n :
  buffer_ok b -> (occupied s = true -> slot_seq s = sq) ->
  n = mSize b - slot_count (slotAt b sq) + slot_count s ->
  buffer_ok {| mSlots := setSlot b sq s; mSize := n |}.
Proof.
  intros Hb Hs Hn. split; simpl.
  - rewrite setSlot_length. apply Hb.
  - intros i s' E Ho. rewrite index_setSlot. rewrite setSlot_lookup in E by done.
    case_decide; simplify_eq; [by rewrite Hs|]. by apply (ok_home b).
  - rewrite Hn, (ok_size b Hb). symmetry. apply entries_insert. by apply slotAt_lookup.
Qed.

Lemma newBuffer_ok n : 0 <= n < 64 -> buffer_ok (newBuffer (2 ^ n)).
Proof.
  intros Hn. split; simpl.
  - exists n. split; [done|]. apply zlen_replicate. lia.
  - intros i s [-> _]%lookup_replicate. done.
  - unfold entries. induction (Z.to_nat (2 ^ n)); done.
Qed.

(** *** The map of a buffer *)
Lemma elem_of_entries l k v :
  (k, v) ∈ entries l <-> exists i s, l !! i = Some s /\ occupied s = true /\
                                slot_seq s = k /\ value s = v.
Proof.
  unfold entries. rewrite list_elem_of_omap. split.
  - intros (s & (i & Hi)%list_elem_of_lookup & E). unfold slot_entry in E.
    destruct (occupied s) eqn:?; simplify_eq. eauto 10.
  - intros (i & s & Hi & Ho & <- & <-). exists s.
    split; [by apply list_elem_of_lookup_2 in Hi|]. unfold slot_entry. by rewrite Ho.
Qed.

Lemma entries_NoDup l :
  (forall i j s t, l !! i = Some s -> l !! j = Some t -> occupied s = true ->
     occupied t = true -> slot_seq s = slot_seq t -> i = j) ->
  NoDup (entries l).*1.
Proof.
  induction l as [|s l IH]; intros Hu; [constructor|].
  assert (IH' : NoDup (entries l).*1).
  { apply IH. intros i j a b Hi Hj Ha Hb E.
    by apply Nat.succ_inj, (Hu (S i) (S j) a b). }
  change (entries (s :: l)) with
    (match slot_entry s with Some e => e :: entries l | None => entries l end).
  unfold slot_entry. destruct (occupied s) eqn:Ho; [|done].
  simpl. constructor; [|done]. intros ((k & v) & Ek & Hin)%list_elem_of_fmap. simpl in Ek.
  apply elem_of_entries in Hin as (i & t & Hi & Ht & E & _).
  by specialize (Hu 0%nat (S i) s t eq_refl Hi Ho Ht ltac:(congruence)).
Qed.

Lemma buffer_NoDup b : buffer_ok b -> NoDup (entries (mSlots b)).*1.
Proof.
  intros Hb. apply entries_NoDup. intros i j s t Hi Hj Hs Ht E.
  rewrite <- (ok_home b Hb i s), <- (ok_home b Hb j t) by done. by rewrite E.
Qed.

(** [find] is the lookup in that map, *)
Lemma find_map b sq : buffer_ok b -> find b sq = to_map b !! sq.
Proof.
  intros Hb. apply option_eq. intros v. unfold to_map.
  rewrite <- elem_of_list_to_map by by apply buffer_NoDup.
  rewrite elem_of_entries. unfold find. split.
  - destruct (_ && _) eqn:E; [|done]. bool_prop. intros. simplify_eq.
    eexists _, _. split; [by apply slotAt_lookup|]. done.
  - intros (i & s & Hi & Ho & <- & <-).
    assert (E : slotAt b (slot_seq s) = s).
    { unfold slotAt. by rewrite (ok_home b Hb i s), Hi. }
    by rewrite E, Ho, Z.eqb_refl.
Qed.

(** and the count is its size. *)
Lemma size_map b : buffer_ok b -> mSize b = Z.of_nat (size (to_map b)).
Proof.
  intros Hb. unfold to_map. rewrite map_size_list_to_map by by apply buffer_NoDup.
  apply Hb.
Qed.

Lemma empty_map b : buffer_ok b -> empty b = true <-> to_map b = ∅.
Proof.
  intros Hb. unfold empty. rewrite size_map, Z.eqb_eq by done.
  rewrite <- (map_size_empty_iff (to_map b)). lia.
Qed.

Lemma contains_map b sq :
  buffer_ok b -> contains b sq = true <-> is_Some (to_map b !! sq).
Proof. intros Hb. unfold contains. by rewrite bool_decide_eq_true, find_map. Qed.

Lemma contains_false b sq : buffer_ok b -> contains b sq = false <-> to_map b !! sq = None.
Proof.
  intros Hb. unfold contains. rewrite bool_decide_eq_false, find_map by done.
  by rewrite eq_None_not_Some.
Qed.

(** *** The operations as map operations *)
Lemma find_setSlot b sq s n k :
  buffer_ok b ->
  find {| mSlots := setSlot b sq s; mSize := n |} k =
  if decide (index b k = index b sq)
  then if occupied s && (slot_seq s =? k) then Some (value s) else None
  else find b k.
Proof.
  intros Hb. unfold find, slotAt. rewrite index_setSlot. simpl.
  rewrite setSlot_lookup by done. by case_decide.
Qed.

Lemma insert_ok b sq v : buffer_ok b -> buffer_ok (insert b sq v).
Proof.
  intros Hb. apply setSlot_ok; [done..|]. unfold slot_count; simpl.
  destruct (occupied _); lia.
Qed.

Lemma insert_map b sq v :
  buffer_ok b ->
  to_map (insert b sq v) =
  <[sq := v]> (filter (fun kv => index b kv.1 <> index b sq) (to_map b)).
Proof.
  intros Hb. apply map_eq. intros k. rewrite <- find_map by by apply insert_ok.
  unfold insert. rewrite find_setSlot by done. simpl. case_decide as E.
  - destruct (Z.eqb_spec sq k) as [->|].
    + by rewrite lookup_insert_eq.
    + rewrite lookup_insert_ne, map_lookup_filter_None_2; [done| |done].
      right. simpl. intros x _ Hn. by apply Hn.
  - rewrite lookup_insert_ne by (intros ->; done). rewrite find_map by done.
    apply option_eq. intros x. rewrite map_lookup_filter_Some. simpl. naive_solver.
Qed.

(** Two different seqs that are less than a capacity apart do not share a slot. *)
Lemma index_window b k sq :
  buffer_ok b -> k <> sq -> Z.abs (k - sq) < zlen (mSlots b) -> index b k <> index b sq.
Proof.
  intros Hb Hne Hd E. rewrite !index_mod in E by done.
  destruct Hb as [(n & Hn & Hc) _ _]. assert (0 < zlen (mSlots b)) by (rewrite Hc; lia).
  pose proof (Z.mod_pos_bound k (zlen (mSlots b)) ltac:(done)).
  pose proof (Z.mod_pos_bound sq (zlen (mSlots b)) ltac:(done)).
  apply Z2Nat.inj in E; [|lia..].
  pose proof (Z.div_mod k (zlen (mSlots b)) ltac:(lia)).
  pose proof (Z.div_mod sq (zlen (mSlots b)) ltac:(lia)).
  assert (Hm : k - sq = zlen (mSlots b) * (k / zlen (mSlots b) - sq / zlen (mSlots b))) by lia.
  destruct (Z.eq_dec (k / zlen (mSlots b) - sq / zlen (mSlots b)) 0) as [E0|]; [|nia].
  rewrite E0 in Hm. lia.
Qed.

Lemma insert_map_window b sq v :
  buffer_ok b ->
  (forall k, is_Some (to_map b !! k) -> Z.abs (k - sq) < zlen (mSlots b)) ->
  to_map (insert b sq v) = <[sq := v]> (to_map b).
Proof.
  intros Hb Hw. rewrite insert_map by done. apply map_eq. intros k.
  destruct (decide (k = sq)) as [->|]; [by rewrite !lookup_insert_eq|].
  rewrite !lookup_insert_ne by done. apply option_eq. intros x.
  rewrite map_lookup_filter_Some. simpl. split; [tauto|]. intros Hx. split; [done|].
  apply index_window; [done..|]. apply Hw. by eexists.
Qed.

Lemma find_Some_slot b sq v :
  find b sq = Some v ->
  occupied (slotAt b sq) = true /\ slot_seq (slotAt b sq) = sq /\ value (slotAt b sq) = v.
Proof. unfold find. destruct (_ && _) eqn:E; [|done]. bool_prop. intros; by simplify_eq. Qed.

Lemma modify_ok b sq f : buffer_ok b -> buffer_ok (modify b sq f).
Proof.
  intros Hb. unfold modify. destruct (find b sq) as [v|] eqn:E; [|done].
  apply find_Some_slot in E as (Ho & _). apply setSlot_ok; [done..|].
  unfold slot_count; simpl. rewrite Ho. lia.
Qed.

Lemma modify_map b sq f : buffer_ok b -> to_map (modify b sq f) = alter f sq (to_map b).
Proof.
  intros Hb. apply map_eq. intros k. rewrite <- find_map by by apply modify_ok.
  unfold modify. destruct (find b sq) as [v|] eqn:E.
  - rewrite find_setSlot by done. simpl. rewrite lookup_alter. case_decide as Ei.
    + destruct (Z.eqb_spec sq k) as [->|].
      * rewrite decide_True by done. rewrite <- find_map, E by done. done.
      * rewrite decide_False by done. apply find_Some_slot in E as (Ho & Hs & _).
        rewrite <- find_map by done. unfold find, slotAt. rewrite Ei.
        fold (slotAt b sq). rewrite Ho, Hs. by destruct (Z.eqb_spec sq k).
    + rewrite decide_False by (intros ->; done). by rewrite find_map.
  - rewrite find_map by done. rewrite lookup_alter. case_decide as Ei; [subst|done].
    by rewrite <- find_map, E by done.
Qed.

Lemma modify_None b sq f : find b sq = None -> modify b sq f = b.
Proof. unfold modify. by intros ->. Qed.

(** Releasing the slot of an entry that is there removes exactly that entry. *)
Lemma release_map b sq v :
  buffer_ok b -> find b sq = Some v ->
  let b' := {| mSlots := setSlot b sq (releaseSlot (slotAt b sq)); mSize := mSize b - 1 |} in
  buffer_ok b' /\ to_map b' = delete sq (to_map b).
Proof.
  intros Hb Hv b'. apply find_Some_slot in Hv as (Ho & Hs & _).
  assert (Hb' : buffer_ok b').
  { apply setSlot_ok; [done..|]. unfold slot_count. rewrite Ho. simpl. lia. }
  split; [done|]. apply map_eq. intros k. rewrite <- find_map by done.
  unfold b'. rewrite find_setSlot by done. simpl. rewrite lookup_delete.
  case_decide as Ei.
  - case_decide as Ek; [done|]. rewrite <- find_map by done.
    unfold find, slotAt. rewrite Ei. fold (slotAt b sq). rewrite Ho, Hs.
    by destruct (Z.eqb_spec sq k).
  - rewrite decide_False by (intros ->; done). by rewrite find_map.
Qed.

Lemma take_spec b sq :
  buffer_ok b ->
  (take b sq).1 = to_map b !! sq /\ buffer_ok (take b sq).2 /\
  to_map (take b sq).2 = delete sq (to_map b) /\
  zlen (mSlots (take b sq).2) = zlen (mSlots b).
Proof.
  intros Hb. rewrite <- find_map by done.
  assert (E : take b sq = match find b sq with
    | Some v => (Some v, {| mSlots := setSlot b sq (releaseSlot (slotAt b sq)); mSize := mSize b - 1 |})
    | None => (None, b) end).
  { unfold take, find. destruct (occupied _), (Z.eqb_spec (slot_seq (slotAt b sq)) sq); done. }
  rewrite E. destruct (find b sq) as [v|] eqn:Hv; simpl.
  - destruct (release_map b sq v Hb Hv). by rewrite setSlot_length.
  - split_and!; try done. rewrite delete_id; [done|]. by rewrite <- find_map.
Qed.

Lemma erase_spec b sq :
  buffer_ok b ->
  (erase b sq).1 = bool_decide (is_Some (to_map b !! sq)) /\ buffer_ok (erase b sq).2 /\
  to_map (erase b sq).2 = delete sq (to_map b) /\
  zlen (mSlots (erase b sq).2) = zlen (mSlots b).
Proof.
  intros Hb. destruct (take_spec b sq Hb) as (A & B & C & D).
  assert (E : (erase b sq).2 = (take b sq).2 /\
              (erase b sq).1 = bool_decide (is_Some (take b sq).1)).
  { unfold erase, take. by destruct (_ || _). }
  destruct E as [-> ->]. by rewrite A.
Qed.

Lemma insert_capacity b sq v : zlen (mSlots (insert b sq v)) = zlen (mSlots b).
Proof. apply setSlot_length. Qed.

Lemma modify_capacity b sq f : zlen (mSlots (modify b sq f)) = zlen (mSlots b).
Proof. unfold modify. destruct (find b sq); [apply setSlot_length|done]. Qed.

Lemma newBuffer_map n : to_map (newBuffer n) = ∅.
Proof.
  unfold to_map, newBuffer; simpl. replace (entries _) with (@nil (Z * T)); [done|].
  unfold entries. by induction (Z.to_nat n).
Qed.

(** A visitor that keeps every entry sees all of them once and changes nothing. *)
Lemma visit_keep {S : Type} (fn : S -> Z -> T -> S * bool) :
  (forall st k v, (fn st k v).2 = true) ->
  forall l st pre n,
    fold_left (visitStep fn) l (st, {| mSlots := pre; mSize := n |}) =
    (fold_left (fun st e => (fn st e.1 e.2).1) (entries l) st,
     {| mSlots := pre ++ l; mSize := n |}).
Proof.
  intros Hk. induction l as [|s l IH]; intros st pre n; simpl; [by rewrite app_nil_r|].
  change (entries (s :: l)) with
    (match slot_entry s with Some e => e :: entries l | None => entries l end).
  unfold slot_entry, visitStep. destruct (occupied s); simpl.
  - specialize (Hk st (slot_seq s) (value s)).
    destruct (fn st (slot_seq s) (value s)) as [st' keep]; simpl in *. subst keep.
    by rewrite IH, <- app_assoc.
  - by rewrite IH, <- app_assoc.
Qed.

Lemma forEach_keep {S : Type} (fn : S -> Z -> T -> S * bool) (st : S) b :
  (forall st k v, (fn st k v).2 = true) ->
  forEach fn st b = (fold_left (fun st e => (fn st e.1 e.2).1) (entries (mSlots b)) st, b).
Proof. intros Hk. unfold forEach. rewrite visit_keep by done. by destruct b. Qed.

Lemma clearStep_fold l : forall pre n,
  entries pre = [] ->
  let b' := fold_left clearStep l {| mSlots := pre; mSize := n |} in
  entries (mSlots b') = [] /\ mSize b' = n - zlen (entries l) /\
  zlen (mSlots b') = zlen pre + zlen l.
Proof.
  induction l as [|s l IH]; intros pre n Hp; simpl.
  - unfold zlen; simpl. split_and!; [done|lia..].
  - change (entries (s :: l)) with
      (match slot_entry s with Some e => e :: entries l | None => entries l end).
    unfold slot_entry, clearStep at 2 4 6. simpl. destruct (occupied s) eqn:Ho.
    + destruct (IH (pre ++ [releaseSlot s]) (n - 1)) as (A & B & C).
      { unfold entries in *. by rewrite omap_app, Hp. }
      rewrite A, B, C. autorewrite with zlen. split_and!; [done|lia..].
    + destruct (IH (pre ++ [s]) n) as (A & B & C).
      { unfold entries in *. rewrite omap_app, Hp. simpl. unfold slot_entry. by rewrite Ho. }
      rewrite A, B, C. autorewrite with zlen. split_and!; [done|lia..].
Qed.

Lemma clear_map b : buffer_ok b -> buffer_ok (clear b) /\ to_map (clear b) = ∅.
Proof.
  intros Hb. destruct (clearStep_fold (mSlots b) [] (mSize b) eq_refl) as (A & B & C).
  fold (clear b) in A, B, C. rewrite zlen_nil in C. split; [split|].
  - rewrite C. apply Hb.
  - intros i s Hi Ho. exfalso.
    assert (Hin : (slot_seq s, value s) ∈ entries (mSlots (clear b)))
      by (apply elem_of_entries; eauto 10).
    rewrite A in Hin. by apply elem_of_nil in Hin.
  - rewrite A, B, (ok_size b Hb), zlen_nil. lia.
  - unfold to_map. by rewrite A.
Qed.

(** C36: the ring of slots is a finite map from seqs to values.  As long as the seqs that
    are in it and the one that comes in lie within one capacity of each other, [insert],
    [find], [contains], [take], [erase], [empty] and [clear] are the operations of the map,
    and [mSize] is its size; and every operation keeps the invariant of the ring. *)
Theorem buffer_refines_map b sq v :
  buffer_ok b ->
  (forall k, is_Some (to_map b !! k) -> Z.abs (k - sq) < zlen (mSlots b)) ->
  (buffer_ok (insert b sq v) /\ to_map (insert b sq v) = <[sq := v]> (to_map b)) /\
  find b sq = to_map b !! sq /\
  (contains b sq = true <-> is_Some (to_map b !! sq)) /\
  ((take b sq).1 = to_map b !! sq /\ buffer_ok (take b sq).2 /\ to_map (take b sq).2 = delete sq (to_map b)) /\
  ((erase b sq).1 = bool_decide (is_Some (to_map b !! sq)) /\ buffer_ok (erase b sq).2 /\
     to_map (erase b sq).2 = delete sq (to_map b)) /\
  (buffer_ok (clear b) /\ to_map (clear b) = ∅) /\
  mSize b = Z.of_nat (size (to_map b)) /\ (empty b = true <-> to_map b = ∅).
Proof.
  intros Hb Hw. destruct (take_spec b sq Hb) as (? & ? & ? & _). destruct (erase_spec b sq Hb) as (? & ? & ? & _).
  pose proof (clear_map b Hb).
  split; [by split; [apply insert_ok|apply insert_map_window]|]. split; [by apply find_map|].
  split; [by apply contains_map|]. do 3 (split; [done|]). split; [by apply size_map|by apply empty_map].
Qed.
End SequenceBuffer.

Arguments Slot : clear implicits.
Arguments SequenceBuffer : clear implicits.

(** Two seqs around the end of the ring. *)
Lemma buffer_refines_map_witness :
  let b := insert (insert (newBuffer 4) 6 60) 7 70 in
  find b 6 = Some 60 /\ to_map (insert b 9 90) = <[9 := 90]> (to_map b).
Proof.
  intros b. split; [vm_compute; reflexivity|].
  assert (H0 : buffer_ok (newBuffer 4 : SequenceBuffer Z)) by (apply (newBuffer_ok 2); lia).
  apply (buffer_refines_map b 9 90); [by apply insert_ok, insert_ok|].
  assert (E : to_map b = {[6 := 60; 7 := 70]}) by (vm_compute; reflexivity).
  intros k Hk. change (zlen (mSlots b)) with 4. rewrite E in Hk.
  destruct (decide (k = 6)), (decide (k = 7)); try lia.
  rewrite lookup_insert_ne, lookup_singleton_ne in Hk by lia. by destruct Hk.
Defined.
End SeqBuf.
