(* ===== verification/RttEstimator.v ===== *)
(** * Round-trip time and retransmission timeout

    [Channel/Reliability/RttEstimator.h].  Every duration of the estimator is a number of
    microseconds; integer division truncates. *)
From S2P Require Import Prelude Constants.

Module Rtt.

Record RttEstimator := mkRtt {
  mInitialRto : Z;
  mMinRto : Z;
  mMaxRto : Z;
  mRto : Z;
  mSrtt : Z;
  mRttVar : Z;
  mHasSample : bool;
}.
#[global] Instance RttEstimator_eta : Eta RttEstimator := fun r =>
  mkRtt (mInitialRto r) (mMinRto r) (mMaxRto r) (mRto r) (mSrtt r) (mRttVar r) (mHasSample r).

(** [std::clamp] *)
Definition clampTo (lo hi v : Z) : Z := if v <? lo then lo else if hi <? v then hi else v.

Definition clamp (e : RttEstimator) (v : Z) : Z := clampTo (mMinRto e) (mMaxRto e) v.

(** The constructor takes milliseconds. *)
Definition newRttEstimator (initialRto minRto maxRto : Z) : RttEstimator :=
  {| mInitialRto := initialRto * 1000; mMinRto := minRto * 1000; mMaxRto := maxRto * 1000;
     mRto := clampTo (minRto * 1000) (maxRto * 1000) (initialRto * 1000);
     mSrtt := 0; mRttVar := 0; mHasSample := false |}.

Definition addSample (e : RttEstimator) (rtt : Z) : RttEstimator :=
  if rtt <? 0 then e
  else
    let e :=
      if negb (mHasSample e)
      then e <| mSrtt := rtt |> <| mRttVar := Z.quot rtt 2 |> <| mHasSample := true |>
      else
        let delta := if rtt <? mSrtt e then mSrtt e - rtt else rtt - mSrtt e in
        e <| mRttVar := Z.quot (mRttVar e * 3 + delta) 4 |>
          <| mSrtt := Z.quot (mSrtt e * 7 + rtt) 8 |> in
    e <| mRto := clamp e (mSrtt e + Z.max 1000 (mRttVar e * 4)) |>.

Definition reset (e : RttEstimator) : RttEstimator :=
  e <| mHasSample := false |> <| mSrtt := 0 |> <| mRttVar := 0 |>
    <| mRto := clamp e (mInitialRto e) |>.

(** The loop of [timeoutFor]: doubles while the cap is not reached. *)
Fixpoint backoff (attempt : nat) (cap timeout : Z) : Z :=
  match attempt with
  | O => timeout
  | S attempt => if timeout <? cap then backoff attempt cap (timeout * 2) else timeout
  end.

Definition timeoutFor (e : RttEstimator) (attempt : Z) : Z :=
  clamp e (backoff (Z.to_nat attempt) (mMaxRto e) (mRto e)).

(** ** Properties *)
Record rtt_ok (e : RttEstimator) : Prop := {
  rtt_limits : 0 < mMinRto e <= mMaxRto e;
  rtt_rto : mMinRto e <= mRto e <= mMaxRto e;
  rtt_srtt : 0 <= mSrtt e;
  rtt_var : 0 <= mRttVar e;
}.

Lemma clampTo_bounds lo hi v : lo <= hi -> lo <= clampTo lo hi v <= hi.
Proof. unfold clampTo. intros. destruct (Z.ltb_spec v lo), (Z.ltb_spec hi v); lia. Qed.

Lemma clampTo_id lo hi v : lo <= v <= hi -> clampTo lo hi v = v.
Proof. unfold clampTo. intros. destruct (Z.ltb_spec v lo), (Z.ltb_spec hi v); lia. Qed.

Lemma newRttEstimator_ok i lo hi : 0 < lo <= hi -> rtt_ok (newRttEstimator i lo hi).
Proof.
  intros. split; simpl; try lia. pose proof (clampTo_bounds (lo * 1000) (hi * 1000) (i * 1000)). lia.
Qed.

Lemma addSample_ok e rtt : rtt_ok e -> rtt_ok (addSample e rtt).
Proof.
  intros []. unfold addSample. destruct (Z.ltb_spec rtt 0); [by split|].
  destruct (mHasSample e); split; simpl; try done;
    try (apply clampTo_bounds; simpl; lia); apply Z.quot_pos; try lia;
    destruct (Z.ltb_spec rtt (mSrtt e)); lia.
Qed.

Lemma reset_ok e : rtt_ok e -> rtt_ok (reset e).
Proof. intros []. split; simpl; try done. apply clampTo_bounds. lia. Qed.

(** The smoothed value is an average: it stays within any bounds that hold for what it
    was and for the new sample. *)
Lemma addSample_average e rtt lo hi :
  0 <= lo -> lo <= rtt <= hi -> (mHasSample e = true -> lo <= mSrtt e <= hi) ->
  lo <= mSrtt (addSample e rtt) <= hi.
Proof.
  intros Hlo Hr Hs. unfold addSample. destruct (Z.ltb_spec rtt 0); [lia|].
  destruct (mHasSample e); simpl; [|lia].
  specialize (Hs eq_refl). rewrite Z.quot_div_nonneg by lia. Z.div_mod_to_equations. lia.
Qed.

Lemma backoff_closed n cap t :
  0 < t <= cap -> Z.min cap (backoff n cap t) = Z.min cap (t * 2 ^ Z.of_nat n).
Proof.
  revert t. induction n as [|n IH]; intros t Ht.
  - simpl. f_equal. lia.
  - cbn [backoff]. rewrite Nat2Z.inj_succ, Z.pow_succ_r by lia.
    assert (1 <= 2 ^ Z.of_nat n) by lia.
    destruct (Z.ltb_spec t cap) as [Hlt|Hge].
    + destruct (Z.le_gt_cases (t * 2) cap).
      * rewrite IH by lia. f_equal. lia.
      * rewrite !Z.min_l; [done|nia|].
        destruct n as [|n]; [simpl; lia|]. cbn [backoff].
        destruct (Z.ltb_spec (t * 2) cap); lia.
    + assert (t = cap) as -> by lia. rewrite !Z.min_l; [done|nia|lia].
Qed.

Lemma backoff_ge n cap t : 0 < t -> t <= backoff n cap t.
Proof.
  revert t. induction n as [|n IH]; intros t Ht; simpl; [lia|].
  destruct (t <? cap); [|lia]. specialize (IH (t * 2)). lia.
Qed.

(** The loop computes what it stands for: the timeout doubled per attempt, capped. *)
Lemma timeoutFor_closed e n :
  rtt_ok e -> 0 <= n -> timeoutFor e n = Z.min (mMaxRto e) (mRto e * 2 ^ n).
Proof.
  intros [] Hn. unfold timeoutFor, clamp.
  pose proof (backoff_ge (Z.to_nat n) (mMaxRto e) (mRto e) ltac:(lia)).
  pose proof (backoff_closed (Z.to_nat n) (mMaxRto e) (mRto e) ltac:(lia)) as E.
  rewrite Z2Nat.id in E by done. rewrite <- E. unfold clampTo.
  destruct (Z.ltb_spec (backoff (Z.to_nat n) (mMaxRto e) (mRto e)) (mMinRto e)); [lia|].
  destruct (Z.ltb_spec (mMaxRto e) (backoff (Z.to_nat n) (mMaxRto e) (mRto e))); lia.
Qed.

Lemma timeoutFor_pos e n : rtt_ok e -> 0 <= n -> mMinRto e <= timeoutFor e n <= mMaxRto e.
Proof. intros [] _. apply clampTo_bounds. lia. Qed.

(** The estimators there are. *)
Inductive estimates (i lo hi : Z) : RttEstimator -> Prop :=
| estimates_new : estimates i lo hi (newRttEstimator i lo hi)
| estimates_sample e rtt : estimates i lo hi e -> estimates i lo hi (addSample e rtt)
| estimates_reset e : estimates i lo hi e -> estimates i lo hi (reset e).

Lemma estimates_ok i lo hi e : 0 < lo <= hi -> estimates i lo hi e -> rtt_ok e /\ mMinRto e = lo * 1000 /\ mMaxRto e = hi * 1000.
Proof.
  intros Hl. induction 1 as [|e rtt _ (IH & Elo & Ehi)|e _ (IH & Elo & Ehi)].
  - split; [by apply newRttEstimator_ok|done].
  - split; [by apply addSample_ok|]. unfold addSample. destruct (rtt <? 0); [done|]. by destruct (negb _).
  - split; [by apply reset_ok|done].
Qed.

(** The retransmission time-out.  Whatever the samples, negative ones included, it
    stays between the limits that were configured; the loop of [timeoutFor] doubles it per
    attempt up to the upper limit, and a longer row of attempts never shortens it. *)
Theorem timeout_bounded i lo hi e n m :
  0 < lo <= hi -> estimates i lo hi e -> 0 <= n <= m ->
  lo * 1000 <= mRto e <= hi * 1000 /\
  timeoutFor e n = Z.min (hi * 1000) (mRto e * 2 ^ n) /\
  lo * 1000 <= timeoutFor e n <= timeoutFor e m.
Proof.
  intros Hl He Hn. destruct (estimates_ok i lo hi e Hl He) as (Hok & Elo & Ehi).
  pose proof (rtt_rto e Hok) as Hr. pose proof (timeoutFor_pos e n Hok ltac:(lia)) as Hp.
  rewrite !timeoutFor_closed in * by (done || lia). rewrite Elo, Ehi in *. split_and!; try done; try lia.
  apply Z.min_le_compat_l, Z.mul_le_mono_nonneg_l; [lia|]. apply Z.pow_le_mono_r; lia.
Qed.

Lemma timeout_bounded_witness :
  let e := addSample (addSample (newRttEstimator 100 20 1000) 30000) (-5) in
  timeoutFor e 2 = 360000 /\ timeoutFor e 2 = Z.min 1000000 (mRto e * 2 ^ 2).
Proof.
  intros e. split; [vm_compute; reflexivity|].
  apply (timeout_bounded 100 20 1000 e 2 3); [lia| |lia]. unfold e. by repeat constructor.
Defined.

(** The smoothed round-trip time is an average: while all samples lie between two
    bounds, so does it. *)
Theorem average_between e rtt lo hi :
  0 <= lo -> lo <= rtt <= hi -> (mHasSample e = true -> lo <= mSrtt e <= hi) ->
  lo <= mSrtt (addSample e rtt) <= hi.
Proof. apply addSample_average. Qed.

Lemma average_between_witness :
  let e := addSample (newRttEstimator 100 20 1000) 10000 in
  mSrtt (addSample e 18000) = 11000 /\ 10000 <= mSrtt (addSample e 18000) <= 18000.
Proof. intros e. split; [reflexivity|]. apply (average_between e 18000 10000 18000); [lia|lia|simpl; lia]. Defined.
End Rtt.
