(* ===== verification/MessageAssembler.v ===== *)
(** * Putting the fragments of an ordered stream back together

    [Channel/Fragmentation/MessageAssembler.{h,cpp}].  The budget is shared by the
    assemblers of every link: the object a [mBudget] pointer points to is an argument
    and a result of the operations that use it, [None] for a null pointer. *)
From S2P Require Import Prelude Constants PacketFlags PacketHeader.

Record AssembledMessage := mkMessage { msgTag : Z; msgBody : bytes }.

(** ** The shared budget *)
Module Budget.
Record AssemblyBudget := mkBudget { mLimit : Z; mUsed : Z }.
#[global] Instance AssemblyBudget_eta : Eta AssemblyBudget := fun b => mkBudget (mLimit b) (mUsed b).

Definition fits (b : AssemblyBudget) (n : Z) : bool := n <=? u64 (mLimit b - mUsed b).

Definition reserve (b : AssemblyBudget) (n : Z) : bool * AssemblyBudget :=
  if negb (fits b n) then (false, b) else (true, b <| mUsed := u64 (mUsed b + n) |>).

Definition release (b : AssemblyBudget) (n : Z) : AssemblyBudget :=
  b <| mUsed := u64 (mUsed b - n) |>.

Definition budget_ok (b : AssemblyBudget) : Prop := 0 <= mUsed b <= mLimit b /\ mLimit b < 2 ^ 64.
End Budget.
Import Budget.

(** ** The assembler *)
Record MessageAssembler := mkAssembler {
  mAssembling : bool;
  mFragCount : Z;
  mNextIndex : Z;
  mTag : Z;
  mTotalLength : Z;
  mBody : bytes;
}.
#[global] Instance MessageAssembler_eta : Eta MessageAssembler := fun a =>
  mkAssembler (mAssembling a) (mFragCount a) (mNextIndex a) (mTag a) (mTotalLength a) (mBody a).

Definition idle : MessageAssembler :=
  {| mAssembling := false; mFragCount := 0; mNextIndex := 0; mTag := 0; mTotalLength := 0;
     mBody := [] |}.

Definition hasRoomFor (bud : option AssemblyBudget) (h : PacketHeader) : bool :=
  match bud with
  | None => true
  | Some b => negb (startsFragmentedMessage h) || fits b (totalLength h)
  end.

Definition resetAssembler (bud : option AssemblyBudget) (a : MessageAssembler) :
    option AssemblyBudget * MessageAssembler :=
  (match bud with
   | Some b => Some (if mAssembling a then release b (mTotalLength a) else b)
   | None => None
   end, idle).

(** The first fragment: [None] when the message is not taken. *)
Definition beginMessage (bud : option AssemblyBudget) (h : PacketHeader) :
    option (option AssemblyBudget * MessageAssembler) :=
  if (MaxMessagePayload <? totalLength h) || negb (fragmentsOf (totalLength h) =? fragCount h)
  then None
  else
    let started := idle <| mAssembling := true |> <| mFragCount := fragCount h |>
                        <| mTag := tag h |> <| mTotalLength := totalLength h |> in
    match bud with
    | None => Some (None, started)
    | Some b =>
      let '(reserved, b) := reserve b (totalLength h) in
      if reserved then Some (Some b, started) else None
    end.

(** The rest of [accept], with the message in progress. *)
Definition continueMessage (bud : option AssemblyBudget) (a : MessageAssembler)
    (h : PacketHeader) (b : bytes) :
    option AssembledMessage * (option AssemblyBudget * MessageAssembler) :=
  if negb (mAssembling a) || negb (fragCount h =? mFragCount a)
     || negb (fragIndex h =? mNextIndex a)
  then (None, resetAssembler bud a)
  else
    let expected := if isLastFragment (flags h) then u64 (mTotalLength a - zlen (mBody a))
                    else MaxFragmentBody in
    if negb (zlen b =? expected) then (None, resetAssembler bud a)
    else
      let a := a <| mBody ::= fun l => l ++ b |> <| mNextIndex ::= fun i => u16 (i + 1) |> in
      if mNextIndex a <? mFragCount a then (None, (bud, a))
      else (Some {| msgTag := mTag a; msgBody := mBody a |}, resetAssembler bud a).

Definition accept (bud : option AssemblyBudget) (a : MessageAssembler) (h : PacketHeader)
    (b : bytes) : option AssembledMessage * (option AssemblyBudget * MessageAssembler) :=
  if negb (isFragmented (flags h)) then
    (Some {| msgTag := tag h; msgBody := b |}, resetAssembler bud a)
  else if fragIndex h =? 0 then
    let '(bud, a) := resetAssembler bud a in
    match beginMessage bud h with
    | None => (None, (bud, a))
    | Some (bud, a) => continueMessage bud a h b
    end
  else continueMessage bud a h b.

(** ** Accounting

    What an assembler has reserved, and the accounts of the budget: [other] bytes belong
    to other assemblers. *)
Definition reserved (a : MessageAssembler) : Z := if mAssembling a then mTotalLength a else 0.

Definition accounts (other : Z) (bud : option AssemblyBudget) (a : MessageAssembler) : Prop :=
  match bud with
  | None => True
  | Some b => budget_ok b /\ mUsed b = other + reserved a /\ 0 <= other
  end.

(** A message in progress: whole fragments so far, and less than was announced. *)
Definition assembler_ok (a : MessageAssembler) : Prop :=
  if mAssembling a then
    0 <= mTotalLength a <= MaxMessagePayload /\ fragmentsOf (mTotalLength a) = mFragCount a /\
    0 <= mNextIndex a < mFragCount a /\ zlen (mBody a) = mNextIndex a * MaxFragmentBody
  else a = idle.

Lemma resetAssembler_accounts other bud a :
  accounts other bud a -> assembler_ok a ->
  accounts other (resetAssembler bud a).1 (resetAssembler bud a).2.
Proof.
  unfold accounts, resetAssembler, assembler_ok, reserved, budget_ok. destruct bud as [b|]; [|done].
  intros ([Hb Hl] & Hu & Ho) Ha. destruct (mAssembling a); simpl; [|by lia].
  destruct Ha as [Ht _]. rewrite wrap_small by (unfold is_uint; lia). lia.
Qed.

Lemma beginMessage_accounts other bud h bud' a' :
  0 <= totalLength h -> accounts other bud idle -> beginMessage bud h = Some (bud', a') ->
  accounts other bud' a' /\ mAssembling a' = true /\ mNextIndex a' = 0 /\ mBody a' = [] /\
  mFragCount a' = fragCount h /\ mTotalLength a' = totalLength h /\
  totalLength h <= MaxMessagePayload /\ fragmentsOf (totalLength h) = fragCount h.
Proof.
  unfold beginMessage, accounts, reserved, budget_ok. intros Hn Hacc H.
  split_match_in H; [done|]. bool_prop.
  destruct bud as [b|]; [|by simplify_eq/=; split_and!].
  unfold reserve, fits in H. destruct Hacc as ((Hb & Hl) & Hu & Ho). simpl in Hu.
  rewrite wrap_small in H by (unfold is_uint; lia).
  destruct (Z.leb_spec (totalLength h) (mLimit b - mUsed b)); simplify_eq/=.
  rewrite wrap_small by (unfold is_uint; lia). split_and!; try done; lia.
Qed.

Lemma continueMessage_accounts other bud a h b :
  accounts other bud a -> assembler_ok a ->
  isLastFragment (flags h) = (fragIndex h + 1 =? fragCount h) ->
  let r := continueMessage bud a h b in accounts other r.2.1 r.2.2 /\ assembler_ok r.2.2.
Proof.
  intros Hacc Hok Hlast r. unfold r, continueMessage.
  pose proof (resetAssembler_accounts other bud a Hacc Hok) as Hreset.
  destruct (mAssembling a) eqn:Ea; simpl; [|done].
  destruct (negb _ || negb _) eqn:E1; [done|]. bool_prop.
  destruct (negb _) eqn:E2; [done|]. bool_prop. simpl.
  unfold assembler_ok in Hok. rewrite Ea in Hok. destruct Hok as (Ht & Hf & Hi & Hl).
  assert (Hfc : mFragCount a <= 14365).
  { rewrite <- Hf. apply Z.le_trans with (fragmentsOf MaxMessagePayload);
      [apply fragmentsOf_mono; lia|by apply (fragmentsOf_max Reliable)]. }
  rewrite wrap_small by (unfold is_uint; change (2 ^ 16) with 65536; lia).
  destruct (Z.ltb_spec (mNextIndex a + 1) (mFragCount a)) as [Hlt|Hge]; simpl; [|by split].
  split; [by unfold accounts, reserved in *; simpl; rewrite Ea in *|].
  destruct (isLastFragment (flags h)).
  { symmetry in Hlast. bool_prop. lia. }
  unfold assembler_ok; simpl. rewrite Ea, zlen_app, wrap_small
    by (unfold is_uint; change (2 ^ 16) with 65536; lia).
  split_and!; lia.
Qed.

Lemma accept_accounts other bud a h b :
  accounts other bud a -> assembler_ok a -> 0 <= totalLength h ->
  isLastFragment (flags h) = (fragIndex h + 1 =? fragCount h) ->
  let r := accept bud a h b in accounts other r.2.1 r.2.2 /\ assembler_ok r.2.2.
Proof.
  intros Hacc Hok Hlen Hlast r. unfold r, accept.
  pose proof (resetAssembler_accounts other bud a Hacc Hok) as Hreset.
  destruct (isFragmented (flags h)); simpl; [|done].
  destruct (Z.eqb_spec (fragIndex h) 0); [|by apply continueMessage_accounts].
  unfold resetAssembler in *. simpl in *.
  set (bud1 := match bud with Some _ => _ | None => _ end) in *.
  destruct (beginMessage bud1 h) as [[bud2 a2]|] eqn:E; [|done].
  apply (beginMessage_accounts other) in E as (A & B & C & D & F & G & I & J); [|done..].
  apply continueMessage_accounts; [done| |done].
  unfold assembler_ok. rewrite B, C, D, F, G. split_and!; try done.
  rewrite <- J. pose proof (fragmentsOf_pos _ Hlen). lia.
Qed.

(** ** Reassembly

    [carries h b m i]: the packet is the [i]-th fragment of the message [m]. *)
Definition fragment_body (data : bytes) (i : Z) : bytes :=
  ztake MaxFragmentBody (zdrop (i * MaxFragmentBody) data).

Record carries (h : PacketHeader) (b : bytes) (m : AssembledMessage) (i : Z) : Prop := {
  carries_size : zlen (msgBody m) <= MaxMessagePayload;
  carries_index : 0 <= i < fragmentsOf (zlen (msgBody m));
  carries_fragmented : isFragmented (flags h) = (1 <? fragmentsOf (zlen (msgBody m)));
  carries_fields : isFragmented (flags h) = true ->
    fragIndex h = i /\ fragCount h = fragmentsOf (zlen (msgBody m)) /\
    isLastFragment (flags h) = (i + 1 =? fragCount h);
  carries_tag : i = 0 -> tag h = msgTag m;
  carries_length : i = 0 -> isFragmented (flags h) = true -> totalLength h = zlen (msgBody m);
  carries_body : b = fragment_body (msgBody m) i;
}.

(** The assembler holds the first [i] fragments of [m]. *)
Definition holds (m : AssembledMessage) (i : Z) (a : MessageAssembler) : Prop :=
  if i =? 0 then a = idle
  else a = {| mAssembling := true; mFragCount := fragmentsOf (zlen (msgBody m)); mNextIndex := i;
              mTag := msgTag m; mTotalLength := zlen (msgBody m);
              mBody := ztake (i * MaxFragmentBody) (msgBody m) |}.

Lemma fragment_body_append data i :
  0 <= i ->
  ztake (i * MaxFragmentBody) data ++ fragment_body data i = ztake ((i + 1) * MaxFragmentBody) data.
Proof.
  intros Hi. unfold fragment_body. change MaxFragmentBody with 1168. unfold ztake, zdrop.
  replace (Z.to_nat ((i + 1) * 1168)) with (Z.to_nat (i * 1168) + Z.to_nat 1168)%nat by lia.
  apply take_take_drop.
Qed.

Lemma fragment_body_length data i :
  0 <= i < fragmentsOf (zlen data) ->
  zlen (fragment_body data i) =
  if i + 1 =? fragmentsOf (zlen data) then zlen data - i * MaxFragmentBody else MaxFragmentBody.
Proof.
  intros Hi. unfold fragment_body. autorewrite with zlen. pose proof (zlen_nonneg data).
  change MaxFragmentBody with 1168 in *.
  destruct (Z.eq_dec (zlen data) 0) as [E|].
  { rewrite E in *. change (fragmentsOf 0) with 1 in *. destruct (Z.eqb_spec (i + 1) 1); lia. }
  pose proof (proj1 (fragmentsOf_spec (zlen data) _ ltac:(lia)) eq_refl) as B.
  change MaxFragmentBody with 1168 in B.
  destruct (Z.eqb_spec (i + 1) (fragmentsOf (zlen data))); lia.
Qed.

Lemma fragment_count_max m :
  zlen (msgBody m) <= MaxMessagePayload -> fragmentsOf (zlen (msgBody m)) <= 14365.
Proof.
  intros H. apply Z.le_trans with (fragmentsOf MaxMessagePayload).
  - apply fragmentsOf_mono. pose proof (zlen_nonneg (msgBody m)). lia.
  - by apply (fragmentsOf_max Reliable).
Qed.

(** The next fragment of a message that is in progress. *)
Lemma continueMessage_next bud m i a h b :
  carries h b m i -> isFragmented (flags h) = true ->
  a = {| mAssembling := true; mFragCount := fragmentsOf (zlen (msgBody m)); mNextIndex := i;
         mTag := msgTag m; mTotalLength := zlen (msgBody m);
         mBody := ztake (i * MaxFragmentBody) (msgBody m) |} ->
  continueMessage bud a h b =
  if i + 1 =? fragmentsOf (zlen (msgBody m)) then (Some m, resetAssembler bud a)
  else (None, (bud, a <| mBody := ztake ((i + 1) * MaxFragmentBody) (msgBody m) |>
                      <| mNextIndex := i + 1 |>)).
Proof.
  intros [Hs Hi _ Hf _ _ ->] Hfr ->. destruct (Hf Hfr) as (Ei & Ec & El).
  pose proof (fragment_count_max m Hs) as Hmax. pose proof (zlen_nonneg (msgBody m)).
  unfold continueMessage. cbn [mAssembling mFragCount mNextIndex mTotalLength mBody negb orb].
  rewrite Ei, Ec, !Z.eqb_refl, El, Ec. simpl negb. simpl orb.
  rewrite fragment_body_length by done.
  assert (El' : zlen (ztake (i * MaxFragmentBody) (msgBody m)) = i * MaxFragmentBody).
  { rewrite zlen_ztake. destruct (Z.eq_dec i 0) as [->|]; [lia|].
    unfold fragmentsOf in Hi. destruct (Z.eqb_spec (zlen (msgBody m)) 0); [lia|].
    change MaxFragmentBody with 1168 in *. Z.div_mod_to_equations. lia. }
  rewrite El'. change MaxMessagePayload with 16777216 in Hs.
  assert (Hw : i + 1 = fragmentsOf (zlen (msgBody m)) ->
               u64 (zlen (msgBody m) - i * MaxFragmentBody) = zlen (msgBody m) - i * MaxFragmentBody).
  { intros E. apply wrap_small. unfold is_uint. rewrite zlen_ztake in El'. lia. }
  assert (Hn : u16 (i + 1) = i + 1).
  { apply wrap_small. unfold is_uint. change (2 ^ 16) with 65536. lia. }
  destruct (Z.eqb_spec (i + 1) (fragmentsOf (zlen (msgBody m)))) as [E|E].
  - rewrite Hw, Z.eqb_refl by done. cbn. rewrite Hn.
    destruct (Z.ltb_spec (i + 1) (fragmentsOf (zlen (msgBody m)))); [lia|].
    rewrite fragment_body_append by lia. f_equal. f_equal. rewrite ztake_ge; [by destruct m|].
    rewrite E. unfold fragmentsOf. destruct (Z.eqb_spec (zlen (msgBody m)) 0) as [->|];
      change MaxFragmentBody with 1168; [lia|]. Z.div_mod_to_equations. lia.
  - rewrite Z.eqb_refl. cbn. rewrite Hn.
    destruct (Z.ltb_spec (i + 1) (fragmentsOf (zlen (msgBody m)))); [|lia].
    unfold update. cbn. by rewrite Hn, fragment_body_append by lia.
Qed.

Lemma continueMessage_holds bud m i a h b :
  carries h b m i -> isFragmented (flags h) = true ->
  a = {| mAssembling := true; mFragCount := fragmentsOf (zlen (msgBody m)); mNextIndex := i;
         mTag := msgTag m; mTotalLength := zlen (msgBody m);
         mBody := ztake (i * MaxFragmentBody) (msgBody m) |} ->
  let last := i + 1 =? fragmentsOf (zlen (msgBody m)) in
  let r := continueMessage bud a h b in
  r.1 = (if last then Some m else None) /\ holds m (if last then 0 else i + 1) r.2.2.
Proof.
  intros Hc Hfr Ha last r. unfold r. erewrite continueMessage_next by done. fold last.
  destruct last; [done|]. split; [done|]. unfold holds.
  pose proof (carries_index _ _ _ _ Hc). destruct (Z.eqb_spec (i + 1) 0); [lia|].
  rewrite Ha. done.
Qed.

(** Accepting the next fragment of [m] completes the message exactly when it is the last
    one. *)
Lemma accept_next bud m i a h b :
  holds m i a -> carries h b m i -> hasRoomFor bud h = true ->
  let last := i + 1 =? fragmentsOf (zlen (msgBody m)) in
  let r := accept bud a h b in
  r.1 = (if last then Some m else None) /\ holds m (if last then 0 else i + 1) r.2.2.
Proof.
  intros Ha Hc Hroom last r. pose proof Hc as [Hs Hi Hfr Hf Ht Hl Hb].
  unfold r, accept. destruct (isFragmented (flags h)) eqn:Efr; cbn [negb].
  2:{ symmetry in Hfr. bool_prop. assert (i = 0) as -> by lia. unfold last.
      assert (fragmentsOf (zlen (msgBody m)) = 1) as E by lia. rewrite E. simpl.
      split; [|done]. rewrite Ht, Hb by done. unfold fragment_body.
      rewrite zdrop_0, ztake_ge; [by destruct m|].
      unfold fragmentsOf in E. destruct (Z.eqb_spec (zlen (msgBody m)) 0) as [->|];
        change MaxFragmentBody with 1168 in *; [lia|]. Z.div_mod_to_equations. lia. }
  destruct (Hf eq_refl) as (Ei & Ec & El). unfold holds in Ha.
  destruct (Z.eqb_spec (fragIndex h) 0) as [E0|E0].
  2:{ apply continueMessage_holds; [done..|]. by destruct (Z.eqb_spec i 0); [lia|]. }
  assert (i = 0) as -> by lia. simpl in Ha. subst a.
  assert (Hr : resetAssembler bud idle = (bud, idle)) by (destruct bud; done).
  rewrite Hr. unfold beginMessage. rewrite Hl, Ec, Z.eqb_refl by done.
  destruct (Z.ltb_spec MaxMessagePayload (zlen (msgBody m))); [lia|]. cbn [negb orb].
  destruct bud as [bud|]; [|by apply continueMessage_holds; [done..|rewrite Ht]].
  unfold hasRoomFor, startsFragmentedMessage in Hroom. rewrite Efr, E0 in Hroom. simpl in Hroom.
  unfold reserve. rewrite <- Hl, Hroom by done. simpl.
  apply continueMessage_holds; [done..|]. by rewrite Ht, Hl.
Qed.

(** ** Whole messages *)
Fixpoint acceptAll (bud : option AssemblyBudget) (a : MessageAssembler) (ps : list (PacketHeader * bytes)) :
    list AssembledMessage * (option AssemblyBudget * MessageAssembler) :=
  match ps with
  | [] => ([], (bud, a))
  | (h, b) :: ps =>
    let '(m, (bud, a)) := accept bud a h b in
    let '(ms, r) := acceptAll bud a ps in (option_list m ++ ms, r)
  end.

Lemma wire_last h : wire_header h -> isLastFragment (flags h) = (fragIndex h + 1 =? fragCount h).
Proof.
  intros Hw. pose proof (wh_fragment _ Hw) as Hf. pose proof (wh_valid _ Hw) as Hv. unfold isValid in Hv.
  destruct (isFragmented (flags h)); [tauto|]. destruct Hf as [-> ->].
  destruct (has (flags h) Encrypted); [done|]. by destruct (isLastFragment (flags h)).
Qed.

Lemma wire_length h : wire_header h -> 0 <= totalLength h.
Proof.
  intros Hw. pose proof (wh_length _ Hw) as Hl. destruct (startsFragmentedMessage h); [|lia].
  destruct Hl as ([? _] & _). done.
Qed.

(** C38: the budget for messages in progress is kept to the byte.  With every fragment whose
    header the decoder accepts, in whatever order they come, it stays so that [mUsed] is what the others hold plus what this assembler has
    reserved, and it never exceeds the limit, nor drops below zero; the assembler holds
    what its next fragment continues, at most [MaxMessagePayload] bytes. *)
Theorem assembly_accounts other bud a h b :
  accounts other bud a -> assembler_ok a -> wire_header h ->
  let r := accept bud a h b in accounts other r.2.1 r.2.2 /\ assembler_ok r.2.2.
Proof. intros Ha Hok Hw. by apply accept_accounts; [..|apply wire_length|apply wire_last]. Qed.

Lemma acceptAll_from n : forall bud m i a ps,
  holds m i a -> 0 <= i < fragmentsOf (zlen (msgBody m)) -> zlen ps = fragmentsOf (zlen (msgBody m)) - i ->
  (forall j h b, ps !! j = Some (h, b) -> carries h b m (i + Z.of_nat j)) ->
  (forall h b, ps !! 0%nat = Some (h, b) -> hasRoomFor bud h = true) -> length ps = n ->
  exists bud', acceptAll bud a ps = ([m], (bud', idle)).
Proof.
  induction n as [|n IH]; intros bud m i a [|[h b] ps] Hh Hi Hlen Hc Hroom Hn; try done.
  { rewrite zlen_nil in Hlen. lia. }
  pose proof (Hc 0%nat h b eq_refl) as Hc0. rewrite Z.add_0_r in Hc0.
  destruct (accept_next bud m i a h b Hh Hc0 (Hroom h b eq_refl)) as [Er Hnext].
  cbn [acceptAll]. destruct (accept bud a h b) as [r [bud1 a1]]. cbn [fst snd] in Er, Hnext.
  rewrite zlen_cons in Hlen. destruct (Z.eqb_spec (i + 1) (fragmentsOf (zlen (msgBody m)))) as [E|E].
  - destruct ps as [|p ps]; [|rewrite zlen_cons in Hlen; pose proof (zlen_nonneg ps); lia].
    exists bud1. rewrite Er. simpl in *. by rewrite Hnext.
  - destruct (IH bud1 m (i + 1) a1 ps) as (bud' & Eall); try done.
    + lia.
    + lia.
    + intros j h' b' Hj. replace (i + 1 + Z.of_nat j) with (i + Z.of_nat (Datatypes.S j)) by lia. by apply Hc.
    + intros h' b' Hj. pose proof (Hc 1%nat h' b' Hj) as Hc1. unfold hasRoomFor, startsFragmentedMessage.
      destruct bud1 as [bd|]; [|done].
      destruct (isFragmented (flags h')) eqn:Ef; [|done].
      destruct (carries_fields _ _ _ _ Hc1 Ef) as (-> & _).
      destruct (Z.eqb_spec (i + Z.of_nat 1) 0); [lia|done].
    + simpl in Hn. lia.
    + exists bud'. rewrite Eall, Er. done.
Qed.

(** C39: a message that was cut into fragments comes out whole.  An idle assembler that
    has room for the message and is given its fragments in order hands out exactly that
    message, tag and body, with the last fragment and nothing before, and is idle again. *)
Theorem reassembles bud m ps :
  zlen ps = fragmentsOf (zlen (msgBody m)) ->
  (forall i h b, ps !! i = Some (h, b) -> carries h b m (Z.of_nat i)) ->
  (forall h b, ps !! 0%nat = Some (h, b) -> hasRoomFor bud h = true) ->
  exists bud', acceptAll bud idle ps = ([m], (bud', idle)).
Proof.
  intros Hlen Hc Hroom. pose proof (fragmentsOf_pos _ (zlen_nonneg (msgBody m))).
  apply (acceptAll_from (length ps) bud m 0); try done; lia.
Qed.

(** A message of two fragments. *)
Definition sampleMessage : AssembledMessage := {| msgTag := 7; msgBody := replicate 1200 Byte.x41 |}.
Definition sampleHeader (i : Z) : PacketHeader :=
  {| flags := setFragment true (i =? 1) (dataFlags Bulk); srcStreamID := 1; dstStreamID := 2; seq := 5 + i;
     fragIndex := i; fragCount := 2; tag := if i =? 0 then 7 else 0; totalLength := if i =? 0 then 1200 else 0 |}.
Definition sampleFragments : list (PacketHeader * bytes) :=
  [(sampleHeader 0, replicate 1168 Byte.x41); (sampleHeader 1, replicate 32 Byte.x41)].

Lemma sample_carries i h b : sampleFragments !! i = Some (h, b) -> carries h b sampleMessage (Z.of_nat i).
Proof.
  destruct i as [|[|i]]; intros [= <- <-]; split; try (vm_compute; (reflexivity || discriminate || done)).
Qed.

Lemma reassembles_witness :
  let bud := Some {| mLimit := 2000; mUsed := 500 |} in
  acceptAll bud idle sampleFragments = ([sampleMessage], (bud, idle)) /\
  exists bud', acceptAll bud idle sampleFragments = ([sampleMessage], (bud', idle)).
Proof.
  intros bud. split; [vm_compute; reflexivity|].
  apply (reassembles bud sampleMessage sampleFragments).
  - vm_compute. reflexivity.
  - exact sample_carries.
  - intros h b [= <- <-]. vm_compute. reflexivity.
Defined.

Lemma sample_wire : wire_header (sampleHeader 0).
Proof. split; try (vm_compute; (reflexivity || discriminate || congruence || (split_and!; congruence))). Qed.

Lemma assembly_accounts_witness :
  let bud := Some {| mLimit := 2000; mUsed := 500 |} in
  let r := accept bud idle (sampleHeader 0) (replicate 1168 Byte.x41) in
  r.2.1 = Some {| mLimit := 2000; mUsed := 1700 |} /\ accounts 500 r.2.1 r.2.2 /\ assembler_ok r.2.2.
Proof.
  intros bud r. split; [vm_compute; reflexivity|].
  apply (assembly_accounts 500 bud idle (sampleHeader 0) (replicate 1168 Byte.x41)); [|reflexivity|exact sample_wire].
  split; [split; [split; vm_compute; congruence|vm_compute; reflexivity]|split; vm_compute; congruence].
Defined.
