(* ===== verification/MediaAssembler.v ===== *)
(** * Putting the fragments of unacknowledged messages together

    [Channel/Fragmentation/MediaAssembler.{h,cpp}].  Fragments arrive in any order and
    some never arrive; a message is identified by the seq of its first datagram. *)
From S2P Require Import Prelude Constants PacketFlags PacketHeader MessageAssembler.

Module MediaAsm.

Record Slot := mkSlot {
  used : bool;
  id : Z;
  count : Z;
  received : Z;
  present : Z;
  slotTag : Z;
  slotLength : Z;
  lastLength : Z;
  slotBody : bytes;
}.
#[global] Instance Slot_eta : Eta Slot := fun s =>
  mkSlot (used s) (id s) (count s) (received s) (present s) (slotTag s) (slotLength s)
    (lastLength s) (slotBody s).

Definition emptySlot : Slot :=
  {| used := false; id := 0; count := 0; received := 0; present := 0; slotTag := 0;
     slotLength := 0; lastLength := 0; slotBody := [] |}.

Record MediaAssembler := mkMedia { mSlots : list Slot; mAbandoned : Z }.
#[global] Instance MediaAssembler_eta : Eta MediaAssembler := fun a =>
  mkMedia (mSlots a) (mAbandoned a).

Definition newMediaAssembler : MediaAssembler :=
  {| mSlots := replicate MediaAssemblySlots emptySlot; mAbandoned := 0 |}.

(** [std::vector::resize] of a vector of bytes. *)
Definition resize (n : Z) (l : bytes) : bytes :=
  ztake n l ++ replicate (Z.to_nat (n - zlen l)) Byte.x00.

(** The loop of [slotFor]: either the slot of the message, or the last free slot and the
    oldest slot in use, each with its position. *)
Record Scan := mkScan { scanFree : option nat; scanOldest : option (nat * Z) }.

Fixpoint scanSlots (sid : Z) (i : nat) (l : list Slot) (s : Scan) : nat + Scan :=
  match l with
  | [] => inr s
  | slot :: l =>
    if used slot && (id slot =? sid) then inl i
    else
      let s :=
        if negb (used slot) then {| scanFree := Some i; scanOldest := scanOldest s |}
        else match scanOldest s with
             | None => {| scanFree := scanFree s; scanOldest := Some (i, id slot) |}
             | Some (_, oldest) =>
               if id slot <? oldest
               then {| scanFree := scanFree s; scanOldest := Some (i, id slot) |} else s
             end in
      scanSlots sid (S i) l s
  end.

Definition claimSlot (sid cnt : Z) (slot : Slot) : Slot :=
  slot <| used := true |> <| id := sid |> <| count := cnt |>
       <| slotBody ::= resize (cnt * MaxFragmentBody) |>.

Definition slotFor (a : MediaAssembler) (sid cnt : Z) : option nat * MediaAssembler :=
  match scanSlots sid 0 (mSlots a) {| scanFree := None; scanOldest := None |} with
  | inl i => (Some i, a)
  | inr s =>
    match scanFree s, scanOldest s with
    | Some i, _ => (Some i, a <| mSlots ::= alter (claimSlot sid cnt) i |>)
    | None, None => (None, a)
    | None, Some (i, oldest) =>
      if sid <? oldest then (None, a)
      else (Some i,
            {| mSlots := <[i := claimSlot sid cnt emptySlot]> (mSlots a);
               mAbandoned := u64 (mAbandoned a + 1) |})
    end
  end.

(** [memcpy] into the body of the slot and the bookkeeping after it. *)
Definition storeFragment (slot : Slot) (h : PacketHeader) (b : bytes) : Slot :=
  let slot :=
    slot <| slotBody ::= fun l => blit l (fragIndex h * MaxFragmentBody) b |>
         <| present ::= fun p => Z.lor p (u64 (Z.shiftl 1 (fragIndex h))) |>
         <| received ::= fun n => u16 (n + 1) |> in
  let slot := if fragIndex h =? 0
              then slot <| slotTag := tag h |> <| slotLength := totalLength h |> else slot in
  if isLastFragment (flags h) then slot <| lastLength := u32 (zlen b) |> else slot.

Definition completed (slot : Slot) : option AssembledMessage :=
  let length := (count slot - 1) * MaxFragmentBody + lastLength slot in
  if length =? slotLength slot
  then Some {| msgTag := slotTag slot; msgBody := resize length (slotBody slot) |}
  else None.

(** [accept] once the slot of the message is found. *)
Definition acceptIn (a : MediaAssembler) (i : nat) (slot : Slot) (h : PacketHeader) (b : bytes) :
    option AssembledMessage * MediaAssembler :=
  if negb (count slot =? fragCount h)
     || negb (Z.land (present slot) (u64 (Z.shiftl 1 (fragIndex h))) =? 0)
  then (None, a)
  else
    let slot := storeFragment slot h b in
    if received slot <? count slot
    then (None, a <| mSlots ::= <[i := slot]> |>)
    else (completed slot, a <| mSlots ::= <[i := emptySlot]> |>).

Definition accept (a : MediaAssembler) (h : PacketHeader) (b : bytes) :
    option AssembledMessage * MediaAssembler :=
  if negb (isFragmented (flags h)) then (Some {| msgTag := tag h; msgBody := b |}, a)
  else if (64 <? fragCount h) || (seq h <=? fragIndex h) then (None, a)
  else if (if isLastFragment (flags h)
           then (zlen b =? 0) || (MaxFragmentBody <? zlen b)
           else negb (zlen b =? MaxFragmentBody)) then (None, a)
  else
    let '(where_, a) := slotFor a (u64 (seq h - fragIndex h)) (fragCount h) in
    match i ← where_; slot ← mSlots a !! i; Some (i, slot) with
    | None => (None, a)
    | Some (i, slot) => acceptIn a i slot h b
    end.

Definition inProgress (a : MediaAssembler) : Z := zlen (filter (fun s => used s = true) (mSlots a)).

(** ** The slots

    An unused slot is the default one.  A used one has room for the fragments announced,
    and [received] counts the bits of [present]. *)
Definition bits (p n : Z) : Z := zlen (filter (fun i => Z.testbit p i = true) (seqZ 0 n)).

Record slot_ok (s : Slot) : Prop := {
  slot_count : 2 <= count s <= 64;
  slot_present : 0 <= present s < 2 ^ count s;
  slot_received : received s = bits (present s) (count s) /\ received s < count s;
  slot_room : zlen (slotBody s) = count s * MaxFragmentBody;
}.

Record media_ok (a : MediaAssembler) : Prop := {
  media_slots : length (mSlots a) = MediaAssemblySlots;
  media_slot : forall i s, mSlots a !! i = Some s -> if used s then slot_ok s else s = emptySlot;
  media_ids : forall i j s t, mSlots a !! i = Some s -> mSlots a !! j = Some t ->
    used s = true -> used t = true -> id s = id t -> i = j;
}.

(** *** Finding a slot *)
Definition scan_inv (sid : Z) (l : list Slot) (s : Scan) : Prop :=
  (forall k t, l !! k = Some t -> used t = true -> id t <> sid) /\
  match scanFree s with
  | Some k => exists t, l !! k = Some t /\ used t = false
  | None => forall k t, l !! k = Some t -> used t = true
  end /\
  match scanOldest s with
  | Some (k, o) => (exists t, l !! k = Some t /\ used t = true /\ id t = o) /\
                   (forall j t, l !! j = Some t -> used t = true -> o <= id t)
  | None => forall k t, l !! k = Some t -> used t = false
  end.

Lemma lookup_snoc {A} (l : list A) x k y :
  (l ++ [x]) !! k = Some y <-> l !! k = Some y \/ k = length l /\ y = x.
Proof.
  rewrite lookup_app_Some, list_lookup_singleton_Some. split.
  - intros [?|(? & ? & ?)]; [tauto|right; split; [lia|done]].
  - intros [?|[-> ->]]; [tauto|right; split; [lia|split; [lia|done]]].
Qed.

Lemma scanSlots_spec sid l : forall pre s,
  scan_inv sid pre s ->
  match scanSlots sid (length pre) l s with
  | inl k => exists t, (pre ++ l) !! k = Some t /\ used t = true /\ id t = sid
  | inr s' => scan_inv sid (pre ++ l) s'
  end.
Proof.
  induction l as [|t l IH]; intros pre s Hs; simpl; [by rewrite app_nil_r|].
  destruct (used t && (id t =? sid)) eqn:E.
  { bool_prop. exists t. rewrite list_lookup_middle by done. done. }
  replace (pre ++ t :: l) with ((pre ++ [t]) ++ l) by by rewrite <- app_assoc.
  replace (S (length pre)) with (length (pre ++ [t])) by (rewrite length_app; simpl; lia).
  apply IH. clear IH. destruct s as [fr old], Hs as (Hn & Hf & Ho). cbn [scanFree scanOldest] in *.
  assert (Hn' : forall k t', (pre ++ [t]) !! k = Some t' -> used t' = true -> id t' <> sid).
  { intros k t' [?|[-> ->]]%lookup_snoc Hu; [by eapply Hn|]. intros Hid. rewrite Hu, Hid in E.
    by rewrite Z.eqb_refl in E. }
  destruct (used t) eqn:Hu; cbn [negb].
  - assert (Hfree : match fr with
      | Some k => exists t', (pre ++ [t]) !! k = Some t' /\ used t' = false
      | None => forall k t', (pre ++ [t]) !! k = Some t' -> used t' = true end).
    { destruct fr as [k|].
      - destruct Hf as (t' & ? & ?). exists t'. split; [|done]. apply lookup_snoc. tauto.
      - intros k t' [?|[-> ->]]%lookup_snoc; [by eapply Hf|done]. }
    destruct old as [[k o]|].
    + destruct Ho as [(t' & Hk & Hu' & <-) Hmin]. destruct (Z.ltb_spec (id t) (id t')).
      * unfold scan_inv; cbn; split_and!; [done..| |].
        -- exists t. rewrite lookup_snoc. tauto.
        -- intros j t1 [Hj|[-> ->]]%lookup_snoc Hu1; [|done]. specialize (Hmin _ _ Hj Hu1). lia.
      * unfold scan_inv; cbn; split_and!; [done..| |].
        -- exists t'. rewrite lookup_snoc. tauto.
        -- intros j t1 [Hj|[-> ->]]%lookup_snoc Hu1; [by eauto|lia].
    + unfold scan_inv; cbn; split_and!; [done..| |].
      * exists t. rewrite lookup_snoc. tauto.
      * intros j t1 [Hj|[-> ->]]%lookup_snoc Hu1; [|done]. specialize (Ho _ _ Hj). congruence.
  - unfold scan_inv; cbn; split; [done|]; split.
    + exists t. rewrite lookup_snoc. tauto.
    + destruct old as [[k o]|].
      * destruct Ho as [(t' & Hk & Hu' & <-) Hmin]. split.
        -- exists t'. rewrite lookup_snoc. tauto.
        -- intros j t1 [Hj|[-> ->]]%lookup_snoc Hu1; [by eauto|congruence].
      * intros j t1 [Hj|[-> ->]]%lookup_snoc; [by eauto|done].
Qed.

Lemma scan_start sid : scan_inv sid [] {| scanFree := None; scanOldest := None |}.
Proof. by split_and!. Qed.

Lemma resize_grow n : 0 <= n -> resize n [] = replicate (Z.to_nat n) Byte.x00.
Proof. intros. unfold resize, ztake. rewrite take_nil, zlen_nil, Z.sub_0_r. done. Qed.

Definition freshSlot (sid cnt : Z) : Slot := claimSlot sid cnt emptySlot.

Lemma bits_0 n : bits 0 n = 0.
Proof.
  unfold bits. induction (seqZ 0 n) as [|i l IH]; [done|].
  rewrite filter_cons, decide_False by by rewrite Z.testbit_0_l. done.
Qed.

Lemma freshSlot_ok sid cnt : 2 <= cnt <= 64 -> slot_ok (freshSlot sid cnt).
Proof.
  intros. split; simpl.
  - done.
  - lia.
  - rewrite bits_0. lia.
  - change MaxFragmentBody with 1168. rewrite resize_grow, zlen_replicate; lia.
Qed.

Definition untracked (a : MediaAssembler) (sid : Z) : Prop :=
  forall i s, mSlots a !! i = Some s -> used s = true -> id s <> sid.

Lemma insert_media_ok a i sid s :
  media_ok a -> (i < length (mSlots a))%nat -> slot_ok s -> used s = true -> id s = sid ->
  (untracked a sid \/ exists t, mSlots a !! i = Some t /\ used t = true /\ id t = sid) ->
  forall n, media_ok {| mSlots := <[i := s]> (mSlots a); mAbandoned := n |}.
Proof.
  intros [Hl Hs Hid] Hi Hok Hu Hsid Hun n. split; cbn [mSlots].
  - by rewrite length_insert.
  - intros j t [(<- & <- & _)|[? ?]]%list_lookup_insert_Some; [by rewrite Hu|by eapply Hs].
  - intros j k t1 t2 [(<- & <- & _)|[? H1]]%list_lookup_insert_Some
      [(<- & <- & _)|[? H2]]%list_lookup_insert_Some U1 U2 E; [done| | |by eapply Hid].
    + destruct Hun as [Hun|(t & Ht & Htu & Hti)].
      * exfalso. eapply Hun; [exact H2|done|congruence].
      * eapply Hid; [exact Ht|exact H2|done..|congruence].
    + destruct Hun as [Hun|(t & Ht & Htu & Hti)].
      * exfalso. eapply Hun; [exact H1|done|congruence].
      * eapply Hid; [exact H1|exact Ht|done..|congruence].
Qed.

Lemma alter_slots (a : MediaAssembler) f i t :
  mSlots a !! i = Some t -> alter f i (mSlots a) = <[i := f t]> (mSlots a).
Proof.
  intros E. apply list_eq. intros j. destruct (decide (j = i)) as [->|].
  - by rewrite list_lookup_alter_eq, E, list_lookup_insert_eq by by eapply lookup_lt_Some.
  - by rewrite list_lookup_alter_ne, list_lookup_insert_ne.
Qed.

(** [slotFor] finds the slot of a message that is being put together, claims a free slot
    or gives the oldest message up, and refuses only a message older than all of them. *)
Lemma slotFor_spec a sid cnt :
  media_ok a -> 2 <= cnt <= 64 ->
  let '(r, a') := slotFor a sid cnt in
  match r with
  | Some i =>
    (exists t, mSlots a !! i = Some t /\ used t = true /\ id t = sid /\ a' = a) \/
    (exists t, mSlots a !! i = Some t /\ untracked a sid /\
      mSlots a' = <[i := freshSlot sid cnt]> (mSlots a) /\
      (used t = true -> (forall j s, mSlots a !! j = Some s -> used s = true /\ id t <= id s) /\ id t <= sid))
  | None => a' = a /\ untracked a sid /\
            forall i s, mSlots a !! i = Some s -> used s = true
  end /\ media_ok a'.
Proof.
  intros Ha Hc. pose proof (scanSlots_spec sid (mSlots a) [] _ (scan_start sid)) as Hscan.
  unfold slotFor. simpl length in Hscan. simpl app in Hscan.
  destruct (scanSlots sid 0 (mSlots a) _) as [k|[fr old]].
  { destruct Hscan as (t & ? & ? & ?). split; [|done]. left. eauto. }
  destruct Hscan as (Hn & Hf & Ho). cbn [scanFree scanOldest] in *.
  destruct fr as [k|].
  - destruct Hf as (t & Hk & Hu). pose proof (media_slot a Ha k t Hk) as Et. rewrite Hu in Et.
    assert (E : mSlots (a <| mSlots ::= alter (claimSlot sid cnt) k |>) =
                <[k := freshSlot sid cnt]> (mSlots a)).
    { simpl. rewrite (alter_slots a _ k t Hk). by rewrite Et. }
    split.
    + right. exists t. split_and!; [done|done|exact E|congruence].
    + unfold update in *. simpl in *. rewrite E. apply (insert_media_ok _ _ sid); try done.
      * by eapply lookup_lt_Some.
      * by apply freshSlot_ok.
      * by left.
  - destruct old as [[k o]|]; [|by split_and!].
    destruct Ho as [(t & Hk & Hu & <-) Hmin]. destruct (Z.ltb_spec sid (id t)).
    + by split_and!.
    + split.
      * right. exists t. split_and!; [done|done|done|]. intros _. split; [|done].
        intros j s Hj. split; [by eapply Hf|]. eapply Hmin; [done|by eapply Hf].
      * apply (insert_media_ok _ _ sid); try done.
        -- by eapply lookup_lt_Some.
        -- by apply freshSlot_ok.
        -- by left.
Qed.

(** *** Counting the fragments that arrived *)
Lemma bit_free p i :
  0 <= i -> (Z.land p (Z.shiftl 1 i) =? 0) = negb (Z.testbit p i).
Proof.
  intros Hi. rewrite Z.shiftl_1_l. destruct (Z.testbit p i) eqn:E; cbn [negb].
  - apply Z.eqb_neq. intros H. assert (H' := f_equal (fun z => Z.testbit z i) H). simpl in H'.
    rewrite Z.land_spec, E, Z.pow2_bits_true, Z.testbit_0_l in H' by done. done.
  - apply Z.eqb_eq. apply Z.bits_inj'. intros n Hn.
    rewrite Z.land_spec, Z.pow2_bits_eqb, Z.testbit_0_l by done.
    destruct (Z.eqb_spec i n) as [->|]; [by rewrite E|apply andb_false_r].
Qed.

Lemma testbit_set p i j :
  0 <= i -> Z.testbit (Z.lor p (Z.shiftl 1 i)) j = Z.testbit p j || (i =? j).
Proof. intros. by rewrite Z.lor_spec, Z.shiftl_1_l, Z.pow2_bits_eqb. Qed.

Lemma filter_set p i (l : list Z) :
  0 <= i -> Z.testbit p i = false -> NoDup l ->
  zlen (filter (fun j => Z.testbit (Z.lor p (Z.shiftl 1 i)) j = true) l) =
  zlen (filter (fun j => Z.testbit p j = true) l) + (if decide (i ∈ l) then 1 else 0).
Proof.
  intros Hi Hb. induction 1 as [|j l Hj Hl IH]; [by rewrite decide_False by set_solver|].
  rewrite !filter_cons, testbit_set by done. destruct (Z.eqb_spec i j) as [<-|].
  - rewrite orb_true_r, decide_True, (decide_False (P := Z.testbit p i = true)),
      (decide_True (P := i ∈ i :: l)), zlen_cons, IH, decide_False by (congruence || set_solver).
    lia.
  - rewrite orb_false_r. repeat case_decide; rewrite ?zlen_cons, IH; try lia; set_solver.
Qed.

Lemma bits_set p i n :
  0 <= i < n -> Z.testbit p i = false -> bits (Z.lor p (Z.shiftl 1 i)) n = bits p n + 1.
Proof.
  intros Hi Hb. unfold bits. rewrite filter_set; [|lia|done|apply NoDup_seqZ].
  rewrite decide_True; [done|]. apply elem_of_seqZ. lia.
Qed.

Lemma filter_full {A} (P : A -> Prop) `{!forall x, Decision (P x)} (l : list A) :
  zlen (filter P l) <= zlen l /\ (zlen (filter P l) = zlen l -> Forall P l).
Proof.
  induction l as [|x l [IH1 IH2]]; [done|]. rewrite filter_cons. case_decide.
  - rewrite !zlen_cons. split; [lia|]. intros. constructor; [done|]. apply IH2. lia.
  - rewrite zlen_cons. split; lia.
Qed.

Lemma bits_le p n : 0 <= n -> bits p n <= n.
Proof.
  intros. unfold bits. pose proof (filter_full (fun i => Z.testbit p i = true) (seqZ 0 n)) as [B _].
  unfold zlen in B at 2. rewrite length_seqZ in B. lia.
Qed.

Lemma bits_full p n i : bits p n = n -> 0 <= i < n -> Z.testbit p i = true.
Proof.
  intros Hb Hi. pose proof (filter_full (fun i => Z.testbit p i = true) (seqZ 0 n)) as [_ B].
  unfold zlen in B at 2. rewrite length_seqZ, Z2Nat.id in B by lia.
  specialize (B Hb). rewrite Forall_forall in B. apply B, elem_of_seqZ. lia.
Qed.

Lemma shift_small i : 0 <= i < 64 -> u64 (Z.shiftl 1 i) = Z.shiftl 1 i.
Proof.
  intros. apply wrap_small. unfold is_uint. rewrite Z.shiftl_1_l.
  split; [lia|]. apply Z.pow_lt_mono_r; lia.
Qed.

(** What [decodeHeader] and the guards of [accept] leave of a fragment. *)
Record fragment_in (s : Slot) (h : PacketHeader) (b : bytes) : Prop := {
  fi_count : count s = fragCount h;
  fi_index : 0 <= fragIndex h < fragCount h;
  fi_last : isLastFragment (flags h) = (fragIndex h + 1 =? fragCount h);
  fi_size : zlen b <= MaxFragmentBody;
  fi_new : Z.testbit (present s) (fragIndex h) = false;
}.

(** The copy stays within the slot's body. *)
Lemma fragment_room s h b :
  slot_ok s -> fragment_in s h b ->
  0 <= fragIndex h * MaxFragmentBody /\
  fragIndex h * MaxFragmentBody + zlen b <= zlen (slotBody s).
Proof.
  intros [Hc _ _ Hr] [Ec Hi _ Hb _]. rewrite Hr, Ec. change MaxFragmentBody with 1168 in *. lia.
Qed.

Lemma storeFragment_fields s h b :
  used (storeFragment s h b) = used s /\ id (storeFragment s h b) = id s /\
  count (storeFragment s h b) = count s /\
  received (storeFragment s h b) = u16 (received s + 1) /\
  present (storeFragment s h b) = Z.lor (present s) (u64 (Z.shiftl 1 (fragIndex h))) /\
  slotBody (storeFragment s h b) = blit (slotBody s) (fragIndex h * MaxFragmentBody) b /\
  slotTag (storeFragment s h b) = (if fragIndex h =? 0 then tag h else slotTag s) /\
  slotLength (storeFragment s h b) = (if fragIndex h =? 0 then totalLength h else slotLength s) /\
  lastLength (storeFragment s h b) =
    (if isLastFragment (flags h) then u32 (zlen b) else lastLength s).
Proof.
  unfold storeFragment. by destruct (fragIndex h =? 0), (isLastFragment (flags h)).
Qed.

Lemma storeFragment_ok s h b :
  slot_ok s -> fragment_in s h b ->
  let s' := storeFragment s h b in
  received s' = bits (present s') (count s') /\ received s' <= count s' /\
  (received s' < count s' -> slot_ok s').
Proof.
  intros Hs Hf. pose proof (fragment_room s h b Hs Hf) as [R0 R1].
  destruct Hs as [Hc Hp [Hr Hlt] Hb], Hf as [Ec Hi _ Hsz Hn].
  destruct (storeFragment_fields s h b) as (_ & _ & Fc & Fr & Fp & Fb & _).
  intros s'. unfold s'. rewrite Fc, Fr, Fp, shift_small by lia.
  assert (Er : u16 (received s + 1) = bits (Z.lor (present s) (Z.shiftl 1 (fragIndex h))) (count s)).
  { pose proof (zlen_nonneg (filter (fun i => Z.testbit (present s) i = true) (seqZ 0 (count s)))).
    rewrite bits_set by (done || lia). rewrite <- Hr. apply wrap_small. unfold is_uint, bits in *.
    change (2 ^ 16) with 65536. lia. }
  rewrite Er. split; [done|]. split; [apply bits_le; lia|]. intros Hlt'.
  split; rewrite ?Fc, ?Fr, ?Fp, ?Fb, ?shift_small by lia.
  - done.
  - split; [apply Z.lor_nonneg; split; [lia|apply Z.shiftl_nonneg; lia]|].
    apply Z.log2_lt_cancel. rewrite Z.log2_pow2 by lia. rewrite Z.log2_lor by
      (try apply Z.shiftl_nonneg; lia).
    rewrite Z.shiftl_1_l, Z.log2_pow2 by lia.
    destruct (Z.eq_dec (present s) 0) as [->|]; [simpl; lia|].
    assert (Z.log2 (present s) < count s) by (apply Z.log2_lt_pow2; lia). lia.
  - by rewrite Er.
  - by rewrite zlen_blit.
Qed.

(** ** Reassembly in any order

    [slot_holds m s]: the fragments that [present] names are those of [m]. *)
Record slot_holds (m : AssembledMessage) (s : Slot) : Prop := {
  sh_count : count s = fragmentsOf (zlen (msgBody m));
  sh_bytes : forall i k, Z.testbit (present s) i = true ->
    i * MaxFragmentBody <= k < (i + 1) * MaxFragmentBody -> k < zlen (msgBody m) ->
    zlookup (slotBody s) k = zlookup (msgBody m) k;
  sh_first : Z.testbit (present s) 0 = true ->
    slotTag s = msgTag m /\ slotLength s = zlen (msgBody m);
  sh_last : Z.testbit (present s) (count s - 1) = true ->
    (count s - 1) * MaxFragmentBody + lastLength s = zlen (msgBody m);
}.

Lemma freshSlot_holds m sid :
  slot_holds m (freshSlot sid (fragmentsOf (zlen (msgBody m)))).
Proof.
  assert (E : forall i, Z.testbit (present (freshSlot sid (fragmentsOf (zlen (msgBody m))))) i = false)
    by (intros i; apply Z.testbit_0_l).
  split; [done|..]; intros *; by rewrite E.
Qed.

Lemma fragment_body_lookup data i k :
  0 <= i -> 0 <= k < MaxFragmentBody ->
  zlookup (fragment_body data i) k = zlookup data (i * MaxFragmentBody + k).
Proof.
  intros. unfold fragment_body. rewrite zlookup_ztake, zlookup_zdrop by
    (change MaxFragmentBody with 1168 in *; lia). done.
Qed.

Lemma carries_fragment_in m s h b :
  slot_holds m s -> carries h b m (fragIndex h) -> isFragmented (flags h) = true ->
  Z.testbit (present s) (fragIndex h) = false -> fragment_in s h b.
Proof.
  intros Hs [Hsz Hi Hfr Hf Ht Hl ->] Efr Hn. destruct (Hf Efr) as (_ & Ec & El).
  split; [by rewrite (sh_count m s Hs), Ec|by rewrite Ec|by rewrite El|..|done].
  unfold fragment_body. rewrite zlen_ztake. change MaxFragmentBody with 1168. lia.
Qed.

Lemma storeFragment_holds m s h b :
  slot_ok s -> slot_holds m s -> carries h b m (fragIndex h) ->
  isFragmented (flags h) = true -> Z.testbit (present s) (fragIndex h) = false ->
  slot_holds m (storeFragment s h b).
Proof.
  intros Hok Hs Hc Efr Hn. pose proof (carries_fragment_in m s h b Hs Hc Efr Hn) as Hf.
  pose proof (fragment_room s h b Hok Hf) as [R0 R1].
  destruct (storeFragment_fields s h b) as (_ & _ & Fc & _ & Fp & Fb & Ft & Fl & FL).
  pose proof Hc as [Hsz Hi _ Hfi Htag Hlen Eb]. destruct (Hfi Efr) as (_ & Ec & El).
  pose proof (slot_count s Hok) as Hc64. rewrite (fi_count _ _ _ Hf) in Hc64.
  pose proof (fragment_body_length (msgBody m) (fragIndex h) Hi) as Lb. rewrite <- Eb in Lb.
  rewrite shift_small in Fp by lia.
  split; rewrite ?Fc, ?Fp, ?Fb, ?Ft, ?Fl, ?FL.
  - apply Hs.
  - intros i k. rewrite testbit_set by lia. intros Hi' Hk Hkm.
    change MaxFragmentBody with 1168 in *.
    destruct (Z.eqb_spec (fragIndex h) i) as [<-|Hne].
    + rewrite zlookup_blit by lia.
      destruct (Z.leb_spec (fragIndex h * 1168) k); [|lia].
      destruct (Z.ltb_spec k (fragIndex h * 1168 + zlen b)); cbn [andb].
      * rewrite Eb, fragment_body_lookup; change MaxFragmentBody with 1168 in *; [|lia..].
        f_equal. lia.
      * exfalso. destruct (Z.eqb_spec (fragIndex h + 1) (fragmentsOf (zlen (msgBody m)))); lia.
    + rewrite orb_false_r in Hi'.
      assert (Ht : zlookup (slotBody s) k = zlookup (msgBody m) k).
      { eapply (sh_bytes m s Hs i); change MaxFragmentBody with 1168; done. }
      rewrite <- Ht. destruct (Z.lt_ge_cases k 0).
      { unfold zlookup. by destruct (Z.ltb_spec k 0); [|lia]. }
      rewrite zlookup_blit by lia. pose proof (fi_size _ _ _ Hf).
      change MaxFragmentBody with 1168 in *.
      destruct (Z.leb_spec (fragIndex h * 1168) k), (Z.ltb_spec k (fragIndex h * 1168 + zlen b));
        cbn [andb]; try done. lia.
  - rewrite testbit_set by lia. destruct (Z.eqb_spec (fragIndex h) 0) as [E|].
    + rewrite E in *. by rewrite Htag, Hlen.
    + rewrite orb_false_r. apply Hs.
  - rewrite testbit_set by lia. rewrite El, <- (fi_count _ _ _ Hf).
    destruct (Z.eqb_spec (fragIndex h) (count s - 1)) as [E|].
    + intros _. destruct (Z.eqb_spec (fragIndex h + 1) (count s)); [|lia].
      rewrite <- (sh_count m s Hs) in Lb.
      destruct (Z.eqb_spec (fragIndex h + 1) (count s)); [|lia].
      pose proof (fi_size _ _ _ Hf). pose proof (zlen_nonneg b).
      rewrite wrap_small by (unfold is_uint; change MaxFragmentBody with 1168 in *; lia).
      rewrite Lb, E. lia.
    + rewrite orb_false_r. destruct (Z.eqb_spec (fragIndex h + 1) (count s)); [lia|]. apply Hs.
Qed.

(** A slot with every fragment gives the message back. *)
Lemma completed_holds m s :
  slot_holds m s -> zlen (slotBody s) = count s * MaxFragmentBody -> 2 <= count s ->
  (forall i, 0 <= i < count s -> Z.testbit (present s) i = true) ->
  completed s = Some m.
Proof.
  intros Hs Hr Hc Hall. destruct (sh_first m s Hs (Hall 0 ltac:(lia))) as [Et El].
  pose proof (sh_last m s Hs (Hall (count s - 1) ltac:(lia))) as Elast.
  unfold completed. rewrite Elast, El, Z.eqb_refl, Et. f_equal. destruct m as [t data]; simpl in *.
  f_equal. pose proof (zlen_nonneg data).
  assert (Hle : zlen data <= zlen (slotBody s)).
  { rewrite Hr. pose proof (sh_count _ s Hs) as E. simpl in E. symmetry in E.
    destruct (Z.eq_dec (zlen data) 0) as [E0|].
    { rewrite E0 in E. change (fragmentsOf 0) with 1 in E. lia. }
    rewrite fragmentsOf_spec in E by lia. lia. }
  unfold resize. replace (zlen data - zlen (slotBody s)) with (Z.min 0 (zlen data - zlen (slotBody s))) by lia.
  replace (Z.to_nat (Z.min 0 _)) with 0%nat by lia. simpl. rewrite app_nil_r.
  apply list_eq_zlookup. intros k Hk. destruct (Z.lt_ge_cases k (zlen data)) as [Hlt|].
  - rewrite zlookup_ztake by done. change MaxFragmentBody with 1168 in *.
    apply (sh_bytes _ s Hs (k / 1168)); change MaxFragmentBody with 1168; simpl; [|Z.div_mod_to_equations; lia|done].
    apply Hall. Z.div_mod_to_equations. lia.
  - rewrite !zlookup_ge; [done|done|]. rewrite zlen_ztake. lia.
Qed.

(** *** Many messages at once

    [msgs] says which message starts with which seq. *)
Definition media_holds (msgs : Z -> option AssembledMessage) (a : MediaAssembler) : Prop :=
  forall i s, mSlots a !! i = Some s -> used s = true ->
    exists m, msgs (id s) = Some m /\ slot_holds m s.

(** A packet of one of them. *)
Record media_packet (msgs : Z -> option AssembledMessage) (h : PacketHeader) (b : bytes)
    (m : AssembledMessage) : Prop := {
  mp_carries : carries h b m (fragIndex h);
  mp_size : zlen (msgBody m) <= MaxMediaPayload;
  mp_start : msgs (seq h - fragIndex h) = Some m;
  mp_seq : fragIndex h < seq h < 2 ^ 64;
}.

Lemma media_update a i s t n :
  media_ok a -> mSlots a !! i = Some t -> used t = true -> used s = true -> id s = id t ->
  slot_ok s -> media_ok {| mSlots := <[i := s]> (mSlots a); mAbandoned := n |}.
Proof.
  intros Ha Hi Ht Hu E Hs. apply (insert_media_ok a i (id t)); try done.
  - by eapply lookup_lt_Some.
  - right. eauto.
Qed.

Lemma media_release a i n :
  media_ok a -> media_ok {| mSlots := <[i := emptySlot]> (mSlots a); mAbandoned := n |}.
Proof.
  intros [Hl Hs Hid]. split; cbn [mSlots].
  - by rewrite length_insert.
  - intros j t [(<- & <- & _)|[? ?]]%list_lookup_insert_Some; [done|by eapply Hs].
  - intros j k t1 t2 [(<- & <- & _)|[? H1]]%list_lookup_insert_Some
      [(<- & <- & _)|[? H2]]%list_lookup_insert_Some U1 U2 E; try done. by eapply Hid.
Qed.

Lemma acceptIn_honest msgs a i s h b m :
  media_ok a -> media_holds msgs a -> mSlots a !! i = Some s -> used s = true ->
  slot_holds m s -> slot_ok s -> msgs (id s) = Some m ->
  carries h b m (fragIndex h) -> isFragmented (flags h) = true ->
  let r := acceptIn a i s h b in
  (r.1 = None \/ r.1 = Some m) /\ media_ok r.2 /\ media_holds msgs r.2.
Proof.
  intros Ha Hm Hi Hu Hs Hok Hid Hc Hfr r. unfold r, acceptIn.
  pose proof Hc as [_ Hidx _ Hf _ _ _]. destruct (Hf Hfr) as (_ & Ec & _).
  rewrite (sh_count m s Hs), <- Ec, Z.eqb_refl. cbn [negb orb].
  pose proof (slot_count s Hok) as H64. rewrite (sh_count m s Hs), <- Ec in H64.
  rewrite shift_small, bit_free, negb_involutive by lia.
  destruct (Z.testbit (present s) (fragIndex h)) eqn:Eb; [by split; [left|]|].
  pose proof (carries_fragment_in m s h b Hs Hc Hfr Eb) as Hin.
  pose proof (storeFragment_holds m s h b Hok Hs Hc Hfr Eb) as Hs'.
  destruct (storeFragment_ok s h b Hok Hin) as (Er & Hle & Hok').
  destruct (storeFragment_fields s h b) as (Fu & Fi & Fc & _ & _ & Fb & _).
  cbn zeta. destruct (Z.ltb_spec (received (storeFragment s h b)) (count (storeFragment s h b))).
  - split; [by left|]. split; [apply (media_update a i _ s); try done; auto; congruence|].
    intros j t [(<- & <- & _)|[? ?]]%list_lookup_insert_Some Ht; [|by eapply Hm].
    exists m. by rewrite Fi.
  - split; [right|].
    + apply completed_holds; [done|..].
      * destruct (fragment_room s h b Hok Hin). rewrite Fb, Fc, zlen_blit by done. apply Hok.
      * rewrite Fc. apply Hok.
      * intros k Hk. apply (bits_full _ (count (storeFragment s h b))); [lia|done].
    + split; [by apply media_release|].
      intros j t [(<- & <- & _)|[? ?]]%list_lookup_insert_Some Ht; [done|by eapply Hm].
Qed.

(** Integrity: whatever the order, the losses and the duplicates, [accept] only ever
    returns the message the packet belongs to. *)
Lemma accept_honest msgs a h b m :
  media_ok a -> media_holds msgs a -> media_packet msgs h b m ->
  let r := accept a h b in
  (r.1 = None \/ r.1 = Some m) /\ media_ok r.2 /\ media_holds msgs r.2.
Proof.
  intros Ha Hm [Hc Hsz Hst Hseq] r. unfold r, accept. pose proof Hc as [_ Hi Hfr Hf Ht Hl Hb].
  destruct (isFragmented (flags h)) eqn:Efr; cbn [negb].
  2:{ split; [right|done]. f_equal. destruct m as [t data]; simpl in *.
      symmetry in Hfr. bool_prop. assert (E : fragmentsOf (zlen data) = 1) by lia.
      assert (E0 : fragIndex h = 0) by lia.
      rewrite Ht, Hb by done. f_equal. rewrite E0. unfold fragment_body.
      rewrite zdrop_0, ztake_ge; [done|]. pose proof (zlen_nonneg data).
      destruct (Z.eq_dec (zlen data) 0) as [->|]; [done|].
      apply fragmentsOf_spec in E; lia. }
  destruct (_ || _) eqn:E1; [by split; [left|]|].
  destruct (if isLastFragment (flags h) then _ else _) eqn:E2; [by split; [left|]|]. clear E2.
  bool_prop. destruct (Hf eq_refl) as (_ & Ec & El). symmetry in Hfr. apply Z.ltb_lt in Hfr.
  assert (H64 : 2 <= fragCount h <= 64) by lia.
  rewrite (wrap_small 64) by (unfold is_uint; lia).
  pose proof (slotFor_spec a (seq h - fragIndex h) (fragCount h) Ha H64) as Hslot.
  destruct (slotFor a (seq h - fragIndex h) (fragCount h)) as [[i|] a'].
  2:{ destruct Hslot as [(-> & _) ?]. by split; [left|]. }
  destruct Hslot as [Hcase Ha'].
  assert (Hs : exists s, mSlots a' !! i = Some s /\ used s = true /\ slot_holds m s /\
                 id s = seq h - fragIndex h /\ media_holds msgs a').
  { destruct Hcase as [(s & Hi1 & Hu & Hid & ->)|(s & Hi1 & Hun & E & _)].
    - exists s. destruct (Hm i s Hi1 Hu) as (m' & Hm' & Hs). rewrite Hid, Hst in Hm'. by simplify_eq.
    - exists (freshSlot (seq h - fragIndex h) (fragCount h)). rewrite E.
      rewrite list_lookup_insert_eq by by eapply lookup_lt_Some.
      assert (slot_holds m (freshSlot (seq h - fragIndex h) (fragCount h)))
        by (rewrite Ec; apply freshSlot_holds).
      split_and!; try done. intros j t. rewrite E.
      intros [(<- & <- & _)|[? ?]]%list_lookup_insert_Some Hu; [eauto|by eapply Hm]. }
  destruct Hs as (s & Hi1 & Hu & Hs & Hid & Hm'). simpl. rewrite Hi1. simpl.
  pose proof (media_slot a' Ha' i s Hi1) as Hok. rewrite Hu in Hok.
  apply (acceptIn_honest msgs a' i s h b m); try done. by rewrite Hid.
Qed.

(** *** Every packet that [decodeHeader] lets through *)
Lemma guarded_size last (b : bytes) :
  (if last : bool then (zlen b =? 0) || (MaxFragmentBody <? zlen b)
   else negb (zlen b =? MaxFragmentBody)) = false -> zlen b <= MaxFragmentBody.
Proof. destruct last; intros; bool_prop; lia. Qed.

Lemma slotFor_found a sid cnt i a' :
  media_ok a -> 2 <= cnt <= 64 -> slotFor a sid cnt = (Some i, a') ->
  media_ok a' /\ exists s, mSlots a' !! i = Some s /\ used s = true /\ id s = sid /\ slot_ok s.
Proof.
  intros Ha Hc E. pose proof (slotFor_spec a sid cnt Ha Hc) as H. rewrite E in H.
  destruct H as [Hcase Ha']. split; [done|].
  destruct Hcase as [(s & Hi & Hu & Hid & ->)|(s & Hi & _ & E' & _)].
  - exists s. pose proof (media_slot a Ha i s Hi) as Hok. by rewrite Hu in Hok.
  - exists (freshSlot sid cnt). rewrite E', list_lookup_insert_eq by by eapply lookup_lt_Some.
    split_and!; try done. by apply freshSlot_ok.
Qed.

Lemma acceptIn_ok a i s h b :
  media_ok a -> mSlots a !! i = Some s -> used s = true -> slot_ok s ->
  0 <= fragIndex h < fragCount h -> fragCount h <= 64 ->
  isLastFragment (flags h) = (fragIndex h + 1 =? fragCount h) -> zlen b <= MaxFragmentBody ->
  media_ok (acceptIn a i s h b).2.
Proof.
  intros Ha Hi Hu Hok Hidx H64 Hlast Hsz. unfold acceptIn.
  destruct (negb _ || negb _) eqn:E; [done|]. bool_prop. rewrite shift_small in * by lia.
  assert (Hin : fragment_in s h b).
  { split; try done. match goal with H : Z.land _ _ = 0 |- _ => apply Z.eqb_eq in H; rewrite bit_free in H by lia end.
    by bool_prop. }
  destruct (storeFragment_ok s h b Hok Hin) as (_ & _ & Hok').
  destruct (storeFragment_fields s h b) as (Fu & Fi & _).
  cbn zeta. destruct (Z.ltb_spec (received (storeFragment s h b)) (count (storeFragment s h b))).
  - apply (media_update a i _ s); try done; auto; congruence.
  - by apply media_release.
Qed.

(** The invariant holds after any packet, also after one nobody sent. *)
Lemma accept_ok a h b : media_ok a -> wire_header h -> media_ok (accept a h b).2.
Proof.
  intros Ha Hw. unfold accept. pose proof (wh_fragment h Hw) as Hf.
  destruct (isFragmented (flags h)); [|done]. cbn [negb].
  destruct Hf as (Hi & _ & Hc & Hlt & Hlast). unfold is_uint in Hi.
  destruct (_ || _) eqn:E1; [done|]. bool_prop.
  destruct (if isLastFragment (flags h) then _ else _) eqn:E2; [done|]. apply guarded_size in E2.
  pose proof (slotFor_spec a (u64 (seq h - fragIndex h)) (fragCount h) Ha ltac:(lia)) as Hslot.
  destruct (slotFor a _ _) as [[i|] a'] eqn:E; [|by destruct Hslot].
  apply slotFor_found in E as (Ha' & s & Hs & Hu & _ & Hok); [|done|lia].
  simpl. rewrite Hs. simpl. by apply acceptIn_ok; try lia.
Qed.

Lemma newMediaAssembler_ok : media_ok newMediaAssembler.
Proof.
  split; [done|..].
  - intros i s [-> _]%lookup_replicate. done.
  - intros i j s t [-> _]%lookup_replicate. done.
Qed.

(** At most [MediaAssemblySlots] messages are in progress, whoever sends. *)
Lemma inProgress_bound a : media_ok a -> 0 <= inProgress a <= Z.of_nat MediaAssemblySlots.
Proof.
  intros Ha. unfold inProgress. split; [apply zlen_nonneg|].
  rewrite <- (media_slots a Ha). apply filter_full.
Qed.

(** *** Completeness

    [tracks a sid m l]: the fragments [l] of [m] are in, and nothing else of it. *)
Definition tracks (a : MediaAssembler) (sid : Z) (m : AssembledMessage) (l : list Z) : Prop :=
  if decide (l = []) then
    untracked a sid /\ exists i s, mSlots a !! i = Some s /\ used s = false
  else
    exists i s, mSlots a !! i = Some s /\ used s = true /\ id s = sid /\ slot_holds m s /\
      forall j, 0 <= j -> Z.testbit (present s) j = bool_decide (j ∈ l).

Lemma bits_list p n (l : list Z) :
  NoDup l -> (forall j, j ∈ l -> 0 <= j < n) ->
  (forall j, 0 <= j -> Z.testbit p j = bool_decide (j ∈ l)) -> bits p n = zlen l.
Proof.
  intros Hl Hr Hp. unfold bits, zlen. f_equal. apply Permutation_length, NoDup_Permutation; [|done|].
  - apply NoDup_filter, NoDup_seqZ.
  - intros j. rewrite list_elem_of_filter, elem_of_seqZ. split.
    + intros [Hb Hj]. rewrite Hp in Hb by lia. by bool_prop.
    + intros Hj. specialize (Hr j Hj). rewrite Hp by lia. split; [by apply bool_decide_eq_true|lia].
Qed.

Lemma slotFor_tracks a sid m l :
  media_ok a -> 2 <= fragmentsOf (zlen (msgBody m)) <= 64 -> tracks a sid m l ->
  exists i s a', slotFor a sid (fragmentsOf (zlen (msgBody m))) = (Some i, a') /\ media_ok a' /\
    mSlots a' !! i = Some s /\ used s = true /\ id s = sid /\ slot_ok s /\ slot_holds m s /\
    forall j, 0 <= j -> Z.testbit (present s) j = bool_decide (j ∈ l).
Proof.
  intros Ha Hn Ht. pose proof (slotFor_spec a sid _ Ha Hn) as H.
  destruct (slotFor a sid _) as [[i|] a'] eqn:E.
  2:{ destruct H as [(_ & Hun & Hall) _]. unfold tracks in Ht. case_decide.
      - destruct Ht as (_ & i & s & Hi & Hu). specialize (Hall i s Hi). congruence.
      - destruct Ht as (i & s & Hi & Hu & Hid & _). by destruct (Hun i s). }
  destruct H as [Hcase Ha'].
  destruct (slotFor_found _ _ _ _ _ Ha Hn E) as (_ & s & Hs & Hu & Hid & Hok).
  exists i, s, a'. split_and!; try done.
  - destruct Hcase as [(t & Ht1 & Ht2 & Ht3 & ->)|(t & Ht1 & Hun & E' & _)].
    + rewrite Hs in Ht1. simplify_eq. unfold tracks in Ht. case_decide.
      * by destruct Ht as (Hun & _), (Hun i t).
      * destruct Ht as (i' & t' & Hi' & Hu' & Hid' & Hh & _).
        assert (i' = i) as -> by (eapply (media_ids a Ha); by eauto). by simplify_eq.
    + rewrite E', list_lookup_insert_eq in Hs by by eapply lookup_lt_Some. injection Hs as <-.
      apply freshSlot_holds.
  - destruct Hcase as [(t & Ht1 & Ht2 & Ht3 & ->)|(t & Ht1 & Hun & E' & _)].
    + rewrite Hs in Ht1. simplify_eq. unfold tracks in Ht. case_decide.
      * by destruct Ht as (Hun & _), (Hun i t).
      * destruct Ht as (i' & t' & Hi' & Hu' & Hid' & Hh & Hp).
        assert (i' = i) as -> by (eapply (media_ids a Ha); by eauto). by simplify_eq.
    + rewrite E', list_lookup_insert_eq in Hs by by eapply lookup_lt_Some. injection Hs as <-.
      unfold tracks in Ht. case_decide; [subst|].
      * intros j _. rewrite bool_decide_eq_false_2 by set_solver. apply Z.testbit_0_l.
      * destruct Ht as (i' & t' & Hi' & Hu' & Hid' & _). by destruct (Hun i' t').
Qed.

(** The slot a fragment of a message goes to, in which the fragments [l] of it are. *)
Lemma accept_finds a sid m l j h b :
  media_ok a -> tracks a sid m l -> 2 <= fragmentsOf (zlen (msgBody m)) <= 64 -> 0 <= j < fragmentsOf (zlen (msgBody m)) ->
  0 < sid -> sid + j < 2 ^ 64 -> seq h = sid + j -> fragIndex h = j -> 0 < zlen b <= MaxFragmentBody ->
  zlen b = (if j + 1 =? fragmentsOf (zlen (msgBody m)) then zlen (msgBody m) - j * MaxFragmentBody else MaxFragmentBody) ->
  isFragmented (flags h) = true -> fragCount h = fragmentsOf (zlen (msgBody m)) ->
  isLastFragment (flags h) = (j + 1 =? fragmentsOf (zlen (msgBody m))) ->
  exists i s a', accept a h b = acceptIn a' i s h b /\ media_ok a' /\
    mSlots a' !! i = Some s /\ used s = true /\ id s = sid /\ slot_ok s /\ slot_holds m s /\
    forall j, 0 <= j -> Z.testbit (present s) j = bool_decide (j ∈ l).
Proof.
  intros Ha Ht Hn Hi Hsid Hmax Es Ei Hb Lb Efr Ec El.
  destruct (slotFor_tracks a sid m l Ha Hn Ht) as (i & s & a' & E & Ha' & Hs & Hrest).
  exists i, s, a'. split; [|done]. unfold accept. rewrite Efr, Es, Ei, Ec. cbn [negb].
  destruct (Z.ltb_spec 64 (fragmentsOf (zlen (msgBody m)))); [lia|].
  destruct (Z.leb_spec (sid + j) j); [lia|]. cbn [orb].
  replace (sid + j - j) with sid by lia. rewrite (wrap_small 64) by (unfold is_uint; lia).
  rewrite El. destruct (Z.eqb_spec (j + 1) (fragmentsOf (zlen (msgBody m)))).
  - destruct (Z.eqb_spec (zlen b) 0), (Z.ltb_spec MaxFragmentBody (zlen b)); try lia.
    cbn [orb]. rewrite E. simpl. by rewrite Hs.
  - rewrite Lb, Z.eqb_refl. cbn [negb]. rewrite E. simpl. by rewrite Hs.
Qed.

(** A slot that gets its next fragment yields the message, or goes on to wait. *)
Lemma acceptIn_fragment a sid m l j h b i s :
  media_ok a -> mSlots a !! i = Some s -> used s = true -> id s = sid -> slot_ok s -> slot_holds m s ->
  (forall j, 0 <= j -> Z.testbit (present s) j = bool_decide (j ∈ l)) ->
  NoDup (j :: l) -> (forall k, k ∈ j :: l -> 0 <= k < fragmentsOf (zlen (msgBody m))) ->
  2 <= fragmentsOf (zlen (msgBody m)) <= 64 -> fragIndex h = j -> carries h b m j -> isFragmented (flags h) = true ->
  fragCount h = fragmentsOf (zlen (msgBody m)) ->
  let r := acceptIn a i s h b in
  if zlen (j :: l) =? fragmentsOf (zlen (msgBody m)) then r.1 = Some m
  else r.1 = None /\ tracks r.2 sid m (j :: l).
Proof.
  intros Ha Hs Hu Hid Hok Hh Hp Hnd Hr Hn Ei Hc Efr Ec r.
  assert (Eb : Z.testbit (present s) (fragIndex h) = false).
  { rewrite Ei, Hp by (apply Hr, list_elem_of_here). apply NoDup_cons in Hnd as [Hj _]. by apply bool_decide_eq_false. }
  assert (Hj0 : 0 <= j < fragmentsOf (zlen (msgBody m))) by apply Hr, list_elem_of_here.
  rewrite <- Ei in Hc. pose proof (carries_fragment_in m s h b Hh Hc Efr Eb) as Hin.
  pose proof (storeFragment_holds m s h b Hok Hh Hc Efr Eb) as Hh'.
  destruct (storeFragment_ok s h b Hok Hin) as (Er & _ & _).
  destruct (storeFragment_fields s h b) as (Fu & Fi & Fc & _ & Fp & Fb & _).
  assert (Hp' : forall k, 0 <= k -> Z.testbit (present (storeFragment s h b)) k = bool_decide (k ∈ j :: l)).
  { intros k Hk. rewrite Fp, shift_small, testbit_set, Hp, Ei by lia. apply eq_true_iff_eq.
    rewrite orb_true_iff, !bool_decide_eq_true, Z.eqb_eq, elem_of_cons. naive_solver. }
  pose proof (bits_list (present (storeFragment s h b)) (fragmentsOf (zlen (msgBody m))) (j :: l) Hnd Hr Hp') as Ebits.
  assert (Hle : zlen (j :: l) <= fragmentsOf (zlen (msgBody m))) by (rewrite <- Ebits; apply bits_le; lia).
  rewrite Fc, (sh_count m s Hh), Ebits in Er.
  unfold r, acceptIn. rewrite (sh_count m s Hh), Ec, Z.eqb_refl, shift_small, bit_free, Eb by lia.
  cbn [negb orb]. cbn zeta. rewrite Er, Fc, (sh_count m s Hh).
  destruct (Z.eqb_spec (zlen (j :: l)) (fragmentsOf (zlen (msgBody m)))) as [E|E],
    (Z.ltb_spec (zlen (j :: l)) (fragmentsOf (zlen (msgBody m)))); try lia.
  - apply completed_holds; [done|..|].
    + destruct (fragment_room s h b Hok Hin). rewrite Fb, Fc, zlen_blit by done. apply Hok.
    + rewrite Fc. apply Hok.
    + intros k Hk. apply (bits_full _ (count (storeFragment s h b))); [|done]. by rewrite Fc, (sh_count m s Hh), Ebits.
  - split; [done|]. unfold tracks. rewrite decide_False by done.
    exists i, (storeFragment s h b). simpl.
    rewrite list_lookup_insert_eq by by eapply lookup_lt_Some. split_and!; try done; congruence.
Qed.

Lemma accept_fragment a sid m l j h b :
  media_ok a -> tracks a sid m l -> NoDup (j :: l) ->
  (forall k, k ∈ l -> 0 <= k < fragmentsOf (zlen (msgBody m))) ->
  0 < sid -> sid + j < 2 ^ 64 -> seq h = sid + j -> fragIndex h = j -> 0 < zlen b ->
  carries h b m j -> isFragmented (flags h) = true -> zlen (msgBody m) <= MaxMediaPayload ->
  let r := accept a h b in
  media_ok r.2 /\
  if zlen (j :: l) =? fragmentsOf (zlen (msgBody m)) then r.1 = Some m
  else r.1 = None /\ tracks r.2 sid m (j :: l).
Proof.
  intros Ha Ht Hnd Hr Hsid Hmax Es Ei Hb0 Hc Efr Hsz r.
  pose proof Hc as [_ Hi Hfr Hf _ _ Hb]. destruct (Hf Efr) as (_ & Ec & El).
  rewrite Efr in Hfr. symmetry in Hfr. apply Z.ltb_lt in Hfr.
  assert (Hn : 2 <= fragmentsOf (zlen (msgBody m)) <= 64).
  { split; [lia|]. apply Z.le_trans with (fragmentsOf MaxMediaPayload); [|done].
    apply fragmentsOf_mono. pose proof (zlen_nonneg (msgBody m)). lia. }
  pose proof (fragment_body_length (msgBody m) j Hi) as Lb. rewrite <- Hb in Lb.
  assert (Lb' : zlen b <= MaxFragmentBody).
  { rewrite Hb. unfold fragment_body. rewrite zlen_ztake. change MaxFragmentBody with 1168. lia. }
  destruct (accept_finds a sid m l j h b) as (i & s & a' & E & Ha' & Hs & Hu & Hid & Hok & Hh & Hp); [done..|by rewrite El, Ec|].
  unfold r. rewrite E. split; [by apply acceptIn_ok; rewrite ?El, ?Ei; try done; lia|].
  apply acceptIn_fragment; try done. intros k [->|Hk]%elem_of_cons; [lia|by apply Hr].
Qed.

(** ** Whole messages *)
Fixpoint acceptAll (a : MediaAssembler) (ps : list (PacketHeader * bytes)) : list AssembledMessage * MediaAssembler :=
  match ps with
  | [] => ([], a)
  | (h, b) :: ps =>
    let '(m, a) := accept a h b in
    let '(ms, a) := acceptAll a ps in (option_list m ++ ms, a)
  end.

(** The packet with fragment [j] of the message [m] whose first packet has the seq [sid]. *)
Record media_fragment (m : AssembledMessage) (sid j : Z) (p : PacketHeader * bytes) : Prop := {
  mf_carries : carries p.1 p.2 m j;
  mf_index : fragIndex p.1 = j;
  mf_seq : seq p.1 = sid + j;
}.

Lemma carries_nonempty h b m i : carries h b m i -> 2 <= fragmentsOf (zlen (msgBody m)) -> 0 < zlen b.
Proof.
  intros Hc Hn. pose proof (carries_index _ _ _ _ Hc) as Hi.
  rewrite (carries_body _ _ _ _ Hc), fragment_body_length by done.
  destruct (Z.eqb_spec (i + 1) (fragmentsOf (zlen (msgBody m)))) as [E|E]; [|by change MaxFragmentBody with 1168].
  pose proof (zlen_nonneg (msgBody m)). destruct (Z.eq_dec (zlen (msgBody m)) 0) as [E0|E0].
  { rewrite E0 in Hn. change (fragmentsOf 0) with 1 in Hn. lia. }
  symmetry in E. apply fragmentsOf_spec in E; [lia|lia].
Qed.

Lemma acceptAll_tracks m sid js : forall a l ps,
  media_ok a -> tracks a sid m l -> NoDup (js ++ l) -> js <> [] ->
  (forall k, k ∈ js ++ l <-> 0 <= k < fragmentsOf (zlen (msgBody m))) ->
  Forall2 (media_fragment m sid) js ps ->
  2 <= fragmentsOf (zlen (msgBody m)) -> zlen (msgBody m) <= MaxMediaPayload ->
  0 < sid -> sid + fragmentsOf (zlen (msgBody m)) <= 2 ^ 64 ->
  (acceptAll a ps).1 = [m] /\ media_ok (acceptAll a ps).2.
Proof.
  induction js as [|j js IH]; intros a l ps Hok Ht Hnd Hne Hall Hps Hn Hsz Hsid Hlim; [done|].
  apply Forall2_cons_inv_l in Hps as ([h b] & ps' & [Hc Hi Hs] & Hps & ->). simpl in Hc, Hi, Hs.
  simpl in Hnd. apply NoDup_cons in Hnd as [Hj Hnd]. apply not_elem_of_app in Hj as [Hj1 Hj2].
  assert (Hrange : forall k, k ∈ l -> 0 <= k < fragmentsOf (zlen (msgBody m))).
  { intros k Hk. apply Hall. apply elem_of_app. by right. }
  assert (Hj : 0 <= j < fragmentsOf (zlen (msgBody m))) by (apply Hall; apply elem_of_app; left; by left).
  assert (Hf : isFragmented (flags h) = true).
  { rewrite (carries_fragmented _ _ _ _ Hc). apply Z.ltb_lt. lia. }
  assert (Hndl : NoDup l) by (by apply NoDup_app in Hnd as (_ & _ & ?)).
  destruct (accept_fragment a sid m l j h b Hok Ht) as [Hok' Hres]; try done; try lia.
  { by constructor. }
  { by eapply carries_nonempty. }
  cbn [acceptAll]. destruct (accept a h b) as [r a1]. cbn [fst snd] in Hok', Hres.
  assert (Hlen : zlen (j :: l) + zlen js = fragmentsOf (zlen (msgBody m))).
  { assert (Hperm : (j :: js) ++ l ≡ₚ seqZ 0 (fragmentsOf (zlen (msgBody m)))).
    { apply NoDup_Permutation; [simpl; constructor; [by apply not_elem_of_app|done]|apply NoDup_seqZ|].
      intros k. rewrite Hall, elem_of_seqZ. lia. }
    apply Permutation_length in Hperm. rewrite length_app, length_seqZ in Hperm. revert Hperm Hn.
    generalize (fragmentsOf (zlen (msgBody m))). intros n Hperm Hn. unfold zlen. simpl in *. lia. }
  destruct js as [|j' js].
  - apply Forall2_nil_inv_l in Hps as ->. simpl. rewrite zlen_nil in Hlen.
    destruct (Z.eqb_spec (zlen (j :: l)) (fragmentsOf (zlen (msgBody m)))); [|lia]. by rewrite Hres.
  - rewrite (zlen_cons j' js) in Hlen. pose proof (zlen_nonneg js).
    destruct (Z.eqb_spec (zlen (j :: l)) (fragmentsOf (zlen (msgBody m)))); [lia|].
    destruct Hres as [-> Ht']. destruct (IH a1 (j :: l) ps') as [E1 E2]; try done.
    + rewrite <- Permutation_middle. constructor; [by apply not_elem_of_app|done].
    + intros k. rewrite <- Hall. rewrite !elem_of_app, !elem_of_cons. tauto.
    + destruct (acceptAll a1 ps') as [ms a2]. by simpl in *; subst.
Qed.

(** A media message comes out whole whatever the order of its packets.  An assembler
    that has a free slot and knows nothing of the message, given each of its fragments once
    in any order, hands out exactly that message, with the last of them that arrives. *)
Theorem media_any_order a m sid js ps :
  media_ok a -> untracked a sid -> (exists i s, mSlots a !! i = Some s /\ used s = false) ->
  js ≡ₚ seqZ 0 (fragmentsOf (zlen (msgBody m))) -> Forall2 (media_fragment m sid) js ps ->
  2 <= fragmentsOf (zlen (msgBody m)) -> zlen (msgBody m) <= MaxMediaPayload ->
  0 < sid -> sid + fragmentsOf (zlen (msgBody m)) <= 2 ^ 64 ->
  (acceptAll a ps).1 = [m] /\ media_ok (acceptAll a ps).2.
Proof.
  intros Hok Hun Hfree Hp Hps Hn Hsz Hsid Hlim. apply (acceptAll_tracks m sid js a []); try done; rewrite ?app_nil_r.
  - rewrite Hp. apply NoDup_seqZ.
  - intros ->. apply Permutation_length in Hp. rewrite length_seqZ in Hp. simpl in Hp. lia.
  - intros k. rewrite Hp, elem_of_seqZ. lia.
Qed.

(** C40: media messages are not mixed up.  Let [msgs] say which message the packets with a
    given first seq belong to, whichever of them arrive, lost, repeated or out of order: a
    message that comes out is one of these, exactly as it was sent. *)
Theorem media_integrity msgs a h b m :
  media_ok a -> media_holds msgs a -> media_packet msgs h b m ->
  let r := accept a h b in
  (r.1 = None \/ r.1 = Some m) /\ media_ok r.2 /\ media_holds msgs r.2.
Proof. apply accept_honest. Qed.

(** The memory for media is bounded, on any packet that passes the decoder: at most
    [MediaAssemblySlots] messages are in progress, each with a buffer of at most 64
    fragments; and the copy of a fragment into its buffer stays inside. *)
Theorem media_bounded a h b i s :
  media_ok a -> wire_header h ->
  let a' := (accept a h b).2 in
  media_ok a' /\ 0 <= inProgress a' <= Z.of_nat MediaAssemblySlots /\
  (mSlots a' !! i = Some s -> zlen (slotBody s) <= 64 * MaxFragmentBody) /\
  (mSlots a !! i = Some s -> used s = true -> fragment_in s h b ->
     0 <= fragIndex h * MaxFragmentBody /\ fragIndex h * MaxFragmentBody + zlen b <= zlen (slotBody s)).
Proof.
  intros Hok Hw a'. pose proof (accept_ok a h b Hok Hw) as Hok'. fold a' in Hok'.
  split; [done|]. split; [by apply inProgress_bound|]. split.
  - intros Hs. pose proof (media_slot _ Hok' i s Hs) as Hslot. destruct (used s).
    + destruct Hslot as [Hc _ _ ->]. change MaxFragmentBody with 1168. lia.
    + subst s. done.
  - intros Hs Hu Hf. pose proof (media_slot _ Hok i s Hs) as Hslot. rewrite Hu in Hslot. by apply fragment_room.
Qed.

(** A message of two fragments, the second one first. *)
Definition mediaHeader (i : Z) : PacketHeader := (sampleHeader i) <| flags := setFragment true (i =? 1) (dataFlags Media) |>.
Definition mediaFragments : list (PacketHeader * bytes) :=
  [(mediaHeader 1, replicate 32 Byte.x41); (mediaHeader 0, replicate 1168 Byte.x41)].

Lemma media_carries i h b :
  (i = 0 /\ h = mediaHeader 0 /\ b = replicate 1168 Byte.x41) \/
  (i = 1 /\ h = mediaHeader 1 /\ b = replicate 32 Byte.x41) -> carries h b sampleMessage i.
Proof. intros [(-> & -> & ->)|(-> & -> & ->)]; split; vm_compute; (reflexivity || discriminate || done). Qed.

Lemma media_any_order_witness :
  (acceptAll newMediaAssembler mediaFragments).1 = [sampleMessage] /\
  (acceptAll newMediaAssembler (reverse mediaFragments)).1 = [sampleMessage].
Proof.
  split; [|vm_compute; reflexivity].
  apply (media_any_order newMediaAssembler sampleMessage 5 [1; 0] mediaFragments).
  - exact newMediaAssembler_ok.
  - intros i s Hs Hu. apply lookup_replicate in Hs as [-> _]. done.
  - exists 0%nat, emptySlot. done.
  - vm_compute. by constructor.
  - constructor; [|constructor; [|constructor]]; (split; [apply media_carries; auto|reflexivity..]).
  - vm_compute. discriminate.
  - vm_compute. discriminate.
  - lia.
  - vm_compute. discriminate.
Defined.

Lemma media_integrity_witness :
  let r := accept newMediaAssembler (mediaHeader 1) (replicate 32 Byte.x41) in
  r.1 = None \/ r.1 = Some sampleMessage.
Proof.
  apply (media_integrity (fun sid => if sid =? 5 then Some sampleMessage else None)
    newMediaAssembler (mediaHeader 1) (replicate 32 Byte.x41) sampleMessage).
  - exact newMediaAssembler_ok.
  - intros i s Hs Hu. apply lookup_replicate in Hs as [-> _]. done.
  - split; [apply media_carries; auto|vm_compute; (reflexivity || discriminate)..|vm_compute; by split].
Defined.

Lemma mediaHeader_wire : wire_header (mediaHeader 1).
Proof. split; vm_compute; (reflexivity || discriminate || congruence || (split_and!; congruence)). Qed.

Lemma media_bounded_witness :
  inProgress (accept newMediaAssembler (mediaHeader 1) (replicate 32 Byte.x41)).2 = 1 /\
  0 <= inProgress (accept newMediaAssembler (mediaHeader 1) (replicate 32 Byte.x41)).2 <= Z.of_nat MediaAssemblySlots.
Proof.
  split; [vm_compute; reflexivity|].
  apply (media_bounded newMediaAssembler (mediaHeader 1) (replicate 32 Byte.x41) 0 emptySlot).
  - exact newMediaAssembler_ok.
  - exact mediaHeader_wire.
Defined.
End MediaAsm.
