(* ===== verification/SendScheduler.v ===== *)
(** * Handing out the send budget

    [Channel/SendScheduler.h]: a token bucket counted in datagrams, shared by the lanes in
    order of urgency and, within a lane, by the peers in turn.  A peer is its [PeerId], a
    64-bit number.  The callback of [run] is a function on the state of its owner. *)
From Stdlib Require Import QArith Qround Lqa.
From S2P Require Import Prelude Double PacketFlags.

#[local] Open Scope Z_scope.

Module Sched.

Abbreviation PeerId := Z (only parsing).

Inductive Result := Sent | Lost | Empty | Blocked.

Record Ring := mkRing { peers : list PeerId; cursor : Z; ringUsed : Z }.
#[global] Instance Ring_eta : Eta Ring := fun r => mkRing (peers r) (cursor r) (ringUsed r).

Definition emptyRing : Ring := {| peers := []; cursor := 0; ringUsed := 0 |}.

Record SendScheduler := mkScheduler {
  mRate : Z;
  mBurst : Z;
  mTokens : Q;
  mRefilledAt : option TimePoint;
  mRings : Lane -> Ring;
}.
#[global] Instance SendScheduler_eta : Eta SendScheduler := fun s =>
  mkScheduler (mRate s) (mBurst s) (mTokens s) (mRefilledAt s) (mRings s).

Definition Quantum : Z := 4.
Definition Tick : Duration := ms 1.
Definition Order : list Lane := [Control; Media; Reliable; Bulk].

Definition burstOf (ratePerSecond : Z) : Z := Z.max 16 (ratePerSecond / 500).

Definition setRate (ratePerSecond : Z) (s : SendScheduler) : SendScheduler :=
  s <| mRate := ratePerSecond |> <| mBurst := burstOf ratePerSecond |>
    <| mTokens := dofZ (burstOf ratePerSecond) |> <| mRefilledAt := None |>.

Definition newScheduler (ratePerSecond : Z) : SendScheduler :=
  setRate ratePerSecond
    {| mRate := 0; mBurst := 0; mTokens := 0; mRefilledAt := None; mRings := fun _ => emptyRing |}.

Definition isUnlimited (s : SendScheduler) : bool := mRate s =? 0.
Definition hasTokens (s : SendScheduler) : bool := isUnlimited s || dleb 1 (mTokens s).

(** [std::chrono::duration<double>(d).count()]: nanoseconds to seconds. *)
Definition seconds (d : Duration) : Q := ddiv (dofZ d) (dofZ 1000000000).

Definition refill (now : TimePoint) (s : SendScheduler) : SendScheduler :=
  let s :=
    match mRefilledAt s with
    | Some at_ =>
      if at_ <? now
      then s <| mTokens := dmin (dofZ (mBurst s))
                  (dadd (mTokens s) (dmul (dofZ (mRate s)) (seconds (now - at_)))) |>
      else s
    | None => s
    end in
  s <| mRefilledAt := Some now |>.

Definition spend (datagrams : Z) (s : SendScheduler) : SendScheduler :=
  if negb (isUnlimited s) then s <| mTokens := dsub (mTokens s) (dofZ datagrams) |> else s.

Definition setRing (l : Lane) (r : Ring) (s : SendScheduler) : SendScheduler :=
  s <| mRings := fun k => if decide (k = l) then r else mRings s k |>.

Definition add (l : Lane) (p : PeerId) (s : SendScheduler) : SendScheduler :=
  setRing l ((mRings s l) <| peers ::= fun ps => ps ++ [p] |>) s.

(** [std::ranges::find] and [erase] on one ring. *)
Definition removeFrom (p : PeerId) (r : Ring) : Ring :=
  match list_find (fun q => q = p) (peers r) with
  | None => r
  | Some (i, _) =>
    r <| cursor := if Z.of_nat i <? cursor r then cursor r - 1 else cursor r |>
      <| peers := delete i (peers r) |>
  end.

Definition remove (p : PeerId) (s : SendScheduler) : SendScheduler :=
  s <| mRings := fun l => removeFrom p (mRings s l) |>.

Definition clear (s : SendScheduler) : SendScheduler := s <| mRings := fun _ => emptyRing |>.

Definition allLanes : list Lane := [Control; Reliable; Bulk; Media].
Definition hasBacklog (s : SendScheduler) : bool :=
  existsb (fun l => negb (bool_decide (peers (mRings s l) = []))) allLanes.

Definition nextPeer (r : Ring) : Ring := r <| cursor ::= Z.succ |> <| ringUsed := 0 |>.

(** ** One run *)
Section Run.
Context {St : Type} (send : St -> Lane -> PeerId -> Result * St).

Definition capped (s : SendScheduler) (l : Lane) : bool :=
  bool_decide (l = Media) && negb (isUnlimited s).

(** What is carried from turn to turn: the scheduler, [mediaAllowance], and the state of
    the owner of [send]. *)
Record Turn := mkTurn { sched : SendScheduler; allowance : Q; owner : St }.

Definition ready (l : Lane) (t : Turn) : bool :=
  negb (bool_decide (peers (mRings (sched t) l) = [])) && hasTokens (sched t)
  && (negb (capped (sched t) l) || dleb 1 (allowance t)).

(** The body of the [while] loop; [inl] leaves [run]. *)
Definition turn (l : Lane) (t : Turn) : Turn + Turn :=
  let s := sched t in
  let r := mRings s l in
  let r := if zlen (peers r) <=? cursor r then r <| cursor := 0 |> else r in
  let peer := default 0 (zlookup (peers r) (cursor r)) in
  let '(outcome, st) := send (owner t) l peer in
  let allow := if capped s l then dsub (allowance t) 1 else allowance t in
  match outcome with
  | Sent =>
    let r := r <| ringUsed ::= Z.succ |> in
    let r := if Quantum <=? ringUsed r then nextPeer r else r in
    inr {| sched := spend 1 (setRing l r s); allowance := allow; owner := st |}
  | Lost => inr {| sched := spend 1 (setRing l (nextPeer r) s); allowance := allow; owner := st |}
  | Empty =>
    let r := r <| peers ::= delete (Z.to_nat (cursor r)) |> <| ringUsed := 0 |> in
    inr {| sched := setRing l r s; allowance := allowance t; owner := st |}
  | Blocked => inl {| sched := setRing l r s; allowance := allowance t; owner := st |}
  end.

(** [None]: the loop is still running after [fuel] turns. *)
Fixpoint runLane (fuel : nat) (l : Lane) (t : Turn) : option (Turn + Turn) :=
  if ready l t then
    match fuel with
    | O => None
    | S fuel =>
      match turn l t with
      | inl t => Some (inl t)
      | inr t => runLane fuel l t
      end
    end
  else Some (inr t).

Fixpoint runLanes (fuel : nat) (ls : list Lane) (t : Turn) : option Turn :=
  match ls with
  | [] => Some t
  | l :: ls =>
    match runLane fuel l t with
    | None => None
    | Some (inl t) => Some t
    | Some (inr t) => runLanes fuel ls t
    end
  end.

Definition acknowledgedWaits (s : SendScheduler) : bool :=
  negb (bool_decide (peers (mRings s Reliable) = [])) || negb (bool_decide (peers (mRings s Bulk) = [])).

Definition mediaAllowance (s : SendScheduler) : Q :=
  if acknowledgedWaits s then ddiv (dmul (mTokens s) 3) 4 else mTokens s.

Definition run (fuel : nat) (s : SendScheduler) (st : St) : option (SendScheduler * St) :=
  t ← runLanes fuel Order {| sched := s; allowance := mediaAllowance s; owner := st |};
  Some (sched t, owner t).
End Run.

(** ** Properties *)
Lemma inject_Z_le x y : (inject_Z x <= inject_Z y)%Q <-> x <= y.
Proof. by rewrite <- Zle_Qle. Qed.

(** Taking one token away: no rounding takes less than one off an integer bound. *)
Lemma dsub_one_le q k :
  - 2 ^ 53 < k <= 2 ^ 53 -> (q <= inject_Z k)%Q -> (dsub q 1 <= inject_Z (k - 1))%Q.
Proof.
  intros Hk Hq. unfold dsub. apply rnd_le_Z; [lia|]. unfold Z.sub. rewrite inject_Z_plus.
  change (inject_Z (- (1))) with (- (1))%Q. lra.
Qed.

Record ring_ok (r : Ring) : Prop := {
  ring_cursor : 0 <= cursor r <= zlen (peers r);
  ring_used : 0 <= ringUsed r < Quantum;
  ring_peers : NoDup (peers r);
}.

Record scheduler_ok (s : SendScheduler) : Prop := {
  ok_rate : is_uint 32 (mRate s);
  ok_burst : mBurst s = burstOf (mRate s);
  ok_tokens : (mTokens s <= inject_Z (mBurst s))%Q;
  ok_rings : forall l, ring_ok (mRings s l);
}.

Lemma burstOf_bounds rate : is_uint 32 rate -> 16 <= burstOf rate <= 8589934.
Proof.
  unfold is_uint, burstOf. intros. assert (rate / 500 <= (2 ^ 32 - 1) / 500) by (apply Z.div_le_mono; lia).
  change ((2 ^ 32 - 1) / 500) with 8589934 in *. lia.
Qed.

Lemma burst_exact s : scheduler_ok s -> (dofZ (mBurst s) == inject_Z (mBurst s))%Q.
Proof.
  intros Hs. apply rnd_Z. rewrite (ok_burst s Hs). pose proof (burstOf_bounds _ (ok_rate s Hs)). lia.
Qed.

Lemma emptyRing_ok : ring_ok emptyRing.
Proof. split; simpl; [done..|constructor]. Qed.

Lemma newScheduler_ok rate : is_uint 32 rate -> scheduler_ok (newScheduler rate).
Proof.
  intros Hr. split; simpl; [done..| |intros; apply emptyRing_ok].
  pose proof (burstOf_bounds _ Hr). unfold dofZ. rewrite rnd_Z by lia. apply Qle_refl.
Qed.

Lemma refill_ok now s : scheduler_ok s -> scheduler_ok (refill now s).
Proof.
  intros Hs. pose proof (burst_exact s Hs) as Hb. unfold refill.
  destruct (mRefilledAt s) as [at_|]; [destruct (at_ <? now)|]; destruct Hs; split; simpl; try done.
  destruct (dmin_spec (dofZ (mBurst s))
    (dadd (mTokens s) (dmul (dofZ (mRate s)) (seconds (now - at_))))) as (H & _). lra.
Qed.

Lemma spend_le n s k :
  0 <= n <= 2 ^ 53 -> - 2 ^ 53 + n <= k <= 2 ^ 53 -> isUnlimited s = false ->
  (mTokens s <= inject_Z k)%Q -> (mTokens (spend n s) <= inject_Z (k - n))%Q.
Proof.
  intros Hn Hk Hu Ht. unfold spend. rewrite Hu. simpl. unfold dsub. apply rnd_le_Z; [lia|].
  unfold dofZ, Z.sub. rewrite rnd_Z, inject_Z_plus, inject_Z_opp by lia. lra.
Qed.

Lemma spend_ok n s : 0 <= n <= 2 ^ 53 -> scheduler_ok s -> scheduler_ok (spend n s).
Proof.
  intros Hn Hs. pose proof (burstOf_bounds _ (ok_rate s Hs)). pose proof (ok_burst s Hs).
  destruct (isUnlimited s) eqn:Hu; [unfold spend; by rewrite Hu|].
  pose proof (spend_le n s (mBurst s) ltac:(lia) ltac:(lia) Hu (ok_tokens s Hs)) as Ht.
  unfold spend in *. rewrite Hu in *. cbn [negb] in *. destruct Hs. split; try done.
  eapply Qle_trans; [exact Ht|]. apply inject_Z_le. simpl. lia.
Qed.

Lemma setRing_ok l r s : scheduler_ok s -> ring_ok r -> scheduler_ok (setRing l r s).
Proof. intros [] Hr. split; simpl; try done. intros k. by case_decide. Qed.

(** A peer that is in no ring of the lane may be added. *)
Lemma add_ok l p s : scheduler_ok s -> p ∉ peers (mRings s l) -> scheduler_ok (add l p s).
Proof.
  intros Hs Hp. apply setRing_ok; [done|]. destruct (ok_rings s Hs l) as [Hc Hu Hn].
  split; simpl; [unfold zlen in *; rewrite length_app; simpl; lia|done|].
  apply NoDup_app. split_and!; [done| |apply NoDup_singleton]. set_solver.
Qed.

(** [remove] leaves the turn with the peer that has it. *)
Lemma removeFrom_spec p r :
  ring_ok r -> ring_ok (removeFrom p r) /\ (p ∉ peers (removeFrom p r)) /\
  (forall q, q <> p -> q ∈ peers r -> q ∈ peers (removeFrom p r)) /\
  (forall q, q <> p -> zlookup (peers r) (cursor r) = Some q ->
    zlookup (peers (removeFrom p r)) (cursor (removeFrom p r)) = Some q).
Proof.
  intros [Hc Hu Hn]. unfold removeFrom.
  destruct (list_find (fun q => q = p) (peers r)) as [[i q]|] eqn:E.
  2:{ apply list_find_None in E. rewrite Forall_forall in E. split_and!; try done. set_solver. }
  apply list_find_Some in E as (Hi & -> & _). pose proof (lookup_lt_Some _ _ _ Hi) as Hlt.
  pose proof (delete_Permutation _ _ _ Hi) as Hp.
  assert (Hlen : length (delete i (peers r)) = (length (peers r) - 1)%nat)
    by (rewrite length_delete; [done|eauto]).
  rewrite Hp in Hn. apply NoDup_cons in Hn as [Hni Hn].
  split_and!; simpl.
  - split; simpl; [|done|done]. unfold zlen in *. rewrite Hlen.
    destruct (Z.ltb_spec (Z.of_nat i) (cursor r)); lia.
  - done.
  - intros q Hq Hin. rewrite Hp in Hin. set_solver.
  - intros q Hq Hl. rewrite zlookup_lookup in Hl |- * by (destruct (Z.ltb_spec (Z.of_nat i) (cursor r)); lia).
    destruct (decide (Z.to_nat (cursor r) = i)) as [<-|Hne]; [congruence|].
    destruct (Z.ltb_spec (Z.of_nat i) (cursor r)).
    + rewrite list_lookup_delete_ge by lia. by replace (S (Z.to_nat (cursor r - 1))) with (Z.to_nat (cursor r)) by lia.
    + by rewrite list_lookup_delete_lt by lia.
Qed.

Lemma remove_ok p s : scheduler_ok s -> scheduler_ok (remove p s).
Proof. intros []. split; simpl; try done. intros l. by apply removeFrom_spec. Qed.

Lemma clear_ok s : scheduler_ok s -> scheduler_ok (clear s).
Proof. intros []. split; simpl; try done. intros l. apply emptyRing_ok. Qed.

(** ** The log of a run

    [logged send] keeps, besides the owner's state, what was asked and answered. *)
Abbreviation LogEntry := (Lane * PeerId * Result)%type (only parsing).
Definition logged {St} (send : St -> Lane -> PeerId -> Result * St)
    (st : St * list LogEntry) (l : Lane) (p : PeerId) : Result * (St * list LogEntry) :=
  let '(outcome, st') := send st.1 l p in (outcome, (st', st.2 ++ [(l, p, outcome)])).

(** [Sent] and [Lost] count as sent. *)
Definition transmits (res : Result) : bool :=
  match res with Sent | Lost => true | Empty | Blocked => false end.

Definition sentCount (log : list LogEntry) : Z := zlen (filter (fun e => transmits e.2 = true) log).
Definition mediaCount (log : list LogEntry) : Z :=
  zlen (filter (fun e => transmits e.2 && bool_decide (e.1.1 = Media) = true) log).

Section Bounds.
Context {St : Type} (send : St -> Lane -> PeerId -> Result * St).

(** The budget [k] covers what was sent so far, and [c] what was sent of it in Media. *)
Record within (s0 : SendScheduler) (k c : Z) (t : Turn (St := St * list LogEntry)) : Prop := {
  w_limited : isUnlimited (sched t) = false;
  w_same : mRate (sched t) = mRate s0 /\ mBurst (sched t) = mBurst s0;
  w_range : 0 <= k <= 2 ^ 53 /\ 0 <= c <= 2 ^ 53;
  w_sent : sentCount (owner t).2 <= k /\ (mTokens (sched t) <= inject_Z (k - sentCount (owner t).2))%Q;
  w_media : mediaCount (owner t).2 <= c /\ (allowance t <= inject_Z (c - mediaCount (owner t).2))%Q;
}.

Lemma log_counts log l p res :
  sentCount (log ++ [(l, p, res)]) = sentCount log + (if transmits res then 1 else 0) /\
  mediaCount (log ++ [(l, p, res)]) =
    mediaCount log + (if transmits res && bool_decide (l = Media) then 1 else 0).
Proof.
  unfold sentCount, mediaCount. rewrite !filter_app, !zlen_app, !filter_cons, !filter_nil. simpl.
  destruct (transmits res), (bool_decide (l = Media)); done.
Qed.

(** The ring with the cursor where the turn begins. *)
Definition turnRing (r : Ring) : Ring :=
  if zlen (peers r) <=? cursor r then r <| cursor := 0 |> else r.

Lemma turnRing_peers r : peers (turnRing r) = peers r.
Proof. unfold turnRing. by destruct (_ <=? _). Qed.

Lemma turnRing_ok r :
  ring_ok r -> peers r <> [] ->
  peers (turnRing r) = peers r /\ 0 <= cursor (turnRing r) < zlen (peers r) /\
  0 <= ringUsed (turnRing r) < Quantum.
Proof.
  intros [Hc Hu _] Hne. assert (0 < zlen (peers r)) by (unfold zlen; destruct (peers r); simpl; [done|lia]).
  unfold turnRing. destruct (Z.leb_spec (zlen (peers r)) (cursor r)); simpl; split_and!; try done; lia.
Qed.

Lemma nextPeer_ok r : ring_ok r -> cursor r < zlen (peers r) -> ring_ok (nextPeer r).
Proof. intros [] Hc. split; simpl; [lia|done|done]. Qed.

(** The effect of a turn, whatever [send] answers. *)
Lemma turn_effect l (t : Turn (St := St * list LogEntry)) :
  peers (mRings (sched t) l) <> [] ->
  exists p res st,
    let t' := match turn (logged send) l t with inl t' => t' | inr t' => t' end in
    owner t' = (st, (owner t).2 ++ [(l, p, res)]) /\
    turn (logged send) l t = match res with Blocked => inl t' | _ => inr t' end /\
    (mRate (sched t') = mRate (sched t) /\ mBurst (sched t') = mBurst (sched t)) /\
    mTokens (sched t') = mTokens (if transmits res then spend 1 (sched t) else sched t) /\
    allowance t' = (if transmits res && capped (sched t) l
                    then dsub (allowance t) 1 else allowance t) /\
    (forall k, k <> l -> mRings (sched t') k = mRings (sched t) k) /\
    (ring_ok (mRings (sched t) l) ->
       ring_ok (mRings (sched t') l) /\
       zlen (peers (mRings (sched t') l)) =
         zlen (peers (mRings (sched t) l)) - match res with Empty => 1 | _ => 0 end).
Proof.
  intros Hne. unfold turn. cbn zeta. fold (turnRing (mRings (sched t) l)).
  set (r := turnRing (mRings (sched t) l)).
  set (p := default 0 (zlookup (peers r) (cursor r))).
  unfold logged. destruct (send (owner t).1 l p) as [res st] eqn:Esend.
  exists p, res, st.
  assert (Hr : ring_ok (mRings (sched t) l) -> ring_ok r /\ cursor r < zlen (peers r) /\
            peers r = peers (mRings (sched t) l)).
  { intros Hok. destruct (turnRing_ok _ Hok Hne) as (Ep & Hc & Hu). fold r in Ep, Hc, Hu.
    destruct Hok as [_ _ Hnd]. rewrite Ep.
    split; [split; rewrite ?Ep; [lia|done|done]|split; [lia|done]]. }
  clearbody r p. clear Esend Hne.
  assert (Hset : forall r' k, mRings (setRing l r' (sched t)) k = if decide (k = l) then r' else mRings (sched t) k) by done.
  assert (Hspend : forall r', mRate (spend 1 (setRing l r' (sched t))) = mRate (sched t) /\
    mBurst (spend 1 (setRing l r' (sched t))) = mBurst (sched t) /\
    mTokens (spend 1 (setRing l r' (sched t))) = mTokens (spend 1 (sched t)) /\
    mRings (spend 1 (setRing l r' (sched t))) = mRings (setRing l r' (sched t))).
  { intros r'. unfold spend, isUnlimited. simpl. by destruct (mRate (sched t) =? 0). }
  destruct res; cbn [transmits sched owner allowance snd andb].
  - set (r' := if Quantum <=? _ then _ else _). destruct (Hspend r') as (-> & -> & -> & ->).
    split_and!; try done; [intros k Hk; by rewrite Hset, decide_False|].
    intros Hok. destruct (Hr Hok) as (Hrok & Hc & <-). rewrite Hset, decide_True by done.
    assert (ring_ok r' /\ peers r' = peers r) as [? ->]; [|split; [done|lia]].
    unfold r'. cbn. destruct (Z.leb_spec Quantum (Z.succ (ringUsed r))); (split; [|done]);
      destruct Hrok; split; simpl; lia || done.
  - destruct (Hspend (nextPeer r)) as (-> & -> & -> & ->).
    split_and!; try done; [intros k Hk; by rewrite Hset, decide_False|].
    intros Hok. destruct (Hr Hok) as (Hrok & Hc & <-). rewrite Hset, decide_True by done.
    split; [by apply nextPeer_ok|simpl; lia].
  - split_and!; try done; [intros k Hk; by rewrite Hset, decide_False|].
    intros Hok. destruct (Hr Hok) as ([Hc0 Hu Hnd] & Hc & <-). rewrite Hset, decide_True by done.
    destruct (lookup_lt_is_Some_2 (peers r) (Z.to_nat (cursor r))) as [q Hq]; [unfold zlen in *; lia|].
    assert (El : zlen (delete (Z.to_nat (cursor r)) (peers r)) = zlen (peers r) - 1).
    { unfold zlen in *. rewrite length_delete by eauto. lia. }
    split; [|done]. split; simpl; [lia|done|].
    rewrite (delete_Permutation _ _ _ Hq) in Hnd. by apply NoDup_cons in Hnd as [_ ?].
  - split_and!; try done; [intros k Hk; by rewrite Hset, decide_False|].
    intros Hok. destruct (Hr Hok) as (Hrok & Hc & <-). rewrite Hset, decide_True by done.
    split; [done|lia].
Qed.

Lemma ready_true l (t : Turn (St := St * list LogEntry)) :
  ready l t = true -> isUnlimited (sched t) = false ->
  peers (mRings (sched t) l) <> [] /\ (1 <= mTokens (sched t))%Q /\
  (l = Media -> (1 <= allowance t)%Q).
Proof.
  unfold ready, hasTokens, capped. intros H Hu. rewrite Hu in H. bool_prop.
  split_and!; [done|apply dleb_le; naive_solver|]. intros ->. apply dleb_le. naive_solver.
Qed.

(** A turn stays within the budget, and either uses a token or shortens the ring. *)
Lemma turn_within s0 k c l t :
  within s0 k c t -> ring_ok (mRings (sched t) l) -> ready l t = true ->
  let t' := match turn (logged send) l t with inl t' => t' | inr t' => t' end in
  within s0 k c t' /\ ring_ok (mRings (sched t') l) /\
  (forall j, j <> l -> mRings (sched t') j = mRings (sched t) j) /\
  (exists e, (owner t').2 = (owner t).2 ++ [e] /\ e.1.1 = l) /\
  match turn (logged send) l t with
  | inl _ => True
  | inr _ => zlen (peers (mRings (sched t') l)) - sentCount (owner t').2
             < zlen (peers (mRings (sched t) l)) - sentCount (owner t).2
  end.
Proof.
  intros [Hu [Hrate Hburst] [Hk Hc] [Hs Ht] [Hm Ha]] Hr Hready.
  destruct (ready_true _ _ Hready Hu) as (Hne & H1 & Hmed).
  destruct (turn_effect l t Hne) as (p & res & st & H). cbn zeta in *.
  set (t' := match turn (logged send) l t with inl t' => t' | inr t' => t' end) in *.
  destruct H as (Eo & Et & [Er Ebu] & Etok & Eal & Eri & Hring). destruct (Hring Hr) as [Hr' Hlen].
  destruct (log_counts (owner t).2 l p res) as [Cs Cm].
  assert (Hu' : isUnlimited (sched t') = false) by (unfold isUnlimited in *; by rewrite Er).
  assert (Hcap : capped (sched t) l = bool_decide (l = Media)).
  { unfold capped. rewrite Hu. apply andb_true_r. }
  assert (Hs1 : sentCount (owner t).2 < k).
  { apply Z.lt_nge. intros Hge. assert (E : k - sentCount (owner t).2 = 0) by lia. rewrite E in Ht. change (inject_Z 0) with 0%Q in Ht. lra. }
  rewrite Hcap in Eal. rewrite Eo. cbn [snd]. split; [|split_and!; try done].
  - assert (0 <= sentCount (owner t).2) by apply zlen_nonneg.
    assert (0 <= mediaCount (owner t).2) by apply zlen_nonneg.
    split; rewrite ?Eo; cbn [snd]; [done|by rewrite Er, Ebu|done| |].
    + rewrite Cs, Etok. destruct (transmits res); [|by rewrite Z.add_0_r].
      split; [lia|]. rewrite Z.sub_add_distr. apply spend_le; lia || done.
    + rewrite Cm, Eal. destruct (transmits res && bool_decide (l = Media)) eqn:E; [|by rewrite Z.add_0_r].
      apply andb_true_iff in E as [_ ->%bool_decide_eq_true]. specialize (Hmed eq_refl).
      assert (mediaCount (owner t).2 < c).
      { apply Z.lt_nge. intros Hge. assert (E : c - mediaCount (owner t).2 = 0) by lia. rewrite E in Ha. change (inject_Z 0) with 0%Q in Ha. lra. }
      split; [lia|]. rewrite Z.sub_add_distr. apply dsub_one_le; lia || done.
  - eexists. split; [done|done].
  - rewrite Et, Hlen, Cs. destruct res; simpl; try done; lia.
Qed.

(** What a run has done when it is through with the lanes [ls] or has stopped. *)
Lemma runLane_within s0 k c l fuel : forall t,
  within s0 k c t -> ring_ok (mRings (sched t) l) ->
  zlen (peers (mRings (sched t) l)) + k - sentCount (owner t).2 <= Z.of_nat fuel ->
  exists r, runLane (logged send) fuel l t = Some r /\
    let t' := match r with inl t' => t' | inr t' => t' end in
    within s0 k c t' /\ ring_ok (mRings (sched t') l) /\
    (forall j, j <> l -> mRings (sched t') j = mRings (sched t) j) /\
    (exists log, (owner t').2 = (owner t).2 ++ log /\ Forall (fun e => e.1.1 = l) log) /\
    match r with inl _ => True | inr t' => ready l t' = false end.
Proof.
  induction fuel as [|fuel IH]; intros t Hw Hr Hf; cbn [runLane].
  - destruct (ready l t) eqn:E.
    + exfalso. destruct (ready_true _ _ E (w_limited _ _ _ _ Hw)) as (Hne & _).
      pose proof (proj1 (w_sent _ _ _ _ Hw)). destruct (peers (mRings (sched t) l)) eqn:Ep; [done|].
      rewrite zlen_cons in Hf. pose proof (zlen_nonneg l0). lia.
    + exists (inr t). split_and!; try done. exists []. by rewrite app_nil_r.
  - destruct (ready l t) eqn:E.
    2:{ exists (inr t). split_and!; try done. exists []. by rewrite app_nil_r. }
    pose proof (turn_within s0 k c l t Hw Hr E) as H. cbn zeta in H.
    destruct (turn (logged send) l t) as [t'|t'].
    + destruct H as (Hw' & Hr' & Ho & (e & Ee & He) & _). exists (inl t'). split_and!; try done.
      exists [e]. split; [done|by constructor].
    + destruct H as (Hw' & Hr' & Ho & (e & Ee & He) & Hm).
      destruct (IH t' Hw' Hr' ltac:(lia)) as (r & Er & H). exists r. split; [done|].
      cbn zeta in *. destruct H as (A & B & C & (log & D & F) & G). split_and!; try done.
      * intros j Hj. by rewrite C, Ho.
      * exists ([e] ++ log). rewrite D, Ee, <- app_assoc. split; [done|by constructor].
Qed.

Lemma runLane_idle fuel l (t : Turn (St := St * list LogEntry)) :
  hasTokens (sched t) = false -> runLane (logged send) fuel l t = Some (inr t).
Proof.
  intros H. assert (E : ready l t = false) by (unfold ready; by rewrite H, andb_false_r).
  destruct fuel; cbn [runLane]; by rewrite E.
Qed.

Lemma runLanes_idle fuel ls (t : Turn (St := St * list LogEntry)) :
  hasTokens (sched t) = false -> runLanes (logged send) fuel ls t = Some t.
Proof. intros H. induction ls as [|l ls IH]; [done|]. cbn [runLanes]. by rewrite runLane_idle. Qed.

(** [served ls log rings]: the log goes through the lanes [ls] in order, and a lane whose
    datagrams are not capped was left only when its ring was empty. *)
Definition precedes (ls : list Lane) (l1 l2 : Lane) : Prop :=
  exists a b c, ls = a ++ l1 :: b ++ l2 :: c.

Definition served (ls : list Lane) (log : list LogEntry) (rings : Lane -> Ring) : Prop :=
  forall l1 l2, precedes ls l1 l2 -> l1 <> Media ->
    (exists e, e ∈ log /\ e.1.1 = l2) -> peers (rings l1) = [].

Lemma precedes_cons l ls l1 l2 :
  precedes (l :: ls) l1 l2 -> (l1 = l /\ l2 ∈ ls) \/ precedes ls l1 l2.
Proof.
  intros ([|x a] & b & c & E); simplify_eq/=; [left; split; [done|set_solver]|].
  right. by exists a, b, c.
Qed.

Lemma precedes_in ls l1 l2 : precedes ls l1 l2 -> l1 ∈ ls /\ l2 ∈ ls.
Proof. intros (a & b & c & ->). set_solver. Qed.

Lemma ready_false l (t : Turn (St := St * list LogEntry)) :
  ready l t = false -> hasTokens (sched t) = true -> l <> Media -> peers (mRings (sched t) l) = [].
Proof.
  unfold ready, capped. intros H Ht Hl. rewrite Ht, (bool_decide_eq_false_2 (l = Media)) in H by done.
  simpl in H. rewrite !andb_true_r in H. by bool_prop.
Qed.

Lemma runLanes_within s0 k c fuel ls : forall t,
  NoDup ls -> within s0 k c t -> (forall l, ring_ok (mRings (sched t) l)) ->
  (forall l, l ∈ ls -> zlen (peers (mRings (sched t) l)) + k <= Z.of_nat fuel) ->
  exists t', runLanes (logged send) fuel ls t = Some t' /\
    within s0 k c t' /\ (forall l, ring_ok (mRings (sched t') l)) /\
    (forall l, l ∉ ls -> mRings (sched t') l = mRings (sched t) l) /\
    exists log, (owner t').2 = (owner t).2 ++ log /\ Forall (fun e => e.1.1 ∈ ls) log /\
      served ls log (mRings (sched t')).
Proof.
  induction ls as [|l ls IH]; intros t Hnd Hw Hr Hf; cbn [runLanes].
  { exists t. split_and!; try done. exists []. rewrite app_nil_r. split_and!; [done|constructor|].
    intros l1 l2 [[]%not_elem_of_nil _]%precedes_in. }
  apply NoDup_cons in Hnd as [Hl Hnd].
  assert (0 <= sentCount (owner t).2) by apply zlen_nonneg.
  destruct (runLane_within s0 k c l fuel t Hw (Hr l)) as (r & -> & H1).
  { specialize (Hf l ltac:(by left)). lia. }
  cbn zeta in H1. destruct r as [t'|t1]; destruct H1 as (Hw1 & Hr1 & Ho1 & (log & El & Hlog) & Hend).
  - exists t'. split_and!; try done.
    + intros j. destruct (decide (j = l)) as [->|]; [done|]. by rewrite Ho1.
    + intros j Hj. apply Ho1. intros ->. apply Hj. by left.
    + exists log. split_and!; [done|eapply Forall_impl; [exact Hlog|]; intros e ->; by left|].
      intros l1 l2 Hp Hm (e & He & E2). exfalso. rewrite Forall_forall in Hlog. specialize (Hlog e He).
      apply precedes_cons in Hp as [[-> ?]|[? ?]%precedes_in]; congruence.
  - assert (Hrest : exists t', runLanes (logged send) fuel ls t1 = Some t' /\
      within s0 k c t' /\ (forall l, ring_ok (mRings (sched t') l)) /\
      (forall l, l ∉ ls -> mRings (sched t') l = mRings (sched t1) l) /\
      exists log, (owner t').2 = (owner t1).2 ++ log /\ Forall (fun e => e.1.1 ∈ ls) log /\
        served ls log (mRings (sched t')) /\ (log <> [] -> hasTokens (sched t1) = true)).
    { destruct (hasTokens (sched t1)) eqn:Etok.
      - destruct (IH t1) as (t' & A & B & C & D & log' & F & G & K); try done.
        + intros j. destruct (decide (j = l)) as [->|]; [done|]. by rewrite Ho1.
        + intros j Hj. rewrite Ho1 by (intros ->; done). apply Hf. by right.
        + exists t'. split_and!; try done. exists log'. by split_and!.
      - exists t1. rewrite runLanes_idle by done. split_and!; try done.
        + intros j. destruct (decide (j = l)) as [->|]; [done|]. by rewrite Ho1.
        + exists []. rewrite app_nil_r. split_and!; [done|constructor| |done].
          intros l1 l2 _ _ (e & He & _). by apply not_elem_of_nil in He. }
    destruct Hrest as (t' & A & B & C & D & log' & F & G & K & L). exists t'. split_and!; try done.
    + intros j [? ?]%not_elem_of_cons. rewrite D by done. by apply Ho1.
    + exists (log ++ log'). split_and!.
      * by rewrite F, El, <- app_assoc.
      * apply Forall_app. split.
        -- eapply Forall_impl; [exact Hlog|]. intros e ->. by left.
        -- eapply Forall_impl; [exact G|]. intros e He. by right.
      * intros l1 l2 Hp Hm (e & He & E2). rewrite Forall_forall in Hlog.
        apply precedes_cons in Hp as [[-> Hin]|Hp].
        -- rewrite D by done. apply ready_false; [done| |done]. apply L.
           apply elem_of_app in He as [He|He]; [|by intros ->; apply not_elem_of_nil in He].
           specialize (Hlog e He). congruence.
        -- apply (K l1 l2); [done|done|]. exists e. split; [|done].
           apply elem_of_app in He as [He|He]; [|done]. specialize (Hlog e He).
           apply precedes_in in Hp as [_ ?]. congruence.
Qed.
End Bounds.

(** The least whole number of datagrams the tokens allow. *)
Definition budget (s : SendScheduler) : Z := Z.max 0 (Qceiling (mTokens s)).

Lemma budget_le s : (mTokens s <= inject_Z (budget s))%Q.
Proof.
  eapply Qle_trans; [apply Qle_ceiling|]. apply inject_Z_le. unfold budget. lia.
Qed.

Lemma budget_burst s : scheduler_ok s -> 0 <= budget s <= mBurst s.
Proof.
  intros Hs. pose proof (burstOf_bounds _ (ok_rate s Hs)). pose proof (ok_burst s Hs).
  unfold budget. pose proof (Qceiling_resp_le _ _ (ok_tokens s Hs)) as H'.
  rewrite Qceiling_Z in H'. lia.
Qed.

Definition mediaBudget (s : SendScheduler) : Z :=
  if acknowledgedWaits s then (3 * budget s + 3) / 4 else budget s.

Lemma mediaAllowance_le s :
  scheduler_ok s -> (mediaAllowance s <= inject_Z (mediaBudget s))%Q.
Proof.
  intros Hs. pose proof (budget_le s) as Hb. pose proof (budget_burst s Hs).
  pose proof (burstOf_bounds _ (ok_rate s Hs)). pose proof (ok_burst s Hs).
  unfold mediaAllowance, mediaBudget. destruct (acknowledgedWaits s); [|done].
  assert (H3 : (dmul (mTokens s) 3 <= inject_Z (3 * budget s))%Q).
  { apply rnd_le_Z; [lia|]. rewrite inject_Z_mult. change (inject_Z 3) with 3%Q. lra. }
  apply rnd_le_Z; [split; [|apply Z.div_le_upper_bound]; Z.div_mod_to_equations; lia|].
  assert (H4 : (inject_Z (3 * budget s) <= inject_Z (4 * ((3 * budget s + 3) / 4)))%Q).
  { apply inject_Z_le. Z.div_mod_to_equations. lia. }
  rewrite (inject_Z_mult 4) in H4. change (inject_Z 4) with 4%Q in H4.
  apply Qle_shift_div_r; [done|]. lra.
Qed.

Lemma run_log {St} (send : St -> Lane -> PeerId -> Result * St) s st fuel :
  scheduler_ok s -> mRate s <> 0 ->
  (forall l, zlen (peers (mRings s l)) + budget s <= Z.of_nat fuel) ->
  exists s' st' log,
    run (logged send) fuel s (st, []) = Some (s', (st', log)) /\ scheduler_ok s' /\
    sentCount log <= budget s /\ mediaCount log <= mediaBudget s /\
    served Order log (mRings s').
Proof.
  intros Hs Hrate Hf. pose proof (budget_burst s Hs) as Hb.
  pose proof (burstOf_bounds _ (ok_rate s Hs)) as Hbb. pose proof (ok_burst s Hs) as Hbu.
  assert (Hmb : 0 <= mediaBudget s <= 2 ^ 53).
  { unfold mediaBudget. destruct (acknowledgedWaits s); [|lia]. Z.div_mod_to_equations. lia. }
  set (t := {| sched := s; allowance := mediaAllowance s; owner := (st, @nil LogEntry) |}).
  destruct (runLanes_within send s (budget s) (mediaBudget s) fuel Order t)
    as (t' & E & Hw & Hr & _ & log & El & _ & Hserved).
  - repeat constructor; set_solver.
  - split; simpl; [by apply Z.eqb_neq|done|lia| |].
    + rewrite Z.sub_0_r. split; [apply Hb|apply budget_le].
    + rewrite Z.sub_0_r. split; [apply Hmb|by apply mediaAllowance_le].
  - apply Hs.
  - intros l _. apply Hf.
  - destruct t' as [s' al [st' log']]. simpl in El. subst log'.
    exists s', st', log. split; [by unfold run; fold t; rewrite E|].
    destruct Hw as [_ [Er Ebu] _ [Hsent Ht] [Hmed _]]. simpl in *. split_and!; try done.
    split; [by rewrite Er; apply Hs|by rewrite Ebu, Er; apply Hs| |done].
    eapply Qle_trans; [exact Ht|]. apply inject_Z_le. rewrite Ebu.
    assert (0 <= sentCount log) by apply zlen_nonneg. lia.
Qed.

(** ** Taking turns

    The reference schedule: [Quantum] datagrams for each peer, in the order of the ring. *)
Definition scheduled (ps : list PeerId) (j : Z) : PeerId :=
  default 0 (zlookup ps ((j / Quantum) mod zlen ps)).

(** The position of a ring in that schedule. *)
Definition at_position (ps : list PeerId) (j : Z) (r : Ring) : Prop :=
  peers r = ps /\ ringUsed r = j mod Quantum /\
  cursor (turnRing r) = (j / Quantum) mod zlen ps /\ 0 <= cursor r <= zlen ps.

Lemma at_position_next ps j r :
  ps <> [] -> 0 <= j -> at_position ps j r ->
  let r1 := (turnRing r) <| ringUsed ::= Z.succ |> in
  at_position ps (j + 1) (if Quantum <=? ringUsed r1 then nextPeer r1 else r1).
Proof.
  intros Hne Hj (Hp & Hu & Hc & Hr).
  assert (Hn : 0 < zlen ps) by (destruct ps; [done|rewrite zlen_cons; pose proof (zlen_nonneg ps); lia]).
  assert (Ep : peers (turnRing r) = ps) by (unfold turnRing; destruct (_ <=? _); done).
  assert (Eu : ringUsed (turnRing r) = j mod Quantum) by (unfold turnRing; destruct (_ <=? _); done).
  pose proof (Z.mod_pos_bound (j / Quantum) (zlen ps) Hn) as Hm.
  cbn zeta. cbn [ringUsed update]. unfold at_position.
  change (ringUsed ((turnRing r) <| ringUsed ::= Z.succ |>)) with (Z.succ (ringUsed (turnRing r))).
  rewrite Eu. destruct (Z.leb_spec Quantum (Z.succ (j mod Quantum))).
  - assert (Eq : (j + 1) / Quantum = j / Quantum + 1 /\ (j + 1) mod Quantum = 0).
    { change Quantum with 4 in *. Z.div_mod_to_equations. lia. }
    destruct Eq as [-> ->]. unfold nextPeer; simpl. split_and!; try done; [|lia|lia].
    unfold turnRing at 1. simpl. rewrite Ep, Hc.
    destruct (Z.leb_spec (zlen ps) (Z.succ ((j / Quantum) mod zlen ps))); simpl.
    + assert (E : (j / Quantum) mod zlen ps = zlen ps - 1) by lia.
      rewrite <- Zplus_mod_idemp_l, E. replace (zlen ps - 1 + 1) with (zlen ps) by lia.
      by rewrite Z_mod_same_full.
    + rewrite Hc, <- Zplus_mod_idemp_l, (Z.mod_small (_ + 1)); lia.
  - assert (Eq : (j + 1) / Quantum = j / Quantum /\ (j + 1) mod Quantum = j mod Quantum + 1).
    { change Quantum with 4 in *. Z.div_mod_to_equations. lia. }
    destruct Eq as [-> ->]. simpl. split_and!; try done; [| |lia|lia].
    + by rewrite Eu.
    + unfold turnRing at 1. simpl. rewrite Ep, Hc.
      destruct (Z.leb_spec (zlen ps) ((j / Quantum) mod zlen ps)); [lia|done].
Qed.

(** [n] turns of a lane. *)
Fixpoint turns {St} (send : St -> Lane -> PeerId -> Result * St) (n : nat) (l : Lane) (t : Turn) :
    option (Turn (St := St)) :=
  match n with
  | O => Some t
  | S n => match turn send l t with inl _ => None | inr t => turns send n l t end
  end.

(** While every datagram goes out, [n] turns follow the reference schedule. *)
Lemma turns_scheduled ps l n : forall j (t : Turn (St := unit * list LogEntry)),
  ps <> [] -> 0 <= j -> at_position ps j (mRings (sched t) l) ->
  exists t', turns (logged (fun st _ _ => (Sent, st))) n l t = Some t' /\
    (owner t').2 = (owner t).2 ++ ((fun i => (l, scheduled ps i, Sent)) <$> seqZ j (Z.of_nat n)) /\
    at_position ps (j + Z.of_nat n) (mRings (sched t') l).
Proof.
  induction n as [|n IH]; intros j t Hne Hj Hpos.
  { exists t. simpl. rewrite app_nil_r, Z.add_0_r. done. }
  pose proof (at_position_next ps j _ Hne Hj Hpos) as Hnext. cbn zeta in Hnext.
  cbn [turns]. unfold turn. cbn zeta. fold (turnRing (mRings (sched t) l)). unfold logged at 1.
  set (r' := if Quantum <=? _ then _ else _) in *.
  set (p := default 0 (zlookup _ _)).
  assert (Ep : p = scheduled ps j).
  { unfold p, scheduled. destruct Hpos as (Hp & _ & -> & _).
    by rewrite turnRing_peers, Hp. }
  set (t1 := {| sched := spend 1 _; allowance := _; owner := _ |}).
  assert (E1 : mRings (sched t1) l = r').
  { unfold t1, spend; simpl. destruct (negb _); simpl; by rewrite decide_True. }
  destruct (IH (j + 1) t1) as (t' & Et & Eo & Hp'); [done|lia|by rewrite E1|].
  exists t'. split; [exact Et|]. rewrite Eo. split.
  - unfold t1. simpl owner. simpl snd. rewrite <- app_assoc, Ep. f_equal.
    rewrite Nat2Z.inj_succ, (seqZ_cons j) by lia. simpl. by rewrite Z.pred_succ.
  - by replace (j + Z.of_nat (S n)) with (j + 1 + Z.of_nat n) by lia.
Qed.

(** ** What the scheduler promises *)

(** C5: with a rate set, a round of sending ends, within the budget and in the order of the
    lanes.  (Without a rate, which is the number 0, there is no budget.)  [run] comes back
    after at most as many turns as there are peers and datagrams allowed; whatever [send]
    reports, no more datagrams go out than there are tokens, and
    never more than the burst; the lane Media takes at most its share of three quarters
    while an acknowledged lane waits; and a lane is not served while a lane before it,
    Media apart, still has a peer in its ring. *)
Theorem run_within_budget {St} (send : St -> Lane -> PeerId -> Result * St) s st fuel :
  scheduler_ok s -> mRate s <> 0 ->
  (forall l, zlen (peers (mRings s l)) + budget s <= Z.of_nat fuel) ->
  exists s' st' log,
    run (logged send) fuel s (st, []) = Some (s', (st', log)) /\ scheduler_ok s' /\
    sentCount log <= budget s <= mBurst s /\ mediaCount log <= mediaBudget s /\
    served Order log (mRings s').
Proof.
  intros Hok Hr Hf. destruct (run_log send s st fuel Hok Hr Hf) as (s' & st' & log & ? & ? & ? & ? & ?).
  exists s', st', log. pose proof (budget_burst s Hok). split_and!; try done; lia.
Qed.

(** The peers of a lane take turns.  While every datagram goes out, the datagrams
    follow the schedule that gives each peer [Quantum] of them in a row and then moves on to
    the next, around the ring. *)
Theorem round_robin ps l n j (t : Turn (St := unit * list LogEntry)) :
  ps <> [] -> 0 <= j -> at_position ps j (mRings (sched t) l) ->
  exists t', turns (logged (fun st _ _ => (Sent, st))) n l t = Some t' /\
    (owner t').2 = (owner t).2 ++ ((fun i => (l, scheduled ps i, Sent)) <$> seqZ j (Z.of_nat n)) /\
    at_position ps (j + Z.of_nat n) (mRings (sched t') l).
Proof. apply turns_scheduled. Qed.

(** The rings stay well formed under every operation, and a peer that leaves does not
    cost another one its turn: after [remove] the peer is in no ring, the others are still
    in theirs, and the one whose turn it was, if it is another one, has it still. *)
Theorem remove_keeps_turns p l s :
  scheduler_ok s ->
  scheduler_ok (remove p s) /\ p ∉ peers (mRings (remove p s) l) /\
  (forall q, q <> p -> q ∈ peers (mRings s l) -> q ∈ peers (mRings (remove p s) l)) /\
  (forall q, q <> p -> zlookup (peers (mRings s l)) (cursor (mRings s l)) = Some q ->
     zlookup (peers (mRings (remove p s) l)) (cursor (mRings (remove p s) l)) = Some q).
Proof.
  intros Hok. destruct (removeFrom_spec p (mRings s l) (ok_rings _ Hok l)) as (_ & ? & ? & ?).
  split; [by apply remove_ok|done].
Qed.

(** Three peers with bulk data, one of them with media too. *)
Definition crowd : SendScheduler :=
  add Media 2 (add Bulk 3 (add Bulk 2 (add Bulk 1 (newScheduler 10000)))).

Lemma crowd_ok : scheduler_ok crowd.
Proof.
  unfold crowd. repeat (apply add_ok; [|vm_compute; set_solver]). apply newScheduler_ok. split; vm_compute; congruence.
Qed.

(** The media peer has 40 datagrams, the others have one each. *)
Definition supply (st : nat) (l : Lane) (p : PeerId) : Result * nat :=
  match l with
  | Media => match st with S st => (Sent, st) | O => (Empty, O) end
  | _ => (Sent, st)
  end.

Lemma run_within_budget_witness :
  budget crowd = 20 /\
  exists s' st' log, run (logged supply) 100 crowd (40%nat, []) = Some (s', (st', log)) /\ scheduler_ok s' /\
    sentCount log <= budget crowd <= mBurst crowd /\ mediaCount log <= mediaBudget crowd /\
    served Order log (mRings s').
Proof.
  split; [vm_compute; reflexivity|].
  apply (run_within_budget supply crowd 40%nat 100 crowd_ok); [vm_compute; discriminate|].
  intros l. destruct l; vm_compute; discriminate.
Defined.

Lemma round_robin_witness :
  let t := {| sched := crowd; allowance := 0; owner := (tt, []) |} in
  exists t', turns (logged (fun st _ _ => (Sent, st))) 9 Bulk t = Some t' /\
    (owner t').2 = (fun p => (Bulk, p, Sent)) <$> [1; 1; 1; 1; 2; 2; 2; 2; 3].
Proof.
  intros t. destruct (round_robin [1; 2; 3] Bulk 9 0 t) as (t' & Ht & Ho & _).
  - discriminate.
  - lia.
  - split_and!; vm_compute; congruence.
  - exists t'. split; [exact Ht|]. rewrite Ho. vm_compute. reflexivity.
Defined.

Lemma remove_keeps_turns_witness :
  scheduler_ok (remove 2 crowd) /\ peers (mRings (remove 2 crowd) Bulk) = [1; 3].
Proof. split; [apply (remove_keeps_turns 2 Bulk crowd crowd_ok)|vm_compute; reflexivity]. Defined.
End Sched.
