(* ===== verification/ReliableLink.v ===== *)
(** * Message streams to one remote peer

    [Channel/Reliability/ReliableLink.{h,cpp}]: three acknowledged, ordered lanes and one
    that is neither.  The link is a record, a member function a function from link to
    link.  A [unique_ptr] or [optional] member is an [option]; a [shared_ptr] to a message
    body is the body, which nothing changes once the message exists.  The object
    [mBudget] points to is part of the record: whoever shares it between links copies it
    in and out.  Time points are nanoseconds. *)
From Stdlib Require Import QArith.
From S2P Require Import Prelude Double Constants PacketFlags PacketHeader AckRanges.
From S2P Require Import SequenceBuffer RttEstimator MessageAssembler MediaAssembler.

#[local] Open Scope Z_scope.

Module Link.
Import Budget.

(** ** Data *)
Record OutboundMessage := mkOutbound { omTag : Z; omBody : bytes }.

Record DeliveredMessage := mkDelivered { dmLane : Lane; dmTag : Z; dmBody : bytes }.
#[global] Instance DeliveredMessage_eq_dec : EqDecision DeliveredMessage.
Proof. solve_decision. Defined.

Record OutgoingDatagram := mkDatagram {
  head : bytes;
  headSize : Z;
  dgMessage : option bytes;
  dgOffset : Z;
  dgLength : Z;
  owned : bytes;
}.
#[global] Instance OutgoingDatagram_eta : Eta OutgoingDatagram := fun d =>
  mkDatagram (head d) (headSize d) (dgMessage d) (dgOffset d) (dgLength d) (owned d).

Definition emptyDatagram : OutgoingDatagram :=
  {| head := replicate (Z.to_nat MaxHeaderSize) Byte.x00; headSize := 0; dgMessage := None;
     dgOffset := 0; dgLength := 0; owned := [] |}.

(** [OutgoingDatagram::header()] and [body()] *)
Definition datagramHeader (d : OutgoingDatagram) : bytes := ztake (headSize d) (head d).
Definition datagramBody (d : OutgoingDatagram) : bytes :=
  match dgMessage d with
  | Some m => ztake (dgLength d) (zdrop (dgOffset d) m)
  | None => owned d
  end.

(** Where a link takes the messages of a lane from. *)
Class MessageSource (S : Type) := next : S -> Lane -> option OutboundMessage * S.

Record LinkStats := mkStats {
  dataSent : Z;
  retransmissions : Z;
  fastRetransmissions : Z;
  acksSent : Z;
  pingsSent : Z;
  duplicatesReceived : Z;
  staleDropped : Z;
  outOfWindowDropped : Z;
  delivered : Z;
  bytesSent : Z;
  bytesReceived : Z;
  mediaSent : Z;
  mediaReceived : Z;
  mediaReceivedByPeer : Z;
  timerWork : Z;
}.
#[global] Instance LinkStats_eta : Eta LinkStats := fun s =>
  mkStats (dataSent s) (retransmissions s) (fastRetransmissions s) (acksSent s) (pingsSent s)
    (duplicatesReceived s) (staleDropped s) (outOfWindowDropped s) (delivered s) (bytesSent s)
    (bytesReceived s) (mediaSent s) (mediaReceived s) (mediaReceivedByPeer s) (timerWork s).
Definition noStats : LinkStats := mkStats 0 0 0 0 0 0 0 0 0 0 0 0 0 0 0.

Record InFlight := mkInFlight {
  ifMessage : bytes;
  ifOffset : Z;
  ifLength : Z;
  ifTag : Z;
  ifTotalLength : Z;
  ifFragIndex : Z;
  ifFragCount : Z;
  transmissions : Z;
  isLost : bool;
  sentAt : TimePoint;
  transmission : Z;
}.
#[global] Instance InFlight_eta : Eta InFlight := fun e =>
  mkInFlight (ifMessage e) (ifOffset e) (ifLength e) (ifTag e) (ifTotalLength e)
    (ifFragIndex e) (ifFragCount e) (transmissions e) (isLost e) (sentAt e) (transmission e).
#[global] Instance InFlight_inhabited : Inhabited InFlight :=
  populate (mkInFlight [] 0 0 0 0 0 1 0 false 0 0).

Record BufferedData := mkBuffered { bdHeader : PacketHeader; bdBody : bytes }.
#[global] Instance BufferedData_inhabited : Inhabited BufferedData :=
  populate {| bdHeader := mkHeader noFlags 0 0 0 0 0 0 0; bdBody := [] |}.

Record FragmentCursor := mkCursor { fcMessage : OutboundMessage; fcCount : Z; fcNext : Z }.
#[global] Instance FragmentCursor_eta : Eta FragmentCursor := fun c =>
  mkCursor (fcMessage c) (fcCount c) (fcNext c).

Record SentRecord := mkSent { srTransmission : Z; srSeq : Z; srLane : Lane }.

Record Stream := mkStream {
  cursor : option FragmentCursor;
  inFlight : SeqBuf.SequenceBuffer InFlight;
  lost : list Z;
  nextSendSeq : Z;
  sendBase : Z;
  onTheWire : Z;
  peerPaused : bool;
  ackSerial : option Z;
  probeAt : option TimePoint;
  probeInterval : Z;
  reorder : SeqBuf.SequenceBuffer BufferedData;
  nextExpected : Z;
  budgetPaused : bool;
  refusedLength : Z;
  assembler : MessageAssembler;
}.
#[global] Instance Stream_eta : Eta Stream := fun s =>
  mkStream (cursor s) (inFlight s) (lost s) (nextSendSeq s) (sendBase s) (onTheWire s)
    (peerPaused s) (ackSerial s) (probeAt s) (probeInterval s) (reorder s) (nextExpected s)
    (budgetPaused s) (refusedLength s) (assembler s).

Definition newStream (window : Z) : Stream :=
  {| cursor := None; inFlight := SeqBuf.newBuffer window; lost := []; nextSendSeq := 1;
     sendBase := 1; onTheWire := 0; peerPaused := false; ackSerial := None; probeAt := None;
     probeInterval := 0; reorder := SeqBuf.newBuffer window; nextExpected := 1;
     budgetPaused := false; refusedLength := 0; assembler := idle |}.

Definition windowOf (l : Lane) : Z :=
  match l with Control => ControlWindow | Reliable => ReliableWindow | _ => BulkWindow end.
Definition bitOf (l : Lane) : Z := u8 (Z.shiftl 1 (lane_to_Z l)).

Record ReliableLink := mkLink {
  mTimings : LinkTimings;
  mLocalStreamID : Z;
  mRemoteStreamID : option Z;
  mRtt : Rtt.RttEstimator;
  mBudget : option AssemblyBudget;
  mStreams : Lane -> option Stream;
  mMediaCursor : option FragmentCursor;
  mNextMediaSeq : Z;
  mMediaAssembler : option MediaAsm.MediaAssembler;
  mMediaReceived : Z;
  mSent : list SentRecord;
  mTransmissions : Z;
  mLargestAcked : Z;
  mStalledSince : option TimePoint;
  mLastReceived : option TimePoint;
  mPingedAt : TimePoint;
  mTimeoutsInARow : Z;
  mCongestionWindow : Q;
  mRecoveryStart : Z;
  mPaused : bool;
  mAckSerial : Z;
  mAckDue : Z;
  mPingDue : Z;
  mPendingAcks : list OutgoingDatagram;
  mPeeked : OutgoingDatagram;
  mDelivered : list DeliveredMessage;
  mFailed : bool;
  mStats : LinkStats;
}.
#[global] Instance ReliableLink_eta : Eta ReliableLink := fun k =>
  mkLink (mTimings k) (mLocalStreamID k) (mRemoteStreamID k) (mRtt k) (mBudget k) (mStreams k)
    (mMediaCursor k) (mNextMediaSeq k) (mMediaAssembler k) (mMediaReceived k) (mSent k)
    (mTransmissions k) (mLargestAcked k) (mStalledSince k) (mLastReceived k) (mPingedAt k)
    (mTimeoutsInARow k) (mCongestionWindow k) (mRecoveryStart k) (mPaused k) (mAckSerial k)
    (mAckDue k) (mPingDue k) (mPendingAcks k) (mPeeked k) (mDelivered k) (mFailed k) (mStats k).

Definition MaxBackoffSteps : Z := 16.
Definition StreamLanes : list Lane := [Control; Reliable; Bulk].

(** Ranges that fit into one Ack *)
Definition MaxAckRanges : Z := (MaxDatagramSize - BaseHeaderSize - AckFieldsSize) / SeqRangeSize.

Definition sharesCongestionWindow (l : Lane) : bool :=
  match l with Reliable | Bulk => true | _ => false end.

Definition initialWindow (t : LinkTimings) : Q :=
  dofZ (if 0 <? fixedCwnd t then fixedCwnd t
        else Rtt.clampTo MinCongestionWindow MaxCongestionWindow (initialCwnd t)).

(** [generated]: what [makeStreamID()] returns. *)
Definition newLink (t : LinkTimings) (localStreamID generated : Z)
    (budget : option AssemblyBudget) : ReliableLink :=
  {| mTimings := t; mLocalStreamID := if negb (localStreamID =? 0) then localStreamID else generated;
     mRemoteStreamID := None; mRtt := Rtt.newRttEstimator (initialRto t) (minRto t) (maxRto t);
     mBudget := budget; mStreams := fun _ => None; mMediaCursor := None; mNextMediaSeq := 1;
     mMediaAssembler := None; mMediaReceived := 0; mSent := []; mTransmissions := 0;
     mLargestAcked := 0; mStalledSince := None; mLastReceived := None; mPingedAt := 0;
     mTimeoutsInARow := 0; mCongestionWindow := initialWindow t; mRecoveryStart := 0;
     mPaused := false; mAckSerial := 0; mAckDue := 0; mPingDue := 0; mPendingAcks := [];
     mPeeked := emptyDatagram; mDelivered := []; mFailed := false; mStats := noStats |}.

(** *** Streams *)
Definition existingStream (k : ReliableLink) (l : Lane) : option Stream := mStreams k l.
Definition setStream (l : Lane) (s : Stream) (k : ReliableLink) : ReliableLink :=
  k <| mStreams := fun j => if decide (j = l) then Some s else mStreams k j |>.

Definition streamFor (l : Lane) (k : ReliableLink) : Stream * ReliableLink :=
  match mStreams k l with
  | Some s => (s, k)
  | None => let s := newStream (windowOf l) in (s, setStream l s k)
  end.

(** A counter of [LinkStats] goes up. *)
Definition bump (field : LinkStats -> Z) `{!Update field} (k : ReliableLink) : ReliableLink :=
  k <| mStats ::= update field (fun n => u64 (n + 1)) |>.
Definition bumpBy (field : LinkStats -> Z) `{!Update field} (by_ : Z) (k : ReliableLink) : ReliableLink :=
  k <| mStats ::= update field (fun n => u64 (n + by_)) |>.
Definition raise (bits : ReliableLink -> Z) `{!Update bits} (l : Lane) (k : ReliableLink) : ReliableLink :=
  k <| bits ::= fun b => Z.lor b (bitOf l) |>.

(** ** Helpers *)
Definition makeHeader (k : ReliableLink) (f : PacketFlags) (sq : Z) : PacketHeader :=
  {| flags := f; srcStreamID := mLocalStreamID k; dstStreamID := default 0 (mRemoteStreamID k);
     seq := sq; fragIndex := 0; fragCount := 0; tag := 0; totalLength := 0 |}.

Definition makeDatagram (h : PacketHeader) : OutgoingDatagram :=
  emptyDatagram <| head ::= fun a => blit a 0 (encodeHeader h) |>
                <| headSize := u8 (zlen (encodeHeader h)) |>.

Definition supervise (now : TimePoint) (k : ReliableLink) : ReliableLink :=
  k <| mLastReceived := Some now |> <| mPingedAt := now |>.

Definition updateProgressClock (now : TimePoint) (progress : bool) (k : ReliableLink) : ReliableLink :=
  let waiting := existsb (fun l => match mStreams k l with
      | Some s => negb (peerPaused s) && negb (SeqBuf.empty (inFlight s))
      | None => false end) StreamLanes in
  if negb waiting then k <| mStalledSince := None |>
  else if progress || bool_decide (mStalledSince k = None) then k <| mStalledSince := Some now |>
  else k.

(** ** Sending *)
Fixpoint dropStale (b : SeqBuf.SequenceBuffer InFlight) (l : list Z) : option (Z * InFlight) * list Z :=
  match l with
  | [] => (None, [])
  | sq :: rest =>
    match SeqBuf.find b sq with
    | Some e => if isLost e then (Some (sq, e), l) else dropStale b rest
    | None => dropStale b rest
    end
  end.

(** The entry to retransmit, with its seq; stale seqs leave the queue. *)
Definition nextLost (s : Stream) : option (Z * InFlight) * Stream :=
  let '(r, l) := dropStale (inFlight s) (lost s) in (r, s <| lost := l |>).

Definition cursorFor (m : OutboundMessage) : FragmentCursor :=
  {| fcMessage := m; fcCount := fragmentsOf (zlen (omBody m)); fcNext := 0 |}.

Definition fragmentAt (c : FragmentCursor) : InFlight :=
  let size := zlen (omBody (fcMessage c)) in
  let offset := fcNext c * MaxFragmentBody in
  {| ifMessage := omBody (fcMessage c); ifOffset := u32 offset;
     ifLength := u32 (Z.min MaxFragmentBody (size - offset)); ifTag := omTag (fcMessage c);
     ifTotalLength := u32 size; ifFragIndex := u16 (fcNext c); ifFragCount := u16 (fcCount c);
     transmissions := 0; isLost := false; sentAt := 0; transmission := 0 |}.

Definition headerOf (k : ReliableLink) (l : Lane) (sq : Z) (e : InFlight) : PacketHeader :=
  let h := (makeHeader k (dataFlags l) sq) <| tag := ifTag e |> in
  if 1 <? ifFragCount e then
    h <| flags ::= setFragment true (ifFragIndex e + 1 =? ifFragCount e) |>
      <| fragIndex := ifFragIndex e |> <| fragCount := ifFragCount e |>
      <| totalLength := ifTotalLength e |>
  else h.

Definition offer (h : PacketHeader) (e : InFlight) (k : ReliableLink) :
    option OutgoingDatagram * ReliableLink :=
  let d := (makeDatagram h) <| dgMessage := Some (ifMessage e) |> <| dgOffset := ifOffset e |>
                            <| dgLength := ifLength e |> in
  (Some d, k <| mPeeked := d |>).

Definition congestionWindowOpen (k : ReliableLink) (l : Lane) : bool :=
  if negb (sharesCongestionWindow l) then true
  else
    let wire l := match mStreams k l with Some s => onTheWire s | None => 0 end in
    u64 (wire Reliable + wire Bulk) <? dtrunc (mCongestionWindow k).

Definition peekMedia {S} `{!MessageSource S} (k : ReliableLink) (src : S) :
    option OutgoingDatagram * ReliableLink * S :=
  let present (c : FragmentCursor) (k : ReliableLink) :=
    let fragment := fragmentAt c in
    offer (headerOf k Media (mNextMediaSeq k) fragment) fragment k in
  match mMediaCursor k with
  | Some c => (present c k, src)
  | None =>
    let '(message, src) := next src Media in
    match message with
    | None => (None, k, src)
    | Some m =>
      let c := cursorFor m in (present c (k <| mMediaCursor := Some c |>), src)
    end
  end.

(** [peek] from the point where there is nothing to retransmit: the next fragment of the
    message in progress, or the first one of the next message. *)
Definition peekNext {S} `{!MessageSource S} (l : Lane) (k : ReliableLink) (src : S) :
    option OutgoingDatagram * ReliableLink * S :=
  let present (s : Stream) (c : FragmentCursor) (k : ReliableLink) :=
    let fragment := fragmentAt c in offer (headerOf k l (nextSendSeq s) fragment) fragment k in
  match s ← mStreams k l; c ← cursor s; Some (s, c) with
  | Some (s, c) => (present s c k, src)
  | None =>
    let '(message, src) := next src l in
    match message with
    | None => (None, k, src)
    | Some m =>
      let '(s, k) := streamFor l k in
      let c := cursorFor m in
      let s := s <| cursor := Some c |> in
      (present s c (setStream l s k), src)
    end
  end.

Definition peek {S} `{!MessageSource S} (l : Lane) (k : ReliableLink) (src : S) :
    option OutgoingDatagram * ReliableLink * S :=
  if mFailed k then (None, k, src)
  else if decide (l = Media) then peekMedia k src
  else
    match mStreams k l with
    | None => if negb (congestionWindowOpen k l) then (None, k, src) else peekNext l k src
    | Some s =>
      let '(retransmit, s) := nextLost s in
      let k := setStream l s k in
      if bool_decide (retransmit = None)
         && (SeqBuf.capacity (inFlight s) <=? u64 (nextSendSeq s - sendBase s))
      then (None, k, src)
      else if peerPaused s then (None, k, src)
      else if negb (congestionWindowOpen k l) then (None, k, src)
      else
        match retransmit with
        | Some (sq, e) => (offer (headerOf k l sq e) e k, src)
        | None => peekNext l k src
        end
    end.

(** The transmission of the packet in [inFlight] under [sq]. *)
Definition transmit (l : Lane) (s : Stream) (sq : Z) (e : InFlight) (now : TimePoint)
    (k : ReliableLink) : ReliableLink :=
  let k := if transmissions e =? 0 then bump dataSent k else bump retransmissions k in
  let k := k <| mTransmissions ::= fun n => u64 (n + 1) |> in
  let e := e <| isLost := false |> <| sentAt := now |> <| transmission := mTransmissions k |>
             <| transmissions ::= fun n => u16 (n + 1) |> in
  let s := s <| inFlight ::= fun b => SeqBuf.modify b sq (fun _ => e) |>
             <| onTheWire ::= fun n => u64 (n + 1) |> in
  let k := if (transmissions e =? 1) && negb (bool_decide (l = Control))
           then bumpBy bytesSent (ifLength e) k else k in
  let k := setStream l s k in
  let k := k <| mSent ::= fun q => q ++ [{| srTransmission := transmission e; srSeq := sq;
                                            srLane := l |}] |> in
  updateProgressClock now false k.

(** [++cursor.next >= cursor.count]: the cursor moves on, or the message is through. *)
Definition advanceCursor (c : FragmentCursor) : option FragmentCursor :=
  let c := c <| fcNext ::= Z.succ |> in
  if fcCount c <=? fcNext c then None else Some c.

Definition commitMedia (k : ReliableLink) : ReliableLink :=
  match mMediaCursor k with
  | None => k
  | Some c =>
    let k := k <| mNextMediaSeq ::= fun n => u64 (n + 1) |> in
    let k := bumpBy bytesSent (dgLength (mPeeked k)) (bump mediaSent k) in
    k <| mMediaCursor := advanceCursor c |>
  end.

Definition commit (l : Lane) (now : TimePoint) (k : ReliableLink) : ReliableLink :=
  if decide (l = Media) then commitMedia k
  else
    match mStreams k l with
    | None => k
    | Some s =>
      let '(retransmit, s) := nextLost s in
      match retransmit with
      | Some (sq, e) => transmit l (s <| lost ::= tail |>) sq e now k
      | None =>
        match cursor s with
        | None => setStream l s k
        | Some c =>
          let sq := nextSendSeq s in
          let e := fragmentAt c in
          let s := s <| nextSendSeq ::= fun n => u64 (n + 1) |>
                     <| inFlight ::= fun b => SeqBuf.insert b sq e |>
                     <| cursor := advanceCursor c |> in
          transmit l s sq e now k
        end
      end
    end.

(** ** Receiving

    The functions on a stream take and return it together with the link it is part of. *)
Definition acceptInOrder (l : Lane) (s : Stream) (h : PacketHeader) (b : bytes)
    (k : ReliableLink) : bool * Stream * ReliableLink :=
  if negb (hasRoomFor (mBudget k) h) then
    (false, s <| budgetPaused := true |> <| refusedLength := totalLength h |>, k)
  else
    let '(message, (budget, asm)) := accept (mBudget k) (assembler s) h b in
    let k := k <| mBudget := budget |> in
    let s := s <| assembler := asm |> in
    match message with
    | Some m =>
      let k := bumpBy bytesReceived
                 (if negb (bool_decide (l = Control)) then zlen (msgBody m) else 0) k in
      let k := k <| mDelivered ::= fun q =>
                 q ++ [{| dmLane := l; dmTag := msgTag m; dmBody := msgBody m |}] |> in
      (true, s, bump delivered k)
    | None => (true, s, k)
    end.

(** The loop ends after at most one turn per entry of the buffer; [fuel] is their number. *)
Fixpoint drainLoop (fuel : nat) (l : Lane) (s : Stream) (k : ReliableLink) : Stream * ReliableLink :=
  match fuel with
  | O => (s, k)
  | S fuel =>
    match SeqBuf.find (reorder s) (nextExpected s) with
    | None => (s, k)
    | Some d =>
      let '(taken, s, k) := acceptInOrder l s (bdHeader d) (bdBody d) k in
      if negb taken then (s, k)
      else
        let s := s <| reorder ::= fun r => (SeqBuf.erase r (nextExpected s)).2 |>
                   <| nextExpected ::= fun n => u64 (n + 1) |> in
        drainLoop fuel l s k
    end
  end.

Definition drainReorderBuffer (l : Lane) (s : Stream) (k : ReliableLink) : Stream * ReliableLink :=
  drainLoop (Z.to_nat (SeqBuf.mSize (reorder s))) l s k.

Definition retryRefused (l : Lane) (s : Stream) (k : ReliableLink) : Stream * ReliableLink :=
  if negb (budgetPaused s)
     || match mBudget k with Some b => negb (fits b (refusedLength s)) | None => false end
  then (s, k)
  else
    let '(s, k) := drainReorderBuffer l (s <| budgetPaused := false |>) k in
    (s, raise mAckDue l k).

Definition handleData (l : Lane) (h : PacketHeader) (b : bytes) (k : ReliableLink) : ReliableLink :=
  let '(s, k) := streamFor l k in
  let sq := seq h in
  let '(s, k) := retryRefused l s k in
  let k := setStream l s k in
  if u64 (nextExpected s + SeqBuf.capacity (reorder s)) <=? sq then bump outOfWindowDropped k
  else
    let k := raise mAckDue l k in
    if (sq <? nextExpected s) || SeqBuf.contains (reorder s) sq then bump duplicatesReceived k
    else if negb (sq =? nextExpected s) then
      setStream l (s <| reorder ::= fun r =>
        SeqBuf.insert r sq {| bdHeader := h; bdBody := b |} |>) k
    else
      let '(taken, s, k) := acceptInOrder l s h b k in
      if negb taken then setStream l s k
      else
        let '(s, k) := drainReorderBuffer l (s <| nextExpected ::= fun n => u64 (n + 1) |>) k in
        setStream l s k.

Definition handleMedia (h : PacketHeader) (b : bytes) (k : ReliableLink) : ReliableLink :=
  let k := bump mediaReceived (k <| mMediaReceived ::= fun n => u32 (n + 1) |>) in
  let asm := default MediaAsm.newMediaAssembler (mMediaAssembler k) in
  let '(message, asm) := MediaAsm.accept asm h b in
  let k := k <| mMediaAssembler := Some asm |> in
  match message with
  | Some m =>
    let k := bumpBy bytesReceived (zlen (msgBody m)) k in
    let k := k <| mDelivered ::= fun q =>
               q ++ [{| dmLane := Media; dmTag := msgTag m; dmBody := msgBody m |}] |> in
    bump delivered k
  | None => k
  end.

(** *** Loss and congestion *)
Definition setPeerPaused (l : Lane) (paused : bool) (now : TimePoint) (k : ReliableLink) : ReliableLink :=
  match mStreams k l with
  | None => k
  | Some s =>
    if eqb (peerPaused s) paused then k
    else
      let s := s <| peerPaused := paused |> <| probeAt := None |> in
      let s :=
        if paused then
          let interval := Z.max (Z.quot (Rtt.mRto (mRtt k)) 1000) MinPauseProbeInterval in
          s <| probeInterval := interval |> <| probeAt := Some (now + ms interval) |>
        else s in
      updateProgressClock now false (setStream l s k)
  end.

(** The entry a record stands for, unless it was acknowledged, declared lost or sent again. *)
Definition entryOf (k : ReliableLink) (r : SentRecord) : option InFlight :=
  match mStreams k (srLane r) with
  | None => None
  | Some s =>
    match SeqBuf.find (inFlight s) (srSeq r) with
    | Some e => if negb (isLost e) && (transmission e =? srTransmission r) then Some e else None
    | None => None
    end
  end.

Definition markLost (r : SentRecord) (e : InFlight) (timedOut : bool) (k : ReliableLink) : ReliableLink :=
  match mStreams k (srLane r) with
  | None => k
  | Some s =>
    let s := s <| inFlight ::= fun b => SeqBuf.modify b (srSeq r) (fun e => e <| isLost := true |>) |>
               <| onTheWire ::= fun n => u64 (n - 1) |>
               <| lost ::= fun q => q ++ [srSeq r] |> in
    let k := setStream (srLane r) s k in
    let k := if negb timedOut then bump fastRetransmissions k else k in
    if negb (sharesCongestionWindow (srLane r)) || (0 <? fixedCwnd (mTimings k))
       || (transmission e <=? mRecoveryStart k)
    then k
    else k <| mCongestionWindow ::= fun w => dmax (ddiv w 2) (dofZ MinCongestionWindow) |>
           <| mRecoveryStart := mTransmissions k |>
  end.

(** The loops over [mSent]: [queue] is what is left of it.  [keep r e k] says that the
    record at the front is live and too young to be declared lost. *)
Fixpoint expire (keep : SentRecord -> InFlight -> ReliableLink -> bool) (timedOut : bool)
    (work : ReliableLink -> ReliableLink) (queue : list SentRecord) (found : bool)
    (k : ReliableLink) : bool * ReliableLink :=
  match queue with
  | [] => (found, k <| mSent := [] |>)
  | r :: rest =>
    let k := work k in
    match entryOf k r with
    | Some e =>
      if keep r e k then (found, k <| mSent := queue |>)
      else expire keep timedOut work rest true (markLost r e timedOut k)
    | None => expire keep timedOut work rest found k
    end
  end.

Definition detectLosses (k : ReliableLink) : bool * ReliableLink :=
  expire (fun r _ k => mLargestAcked k <? u64 (srTransmission r + FastRetransmitThreshold))
    false (fun k => k) (mSent k) false k.

(** What the closure [release] of [handleAck] works on. *)
Record Released := mkReleased {
  acked : Z;
  counted : Z;
  hasSample : bool;
  sampleSentAt : TimePoint;
}.
#[global] Instance Released_eta : Eta Released := fun r =>
  mkReleased (acked r) (counted r) (hasSample r) (sampleSentAt r).

Definition releaseSeq (l : Lane) (p : Released * ReliableLink) (sq : Z) : Released * ReliableLink :=
  let '(r, k) := p in
  match mStreams k l with
  | None => (r, k)
  | Some s =>
    let '(taken, b) := SeqBuf.take (inFlight s) sq in
    match taken with
    | None => (r, k)
    | Some e =>
      let s := s <| inFlight := b |> in
      let s := if negb (isLost e) then s <| onTheWire ::= fun n => u64 (n - 1) |> else s in
      let k := setStream l s k in
      let k := k <| mLargestAcked ::= fun n => Z.max n (transmission e) |> in
      let r := r <| acked ::= Z.succ |>
                 <| counted ::= fun n => n + (if mRecoveryStart k <? transmission e then 1 else 0) |> in
      let r := if (transmissions e =? 1) && (negb (hasSample r) || (sampleSentAt r <? sentAt e))
               then r <| hasSample := true |> <| sampleSentAt := sentAt e |> else r in
      (r, k)
    end
  end.

(** [for (seq = lo; seq <= hi; ++seq) release(seq)], with [hi] below the last seq there is. *)
Definition releaseRange (l : Lane) (lo hi : Z) (p : Released * ReliableLink) : Released * ReliableLink :=
  fold_left (releaseSeq l) (seqZ lo (hi - lo + 1)) p.

Definition releaseAcked (l : Lane) (ackedSeq : Z) (rs : list SeqRange) (base lastSent : Z)
    (p : Released * ReliableLink) : Released * ReliableLink :=
  fold_left (fun p r =>
      if lastSent <? first r then p
      else releaseRange l (Z.max (first r) base) (Z.min (rangeLast r) lastSent) p) rs
    (releaseRange l base (Z.min ackedSeq lastSent) p).

(** [while (sendBase < nextSendSeq && !inFlight.contains(sendBase)) ++sendBase] *)
Fixpoint advanceBase (fuel : nat) (s : Stream) : Stream :=
  match fuel with
  | O => s
  | S fuel =>
    if (sendBase s <? nextSendSeq s) && negb (SeqBuf.contains (inFlight s) (sendBase s))
    then advanceBase fuel (s <| sendBase ::= fun n => u64 (n + 1) |>)
    else s
  end.

Definition noneReleased : Released :=
  {| acked := 0; counted := 0; hasSample := false; sampleSentAt := 0 |}.

(** The steps of [handleAck]: the pause state of an Ack that was not overtaken, *)
Definition noteAck (l : Lane) (s : Stream) (ack : AckBody) (paused : bool) (now : TimePoint)
    (k : ReliableLink) : ReliableLink :=
  if match ackSerial s with None => true | Some last => 0 <? sint32 (serial ack - last) end
  then
    let k := setStream l (s <| ackSerial := Some (serial ack) |>) k in
    let k := k <| mStats ::= fun st => st <| mediaReceivedByPeer := ackMediaReceived ack |> |> in
    setPeerPaused l paused now k
  else k.

(** the window that moves on, *)
Definition moveWindow (l : Lane) (k : ReliableLink) : ReliableLink :=
  match mStreams k l with
  | Some s => setStream l (advanceBase (Z.to_nat (nextSendSeq s - sendBase s)) s) k
  | None => k
  end.

(** the round-trip time, *)
Definition takeSample (r : Released) (now : TimePoint) (k : ReliableLink) : ReliableLink :=
  if 0 <? acked r then
    let k := if hasSample r
             then k <| mRtt ::= fun e => Rtt.addSample e (Z.quot (now - sampleSentAt r) 1000) |>
             else k in
    k <| mTimeoutsInARow := 0 |>
  else k.

(** and the congestion window. *)
Definition growWindow (l : Lane) (losses : bool) (r : Released) (k : ReliableLink) : ReliableLink :=
  if sharesCongestionWindow l && negb losses && (0 <? counted r) && (fixedCwnd (mTimings k) =? 0)
  then k <| mCongestionWindow ::= fun w =>
         dmin (dadd w (ddiv (dofZ (counted r)) w)) (dofZ MaxCongestionWindow) |>
  else k.

Definition handleAck (l : Lane) (h : PacketHeader) (b : bytes) (now : TimePoint)
    (k : ReliableLink) : ReliableLink :=
  match mStreams k l with
  | None => k
  | Some s =>
    match decodeAck b with
    | Some (Some ack) =>
      let k := noteAck l s ack (isPaused (flags h)) now k in
      let '(r, k) := releaseAcked l (seq h) (ranges ack) (sendBase s) (u64 (nextSendSeq s - 1))
                       (noneReleased, k) in
      let k := takeSample r now (moveWindow l k) in
      let '(losses, k) := detectLosses k in
      growWindow l losses r (updateProgressClock now (0 <? acked r) k)
    | _ => k
    end
  end.

Definition onPacket (p : DecodedPacket) (now : TimePoint) (k : ReliableLink) : ReliableLink :=
  let h := header p in
  if mFailed k then k
  else if (negb (dstStreamID h =? 0) && negb (dstStreamID h =? mLocalStreamID k))
          || match mRemoteStreamID k with Some id => negb (id =? srcStreamID h) | None => false end
  then bump staleDropped k
  else
    let k := k <| mRemoteStreamID := Some (srcStreamID h) |> in
    let k := match mLastReceived k with Some _ => k <| mLastReceived := Some now |> | None => k end in
    let l := lane (flags h) in
    match kind (flags h) with
    | Data => if decide (l = Media) then handleMedia h (body p) k else handleData l h (body p) k
    | Ack => match existingStream k l with
             | Some _ => handleAck l h (body p) now k
             | None => k end
    | Ping => raise mAckDue l k
    | KBeacon => k
    end.

Definition setPaused (paused : bool) (k : ReliableLink) : ReliableLink :=
  if eqb (mPaused k) paused then k
  else
    fold_left (fun k l => match existingStream k l with Some _ => raise mAckDue l k | None => k end)
      [Reliable; Bulk] (k <| mPaused := paused |>).

(** ** Acknowledging *)

(** [retryRefused] on the stream of a lane, if there is one. *)
Definition retryLane (l : Lane) (k : ReliableLink) : ReliableLink :=
  match mStreams k l with
  | Some s => let '(s, k) := retryRefused l s k in setStream l s k
  | None => k
  end.

(** The seqs that wait behind a gap. *)
Definition waitingSeqs (s : Stream) : list Z :=
  if negb (SeqBuf.empty (reorder s))
  then (SeqBuf.forEach (fun acc sq _ => (acc ++ [sq], true)) [] (reorder s)).1
  else [].

Definition makeAck (l : Lane) (k : ReliableLink) : OutgoingDatagram * ReliableLink :=
  let k := retryLane l k in
  let stream := mStreams k l in
  let k := k <| mAckSerial ::= fun n => u32 (n + 1) |> in
  let waiting := match stream with Some s => waitingSeqs s | None => [] end in
  let ack := {| serial := mAckSerial k; ackMediaReceived := mMediaReceived k;
                ranges := toRanges waiting |} in
  let paused := (mPaused k && negb (bool_decide (l = Control)))
                || match stream with Some s => budgetPaused s | None => false end in
  let d := makeDatagram (makeHeader k (ackFlags l paused)
             match stream with Some s => u64 (nextExpected s - 1) | None => 0 end) in
  (d <| owned := encodeAck ack MaxAckRanges |>, bump acksSent k).

Definition buildAcks (k : ReliableLink) (l : Lane) : ReliableLink :=
  let k :=
    if negb (Z.land (mAckDue k) (bitOf l) =? 0) then
      let '(d, k) := makeAck l k in k <| mPendingAcks ::= fun q => q ++ [d] |>
    else k in
  if negb (Z.land (mPingDue k) (bitOf l) =? 0) then
    bump pingsSent (k <| mPendingAcks ::= fun q =>
      q ++ [makeDatagram (makeHeader k (pingFlags l) 0)] |>)
  else k.

Definition peekAck (k : ReliableLink) : option OutgoingDatagram * ReliableLink :=
  if mFailed k then (None, k)
  else
    let k := if bool_decide (mPendingAcks k = [])
             then (fold_left buildAcks StreamLanes k) <| mAckDue := 0 |> <| mPingDue := 0 |>
             else k in
    (List.head (mPendingAcks k), k).

Definition commitAck (k : ReliableLink) : ReliableLink := k <| mPendingAcks ::= tail |>.

(** ** Timers *)
Definition dropStream (k : ReliableLink) (l : Lane) : ReliableLink :=
  match mStreams k l with
  | None => k
  | Some s =>
    k <| mBudget := (resetAssembler (mBudget k) (assembler s)).1 |>
      <| mStreams := fun j => if decide (j = l) then None else mStreams k j |>
  end.

Definition resetStreams (k : ReliableLink) : ReliableLink :=
  let k := fold_left dropStream StreamLanes k in
  k <| mMediaCursor := None |> <| mMediaAssembler := None |> <| mNextMediaSeq := 1 |>
    <| mMediaReceived := 0 |> <| mRtt ::= Rtt.reset |> <| mSent := [] |>
    <| mCongestionWindow := initialWindow (mTimings k) |> <| mTransmissions := 0 |>
    <| mLargestAcked := 0 |> <| mRecoveryStart := 0 |> <| mTimeoutsInARow := 0 |>
    <| mStalledSince := None |> <| mPendingAcks := [] |> <| mAckDue := 0 |> <| mPingDue := 0 |>.

Definition fail (k : ReliableLink) : ReliableLink :=
  (resetStreams k) <| mLastReceived := None |> <| mFailed := true |>.

Definition probeLane (now : TimePoint) (k : ReliableLink) (l : Lane) : ReliableLink :=
  match mStreams k l with
  | Some s =>
    match probeAt s with
    | Some at_ =>
      if peerPaused s && (at_ <=? now) then
        let interval := Z.min (probeInterval s * 2) (maxRto (mTimings k)) in
        setStream l (s <| probeInterval := interval |> <| probeAt := Some (now + ms interval) |>)
          (raise mPingDue l k)
      else k
    | None => k
    end
  | None => k
  end.

Definition timedOutSince (now : TimePoint) (limit : Duration) (since : option TimePoint) : bool :=
  match since with Some t => limit <=? now - t | None => false end.

Definition onTimer (now : TimePoint) (k : ReliableLink) : ReliableLink :=
  if mFailed k then k
  else if timedOutSince now (ms (peerTimeout (mTimings k))) (mStalledSince k)
          || timedOutSince now (ms (peerTimeout (mTimings k))) (mLastReceived k)
  then fail k
  else
    let k :=
      match mLastReceived k, mRemoteStreamID k with
      | Some received, Some _ =>
        if ms (keepAlive (mTimings k)) <=? now - Z.max received (mPingedAt k)
        then (raise mPingDue Control k) <| mPingedAt := now |> else k
      | _, _ => k
      end in
    let timeout := us (Rtt.timeoutFor (mRtt k) (mTimeoutsInARow k)) in
    let '(expired, k) := expire (fun _ e _ => now <? sentAt e + timeout) true (bump timerWork)
                           (mSent k) false k in
    let k := if expired && (mTimeoutsInARow k <? MaxBackoffSteps)
             then k <| mTimeoutsInARow ::= Z.succ |> else k in
    fold_left (probeLane now) StreamLanes k.

Definition consider (next : option TimePoint) (when_ : TimePoint) : option TimePoint :=
  match next with
  | Some t => if when_ <? t then Some when_ else next
  | None => Some when_
  end.

Definition considerAll (next : option TimePoint) (l : list (option TimePoint)) : option TimePoint :=
  fold_left (fun n o => match o with Some t => consider n t | None => n end) l next.

Definition nextDeadline (k : ReliableLink) : option TimePoint :=
  considerAll None
    ([ match mSent k with
       | oldest :: _ =>
         match s ← mStreams k (srLane oldest); SeqBuf.find (inFlight s) (srSeq oldest) with
         | Some e => Some (sentAt e + us (Rtt.timeoutFor (mRtt k) (mTimeoutsInARow k)))
         | None => None
         end
       | [] => None
       end;
       (fun t => t + ms (peerTimeout (mTimings k))) <$> mStalledSince k;
       (fun t => t + ms (peerTimeout (mTimings k))) <$> mLastReceived k;
       match mLastReceived k, mRemoteStreamID k with
       | Some t, Some _ => Some (Z.max t (mPingedAt k) + ms (keepAlive (mTimings k)))
       | _, _ => None
       end ]
     ++ ((fun l => match mStreams k l with
                   | Some s => if negb (peerPaused s) then None else probeAt s
                   | None => None end) <$> StreamLanes)).

(** ** State *)
Definition takeDelivered (k : ReliableLink) : list DeliveredMessage * ReliableLink :=
  (mDelivered k, k <| mDelivered := [] |>).

Definition streamPending (s : Stream) : bool :=
  negb (SeqBuf.empty (inFlight s)) || bool_decide (is_Some (cursor s)).

Definition hasPendingReliable (k : ReliableLink) : bool :=
  existsb (fun l => match mStreams k l with Some s => streamPending s | None => false end) StreamLanes.

Definition hasPending (k : ReliableLink) (l : Lane) : bool :=
  if decide (l = Media) then bool_decide (is_Some (mMediaCursor k))
  else match mStreams k l with Some s => streamPending s | None => false end.

Definition inFlightCount (k : ReliableLink) : Z :=
  fold_left (fun n l => n + match mStreams k l with
    | Some s => SeqBuf.mSize (inFlight s) | None => 0 end) StreamLanes 0.
End Link.
