(* ===== verification/LinkStreams.v ===== *)
(** * The streams of a link

    What the operations of [ReliableLink.v] do to the streams, as far as the messages are
    concerned: the send window, the reorder buffer and the message being put together.
    Loss detection and congestion control only touch members that [content] forgets, so
    that their part is one relation, [quiet]. *)
From S2P Require Import Prelude Double Constants PacketFlags PacketHeader AckRanges.
From S2P Require Import SequenceBuffer RttEstimator MessageAssembler MediaAssembler ReliableLink.

Import Budget Link.

(** ** Views *)

(** An entry without what transmitting it changes: as [fragmentAt] made it. *)
Definition content (e : InFlight) : InFlight :=
  e <| transmissions := 0 |> <| isLost := false |> <| sentAt := 0 |> <| transmission := 0 |>.

Definition send_map (s : Stream) : gmap Z InFlight := content <$> SeqBuf.to_map (inFlight s).
Definition recv_map (s : Stream) : gmap Z BufferedData := SeqBuf.to_map (reorder s).

(** The send side is the same up to transmissions, the receive side is the same. *)
Record send_same (s s' : Stream) : Prop := {
  ss_cursor : cursor s' = cursor s;
  ss_next : nextSendSeq s' = nextSendSeq s;
  ss_base : sendBase s' = sendBase s;
  ss_map : send_map s' = send_map s;
  ss_buffer : SeqBuf.buffer_ok (inFlight s) -> SeqBuf.buffer_ok (inFlight s');
  ss_capacity : SeqBuf.capacity (inFlight s') = SeqBuf.capacity (inFlight s);
}.
Record recv_same (s s' : Stream) : Prop := {
  rs_reorder : reorder s' = reorder s;
  rs_expected : nextExpected s' = nextExpected s;
  rs_paused : budgetPaused s' = budgetPaused s;
  rs_refused : refusedLength s' = refusedLength s;
  rs_assembler : assembler s' = assembler s;
}.

#[global] Instance send_same_preorder : PreOrder send_same.
Proof. split; [done|]. intros s1 s2 s3 [] []. split; try congruence. auto. Qed.
#[global] Instance recv_same_preorder : PreOrder recv_same.
Proof. split; [done|]. intros s1 s2 s3 [] []. split; congruence. Qed.

Definition stream_same (s s' : Stream) : Prop := send_same s s' /\ recv_same s s'.
#[global] Instance stream_same_preorder : PreOrder stream_same.
Proof. split; [done|]. intros s1 s2 s3 [] []. split; by etrans. Qed.

Definition opt_rel {A} (R : A -> A -> Prop) (o o' : option A) : Prop :=
  match o, o' with Some x, Some y => R x y | None, None => True | _, _ => False end.

(** The streams changed as [R] says, and nothing else that matters to the messages. *)
Record link_rel (R : Lane -> Stream -> Stream -> Prop) (k k' : ReliableLink) : Prop := {
  q_streams : forall l, opt_rel (R l) (mStreams k l) (mStreams k' l);
  q_delivered : mDelivered k' = mDelivered k;
  q_failed : mFailed k' = mFailed k;
  q_local : mLocalStreamID k' = mLocalStreamID k;
  q_remote : mRemoteStreamID k' = mRemoteStreamID k;
  q_budget : mBudget k' = mBudget k;
  q_acks : mPendingAcks k' = mPendingAcks k;
  q_timings : mTimings k' = mTimings k;
  q_media : mMediaReceived k' = mMediaReceived k;
}.
Arguments q_streams {R}. Arguments q_delivered {R}. Arguments q_failed {R}. Arguments q_local {R}.
Arguments q_remote {R}. Arguments q_budget {R}. Arguments q_acks {R}. Arguments q_timings {R}. Arguments q_media {R}.

Definition quiet : ReliableLink -> ReliableLink -> Prop := link_rel (fun _ => stream_same).

Lemma opt_rel_refl {A} (R : A -> A -> Prop) `{!Reflexive R} o : opt_rel R o o.
Proof. destruct o; simpl; [reflexivity|done]. Qed.
Lemma opt_rel_trans {A} (R : A -> A -> Prop) `{!Transitive R} o1 o2 o3 :
  opt_rel R o1 o2 -> opt_rel R o2 o3 -> opt_rel R o1 o3.
Proof. destruct o1, o2, o3; simpl; try done. by etrans. Qed.

#[global] Instance quiet_preorder : PreOrder quiet.
Proof.
  split.
  - intros k. split; try done. intros l. by apply opt_rel_refl, _.
  - intros k1 k2 k3 [] []. split; try congruence. intros l. by eapply opt_rel_trans; [apply _|..].
Qed.

Lemma quiet_same_streams k k' :
  mStreams k' = mStreams k -> mDelivered k' = mDelivered k -> mFailed k' = mFailed k ->
  mLocalStreamID k' = mLocalStreamID k -> mRemoteStreamID k' = mRemoteStreamID k ->
  mBudget k' = mBudget k -> mPendingAcks k' = mPendingAcks k -> mTimings k' = mTimings k ->
  mMediaReceived k' = mMediaReceived k -> quiet k k'.
Proof. intros E. intros. split; try done. intros l. rewrite E. by apply opt_rel_refl, _. Qed.

(** Replacing a stream by one that is the same. *)
Lemma quiet_setStream k l s s' :
  mStreams k l = Some s -> stream_same s s' -> quiet k (setStream l s' k).
Proof.
  intros E H. split; try done. intros j. simpl. destruct (decide (j = l)) as [->|].
  - by rewrite E.
  - by apply opt_rel_refl, _.
Qed.

Lemma setStream_lookup l s k j :
  mStreams (setStream l s k) j = if decide (j = l) then Some s else mStreams k j.
Proof. done. Qed.

(** ** The quiet operations *)
Lemma bump_quiet field `{!Update field} k : quiet k (bump field k).
Proof. by apply quiet_same_streams. Qed.
Lemma bumpBy_quiet field `{!Update field} n k : quiet k (bumpBy field n k).
Proof. by apply quiet_same_streams. Qed.

Lemma updateProgressClock_quiet now p k : quiet k (updateProgressClock now p k).
Proof. unfold updateProgressClock. cbn zeta. repeat case_match; by apply quiet_same_streams. Qed.

Lemma setPeerPaused_quiet l p now k : quiet k (setPeerPaused l p now k).
Proof.
  unfold setPeerPaused. destruct (mStreams k l) as [s|] eqn:E; [|done].
  destruct (eqb _ _); [done|]. etrans; [|apply updateProgressClock_quiet].
  apply (quiet_setStream _ _ s); [done|]. by destruct p.
Qed.

Lemma modify_same s sq f w lst :
  (forall e, content (f e) = content e) -> SeqBuf.buffer_ok (inFlight s) ->
  stream_same s (s <| inFlight ::= fun b => SeqBuf.modify b sq f |> <| onTheWire := w |> <| lost := lst |>).
Proof.
  intros Hf Hb. split; [|done]. split; try done; cbn.
  - unfold send_map. cbn. rewrite SeqBuf.modify_map by done. apply map_eq. intros j.
    rewrite !lookup_fmap, lookup_alter. case_decide as E; [subst j|done].
    destruct (SeqBuf.to_map (inFlight s) !! sq); simpl; [by rewrite Hf|done].
  - intros _. by apply SeqBuf.modify_ok.
  - apply SeqBuf.modify_capacity.
Qed.

Definition buffers_ok (k : ReliableLink) : Prop :=
  forall l s, mStreams k l = Some s -> SeqBuf.buffer_ok (inFlight s) /\ SeqBuf.buffer_ok (reorder s).

Lemma quiet_buffers k k' : quiet k k' -> buffers_ok k -> buffers_ok k'.
Proof.
  intros Hq Hb l s' E. pose proof (q_streams _ _ Hq l) as H. rewrite E in H.
  destruct (mStreams k l) as [s|] eqn:Es; [|done]. destruct (Hb l s Es) as [? ?].
  destruct H as [[] []]. split; [auto|congruence].
Qed.

Lemma markLost_quiet r e t k : buffers_ok k -> quiet k (markLost r e t k).
Proof.
  intros Hb. unfold markLost. destruct (mStreams k (srLane r)) as [s|] eqn:E; [|done].
  cbn zeta. destruct (Hb _ _ E) as [Hs _].
  set (s' := s <| inFlight ::= _ |> <| onTheWire ::= _ |> <| lost ::= _ |>).
  assert (Hss : stream_same s s') by (by apply modify_same).
  assert (H1 : quiet k (setStream (srLane r) s' k)) by by apply (quiet_setStream _ _ s).
  destruct t; cbn [negb].
  - destruct (_ || _); [done|]. etrans; [exact H1|]. by apply quiet_same_streams.
  - destruct (_ || _); (etrans; [exact H1|]); by apply quiet_same_streams.
Qed.

Lemma expire_quiet keep t work q : forall found k,
  (forall k, quiet k (work k)) -> buffers_ok k -> quiet k (expire keep t work q found k).2.
Proof.
  induction q as [|r q IH]; intros found k Hw Hb; cbn [expire]; [by apply quiet_same_streams|].
  specialize (Hw k) as Hk. cbn zeta.
  pose proof (quiet_buffers _ _ Hk Hb) as Hb'. destruct (entryOf (work k) r) as [e|].
  - destruct (keep r e (work k)).
    + etrans; [exact Hk|]. by apply quiet_same_streams.
    + pose proof (markLost_quiet r e t (work k) Hb') as Hm.
      etrans; [exact Hk|]. etrans; [exact Hm|]. apply IH; [done|]. by eapply quiet_buffers.
  - etrans; [exact Hk|]. by apply IH.
Qed.

Lemma detectLosses_quiet k : buffers_ok k -> quiet k (detectLosses k).2.
Proof. intros. by apply expire_quiet. Qed.

Lemma probeLane_quiet now k l : quiet k (probeLane now k l).
Proof.
  unfold probeLane. destruct (mStreams k l) as [s|] eqn:E; [|done].
  destruct (probeAt s) as [at_|]; [|done]. destruct (_ && _); [|done].
  cbn zeta. trans (raise mPingDue l k); [by apply quiet_same_streams|].
  by apply (quiet_setStream _ _ s).
Qed.

(** A timer that does not fail the link is quiet. *)
Lemma onTimer_quiet now k :
  buffers_ok k ->
  quiet k (onTimer now k) \/ onTimer now k = fail k.
Proof.
  intros Hb. unfold onTimer. destruct (mFailed k); [by left|]. destruct (_ || _); [by right|]. left.
  set (k1 := match mLastReceived k with Some _ => _ | None => _ end).
  assert (H1 : quiet k k1).
  { unfold k1. repeat case_match; by apply quiet_same_streams. }
  pose proof (quiet_buffers _ _ H1 Hb) as Hb1.
  set (keep := fun (_ : SentRecord) (e : InFlight) (_ : ReliableLink) => _).
  pose proof (expire_quiet keep true (bump timerWork) (mSent k1) false k1
    (fun k => bump_quiet _ k) Hb1) as H2.
  destruct (expire keep true (bump timerWork) (mSent k1) false k1) as [expired k2]. simpl in H2.
  set (k3 := if expired && _ then _ else _).
  assert (H3 : quiet k2 k3) by (unfold k3; case_match; by apply quiet_same_streams).
  etrans; [exact H1|]. etrans; [exact H2|]. etrans; [exact H3|].
  clearbody k3. clear. generalize StreamLanes as ls. intros ls. revert k3.
  induction ls as [|l ls IH]; intros k3; simpl; [done|].
  etrans; [apply (probeLane_quiet now k3 l)|apply IH].
Qed.

(** ** Sending *)
Lemma dropStale_spec b l :
  match dropStale b l with
  | (Some (sq, e), l') => exists stale, l = stale ++ l' /\ l' !! 0%nat = Some sq /\
      SeqBuf.find b sq = Some e /\ isLost e = true /\
      Forall (fun j => match SeqBuf.find b j with Some e => isLost e = false | None => True end) stale
  | (None, l') => l' = [] /\
      Forall (fun j => match SeqBuf.find b j with Some e => isLost e = false | None => True end) l
  end.
Proof.
  induction l as [|sq l IH]; simpl; [by split|].
  assert (Hskip : match SeqBuf.find b sq with Some e => isLost e = false | None => True end ->
    match dropStale b l with
    | (Some (sq', e), l') => exists stale, sq :: l = stale ++ l' /\ l' !! 0%nat = Some sq' /\
        SeqBuf.find b sq' = Some e /\ isLost e = true /\
        Forall (fun j => match SeqBuf.find b j with Some e => isLost e = false | None => True end) stale
    | (None, l') => l' = [] /\
        Forall (fun j => match SeqBuf.find b j with Some e => isLost e = false | None => True end) (sq :: l)
    end).
  { intros H. destruct (dropStale b l) as [[[sq' e]|] l'].
    - destruct IH as (stale & -> & ? & ? & ? & ?). exists (sq :: stale). split_and!; try done. by constructor.
    - destruct IH as [-> ?]. split; [done|by constructor]. }
  destruct (SeqBuf.find b sq) as [e|] eqn:E; [|by apply Hskip].
  destruct (isLost e) eqn:El; [|by apply Hskip].
  exists []. by split_and!.
Qed.

Lemma nextLost_same s : stream_same s (nextLost s).2.
Proof. unfold nextLost. by destruct (dropStale (inFlight s) (lost s)). Qed.

(** The stale seqs are gone after the first look: a second one finds the same. *)
Lemma nextLost_again s : nextLost (nextLost s).2 = nextLost s.
Proof.
  unfold nextLost. pose proof (dropStale_spec (inFlight s) (lost s)) as H.
  destruct (dropStale (inFlight s) (lost s)) as [[[sq e]|] l'] eqn:E; simpl.
  - destruct H as (stale & _ & Hh & Hf & Hl & _). destruct l' as [|x l']; simplify_eq/=.
    rewrite Hf, Hl. by destruct s.
  - destruct H as [-> _]. by destruct s.
Qed.

Lemma nextLost_cursor s c :
  nextLost s = (None, s) -> nextLost (s <| cursor := c |>) = (None, s <| cursor := c |>).
Proof.
  unfold nextLost. simpl. destruct (dropStale (inFlight s) (lost s)) as [r lst]. intros E.
  injection E as -> E. assert (lst = lost s) as -> by (rewrite <- E; done). by destruct s.
Qed.

(** The send window of a stream. *)
Record window_ok (l : Lane) (s : Stream) : Prop := {
  wo_buffer : SeqBuf.buffer_ok (inFlight s);
  wo_capacity : SeqBuf.capacity (inFlight s) = windowOf l;
  wo_base : 1 <= sendBase s <= nextSendSeq s;
  wo_limit : nextSendSeq s <= 2 ^ 63;
  wo_size : nextSendSeq s - sendBase s <= windowOf l;
  wo_range : forall sq, is_Some (send_map s !! sq) -> sendBase s <= sq < nextSendSeq s;
  wo_tight : sendBase s = nextSendSeq s \/ is_Some (send_map s !! sendBase s);
}.

Lemma window_same l s s' : send_same s s' -> window_ok l s -> window_ok l s'.
Proof.
  intros [Ec En Eb Em Hb Hc] []. split; rewrite ?En, ?Eb, ?Em; try done; [by apply Hb|congruence].
Qed.

Lemma send_map_lookup s sq :
  SeqBuf.buffer_ok (inFlight s) -> send_map s !! sq = content <$> SeqBuf.find (inFlight s) sq.
Proof. intros. unfold send_map. by rewrite lookup_fmap, SeqBuf.find_map. Qed.

Lemma transmit_effect l s sq e now k :
  SeqBuf.buffer_ok (inFlight s) -> content <$> SeqBuf.find (inFlight s) sq = Some (content e) ->
  mStreams k l <> None ->
  exists s', stream_same s s' /\ quiet (setStream l s k) (transmit l s sq e now k) /\
    mStreams (transmit l s sq e now k) l = Some s'.
Proof.
  intros Hb Hf Hk. unfold transmit. cbn zeta.
  set (k1 := if transmissions e =? 0 then _ else _).
  set (k2 := k1 <| mTransmissions ::= _ |>).
  set (e' := e <| isLost := _ |> <| sentAt := _ |> <| transmission := _ |> <| transmissions ::= _ |>).
  set (s' := s <| inFlight ::= _ |> <| onTheWire ::= _ |>).
  set (k3 := if (_ =? 1) && _ then _ else _).
  assert (H3 : quiet k k3).
  { trans k1; [unfold k1; case_match; apply bump_quiet|]. trans k2; [by apply quiet_same_streams|].
    unfold k3. case_match; [apply bumpBy_quiet|done]. }
  assert (Hss : stream_same s s').
  { split; [|done]. split; try done.
    - unfold send_map. cbn. rewrite SeqBuf.modify_map by done. apply map_eq. intros j.
      rewrite !lookup_fmap, lookup_alter. case_decide as E; [subst j|done].
      rewrite <- SeqBuf.find_map by done. rewrite Hf. by destruct (SeqBuf.find (inFlight s) sq).
    - intros _. by apply SeqBuf.modify_ok.
    - apply SeqBuf.modify_capacity. }
  exists s'. split; [done|]. split.
  - etrans; [|apply updateProgressClock_quiet]. trans (setStream l s' k3); [|by apply quiet_same_streams].
    destruct H3. split; try done. intros j. simpl. case_decide; [done|apply q_streams0].
  - unfold updateProgressClock. cbn zeta. repeat case_match; simpl; by rewrite decide_True.
Qed.

(** The datagram [offer] makes of a fragment. *)
Definition datagramOf (h : PacketHeader) (e : InFlight) : OutgoingDatagram :=
  (makeDatagram h) <| dgMessage := Some (ifMessage e) |> <| dgOffset := ifOffset e |>
                   <| dgLength := ifLength e |>.

(** What the link offers on a lane: a retransmission first, or the next fragment of the
    message in progress if the window has room for it. *)
Definition peeked (l : Lane) (k : ReliableLink) (d : OutgoingDatagram) : Prop :=
  exists s, mStreams k l = Some s /\ nextLost s = ((nextLost s).1, s) /\
    match (nextLost s).1 with
    | Some (sq, e) => d = datagramOf (headerOf k l sq e) e
    | None => exists c, cursor s = Some c /\ nextSendSeq s - sendBase s < windowOf l /\
                d = datagramOf (headerOf k l (nextSendSeq s) (fragmentAt c)) (fragmentAt c)
    end.

(** A message was taken from the source. *)
Definition took (l : Lane) (m : OutboundMessage) (k k' : ReliableLink) : Prop :=
  let s := default (newStream (windowOf l)) (mStreams k l) in
  cursor s = None /\ quiet (setStream l (s <| cursor := Some (cursorFor m) |>) k) k'.

Definition windows_ok (k : ReliableLink) : Prop :=
  forall l s, mStreams k l = Some s -> l <> Media /\ window_ok l s.

Lemma offer_quiet h e k : quiet k (offer h e k).2.
Proof. by apply quiet_same_streams. Qed.

Lemma newStream_window l : l <> Media -> window_ok l (newStream (windowOf l)).
Proof.
  intros Hl. assert (Hw : exists n, 0 <= n < 64 /\ windowOf l = 2 ^ n).
  { destruct l; [by exists 5|by exists 8|by exists 8|done]. }
  destruct Hw as (n & Hn & E).
  assert (Em : send_map (newStream (windowOf l)) = ∅).
  { unfold send_map. simpl. by rewrite SeqBuf.newBuffer_map, fmap_empty. }
  split; rewrite ?Em; simpl; try done.
  - rewrite E. by apply SeqBuf.newBuffer_ok.
  - unfold SeqBuf.capacity. simpl. rewrite zlen_replicate by (rewrite E; lia). done.
  - rewrite E. lia.
  - intros sq [x Hx]. by rewrite lookup_empty in Hx.
  - by left.
Qed.

(** [peek] from [peekNext] on: there is nothing to retransmit and the window has room. *)
Lemma peekNext_spec {S} `{!MessageSource S} l k (src : S) :
  (forall s, mStreams k l = Some s -> nextLost s = (None, s) /\ nextSendSeq s - sendBase s < windowOf l) ->
  match peekNext l k src with
  | (None, k', src') => k' = k /\ next src l = (None, src')
  | (Some d, k', src') => peeked l k' d /\
      (src' = src /\ quiet k k' \/ exists m, next src l = (Some m, src') /\ took l m k k')
  end.
Proof.
  intros Hs. unfold peekNext.
  destruct (s ← mStreams k l; c ← cursor s; Some (s, c)) as [[s c]|] eqn:E.
  - destruct (mStreams k l) as [s'|] eqn:Es; simplify_eq/=.
    destruct (cursor s') as [c'|] eqn:Ec; simplify_eq/=. destruct (Hs s eq_refl) as [Hn Hw].
    split; [|by left; split; [|apply (offer_quiet (headerOf k l (nextSendSeq s) (fragmentAt c)) (fragmentAt c))]].
    exists s. rewrite Hn. simpl. split_and!; try done. by exists c.
  - destruct (next src l) as [[m|] src'] eqn:En; [|done].
    set (s0 := default (newStream (windowOf l)) (mStreams k l)).
    assert (Hs0 : cursor s0 = None /\ nextLost s0 = (None, s0) /\ nextSendSeq s0 - sendBase s0 < windowOf l).
    { unfold s0. destruct (mStreams k l) as [s|]; simpl in *.
      - destruct (Hs s eq_refl). by destruct (cursor s).
      - split_and!; try done. by destruct l. }
    destruct Hs0 as (Hc0 & Hn0 & Hw0).
    assert (Est : exists k0, streamFor l k = (s0, k0) /\ quiet (setStream l s0 k) (setStream l s0 k0)).
    { unfold streamFor, s0. destruct (mStreams k l) as [s|] eqn:Es; simpl.
      - by exists k.
      - eexists. split; [done|]. split; try done. intros j. simpl. case_decide; [done|by apply opt_rel_refl, _]. }
    destruct Est as (k0 & -> & Hq0). cbn [fst snd]. unfold offer. cbn [fst snd].
    set (s1 := s0 <| cursor := Some (cursorFor m) |>).
    assert (Hn1 : nextLost s1 = (None, s1)) by by apply nextLost_cursor.
    split.
    + exists s1. rewrite Hn1. cbn. rewrite decide_True by done. split_and!; try done.
      exists (cursorFor m). split_and!; done.
    + right. exists m. split; [done|]. split; [done|]. fold s0 s1.
      trans (setStream l s1 k0); [|by apply quiet_same_streams].
      destruct Hq0. split; try done. intros j. specialize (q_streams0 j). simpl in *. by case_decide.
Qed.

Lemma peek_spec {S} `{!MessageSource S} l k (src : S) :
  l <> Media -> windows_ok k ->
  match peek l k src with
  | (None, k', src') => quiet k k' /\ (src' = src \/ next src l = (None, src'))
  | (Some d, k', src') => mFailed k = false /\ peeked l k' d /\
      (src' = src /\ quiet k k' \/ exists m, next src l = (Some m, src') /\ took l m k k')
  end.
Proof.
  intros Hl Hw. unfold peek. destruct (mFailed k) eqn:Ef; [by split; [|left]|].
  rewrite decide_False by done. destruct (mStreams k l) as [s|] eqn:Es.
  2:{ destruct (negb _); [by split; [|left]|].
      pose proof (peekNext_spec l k src) as H. rewrite Es in H.
      destruct (peekNext l k src) as [[[d|] k'] src'].
      - by destruct H.
      - destruct H as [-> ?]; [done|]. split; [done|by right]. }
  destruct (Hw l s Es) as [_ Hws]. pose proof (nextLost_same s) as Hss. pose proof (nextLost_again s) as Hag.
  destruct (nextLost s) as [r s1] eqn:En. simpl in Hss, Hag.
  assert (H1 : quiet k (setStream l s1 k)) by by apply (quiet_setStream _ _ s).
  destruct (_ && _) eqn:E1; [by split; [|left]|]. destruct (peerPaused s1); [by split; [|left]|].
  destruct (negb _); [by split; [|left]|].
  destruct r as [[sq e]|].
  - cbn. split; [done|]. split.
    + exists s1. cbn. rewrite decide_True by done. rewrite Hag. by split_and!.
    + left. split; [done|]. etrans; [exact H1|]. by apply quiet_same_streams.
  - assert (Hroom : nextSendSeq s1 - sendBase s1 < windowOf l).
    { destruct (window_same _ _ _ (proj1 Hss) Hws) as [_ Hcap Hb Hlim Hsz _ _]. simpl in E1.
      bool_prop. rewrite Hcap in E1. rewrite wrap_small in E1; [lia|]. unfold is_uint. lia. }
    pose proof (peekNext_spec l (setStream l s1 k) src) as H.
    destruct (peekNext l (setStream l s1 k) src) as [[[d|] k'] src'].
    + destruct H as [Hp H].
      { intros s2. simpl. rewrite decide_True by done. intros. by simplify_eq. }
      split; [done|]. split; [done|]. destruct H as [[-> ?]|(m & Em & Hc & Hq)].
      * left. split; [done|]. by etrans.
      * right. exists m. split; [done|]. unfold took. rewrite Es. simpl in *.
        rewrite decide_True in Hc, Hq by done. simpl in *. split.
        -- by rewrite <- (ss_cursor _ _ (proj1 Hss)).
        -- etrans; [|exact Hq]. split; try done. intros j. simpl. case_decide; [|by apply opt_rel_refl, _].
           destruct Hss as [[] []]. split; split; try done.
    + destruct H as [-> ?]; [|split; [done|by right]].
      intros s2. simpl. rewrite decide_True by done. intros. by simplify_eq.
Qed.

(** The stream after the next fragment of [c] went out. *)
Definition sentStream (s : Stream) (c : FragmentCursor) : Stream :=
  s <| nextSendSeq ::= fun n => u64 (n + 1) |>
    <| inFlight ::= fun b => SeqBuf.insert b (nextSendSeq s) (fragmentAt c) |>
    <| cursor := advanceCursor c |>.

Lemma fragmentAt_content c : content (fragmentAt c) = fragmentAt c.
Proof. done. Qed.

Lemma sentStream_map l s c :
  window_ok l s -> nextSendSeq s - sendBase s < windowOf l ->
  send_map (sentStream s c) = <[nextSendSeq s := fragmentAt c]> (send_map s).
Proof.
  intros Hw Hroom. unfold send_map.
  change (inFlight (sentStream s c)) with (SeqBuf.insert (inFlight s) (nextSendSeq s) (fragmentAt c)).
  rewrite SeqBuf.insert_map_window, fmap_insert; [done|apply Hw|].
  intros j Hj. pose proof (wo_range l s Hw j) as Hr. unfold send_map in Hr.
  rewrite lookup_fmap, fmap_is_Some in Hr. specialize (Hr Hj).
  pose proof (wo_capacity l s Hw) as Hc. unfold SeqBuf.capacity in Hc. rewrite Hc. lia.
Qed.

Lemma sentStream_window l s c :
  window_ok l s -> nextSendSeq s - sendBase s < windowOf l -> nextSendSeq s < 2 ^ 63 ->
  window_ok l (sentStream s c) /\ nextSendSeq (sentStream s c) = nextSendSeq s + 1.
Proof.
  intros Hw Hroom Hlim. pose proof (sentStream_map l s c Hw Hroom) as Em.
  destruct Hw as [Hb Hc Hbase _ Hsz Hr Ht].
  assert (En : nextSendSeq (sentStream s c) = nextSendSeq s + 1).
  { simpl. apply wrap_small. unfold is_uint. lia. }
  split; [|done]. split; rewrite ?Em, ?En.
  - by apply SeqBuf.insert_ok.
  - unfold SeqBuf.capacity.
    change (inFlight (sentStream s c)) with (SeqBuf.insert (inFlight s) (nextSendSeq s) (fragmentAt c)).
    by rewrite SeqBuf.insert_capacity.
  - simpl. lia.
  - lia.
  - simpl. lia.
  - intros sq. rewrite lookup_insert_is_Some. simpl. intros [<-|[_ H]]; [lia|].
    specialize (Hr sq H). lia.
  - right. simpl. rewrite lookup_insert_is_Some.
    destruct Ht as [->|?]; [by left|]. destruct (decide (nextSendSeq s = sendBase s)); [by left|by right].
Qed.

(** [commit] after [peek]. *)
Lemma commit_spec l now k d :
  l <> Media -> windows_ok k -> peeked l k d ->
  exists s, mStreams k l = Some s /\
    match (nextLost s).1 with
    | Some (sq, e) => d = datagramOf (headerOf k l sq e) e /\
        send_map s !! sq = Some (content e) /\ quiet k (commit l now k)
    | None => exists c, cursor s = Some c /\ nextSendSeq s - sendBase s < windowOf l /\
        d = datagramOf (headerOf k l (nextSendSeq s) (fragmentAt c)) (fragmentAt c) /\
        quiet (setStream l (sentStream s c) k) (commit l now k)
    end.
Proof.
  intros Hl Hw (s & Es & Hn & Hd). exists s. split; [done|]. destruct (Hw l s Es) as [_ Hws].
  unfold commit. rewrite decide_False, Es by done. rewrite Hn.
  destruct (nextLost s).1 as [[sq e]|] eqn:E1; cbn [fst snd].
  - pose proof (dropStale_spec (inFlight s) (lost s)) as Hds.
    assert (Hf : SeqBuf.find (inFlight s) sq = Some e).
    { unfold nextLost in E1. destruct (dropStale (inFlight s) (lost s)) as [[[sq' e']|] l']; simplify_eq/=.
      by destruct Hds as (_ & _ & _ & Hf & _). }
    split; [done|]. split; [by rewrite send_map_lookup, Hf by apply Hws|].
    set (s1 := s <| lost ::= tail |>).
    destruct (transmit_effect l s1 sq e now k) as (s' & Hss & Hq & _).
    + apply Hws.
    + simpl. by rewrite Hf.
    + by rewrite Es.
    + etrans; [|exact Hq]. by apply (quiet_setStream _ _ s).
  - destruct Hd as (c & Hc & Hroom & ->). rewrite Hc. exists c. split_and!; try done.
    destruct (transmit_effect l (sentStream s c) (nextSendSeq s) (fragmentAt c) now k) as (s' & Hss & Hq & _).
    + simpl. apply SeqBuf.insert_ok, Hws.
    + rewrite <- send_map_lookup by (simpl; apply SeqBuf.insert_ok, Hws).
      by rewrite (sentStream_map l), lookup_insert_eq by done.
    + by rewrite Es.
    + exact Hq.
Qed.

Lemma quiet_windows k k' : quiet k k' -> windows_ok k -> windows_ok k'.
Proof.
  intros Hq Hw l s' E. pose proof (q_streams _ _ Hq l) as H. rewrite E in H.
  destruct (mStreams k l) as [s|] eqn:Es; [|done]. destruct (Hw l s Es) as [? ?].
  split; [done|]. by eapply window_same; [apply H|].
Qed.

Lemma setStream_windows k l s : l <> Media -> window_ok l s -> windows_ok k -> windows_ok (setStream l s k).
Proof. intros Hl Hs Hw j t. simpl. case_decide; [|by apply Hw]. intros. by simplify_eq. Qed.

Lemma took_windows l m k k' : l <> Media -> took l m k k' -> windows_ok k -> windows_ok k'.
Proof.
  intros Hl [_ Hq] Hw. eapply quiet_windows; [exact Hq|]. apply setStream_windows; [done| |done].
  assert (H : window_ok l (default (newStream (windowOf l)) (mStreams k l))).
  { destruct (mStreams k l) as [s|] eqn:E; simpl; [by apply (Hw l s)|by apply newStream_window]. }
  destruct H. by split.
Qed.

Lemma peek_windows {S} `{!MessageSource S} l k (src : S) :
  l <> Media -> windows_ok k -> windows_ok (peek l k src).1.2.
Proof.
  intros Hl Hw. pose proof (peek_spec l k src Hl Hw) as H.
  destruct (peek l k src) as [[[d|] k'] src']; simpl.
  - destruct H as (_ & _ & [[_ Hq]|(m & _ & Ht)]); [by eapply quiet_windows|by eapply took_windows].
  - destruct H as [Hq _]. by eapply quiet_windows.
Qed.

Lemma commit_windows l now k d :
  l <> Media -> windows_ok k -> peeked l k d ->
  (forall s, mStreams k l = Some s -> nextSendSeq s < 2 ^ 63) -> windows_ok (commit l now k).
Proof.
  intros Hl Hw Hp Hlim. destruct (commit_spec l now k d Hl Hw Hp) as (s & Es & H).
  destruct (nextLost s).1 as [[sq e]|].
  - destruct H as (_ & _ & Hq). by eapply quiet_windows.
  - destruct H as (c & _ & Hroom & _ & Hq). eapply quiet_windows; [exact Hq|].
    apply setStream_windows; [done| |done].
    apply sentStream_window; [by apply (Hw l s)|done|by apply Hlim].
Qed.

Lemma peekMedia_quiet {S} `{!MessageSource S} k (src : S) : quiet k (peekMedia k src).1.2.
Proof.
  unfold peekMedia. destruct (mMediaCursor k); [by apply quiet_same_streams|].
  destruct (next src Media) as [[m|] src']; [by apply quiet_same_streams|done].
Qed.

Lemma commitMedia_quiet k : quiet k (commitMedia k).
Proof. unfold commitMedia. destruct (mMediaCursor k); [by apply quiet_same_streams|done]. Qed.

(** ** Acknowledgements

    [released A s s']: the entries of [A] left the window, and only those. *)
Record released (A : Z -> Prop) (s s' : Stream) : Prop := {
  re_cursor : cursor s' = cursor s;
  re_next : nextSendSeq s' = nextSendSeq s;
  re_base : sendBase s' = sendBase s;
  re_sub : send_map s' ⊆ send_map s;
  re_gone : forall sq, A sq -> send_map s' !! sq = None;
  re_kept : forall sq, ~ A sq -> send_map s' !! sq = send_map s !! sq;
  re_buffer : SeqBuf.buffer_ok (inFlight s) -> SeqBuf.buffer_ok (inFlight s');
  re_capacity : SeqBuf.capacity (inFlight s') = SeqBuf.capacity (inFlight s);
  re_recv : recv_same s s';
}.

Lemma released_trans A B s1 s2 s3 :
  released A s1 s2 -> released B s2 s3 -> released (fun sq => A sq \/ B sq) s1 s3.
Proof.
  intros [] []. split; try congruence.
  - by etrans.
  - intros sq [H|H]; [|auto]. destruct (send_map s3 !! sq) eqn:E; [|done].
    eapply lookup_weaken in E; [|done]. rewrite re_gone0 in E by done. done.
  - intros sq H. rewrite re_kept1, re_kept0; tauto.
  - auto.
  - by etrans.
Qed.

Lemma released_iff A B s s' : (forall sq, A sq <-> B sq) -> released A s s' -> released B s s'.
Proof.
  intros E []. split; try done.
  - intros sq H. by apply re_gone0, E.
  - intros sq H. apply re_kept0. by rewrite E.
Qed.

(** Lane [l] released [A], the others are the same. *)
Definition on_lane (l : Lane) (R : Stream -> Stream -> Prop) (j : Lane) : Stream -> Stream -> Prop :=
  if decide (j = l) then R else stream_same.

Lemma link_rel_trans l (R1 R2 R3 : Stream -> Stream -> Prop) k1 k2 k3 :
  (forall s1 s2 s3, R1 s1 s2 -> R2 s2 s3 -> R3 s1 s3) ->
  link_rel (on_lane l R1) k1 k2 -> link_rel (on_lane l R2) k2 k3 -> link_rel (on_lane l R3) k1 k3.
Proof.
  intros H [] []. split; try congruence. intros j.
  specialize (q_streams0 j). specialize (q_streams1 j). unfold on_lane in *. case_decide.
  - destruct (mStreams k1 j), (mStreams k2 j), (mStreams k3 j); simpl in *; try done. eauto.
  - by eapply opt_rel_trans; [apply _|..].
Qed.

Lemma quiet_on_lane l R k k' :
  (forall s s', stream_same s s' -> R s s') -> quiet k k' -> link_rel (on_lane l R) k k'.
Proof.
  intros H []. split; try done. intros j. specialize (q_streams0 j). unfold on_lane.
  case_decide; [|done]. destruct (mStreams k j), (mStreams k' j); simpl in *; auto.
Qed.

Lemma same_released s s' : stream_same s s' -> released (fun _ => False) s s'.
Proof.
  intros [[] ?]. split; try done.
  - by rewrite ss_map0.
  - intros. by rewrite ss_map0.
Qed.

Lemma releaseSeq_rel l p sq :
  buffers_ok p.2 -> link_rel (on_lane l (released (fun j => j = sq))) p.2 (releaseSeq l p sq).2.
Proof.
  destruct p as [r k]. intros Hb. cbn [snd] in *. unfold releaseSeq.
  assert (Hnone : forall s, mStreams k l = Some s -> send_map s !! sq = None ->
            link_rel (on_lane l (released (fun j => j = sq))) k k).
  { intros s Es Hs. split; try done. intros j. unfold on_lane. case_decide; [subst|by apply opt_rel_refl, _].
    rewrite Es. simpl. split; try done. by intros ? ->. }
  destruct (mStreams k l) as [s|] eqn:Es.
  2:{ cbn [snd]. split; try done. intros j. unfold on_lane. case_decide; [subst; by rewrite Es|by apply opt_rel_refl, _]. }
  destruct (Hb l s Es) as [Hi _]. destruct (SeqBuf.take_spec (inFlight s) sq Hi) as (Ht & Hok & Hm & Hc).
  destruct (SeqBuf.take (inFlight s) sq) as [[e|] b]; simpl in *.
  2:{ apply (Hnone s eq_refl). unfold send_map. by rewrite lookup_fmap, <- Ht. }
  set (s' := if negb (isLost e) then _ else _).
  assert (Hs' : released (fun j => j = sq) s s').
  { assert (Hif : inFlight s' = b) by (unfold s'; by destruct (isLost e)).
    assert (Em : send_map s' = delete sq (send_map s)).
    { unfold send_map. by rewrite Hif, Hm, fmap_delete. }
    split; rewrite ?Em, ?Hif; try (unfold s'; by destruct (isLost e)).
    - apply delete_subseteq.
    - intros j ->. by rewrite lookup_delete_eq.
    - intros j Hj. by rewrite lookup_delete_ne. }
  clearbody s'. split; try done. intros j. simpl. unfold on_lane.
  case_decide; [subst; by rewrite Es|by apply opt_rel_refl, _].
Qed.

Lemma link_rel_buffers l A k k' :
  link_rel (on_lane l (released A)) k k' -> buffers_ok k -> buffers_ok k'.
Proof.
  intros Hq Hb j s' E. pose proof (q_streams _ _ Hq j) as H. rewrite E in H.
  destruct (mStreams k j) as [s|] eqn:Es; [|done]. destruct (Hb j s Es) as [? ?].
  unfold on_lane in H. simpl in H. case_decide.
  - destruct H as [? ? ? ? ? ? ? ? []]. split; [auto|congruence].
  - destruct H as [[] []]. split; [auto|congruence].
Qed.

Lemma releaseList_rel l sqs : forall p,
  buffers_ok p.2 ->
  link_rel (on_lane l (released (fun j => j ∈ sqs))) p.2 (fold_left (releaseSeq l) sqs p).2.
Proof.
  induction sqs as [|sq sqs IH]; intros p Hb; simpl.
  - apply quiet_on_lane; [|done]. intros s s' H. eapply released_iff; [|by apply same_released].
    intros j. by rewrite elem_of_nil.
  - pose proof (releaseSeq_rel l p sq Hb) as H1.
    eapply link_rel_trans; [|exact H1|apply IH; by eapply link_rel_buffers].
    intros s1 s2 s3 Ha Hb'. eapply released_iff; [|by eapply released_trans].
    intros j. simpl. by rewrite elem_of_cons.
Qed.

Lemma releaseRange_rel l lo hi p :
  buffers_ok p.2 ->
  link_rel (on_lane l (released (fun j => lo <= j <= hi))) p.2 (releaseRange l lo hi p).2.
Proof.
  intros Hb. unfold releaseRange.
  pose proof (releaseList_rel l (seqZ lo (hi - lo + 1)) p Hb) as [].
  split; try done. intros j. specialize (q_streams0 j). unfold on_lane in *. case_decide; [|done].
  destruct (mStreams p.2 j), (mStreams _ j); simpl in *; try done.
  eapply released_iff; [|done]. intros sq. simpl. rewrite elem_of_seqZ. lia.
Qed.

Lemma link_rel_weaken l (R1 R2 : Stream -> Stream -> Prop) k k' :
  (forall s s', mStreams k l = Some s -> R1 s s' -> R2 s s') ->
  link_rel (on_lane l R1) k k' -> link_rel (on_lane l R2) k k'.
Proof.
  intros H []. split; try done. intros j. specialize (q_streams0 j). unfold on_lane in *.
  case_decide; [subst|done]. destruct (mStreams k l) eqn:E, (mStreams k' l); simpl in *; eauto.
Qed.

(** The seqs an Ack names. *)
Definition ack_names (ackedSeq : Z) (rs : list SeqRange) (base lastSent sq : Z) : Prop :=
  base <= sq <= lastSent /\ (sq <= ackedSeq \/ Exists (fun r => first r <= sq <= rangeLast r) rs).

Lemma releaseAcked_rel l a rs base lastSent p :
  buffers_ok p.2 ->
  link_rel (on_lane l (released (ack_names a rs base lastSent))) p.2
    (releaseAcked l a rs base lastSent p).2.
Proof.
  intros Hb. unfold releaseAcked. pose proof (releaseRange_rel l base (Z.min a lastSent) p Hb) as H0.
  assert (Hloop : forall rs p, buffers_ok p.2 ->
    link_rel (on_lane l (released (fun sq => base <= sq <= lastSent /\
        Exists (fun r => first r <= sq <= rangeLast r) rs))) p.2
      (fold_left (fun p r => if lastSent <? first r then p
        else releaseRange l (Z.max (first r) base) (Z.min (rangeLast r) lastSent) p) rs p).2).
  { clear p Hb H0 rs. intros rs. induction rs as [|r rs IH]; intros p Hb; simpl.
    - apply quiet_on_lane; [|done]. intros s s' H. eapply released_iff; [|by apply same_released].
      intros j. simpl. rewrite Exists_nil. tauto.
    - set (p1 := if lastSent <? first r then p else _).
      assert (H1 : link_rel (on_lane l (released (fun sq => base <= sq <= lastSent /\
                     first r <= sq <= rangeLast r))) p.2 p1.2).
      { unfold p1. destruct (Z.ltb_spec lastSent (first r)).
        - apply quiet_on_lane; [|done]. intros s s' H'. eapply released_iff; [|by apply same_released].
          intros j. simpl. lia.
        - eapply link_rel_weaken; [|by apply releaseRange_rel]. intros s s' _ H'.
          eapply released_iff; [|exact H']. intros j. simpl. lia. }
      eapply link_rel_trans; [|exact H1|apply IH; by eapply link_rel_buffers].
      intros s1 s2 s3 Ha Hb'. eapply released_iff; [|by eapply released_trans].
      intros j. simpl. rewrite Exists_cons. tauto. }
  eapply link_rel_trans; [|exact H0|apply Hloop; by eapply link_rel_buffers].
  intros s1 s2 s3 Ha Hb'. eapply released_iff; [|by eapply released_trans].
  intros j. unfold ack_names. simpl. split.
  - intros [?|[? ?]]; [lia|tauto].
  - intros [? [?|?]]; [left; lia|tauto].
Qed.

Lemma advanceBase_spec fuel : forall s,
  SeqBuf.buffer_ok (inFlight s) -> sendBase s <= nextSendSeq s <= 2 ^ 63 -> 0 <= sendBase s ->
  nextSendSeq s - sendBase s <= Z.of_nat fuel ->
  exists b, advanceBase fuel s = s <| sendBase := b |> /\ sendBase s <= b <= nextSendSeq s /\
    (forall sq, sendBase s <= sq < b -> send_map s !! sq = None) /\
    (b = nextSendSeq s \/ is_Some (send_map s !! b)).
Proof.
  induction fuel as [|fuel IH]; intros s Hb Hn H0 Hf; cbn [advanceBase].
  - exists (sendBase s). split; [by destruct s|]. split; [lia|]. split; [intros; lia|]. left. lia.
  - destruct (Z.ltb_spec (sendBase s) (nextSendSeq s)) as [Hlt|]; cbn [andb].
    2:{ exists (sendBase s). split; [by destruct s|]. split; [lia|]. split; [intros; lia|]. left. lia. }
    destruct (SeqBuf.contains (inFlight s) (sendBase s)) eqn:Ec; cbn [negb].
    { exists (sendBase s). split; [by destruct s|]. split; [lia|]. split; [intros; lia|]. right.
      apply SeqBuf.contains_map in Ec; [|done]. unfold send_map. by rewrite lookup_fmap, fmap_is_Some. }
    assert (Hnone : send_map s !! sendBase s = None).
    { destruct (send_map s !! sendBase s) eqn:E; [|done]. unfold send_map in E.
      rewrite lookup_fmap, fmap_Some in E. destruct E as (x & E & _).
      assert (SeqBuf.contains (inFlight s) (sendBase s) = true); [|congruence].
      apply SeqBuf.contains_map; [done|by eexists]. }
    set (s1 := s <| sendBase ::= _ |>).
    assert (Eb : sendBase s1 = sendBase s + 1) by (simpl; apply wrap_small; unfold is_uint; lia).
    destruct (IH s1) as (b & Ea & Hr & Hgone & Ht).
    + done.
    + rewrite Eb. simpl. lia.
    + rewrite Eb. lia.
    + rewrite Eb. simpl. lia.
    + rewrite Eb in *. exists b. split; [rewrite Ea; by destruct s|]. split; [simpl in *; lia|].
      split; [|exact Ht]. intros sq Hsq. destruct (Z.eq_dec sq (sendBase s)) as [->|]; [done|].
      apply Hgone. lia.
Qed.

(** The effect of an Ack on its lane. *)
Record acknowledged (l : Lane) (A : Z -> Prop) (s s' : Stream) : Prop := {
  ak_cursor : cursor s' = cursor s;
  ak_next : nextSendSeq s' = nextSendSeq s;
  ak_sub : send_map s' ⊆ send_map s;
  ak_gone : forall sq, A sq -> send_map s' !! sq = None;
  ak_kept : forall sq, ~ A sq -> send_map s' !! sq = send_map s !! sq;
  ak_window : window_ok l s -> window_ok l s';
  ak_recv : recv_same s s';
}.

Lemma acknowledged_same l A s1 s2 s3 :
  acknowledged l A s1 s2 -> stream_same s2 s3 -> acknowledged l A s1 s3.
Proof.
  intros [] [Hs Hr]. pose proof Hs as []. split; try congruence.
  - rewrite ss_map0. done.
  - intros. rewrite ss_map0. auto.
  - intros. rewrite ss_map0. auto.
  - intros. eapply window_same; [done|auto].
  - by etrans.
Qed.

Lemma acknowledged_after_same l A s1 s2 s3 :
  stream_same s1 s2 -> acknowledged l A s2 s3 -> acknowledged l A s1 s3.
Proof.
  intros [Hs Hr] []. pose proof Hs as []. split; try congruence.
  - by rewrite <- ss_map0.
  - auto.
  - intros. rewrite <- ss_map0. auto.
  - intros. apply ak_window0. by eapply window_same.
  - by etrans.
Qed.

Lemma released_advance l A s s' :
  window_ok l s -> released A s s' ->
  acknowledged l A s (advanceBase (Z.to_nat (nextSendSeq s' - sendBase s')) s').
Proof.
  intros Hw [Ec En Eb Hsub Hg Hk Hbuf Hcap Hr]. destruct Hw as [Wb Wc Wbase Wlim Wsz Wr Wt].
  destruct (advanceBase_spec (Z.to_nat (nextSendSeq s' - sendBase s')) s') as (b & -> & Hrange & Hgone & Ht);
    [auto|lia|lia|lia|].
  split; try done; simpl; try congruence; [|by etrans].
  intros _. split; simpl; rewrite ?En; try (done || lia || congruence).
  - auto.
  - intros sq Hsq. change (send_map (s' <| sendBase := b |>)) with (send_map s') in Hsq.
    assert (Hs : is_Some (send_map s !! sq)).
    { destruct Hsq as [x Hx]. exists x. by eapply lookup_weaken. }
    specialize (Wr sq Hs). split; [|lia]. destruct (Z.le_gt_cases b sq); [done|].
    rewrite Hgone in Hsq by lia. by destruct Hsq.
  - by rewrite En in Ht.
Qed.

Lemma noteAck_quiet l s ack p now k : mStreams k l = Some s -> quiet k (noteAck l s ack p now k).
Proof.
  intros Es. unfold noteAck. destruct (match ackSerial s with Some _ => _ | None => _ end); [|done].
  etrans; [|apply setPeerPaused_quiet]. trans (setStream l (s <| ackSerial := Some (serial ack) |>) k).
  - by apply (quiet_setStream _ _ s).
  - by apply quiet_same_streams.
Qed.

Lemma handleAck_spec l h b now k :
  buffers_ok k -> windows_ok k ->
  match mStreams k l, decodeAck b with
  | Some s, Some (Some ack) =>
    link_rel (on_lane l (acknowledged l
      (ack_names (seq h) (ranges ack) (sendBase s) (nextSendSeq s - 1)))) k (handleAck l h b now k)
  | _, _ => handleAck l h b now k = k
  end.
Proof.
  intros Hb Hw. unfold handleAck. destruct (mStreams k l) as [s|] eqn:Es; [|done].
  destruct (decodeAck b) as [[ack|]|]; try done.
  destruct (Hw l s Es) as [_ Hws].
  cbn zeta. pose proof (noteAck_quiet l s ack (isPaused (flags h)) now k Es) as H1.
  set (k1 := noteAck _ _ _ _ _ _) in *.
  clearbody k1. rewrite wrap_small by (unfold is_uint; destruct Hws; lia).
  set (A := ack_names (seq h) (ranges ack) (sendBase s) (nextSendSeq s - 1)).
  pose proof (releaseAcked_rel l (seq h) (ranges ack) (sendBase s) (nextSendSeq s - 1) (noneReleased, k1)
    (quiet_buffers _ _ H1 Hb)) as H2. cbn [snd] in H2.
  destruct (releaseAcked l (seq h) (ranges ack) (sendBase s) (nextSendSeq s - 1) (noneReleased, k1))
    as [r k2]. cbn [snd] in H2. fold A in H2.
  set (k3 := moveWindow l k2).
  assert (H3 : link_rel (on_lane l (acknowledged l A)) k k3).
  { pose proof (q_streams _ _ H2 l) as Hl2. pose proof (q_streams _ _ H1 l) as Hl1.
    rewrite Es in Hl1. simpl in Hl1. destruct (mStreams k1 l) as [s1|] eqn:Es1; [|done].
    unfold on_lane in Hl2. rewrite decide_True in Hl2 by done. simpl in Hl2.
    unfold k3, moveWindow. destruct (mStreams k2 l) as [s2|] eqn:Es2; [|done].
    destruct H1 as [Q1 ? ? ? ? ? ? ? ?], H2 as [Q2 ? ? ? ? ? ? ? ?].
    split; simpl; try congruence. intros j. specialize (Q1 j). specialize (Q2 j). unfold on_lane in *.
    case_decide as Ej.
    - subst j. rewrite Es. simpl. eapply acknowledged_after_same; [exact Hl1|].
      apply released_advance; [|done]. by eapply window_same; [apply Hl1|].
    - by eapply opt_rel_trans; [apply _|..]. }
  clearbody k3. set (k4 := takeSample r now k3).
  assert (H4 : quiet k3 k4) by (unfold k4, takeSample; repeat case_match; by apply quiet_same_streams).
  assert (Hb4 : buffers_ok k4).
  { apply (quiet_buffers k3 k4 H4). intros j s' E'. pose proof (q_streams _ _ H3 j) as H.
    rewrite E' in H. destruct (mStreams k j) as [sj|] eqn:Ej; [|done]. destruct (Hb j sj Ej).
    unfold on_lane in H. simpl in H. case_decide.
    - subst. destruct H as [? ? ? ? ? Hwin []]. split; [|congruence].
      destruct (Hw l sj Ej) as [_ Hwj]. apply (Hwin Hwj).
    - destruct H as [[] []]. split; [auto|congruence]. }
  clearbody k4. pose proof (detectLosses_quiet k4 Hb4) as H5.
  destruct (detectLosses k4) as [losses k5]. cbn [snd] in H5.
  assert (H6 : quiet k3 (updateProgressClock now (0 <? acked r) k5)).
  { etrans; [exact H4|]. etrans; [exact H5|]. apply updateProgressClock_quiet. }
  assert (H7 : forall k7, quiet k3 k7 -> link_rel (on_lane l (acknowledged l A)) k k7).
  { intros k7 H7. eapply link_rel_trans; [|exact H3|eapply (quiet_on_lane l stream_same); [done|exact H7]].
    apply acknowledged_same. }
  apply H7. etrans; [exact H6|]. unfold growWindow. case_match; by apply quiet_same_streams.
Qed.
