(* ===== verification/LinkReceive.v ===== *)
(** * Receiving data on a link

    What [handleData], [drainReorderBuffer], [retryRefused] and [makeAck] of
    [ReliableLink.v] do to a stream: packets are absorbed in the order of their seqs, and
    what is not absorbed stays in the reorder buffer. *)
From S2P Require Import Prelude Double Constants PacketFlags PacketHeader AckRanges.
From S2P Require Import SequenceBuffer RttEstimator MessageAssembler MediaAssembler ReliableLink.
From S2P Require Import LinkStreams.

Import Budget Link.

Abbreviation packet := (PacketHeader * bytes)%type (only parsing).

(** The assembler takes the packets one after another and hands out messages. *)
Inductive absorbed : MessageAssembler -> option AssemblyBudget -> list packet ->
    list AssembledMessage -> MessageAssembler -> option AssemblyBudget -> Prop :=
| absorbed_nil a bud : absorbed a bud [] [] a bud
| absorbed_cons a bud h b m a1 bud1 ps ms a2 bud2 :
    hasRoomFor bud h = true -> accept bud a h b = (m, (bud1, a1)) ->
    absorbed a1 bud1 ps ms a2 bud2 ->
    absorbed a bud ((h, b) :: ps) (option_list m ++ ms) a2 bud2.

Lemma absorbed_app a1 bud1 ps1 ms1 a2 bud2 ps2 ms2 a3 bud3 :
  absorbed a1 bud1 ps1 ms1 a2 bud2 -> absorbed a2 bud2 ps2 ms2 a3 bud3 ->
  absorbed a1 bud1 (ps1 ++ ps2) (ms1 ++ ms2) a3 bud3.
Proof.
  induction 1; intros; simpl; [done|]. rewrite <- app_assoc. econstructor; eauto.
Qed.

Definition deliverOn (l : Lane) (m : AssembledMessage) : DeliveredMessage :=
  {| dmLane := l; dmTag := msgTag m; dmBody := msgBody m |}.

(** The parts of a link that sending works with. *)
Record sends_kept (k k' : ReliableLink) : Prop := {
  sk_sent : mSent k' = mSent k;
  sk_transmissions : mTransmissions k' = mTransmissions k;
  sk_acked : mLargestAcked k' = mLargestAcked k;
  sk_timings : mTimings k' = mTimings k;
  sk_rtt : mRtt k' = mRtt k;
  sk_backoff : mTimeoutsInARow k' = mTimeoutsInARow k;
  sk_stalled : mStalledSince k' = mStalledSince k;
  sk_cwnd : mCongestionWindow k' = mCongestionWindow k;
}.
#[global] Instance sends_kept_preorder : PreOrder sends_kept.
Proof. split; [done|]. intros k1 k2 k3 [] []. split; congruence. Qed.

(** The parts of a link that receiving on a lane leaves alone. *)
Record rest_same (k k' : ReliableLink) : Prop := {
  rest_streams : mStreams k' = mStreams k;
  rest_failed : mFailed k' = mFailed k;
  rest_local : mLocalStreamID k' = mLocalStreamID k;
  rest_remote : mRemoteStreamID k' = mRemoteStreamID k;
  rest_acks : mPendingAcks k' = mPendingAcks k;
  rest_timings : mTimings k' = mTimings k;
  rest_media : mMediaReceived k' = mMediaReceived k;
  rest_sends : sends_kept k k';
}.
#[global] Instance rest_same_preorder : PreOrder rest_same.
Proof. split; [done|]. intros k1 k2 k3 [] []. split; try congruence. by etrans. Qed.

(** The send side of a stream, member by member. *)
Record send_equal (s s' : Stream) : Prop := {
  se_cursor : cursor s' = cursor s;
  se_inFlight : inFlight s' = inFlight s;
  se_lost : lost s' = lost s;
  se_next : nextSendSeq s' = nextSendSeq s;
  se_base : sendBase s' = sendBase s;
  se_wire : onTheWire s' = onTheWire s;
  se_paused : peerPaused s' = peerPaused s;
  se_probe : probeAt s' = probeAt s;
}.
#[global] Instance send_equal_preorder : PreOrder send_equal.
Proof. split; [done|]. intros s1 s2 s3 [] []. split; congruence. Qed.

Lemma send_equal_same s s' : send_equal s s' -> send_same s s'.
Proof. intros []. split; try done; unfold send_map; congruence. Qed.

Record absorbs (l : Lane) (ps : list packet) (s : Stream) (k : ReliableLink)
    (s' : Stream) (k' : ReliableLink) : Prop := {
  ab_send : send_equal s s';
  ab_rest : rest_same k k';
  ab_run : exists ms, absorbed (assembler s) (mBudget k) ps ms (assembler s') (mBudget k') /\
    mDelivered k' = mDelivered k ++ (deliverOn l <$> ms);
}.

Lemma absorbs_nil l s k s' k' :
  send_equal s s' -> rest_same k k' -> assembler s' = assembler s -> mBudget k' = mBudget k ->
  mDelivered k' = mDelivered k -> absorbs l [] s k s' k'.
Proof.
  intros ? ? Ea Eb Ed. split; try done. exists []. rewrite Ea, Eb, Ed, app_nil_r.
  split; [constructor|done].
Qed.

Lemma absorbs_app l ps1 ps2 s1 k1 s2 k2 s3 k3 :
  absorbs l ps1 s1 k1 s2 k2 -> absorbs l ps2 s2 k2 s3 k3 -> absorbs l (ps1 ++ ps2) s1 k1 s3 k3.
Proof.
  intros [? ? (ms1 & H1 & E1)] [? ? (ms2 & H2 & E2)]. split; [by etrans..|].
  exists (ms1 ++ ms2). split; [by eapply absorbed_app|]. by rewrite E2, E1, fmap_app, app_assoc.
Qed.

Lemma absorbs_from l ps s1 s2 k s' k' : send_equal s1 s2 -> assembler s2 = assembler s1 ->
  absorbs l ps s2 k s' k' -> absorbs l ps s1 k s' k'.
Proof. intros He Ha [? ? H]. split; [by etrans|done|]. by rewrite Ha in H. Qed.

(** Receiving leaves everything but the assembler and the marks of a refusal to
    [drainReorderBuffer]. *)
Lemma acceptInOrder_spec l s h b k :
  match acceptInOrder l s h b k with
  | (true, s', k') => absorbs l [(h, b)] s k s' k' /\ reorder s' = reorder s /\
      nextExpected s' = nextExpected s /\ budgetPaused s' = budgetPaused s /\ mAckDue k' = mAckDue k
  | (false, s', k') => k' = k /\ hasRoomFor (mBudget k) h = false /\
      s' = s <| budgetPaused := true |> <| refusedLength := totalLength h |>
  end.
Proof.
  unfold acceptInOrder. destruct (hasRoomFor (mBudget k) h) eqn:Er; cbn [negb]; [|done].
  destruct (accept (mBudget k) (assembler s) h b) as [m [bud asm]] eqn:Ea.
  assert (Habs : absorbed (assembler s) (mBudget k) [(h, b)] (option_list m ++ []) asm bud).
  { econstructor; [done|exact Ea|constructor]. }
  rewrite app_nil_r in Habs.
  destruct m as [m|]; (split; [|done]); (split; [done|done|]); eexists; (split; [exact Habs|]); simpl.
  - done.
  - by rewrite app_nil_r.
Qed.

(** The receive window of a stream; [settled] holds between the operations. *)
Record recv_ok (l : Lane) (s : Stream) : Prop := {
  ro_buffer : SeqBuf.buffer_ok (reorder s);
  ro_capacity : SeqBuf.capacity (reorder s) = windowOf l;
  ro_expected : 1 <= nextExpected s <= 2 ^ 63;
  ro_range : forall sq, is_Some (recv_map s !! sq) ->
    nextExpected s <= sq < nextExpected s + windowOf l /\ sq < 2 ^ 63;
}.
Definition settled (s : Stream) : Prop :=
  is_Some (recv_map s !! nextExpected s) -> budgetPaused s = true.

Lemma windowOf_range l : 32 <= windowOf l <= 256.
Proof. destruct l; done. Qed.

(** What draining does: the packets [ps] that were taken off the buffer, in order. *)
Definition drained (l : Lane) (s : Stream) (k : ReliableLink) (s' : Stream) (k' : ReliableLink) : Prop :=
  exists ps, absorbs l ps s k s' k' /\ recv_ok l s' /\ settled s' /\
    nextExpected s' = nextExpected s + zlen ps /\
    (forall i p, ps !! i = Some p ->
      recv_map s !! (nextExpected s + Z.of_nat i) = Some {| bdHeader := p.1; bdBody := p.2 |}) /\
    (forall sq, recv_map s' !! sq =
      if decide (nextExpected s <= sq < nextExpected s') then None else recv_map s !! sq) /\
    mAckDue k' = mAckDue k /\ (budgetPaused s' = false -> budgetPaused s = false).

Lemma drained_none l s k s' : recv_ok l s' -> settled s' -> send_equal s s' -> assembler s' = assembler s ->
  nextExpected s' = nextExpected s -> recv_map s' = recv_map s -> (budgetPaused s' = false -> budgetPaused s = false) ->
  drained l s k s' k.
Proof.
  intros Hr Hs He Ha En Em Hb. exists []. rewrite zlen_nil, Z.add_0_r. split_and!; try done; [by apply absorbs_nil|].
  intros sq. rewrite decide_False by lia. by rewrite Em.
Qed.

Lemma drained_one l s k s1 k1 s2 s' k' d : recv_map s !! nextExpected s = Some d ->
  absorbs l [(bdHeader d, bdBody d)] s k s1 k1 -> send_equal s1 s2 -> assembler s2 = assembler s1 ->
  nextExpected s2 = nextExpected s + 1 -> recv_map s2 = delete (nextExpected s) (recv_map s) ->
  mAckDue k1 = mAckDue k -> budgetPaused s2 = budgetPaused s ->
  drained l s2 k1 s' k' -> drained l s k s' k'.
Proof.
  intros Ed Habs He Ha En2 Em2 Hdue1 Hb2 (ps & Hps & Hr' & Hset & Hn' & Hin & Hout & Hdue & Hbp).
  exists ((bdHeader d, bdBody d) :: ps). split_and!; try done.
  - change ((bdHeader d, bdBody d) :: ps) with ([(bdHeader d, bdBody d)] ++ ps).
    eapply absorbs_app; [exact Habs|]. by eapply absorbs_from.
  - rewrite Hn', En2, zlen_cons. lia.
  - intros [|i] p Hp; simpl in Hp; simplify_eq/=.
    + rewrite Z.add_0_r, Ed. by destruct d.
    + specialize (Hin i p Hp). rewrite Em2, En2 in Hin.
      rewrite lookup_delete_ne in Hin by lia. by replace (nextExpected s + Z.of_nat (S i)) with
        (nextExpected s + 1 + Z.of_nat i) by lia.
  - intros sq. rewrite Hout, Em2, En2. pose proof (zlen_nonneg ps).
    destruct (decide (sq = nextExpected s)) as [->|Hne].
    + rewrite lookup_delete_eq. rewrite (decide_True (P := nextExpected s <= _ < _)) by lia. by case_decide.
    + rewrite lookup_delete_ne by done. repeat case_decide; done || lia.
  - congruence.
  - intros H. specialize (Hbp H). congruence.
Qed.

(** The packet that was expected is taken out of the buffer. *)
Lemma taken_off l s s1 d : recv_ok l s -> recv_map s !! nextExpected s = Some d ->
  reorder s1 = reorder s -> nextExpected s1 = nextExpected s ->
  let s2 := s1 <| reorder ::= fun r => (SeqBuf.erase r (nextExpected s1)).2 |> <| nextExpected ::= fun n => u64 (n + 1) |> in
  nextExpected s2 = nextExpected s + 1 /\ recv_map s2 = delete (nextExpected s) (recv_map s) /\ recv_ok l s2 /\
  SeqBuf.mSize (reorder s2) = SeqBuf.mSize (reorder s) - 1.
Proof.
  intros Hr Ed Ero Ene s2. destruct (ro_range l s Hr (nextExpected s) ltac:(by rewrite Ed)) as [_ Hlim].
  pose proof (windowOf_range l) as Hwin.
  assert (En2 : nextExpected s2 = nextExpected s + 1).
  { simpl. rewrite Ene. apply wrap_small. unfold is_uint. destruct (ro_expected l s Hr). lia. }
  destruct (SeqBuf.erase_spec (reorder s) (nextExpected s) (ro_buffer l s Hr)) as (_ & Hbuf & Hmap & Hcap).
  assert (Er2 : reorder s2 = (SeqBuf.erase (reorder s) (nextExpected s)).2) by (simpl; by rewrite Ero, Ene).
  assert (Em2 : recv_map s2 = delete (nextExpected s) (recv_map s)) by (unfold recv_map; by rewrite Er2).
  assert (Hr2 : recv_ok l s2).
  { split; rewrite ?En2, ?Em2, ?Er2; try done.
    - unfold SeqBuf.capacity. rewrite Hcap. apply Hr.
    - destruct (ro_expected l s Hr). lia.
    - intros sq Hsq. destruct (decide (sq = nextExpected s)) as [->|Hne].
      { rewrite lookup_delete_eq in Hsq. by destruct Hsq. }
      rewrite lookup_delete_ne in Hsq by done. destruct (ro_range l s Hr sq Hsq). lia. }
  split_and!; [done..|]. rewrite (SeqBuf.size_map _ (ro_buffer _ _ Hr2)), (SeqBuf.size_map _ (ro_buffer _ _ Hr)).
  fold (recv_map s2) (recv_map s). rewrite Em2, map_size_delete_Some by (by rewrite Ed).
  assert (size (recv_map s) <> 0%nat) by (intros E%map_size_empty_iff; by rewrite E, lookup_empty in Ed). lia.
Qed.

(** Draining absorbs the packets of consecutive seqs out of the reorder buffer, until
    there is a gap or a message is refused. *)
Lemma drainLoop_spec fuel : forall l s k,
  recv_ok l s -> SeqBuf.mSize (reorder s) <= Z.of_nat fuel ->
  let '(s', k') := drainLoop fuel l s k in drained l s k s' k'.
Proof.
  induction fuel as [|fuel IH]; intros l s k Hr Hf; cbn [drainLoop].
  { apply drained_none; try done. intros [x Hx]. exfalso. pose proof (SeqBuf.size_map _ (ro_buffer _ _ Hr)) as E.
    fold (recv_map s) in E. assert (E0 : recv_map s = ∅) by (apply map_size_empty_iff; lia).
    by rewrite E0, lookup_empty in Hx. }
  rewrite SeqBuf.find_map by apply Hr. fold (recv_map s).
  destruct (recv_map s !! nextExpected s) as [d|] eqn:Ed.
  2:{ apply drained_none; try done. intros [x Hx]. by rewrite Ed in Hx. }
  pose proof (acceptInOrder_spec l s (bdHeader d) (bdBody d) k) as Ha.
  destruct (acceptInOrder l s (bdHeader d) (bdBody d) k) as [[[] s1] k1]; cbn [negb].
  2:{ destruct Ha as (-> & _ & ->). apply drained_none; try done. destruct Hr. by split. }
  destruct Ha as (Habs & Ero & Ene & Ebp & Eack).
  destruct (taken_off l s s1 d Hr Ed Ero Ene) as (En2 & Em2 & Hr2 & Hsz). cbv zeta in *.
  set (s2 := s1 <| reorder ::= _ |> <| nextExpected ::= _ |>) in *.
  specialize (IH l s2 k1 Hr2 ltac:(lia)). destruct (drainLoop fuel l s2 k1) as [s' k'].
  by apply (drained_one l s k s1 k1 s2 s' k' d).
Qed.

(** ** One packet *)
Definition buffered (p : packet) : BufferedData := {| bdHeader := p.1; bdBody := p.2 |}.

(** [holds_seq s sq]: the packet with that seq has arrived. *)
Definition holds_seq (s : Stream) (sq : Z) : Prop :=
  sq < nextExpected s \/ is_Some (recv_map s !! sq).

(** From [s], [k] to [s'], [k'] the packets [ps] were absorbed, each of them out of the
    reorder buffer or [extra]; nothing that had arrived is forgotten. *)
Record receives (l : Lane) (extra : Z -> packet -> Prop) (ps : list packet) (s : Stream)
    (k : ReliableLink) (s' : Stream) (k' : ReliableLink) : Prop := {
  rc_absorbs : absorbs l ps s k s' k';
  rc_ok : recv_ok l s';
  rc_settled : settled s';
  rc_next : nextExpected s' = nextExpected s + zlen ps;
  rc_in : forall i p, ps !! i = Some p ->
    recv_map s !! (nextExpected s + Z.of_nat i) = Some (buffered p) \/
    extra (nextExpected s + Z.of_nat i) p;
  rc_out : forall sq d, recv_map s' !! sq = Some d ->
    recv_map s !! sq = Some d \/ exists p, d = buffered p /\ extra sq p;
  rc_held : forall sq, holds_seq s sq -> holds_seq s' sq;
}.

Definition nothing : Z -> packet -> Prop := fun _ _ => False.

Lemma receives_refl l extra s k s' k' :
  send_equal s s' -> rest_same k k' -> assembler s' = assembler s -> mBudget k' = mBudget k ->
  mDelivered k' = mDelivered k -> nextExpected s' = nextExpected s -> recv_map s' = recv_map s ->
  recv_ok l s' -> settled s' -> receives l extra [] s k s' k'.
Proof.
  intros ? ? ? ? ? En Em ? ?. split; try done.
  - by apply absorbs_nil.
  - rewrite zlen_nil. lia.
  - intros sq d. rewrite Em. by left.
  - intros sq. unfold holds_seq. by rewrite En, Em.
Qed.

Lemma receives_app l extra ps1 ps2 s1 k1 s2 k2 s3 k3 :
  receives l nothing ps1 s1 k1 s2 k2 -> receives l extra ps2 s2 k2 s3 k3 ->
  receives l extra (ps1 ++ ps2) s1 k1 s3 k3.
Proof.
  intros [A1 _ _ N1 I1 O1 H1] [A2 R2 S2 N2 I2 O2 H2]. split; try done.
  - by eapply absorbs_app.
  - rewrite N2, N1, zlen_app. lia.
  - intros i p [Hi|[Hi Hp]]%lookup_app_Some.
    + destruct (I1 i p Hi) as [?|[]]. by left.
    + assert (E : nextExpected s1 + Z.of_nat i = nextExpected s2 + Z.of_nat (i - length ps1)).
      { rewrite N1. unfold zlen. lia. }
      rewrite E. destruct (I2 _ _ Hp) as [Hd|]; [|by right].
      destruct (O1 _ _ Hd) as [?|(? & _ & [])]. by left.
  - intros sq d Hd. destruct (O2 sq d Hd) as [Hd2|]; [|by right].
    destruct (O1 _ _ Hd2) as [?|(? & _ & [])]. by left.
  - auto.
Qed.

Lemma drain_receives l s k :
  recv_ok l s ->
  let '(s', k') := drainReorderBuffer l s k in exists ps, receives l nothing ps s k s' k'.
Proof.
  intros Hr. unfold drainReorderBuffer.
  pose proof (drainLoop_spec (Z.to_nat (SeqBuf.mSize (reorder s))) l s k Hr ltac:(lia)) as H.
  destruct (drainLoop _ l s k) as [s' k']. destruct H as (ps & Ha & Hr' & Hs & Hn & Hin & Hout & _).
  exists ps. split; try done.
  - intros i p Hp. left. by apply Hin.
  - intros sq d Hd. rewrite Hout in Hd. case_decide; [done|by left].
  - intros sq [Hlt|Hin']; unfold holds_seq.
    + left. rewrite Hn. pose proof (zlen_nonneg ps). lia.
    + destruct (decide (sq < nextExpected s')) as [|Hge]; [by left|right].
      rewrite Hout, decide_False by lia. done.
Qed.

Lemma retryRefused_receives l s k :
  recv_ok l s -> settled s ->
  let '(s', k') := retryRefused l s k in exists ps, receives l nothing ps s k s' k'.
Proof.
  intros Hr Hs. unfold retryRefused. destruct (_ || _).
  { exists []. by apply receives_refl. }
  set (s0 := s <| budgetPaused := false |>).
  assert (Hr0 : recv_ok l s0) by (destruct Hr; by split).
  pose proof (drain_receives l s0 k Hr0) as H.
  destruct (drainReorderBuffer l s0 k) as [s' k']. destruct H as (ps & [Ha R S N I O H]).
  exists ps. split; try done. destruct Ha as [Hse Hre (ms & Hab & Hd)]. split; [|by etrans; [exact Hre|]|by exists ms].
  destruct Hse. by split.
Qed.

Lemma newStream_recv l : l <> Media -> recv_ok l (newStream (windowOf l)) /\ settled (newStream (windowOf l)).
Proof.
  intros Hl. assert (Hw : exists n, 0 <= n < 64 /\ windowOf l = 2 ^ n).
  { destruct l; [by exists 5|by exists 8|by exists 8|done]. }
  destruct Hw as (n & Hn & E).
  assert (Em : recv_map (newStream (windowOf l)) = ∅) by (unfold recv_map; apply SeqBuf.newBuffer_map).
  split; [split|]; rewrite ?Em; simpl; try done.
  - rewrite E. by apply SeqBuf.newBuffer_ok.
  - unfold SeqBuf.capacity. simpl. rewrite zlen_replicate by (rewrite E; lia). done.
  - intros sq [x Hx]. by rewrite lookup_empty in Hx.
  - unfold settled. rewrite Em, lookup_empty. by intros [].
Qed.

(** A packet is put into the reorder buffer. *)
Lemma reorder_insert_receives l h b s k k' :
  recv_ok l s -> settled s -> nextExpected s < seq h < nextExpected s + windowOf l -> seq h < 2 ^ 63 ->
  rest_same k k' -> mBudget k' = mBudget k -> mDelivered k' = mDelivered k ->
  receives l (fun sq p => sq = seq h /\ p = (h, b)) [] s k
    (s <| reorder ::= fun r => SeqBuf.insert r (seq h) {| bdHeader := h; bdBody := b |} |>) k'.
Proof.
  intros Hr Hs Hsq Hlim Hrest Eb Ed.
  set (s' := s <| reorder ::= _ |>).
  assert (Em : recv_map s' = <[seq h := buffered (h, b)]> (recv_map s)).
  { unfold recv_map. change (reorder s') with
      (SeqBuf.insert (reorder s) (seq h) {| bdHeader := h; bdBody := b |}).
    rewrite SeqBuf.insert_map_window; [done|apply Hr|]. intros j Hj.
    destruct (ro_range l s Hr j Hj) as [? _]. pose proof (ro_capacity l s Hr) as Hc.
    unfold SeqBuf.capacity in Hc. rewrite Hc. lia. }
  split; rewrite ?Em; try done.
  - by apply absorbs_nil.
  - split; rewrite ?Em.
    + change (reorder s') with (SeqBuf.insert (reorder s) (seq h) {| bdHeader := h; bdBody := b |}).
      apply SeqBuf.insert_ok, Hr.
    + unfold SeqBuf.capacity. change (reorder s') with
        (SeqBuf.insert (reorder s) (seq h) {| bdHeader := h; bdBody := b |}).
      rewrite SeqBuf.insert_capacity. apply Hr.
    + apply Hr.
    + intros sq. rewrite lookup_insert_is_Some. simpl. intros [<-|[_ H]]; [lia|by apply (ro_range l s Hr)].
  - unfold settled. rewrite Em. change (nextExpected s') with (nextExpected s).
    rewrite lookup_insert_ne by lia. done.
  - rewrite zlen_nil. simpl. lia.
  - intros sq d [[<- <-]|[? ?]]%lookup_insert_Some; [right; by exists (h, b)|by left].
  - intros sq [?|?]; [by left|right]. rewrite Em, lookup_insert_is_Some.
    destruct (decide (seq h = sq)); [by left|by right].
Qed.

(** The packet that was waited for, and what waits behind it. *)
Lemma accept_drain_receives l h b s k s1 k1 :
  recv_ok l s -> recv_map s !! nextExpected s = None -> seq h = nextExpected s -> seq h < 2 ^ 63 ->
  acceptInOrder l s h b k = (true, s1, k1) ->
  let '(s', k') := drainReorderBuffer l (s1 <| nextExpected ::= fun n => u64 (n + 1) |>) k1 in
  exists ps, receives l (fun sq p => sq = seq h /\ p = (h, b)) ps s k s' k'.
Proof.
  intros Hr Hnone Hsq Hlim Ha. pose proof (acceptInOrder_spec l s h b k) as H. rewrite Ha in H.
  destruct H as (Habs & Ero & Ene & Ebp & _). set (s2 := s1 <| nextExpected ::= _ |>).
  pose proof (ro_expected l s Hr) as Hexp. pose proof (windowOf_range l) as Hwin.
  assert (En2 : nextExpected s2 = nextExpected s + 1).
  { simpl. rewrite Ene. apply wrap_small. unfold is_uint. lia. }
  assert (Em2 : recv_map s2 = recv_map s) by (unfold recv_map; simpl; by rewrite Ero).
  assert (Hr2 : recv_ok l s2).
  { split; rewrite ?En2, ?Em2; simpl; rewrite ?Ero; [apply Hr|apply Hr|lia|].
    intros sq Hx. destruct (ro_range l s Hr sq Hx) as [Hrg ?].
    destruct (Z.eq_dec sq (nextExpected s)) as [->|]; [rewrite Hnone in Hx; by destruct Hx|lia]. }
  pose proof (drain_receives l s2 k1 Hr2) as H. destruct (drainReorderBuffer l s2 k1) as [s' k'].
  destruct H as (ps & [A R S N I O H]). exists ((h, b) :: ps). split; try done.
  - change ((h, b) :: ps) with ([(h, b)] ++ ps). eapply absorbs_app; [exact Habs|].
    destruct A as [[] [] ?]. by split.
  - rewrite N, En2, zlen_cons. lia.
  - intros [|i] p Hp; simpl in Hp; simplify_eq/=.
    + right. split; [lia|done].
    + left. destruct (I i p Hp) as [Hd|[]]. rewrite Em2, En2 in Hd.
      by replace (nextExpected s + Z.of_nat (Datatypes.S i)) with (nextExpected s + 1 + Z.of_nat i) by lia.
  - intros sq d Hd. destruct (O sq d Hd) as [Hd2|(? & _ & [])]. left. by rewrite <- Em2.
  - intros sq [Hlt|Hx]; apply H; [left; rewrite En2; lia|right; by rewrite Em2].
Qed.

Definition received (l : Lane) (h : PacketHeader) (b : bytes) (s0 s' : Stream) (k k' : ReliableLink)
    (ps : list packet) : Prop :=
  mStreams k' l = Some s' /\ (forall j, j <> l -> mStreams k' j = mStreams k j) /\
  receives l (fun sq p => sq = seq h /\ p = (h, b)) ps s0 k s' (k' <| mStreams := mStreams k |>).

(** The same but for the streams. *)
Definition elsewhere (k k' : ReliableLink) : Prop := rest_same k (k' <| mStreams := mStreams k |>).

Lemma receives_finish l h b ps s0 k0 s' k1 k k' :
  receives l (fun sq p => sq = seq h /\ p = (h, b)) ps s0 k0 s' k1 ->
  (forall j, j <> l -> mStreams k0 j = mStreams k j) -> elsewhere k k0 ->
  mBudget k0 = mBudget k -> mDelivered k0 = mDelivered k ->
  mStreams k' l = Some s' -> (forall j, j <> l -> mStreams k' j = mStreams k1 j) -> elsewhere k1 k' ->
  mBudget k' = mBudget k1 -> mDelivered k' = mDelivered k1 ->
  received l h b s0 s' k k' ps.
Proof.
  intros [A R S N I O H] E0 [] Eb Ed Es Ej [] Eb' Ed'. destruct A as [Se [] (ms & Hab & Hd)].
  split; [done|]. split.
  { intros j Hj. rewrite Ej, rest_streams2 by done. by apply E0. }
  split; try done. split; [done| |].
  - destruct rest_sends0, rest_sends1, rest_sends2. simpl in *. split; [..|split]; simpl; congruence.
  - exists ms. simpl. rewrite Eb', Ed', <- Eb. split; [done|congruence].
Qed.

Lemma handleData_spec l h b k :
  l <> Media -> (forall s, mStreams k l = Some s -> recv_ok l s /\ settled s) -> seq h < 2 ^ 63 ->
  exists s' ps,
    received l h b (default (newStream (windowOf l)) (mStreams k l)) s' k (handleData l h b k) ps.
Proof.
  intros Hl Hs Hsq. unfold handleData.
  set (s0 := default (newStream (windowOf l)) (mStreams k l)).
  assert (Hs0 : recv_ok l s0 /\ settled s0).
  { unfold s0. destruct (mStreams k l) as [s|]; simpl; [by apply Hs|by apply newStream_recv]. }
  destruct Hs0 as [Hr0 Hset0].
  assert (Est : exists k0, streamFor l k = (s0, k0) /\ (forall j, j <> l -> mStreams k0 j = mStreams k j) /\
    elsewhere k k0 /\ mBudget k0 = mBudget k /\ mDelivered k0 = mDelivered k).
  { unfold streamFor, s0. destruct (mStreams k l) as [s|]; simpl; eexists; split; try done.
    split_and!; try done. intros j Hj. simpl. by rewrite decide_False. }
  destruct Est as (k0 & -> & Ej & E1 & E2 & E3). clearbody s0. cbn [fst snd].
  pose proof (retryRefused_receives l s0 k0 Hr0 Hset0) as Hretry.
  destruct (retryRefused l s0 k0) as [s1 k1]. destruct Hretry as (ps1 & H1).
  pose proof (rc_ok _ _ _ _ _ _ _ H1) as Hr1. pose proof (rc_settled _ _ _ _ _ _ _ H1) as Hset1.
  pose proof (ro_expected l s1 Hr1) as Hexp. pose proof (windowOf_range l) as Hwin.
  rewrite (ro_capacity l s1 Hr1). rewrite (wrap_small 64) by (unfold is_uint; lia).
  set (extra := fun sq p => sq = seq h /\ p = (h, b)).
  assert (Hstop : receives l extra ps1 s0 k0 s1 k1).
  { rewrite <- (app_nil_r ps1). eapply receives_app; [exact H1|]. by apply receives_refl. }
  assert (Hset : forall s' k1 j, j <> l -> mStreams (setStream l s' k1) j = mStreams k1 j)
    by (intros; simpl; by rewrite decide_False).
  assert (Hset' : forall s' k1, mStreams (setStream l s' k1) l = Some s')
    by (intros; simpl; by rewrite decide_True).
  destruct (Z.leb_spec (nextExpected s1 + windowOf l) (seq h)).
  { exists s1, ps1. apply (receives_finish l h b ps1 s0 k0 s1 k1); try done; [apply Hset'|apply Hset]. }
  destruct (_ || _) eqn:Edup.
  { exists s1, ps1. apply (receives_finish l h b ps1 s0 k0 s1 k1); try done; [apply Hset'|apply Hset]. }
  apply orb_false_iff in Edup as [Hge Hnot]. apply Z.ltb_ge in Hge.
  apply SeqBuf.contains_false in Hnot; [|apply Hr1]. fold (recv_map s1) in Hnot.
  set (k2 := raise mAckDue l (setStream l s1 k1)).
  assert (Hmain : forall ps s' k', receives l extra ps s1 k2 s' k' ->
            received l h b s0 s' k (setStream l s' k') (ps1 ++ ps)).
  { intros ps s' k' [[Se [Est ? ? ? ? ? ? []] (ms & Hab & Hd)] ? ? ? ? ? ?].
    apply (receives_finish l h b (ps1 ++ ps) s0 k0 s' (k' <| mStreams := mStreams k1 |>)); try done.
    - eapply receives_app; [exact H1|]. split; try done. split; [done|by split; [..|split]|by exists ms].
    - intros j Hj. rewrite Hset, Est by done. simpl. by rewrite decide_False. }
  destruct (Z.eqb_spec (seq h) (nextExpected s1)) as [Eq|Hne]; cbn [negb].
  2:{ eexists _, (ps1 ++ []). apply Hmain.
      by apply reorder_insert_receives; try (done || lia). }
  destruct (acceptInOrder l s1 h b k2) as [[[] s2] k3] eqn:Ea; cbn [negb].
  - pose proof (accept_drain_receives l h b s1 k2 s2 k3 Hr1) as Hd. rewrite <- Eq in Hd.
    specialize (Hd Hnot eq_refl ltac:(lia) Ea). destruct (drainReorderBuffer l _ k3) as [s' k'].
    destruct Hd as (ps & Hd). exists s', (ps1 ++ ps). by apply Hmain.
  - pose proof (acceptInOrder_spec l s1 h b k2) as H'. rewrite Ea in H'.
    destruct H' as (-> & _ & ->). eexists _, (ps1 ++ []). apply Hmain.
    apply receives_refl; try done. destruct Hr1. by split.
Qed.
