(* ===== verification/LinkWire.v ===== *)
(** * The datagrams of a link on the wire

    What the remote decodes of what [offer], [makeAck] and [peekAck] of [ReliableLink.v]
    put together: the fragment, the Ack or the Ping that was meant. *)
From S2P Require Import Prelude Double Constants ByteOrder PacketFlags PacketHeader AckRanges.
From S2P Require Import SequenceBuffer RttEstimator MessageAssembler MediaAssembler ReliableLink.
From S2P Require Import LinkStreams LinkReceive.

Import Budget Link.

(** The bytes of a datagram. *)
Definition wire (d : OutgoingDatagram) : bytes := datagramHeader d ++ datagramBody d.

Lemma makeDatagram_header h : datagramHeader (makeDatagram h) = encodeHeader h.
Proof.
  pose proof (encodedSize_bounds h) as Hs. pose proof (encodeHeader_length h) as Hl.
  unfold datagramHeader, makeDatagram. cbn [headSize head update].
  change (BaseHeaderSize) with 20 in Hs. change MaxHeaderSize with 32 in Hs.
  simpl. rewrite wrap_small by (unfold is_uint; change (2 ^ 8) with 256; lia).
  unfold blit. change (ztake 0 ?a) with (@nil Byte.byte). rewrite app_nil_l.
  by rewrite ztake_app_exact.
Qed.

(** The header as the remote sees it: the tag and the length travel with the first
    fragment only. *)
Definition onWire (h : PacketHeader) : PacketHeader :=
  h <| tag := if startsMessage h then tag h else 0 |>
    <| totalLength := if startsFragmentedMessage h then totalLength h else 0 |>.

Lemma onWire_encode h : encodeHeader (onWire h) = encodeHeader h.
Proof.
  unfold encodeHeader. change (startsMessage (onWire h)) with (startsMessage h).
  change (startsFragmentedMessage (onWire h)) with (startsFragmentedMessage h).
  unfold onWire; simpl. by destruct (startsMessage h), (startsFragmentedMessage h).
Qed.

(** ** Data *)
Definition message_ok (l : Lane) (m : OutboundMessage) : Prop :=
  is_uint 32 (omTag m) /\ zlen (omBody m) <= maxMessageSize l.
Definition asMessage (m : OutboundMessage) : AssembledMessage :=
  {| msgTag := omTag m; msgBody := omBody m |}.

(** The [i]-th fragment of [m] as [fragmentAt] makes it. *)
Definition entry (m : OutboundMessage) (i : Z) : InFlight :=
  fragmentAt {| fcMessage := m; fcCount := fragmentsOf (zlen (omBody m)); fcNext := i |}.

Lemma maxMessageSize_le l : maxMessageSize l <= MaxMessagePayload.
Proof. destruct l; done. Qed.

Lemma entry_fields l m i :
  message_ok l m -> 0 <= i < fragmentsOf (zlen (omBody m)) ->
  entry m i = {| ifMessage := omBody m; ifOffset := i * MaxFragmentBody;
    ifLength := zlen (fragment_body (omBody m) i); ifTag := omTag m;
    ifTotalLength := zlen (omBody m); ifFragIndex := i;
    ifFragCount := fragmentsOf (zlen (omBody m)); transmissions := 0; isLost := false;
    sentAt := 0; transmission := 0 |}.
Proof.
  intros [_ Hs] Hi. pose proof (maxMessageSize_le l) as Hmax. pose proof (zlen_nonneg (omBody m)).
  pose proof (fragment_count_max (asMessage m) ltac:(simpl; lia)) as Hn. simpl in Hn.
  change MaxMessagePayload with 16777216 in Hmax.
  unfold entry, fragmentAt; cbn [fcMessage fcCount fcNext].
  assert (Hlen : zlen (fragment_body (omBody m) i) = Z.min MaxFragmentBody (zlen (omBody m) - i * MaxFragmentBody)).
  { unfold fragment_body. rewrite zlen_ztake, zlen_zdrop. change MaxFragmentBody with 1168 in *.
    destruct (Z.eq_dec i 0) as [->|]; [lia|].
    unfold fragmentsOf in Hi. change MaxFragmentBody with 1168 in Hi.
    destruct (Z.eqb_spec (zlen (omBody m)) 0); [lia|]. Z.div_mod_to_equations. lia. }
  pose proof (zlen_nonneg (fragment_body (omBody m) i)) as Hnn. rewrite Hlen in Hnn |- *.
  assert (i * MaxFragmentBody <= zlen (omBody m)) by lia. change MaxFragmentBody with 1168 in *.
  rewrite !(wrap_small 32), !(wrap_small 16) by
    (unfold is_uint; change (2 ^ 16) with 65536; change (2 ^ 32) with 4294967296; lia).
  done.
Qed.

Lemma headerOf_content k l sq e e' :
  content e = content e' -> headerOf k l sq e = headerOf k l sq e' /\
  (forall h, datagramOf h e = datagramOf h e').
Proof.
  intros E. assert (F : ifMessage e = ifMessage e' /\ ifOffset e = ifOffset e' /\ ifLength e = ifLength e' /\
    ifTag e = ifTag e' /\ ifTotalLength e = ifTotalLength e' /\ ifFragIndex e = ifFragIndex e' /\
    ifFragCount e = ifFragCount e').
  { unfold content, update in E. simpl in E. by injection E as -> -> -> -> -> -> ->. }
  destruct F as (E1 & E2 & E3 & E4 & E5 & E6 & E7).
  unfold headerOf, datagramOf. by rewrite E1, E2, E3, E4, E5, E6, E7.
Qed.

Lemma datagramOf_header h e : datagramHeader (datagramOf h e) = encodeHeader h.
Proof.
  rewrite <- makeDatagram_header. unfold datagramOf. generalize (makeDatagram h). done.
Qed.
Lemma datagramOf_body h e : datagramBody (datagramOf h e) = ztake (ifLength e) (zdrop (ifOffset e) (ifMessage e)).
Proof. done. Qed.

(** The ids of a link that can put packets on the wire. *)
Record ids_ok (k : ReliableLink) : Prop := {
  id_local : is_uint 32 (mLocalStreamID k) /\ mLocalStreamID k <> 0;
  id_remote : is_uint 32 (default 0 (mRemoteStreamID k));
}.

Definition lane_flags (l : Lane) (fragmented last : bool) : PacketFlags :=
  if fragmented then setFragment true last (dataFlags l) else dataFlags l.

Lemma lane_flags_view l fr last :
  is_flags (lane_flags l fr last) /\ isValid (lane_flags l fr last) = true /\
  kind (lane_flags l fr last) = Data /\ lane (lane_flags l fr last) = l /\
  isFragmented (lane_flags l fr last) = fr /\ isLastFragment (lane_flags l fr last) = fr && last.
Proof. destruct l, fr, last; vm_compute; repeat split; discriminate. Qed.

Lemma fragmentsOf_lane l m : message_ok l m -> fragmentsOf (zlen (omBody m)) <= fragmentsOf (maxMessageSize l).
Proof. intros [_ H]. apply fragmentsOf_mono. pose proof (zlen_nonneg (omBody m)). lia. Qed.

(** The header of a fragment, and its body. *)
Definition dataHeader (k : ReliableLink) (l : Lane) (m : OutboundMessage) (i sq : Z) : PacketHeader :=
  let n := fragmentsOf (zlen (omBody m)) in
  {| flags := lane_flags l (1 <? n) (i + 1 =? n); srcStreamID := mLocalStreamID k; dstStreamID := default 0 (mRemoteStreamID k);
     seq := sq; fragIndex := if 1 <? n then i else 0; fragCount := if 1 <? n then n else 0;
     tag := omTag m; totalLength := if 1 <? n then zlen (omBody m) else 0 |}.

Lemma entry_wire k l m i sq : message_ok l m -> 0 <= i < fragmentsOf (zlen (omBody m)) ->
  wire (datagramOf (headerOf k l sq (entry m i)) (entry m i)) = encodeHeader (onWire (dataHeader k l m i sq)) ++ fragment_body (omBody m) i.
Proof.
  intros Hm Hi. assert (Eh : headerOf k l sq (entry m i) = dataHeader k l m i sq).
  { rewrite (entry_fields l m i Hm Hi). unfold headerOf, dataHeader, lane_flags, makeHeader, update. cbn.
    by destruct (1 <? fragmentsOf _). }
  rewrite Eh, onWire_encode. unfold wire. rewrite datagramOf_header, datagramOf_body.
  rewrite (entry_fields l m i Hm Hi). cbn [ifMessage ifOffset ifLength]. unfold fragment_body. by rewrite ztake_zlen.
Qed.

Lemma dataHeader_starts k l m i sq : 0 <= i < fragmentsOf (zlen (omBody m)) ->
  startsMessage (dataHeader k l m i sq) = (i =? 0) /\
  startsFragmentedMessage (dataHeader k l m i sq) = (1 <? fragmentsOf (zlen (omBody m))) && (i =? 0).
Proof.
  intros Hi. unfold startsMessage, startsFragmentedMessage, dataHeader; simpl.
  destruct (lane_flags_view l (1 <? fragmentsOf (zlen (omBody m))) (i + 1 =? fragmentsOf (zlen (omBody m)))) as (_ & _ & -> & _ & -> & _).
  rewrite (bool_decide_eq_true_2 (Data = Data)) by done.
  destruct (Z.ltb_spec 1 (fragmentsOf (zlen (omBody m)))); simpl; [done|]. split; [|done]. symmetry. apply Z.eqb_eq. lia.
Qed.

Lemma dataHeader_wire k l m i sq : ids_ok k -> message_ok l m -> 0 <= i < fragmentsOf (zlen (omBody m)) -> 1 <= sq < 2 ^ 64 ->
  wire_header (onWire (dataHeader k l m i sq)).
Proof.
  intros Hid Hm Hi Hsq. destruct (dataHeader_starts k l m i sq Hi) as [Hst Hsf].
  pose proof (fragmentsOf_lane l m Hm) as Hmax. pose proof (fragmentsOf_max l) as Hmax'. destruct Hm as [Htag Hsize].
  pose proof (zlen_nonneg (omBody m)). set (h := dataHeader k l m i sq) in *. set (n := fragmentsOf (zlen (omBody m))) in *.
  destruct (lane_flags_view l (1 <? n) (i + 1 =? n)) as (Ff & Fv & Fk & Fl & Ffr & Fla).
  destruct Hid as [[Hl Hl0] Hr]. split; try done.
  - simpl. fold n. by rewrite Fk.
  - unfold is_uint. simpl. lia.
  - simpl. fold n. lia.
  - simpl. fold n. rewrite Ffr. destruct (Z.ltb_spec 1 n); [|done]. rewrite Fl, Fla.
    unfold is_uint. change (2 ^ 16) with 65536. split_and!; lia || done.
  - change (startsMessage (onWire h)) with (startsMessage h). simpl. rewrite Hst. by destruct (i =? 0).
  - change (startsFragmentedMessage (onWire h)) with (startsFragmentedMessage h). simpl. fold n. rewrite Hsf, Fl.
    destruct (Z.ltb_spec 1 n); [|done]. destruct (i =? 0); [|done].
    cbn [andb]. split_and!; [|lia|done]. pose proof (maxMessageSize_le l).
    change MaxMessagePayload with 16777216 in *. unfold is_uint. lia.
Qed.

Lemma dataBody_valid k l m i sq : 0 <= i < fragmentsOf (zlen (omBody m)) ->
  isBodySizeValid (onWire (dataHeader k l m i sq)) (zlen (fragment_body (omBody m) i)) = true /\
  zlen (fragment_body (omBody m) i) <= MaxFragmentBody.
Proof.
  intros Hi. pose proof (fragment_body_length (omBody m) i Hi) as Hb. set (n := fragmentsOf (zlen (omBody m))) in *.
  set (b := fragment_body (omBody m) i) in *. pose proof (zlen_nonneg (omBody m)).
  assert (Hb' : zlen b <= MaxFragmentBody).
  { unfold b, fragment_body. rewrite zlen_ztake. change MaxFragmentBody with 1168. lia. }
  assert (Hlast : 1 < n -> i + 1 = n -> 0 < zlen b).
  { intros Hn E. rewrite Hb, (proj2 (Z.eqb_eq _ _) E).
    destruct (Z.eq_dec (zlen (omBody m)) 0) as [E0|].
    { unfold n in Hn. rewrite E0 in Hn. by vm_compute in Hn. }
    pose proof (proj1 (fragmentsOf_spec (zlen (omBody m)) n ltac:(lia)) eq_refl). nia. }
  split; [|done]. destruct (lane_flags_view l (1 <? n) (i + 1 =? n)) as (_ & _ & Fk & _ & Ffr & Fla).
  unfold isBodySizeValid. simpl. fold n. rewrite Fk, Ffr, Fla.
  destruct (Z.ltb_spec 1 n); cbn [negb andb]; [|apply Z.leb_le; lia].
  destruct (Z.eqb_spec (i + 1) n); [|apply Z.eqb_eq; lia].
  apply andb_true_iff. rewrite Z.ltb_lt, Z.leb_le. auto.
Qed.

Lemma data_wire k l m i sq e :
  ids_ok k -> message_ok l m -> 0 <= i < fragmentsOf (zlen (omBody m)) -> 1 <= sq < 2 ^ 64 ->
  content e = entry m i ->
  exists p, decodePacket (wire (datagramOf (headerOf k l sq e) e)) = Some (Some p) /\
    kind (flags (header p)) = Data /\ lane (flags (header p)) = l /\ seq (header p) = sq /\
    srcStreamID (header p) = mLocalStreamID k /\
    dstStreamID (header p) = default 0 (mRemoteStreamID k) /\
    carries (header p) (body p) (asMessage m) i.
Proof.
  intros Hid Hm Hi Hsq He.
  destruct (headerOf_content k l sq e (entry m i) He) as [-> ->]. clear He e. rewrite (entry_wire k l m i sq Hm Hi).
  destruct (dataHeader_starts k l m i sq Hi) as [Hst Hsf]. destruct (dataBody_valid k l m i sq Hi) as [Hbv Hb].
  set (h := dataHeader k l m i sq) in *. set (n := fragmentsOf (zlen (omBody m))) in *.
  destruct (lane_flags_view l (1 <? n) (i + 1 =? n)) as (Ff & Fv & Fk & Fl & Ffr & Fla).
  exists {| header := onWire h; body := fragment_body (omBody m) i |}. split.
  - apply decodePacket_complete; [by apply dataHeader_wire|exact Hbv|].
    pose proof (encodedSize_bounds (onWire h)). change MaxFragmentBody with 1168 in *.
    change MaxHeaderSize with 32 in *. change MaxDatagramSize with 1200. lia.
  - simpl. fold n. split_and!; try done. destruct Hm as [Htag Hsize]. split; simpl; fold n.
    + pose proof (maxMessageSize_le l). lia.
    + done.
    + done.
    + rewrite Ffr, Fla. intros Hn. rewrite Hn. by split_and!.
    + intros ->. by rewrite Hst.
    + intros ->. rewrite Ffr. intros Hn. by rewrite Hsf, Hn.
    + done.
Qed.

(** ** Acks and Pings *)
Lemma waitingSeqs_map l s : recv_ok l s -> forall sq, sq ∈ waitingSeqs s <-> is_Some (recv_map s !! sq).
Proof.
  intros Hr sq. unfold waitingSeqs. destruct (SeqBuf.empty (reorder s)) eqn:E; cbn [negb].
  - apply SeqBuf.empty_map in E; [|apply Hr]. unfold recv_map. rewrite E, lookup_empty.
    split; [by intros ?%not_elem_of_nil|by intros []].
  - rewrite SeqBuf.forEach_keep by done. cbn [fst].
    assert (Hf : forall (l : list (Z * BufferedData)) acc,
      fold_left (fun st e => (st ++ [e.1], true).1) l acc = acc ++ l.*1).
    { clear. induction l as [|e l IH]; intros acc; simpl; [by rewrite app_nil_r|].
      simpl in IH. by rewrite IH, <- app_assoc. }
    rewrite Hf. simpl. unfold recv_map, SeqBuf.to_map. rewrite list_elem_of_fmap. split.
    + intros ([j d] & -> & Hin). exists d. apply elem_of_list_to_map; [|done].
      apply SeqBuf.buffer_NoDup, Hr.
    + intros [d Hd]. apply elem_of_list_to_map in Hd; [|apply SeqBuf.buffer_NoDup, Hr].
      by exists (sq, d).
Qed.

Lemma ack_flags_view l p :
  l <> Media -> is_flags (ackFlags l p) /\ isValid (ackFlags l p) = true /\
  kind (ackFlags l p) = Ack /\ lane (ackFlags l p) = l /\ isFragmented (ackFlags l p) = false /\
  isPaused (ackFlags l p) = p.
Proof. intros Hl. destruct l, p; try done; vm_compute; repeat split; discriminate. Qed.

Lemma ping_flags_view l :
  l <> Media -> is_flags (pingFlags l) /\ isValid (pingFlags l) = true /\
  kind (pingFlags l) = Ping /\ lane (pingFlags l) = l /\ isFragmented (pingFlags l) = false.
Proof. intros Hl. destruct l; try done; vm_compute; repeat split; discriminate. Qed.

(** A packet without a message: its header as it is, and any body. *)
Lemma plain_wire k f sq b :
  ids_ok k -> is_flags f -> isValid f = true -> kind f = Ack \/ kind f = Ping ->
  isFragmented f = false -> is_uint 64 sq -> (kind f = Ping -> b = []) ->
  zlen b <= MaxDatagramSize - BaseHeaderSize ->
  decodePacket (encodeHeader (makeHeader k f sq) ++ b) =
    Some (Some {| header := makeHeader k f sq; body := b |}).
Proof.
  intros [[Hl Hl0] Hr] Hf Hv Hk Hfr Hsq Hb Hlen.
  assert (Hst : startsMessage (makeHeader k f sq) = false /\ startsFragmentedMessage (makeHeader k f sq) = false).
  { unfold startsMessage, startsFragmentedMessage. simpl. rewrite Hfr. split; [|done].
    rewrite bool_decide_eq_false_2; [done|]. destruct Hk as [-> | ->]; done. }
  destruct Hst as [Hst Hsf].
  apply decodePacket_complete.
  - split; simpl; try done.
    + destruct Hk as [-> | ->]; done.
    + destruct Hk as [-> | ->]; done.
    + by rewrite Hfr.
    + by rewrite Hst.
    + by rewrite Hsf.
  - unfold isBodySizeValid. simpl. destruct Hk as [E|E]; rewrite E; [done|]. by rewrite Hb.
  - unfold encodedSize. rewrite Hst, Hsf. simpl. rewrite Hfr. unfold BaseHeaderSize in *. lia.
Qed.

Lemma encodeAck_length a n :
  0 <= n -> zlen (encodeAck a n) <= AckFieldsSize + SeqRangeSize * n.
Proof.
  intros Hn. unfold encodeAck. rewrite !zlen_app, encodeRanges_length, zlen_ztake. autorewrite with zlen.
  pose proof (zlen_nonneg (ranges a)). unfold AckFieldsSize, SeqRangeSize. lia.
Qed.

Lemma owned_wire h b : wire ((makeDatagram h) <| owned := b |>) = encodeHeader h ++ b.
Proof.
  unfold wire. rewrite <- makeDatagram_header.
  assert (E : dgMessage (makeDatagram h) = None) by done. revert E. generalize (makeDatagram h).
  intros d E. unfold datagramBody. simpl. by rewrite E.
Qed.

(** An Ack tells the truth if the receiver holds every seq it names. *)
Definition ack_truth (o : option Stream) (p : DecodedPacket) : Prop :=
  forall ack sq, decodeAck (body p) = Some (Some ack) -> 1 <= sq ->
    (sq <= seq (header p) \/ Exists (fun r => first r <= sq <= rangeLast r) (ranges ack)) ->
    exists s, o = Some s /\ holds_seq s sq.

Lemma makeAck_wire l k :
  l <> Media -> is_uint 32 (mMediaReceived (retryLane l k)) -> ids_ok (retryLane l k) ->
  (forall s, mStreams (retryLane l k) l = Some s -> recv_ok l s) ->
  exists p, decodePacket (wire (makeAck l k).1) = Some (Some p) /\
    kind (flags (header p)) = Ack /\ lane (flags (header p)) = l /\
    srcStreamID (header p) = mLocalStreamID (retryLane l k) /\
    (exists ack, decodeAck (body p) = Some (Some ack)) /\
    ack_truth (mStreams (retryLane l k) l) p.
Proof.
  intros Hl Hmr Hid Hr. unfold makeAck. set (k1 := retryLane l k) in *. clearbody k1. cbn zeta. cbn [fst].
  set (paused := _ || _). set (k2 := k1 <| mAckSerial ::= _ |>).
  set (sq := match mStreams k1 l with Some s => _ | None => 0 end).
  set (waiting := match mStreams k1 l with Some s => waitingSeqs s | None => [] end).
  set (ack := {| serial := _; ackMediaReceived := _; ranges := toRanges waiting |}).
  destruct (ack_flags_view l paused Hl) as (Ff & Fv & Fk & Fl & Ffr & _).
  set (b := encodeAck ack MaxAckRanges).
  assert (Ew : wire ((makeDatagram (makeHeader k2 (ackFlags l paused) sq)) <| owned := b |>) =
               encodeHeader (makeHeader k2 (ackFlags l paused) sq) ++ b) by apply owned_wire.
  rewrite Ew. clear Ew.
  assert (Hsq : is_uint 64 sq /\ forall s, mStreams k1 l = Some s -> sq = nextExpected s - 1).
  { unfold sq. destruct (mStreams k1 l) as [s|] eqn:Es.
    - pose proof (ro_expected l s (Hr s eq_refl)). rewrite wrap_small by (unfold is_uint; lia).
      split; [unfold is_uint; lia|]. intros. by simplify_eq.
    - split; [unfold is_uint; lia|done]. }
  destruct Hsq as [Hsq Hsqs].
  assert (Hw : Forall (fun s => 0 < s < 2 ^ 64) waiting /\
    forall j, j ∈ waiting -> exists s, mStreams k1 l = Some s /\ is_Some (recv_map s !! j)).
  { unfold waiting. destruct (mStreams k1 l) as [s|] eqn:Es; [|split; [done|by intros ? ?%not_elem_of_nil]].
    specialize (Hr s eq_refl). split.
    - apply Forall_forall. intros j Hj. apply (waitingSeqs_map l s Hr) in Hj.
      destruct (ro_range l s Hr j Hj). pose proof (ro_expected l s Hr). lia.
    - intros j Hj. exists s. split; [done|]. by apply (waitingSeqs_map l s Hr). }
  destruct Hw as [Hw Hin]. destruct (toRanges_spec waiting Hw) as (Hok & _ & Hmem).
  assert (Hack : ack_ok ack).
  { split_and!; [|done|done]. simpl. apply wrap_bounds. lia. }
  exists {| header := makeHeader k2 (ackFlags l paused) sq; body := b |}. split_and!; try done.
  - apply plain_wire; try done.
    + destruct Hid. by split.
    + by left.
    + rewrite Fk. done.
    + unfold b. eapply Z.le_trans; [by apply encodeAck_length|]. done.
  - simpl. eexists. unfold b. by apply decodeAck_complete.
  - intros ack' j Hd Hj Hn. simpl in *. unfold b in Hd. rewrite decodeAck_complete in Hd by done.
    simplify_eq/=. destruct Hn as [Hle|Hex].
    + destruct (mStreams k1 l) as [s|] eqn:Es; [|unfold sq in Hle; lia].
      exists s. split; [done|]. left. rewrite (Hsqs s eq_refl) in Hle. lia.
    + destruct (Hin j) as (s & Es & Hs); [|exists s; split; [done|by right]].
      apply Hmem. unfold in_ranges. apply Exists_exists in Hex as (r & Hr1 & Hr2).
      apply elem_of_take in Hr1 as (i & Hi & _). apply list_elem_of_lookup_2 in Hi.
      apply Exists_exists. exists r. split; [done|]. rewrite Forall_forall in Hok.
      rewrite rangeLast_ok in Hr2 by by apply Hok. unfold in_range. lia.
Qed.
