(* ===== verification/Flow.v ===== *)
(** * One lane in one direction

    [flow] ties the two ends of an acknowledged lane together: the messages the sender
    took from its source, its send window, the datagrams under way, the receiver's
    reorder buffer and assembler, and the messages delivered.  Each lemma says that one
    kind of change at one end, or on the network, keeps it. *)
From S2P Require Import Prelude Double Constants PacketFlags PacketHeader AckRanges.
From S2P Require Import SequenceBuffer RttEstimator MessageAssembler MediaAssembler ReliableLink.
From S2P Require Import LinkStreams LinkReceive LinkWire.

Import Budget Link.

(** ** The packets of a list of messages *)
Definition frags_of (m : OutboundMessage) : list (OutboundMessage * Z) :=
  (fun i => (m, i)) <$> seqZ 0 (fragmentsOf (zlen (omBody m))).
Definition frags (ms : list OutboundMessage) : list (OutboundMessage * Z) := mjoin (frags_of <$> ms).

Lemma frags_of_pos m : 1 <= fragmentsOf (zlen (omBody m)).
Proof. apply fragmentsOf_pos, zlen_nonneg. Qed.

Lemma frags_of_length m : zlen (frags_of m) = fragmentsOf (zlen (omBody m)).
Proof.
  unfold zlen at 1, frags_of. rewrite length_fmap, length_seqZ. pose proof (frags_of_pos m). lia.
Qed.

Lemma frags_app ms1 ms2 : frags (ms1 ++ ms2) = frags ms1 ++ frags ms2.
Proof. unfold frags. by rewrite fmap_app, join_app. Qed.

Lemma frags_cons m ms : frags (m :: ms) = frags_of m ++ frags ms.
Proof. done. Qed.

Lemma frags_of_lookup m i : 0 <= i < fragmentsOf (zlen (omBody m)) -> zlookup (frags_of m) i = Some (m, i).
Proof.
  intros Hi. rewrite zlookup_lookup by lia. unfold frags_of. rewrite list_lookup_fmap.
  rewrite lookup_seqZ_lt by lia. simpl. do 2 f_equal. lia.
Qed.

(** The packet at position [|frags done| + i] is fragment [i] of the next message. *)
Lemma frags_lookup done m rest i :
  0 <= i < fragmentsOf (zlen (omBody m)) ->
  zlookup (frags (done ++ m :: rest)) (zlen (frags done) + i) = Some (m, i).
Proof.
  intros Hi. rewrite frags_app, frags_cons, zlookup_app_r by lia.
  replace (zlen (frags done) + i - zlen (frags done)) with i by lia.
  rewrite zlookup_app_l by (rewrite frags_of_length; lia). by apply frags_of_lookup.
Qed.

Lemma frags_valid l ms i m j :
  Forall (message_ok l) ms -> zlookup (frags ms) i = Some (m, j) ->
  message_ok l m /\ 0 <= j < fragmentsOf (zlen (omBody m)).
Proof.
  intros Hv H. pose proof (zlookup_Some_range _ _ _ H) as [H0 _].
  rewrite zlookup_lookup in H by done. apply list_elem_of_lookup_2 in H.
  unfold frags in H. apply list_elem_of_join in H as (fs & Hin & Hfs).
  apply list_elem_of_fmap in Hfs as (m' & -> & Hm'). unfold frags_of in Hin.
  apply list_elem_of_fmap in Hin as (j' & E & Hj'). simplify_eq.
  rewrite Forall_forall in Hv. split; [by apply Hv|]. apply elem_of_seqZ in Hj'. lia.
Qed.

Lemma zlookup_weaken {A} (l k : list A) i x : zlookup l i = Some x -> zlookup (l ++ k) i = Some x.
Proof. intros H. rewrite zlookup_app_l; [done|]. by eapply zlookup_Some_range. Qed.

(** ** The invariant *)

(** The packet is the one with its seq, as the sender cut it. *)
Definition packet_of (ms : list OutboundMessage) (sq : Z) (h : PacketHeader) (b : bytes) : Prop :=
  exists m i, zlookup (frags ms) (sq - 1) = Some (m, i) /\ carries h b (asMessage m) i.

(** The sender has cut the messages into packets up to [nextSendSeq]. *)
Definition send_position (ms : list OutboundMessage) (s : Stream) : Prop :=
  match cursor s with
  | None => nextSendSeq s = 1 + zlen (frags ms)
  | Some c => exists ms0 m, ms = ms0 ++ [m] /\
      c = {| fcMessage := m; fcCount := fragmentsOf (zlen (omBody m)); fcNext := fcNext c |} /\
      0 <= fcNext c < fragmentsOf (zlen (omBody m)) /\
      nextSendSeq s = 1 + zlen (frags ms0) + fcNext c
  end.

Record send_inv (ms : list OutboundMessage) (s : Stream) : Prop := {
  si_position : send_position ms s;
  si_entries : forall sq e, send_map s !! sq = Some e ->
    exists m i, zlookup (frags ms) (sq - 1) = Some (m, i) /\ e = entry m i;
}.

(** The receiver has the messages [done] and [i] fragments of the next one. *)
Definition recv_position (done rest : list OutboundMessage) (i : Z) (a : MessageAssembler) : Prop :=
  match rest with
  | [] => i = 0 /\ a = idle
  | m :: _ => 0 <= i < fragmentsOf (zlen (omBody m)) /\ holds (asMessage m) i a
  end.

Record recv_inv (done rest : list OutboundMessage) (s : Stream) : Prop := {
  ri_position : exists i, nextExpected s = 1 + zlen (frags done) + i /\
    recv_position done rest i (assembler s);
  ri_entries : forall sq d, recv_map s !! sq = Some d ->
    packet_of (done ++ rest) sq (bdHeader d) (bdBody d);
}.

(** [so] and [ro] are the streams of the two ends, [None] once that link failed; [net] are
    the datagrams the sender ever sent, [acks] those the receiver sent or is about to. *)
Record flow (l : Lane) (ms : list OutboundMessage) (so : option Stream) (net : list bytes)
    (ro : option Stream) (delivered : list AssembledMessage) (acks : list bytes) : Prop := {
  fl_valid : Forall (message_ok l) ms;
  fl_send : forall s, so = Some s -> send_inv ms s;
  fl_net : forall d p, d ∈ net -> decodePacket d = Some (Some p) ->
    kind (flags (header p)) = Data -> lane (flags (header p)) = l ->
    packet_of ms (seq (header p)) (header p) (body p) /\ 1 <= seq (header p) < 2 ^ 63;
  fl_recv : exists done rest, ms = done ++ rest /\ delivered = asMessage <$> done /\
    forall s, ro = Some s -> recv_inv done rest s;
  fl_acks : forall s d p, ro = Some s -> d ∈ acks -> decodePacket d = Some (Some p) ->
    kind (flags (header p)) = Ack -> lane (flags (header p)) = l -> ack_truth (Some s) p;
  fl_held : forall s s', so = Some s -> ro = Some s' ->
    forall sq, 1 <= sq < nextSendSeq s -> is_Some (send_map s !! sq) \/ holds_seq s' sq;
}.

(** ** The sender's end *)
Section Flow.
Context (l : Lane).

Lemma packet_of_mono ms k sq h b : packet_of ms sq h b -> packet_of (ms ++ k) sq h b.
Proof.
  intros (m & i & Hz & Hc). exists m, i. split; [|done]. rewrite frags_app. by apply zlookup_weaken.
Qed.

Lemma flow_send_same ms s s' net ro dl acks :
  send_same s s' -> flow l ms (Some s) net ro dl acks -> flow l ms (Some s') net ro dl acks.
Proof.
  intros [Ec En Eb Em _ _] []. split; try done.
  - intros ? [= <-]. destruct (fl_send0 s eq_refl) as [Hp He]. split; [|by rewrite Em].
    unfold send_position in *. by rewrite Ec, En.
  - intros ? s2 [= <-] Hs2 sq. rewrite En, Em. by apply fl_held0.
Qed.

Lemma flow_send_failed ms so net ro dl acks :
  flow l ms so net ro dl acks -> flow l ms None net ro dl acks.
Proof. intros []. by split. Qed.

Lemma flow_recv_failed ms so net ro dl acks :
  flow l ms so net ro dl acks -> flow l ms so net None dl acks.
Proof.
  intros []. split; try done. destruct fl_recv0 as (dn & rest & ? & ? & _). by exists dn, rest.
Qed.

(** A message is taken from the source. *)
Lemma flow_took ms s net ro dl acks m :
  cursor s = None -> message_ok l m -> flow l ms (Some s) net ro dl acks ->
  flow l (ms ++ [m]) (Some (s <| cursor := Some (cursorFor m) |>)) net ro dl acks.
Proof.
  intros Hc Hm []. destruct (fl_send0 s eq_refl) as [Hp He]. split; try done.
  - apply Forall_app. split; [done|by constructor].
  - intros ? [= <-]. split.
    + unfold send_position in *. rewrite Hc in Hp. simpl. exists ms, m. split_and!; try done.
      * pose proof (frags_of_pos m). lia.
      * lia.
    + intros sq e Hse. destruct (He sq e Hse) as (m' & i & Hz & ->). exists m', i. split; [|done].
      rewrite frags_app. by apply zlookup_weaken.
  - intros d p Hd Hp' Hk Hl. destruct (fl_net0 d p Hd Hp' Hk Hl). split; [by apply packet_of_mono|done].
  - destruct fl_recv0 as (dn & rest & -> & -> & Hr). exists dn, (rest ++ [m]). rewrite app_assoc.
    split_and!; try done. intros s' Es'. destruct (Hr s' Es') as [(i & Hn & Hpos) Hent]. split.
    + exists i. split; [done|]. destruct rest as [|m' rest]; [|done].
      destruct Hpos as [-> ->]. simpl. pose proof (frags_of_pos m). split; [lia|done].
    + intros sq d Hd. rewrite app_assoc. by apply packet_of_mono, Hent.
  - intros ? s2 [= <-]. by apply (fl_held0 s s2 eq_refl).
Qed.

(** The datagrams on the way to the receiver: others than data of this lane do not matter. *)
Lemma flow_net_other ms so net ro dl acks out :
  (forall d p, d ∈ out -> decodePacket d = Some (Some p) -> kind (flags (header p)) = Data ->
     lane (flags (header p)) <> l) ->
  flow l ms so net ro dl acks -> flow l ms so (net ++ out) ro dl acks.
Proof.
  intros Ho []. split; try done. intros d p [Hd|Hd]%elem_of_app Hp Hk Hl; [by eapply fl_net0|].
  by destruct (Ho d p Hd Hp Hk).
Qed.

(** A fragment of a message goes out. *)
Lemma flow_net_data ms so net ro dl acks k sq e m i :
  ids_ok k -> zlookup (frags ms) (sq - 1) = Some (m, i) -> content e = entry m i -> 1 <= sq < 2 ^ 63 ->
  flow l ms so net ro dl acks ->
  flow l ms so (net ++ [wire (datagramOf (headerOf k l sq e) e)]) ro dl acks.
Proof.
  intros Hid Hz He Hsq []. destruct (frags_valid l ms _ _ _ fl_valid0 Hz) as [Hm Hi].
  split; try done. intros d p [Hd|Hd]%elem_of_app Hp Hk Hl; [by eapply fl_net0|].
  apply list_elem_of_singleton in Hd as ->.
  destruct (data_wire k l m i sq e Hid Hm Hi ltac:(lia) He) as (p' & Hp' & _ & _ & Es & _ & _ & Hc).
  assert (p' = p) as -> by congruence. rewrite Es. split; [|done]. by exists m, i.
Qed.

(** The next fragment of the message in progress joins the window. *)
Lemma flow_sent ms s net ro dl acks c :
  cursor s = Some c -> window_ok l s -> nextSendSeq s - sendBase s < windowOf l ->
  nextSendSeq s < 2 ^ 63 -> flow l ms (Some s) net ro dl acks ->
  flow l ms (Some (sentStream s c)) net ro dl acks /\
  exists m i, zlookup (frags ms) (nextSendSeq s - 1) = Some (m, i) /\ fragmentAt c = entry m i.
Proof.
  intros Hc Hw Hroom Hlim []. destruct (fl_send0 s eq_refl) as [Hp He].
  pose proof (sentStream_map l s c Hw Hroom) as Em.
  destruct (sentStream_window l s c Hw Hroom Hlim) as [_ En].
  unfold send_position in Hp. rewrite Hc in Hp. destruct Hp as (ms0 & m & -> & Ec & Hi & Hn).
  set (i := fcNext c) in *. set (n := fragmentsOf (zlen (omBody m))) in *.
  assert (Hz : zlookup (frags (ms0 ++ [m])) (nextSendSeq s - 1) = Some (m, i)).
  { rewrite Hn. replace (1 + zlen (frags ms0) + i - 1) with (zlen (frags ms0) + i) by lia. by apply frags_lookup. }
  assert (Efr : fragmentAt c = entry m i) by (by rewrite Ec).
  split; [|by exists m, i]. split; try done.
  - intros ? [= <-]. split.
    + unfold send_position. rewrite En. change (cursor (sentStream s c)) with (advanceCursor c).
      unfold advanceCursor. simpl. rewrite Ec. simpl. fold i n.
      destruct (Z.leb_spec n (Z.succ i)).
      * rewrite frags_app, zlen_app, frags_cons, zlen_app, frags_of_length. fold n.
        change (zlen (frags [])) with 0. lia.
      * exists ms0, m. simpl. split_and!; try done; lia.
    + intros sq e. rewrite Em. intros [[<- <-]|[_ Hse]]%lookup_insert_Some; [by exists m, i|by apply He].
  - intros ? s2 [= <-] Hs2 sq. rewrite En, Em. intros Hsq.
    destruct (Z.eq_dec sq (nextSendSeq s)) as [->|].
    + left. rewrite lookup_insert_eq. by eexists.
    + rewrite lookup_insert_ne by done. apply (fl_held0 s s2 eq_refl Hs2). lia.
Qed.

(** An Ack of the receiver arrives. *)
Lemma flow_acked ms s s' net ro dl acks p d ack base :
  acknowledged l (ack_names (seq (header p)) (ranges ack) base (nextSendSeq s - 1)) s s' ->
  window_ok l s -> base = sendBase s ->
  d ∈ acks -> decodePacket d = Some (Some p) -> decodeAck (body p) = Some (Some ack) ->
  kind (flags (header p)) = Ack -> lane (flags (header p)) = l ->
  flow l ms (Some s) net ro dl acks -> flow l ms (Some s') net ro dl acks.
Proof.
  intros Ha Hw -> Hd Hp Hack Hk Hl []. destruct Ha as [Ec En Hsub Hgone Hkept _ _].
  destruct (fl_send0 s eq_refl) as [Hpos He]. split; try done.
  - intros ? [= <-]. split.
    + unfold send_position in *. by rewrite Ec, En.
    + intros sq e Hse. apply He. by eapply lookup_weaken.
  - intros ? s2 [= <-] Hs2 sq. rewrite En. intros Hsq.
    destruct (fl_held0 s s2 eq_refl Hs2 sq Hsq) as [Hin|]; [|by right].
    destruct (send_map s' !! sq) as [e|] eqn:E; [by left; eexists|]. right.
    pose proof (wo_range l s Hw sq Hin) as Hrange.
    destruct (decide (sq <= seq (header p) \/ Exists (fun r => first r <= sq <= rangeLast r) (ranges ack)))
      as [Hn|Hn].
    + destruct (fl_acks0 s2 d p Hs2 Hd Hp Hk Hl ack sq Hack ltac:(lia) Hn) as (? & [= <-] & ?). done.
    + rewrite Hkept in E; [by rewrite E in Hin; destruct Hin|]. intros [_ ?]. done.
Qed.

(** ** The receiver's end *)
Lemma flow_recv_same ms so net s s' dl acks :
  recv_same s s' -> flow l ms so net (Some s) dl acks -> flow l ms so net (Some s') dl acks.
Proof.
  intros [Er En _ _ Ea] [].
  assert (Eh : forall sq, holds_seq s' sq <-> holds_seq s sq).
  { intros sq. unfold holds_seq, recv_map. by rewrite Er, En. }
  split; try done.
  - destruct fl_recv0 as (dn & rest & ? & ? & Hr). exists dn, rest. split_and!; try done.
    intros ? [= <-]. destruct (Hr s eq_refl) as [Hp He]. split.
    + by rewrite En, Ea.
    + unfold recv_map. rewrite Er. apply He.
  - intros ? d p [= <-] Hd Hp Hk Hl ack sq Ha Hsq Hn.
    destruct (fl_acks0 s d p eq_refl Hd Hp Hk Hl ack sq Ha Hsq Hn) as (? & [= <-] & ?).
    exists s'. split; [done|]. by apply Eh.
  - intros s1 ? Hs1 [= <-] sq Hsq. rewrite Eh. by apply (fl_held0 s1 s).
Qed.

(** The assembler takes packets that continue where it is. *)
Lemma absorbed_position a bud ps out a' bud' :
  absorbed a bud ps out a' bud' -> forall done rest i,
  recv_position done rest i a ->
  (forall j p, ps !! j = Some p ->
    packet_of (done ++ rest) (1 + zlen (frags done) + i + Z.of_nat j) p.1 p.2) ->
  exists more rest' i', rest = more ++ rest' /\ out = asMessage <$> more /\
    recv_position (done ++ more) rest' i' a' /\
    zlen (frags (done ++ more)) + i' = zlen (frags done) + i + zlen ps.
Proof.
  induction 1 as [a bud|a bud h b r a1 bud1 ps out a2 bud2 Hroom Hacc _ IH]; intros dn rest i Hpos Hps.
  { exists [], rest, i. rewrite app_nil_r, zlen_nil. split_and!; try done. lia. }
  destruct (Hps 0%nat (h, b) eq_refl) as (m & j & Hz & Hc). simpl in Hz, Hc.
  replace (1 + zlen (frags dn) + i + Z.of_nat 0 - 1) with (zlen (frags dn) + i) in Hz by lia.
  destruct rest as [|m0 rest].
  { destruct Hpos as [-> _]. apply zlookup_Some_range in Hz. rewrite app_nil_r in Hz. lia. }
  destruct Hpos as [Hi Hh]. rewrite frags_lookup in Hz by done. injection Hz as <- <-.
  destruct (accept_next bud (asMessage m0) i a h b Hh Hc Hroom) as [Er Hh']. rewrite Hacc in Er, Hh'.
  simpl in Er, Hh'. destruct (Z.eqb_spec (i + 1) (fragmentsOf (zlen (omBody m0)))) as [E|E].
  - assert (Hpos' : recv_position (dn ++ [m0]) rest 0 a1).
    { destruct rest as [|m1 rest]; [done|]. split; [pose proof (frags_of_pos m1); lia|done]. }
    assert (Elen : zlen (frags (dn ++ [m0])) = zlen (frags dn) + i + 1).
    { rewrite frags_app, zlen_app, frags_cons, zlen_app, frags_of_length.
      change (zlen (frags [])) with 0. lia. }
    destruct (IH (dn ++ [m0]) rest 0 Hpos') as (more & rest' & i' & -> & -> & Hp' & Hn).
    { intros j p Hj. rewrite <- app_assoc. specialize (Hps (Datatypes.S j) p Hj).
      rewrite Elen. replace (1 + (zlen (frags dn) + i + 1) + 0 + Z.of_nat j) with
        (1 + zlen (frags dn) + i + Z.of_nat (Datatypes.S j)) by lia. done. }
    exists (m0 :: more), rest', i'. rewrite <- app_assoc in Hp', Hn. simpl in Hp', Hn |- *. split_and!; try done.
    + by rewrite Er.
    + rewrite Hn, Elen, zlen_cons. lia.
  - destruct (IH dn (m0 :: rest) (i + 1)) as (more & rest' & i' & Em & -> & Hp' & Hn).
    { split; [lia|done]. }
    { intros j p Hj. specialize (Hps (Datatypes.S j) p Hj).
      replace (1 + zlen (frags dn) + (i + 1) + Z.of_nat j) with
        (1 + zlen (frags dn) + i + Z.of_nat (Datatypes.S j)) by lia. done. }
    exists more, rest', i'. split_and!; try done.
    + by rewrite Er.
    + rewrite Hn, zlen_cons. lia.
Qed.

(** Packets of the flow are received. *)
Lemma flow_received ms so net s s' k k' dl acks extra ps :
  receives l extra ps s k s' k' ->
  (forall sq p, extra sq p -> packet_of ms sq p.1 p.2) ->
  flow l ms so net (Some s) dl acks ->
  exists more, mDelivered k' = mDelivered k ++ (deliverOn l <$> more) /\
    flow l ms so net (Some s') (dl ++ more) acks.
Proof.
  intros [Habs _ _ Hn Hin Hout Hheld] Hex [].
  destruct fl_recv0 as (dn & rest & -> & -> & Hr). destruct (Hr s eq_refl) as [(i & Hne & Hpos) He].
  destruct Habs as [_ _ (out & Hab & Hd)].
  destruct (absorbed_position _ _ _ _ _ _ Hab dn rest i Hpos) as (more & rest' & i' & -> & -> & Hpos' & Hlen).
  { intros j p Hj. rewrite <- Hne. destruct (Hin j p Hj) as [Hd'|Hd'].
    - by apply He in Hd'.
    - by apply Hex. }
  exists (asMessage <$> more). split; [done|]. split; try done.
  - exists (dn ++ more), rest'. rewrite <- app_assoc, fmap_app. split_and!; try done.
    intros ? [= <-]. split.
    + exists i'. split; [lia|done].
    + intros sq d Hd'. rewrite <- app_assoc. destruct (Hout sq d Hd') as [Hd2|(p & -> & Hp)]; [by apply He|].
      by apply Hex in Hp.
  - intros ? d p [= <-] Hd' Hp Hk Hl ack sq Ha Hsq Hnm.
    destruct (fl_acks0 s d p eq_refl Hd' Hp Hk Hl ack sq Ha Hsq Hnm) as (? & [= <-] & ?).
    exists s'. split; [done|]. by apply Hheld.
  - intros s1 ? Hs1 [= <-] sq Hsq. destruct (fl_held0 s1 s Hs1 eq_refl sq Hsq); [by left|right]. by apply Hheld.
Qed.

(** The datagrams on the way back. *)
Lemma flow_acks ms so net ro dl acks acks' :
  (forall s d p, ro = Some s -> d ∈ acks' -> decodePacket d = Some (Some p) ->
     kind (flags (header p)) = Ack -> lane (flags (header p)) = l -> d ∈ acks \/ ack_truth (Some s) p) ->
  flow l ms so net ro dl acks -> flow l ms so net ro dl acks'.
Proof.
  intros H []. split; try done. intros s d p Hs Hd Hp Hk Hl.
  destruct (H s d p Hs Hd Hp Hk Hl) as [?|?]; [by eapply fl_acks0|done].
Qed.
End Flow.
