(* ===== verification/Protocol.v ===== *)
(** * Two links and a network

    Two endpoints exchange datagrams over a network that may lose, repeat, delay and
    reorder them.  Each endpoint is a [ReliableLink], the source it takes messages from
    and the messages its application has taken over; its actions are the calls the engine
    makes.  The theorems say what the acknowledged lanes promise end to end. *)
From S2P Require Import Prelude Double Constants ByteOrder PacketFlags PacketHeader AckRanges.
From S2P Require Import SequenceBuffer RttEstimator MessageAssembler MediaAssembler ReliableLink.
From S2P Require Import LinkStreams LinkReceive LinkWire Flow.

Import Budget Link.

(** ** The invariant of a link *)
Record link_ok (k : ReliableLink) : Prop := {
  lo_windows : windows_ok k;
  lo_recv : forall l s, mStreams k l = Some s -> recv_ok l s /\ settled s;
  lo_ids : ids_ok k;
  lo_media : is_uint 32 (mMediaReceived k);
  lo_pending : forall d p, d ∈ mPendingAcks k -> decodePacket (wire d) = Some (Some p) ->
    kind (flags (header p)) <> Data;
}.

Lemma link_buffers k : link_ok k -> buffers_ok k.
Proof.
  intros [Hw Hr _ _ _] l s Hs. split; [by apply (Hw l s Hs)|]. by destruct (Hr l s Hs) as [[] _].
Qed.

(** The stream of a lane, [None] once the link failed. *)
Definition live (l : Lane) (k : ReliableLink) : option Stream :=
  if mFailed k then None else Some (default (newStream (windowOf l)) (mStreams k l)).

Definition deliveredOn (l : Lane) (ds : list DeliveredMessage) : list AssembledMessage :=
  omap (fun d => if decide (dmLane d = l)
                 then Some {| msgTag := dmTag d; msgBody := dmBody d |} else None) ds.

Lemma deliveredOn_app l ds1 ds2 : deliveredOn l (ds1 ++ ds2) = deliveredOn l ds1 ++ deliveredOn l ds2.
Proof. apply omap_app. Qed.

Lemma deliveredOn_same l ms : deliveredOn l (deliverOn l <$> ms) = ms.
Proof.
  unfold deliveredOn. induction ms as [|m ms IH]; [done|]. simpl. rewrite decide_True by done. simpl.
  f_equal; [by destruct m|exact IH].
Qed.

Lemma deliveredOn_other l j ms : j <> l -> deliveredOn l (deliverOn j <$> ms) = [].
Proof. intros Hj. unfold deliveredOn. induction ms as [|m ms IH]; [done|]. simpl. by rewrite decide_False. Qed.

(** ** Steps that keep every flow

    [keeps k k']: whichever end of a flow the link is, and whatever the other end is. *)
Record keeps (k k' : ReliableLink) : Prop := {
  ke_ok : link_ok k -> link_ok k';
  ke_send : forall l ms net ro dl acks, link_ok k -> l <> Media ->
    flow l ms (live l k) net ro dl acks -> flow l ms (live l k') net ro dl acks;
  ke_recv : forall l ms so net dl back, link_ok k -> l <> Media ->
    flow l ms so net (live l k) (dl ++ deliveredOn l (mDelivered k)) (back ++ (wire <$> mPendingAcks k)) ->
    flow l ms so net (live l k') (dl ++ deliveredOn l (mDelivered k')) (back ++ (wire <$> mPendingAcks k'));
}.

#[global] Instance keeps_preorder : PreOrder keeps.
Proof.
  split; [done|]. intros k1 k2 k3 [O1 S1 R1] [O2 S2 R2]. split; [auto|..]; intros.
  - apply S2; auto.
  - apply R2; auto.
Qed.

Lemma live_opt_rel (R : Stream -> Stream -> Prop) l k k' :
  opt_rel R (mStreams k l) (mStreams k' l) -> (mStreams k l = None -> R (newStream (windowOf l)) (newStream (windowOf l))) ->
  mFailed k' = mFailed k ->
  match live l k, live l k' with Some s, Some s' => R s s' | None, None => True | _, _ => False end.
Proof.
  intros HR H0 Ef. unfold live. rewrite Ef. destruct (mFailed k); [done|].
  destruct (mStreams k l), (mStreams k' l); simpl in *; [done|done|done|by apply H0].
Qed.

Lemma recv_same_ok l s s' : recv_same s s' -> recv_ok l s -> settled s -> recv_ok l s' /\ settled s'.
Proof.
  intros [Er En Ep _ _] [] Hs. unfold settled in *.
  split; [split|]; unfold recv_map in *; rewrite ?Er, ?En, ?Ep in *; done.
Qed.

Lemma quiet_ok k k' : quiet k k' -> link_ok k -> link_ok k'.
Proof.
  intros Hq [Hw Hr [Hl Hre] Hm Hpe]. split.
  - by eapply quiet_windows.
  - intros l s' E. pose proof (q_streams _ _ Hq l) as H. rewrite E in H.
    destruct (mStreams k l) as [s|] eqn:Es; [|done]. destruct (Hr l s Es).
    by eapply recv_same_ok; [apply H|..].
  - split; [by rewrite (q_local _ _ Hq)|by rewrite (q_remote _ _ Hq)].
  - by rewrite (q_media _ _ Hq).
  - by rewrite (q_acks _ _ Hq).
Qed.

Lemma quiet_keeps k k' : quiet k k' -> keeps k k'.
Proof.
  intros Hq. split; [by apply quiet_ok| |].
  - intros l ms net ro dl acks _ _ H.
    pose proof (live_opt_rel stream_same l k k' (q_streams _ _ Hq l) (fun _ => reflexivity _) (q_failed _ _ Hq)) as HR.
    destruct (live l k), (live l k'); try done. eapply flow_send_same; [apply HR|done].
  - intros l ms so net dl back _ _ H. rewrite (q_delivered _ _ Hq), (q_acks _ _ Hq).
    pose proof (live_opt_rel stream_same l k k' (q_streams _ _ Hq l) (fun _ => reflexivity _) (q_failed _ _ Hq)) as HR.
    destruct (live l k), (live l k'); try done. eapply flow_recv_same; [apply HR|done].
Qed.

(** *** Failing *)
Lemma dropStream_fold ls k :
  mDelivered (fold_left dropStream ls k) = mDelivered k /\
  mLocalStreamID (fold_left dropStream ls k) = mLocalStreamID k /\
  mRemoteStreamID (fold_left dropStream ls k) = mRemoteStreamID k /\
  forall l, mStreams (fold_left dropStream ls k) l = if decide (l ∈ ls) then None else mStreams k l.
Proof.
  revert k. induction ls as [|j ls IH]; intros k; simpl; [done|].
  destruct (IH (dropStream k j)) as (-> & -> & -> & E). unfold dropStream in *.
  destruct (mStreams k j) as [s|] eqn:Ej; split_and!; try done; intros l; rewrite E; simpl.
  - repeat case_decide; try done; set_solver.
  - repeat case_decide; try done; set_solver.
Qed.

Lemma fail_keeps k : keeps k (fail k).
Proof.
  destruct (dropStream_fold StreamLanes k) as (Ed & El & Er & Es).
  split.
  - intros [Hw Hr [? ?] _ _].
    assert (Hn : forall l s, mStreams (fail k) l = Some s -> False).
    { intros l s H. change (mStreams (fail k)) with (mStreams (fold_left dropStream StreamLanes k)) in H.
      rewrite Es in H. case_decide as Hin; [done|].
      destruct (Hw l s H) as [Hl _]. destruct l; try done; by destruct Hin; set_solver. }
    split; try (intros l s H; by destruct (Hn l s)).
    + split.
      * change (mLocalStreamID (fail k)) with (mLocalStreamID (fold_left dropStream StreamLanes k)). by rewrite El.
      * change (mRemoteStreamID (fail k)) with (mRemoteStreamID (fold_left dropStream StreamLanes k)). by rewrite Er.
    + done.
    + by intros d p ?%not_elem_of_nil.
  - intros. simpl. by eapply flow_send_failed.
  - intros l ms so net dl back _ _ H. change (live l (fail k)) with (@None Stream).
    change (mDelivered (fail k)) with (mDelivered (fold_left dropStream StreamLanes k)). rewrite Ed.
    eapply flow_acks; [|by eapply flow_recv_failed]. done.
Qed.

Lemma onTimer_keeps now k : keeps k (onTimer now k).
Proof.
  split; intros; (destruct (onTimer_quiet now k) as [Hq| ->]; [by apply link_buffers|..]).
  all: first [by apply (quiet_keeps _ _ Hq) | by apply fail_keeps].
Qed.

(** *** Receiving on a lane *)
Section Received.
Context (j : Lane) (extra : Z -> packet -> Prop) (ps : list packet) (k k' : ReliableLink) (s' : Stream).
Context (Hj : j <> Media) (Hlive : mFailed k = false).
Context (Hs' : mStreams k' j = Some s') (Hother : forall i, i <> j -> mStreams k' i = mStreams k i).
Context (Hrec : receives j extra ps (default (newStream (windowOf j)) (mStreams k j)) k s'
                  (k' <| mStreams := mStreams k |>)).

Lemma received_rest : rest_same k (k' <| mStreams := mStreams k |>).
Proof. apply (rc_absorbs _ _ _ _ _ _ _ Hrec). Qed.

Lemma received_ok : link_ok k -> link_ok k'.
Proof.
  intros [Hw Hr [Hl Hre] Hm Hpe]. destruct received_rest as [_ _ El Er Ea _ Em _]. simpl in *.
  pose proof (ab_send _ _ _ _ _ _ (rc_absorbs _ _ _ _ _ _ _ Hrec)) as Hse.
  split.
  - intros i s E. destruct (decide (i = j)) as [->|Hne]; [|by rewrite Hother in E by done; apply Hw].
    rewrite Hs' in E. simplify_eq. split; [done|]. eapply window_same; [by apply send_equal_same|].
    destruct (mStreams k j) as [s0|] eqn:Es; simpl; [by apply (Hw j s0)|by apply newStream_window].
  - intros i s E. destruct (decide (i = j)) as [->|Hne]; [|by rewrite Hother in E by done; apply Hr].
    rewrite Hs' in E. simplify_eq. split; [apply Hrec|apply (rc_settled _ _ _ _ _ _ _ Hrec)].
  - split; [by rewrite El|by rewrite Er].
  - by rewrite Em.
  - by rewrite Ea.
Qed.

Lemma received_live i : i <> j -> live i k' = live i k.
Proof.
  intros Hi. unfold live. destruct received_rest as [_ Ef _ _ _ _ _ _]. simpl in Ef.
  by rewrite Ef, Hother.
Qed.

Lemma received_send l ms net ro dl acks :
  flow l ms (live l k) net ro dl acks -> flow l ms (live l k') net ro dl acks.
Proof.
  intros H. destruct (decide (l = j)) as [->|Hne]; [|by rewrite received_live].
  unfold live in *. destruct received_rest as [_ Ef _ _ _ _ _ _]. simpl in Ef. rewrite Ef, Hs'.
  destruct (mFailed k); [done|]. simpl. eapply flow_send_same; [|exact H].
  apply send_equal_same, (ab_send _ _ _ _ _ _ (rc_absorbs _ _ _ _ _ _ _ Hrec)).
Qed.

Lemma received_recv l ms so net dl back :
  (l = j -> forall sq p, extra sq p -> packet_of ms sq p.1 p.2) ->
  flow l ms so net (live l k) (dl ++ deliveredOn l (mDelivered k)) (back ++ (wire <$> mPendingAcks k)) ->
  flow l ms so net (live l k') (dl ++ deliveredOn l (mDelivered k')) (back ++ (wire <$> mPendingAcks k')).
Proof.
  intros Hex H. destruct received_rest as [_ Ef _ _ Ea _ _ _]. simpl in Ef, Ea. rewrite Ea.
  destruct (rc_absorbs _ _ _ _ _ _ _ Hrec) as [_ _ (out & _ & Ed)]. simpl in Ed.
  destruct (decide (l = j)) as [->|Hne].
  - unfold live in *. rewrite Ef, Hs'. rewrite Hlive in *. simpl. destruct (flow_received j ms so net _ s' k (k' <| mStreams := mStreams k |>) _ _ extra ps Hrec (Hex eq_refl) H)
      as (more & Em & Hf). simpl in Em. rewrite Em, deliveredOn_app, deliveredOn_same, app_assoc. done.
  - rewrite received_live by done. rewrite Ed, deliveredOn_app, deliveredOn_other, app_nil_r by done. done.
Qed.
End Received.

Lemma retryLane_received l k :
  l <> Media -> link_ok k ->
  mStreams k l = None /\ retryLane l k = k \/
  exists s' ps, mStreams (retryLane l k) l = Some s' /\
    (forall i, i <> l -> mStreams (retryLane l k) i = mStreams k i) /\
    receives l nothing ps (default (newStream (windowOf l)) (mStreams k l)) k s'
      ((retryLane l k) <| mStreams := mStreams k |>).
Proof.
  intros Hl [_ Hr _ _ _]. unfold retryLane. destruct (mStreams k l) as [s|] eqn:Es; [right|by left].
  destruct (Hr l s Es) as [Hro Hset]. pose proof (retryRefused_receives l s k Hro Hset) as H.
  destruct (retryRefused l s k) as [s1 k1]. destruct H as (ps & [[Se [Est ? ? ? ? ? ? []] Hrun] ? ? ? ? ? ?]).
  exists s1, ps. split_and!.
  - simpl. by rewrite decide_True.
  - intros i Hi. simpl. by rewrite decide_False, Est.
  - by split.
Qed.

Lemma retryLane_keeps l k : l <> Media -> mFailed k = false -> link_ok k -> keeps k (retryLane l k).
Proof.
  intros Hl Hf Hok. destruct (retryLane_received l k Hl Hok) as [[_ ->]|(s' & ps & Hs' & Ho & Hrec)]; [done|].
  split; intros.
  - by eapply received_ok.
  - by eapply received_send.
  - by eapply received_recv.
Qed.

Lemma retryLane_failed l k : link_ok k -> l <> Media -> mFailed (retryLane l k) = mFailed k.
Proof.
  intros Hok Hl. destruct (retryLane_received l k Hl Hok) as [[_ ->]|(s' & ps & Hs' & Ho & Hrec)]; [done|].
  apply (rest_failed _ _ (ab_rest _ _ _ _ _ _ (rc_absorbs _ _ _ _ _ _ _ Hrec))).
Qed.

(** *** What is decoded of a datagram *)
Lemma decoded_flags h b p :
  is_flags (flags h) -> decodePacket (encodeHeader h ++ b) = Some (Some p) ->
  flags (header p) = flags h.
Proof.
  intros Hf H. apply decodePacket_sound in H as (Hw & _ & _ & E). pose proof (wh_flags _ Hw) as Hf'.
  rewrite !encodeHeader_parts in E. unfold base_header in E.
  apply (f_equal (fun d => d !! 3%nat)) in E. cbn in E. injection E as E.
  assert (Hb : byteZ (toByte (raw (flags h))) = byteZ (toByte (raw (flags (header p))))) by by rewrite E.
  rewrite !byteZ_toByte in Hb. unfold is_flags in *. rewrite !wrap_small in Hb by done.
  destruct (flags h), (flags (header p)); simpl in *. congruence.
Qed.

(** *** Acks *)
Lemma push_keeps d k :
  mFailed k = false ->
  (forall p, decodePacket (wire d) = Some (Some p) -> kind (flags (header p)) = Ack ->
     ack_truth (mStreams k (lane (flags (header p)))) p) ->
  (forall p, decodePacket (wire d) = Some (Some p) -> kind (flags (header p)) <> Data) ->
  keeps k (k <| mPendingAcks ::= fun q => q ++ [d] |>).
Proof.
  intros Hf Hd Hnd. split.
  - intros [Hw Hr [? ?] Hm Hpe]. split; try done.
    intros x p [Hx|Hx]%elem_of_app; [by apply Hpe|]. apply list_elem_of_singleton in Hx as ->. by apply Hnd.
  - done.
  - intros l ms so net dl back _ _ H. change (live l (k <| mPendingAcks ::= _ |>)) with (live l k). simpl.
    rewrite fmap_app, app_assoc. eapply flow_acks; [|exact H].
    intros s x p Hs [Hx|Hx]%elem_of_app Hp Hk Hl; [by left|right].
    apply list_elem_of_singleton in Hx as ->. specialize (Hd p Hp Hk). rewrite Hl in Hd.
    intros ack sq Ha Hsq Hn. destruct (Hd ack sq Ha Hsq Hn) as (s0 & Es & Hh).
    unfold live in Hs. rewrite Hf, Es in Hs. simpl in Hs. simplify_eq. by exists s.
Qed.

Lemma makeAck_keeps l k :
  l <> Media -> mFailed k = false -> link_ok k ->
  let '(d, k') := makeAck l k in keeps k (k' <| mPendingAcks ::= fun q => q ++ [d] |>) /\ mFailed k' = false.
Proof.
  intros Hl Hf Hok. pose proof (retryLane_keeps l k Hl Hf Hok) as H1.
  pose proof (retryLane_failed l k Hok Hl) as Hf1. rewrite Hf in Hf1.
  pose proof (ke_ok _ _ H1 Hok) as Hok1.
  destruct (makeAck_wire l k Hl (lo_media _ Hok1) (lo_ids _ Hok1)) as (p & Hp & Hk & Hlp & _ & _ & Ht).
  { intros s Hs. by apply (lo_recv _ Hok1 l s). }
  destruct (makeAck l k) as [d k'] eqn:E. cbn [fst] in Hp.
  assert (Hq : quiet (retryLane l k) k').
  { unfold makeAck in E. cbn zeta in E. injection E as _ <-. by apply quiet_same_streams. }
  split; [|by rewrite (q_failed _ _ Hq)].
  etrans; [exact H1|]. etrans; [by apply quiet_keeps|]. apply push_keeps; [by rewrite (q_failed _ _ Hq)| |].
  2:{ intros p' Hp'. assert (p' = p) as -> by congruence. congruence. }
  intros p' Hp' _. assert (p' = p) as -> by congruence.
  assert (Es : mStreams k' = mStreams (retryLane l k)).
  { unfold makeAck in E. cbn zeta in E. by injection E as _ <-. }
  by rewrite Es, Hlp.
Qed.

Lemma buildAcks_keeps l k :
  l <> Media -> mFailed k = false -> link_ok k -> keeps k (buildAcks k l) /\ mFailed (buildAcks k l) = false.
Proof.
  intros Hl Hf Hok. unfold buildAcks.
  set (k1 := if negb (Z.land (mAckDue k) _ =? 0) then _ else k).
  assert (H1 : keeps k k1 /\ mFailed k1 = false).
  { unfold k1. destruct (negb _); [|done]. pose proof (makeAck_keeps l k Hl Hf Hok) as H.
    destruct (makeAck l k) as [d k']. done. }
  destruct H1 as [H1 Hf1]. clearbody k1. destruct (negb _); [|done]. split; [|done].
  etrans; [exact H1|]. etrans; [|apply quiet_keeps, bump_quiet].
  destruct (ping_flags_view l Hl) as (Ff & _ & Fk & _).
  assert (E : forall p, decodePacket (wire (makeDatagram (makeHeader k1 (pingFlags l) 0))) = Some (Some p) ->
            flags (header p) = pingFlags l).
  { intros p Hp. apply (decoded_flags (makeHeader k1 (pingFlags l) 0) []); [done|]. rewrite <- Hp. f_equal.
    unfold wire. rewrite <- makeDatagram_header. f_equal. }
  apply push_keeps; [done|..]; intros p Hp; rewrite (E p Hp); congruence.
Qed.

Lemma peekAck_keeps k : link_ok k -> keeps k (peekAck k).2.
Proof.
  intros Hok. unfold peekAck. destruct (mFailed k) eqn:Hf; [done|]. cbn [snd].
  case_bool_decide; [|done].
  assert (Hfold : forall ls k, Forall (fun l => l <> Media) ls -> mFailed k = false -> link_ok k ->
            keeps k (fold_left buildAcks ls k)).
  { clear. induction ls as [|l ls IH]; intros k Hls Hf Hok; simpl; [done|].
    apply Forall_cons in Hls as [Hl Hls]. destruct (buildAcks_keeps l k Hl Hf Hok) as [H1 Hf1].
    etrans; [exact H1|]. apply IH; [done|done|]. by apply H1. }
  etrans; [apply (Hfold StreamLanes); [by repeat constructor|done|done]|].
  generalize (fold_left buildAcks StreamLanes k). intros k1. by apply quiet_keeps, quiet_same_streams.
Qed.

(** An Ack that goes out was among those that wait. *)
Lemma peekAck_head k d : (peekAck k).1 = Some d -> mPendingAcks (peekAck k).2 !! 0%nat = Some d.
Proof.
  unfold peekAck. destruct (mFailed k); [done|]. cbn [fst snd].
  set (k1 := if bool_decide _ then _ else k). clearbody k1. by destruct (mPendingAcks k1).
Qed.

(** *** The remaining calls *)
Lemma setPaused_keeps b k : keeps k (setPaused b k).
Proof.
  unfold setPaused. destruct (eqb _ _); [done|].
  etrans; [apply quiet_keeps; by apply (quiet_same_streams k (k <| mPaused := b |>))|].
  generalize (k <| mPaused := b |>). intros k1. generalize [Reliable; Bulk]. intros ls. revert k1.
  induction ls as [|l ls IH]; intros k1; simpl; [done|].
  etrans; [|apply IH]. destruct (existingStream k1 l); [|done]. by apply quiet_keeps, quiet_same_streams.
Qed.

Lemma budget_keeps b k : keeps k (k <| mBudget := b |>).
Proof.
  split; try done. intros [Hw Hr [? ?] Hm ?]. by split.
Qed.

(** *** Sending on a lane *)
Section SetStream.
Context (j : Lane) (k : ReliableLink) (s' : Stream).
Context (Hj : j <> Media) (Hsame : recv_same (default (newStream (windowOf j)) (mStreams k j)) s').

Lemma setStream_ok : window_ok j s' -> link_ok k -> link_ok (setStream j s' k).
Proof.
  intros Hws [Hw Hr [? ?] Hm ?]. split; [by apply setStream_windows| |by split|done|done].
  intros l s. simpl. case_decide; [subst|by apply Hr]. intros [= <-].
  eapply recv_same_ok; [exact Hsame|..];
    (destruct (mStreams k j) as [s0|] eqn:Es; simpl; [by apply (Hr j s0)|by apply newStream_recv]).
Qed.

Lemma setStream_live l : l <> j -> live l (setStream j s' k) = live l k.
Proof. intros Hl. unfold live. simpl. by rewrite decide_False. Qed.

Lemma setStream_recv l ms so net dl back :
  flow l ms so net (live l k) dl back -> flow l ms so net (live l (setStream j s' k)) dl back.
Proof.
  destruct (decide (l = j)) as [->|Hne]; [|by rewrite setStream_live].
  unfold live. simpl. destruct (mFailed k); [done|]. rewrite decide_True by done. simpl.
  by apply flow_recv_same.
Qed.
End SetStream.

Lemma window_default l k :
  l <> Media -> windows_ok k -> window_ok l (default (newStream (windowOf l)) (mStreams k l)).
Proof.
  intros Hl Hw. destruct (mStreams k l) as [s|] eqn:E; simpl; [by apply (Hw l s)|by apply newStream_window].
Qed.

Lemma took_ok l m k k' : l <> Media -> took l m k k' -> link_ok k -> link_ok k'.
Proof.
  intros Hl [_ Hq] Hok. eapply quiet_ok; [exact Hq|]. apply setStream_ok; [done|done| |done].
  pose proof (window_default l k Hl (lo_windows _ Hok)) as []. by split.
Qed.

(** Taking a message adds it to the flow of its lane and leaves the other flows alone. *)
Lemma took_send j m k k' l ms net ro dl acks :
  j <> Media -> mFailed k = false -> message_ok j m -> link_ok k -> took j m k k' -> l <> Media ->
  flow l ms (live l k) net ro dl acks ->
  flow l (ms ++ if decide (l = j) then [m] else []) (live l k') net ro dl acks.
Proof.
  intros Hj Hf Hm Hok [Hc Hq] Hl H. set (s0 := default (newStream (windowOf j)) (mStreams k j)) in *.
  apply (ke_send _ _ (quiet_keeps _ _ Hq)); [|done|].
  - apply setStream_ok; [done|done| |done]. pose proof (window_default j k Hj (lo_windows _ Hok)) as []. by split.
  - case_decide as E.
    + subst l. unfold live in *. simpl. rewrite Hf in *. rewrite decide_True by done. simpl. by apply flow_took.
    + rewrite app_nil_r, setStream_live by done. done.
Qed.

Lemma took_recv j m k k' l ms so net dl back :
  j <> Media -> link_ok k -> took j m k k' -> l <> Media ->
  flow l ms so net (live l k) (dl ++ deliveredOn l (mDelivered k)) (back ++ (wire <$> mPendingAcks k)) ->
  flow l ms so net (live l k') (dl ++ deliveredOn l (mDelivered k')) (back ++ (wire <$> mPendingAcks k')).
Proof.
  intros Hj Hok [Hc Hq] Hl H. set (s0 := default (newStream (windowOf j)) (mStreams k j)) in *.
  apply (ke_recv _ _ (quiet_keeps _ _ Hq)); [|done|].
  - apply setStream_ok; [done|done| |done]. pose proof (window_default j k Hj (lo_windows _ Hok)) as []. by split.
  - by apply setStream_recv.
Qed.

(** A datagram of [offer] carries the flags of its header. *)
Lemma data_decoded_flags k j sq e p :
  decodePacket (wire (datagramOf (headerOf k j sq e) e)) = Some (Some p) ->
  kind (flags (header p)) = Data /\ lane (flags (header p)) = j.
Proof.
  intros Hp. unfold wire in Hp. rewrite datagramOf_header in Hp.
  assert (Hfl : exists fr last, flags (headerOf k j sq e) = lane_flags j fr last).
  { unfold headerOf. destruct (1 <? ifFragCount e).
    - by exists true, (ifFragIndex e + 1 =? ifFragCount e).
    - by exists false, false. }
  destruct Hfl as (fr & last & Hfl). destruct (lane_flags_view j fr last) as (Ff & _ & Fk & Fl & _).
  rewrite <- Hfl in *. apply decoded_flags in Hp; [|done]. by rewrite Hp.
Qed.

Lemma quiet_headerOf k k' l sq e : quiet k k' -> headerOf k' l sq e = headerOf k l sq e.
Proof. intros Hq. unfold headerOf, makeHeader. by rewrite (q_local _ _ Hq), (q_remote _ _ Hq). Qed.

(** The commit of a datagram: it joins the network, and the flow of its lane knows it. *)
Lemma commit_send j now k d l ms net ro dl acks :
  j <> Media -> mFailed k = false -> link_ok k -> peeked j k d ->
  (forall s, mStreams k j = Some s -> nextSendSeq s < 2 ^ 63) -> l <> Media ->
  flow l ms (live l k) net ro dl acks ->
  flow l ms (live l (commit j now k)) (net ++ [wire d]) ro dl acks.
Proof.
  intros Hj Hf Hok Hp Hlim Hl H. destruct (commit_spec j now k d Hj (lo_windows _ Hok) Hp) as (s & Es & Hc).
  destruct (lo_windows _ Hok j s Es) as [_ Hws].
  destruct (nextLost s).1 as [[sq e]|].
  - destruct Hc as (-> & Hsm & Hq). apply (ke_send _ _ (quiet_keeps _ _ Hq)); [done|done|].
    destruct (decide (l = j)) as [->|Hne].
    + assert (Hlive : live j k = Some s) by (unfold live; by rewrite Hf, Es). rewrite Hlive in *.
      destruct (si_entries _ _ (fl_send _ _ _ _ _ _ _ H s eq_refl) sq _ Hsm) as (m & i & Hz & Ee).
      pose proof (wo_range j s Hws sq ltac:(by rewrite Hsm)) as Hrg.
      eapply flow_net_data; [apply Hok|exact Hz|done| |done]. destruct Hws. lia.
    + apply flow_net_other; [|done]. intros x p Hx Hp' _. apply list_elem_of_singleton in Hx as ->.
      apply data_decoded_flags in Hp' as [_ ->]. done.
  - destruct Hc as (c & Hcur & Hroom & -> & Hq).
    destruct (sentStream_window j s c Hws Hroom (Hlim s Es)) as [Hw' _].
    apply (ke_send _ _ (quiet_keeps _ _ Hq)); [|done|].
    + apply setStream_ok; [done| |done|done]. rewrite Es. by simpl.
    + destruct (decide (l = j)) as [->|Hne].
      * assert (Hlive : live j k = Some s) by (unfold live; by rewrite Hf, Es). rewrite Hlive in *.
        destruct (flow_sent j ms s net ro dl acks c Hcur Hws Hroom (Hlim s Es) H) as (H' & m & i & Hz & Ee).
        assert (Hlive' : live j (setStream j (sentStream s c) k) = Some (sentStream s c)).
        { unfold live. simpl. rewrite Hf, decide_True by done. done. }
        rewrite Hlive'. eapply flow_net_data; [apply Hok|exact Hz|by rewrite fragmentAt_content| |done].
        specialize (Hlim s Es). destruct Hws. lia.
      * rewrite setStream_live by done. apply flow_net_other; [|done].
        intros x p Hx Hp' _. apply list_elem_of_singleton in Hx as ->.
        apply data_decoded_flags in Hp' as [_ ->]. done.
Qed.

Lemma commit_recv j now k d l ms so net dl back :
  j <> Media -> link_ok k -> peeked j k d -> (forall s, mStreams k j = Some s -> nextSendSeq s < 2 ^ 63) ->
  l <> Media ->
  flow l ms so net (live l k) (dl ++ deliveredOn l (mDelivered k)) (back ++ (wire <$> mPendingAcks k)) ->
  flow l ms so net (live l (commit j now k)) (dl ++ deliveredOn l (mDelivered (commit j now k)))
    ((back ++ [wire d]) ++ (wire <$> mPendingAcks (commit j now k))).
Proof.
  intros Hj Hok Hp Hlim Hl H. destruct (commit_spec j now k d Hj (lo_windows _ Hok) Hp) as (s & Es & Hc).
  destruct (lo_windows _ Hok j s Es) as [_ Hws].
  assert (Hout : forall k', flow l ms so net (live l k') (dl ++ deliveredOn l (mDelivered k')) (back ++ (wire <$> mPendingAcks k')) ->
    flow l ms so net (live l k') (dl ++ deliveredOn l (mDelivered k')) ((back ++ [wire d]) ++ (wire <$> mPendingAcks k'))).
  { intros k' H'. eapply flow_acks; [|exact H']. intros s1 x p _ Hx Hpx Hk _. left.
    rewrite !elem_of_app in Hx. rewrite elem_of_app. destruct Hx as [[?|Hx]|?]; [by left| |by right].
    exfalso. apply list_elem_of_singleton in Hx as ->.
    assert (kind (flags (header p)) = Data); [|congruence].
    destruct (nextLost s).1 as [[sq e]|].
    - destruct Hc as (-> & _). by apply data_decoded_flags in Hpx as [-> _].
    - destruct Hc as (c & _ & _ & -> & _). by apply data_decoded_flags in Hpx as [-> _]. }
  apply Hout. destruct (nextLost s).1 as [[sq e]|].
  - destruct Hc as (_ & _ & Hq). by apply (ke_recv _ _ (quiet_keeps _ _ Hq)).
  - destruct Hc as (c & Hcur & Hroom & _ & Hq).
    destruct (sentStream_window j s c Hws Hroom (Hlim s Es)) as [Hw' _].
    apply (ke_recv _ _ (quiet_keeps _ _ Hq)); [|done|].
    + apply setStream_ok; [done| |done|done]. rewrite Es. by simpl.
    + apply setStream_recv; [|done]. rewrite Es. by simpl.
Qed.

Lemma commit_ok j now k d :
  j <> Media -> link_ok k -> peeked j k d -> (forall s, mStreams k j = Some s -> nextSendSeq s < 2 ^ 63) ->
  link_ok (commit j now k).
Proof.
  intros Hj Hok Hp Hlim. destruct (commit_spec j now k d Hj (lo_windows _ Hok) Hp) as (s & Es & Hc).
  destruct (lo_windows _ Hok j s Es) as [_ Hws]. destruct (nextLost s).1 as [[sq e]|].
  - destruct Hc as (_ & _ & Hq). by eapply quiet_ok.
  - destruct Hc as (c & Hcur & Hroom & _ & Hq). eapply quiet_ok; [exact Hq|].
    apply setStream_ok; [done| | |done]; [rewrite Es; by simpl|]. by apply sentStream_window; [..|apply Hlim].
Qed.

(** *** A packet arrives *)
Lemma remote_keeps k r now :
  is_uint 32 r ->
  keeps k (let k := k <| mRemoteStreamID := Some r |> in
           match mLastReceived k with Some _ => k <| mLastReceived := Some now |> | None => k end).
Proof.
  intros Hr. cbn zeta. set (k1 := k <| mRemoteStreamID := Some r |>).
  trans k1.
  - split; try done. intros [? ? [? ?] ? ?]. by split.
  - destruct (mLastReceived k1); [|done]. by apply quiet_keeps, quiet_same_streams.
Qed.

Lemma handleMedia_keeps h b k : keeps k (handleMedia h b k).
Proof.
  unfold handleMedia. cbn zeta.
  set (k1 := bump mediaReceived (k <| mMediaReceived ::= _ |>)).
  assert (H1 : keeps k k1).
  { split; try done. intros [? ? [? ?] ? ?]. split; try done. simpl. apply wrap_bounds. lia. }
  destruct (MediaAsm.accept _ h b) as [[m|] asm].
  2:{ etrans; [exact H1|]. by apply quiet_keeps, quiet_same_streams. }
  etrans; [exact H1|]. split; try done.
  - intros [? ? [? ?] ? ?]. by split.
  - intros l ms so net dl back _ Hl H.
    set (k2 := bump delivered _). change (live l k2) with (live l k1). change (mPendingAcks k2) with (mPendingAcks k1).
    assert (E : mDelivered k2 = mDelivered k1 ++ (deliverOn Media <$> [m])) by done.
    rewrite E, deliveredOn_app, deliveredOn_other, app_nil_r by done. done.
Qed.

(** [onPacket] once the packet is known to belong to the link. *)
Definition dispatch (p : DecodedPacket) (now : TimePoint) (k : ReliableLink) : ReliableLink :=
  let h := header p in
  let l := lane (flags h) in
  match kind (flags h) with
  | Data => if decide (l = Media) then handleMedia h (body p) k else handleData l h (body p) k
  | Ack => match existingStream k l with Some _ => handleAck l h (body p) now k | None => k end
  | Ping => raise mAckDue l k
  | KBeacon => k
  end.

Lemma onPacket_cases p now k :
  wire_header (header p) ->
  keeps k (onPacket p now k) \/
  exists k1, keeps k k1 /\ mFailed k = false /\ mFailed k1 = false /\ onPacket p now k = dispatch p now k1.
Proof.
  intros Hw. unfold onPacket. destruct (mFailed k) eqn:Hf; [by left|].
  destruct (_ || _); [left; apply quiet_keeps, bump_quiet|]. right.
  eexists. split; [apply (remote_keeps k (srcStreamID (header p)) now), Hw|]. split_and!; try done.
  cbn zeta. simpl. by destruct (mLastReceived k).
Qed.

Lemma kind_cases p :
  kind (flags (header p)) = Data \/ kind (flags (header p)) = Ack \/
  kind (flags (header p)) = Ping \/ kind (flags (header p)) = KBeacon.
Proof. destruct (kind (flags (header p))); auto. Qed.

Section Dispatch.
Context (p : DecodedPacket) (now : TimePoint) (k : ReliableLink).
Context (Hok : link_ok k) (Hlive : mFailed k = false).
Context (Hwire : wire_header (header p)).
Context (Hseq : kind (flags (header p)) = Data -> lane (flags (header p)) <> Media ->
           seq (header p) < 2 ^ 63).

Lemma ack_not_media : kind (flags (header p)) = Ack -> lane (flags (header p)) <> Media.
Proof.
  intros Hk. pose proof (wh_valid _ Hwire) as Hv. unfold isValid in Hv. rewrite Hk in Hv.
  intros E. rewrite E in Hv. by repeat case_match.
Qed.

Lemma dispatch_data :
  kind (flags (header p)) = Data -> lane (flags (header p)) <> Media ->
  exists s' ps, received (lane (flags (header p))) (header p) (body p)
    (default (newStream (windowOf (lane (flags (header p))))) (mStreams k (lane (flags (header p))))) s' k
    (dispatch p now k) ps.
Proof.
  intros Hk Hl. unfold dispatch. rewrite Hk, decide_False by done. apply handleData_spec; [done| |auto].
  intros s Hs. by apply (lo_recv _ Hok).
Qed.

(** The effect on the lane of an Ack, and that there is none elsewhere. *)
Lemma dispatch_ack :
  kind (flags (header p)) = Ack ->
  dispatch p now k = k \/ exists s ack, mStreams k (lane (flags (header p))) = Some s /\
    decodeAck (body p) = Some (Some ack) /\
    link_rel (on_lane (lane (flags (header p))) (acknowledged (lane (flags (header p)))
      (ack_names (seq (header p)) (ranges ack) (sendBase s) (nextSendSeq s - 1)))) k (dispatch p now k).
Proof.
  intros Hk. unfold dispatch. rewrite Hk. unfold existingStream.
  destruct (mStreams k (lane (flags (header p)))) as [s|] eqn:Es; [|by left].
  pose proof (handleAck_spec (lane (flags (header p))) (header p) (body p) now k
    (link_buffers _ Hok) (lo_windows _ Hok)) as H. rewrite Es in H.
  destruct (decodeAck (body p)) as [[ack|]|]; [|by left..]. right. by exists s, ack.
Qed.

Lemma acked_ok l A k' : link_rel (on_lane l (acknowledged l A)) k k' -> link_ok k'.
Proof.
  intros [Q ? ? El Er ? Ea ? Em]. destruct Hok as [Hw Hr [? ?] ? ?].
  split; [..|split; [by rewrite El|by rewrite Er]|by rewrite Em|by rewrite Ea].
  - intros j s' E. specialize (Q j). rewrite E in Q. destruct (mStreams k j) as [s|] eqn:Es; [|done].
    destruct (Hw j s Es) as [? ?]. split; [done|]. simpl in Q. unfold on_lane in Q. case_decide.
    + subst. by apply (ak_window _ _ _ _ Q).
    + by eapply window_same; [apply Q|].
  - intros j s' E. specialize (Q j). rewrite E in Q. destruct (mStreams k j) as [s|] eqn:Es; [|done].
    destruct (Hr j s Es). simpl in Q. unfold on_lane in Q. case_decide.
    + by eapply recv_same_ok; [apply Q|..].
    + by eapply recv_same_ok; [apply Q|..].
Qed.

Lemma dispatch_ok : link_ok (dispatch p now k).
Proof.
  destruct (kind_cases p) as [Hk|[Hk|[Hk|Hk]]].
  - destruct (decide (lane (flags (header p)) = Media)) as [E|E].
    + unfold dispatch. rewrite Hk, decide_True by done. by apply (ke_ok _ _ (handleMedia_keeps _ _ _)).
    + destruct (dispatch_data Hk E) as (s' & ps & Hs' & Ho & Hrec). by eapply received_ok.
  - destruct (dispatch_ack Hk) as [-> |(s & ack & _ & _ & H)]; [done|]. by eapply acked_ok.
  - unfold dispatch. rewrite Hk. apply (ke_ok k); [|done]. by apply quiet_keeps, quiet_same_streams.
  - unfold dispatch. by rewrite Hk.
Qed.

(** As the sender of a flow: only an Ack on its lane matters. *)
Lemma dispatch_send l ms net ro dl acks d :
  l <> Media -> d ∈ acks -> decodePacket d = Some (Some p) ->
  flow l ms (live l k) net ro dl acks -> flow l ms (live l (dispatch p now k)) net ro dl acks.
Proof.
  intros Hl Hd Hp H. destruct (kind_cases p) as [Hk|[Hk|[Hk|Hk]]].
  - destruct (decide (lane (flags (header p)) = Media)) as [E|E].
    + unfold dispatch. rewrite Hk, decide_True by done. by apply (ke_send _ _ (handleMedia_keeps _ _ _)).
    + destruct (dispatch_data Hk E) as (s' & ps & Hs' & Ho & Hrec). by eapply received_send.
  - destruct (dispatch_ack Hk) as [-> |(s & ack & Es & Hack & HR)]; [done|].
    pose proof (q_streams _ _ HR l) as Q. unfold on_lane in Q. unfold live in *.
    rewrite (q_failed _ _ HR), Hlive in *. case_decide as El.
    + subst l. rewrite Es in *. destruct (mStreams (dispatch p now k) _) as [s'|]; [|done].
      simpl in *. eapply flow_acked; try done. by apply (lo_windows _ Hok _ s).
    + destruct (mStreams k l), (mStreams (dispatch p now k) l); simpl in *; try done.
      eapply flow_send_same; [apply Q|done].
  - unfold dispatch. rewrite Hk. apply (ke_send k); try done. by apply quiet_keeps, quiet_same_streams.
  - unfold dispatch. by rewrite Hk.
Qed.

(** As the receiver of a flow: a Data packet of the flow is received. *)
Lemma dispatch_recv l ms so net dl back d :
  l <> Media -> d ∈ net -> decodePacket d = Some (Some p) ->
  flow l ms so net (live l k) (dl ++ deliveredOn l (mDelivered k)) (back ++ (wire <$> mPendingAcks k)) ->
  flow l ms so net (live l (dispatch p now k)) (dl ++ deliveredOn l (mDelivered (dispatch p now k)))
    (back ++ (wire <$> mPendingAcks (dispatch p now k))).
Proof.
  intros Hl Hd Hp H. destruct (kind_cases p) as [Hk|[Hk|[Hk|Hk]]].
  - destruct (decide (lane (flags (header p)) = Media)) as [E|E].
    + unfold dispatch. rewrite Hk, decide_True by done. by apply (ke_recv _ _ (handleMedia_keeps _ _ _)).
    + destruct (dispatch_data Hk E) as (s' & ps & Hs' & Ho & Hrec). eapply received_recv; try done.
      intros ->. intros sq [h b] [-> [= -> ->]]. simpl. by eapply (fl_net _ _ _ _ _ _ _ H).
  - destruct (dispatch_ack Hk) as [-> |(s & ack & Es & Hack & HR)]; [done|].
    rewrite (q_delivered _ _ HR), (q_acks _ _ HR).
    pose proof (q_streams _ _ HR l) as Q. unfold on_lane in Q. unfold live in *.
    rewrite (q_failed _ _ HR), Hlive in *.
    destruct (mStreams k l) as [s0|] eqn:E0, (mStreams (dispatch p now k) l) as [s'|]; simpl in *; try done.
    eapply flow_recv_same; [|exact H]. case_decide; apply Q.
  - unfold dispatch. rewrite Hk. apply (ke_recv k); try done. by apply quiet_keeps, quiet_same_streams.
  - unfold dispatch. by rewrite Hk.
Qed.
End Dispatch.

(** ** Endpoints

    What the link relies on: a source hands out messages within the limits of their lane. *)
Class ValidSource (S : Type) `{!MessageSource S} : Prop :=
  next_valid : forall st l m st', next st l = (Some m, st') -> message_ok l m.

Section System.
Context {S : Type} `{!MessageSource S} `{!ValidSource S}.

(** A source that remembers what it handed out. *)
Record Logged := mkLogged { origin : S; taken : list (Lane * OutboundMessage) }.
#[global] Instance Logged_source : MessageSource Logged := fun st l =>
  let '(m, o) := next (origin st) l in
  (m, {| origin := o; taken := taken st ++ match m with Some m => [(l, m)] | None => [] end |}).

Record Endpoint := mkEndpoint {
  link : ReliableLink;
  source : Logged;
  applied : list DeliveredMessage;
}.
#[global] Instance Endpoint_eta : Eta Endpoint := fun e => mkEndpoint (link e) (source e) (applied e).

Definition takenOn (l : Lane) (e : Endpoint) : list OutboundMessage :=
  omap (fun x => if decide (x.1 = l) then Some x.2 else None) (taken (source e)).

(** Everything of a lane the endpoint handed to its application, or is about to. *)
Definition receivedOn (l : Lane) (e : Endpoint) : list AssembledMessage :=
  deliveredOn l (applied e ++ mDelivered (link e)).

(** What an endpoint does on its own, and the datagrams it sends.  A lane carries fewer
    than 2^63 packets. *)
Inductive acts : Endpoint -> Endpoint -> list bytes -> Prop :=
| act_send l now e d k src :
    peek l (link e) (source e) = (Some d, k, src) ->
    (forall s, mStreams k l = Some s -> nextSendSeq s < 2 ^ 63) ->
    acts e {| link := commit l now k; source := src; applied := applied e |} [wire d]
| act_peek l e o k src :
    peek l (link e) (source e) = (o, k, src) ->
    acts e {| link := k; source := src; applied := applied e |} []
| act_sendAck e d :
    (peekAck (link e)).1 = Some d ->
    acts e (e <| link := commitAck (peekAck (link e)).2 |>) [wire d]
| act_peekAck e : acts e (e <| link := (peekAck (link e)).2 |>) []
| act_timer now e : acts e (e <| link ::= onTimer now |>) []
| act_pause b e : acts e (e <| link ::= setPaused b |>) []
| act_supervise now e : acts e (e <| link ::= supervise now |>) []
| act_take e :
    acts e (e <| applied ::= fun q => q ++ (takeDelivered (link e)).1 |>
              <| link := (takeDelivered (link e)).2 |>) []
| act_budget b e : acts e (e <| link ::= fun k => k <| mBudget := b |> |>) [].

Definition flow_between (l : Lane) (snd rcv : Endpoint) (net back : list bytes) : Prop :=
  flow l (takenOn l snd) (live l (link snd)) net (live l (link rcv)) (receivedOn l rcv)
    (back ++ (wire <$> mPendingAcks (link rcv))).

(** The log of a source over a [peek]. *)
Lemma logged_next l st m st' :
  next st l = (m, st') -> taken st' = taken st ++ match m with Some m => [(l, m)] | None => [] end /\
  (forall x, m = Some x -> message_ok l x).
Proof.
  unfold next, Logged_source. destruct (next (origin st) l) as [r o] eqn:E. intros [= <- <-].
  split; [done|]. intros x ->. by eapply next_valid.
Qed.

Definition takenIn (l : Lane) (st : Logged) : list OutboundMessage :=
  omap (fun x => if decide (x.1 = l) then Some x.2 else None) (taken st).

Lemma takenIn_app l st st' j m :
  taken st' = taken st ++ match m with Some m => [(j, m)] | None => [] end ->
  takenIn l st' = takenIn l st ++ match m with Some m => if decide (l = j) then [m] else [] | None => [] end.
Proof.
  intros E. unfold takenIn. rewrite E, omap_app. f_equal. destruct m as [m|]; [|done]. simpl.
  repeat case_decide; subst; done.
Qed.

(** The effect of a [peek] on the flows of the endpoint. *)
Lemma peek_endpoint j k st o k' st' :
  link_ok k -> peek j k st = (o, k', st') ->
  link_ok k' /\ mFailed k' = mFailed k /\
  (forall l ms net ro dl acks, l <> Media -> ms = takenIn l st ->
    flow l ms (live l k) net ro dl acks -> flow l (takenIn l st') (live l k') net ro dl acks) /\
  (forall l ms so net dl back, l <> Media ->
    flow l ms so net (live l k) (dl ++ deliveredOn l (mDelivered k)) (back ++ (wire <$> mPendingAcks k)) ->
    flow l ms so net (live l k') (dl ++ deliveredOn l (mDelivered k')) (back ++ (wire <$> mPendingAcks k'))).
Proof.
  intros Hok Hpeek.
  assert (Hquiet : quiet k k' -> (forall l, l <> Media -> takenIn l st' = takenIn l st) ->
    link_ok k' /\ mFailed k' = mFailed k /\
    (forall l ms net ro dl acks, l <> Media -> ms = takenIn l st ->
      flow l ms (live l k) net ro dl acks -> flow l (takenIn l st') (live l k') net ro dl acks) /\
    (forall l ms so net dl back, l <> Media ->
      flow l ms so net (live l k) (dl ++ deliveredOn l (mDelivered k)) (back ++ (wire <$> mPendingAcks k)) ->
      flow l ms so net (live l k') (dl ++ deliveredOn l (mDelivered k')) (back ++ (wire <$> mPendingAcks k')))).
  { intros Hq Ht. pose proof (quiet_keeps _ _ Hq) as Hk. split_and!.
    - by apply Hk.
    - apply Hq.
    - intros l ms net ro dl acks Hl -> H. rewrite Ht by done. by apply Hk.
    - intros. by apply Hk. }
  assert (Hnone : next st j = (None, st') -> forall l, takenIn l st' = takenIn l st).
  { intros E l. apply logged_next in E as [E _]. rewrite (takenIn_app l st st' j None E). by rewrite app_nil_r. }
  destruct (decide (j = Media)) as [->|Hj].
  - apply Hquiet.
    + unfold peek in Hpeek. destruct (mFailed k); [by simplify_eq|]. rewrite decide_True in Hpeek by done.
      pose proof (peekMedia_quiet k st) as Hq. by rewrite Hpeek in Hq.
    + intros l Hl. unfold peek in Hpeek. destruct (mFailed k); [by simplify_eq|].
      rewrite decide_True in Hpeek by done. unfold peekMedia in Hpeek.
      destruct (mMediaCursor k) as [c|]; [by simplify_eq/=|].
      destruct (next st Media) as [[m|] st1] eqn:E; simplify_eq/=; [|by apply Hnone].
      apply logged_next in E as [E _]. rewrite (takenIn_app l st st' Media (Some m) E).
      by rewrite decide_False, app_nil_r.
  - pose proof (peek_spec j k st Hj (lo_windows _ Hok)) as H. rewrite Hpeek in H.
    destruct o as [d|].
    + destruct H as (Hf & _ & [[-> Hq]|(m & Em & Ht)]); [by apply Hquiet|].
      apply logged_next in Em as [Em Hv]. specialize (Hv m eq_refl). split_and!.
      * by eapply took_ok.
      * destruct Ht as [_ Hq]. apply Hq.
      * intros l ms net ro dl acks Hl -> H. rewrite (takenIn_app l st st' j (Some m) Em).
        by apply (took_send j m k).
      * intros. by eapply (took_recv j m k).
    + destruct H as [Hq [-> |E]]; apply Hquiet; auto.
Qed.

Lemma peek_peeked j k st d k' st' :
  j <> Media -> link_ok k -> peek j k st = (Some d, k', st') -> mFailed k = false /\ peeked j k' d.
Proof.
  intros Hj Hok Hp. pose proof (peek_spec j k st Hj (lo_windows _ Hok)) as H. rewrite Hp in H. tauto.
Qed.

(** What [peekMedia] offers is Data of the lane Media. *)
Lemma peekMedia_flags k st d k' st' :
  peek Media k st = (Some d, k', st') ->
  forall p, decodePacket (wire d) = Some (Some p) ->
    kind (flags (header p)) = Data /\ lane (flags (header p)) = Media.
Proof.
  intros H p Hp. unfold peek in H. destruct (mFailed k); [done|]. rewrite decide_True in H by done.
  unfold peekMedia, offer in H. destruct (mMediaCursor k) as [c|].
  - injection H as <- _ _. exact (data_decoded_flags _ _ _ _ _ Hp).
  - destruct (next st Media) as [[m|] st1]; [|done]. injection H as <- _ _.
    exact (data_decoded_flags _ _ _ _ _ Hp).
Qed.

Lemma takenOn_in l e : takenOn l e = takenIn l (source e).
Proof. done. Qed.

Lemma receivedOn_split l e : receivedOn l e = deliveredOn l (applied e) ++ deliveredOn l (mDelivered (link e)).
Proof. apply deliveredOn_app. Qed.

(** *** An action of the sender of a flow *)
Lemma keeps_sender l e e' rcv net back :
  keeps (link e) (link e') -> source e' = source e -> link_ok (link e) -> l <> Media ->
  flow_between l e rcv net back -> flow_between l e' rcv net back.
Proof.
  intros Hk Hs Hok Hl H. unfold flow_between in *. rewrite takenOn_in, Hs. by apply Hk.
Qed.

Lemma keeps_receiver l snd e e' net back :
  keeps (link e) (link e') -> applied e' = applied e -> link_ok (link e) -> l <> Media ->
  flow_between l snd e net back -> flow_between l snd e' net back.
Proof.
  intros Hk Ha Hok Hl H. unfold flow_between in *. rewrite receivedOn_split in *. rewrite Ha. by apply Hk.
Qed.


Lemma supervise_keeps now k : keeps k (supervise now k).
Proof. by apply quiet_keeps, quiet_same_streams. Qed.

Lemma commitMedia_keeps now k : keeps k (commit Media now k).
Proof. unfold commit. rewrite decide_True by done. apply quiet_keeps, commitMedia_quiet. Qed.

Lemma commitAck_ok k : link_ok k -> link_ok (commitAck k).
Proof.
  intros [? ? [? ?] ? Hpe]. split; try done. intros d p Hd. apply Hpe. simpl in Hd.
  destruct (mPendingAcks k); [done|by right].
Qed.

Lemma acts_ok e e' out : acts e e' out -> link_ok (link e) -> link_ok (link e').
Proof.
  intros Ha Hok. destruct Ha as [l now e d k src Hp Hlim|l e o k src Hp|e d Hd|e|now e|b e|now e|e|b e]; simpl.
  - destruct (peek_endpoint l _ _ _ _ _ Hok Hp) as (Hok' & _).
    destruct (decide (l = Media)) as [->|Hl]; [by apply (commitMedia_keeps now k)|].
    destruct (peek_peeked l _ _ _ _ _ Hl Hok Hp) as [_ Hpk]. by eapply commit_ok.
  - by destruct (peek_endpoint l _ _ _ _ _ Hok Hp) as (Hok' & _).
  - by apply commitAck_ok, peekAck_keeps.
  - by apply peekAck_keeps.
  - by apply onTimer_keeps.
  - by apply setPaused_keeps.
  - by apply supervise_keeps.
  - destruct Hok as [? ? [? ?] ? ?]. by split.
  - by apply budget_keeps.
Qed.

Lemma flow_net_nil l ms so net ro dl acks : flow l ms so net ro dl acks -> flow l ms so (net ++ []) ro dl acks.
Proof. by rewrite app_nil_r. Qed.

(** The actions of the sender. *)
Lemma acts_sender l e e' out rcv net back :
  acts e e' out -> link_ok (link e) -> l <> Media ->
  flow_between l e rcv net back -> flow_between l e' rcv (net ++ out) back.
Proof.
  intros Ha Hok Hl H. unfold flow_between in *.
  destruct Ha as [j now e d k src Hp Hlim|j e o k src Hp|e d Hd|e|now e|b e|now e|e|b e];
    rewrite ?app_nil_r; rewrite takenOn_in in *; cbn [link source] in *.
  - destruct (peek_endpoint j _ _ _ _ _ Hok Hp) as (Hok' & Hf & Hs & _).
    specialize (Hs l _ _ _ _ _ Hl eq_refl H). destruct (decide (j = Media)) as [->|Hj].
    + apply (ke_send k (commit Media now k)); [apply commitMedia_keeps|done|done|].
      apply flow_net_other; [|done]. intros x p Hx Hpx _. apply list_elem_of_singleton in Hx as ->.
      destruct (peekMedia_flags _ _ _ _ _ Hp p Hpx) as [_ ->]. done.
    + destruct (peek_peeked j _ _ _ _ _ Hj Hok Hp) as [Hfk Hpk]. rewrite <- Hf in Hfk. by eapply commit_send.
  - destruct (peek_endpoint j _ _ _ _ _ Hok Hp) as (_ & _ & Hs & _). by apply (Hs l _ _ _ _ _ Hl eq_refl).
  - apply flow_net_other.
    + intros x p Hx Hpx Hk _. apply list_elem_of_singleton in Hx as ->.
      pose proof (ke_ok _ _ (peekAck_keeps _ Hok) Hok) as Hok'.
      apply peekAck_head, list_elem_of_lookup_2 in Hd. by apply (lo_pending _ Hok' d p Hd Hpx).
    + by apply (ke_send _ _ (peekAck_keeps _ Hok)).
  - by apply (ke_send _ _ (peekAck_keeps _ Hok)).
  - by apply (ke_send _ _ (onTimer_keeps now _)).
  - by apply (ke_send _ _ (setPaused_keeps b _)).
  - by apply (ke_send _ _ (supervise_keeps now _)).
  - done.
  - by apply (ke_send _ _ (budget_keeps b _)).
Qed.

(** The actions of the receiver. *)
Lemma acts_receiver l snd e e' out net back :
  acts e e' out -> link_ok (link e) -> l <> Media ->
  flow_between l snd e net back -> flow_between l snd e' net (back ++ out).
Proof.
  intros Ha Hok Hl H. unfold flow_between in *.
  destruct Ha as [j now e d k src Hp Hlim|j e o k src Hp|e d Hd|e|now e|b e|now e|e|b e];
    rewrite ?app_nil_r; rewrite receivedOn_split in *; cbn [link applied] in *.
  - destruct (peek_endpoint j _ _ _ _ _ Hok Hp) as (Hok' & Hf & _ & Hr). apply Hr in H; [|done].
    destruct (decide (j = Media)) as [->|Hj].
    + apply (ke_recv _ _ (commitMedia_keeps now k)) in H; [|done..]. eapply flow_acks; [|exact H].
      intros s x p _ Hx Hpx Hk _. left. rewrite !elem_of_app in *. destruct Hx as [[?|Hx]|?]; [by left| |by right].
      apply list_elem_of_singleton in Hx as ->. destruct (peekMedia_flags _ _ _ _ _ Hp p Hpx). congruence.
    + destruct (peek_peeked j _ _ _ _ _ Hj Hok Hp) as [_ Hpk]. by eapply commit_recv.
  - destruct (peek_endpoint j _ _ _ _ _ Hok Hp) as (_ & _ & _ & Hr). by apply Hr.
  - apply (ke_recv _ _ (peekAck_keeps _ Hok)) in H; [|done..]. apply peekAck_head in Hd.
    eapply flow_acks; [|exact H]. intros s x p _ Hx _ _ _. left.
    rewrite !elem_of_app in *. destruct (mPendingAcks (peekAck (link e)).2) as [|d0 q] eqn:E; [done|].
    simpl in Hd. injection Hd as ->. simpl in Hx. rewrite E in Hx. rewrite fmap_cons, elem_of_cons.
    destruct Hx as [[?|Hx]|?]; [by left| |by right; right].
    apply list_elem_of_singleton in Hx as ->. right. by left.
  - by apply (ke_recv _ _ (peekAck_keeps _ Hok)).
  - by apply (ke_recv _ _ (onTimer_keeps now _)).
  - by apply (ke_recv _ _ (setPaused_keeps b _)).
  - by apply (ke_recv _ _ (supervise_keeps now _)).
  - simpl. rewrite deliveredOn_app, app_nil_r. done.
  - by apply (ke_recv _ _ (budget_keeps b _)).
Qed.
End System.
