(* ===== verification/Delivery.v ===== *)
(** * What two links promise each other

    Two endpoints of [Protocol.v] and the network between them, as a step relation.  The
    network keeps every datagram it was given: one that is lost is never picked again, one
    that is repeated is picked twice, and they are picked in any order.  Datagrams of
    another origin arrive too, as long as they do not carry the stream ids of this pair. *)
From S2P Require Import Prelude Double Constants ByteOrder PacketFlags PacketHeader AckRanges.
From S2P Require Import SequenceBuffer RttEstimator MessageAssembler MediaAssembler ReliableLink.
From S2P Require Import LinkStreams LinkReceive LinkWire Flow Protocol.

Import Budget Link.

Section Delivery.
Context {S : Type} `{!MessageSource S} `{!ValidSource S}.

(** ** The system *)
Record System := mkSystem {
  left_ : Endpoint (S := S);
  right_ : Endpoint (S := S);
  toRight : list bytes;
  toLeft : list bytes;
}.

Definition mirror (x : System) : System :=
  {| left_ := right_ x; right_ := left_ x; toRight := toLeft x; toLeft := toRight x |}.

Definition stale (p : DecodedPacket) (k : ReliableLink) : bool :=
  (negb (dstStreamID (header p) =? 0) && negb (dstStreamID (header p) =? mLocalStreamID k))
  || match mRemoteStreamID k with Some id => negb (id =? srcStreamID (header p)) | None => false end.

Definition arrives (p : DecodedPacket) (now : TimePoint) (e : Endpoint (S := S)) : Endpoint :=
  e <| link ::= onPacket p now |>.

(** A step of the left endpoint. *)
Inductive half_step (x : System) : System -> Prop :=
| step_act e out :
    acts (left_ x) e out ->
    half_step x {| left_ := e; right_ := right_ x; toRight := toRight x ++ out; toLeft := toLeft x |}
| step_deliver d p now :
    d ∈ toLeft x -> decodePacket d = Some (Some p) ->
    half_step x {| left_ := arrives p now (left_ x); right_ := right_ x;
                   toRight := toRight x; toLeft := toLeft x |}
| step_foreign d p now :
    decodePacket d = Some (Some p) -> stale p (link (left_ x)) = true ->
    half_step x {| left_ := arrives p now (left_ x); right_ := right_ x;
                   toRight := toRight x; toLeft := toLeft x |}.

Definition step (x y : System) : Prop := half_step x y \/ half_step (mirror x) (mirror y).

Record starts (x : System) : Prop := {
  st_left : exists t id gen b, is_uint 32 id /\ is_uint 32 gen /\ gen <> 0 /\
    link (left_ x) = newLink t id gen b;
  st_right : exists t id gen b, is_uint 32 id /\ is_uint 32 gen /\ gen <> 0 /\
    link (right_ x) = newLink t id gen b;
  st_taken : taken (source (left_ x)) = [] /\ taken (source (right_ x)) = [];
  st_applied : applied (left_ x) = [] /\ applied (right_ x) = [];
  st_net : toRight x = [] /\ toLeft x = [];
}.

Definition reachable (x : System) : Prop := exists x0, starts x0 /\ rtc step x0 x.

(** ** Its invariant *)
Record system_inv (x : System) : Prop := {
  sy_left : link_ok (link (left_ x));
  sy_right : link_ok (link (right_ x));
  sy_there : forall l, l <> Media -> flow_between l (left_ x) (right_ x) (toRight x) (toLeft x);
  sy_back : forall l, l <> Media -> flow_between l (right_ x) (left_ x) (toLeft x) (toRight x);
}.

Lemma mirror_inv x : system_inv x -> system_inv (mirror x).
Proof. by intros []. Qed.

Lemma mirror_mirror x : mirror (mirror x) = x.
Proof. by destruct x. Qed.

Lemma newLink_ok t id gen b :
  is_uint 32 id -> is_uint 32 gen -> gen <> 0 -> link_ok (newLink t id gen b).
Proof.
  intros Hid Hgen Hnz. split; try done.
  - split; [|done]. simpl. by destruct (Z.eqb_spec id 0).
  - by intros d p Hd%elem_of_nil.
Qed.

Lemma new_flow l (snd rcv : Endpoint (S := S)) t1 id1 gen1 b1 t2 id2 gen2 b2 :
  l <> Media -> link snd = newLink t1 id1 gen1 b1 -> link rcv = newLink t2 id2 gen2 b2 ->
  taken (source snd) = [] -> applied rcv = [] -> flow_between l snd rcv [] [].
Proof.
  intros Hl Es Er Ht Ha. unfold flow_between, takenOn, receivedOn. rewrite Ht, Ha, Es, Er. simpl.
  destruct (newStream_window l Hl) as [_ _ _ _ _ Hr _].
  assert (Em : recv_map (newStream (windowOf l)) = ∅) by (unfold recv_map; apply SeqBuf.newBuffer_map).
  split; try done.
  - intros s [= <-]. split; [done|]. intros sq e Hse. specialize (Hr sq (mk_is_Some _ _ Hse)). simpl in Hr. lia.
  - by intros d p Hd%elem_of_nil.
  - exists [], []. split_and!; [done..|]. intros s [= <-]. split; [by exists 0|]. rewrite Em. done.
  - by intros s d p _ Hd%elem_of_nil.
  - intros s s' [= <-] _ sq. simpl. lia.
Qed.

Lemma starts_inv x : starts x -> system_inv x.
Proof.
  intros [(t1 & i1 & g1 & b1 & ? & ? & ? & E1) (t2 & i2 & g2 & b2 & ? & ? & ? & E2) [? ?] [? ?] [Hn1 Hn2]].
  split; rewrite ?Hn1, ?Hn2.
  - rewrite E1. by apply newLink_ok.
  - rewrite E2. by apply newLink_ok.
  - intros l Hl. by eapply new_flow.
  - intros l Hl. by eapply new_flow.
Qed.

Lemma onPacket_stale p now k : stale p k = true -> mFailed k = false -> onPacket p now k = bump staleDropped k.
Proof. intros Hs Hf. unfold onPacket. unfold stale in Hs. by rewrite Hf, Hs. Qed.

Lemma onPacket_failed p now k : mFailed k = true -> onPacket p now k = k.
Proof. intros Hf. unfold onPacket. by rewrite Hf. Qed.

Lemma keeps_inv x e :
  keeps (link (left_ x)) (link e) -> source e = source (left_ x) -> applied e = applied (left_ x) ->
  system_inv x -> system_inv {| left_ := e; right_ := right_ x; toRight := toRight x; toLeft := toLeft x |}.
Proof.
  intros Hk Hs Ha []. split; simpl; try done.
  - by apply Hk.
  - intros l Hl. eapply keeps_sender; eauto.
  - intros l Hl. eapply keeps_receiver; eauto.
Qed.

Lemma foreign_keeps p now k : stale p k = true -> keeps k (onPacket p now k).
Proof.
  intros Hs. destruct (mFailed k) eqn:Hf; [by rewrite onPacket_failed|].
  rewrite onPacket_stale by done. apply quiet_keeps, bump_quiet.
Qed.

Lemma deliver_inv x d p now :
  d ∈ toLeft x -> decodePacket d = Some (Some p) -> system_inv x ->
  system_inv {| left_ := arrives p now (left_ x); right_ := right_ x;
                toRight := toRight x; toLeft := toLeft x |}.
Proof.
  intros Hd Hp Hinv. destruct (decodePacket_sound _ _ Hp) as (Hw & _).
  destruct (onPacket_cases p now (link (left_ x)) Hw) as [Hk|(k1 & Hk & Hf & Hf1 & E)];
    [by apply keeps_inv|].
  destruct Hinv as [Hl Hr Ht Hb]. pose proof (ke_ok _ _ Hk Hl) as Hok.
  assert (Hseq : kind (flags (header p)) = Data -> lane (flags (header p)) <> Media ->
    seq (header p) < 2 ^ 63).
  { intros Hkd Hlm. destruct (fl_net _ _ _ _ _ _ _ (Hb _ Hlm) d p Hd Hp Hkd eq_refl). lia. }
  split; simpl; try done.
  - rewrite E. by apply dispatch_ok.
  - intros l Hlm. specialize (Ht l Hlm). unfold flow_between in *. rewrite takenOn_in in *.
    cbn [link source arrives update]. simpl. rewrite E.
    apply (ke_send _ _ Hk) in Ht; [|done..]. eapply dispatch_send; try done.
    apply elem_of_app. by left.
  - intros l Hlm. specialize (Hb l Hlm). unfold flow_between in *. rewrite receivedOn_split in *. simpl.
    rewrite E. apply (ke_recv _ _ Hk) in Hb; [|done..]. by eapply dispatch_recv.
Qed.

Lemma half_step_inv x y : half_step x y -> system_inv x -> system_inv y.
Proof.
  intros [e out Ha|d p now Hd Hp|d p now Hp Hs] Hinv.
  - destruct Hinv as [Hl Hr Ht Hb]. split; simpl; try done.
    + by eapply acts_ok.
    + intros l Hlm. by eapply acts_sender; eauto.
    + intros l Hlm. by eapply acts_receiver; eauto.
  - by eapply deliver_inv.
  - apply keeps_inv; try done. by apply foreign_keeps.
Qed.

Lemma step_inv x y : step x y -> system_inv x -> system_inv y.
Proof.
  intros [H|H] Hinv; [by eapply half_step_inv|].
  rewrite <- (mirror_mirror y). eapply mirror_inv, half_step_inv; [exact H|]. by apply mirror_inv.
Qed.

Lemma reachable_inv x : reachable x -> system_inv x.
Proof.
  intros (x0 & Hs & Hr). apply starts_inv in Hs. induction Hr; [done|]. eauto using step_inv.
Qed.

(** ** From a flow to its promise *)

(** What was delivered is a prefix of what was taken. *)
Lemma flow_prefix l ms so net ro dl acks : flow l ms so net ro dl acks -> dl `prefix_of` (asMessage <$> ms).
Proof.
  intros [_ _ _ (dn & rest & -> & -> & _) _ _]. rewrite fmap_app. by apply prefix_app_r.
Qed.

(** With nothing left to send, every packet has arrived; with nothing refused for lack of
    room, every message has been delivered. *)
Lemma flow_complete l ms s net s' dl acks :
  flow l ms (Some s) net (Some s') dl acks -> recv_ok l s' -> settled s' ->
  cursor s = None -> send_map s = ∅ ->
  (forall sq, 1 <= sq < nextSendSeq s -> holds_seq s' sq) /\
  (budgetPaused s' = false -> dl = asMessage <$> ms).
Proof.
  intros Hf Hro Hset Hc Hm.
  assert (Hheld : forall sq, 1 <= sq < nextSendSeq s -> holds_seq s' sq).
  { intros sq Hsq. destruct (fl_held _ _ _ _ _ _ _ Hf s s' eq_refl eq_refl sq Hsq) as [[x Hx]|?]; [|done].
    by rewrite Hm in Hx. }
  split; [done|]. intros Hb. destruct Hf as [_ Hs _ (dn & rest & -> & -> & Hr) _ _].
  destruct (Hs s eq_refl) as [Hpos _]. unfold send_position in Hpos. rewrite Hc in Hpos.
  destruct (Hr s' eq_refl) as [(i & Hn & Hp) _].
  destruct rest as [|m rest]; [by rewrite app_nil_r|]. exfalso. destruct Hp as [Hi _].
  rewrite frags_app, frags_cons, !zlen_app, frags_of_length in Hpos.
  pose proof (zlen_nonneg (frags rest)). pose proof (zlen_nonneg (frags dn)).
  destruct (Hheld (nextExpected s') ltac:(lia)) as [?|Hin]; [lia|].
  rewrite (Hset Hin) in Hb. done.
Qed.

Lemma hasPending_stream l k :
  l <> Media -> link_ok k -> hasPending k l = false ->
  cursor (default (newStream (windowOf l)) (mStreams k l)) = None /\
  send_map (default (newStream (windowOf l)) (mStreams k l)) = ∅.
Proof.
  intros Hl Hok Hp. unfold hasPending in Hp. rewrite decide_False in Hp by done.
  destruct (mStreams k l) as [s|] eqn:Es; simpl.
  - unfold streamPending in Hp. apply orb_false_iff in Hp as [He Hc].
    apply bool_decide_eq_false in Hc. apply eq_None_not_Some in Hc. split; [done|].
    destruct (lo_windows _ Hok l s Es) as [_ Hw]. apply negb_false_iff in He.
    unfold send_map. rewrite (SeqBuf.empty_map _ (wo_buffer _ _ Hw)) in He. by rewrite He, fmap_empty.
  - split; [done|]. unfold send_map. simpl. by rewrite SeqBuf.newBuffer_map, fmap_empty.
Qed.

(** ** Its executable runs *)
Inductive Move :=
| Send (l : Lane) (now : TimePoint)
| Acknowledge
| Timer (now : TimePoint)
| Pause (paused : bool)
| TakeOver
| Arrive (n : nat) (now : TimePoint).

Definition sendNext (l : Lane) (now : TimePoint) (e : Endpoint (S := S)) : option (Endpoint * list bytes) :=
  let '(o, k, src) := peek l (link e) (source e) in
  match o with
  | Some d =>
    if match mStreams k l with Some s => nextSendSeq s <? 2 ^ 63 | None => true end
    then Some ({| link := commit l now k; source := src; applied := applied e |}, [wire d])
    else None
  | None => None
  end.

Definition moveOf (m : Move) (e : Endpoint (S := S)) : option (Endpoint * list bytes) :=
  match m with
  | Send l now => sendNext l now e
  | Acknowledge =>
    match (peekAck (link e)).1 with
    | Some d => Some (e <| link := commitAck (peekAck (link e)).2 |>, [wire d])
    | None => None
    end
  | Timer now => Some (e <| link ::= onTimer now |>, [])
  | Pause b => Some (e <| link ::= setPaused b |>, [])
  | TakeOver => Some (e <| applied ::= fun q => q ++ (takeDelivered (link e)).1 |>
                        <| link := (takeDelivered (link e)).2 |>, [])
  | Arrive _ _ => None
  end.

Definition moveLeft (m : Move) (x : System) : option System :=
  match m with
  | Arrive n now =>
    match toLeft x !! n with
    | Some d =>
      match decodePacket d with
      | Some (Some p) => Some {| left_ := arrives p now (left_ x); right_ := right_ x;
                                 toRight := toRight x; toLeft := toLeft x |}
      | _ => None
      end
    | None => None
    end
  | _ =>
    '(e, out) ← moveOf m (left_ x);
    Some {| left_ := e; right_ := right_ x; toRight := toRight x ++ out; toLeft := toLeft x |}
  end.

(** [inl] a move of the left endpoint, [inr] one of the right. *)
Definition play (m : Move + Move) (x : System) : option System :=
  match m with
  | inl m => moveLeft m x
  | inr m => mirror <$> moveLeft m (mirror x)
  end.

Fixpoint plays (ms : list (Move + Move)) (x : System) : option System :=
  match ms with [] => Some x | m :: ms => x ← play m x; plays ms x end.

Lemma moveOf_acts m e e' out : moveOf m e = Some (e', out) -> acts e e' out.
Proof.
  destruct m as [l now| |now|b| |n now]; simpl; intros H; simplify_eq/=; try by constructor.
  - unfold sendNext in H. destruct (peek l (link e) (source e)) as [[[d|] k] src] eqn:E; [|done].
    match goal with H : (if ?b then _ else _) = _ |- _ => destruct b eqn:Eb; [|done] end.
    injection H as <- <-. eapply act_send; [exact E|]. intros s Hs. rewrite Hs in Eb. by apply Z.ltb_lt.
  - destruct (peekAck (link e)).1 as [d|] eqn:E; simplify_eq/=. by constructor.
Qed.

Lemma moveLeft_step m x y : moveLeft m x = Some y -> half_step x y.
Proof.
  intros H. assert (Hact : forall m, ('(e, out) ← moveOf m (left_ x);
      Some {| left_ := e; right_ := right_ x; toRight := toRight x ++ out; toLeft := toLeft x |}) = Some y ->
      half_step x y).
  { clear H m. intros m H. apply bind_Some in H as ([e out] & Hm & [= <-]). apply step_act. by eapply moveOf_acts. }
  destruct m as [l now| |now|b| |n now]; try by apply Hact in H.
  simpl in H. destruct (toLeft x !! n) as [d|] eqn:Ed; [|done].
  destruct (decodePacket d) as [[p|]|] eqn:Ep; simplify_eq. eapply step_deliver; [|exact Ep].
  by eapply list_elem_of_lookup_2.
Qed.

Lemma play_step m x y : play m x = Some y -> step x y.
Proof.
  destruct m as [m|m]; simpl.
  - left. by eapply moveLeft_step.
  - intros (z & Hz & ->)%fmap_Some. right. rewrite mirror_mirror. by eapply moveLeft_step.
Qed.

Lemma plays_reachable ms : forall x y, plays ms x = Some y -> reachable x -> reachable y.
Proof.
  induction ms as [|m ms IH]; intros x y H Hr; simpl in H; [by simplify_eq|].
  apply bind_Some in H as (z & Hz & H). apply (IH _ _ H). destruct Hr as (x0 & Hs & Hr). exists x0.
  split; [done|]. eapply rtc_r; [exact Hr|]. by eapply play_step.
Qed.

Lemma reachable_mirror x : reachable x -> reachable (mirror x).
Proof.
  intros (x0 & Hs & Hr). exists (mirror x0). split.
  - by destruct Hs as [? ? [? ?] [? ?] [? ?]].
  - clear Hs. induction Hr as [|x y z H _ IH]; [done|]. eapply rtc_l; [|exact IH].
    destruct H as [H|H]; [right|left]; [|done]. by rewrite !mirror_mirror.
Qed.

(** ** The promises *)

(** C1: whatever the network loses, repeats, delays or reorders, whichever retransmissions,
    acknowledgements, pauses and time-outs happen, and whether or not a link fails: the
    messages a peer was handed on an acknowledged lane are, whole and in order and each
    once, the first ones of those the other peer took from its source for that lane. *)
Theorem delivered_in_order x l :
  reachable x -> l <> Media ->
  receivedOn l (right_ x) `prefix_of` (asMessage <$> takenOn l (left_ x)) /\
  receivedOn l (left_ x) `prefix_of` (asMessage <$> takenOn l (right_ x)).
Proof.
  intros Hr Hl. destruct (reachable_inv x Hr) as [_ _ Ht Hb].
  split; [eapply flow_prefix, (Ht l Hl)|eapply flow_prefix, (Hb l Hl)].
Qed.

(** C2: an acknowledged lane loses nothing.  Once the sender has nothing pending on it
    ([hasPending]), the receiver holds every packet that was ever sent; and unless its
    budget refuses a message, every message the sender took has been delivered. *)
Theorem drained_delivered x l :
  reachable x -> l <> Media -> mFailed (link (left_ x)) = false -> mFailed (link (right_ x)) = false ->
  hasPending (link (left_ x)) l = false ->
  let s := default (newStream (windowOf l)) (mStreams (link (left_ x)) l) in
  let s' := default (newStream (windowOf l)) (mStreams (link (right_ x)) l) in
  (forall sq, 1 <= sq < nextSendSeq s -> holds_seq s' sq) /\
  (budgetPaused s' = false -> receivedOn l (right_ x) = asMessage <$> takenOn l (left_ x)).
Proof.
  intros Hr Hl Hf1 Hf2 Hp s s'. destruct (reachable_inv x Hr) as [Hok1 Hok2 Ht _].
  destruct (hasPending_stream l _ Hl Hok1 Hp) as [Hc Hm]. specialize (Ht l Hl).
  unfold flow_between, live in Ht. rewrite Hf1, Hf2 in Ht.
  assert (Hro : recv_ok l s' /\ settled s').
  { unfold s'. destruct (mStreams (link (right_ x)) l) eqn:E; [by apply (lo_recv _ Hok2)|by apply newStream_recv]. }
  eapply flow_complete; [exact Ht|apply Hro|apply Hro|done|done].
Qed.
End Delivery.

(** ** A run

    Each side has messages for the lane Reliable; the left one needs two packets.  The
    packets of the left side arrive in the wrong order and one of them twice. *)
Module Example.
Definition messageAt (n : nat) : OutboundMessage :=
  {| omTag := Z.of_nat n; omBody := replicate (if decide (n = 2%nat) then 1200%nat else 3%nat) Byte.x41 |}.

(** A source that counts down. *)
#[export] Instance countdown : MessageSource nat := fun n l =>
  match n with
  | O => (None, O)
  | S n' => if decide (l = Reliable) then (Some (messageAt (n mod 3)), n') else (None, n)
  end.

Lemma messageAt_ok n : (n < 3)%nat -> message_ok Reliable (messageAt n).
Proof. intros H. destruct n as [|[|[|n]]]; [by split..|lia]. Qed.

#[export] Instance countdown_valid : ValidSource nat.
Proof.
  intros [|n] l m st' H; unfold next, countdown in H; [done|].
  destruct (decide (l = Reliable)) as [->|]; [|done]. assert (Em : m = messageAt (S n mod 3)) by congruence.
  rewrite Em. apply messageAt_ok, Nat.mod_upper_bound. lia.
Qed.

Definition side (id : Z) (n : nat) : Endpoint :=
  {| link := newLink defaultTimings id 1 None; source := {| origin := n; taken := [] |}; applied := [] |}.

Definition start : System :=
  {| left_ := side 11 2; right_ := side 22 1; toRight := []; toLeft := [] |}.

Lemma start_reachable : reachable start.
Proof.
  exists start. split; [|done]. split; simpl; try done.
  - exists defaultTimings, 11, 1, None. by split_and!.
  - exists defaultTimings, 22, 1, None. by split_and!.
Qed.

Definition moves : list (Move + Move) :=
  [inl (Send Reliable 0); inl (Send Reliable 1); inl (Send Reliable 2);
   inr (Arrive 2 5); inr (Arrive 0 6); inr (Arrive 2 7); inr (Arrive 1 8);
   inr (Send Reliable 9); inl (Arrive 0 10); inl Acknowledge;
   inr Acknowledge; inl (Arrive 1 20); inr TakeOver].
Definition end_ : System := default start (plays moves start).

Lemma end_reachable : reachable end_.
Proof.
  eapply (plays_reachable moves start); [|apply start_reachable].
  unfold end_. destruct (plays moves start) eqn:E; [done|]. exfalso.
  assert (H : bool_decide (is_Some (plays moves start)) = true) by (vm_compute; reflexivity).
  rewrite E in H. done.
Qed.

Lemma delivered_in_order_witness :
  receivedOn Reliable (right_ end_) = [asMessage (messageAt 2); asMessage (messageAt 1)] /\
  receivedOn Reliable (right_ end_) `prefix_of` (asMessage <$> takenOn Reliable (left_ end_)) /\
  receivedOn Reliable (left_ end_) `prefix_of` (asMessage <$> takenOn Reliable (right_ end_)).
Proof.
  split; [vm_compute; reflexivity|]. by apply (delivered_in_order end_ Reliable end_reachable).
Defined.

Lemma drained_delivered_witness :
  hasPending (link (left_ end_)) Reliable = false /\
  receivedOn Reliable (right_ end_) = asMessage <$> takenOn Reliable (left_ end_).
Proof.
  assert (Hp : hasPending (link (left_ end_)) Reliable = false) by (vm_compute; reflexivity).
  split; [exact Hp|].
  apply (drained_delivered end_ Reliable end_reachable); [discriminate|vm_compute; reflexivity..].
Defined.
End Example.
