(* ===== verification/LinkTimers.v ===== *)
(** * Loss detection, timers and the congestion window of a link

    [mSent] of [ReliableLink.h] is the queue of what is on the wire, oldest first; the
    loops over it look at its front only.  The invariant [armed] says why that is enough:
    every packet in flight is either queued for retransmission or has its record in
    [mSent], whose order is the order of transmission. *)
From Stdlib Require Import QArith Sorted.
From S2P Require Import Prelude Double Constants PacketFlags PacketHeader AckRanges.
From S2P Require Import SequenceBuffer RttEstimator MessageAssembler MediaAssembler ReliableLink.
From S2P Require Import LinkStreams LinkReceive LinkWire Flow Protocol.

#[local] Open Scope Z_scope.
Import Budget Link.

(** ** The send side of a link, a stream that does not exist being a new one *)
Definition view (l : Lane) (k : ReliableLink) : Stream :=
  default (newStream (windowOf l)) (mStreams k l).
Definition entryAt (k : ReliableLink) (l : Lane) (sq : Z) : option InFlight :=
  SeqBuf.find (inFlight (view l k)) sq.
Definition flying (k : ReliableLink) (l : Lane) (sq : Z) (e : InFlight) : Prop :=
  entryAt k l sq = Some e /\ isLost e = false.
Definition wireCount (m : gmap Z InFlight) : Z :=
  Z.of_nat (size (filter (fun x => isLost x.2 = false) m)).

Definition waiting (k : ReliableLink) : bool :=
  existsb (fun l => match mStreams k l with
    | Some s => negb (peerPaused s) && negb (SeqBuf.empty (inFlight s))
    | None => false end) StreamLanes.

(** [onTheWire] counts the packets not declared lost, a lost one is queued, and a paused
    stream is probed. *)
Record lane_ok (s : Stream) : Prop := {
  ln_wire : onTheWire s = wireCount (SeqBuf.to_map (inFlight s));
  ln_lost : forall sq e, SeqBuf.to_map (inFlight s) !! sq = Some e -> isLost e = true -> sq ∈ lost s;
  ln_probe : peerPaused s = bool_decide (is_Some (probeAt s));
}.

(** [q] is the queue of records, as far as it has not been looked at. *)
Record timers_ok (q : list SentRecord) (k : ReliableLink) : Prop := {
  tk_lanes : forall l, lane_ok (view l k);
  tk_record : forall l sq e, flying k l sq e -> mkSent (transmission e) sq l ∈ q;
  tk_sorted : StronglySorted (fun r r' => srTransmission r < srTransmission r') q;
  tk_bound : forall r, r ∈ q -> 0 < srTransmission r <= mTransmissions k;
  tk_count : 0 <= mTransmissions k <= 2 ^ 63;
  tk_time : forall l sq e l' sq' e', flying k l sq e -> flying k l' sq' e' ->
    transmission e <= transmission e' -> sentAt e <= sentAt e';
}.

Definition cwnd_ok (k : ReliableLink) : Prop :=
  if 0 <? fixedCwnd (mTimings k) then mCongestionWindow k = dofZ (fixedCwnd (mTimings k))
  else (inject_Z MinCongestionWindow <= mCongestionWindow k <= inject_Z MaxCongestionWindow)%Q.

Record armed (k : ReliableLink) : Prop := {
  ar_timers : timers_ok (mSent k) k;
  ar_front : match mSent k with r :: _ => is_Some (entryOf k r) | [] => True end;
  ar_clock : bool_decide (is_Some (mStalledSince k)) = waiting k;
  ar_window : cwnd_ok k;
}.

Definition buffered (k : ReliableLink) : Prop := forall l, SeqBuf.buffer_ok (inFlight (view l k)).

(** ** Counting *)
Lemma wireCount_insert m sq e :
  m !! sq = None -> wireCount (<[sq := e]> m) = wireCount m + if isLost e then 0 else 1.
Proof.
  intros Hm. unfold wireCount. destruct (isLost e) eqn:E.
  - rewrite map_filter_insert_False, delete_id, Z.add_0_r; [done|done|]. simpl. congruence.
  - rewrite map_filter_insert_True by done. rewrite map_size_insert_None; [lia|].
    apply map_lookup_filter_None_2. by left.
Qed.

Lemma wireCount_delete m sq e :
  m !! sq = Some e -> wireCount (delete sq m) = wireCount m - if isLost e then 0 else 1.
Proof.
  intros Hm. rewrite <- (insert_delete_id m sq e Hm) at 2.
  rewrite wireCount_insert by apply lookup_delete_eq. lia.
Qed.

Lemma wireCount_replace m sq e e' :
  m !! sq = Some e ->
  wireCount (<[sq := e']> m) = wireCount m - (if isLost e then 0 else 1) + if isLost e' then 0 else 1.
Proof.
  intros Hm. rewrite <- insert_delete_eq, wireCount_insert by apply lookup_delete_eq.
  by rewrite (wireCount_delete m sq e Hm).
Qed.

Lemma entries_short (ss : list (SeqBuf.Slot InFlight)) : zlen (SeqBuf.entries ss) <= zlen ss.
Proof.
  induction ss as [|x ss IH]; [done|].
  unfold SeqBuf.entries, omap in *. simpl. destruct (SeqBuf.slot_entry x); rewrite ?zlen_cons in *; lia.
Qed.

Lemma wireCount_bound b : SeqBuf.buffer_ok b -> 0 <= wireCount (SeqBuf.to_map b) < 2 ^ 64.
Proof.
  intros Hb. unfold wireCount. split; [lia|].
  assert (Hle : (size (filter (fun x : Z * InFlight => isLost x.2 = false) (SeqBuf.to_map b)) <=
    size (SeqBuf.to_map b))%nat).
  { apply map_subseteq_size, map_filter_subseteq. }
  pose proof (SeqBuf.size_map b Hb) as Hs. destruct Hb as [(n & Hn & Hc) _ Hz].
  pose proof (entries_short (SeqBuf.mSlots b)).
  assert (2 ^ n < 2 ^ 64) by (apply Z.pow_lt_mono_r; lia). lia.
Qed.

(** ** Views *)
Lemma view_some l k s : mStreams k l = Some s -> view l k = s.
Proof. unfold view. by intros ->. Qed.

Lemma view_set l s k j : view j (setStream l s k) = if decide (j = l) then s else view j k.
Proof. unfold view. simpl. by case_decide. Qed.

Lemma new_buffer l : SeqBuf.buffer_ok (SeqBuf.newBuffer (windowOf l) : SeqBuf.SequenceBuffer InFlight).
Proof. destruct l; [apply (SeqBuf.newBuffer_ok 5)|apply (SeqBuf.newBuffer_ok 8)..]; lia. Qed.

Lemma windows_buffered k : windows_ok k -> buffered k.
Proof.
  intros Hw l. unfold view. destruct (mStreams k l) as [s|] eqn:E; simpl; [by apply (Hw l s)|apply new_buffer].
Qed.

Lemma entryAt_map k l sq : buffered k -> entryAt k l sq = SeqBuf.to_map (inFlight (view l k)) !! sq.
Proof. intros Hb. apply SeqBuf.find_map, Hb. Qed.

Lemma new_lane l : lane_ok (newStream (windowOf l)).
Proof.
  split; simpl; rewrite ?SeqBuf.newBuffer_map; done.
Qed.

Lemma entryOf_at k r :
  buffered k ->
  entryOf k r = match entryAt k (srLane r) (srSeq r) with
    | Some e => if negb (isLost e) && (transmission e =? srTransmission r) then Some e else None
    | None => None end.
Proof.
  intros Hb. unfold entryOf, entryAt, view. destruct (mStreams k (srLane r)) as [s|] eqn:E; [done|].
  cbn [default]. rewrite SeqBuf.find_map by apply new_buffer. simpl. by rewrite SeqBuf.newBuffer_map.
Qed.

(** A record is live when its entry is flying since that transmission. *)
Lemma entryOf_Some k r e :
  buffered k ->
  entryOf k r = Some e <-> flying k (srLane r) (srSeq r) e /\ transmission e = srTransmission r.
Proof.
  intros Hb. rewrite entryOf_at by done. unfold flying.
  destruct (entryAt k (srLane r) (srSeq r)) as [x|]; [|split; [done|by intros [[? _] _]]].
  destruct (isLost x) eqn:El; simpl; [split; [done|intros [[[= <-] ?] _]; congruence]|].
  destruct (Z.eqb_spec (transmission x) (srTransmission r)); split.
  - by intros [= <-].
  - by intros [[[= <-] _] _].
  - done.
  - by intros [[[= <-] _] ?].
Qed.

Lemma flying_live k l sq e : buffered k -> flying k l sq e -> entryOf k (mkSent (transmission e) sq l) = Some e.
Proof. intros Hb H. by apply entryOf_Some. Qed.

(** Transmissions identify the packets in flight. *)
Lemma sorted_unique q r r' :
  StronglySorted (fun r r' => srTransmission r < srTransmission r') q ->
  r ∈ q -> r' ∈ q -> srTransmission r = srTransmission r' -> r = r'.
Proof.
  induction 1 as [|x q Hs IH Hx]; [by intros ?%elem_of_nil|]. rewrite Forall_forall in Hx.
  rewrite !elem_of_cons. intros [-> |H] [-> |H'] E; try done.
  - specialize (Hx _ H'). lia.
  - specialize (Hx _ H). lia.
  - auto.
Qed.

Lemma sorted_snoc q r :
  StronglySorted (fun r r' => srTransmission r < srTransmission r') q ->
  (forall x, x ∈ q -> srTransmission x < srTransmission r) ->
  StronglySorted (fun r r' => srTransmission r < srTransmission r') (q ++ [r]).
Proof.
  induction 1 as [|x q Hs IH Hx]; intros H; simpl; [by repeat constructor|]. constructor.
  - apply IH. intros y Hy. apply H. by right.
  - apply Forall_app. split; [done|]. constructor; [|done]. apply H. by left.
Qed.

(** ** A packet is declared lost *)

(** The members of the link the records and their timers do not depend on, left as [k]'s. *)
Record counters_same (k k' : ReliableLink) : Prop := {
  cs_transmissions : mTransmissions k' = mTransmissions k;
  cs_acked : mLargestAcked k' = mLargestAcked k;
  cs_timings : mTimings k' = mTimings k;
  cs_rtt : mRtt k' = mRtt k;
  cs_backoff : mTimeoutsInARow k' = mTimeoutsInARow k;
  cs_stalled : mStalledSince k' = mStalledSince k;
  cs_failed : mFailed k' = mFailed k;
}.
#[global] Instance counters_same_preorder : PreOrder counters_same.
Proof. split; [done|]. intros k1 k2 k3 [] []. split; congruence. Qed.

Definition lose (e : InFlight) : InFlight := e <| isLost := true |>.

(** The stream after [markLost]. *)
Definition lostStream (s : Stream) (sq : Z) : Stream :=
  s <| inFlight ::= fun b => SeqBuf.modify b sq lose |> <| onTheWire ::= fun n => u64 (n - 1) |>
    <| lost ::= fun q => q ++ [sq] |>.

Lemma lostStream_lane s sq e :
  SeqBuf.buffer_ok (inFlight s) -> lane_ok s -> SeqBuf.to_map (inFlight s) !! sq = Some e -> isLost e = false ->
  lane_ok (lostStream s sq) /\ SeqBuf.buffer_ok (inFlight (lostStream s sq)) /\
  SeqBuf.to_map (inFlight (lostStream s sq)) = <[sq := lose e]> (SeqBuf.to_map (inFlight s)).
Proof.
  intros Hb [Hw Hl Hp] He Hlost.
  assert (Em : SeqBuf.to_map (inFlight (lostStream s sq)) = <[sq := lose e]> (SeqBuf.to_map (inFlight s))).
  { change (inFlight (lostStream s sq)) with (SeqBuf.modify (inFlight s) sq lose).
    rewrite SeqBuf.modify_map by done. apply map_eq. intros j.
    destruct (decide (j = sq)) as [->|]; [|by rewrite lookup_alter_ne, lookup_insert_ne].
    by rewrite lookup_alter_eq, lookup_insert_eq, He. }
  split_and!; [|by apply SeqBuf.modify_ok|done]. split; rewrite ?Em.
  - rewrite (wireCount_replace _ _ e) by done. rewrite Hlost. simpl. rewrite Hw.
    pose proof (wireCount_bound _ Hb). pose proof (wireCount_delete _ _ e He) as Hd. rewrite Hlost in Hd.
    assert (0 <= wireCount (delete sq (SeqBuf.to_map (inFlight s)))) by (unfold wireCount; lia).
    rewrite Z.add_0_r. apply wrap_small. unfold is_uint. lia.
  - intros j x. simpl. rewrite elem_of_app, list_elem_of_singleton.
    intros [[-> <-]|[Hne Hx]]%lookup_insert_Some Hlx; [by right|left]. eauto.
  - done.
Qed.

Lemma markLost_effect r e t k :
  buffered k -> (forall l, lane_ok (view l k)) -> entryOf k r = Some e ->
  let k' := markLost r e t k in
  buffered k' /\ (forall l, lane_ok (view l k')) /\ counters_same k k' /\
  (forall l, peerPaused (view l k') = peerPaused (view l k)) /\
  forall l sq, entryAt k' l sq = if decide (l = srLane r /\ sq = srSeq r) then Some (lose e) else entryAt k l sq.
Proof.
  intros Hb Hlanes Hent k'. pose proof Hent as Hfly. apply entryOf_Some in Hfly as [[Hat Hlost] Htr]; [|done].
  unfold entryOf in Hent. destruct (mStreams k (srLane r)) as [s|] eqn:Es; [|done]. clear Hent.
  pose proof (view_some _ _ _ Es) as Ev. rewrite entryAt_map, Ev in Hat by done.
  pose proof (Hb (srLane r)) as Hbs. pose proof (Hlanes (srLane r)) as Hls. rewrite Ev in Hbs, Hls.
  destruct (lostStream_lane s (srSeq r) e Hbs Hls Hat Hlost) as (Hl' & Hb' & Em).
  assert (Eview : forall l, view l k' = if decide (l = srLane r) then lostStream s (srSeq r) else view l k).
  { intros l. unfold k', markLost. rewrite Es. cbn zeta. rewrite <- view_set.
    destruct t; cbn [negb]; by case_match. }
  assert (Hb2 : buffered k') by (intros l; rewrite Eview; by case_decide).
  split_and!; [done|..].
  - intros l. rewrite Eview. by case_decide.
  - unfold k', markLost. rewrite Es. cbn zeta. destruct t; cbn [negb]; by case_match.
  - intros l. rewrite Eview. case_decide as El; [by rewrite El, Ev|done].
  - intros l sq. rewrite !entryAt_map, Eview by done. case_decide as El; [subst l|].
    + rewrite Em. destruct (decide (sq = srSeq r)) as [->|].
      * rewrite decide_True by done. by rewrite lookup_insert_eq.
      * rewrite decide_False by naive_solver. by rewrite lookup_insert_ne, Ev.
    + rewrite decide_False by naive_solver. done.
Qed.

(** ** The loops over the queue

    [old r e] is what the loop declares lost; the loop stops at the first record that is
    live and not old. *)
Section Expire.
Context (old : SentRecord -> InFlight -> bool).
Context (keep : SentRecord -> InFlight -> ReliableLink -> bool) (timedOut : bool).
Context (work : ReliableLink -> ReliableLink) (k0 : ReliableLink).
Context (Hkeep : forall r e k, counters_same k0 k -> keep r e k = negb (old r e)).
Context (Hwork : forall k, counters_same k (work k) /\ mStreams (work k) = mStreams k).

(** What the loop does to an entry. *)
Definition expireEntry (l : Lane) (sq : Z) (e : InFlight) : InFlight :=
  if negb (isLost e) && old (mkSent (transmission e) sq l) e then lose e else e.

(** Among the packets in flight the old ones were sent first. *)
Definition old_first (k : ReliableLink) : Prop := forall l sq e l' sq' e',
  flying k l sq e -> flying k l' sq' e' -> transmission e < transmission e' ->
  old (mkSent (transmission e') sq' l') e' = true -> old (mkSent (transmission e) sq l) e = true.

Record expired (k : ReliableLink) (found : bool) (k' : ReliableLink) : Prop := {
  ex_buffered : buffered k';
  ex_timers : timers_ok (mSent k') k';
  ex_entries : forall l sq, entryAt k' l sq = expireEntry l sq <$> entryAt k l sq;
  ex_front : match mSent k' with r :: _ => is_Some (entryOf k' r) | [] => True end;
  ex_counters : counters_same k k';
  ex_paused : forall l, peerPaused (view l k') = peerPaused (view l k);
  ex_found : found = true <-> exists l sq e, flying k l sq e /\ old (mkSent (transmission e) sq l) e = true;
}.

Lemma work_view k l : view l (work k) = view l k.
Proof. unfold view. by rewrite (proj2 (Hwork k)). Qed.

Lemma work_flying k l sq e : flying (work k) l sq e <-> flying k l sq e.
Proof. unfold flying, entryAt. by rewrite work_view. Qed.

Lemma work_timers q k : timers_ok q k -> timers_ok q (work k).
Proof.
  intros []. destruct (Hwork k) as [[Et ? ? ? ? ?] _].
  split; rewrite ?Et; try done; intros; rewrite ?work_view, ?work_flying in *; eauto.
Qed.

(** A record that is not live is passed over. *)
Lemma timers_skip r q k : buffered k -> timers_ok (r :: q) k -> entryOf k r = None -> timers_ok q k.
Proof.
  intros Hb [L R S B C T] Hn. apply StronglySorted_inv in S as [S _]. split; try done.
  - intros l sq e Hf. specialize (R l sq e Hf). apply elem_of_cons in R as [<-|R]; [|done].
    rewrite (flying_live _ _ _ _ Hb Hf) in Hn. done.
  - intros x Hx. apply B. by right.
Qed.

(** A live record is declared lost. *)
Lemma timers_lost r q k e :
  buffered k -> timers_ok (r :: q) k -> entryOf k r = Some e -> timers_ok q (markLost r e timedOut k).
Proof.
  intros Hb [L R S B C T] He. destruct (markLost_effect r e timedOut k Hb L He) as (Hb' & L' & [Et ? ? ? ? ?] & _ & Hat).
  apply StronglySorted_inv in S as [S _].
  assert (Hfly : forall l sq x, flying (markLost r e timedOut k) l sq x ->
    flying k l sq x /\ ~ (l = srLane r /\ sq = srSeq r)).
  { intros l sq x [Hx Hl]. rewrite Hat in Hx. case_decide; [by simplify_eq|done]. }
  split; rewrite ?Et; try done.
  - intros l sq x [Hf Hne]%Hfly. specialize (R l sq x Hf). apply elem_of_cons in R as [<-|R]; [|done].
    by destruct Hne.
  - intros x Hx. apply B. by right.
  - intros l sq x l' sq' x' [Hf _]%Hfly [Hf' _]%Hfly. eauto.
Qed.

Lemma expireEntry_kept l sq e : isLost e = true \/ old (mkSent (transmission e) sq l) e = false -> expireEntry l sq e = e.
Proof. unfold expireEntry. intros [-> | ->]; [done|]. by rewrite andb_false_r. Qed.

(** When nothing in flight is old the loop is at its end. *)
Lemma expired_stop k q :
  buffered k -> timers_ok q k -> counters_same k0 k ->
  match q with r :: _ => is_Some (entryOf k r) | [] => True end ->
  (forall l sq e, flying k l sq e -> old (mkSent (transmission e) sq l) e = false) ->
  expired k false (k <| mSent := q |>).
Proof.
  intros Hb Ht Hc Hf Hnone. split; try done.
  - by destruct Ht.
  - intros l sq. change (entryAt (k <| mSent := q |>) l sq) with (entryAt k l sq).
    destruct (entryAt k l sq) as [e|] eqn:E; [|done]. simpl. f_equal. symmetry. apply expireEntry_kept.
    destruct (isLost e) eqn:El; [by left|right]. by apply Hnone.
  - split; [done|]. intros (l & sq & e & Hfl & Ho). rewrite (Hnone _ _ _ Hfl) in Ho. done.
Qed.

Lemma front_young q r k e :
  buffered k -> timers_ok (r :: q) k -> old_first k -> entryOf k r = Some e -> old r e = false ->
  forall l sq x, flying k l sq x -> old (mkSent (transmission x) sq l) x = false.
Proof.
  intros Hb [L R S B C T] Ho He Hy l sq x Hx. apply entryOf_Some in He as [Hfe Etr]; [|done].
  assert (Er : r = mkSent (transmission e) (srSeq r) (srLane r)) by (rewrite Etr; by destruct r).
  pose proof (R l sq x Hx) as Hin. apply elem_of_cons in Hin as [Heq|Hin].
  - rewrite Heq. rewrite <- Heq in Hfe. destruct Hx as [Hx _], Hfe as [Hfe _]. simpl in Hfe.
    assert (x = e) as -> by congruence. done.
  - apply StronglySorted_inv in S as [_ S]. rewrite Forall_forall in S. specialize (S _ Hin). simpl in S.
    destruct (old (mkSent (transmission x) sq l) x) eqn:E; [|done].
    rewrite Er in Hy. rewrite <- Hy. symmetry. apply (Ho _ _ _ _ _ _ Hfe Hx); [lia|done].
Qed.

Lemma old_first_lost k r e :
  buffered k -> (forall l, lane_ok (view l k)) -> entryOf k r = Some e -> old_first k ->
  old_first (markLost r e timedOut k).
Proof.
  intros Hb L He Ho. destruct (markLost_effect r e timedOut k Hb L He) as (_ & _ & _ & _ & Hat).
  assert (Hfly : forall l sq x, flying (markLost r e timedOut k) l sq x -> flying k l sq x).
  { intros l sq x [Hx Hl]. rewrite Hat in Hx. case_decide; [by simplify_eq|done]. }
  intros l sq x l' sq' x' H%Hfly H'%Hfly. by apply (Ho l sq x l' sq' x').
Qed.

Lemma expired_lost k r e more k' :
  buffered k -> (forall l, lane_ok (view l k)) -> entryOf k r = Some e -> old r e = true ->
  expired (markLost r e timedOut k) more k' -> expired k true k'.
Proof.
  intros Hb L He Hy []. destruct (markLost_effect r e timedOut k Hb L He) as (_ & _ & Hc & Hp & Hat).
  apply entryOf_Some in He as [[He Hl] Etr]; [|done].
  assert (Er : mkSent (transmission e) (srSeq r) (srLane r) = r) by (rewrite Etr; by destruct r).
  split; try done.
  - intros l sq. rewrite ex_entries0, Hat. case_decide as E; [|done]. destruct E as [-> ->].
    rewrite He. simpl. f_equal. unfold expireEntry. rewrite Hl, Er, Hy. done.
  - by etrans.
  - intros l. by rewrite ex_paused0, Hp.
  - split; [|done]. intros _. exists (srLane r), (srSeq r), e. by rewrite Er.
Qed.

Lemma expire_spec q : forall found k,
  buffered k -> timers_ok q k -> counters_same k0 k -> old_first k ->
  exists more, (expire keep timedOut work q found k).1 = found || more /\
    expired k more (expire keep timedOut work q found k).2.
Proof.
  induction q as [|r q IH]; intros found k Hb Ht Hc Ho; cbn [expire].
  { exists false. rewrite orb_false_r. split; [done|]. apply expired_stop; try done.
    intros l sq e Hf. by apply (tk_record _ _ Ht), elem_of_nil in Hf. }
  set (k1 := work k). destruct (Hwork k) as [Hc1 Es1]. fold k1 in Hc1, Es1.
  assert (Hb1 : buffered k1) by (intros l; unfold k1; rewrite work_view; apply Hb).
  assert (Ht1 : timers_ok (r :: q) k1) by by apply work_timers.
  assert (Hc01 : counters_same k0 k1) by by etrans.
  assert (Ho1 : old_first k1).
  { intros l sq e l' sq' e'. unfold k1. rewrite !work_flying. apply Ho. }
  assert (Hback : forall more k', expired k1 more k' -> expired k more k').
  { intros more k' []. split; try done.
    - intros l sq. rewrite ex_entries0. unfold entryAt, k1. by rewrite work_view.
    - by etrans.
    - intros l. rewrite ex_paused0. unfold k1. by rewrite work_view.
    - rewrite ex_found0. unfold k1. by setoid_rewrite work_flying. }
  clearbody k1. cbn zeta.
  destruct (entryOf k1 r) as [e|] eqn:He.
  - rewrite Hkeep by done. destruct (old r e) eqn:Hy; cbn [negb].
    + destruct (IH true (markLost r e timedOut k1)) as (more & Ef & Hx).
      * by apply (markLost_effect r e timedOut k1 Hb1 (tk_lanes _ _ Ht1) He).
      * by apply timers_lost.
      * etrans; [exact Hc01|]. by apply (markLost_effect r e timedOut k1 Hb1 (tk_lanes _ _ Ht1) He).
      * apply old_first_lost; try done. apply Ht1.
      * exists true. rewrite orb_true_r. split; [done|]. apply Hback. eapply expired_lost; try done. apply Ht1.
    + exists false. rewrite orb_false_r. split; [done|]. apply Hback, expired_stop; try done.
      by eapply front_young.
  - destruct (IH found k1) as (more & Ef & Hx); try done; [by eapply timers_skip|].
    exists more. split; [done|]. by apply Hback.
Qed.
End Expire.

(** ** The congestion window *)
Lemma dofZ_exact z : (- 2 ^ 53 <= z <= 2 ^ 53) -> (dofZ z == inject_Z z)%Q.
Proof. apply rnd_Z. Qed.

Lemma Qeq_le a b : (a == b)%Q -> (a <= b /\ b <= a)%Q.
Proof. intros E. split; apply Qle_lteq; right; [done|by symmetry]. Qed.

Lemma halved_window w :
  (inject_Z MinCongestionWindow <= w <= inject_Z MaxCongestionWindow)%Q ->
  (inject_Z MinCongestionWindow <= dmax (ddiv w 2) (dofZ MinCongestionWindow) <= inject_Z MaxCongestionWindow)%Q.
Proof.
  intros [Hlo Hhi]. pose proof (dofZ_exact MinCongestionWindow ltac:(done)) as Emin.
  destruct (dmax_spec (ddiv w 2) (dofZ MinCongestionWindow)) as (_ & Hge & Hcase).
  apply Qeq_le in Emin as [Elo Ehi].
  split; [exact (Qle_trans _ _ _ Ehi Hge)|]. destruct Hcase as [-> | ->].
  - unfold ddiv. apply rnd_le_Z; [done|].
    apply Qle_shift_div_r; [done|]. eapply Qle_trans; [exact Hhi|]. done.
  - eapply Qle_trans; [exact Elo|done].
Qed.

Lemma grown_window w n :
  0 <= n -> (inject_Z MinCongestionWindow <= w <= inject_Z MaxCongestionWindow)%Q ->
  (inject_Z MinCongestionWindow <= dmin (dadd w (ddiv (dofZ n) w)) (dofZ MaxCongestionWindow)
   <= inject_Z MaxCongestionWindow)%Q.
Proof.
  intros Hn [Hlo Hhi]. pose proof (dofZ_exact MaxCongestionWindow ltac:(done)) as Emax.
  destruct (dmin_spec (dadd w (ddiv (dofZ n) w)) (dofZ MaxCongestionWindow)) as (_ & Hle & Hcase).
  apply Qeq_le in Emax as [Elo Ehi].
  split; [|exact (Qle_trans _ _ _ Hle Elo)]. destruct Hcase as [-> | ->].
  2:{ apply (Qle_trans _ (inject_Z MaxCongestionWindow)); done. }
  assert (Hw : (0 < w)%Q) by (eapply Qlt_le_trans; [|exact Hlo]; done).
  assert (Hd : (0 <= ddiv (dofZ n) w)%Q).
  { change 0%Q with (inject_Z 0). unfold ddiv. apply rnd_ge_Z; [done|].
    apply Qle_shift_div_l; [done|]. apply (Qle_trans _ (inject_Z 0)).
    - apply Qeq_le, Qmult_0_l.
    - unfold dofZ. apply rnd_ge_Z; [done|]. rewrite <- Zle_Qle. done. }
  unfold dadd. apply rnd_ge_Z; [done|].
  apply (Qle_trans _ (inject_Z MinCongestionWindow + 0)%Q); [apply Qeq_le, Qplus_0_r|by apply Qplus_le_compat].
Qed.

Lemma markLost_cwnd r e t k : cwnd_ok k -> cwnd_ok (markLost r e t k).
Proof.
  intros Hc. unfold markLost. destruct (mStreams k (srLane r)) as [s|]; [|done]. cbn zeta.
  set (k1 := if negb t then _ else _).
  assert (E : mTimings k1 = mTimings k /\ mCongestionWindow k1 = mCongestionWindow k) by (by destruct t).
  destruct E as [Et Ew]. unfold cwnd_ok in *. destruct (_ || _) eqn:Eb; [by rewrite Et, Ew|].
  bool_prop. simpl. rewrite Et in *. rewrite Ew.
  destruct (Z.ltb_spec 0 (fixedCwnd (mTimings k))); [lia|]. by apply halved_window.
Qed.

Lemma expire_cwnd keep t work q : forall found k,
  (forall k, cwnd_ok k -> cwnd_ok (work k)) -> cwnd_ok k -> cwnd_ok (expire keep t work q found k).2.
Proof.
  induction q as [|r q IH]; intros found k Hw Hc; cbn [expire]; [done|].
  specialize (Hw k Hc) as Hk. destruct (entryOf (work k) r) as [e|]; [|by apply IH].
  destruct (keep r e (work k)); [done|]. apply IH; [done|]. by apply markLost_cwnd.
Qed.

(** ** The clock that runs while the peer owes an acknowledgement *)
Lemma waiting_view k :
  waiting k = existsb (fun l => negb (peerPaused (view l k)) && negb (SeqBuf.empty (inFlight (view l k)))) StreamLanes.
Proof.
  unfold waiting, view. generalize StreamLanes. intros ls. induction ls as [|l ls IH]; [done|]. simpl. rewrite IH.
  f_equal. by destruct (mStreams k l).
Qed.

Lemma waiting_same k k' :
  (forall l, peerPaused (view l k') = peerPaused (view l k)) ->
  (forall l, SeqBuf.empty (inFlight (view l k')) = SeqBuf.empty (inFlight (view l k))) ->
  waiting k' = waiting k.
Proof.
  intros Hp He. rewrite !waiting_view. generalize StreamLanes. intros ls.
  induction ls as [|l ls IH]; [done|]. simpl. by rewrite Hp, He, IH.
Qed.

Lemma empty_same (b b' : SeqBuf.SequenceBuffer InFlight) :
  SeqBuf.buffer_ok b -> SeqBuf.buffer_ok b' ->
  (forall sq, is_Some (SeqBuf.find b' sq) <-> is_Some (SeqBuf.find b sq)) -> SeqBuf.empty b' = SeqBuf.empty b.
Proof.
  intros Hb Hb' H. apply eq_true_iff_eq. rewrite !SeqBuf.empty_map by done.
  setoid_rewrite SeqBuf.find_map in H; [|done..]. rewrite !map_empty.
  split; intros E sq; specialize (E sq); apply eq_None_not_Some; apply eq_None_not_Some in E; by rewrite H in *.
Qed.

Lemma expired_waiting old k found k' : buffered k -> expired old k found k' -> waiting k' = waiting k.
Proof.
  intros Hb []. apply waiting_same; [done|]. intros l. apply empty_same; [done..|]. intros sq.
  specialize (ex_entries0 l sq). unfold entryAt in ex_entries0. rewrite ex_entries0. apply fmap_is_Some.
Qed.

Lemma updateProgressClock_clock now p k :
  bool_decide (is_Some (mStalledSince (updateProgressClock now p k))) = waiting (updateProgressClock now p k).
Proof.
  unfold updateProgressClock. fold (waiting k). cbn zeta. destruct (waiting k) eqn:Ew; cbn [negb]; [|exact (eq_sym Ew)].
  destruct (_ || _) eqn:E; [exact (eq_sym Ew)|]. rewrite Ew. apply orb_false_iff in E as [_ E].
  apply bool_decide_eq_false in E. destruct (mStalledSince k); [done|by destruct E].
Qed.

Lemma updateProgressClock_kept now p k :
  mStreams (updateProgressClock now p k) = mStreams k /\ mSent (updateProgressClock now p k) = mSent k /\
  mTransmissions (updateProgressClock now p k) = mTransmissions k /\
  mTimings (updateProgressClock now p k) = mTimings k /\
  mCongestionWindow (updateProgressClock now p k) = mCongestionWindow k.
Proof. unfold updateProgressClock. cbn zeta. by repeat case_match. Qed.

(** ** Steps that change none of it *)

(** Nothing takes off between [k] and [k']. *)
Definition grounded (k k' : ReliableLink) : Prop := forall l sq e, flying k' l sq e -> flying k l sq e.
#[global] Instance grounded_preorder : PreOrder grounded.
Proof. split; [by intros k l sq e|]. intros k1 k2 k3 H1 H2 l sq e H. by apply H1, H2. Qed.

Lemma timers_views q k k' :
  (forall l, send_equal (view l k) (view l k')) -> mTransmissions k' = mTransmissions k ->
  timers_ok q k -> timers_ok q k'.
Proof.
  intros Hv Et [L R S B C T].
  assert (Hfly : forall l sq e, flying k' l sq e <-> flying k l sq e).
  { intros l sq e. unfold flying, entryAt. by rewrite (se_inFlight _ _ (Hv l)). }
  split; rewrite ?Et; try done.
  - intros l. destruct (L l), (Hv l) as [? Ei El ? ? Ew Ep Epr]. by split; rewrite ?Ei, ?El, ?Ew, ?Ep, ?Epr.
  - intros l sq e. rewrite Hfly. apply R.
  - intros l sq e l' sq' e'. rewrite !Hfly. apply T.
Qed.

Lemma grounded_views k k' : (forall l, send_equal (view l k) (view l k')) -> grounded k k'.
Proof. intros Hv l sq e. unfold flying, entryAt. by rewrite (se_inFlight _ _ (Hv l)). Qed.

Lemma expired_grounded old k found k' : expired old k found k' -> grounded k k'.
Proof.
  intros Hx l sq e [He Hl]. rewrite (ex_entries _ _ _ _ Hx) in He.
  apply fmap_Some in He as (x & Hx' & ->). unfold expireEntry in *. by destruct (_ && _).
Qed.

Lemma buffered_views k k' : (forall l, send_equal (view l k) (view l k')) -> buffered k -> buffered k'.
Proof. intros Hv Hb l. rewrite (se_inFlight _ _ (Hv l)). apply Hb. Qed.

Lemma entryOf_views k k' r :
  buffered k -> (forall l, send_equal (view l k) (view l k')) -> entryOf k' r = entryOf k r.
Proof.
  intros Hb Hv. pose proof (buffered_views k k' Hv Hb). rewrite !entryOf_at by done. unfold entryAt.
  by rewrite (se_inFlight _ _ (Hv (srLane r))).
Qed.

Lemma armed_views k k' :
  buffered k -> (forall l, send_equal (view l k) (view l k')) -> sends_kept k k' -> armed k -> armed k'.
Proof.
  intros Hb Hv [Es Et ? Etm ? ? Est Ec] [Ht Hf Hc Hw]. split.
  - rewrite Es. by eapply timers_views.
  - rewrite Es. destruct (mSent k); [done|]. by rewrite (entryOf_views k k').
  - rewrite Est, Hc. symmetry. apply waiting_same; intros l; destruct (Hv l); congruence.
  - unfold cwnd_ok in *. by rewrite Etm, Ec.
Qed.


(** ** What the parts of the operations keep *)
Definition tends (k k' : ReliableLink) : Prop :=
  buffered k -> timers_ok (mSent k) k -> cwnd_ok k ->
  buffered k' /\ timers_ok (mSent k') k' /\ cwnd_ok k' /\ grounded k k'.

#[global] Instance tends_preorder : PreOrder tends.
Proof.
  split; [by intros k|]. intros k1 k2 k3 H1 H2 Hb Ht Hc. destruct (H1 Hb Ht Hc) as (? & ? & ? & ?).
  destruct H2 as (? & ? & ? & ?); try done. split_and!; try done. by etrans.
Qed.

Lemma tends_same k k' :
  mStreams k' = mStreams k -> mSent k' = mSent k -> mTransmissions k' = mTransmissions k ->
  mTimings k' = mTimings k -> mCongestionWindow k' = mCongestionWindow k -> tends k k'.
Proof.
  intros Es Eq Et Etm Ec Hb Ht Hc.
  assert (Hv : forall l, send_equal (view l k) (view l k')) by (intros l; unfold view; by rewrite Es).
  split_and!; [by eapply buffered_views|rewrite Eq; by eapply timers_views|..].
  - unfold cwnd_ok in *. by rewrite Etm, Ec.
  - by apply grounded_views.
Qed.

(** A stream that keeps its packets. *)
Lemma tends_set l s' k :
  inFlight s' = inFlight (view l k) -> (lane_ok (view l k) -> lane_ok s') -> tends k (setStream l s' k).
Proof.
  intros Ei Hl Hb [L R S B C T] Hc.
  assert (Hat : forall j sq e, flying (setStream l s' k) j sq e <-> flying k j sq e).
  { intros j sq e. unfold flying, entryAt. rewrite view_set. case_decide; [subst; by rewrite Ei|done]. }
  split_and!; [| |done|intros j sq e; by rewrite Hat].
  - intros j. rewrite view_set. case_decide; [rewrite Ei; subst|]; apply Hb.
  - split; try done.
    + intros j. rewrite view_set. case_decide; [subst; auto|apply L].
    + intros j sq e. rewrite Hat. apply R.
    + intros j sq e j' sq' e'. rewrite !Hat. apply T.
Qed.

Lemma updateProgressClock_tends now p k : tends k (updateProgressClock now p k).
Proof. destruct (updateProgressClock_kept now p k) as (? & ? & ? & ? & ?). by apply tends_same. Qed.

Lemma setPeerPaused_tends l p now k : tends k (setPeerPaused l p now k).
Proof.
  unfold setPeerPaused. destruct (mStreams k l) as [s|] eqn:Es; [|done]. destruct (eqb _ _) eqn:Ep; [done|].
  etrans; [|apply updateProgressClock_tends]. pose proof (view_some _ _ _ Es) as Ev.
  apply tends_set; rewrite Ev.
  - by destruct p.
  - intros []. by destruct p.
Qed.

Lemma noteAck_tends l s ack p now k : mStreams k l = Some s -> tends k (noteAck l s ack p now k).
Proof.
  intros Es. unfold noteAck. destruct (match ackSerial s with Some _ => _ | None => _ end); [|done].
  etrans; [|apply setPeerPaused_tends]. trans (setStream l (s <| ackSerial := Some (serial ack) |>) k).
  - apply tends_set; rewrite (view_some _ _ _ Es); [done|]. by intros [].
  - by apply tends_same.
Qed.

Lemma probeLane_tends now k l : tends k (probeLane now k l).
Proof.
  unfold probeLane. destruct (mStreams k l) as [s|] eqn:Es; [|done].
  destruct (probeAt s) as [at_|]; [|done]. destruct (_ && _) eqn:E; [|done]. apply andb_prop in E as [Ep _].
  cbn zeta. etrans; [|apply tends_set].
  - by apply tends_same.
  - change (view l (raise mPingDue l k)) with (view l k). by rewrite (view_some _ _ _ Es).
  - change (view l (raise mPingDue l k)) with (view l k). rewrite (view_some _ _ _ Es).
    intros [? ? _]. split; try done.
Qed.

(** *** Releasing what an Ack names *)
Lemma releaseSeq_tends l p sq : tends p.2 (releaseSeq l p sq).2.
Proof.
  destruct p as [r k]. intros Hb [L R S B C T] Hc. cbn [snd] in *. unfold releaseSeq.
  destruct (mStreams k l) as [s|] eqn:Es; [|done]. pose proof (view_some _ _ _ Es) as Ev.
  pose proof (Hb l) as Hbs. pose proof (L l) as Hls. rewrite Ev in Hbs, Hls.
  destruct (SeqBuf.take_spec (inFlight s) sq Hbs) as (Ht & Hok & Hm & _).
  destruct (SeqBuf.take (inFlight s) sq) as [[e|] b]; simpl in Ht, Hok, Hm; [|done].
  set (s' := if negb (isLost e) then _ else _). set (k' := setStream l s' k).
  assert (Ei : inFlight s' = b) by (unfold s'; by destruct (isLost e)).
  assert (Hs' : lane_ok s').
  { destruct Hls as [Hw Hlost Hp]. split.
    - rewrite Ei, Hm, (wireCount_delete _ _ e) by done. unfold s'. pose proof (wireCount_bound _ Hbs).
      destruct (isLost e) eqn:El; simpl; rewrite Hw; [lia|]. apply wrap_small.
      pose proof (wireCount_delete _ _ e (eq_sym Ht)) as Hd. rewrite El in Hd.
      assert (0 <= wireCount (delete sq (SeqBuf.to_map (inFlight s)))) by (unfold wireCount; lia).
      unfold is_uint. lia.
    - intros j x. rewrite Ei, Hm. intros [_ Hx]%lookup_delete_Some Hl.
      assert (lost s' = lost s) as -> by (unfold s'; by destruct (isLost e)). eauto.
    - unfold s'. by destruct (isLost e). }
  assert (Hb' : buffered k').
  { intros j. unfold k'. rewrite view_set. case_decide; [by rewrite Ei|apply Hb]. }
  assert (Hfly : forall j n x, flying k' j n x -> flying k j n x).
  { intros j n x [Hx Hl]. split; [|done]. rewrite entryAt_map in * by done. unfold k' in Hx.
    rewrite view_set in Hx. case_decide as Ej; [|done]. rewrite Ej, Ev. rewrite Ei, Hm in Hx.
    by apply lookup_delete_Some in Hx as [_ ?]. }
  assert (Ht' : timers_ok (mSent k') k').
  2:{ assert (H2 : tends k' (k' <| mLargestAcked ::= fun n => Z.max n (transmission e) |>)) by by apply tends_same.
      by destruct (H2 Hb' Ht' Hc) as (? & ? & ? & ?). }
  split; try done.
  - intros j. unfold k'. rewrite view_set. case_decide; [done|apply L].
  - intros j n x H%Hfly. by apply R.
  - intros j n x j' n' x' H%Hfly H'%Hfly. by apply (T j n x j' n' x').
Qed.

Lemma releaseList_tends l sqs p : tends p.2 (fold_left (releaseSeq l) sqs p).2.
Proof. revert p. induction sqs as [|sq sqs IH]; intros p; simpl; [done|]. etrans; [apply releaseSeq_tends|apply IH]. Qed.

Lemma releaseAcked_tends l a rs base lastSent p : tends p.2 (releaseAcked l a rs base lastSent p).2.
Proof.
  unfold releaseAcked. set (p1 := releaseRange l base (Z.min a lastSent) p).
  trans p1.2; [apply releaseList_tends|]. clearbody p1. revert p1.
  induction rs as [|r rs IH]; intros p'; simpl; [done|]. etrans; [|apply IH].
  destruct (lastSent <? first r); [done|apply releaseList_tends].
Qed.

(** *** Losses *)
Definition overtaken (k : ReliableLink) (r : SentRecord) (_ : InFlight) : bool :=
  u64 (srTransmission r + FastRetransmitThreshold) <=? mLargestAcked k.

Lemma overtaken_small k q r e :
  timers_ok q k -> r ∈ q -> overtaken k r e = (srTransmission r + FastRetransmitThreshold <=? mLargestAcked k).
Proof.
  intros Ht Hr. unfold overtaken. destruct Ht as [_ _ _ B C _]. specialize (B r Hr).
  change FastRetransmitThreshold with 3. rewrite wrap_small; [done|]. unfold is_uint. lia.
Qed.

Lemma detectLosses_expired k :
  buffered k -> timers_ok (mSent k) k ->
  expired (overtaken k) k (detectLosses k).1 (detectLosses k).2.
Proof.
  intros Hb Ht. unfold detectLosses.
  destruct (expire_spec (overtaken k)
    (fun r _ k => mLargestAcked k <? u64 (srTransmission r + FastRetransmitThreshold)) false (fun k => k) k)
    with (q := mSent k) (found := false) (k := k) as (more & -> & H); try done.
  - intros r e k' Hc. unfold overtaken. rewrite (cs_acked _ _ Hc). apply Z.ltb_antisym.
  - intros l sq e l' sq' e' Hf Hf' Hlt. pose proof (tk_record _ _ Ht _ _ _ Hf) as Hr.
    pose proof (tk_record _ _ Ht _ _ _ Hf') as Hr'.
    rewrite !(overtaken_small k (mSent k)) by done. simpl. lia.
Qed.

Definition timedOut (k : ReliableLink) (now : TimePoint) (_ : SentRecord) (e : InFlight) : bool :=
  sentAt e + us (Rtt.timeoutFor (mRtt k) (mTimeoutsInARow k)) <=? now.

Lemma timeouts_expired k now :
  buffered k -> timers_ok (mSent k) k ->
  let r := expire (fun _ e _ => now <? sentAt e + us (Rtt.timeoutFor (mRtt k) (mTimeoutsInARow k)))
             true (bump timerWork) (mSent k) false k in
  expired (timedOut k now) k r.1 r.2.
Proof.
  intros Hb Ht. cbn zeta.
  destruct (expire_spec (timedOut k now)
    (fun _ e _ => now <? sentAt e + us (Rtt.timeoutFor (mRtt k) (mTimeoutsInARow k))) true (bump timerWork) k)
    with (q := mSent k) (found := false) (k := k) as (more & -> & H); try done.
  - intros r e k' _. unfold timedOut. apply Z.ltb_antisym.
  - intros l sq e l' sq' e' Hf Hf' Hlt. unfold timedOut. rewrite !Z.leb_le.
    pose proof (tk_time _ _ Ht _ _ _ _ _ _ Hf Hf'). lia.
Qed.

Lemma losses_tend k : tends k (detectLosses k).2.
Proof.
  intros Hb Ht Hc. pose proof (detectLosses_expired k Hb Ht) as Hx. split_and!; try apply Hx.
  - unfold detectLosses. by apply expire_cwnd.
  - by eapply expired_grounded.
Qed.

Lemma timers_recounted q k k' :
  mStreams k' = mStreams k -> mTransmissions k' = mTransmissions k -> timers_ok q k -> timers_ok q k'.
Proof. intros E. apply timers_views. intros l. unfold view. by rewrite E. Qed.

Lemma moveWindow_tends l k : tends k (moveWindow l k).
Proof.
  unfold moveWindow. destruct (mStreams k l) as [s|] eqn:Es; [|done].
  assert (H : forall n s, inFlight (advanceBase n s) = inFlight s /\ (lane_ok s -> lane_ok (advanceBase n s))).
  { clear. intros n. induction n as [|n IH]; intros s; simpl; [done|]. destruct (_ && _); [|done].
    destruct (IH (s <| sendBase ::= fun n => u64 (n + 1) |>)) as [Ei Hl]. split; [by rewrite Ei|].
    intros []. by apply Hl. }
  destruct (H (Z.to_nat (nextSendSeq s - sendBase s)) s). apply tends_set; by rewrite (view_some _ _ _ Es).
Qed.

Lemma growWindow_tends l losses r k : 0 <= counted r -> tends k (growWindow l losses r k).
Proof.
  intros Hr Hb Ht Hc. unfold growWindow. destruct (_ && _) eqn:E; [|done].
  split_and!; [done|by apply (timers_recounted _ k)| |by apply grounded_views].
  unfold cwnd_ok in *. simpl. apply andb_prop in E as [_ Ef]. apply Z.eqb_eq in Ef.
  rewrite Ef in *. simpl in *. by apply grown_window.
Qed.

Lemma takeSample_kept r now k :
  mStreams (takeSample r now k) = mStreams k /\ mSent (takeSample r now k) = mSent k /\
  mTransmissions (takeSample r now k) = mTransmissions k /\
  mTimings (takeSample r now k) = mTimings k /\ mCongestionWindow (takeSample r now k) = mCongestionWindow k.
Proof. unfold takeSample. by repeat case_match. Qed.

(** *** The clock after losses were found *)
Lemma front_same k k' :
  mStreams k' = mStreams k -> mSent k' = mSent k ->
  match mSent k with r :: _ => is_Some (entryOf k r) | [] => True end ->
  match mSent k' with r :: _ => is_Some (entryOf k' r) | [] => True end.
Proof. intros Es Eq. rewrite Eq. destruct (mSent k) as [|r q]; [done|]. unfold entryOf. by rewrite Es. Qed.

Lemma releaseAcked_counted l a rs base lastSent p :
  0 <= counted p.1 -> 0 <= counted (releaseAcked l a rs base lastSent p).1.
Proof.
  assert (H1 : forall p sq, 0 <= counted p.1 -> 0 <= counted (releaseSeq l p sq).1).
  { intros [r k] sq Hr. simpl in *. destruct (mStreams k l); [|done].
    destruct (SeqBuf.take _ sq) as [[e|] b]; [|done]. simpl. destruct (_ && _); simpl; repeat case_match; lia. }
  assert (H2 : forall sqs p, 0 <= counted p.1 -> 0 <= counted (fold_left (releaseSeq l) sqs p).1).
  { intros sqs. induction sqs as [|sq sqs IH]; intros p' Hp; simpl; [done|]. apply IH. by apply H1. }
  intros Hp. unfold releaseAcked, releaseRange.
  assert (Hq := H2 (seqZ base (Z.min a lastSent - base + 1)) p Hp). revert Hq.
  generalize (fold_left (releaseSeq l) (seqZ base (Z.min a lastSent - base + 1)) p).
  induction rs as [|r rs IH]; intros p' Hp'; simpl; [done|]. apply IH. destruct (lastSent <? first r); [done|by apply H2].
Qed.

Lemma growWindow_kept l losses r k :
  mStreams (growWindow l losses r k) = mStreams k /\ mSent (growWindow l losses r k) = mSent k /\
  mStalledSince (growWindow l losses r k) = mStalledSince k.
Proof. unfold growWindow. by case_match. Qed.

(** ** The operations *)
Definition armed_step (k k' : ReliableLink) : Prop :=
  buffered k -> armed k -> buffered k' /\ armed k' /\ grounded k k'.
#[global] Instance armed_step_preorder : PreOrder armed_step.
Proof.
  split; [by intros k|]. intros k1 k2 k3 H1 H2 Hb Ha. destruct (H1 Hb Ha) as (? & ? & ?).
  destruct H2 as (? & ? & ?); try done. split_and!; try done. by etrans.
Qed.

Lemma handleAck_armed l h b now k : armed_step k (handleAck l h b now k).
Proof.
  intros Hb Ha. unfold handleAck. destruct (mStreams k l) as [s|] eqn:Es; [|done].
  destruct (decodeAck b) as [[ack|]|]; [|done..]. cbn zeta.
  pose proof (noteAck_tends l s ack (isPaused (flags h)) now k Es) as H1.
  set (k1 := noteAck _ _ _ _ _ _) in *. clearbody k1.
  pose proof (releaseAcked_tends l (seq h) (ranges ack) (sendBase s) (u64 (nextSendSeq s - 1)) (noneReleased, k1)) as H2.
  pose proof (releaseAcked_counted l (seq h) (ranges ack) (sendBase s) (u64 (nextSendSeq s - 1)) (noneReleased, k1) ltac:(done)) as Hr.
  destruct (releaseAcked l (seq h) (ranges ack) (sendBase s) (u64 (nextSendSeq s - 1)) (noneReleased, k1)) as [r k2].
  cbn [fst snd] in H2, Hr. set (k3 := takeSample r now (moveWindow l k2)).
  assert (H3 : tends k k3).
  { etrans; [exact H1|]. etrans; [exact H2|]. etrans; [apply moveWindow_tends|].
    destruct (takeSample_kept r now (moveWindow l k2)) as (? & ? & ? & ? & ?). by apply tends_same. }
  clearbody k3. destruct Ha as [Ht _ _ Hc]. destruct (H3 Hb Ht Hc) as (Hb3 & Ht3 & Hc3 & G3).
  pose proof (detectLosses_expired k3 Hb3 Ht3) as Hx. destruct (losses_tend k3 Hb3 Ht3 Hc3) as (Hb4 & Ht4 & Hc4 & G4).
  destruct (detectLosses k3) as [losses k4]. cbn [fst snd] in *.
  set (k5 := updateProgressClock now (0 <? acked r) k4).
  destruct (updateProgressClock_kept now (0 <? acked r) k4) as (Es5 & Eq5 & _).
  destruct (growWindow_kept l losses r k5) as (Es6 & Eq6 & Est6).
  destruct (updateProgressClock_tends now (0 <? acked r) k4 Hb4 Ht4 Hc4) as (Hb5 & Ht5 & Hc5 & G5).
  destruct (growWindow_tends l losses r k5 Hr Hb5 Ht5 Hc5) as (Hb6 & Ht6 & Hc6 & G6).
  split; [done|]. split; [split; try done|by do 3 (etrans; [done|])].
  - eapply front_same; [exact Es6|exact Eq6|]. eapply front_same; [exact Es5|exact Eq5|]. apply Hx.
  - rewrite Est6. unfold k5. rewrite updateProgressClock_clock. fold k5. unfold waiting. by rewrite Es6.
Qed.

(** *** A transmission *)
Definition by_now (now : TimePoint) (k : ReliableLink) : Prop :=
  forall l sq e, flying k l sq e -> sentAt e <= now.

(** What is handed to [transmit]: [s] has the packet [sq] in its window, but neither its
    count nor the records know it. *)
Record departing (l : Lane) (s : Stream) (sq : Z) (e : InFlight) (k : ReliableLink) : Prop := {
  dp_buffer : SeqBuf.buffer_ok (inFlight s);
  dp_entry : SeqBuf.to_map (inFlight s) !! sq = Some e;
  dp_wire : onTheWire s = wireCount (delete sq (SeqBuf.to_map (inFlight s)));
  dp_lost : forall j x, j <> sq -> SeqBuf.to_map (inFlight s) !! j = Some x -> isLost x = true -> j ∈ lost s;
  dp_probe : peerPaused s = bool_decide (is_Some (probeAt s));
  dp_others : forall j, j <> sq -> SeqBuf.to_map (inFlight s) !! j = entryAt k l j;
  dp_new : forall x, ~ flying k l sq x;
}.

Definition flown (e : InFlight) (now : TimePoint) (k : ReliableLink) : InFlight :=
  e <| isLost := false |> <| sentAt := now |> <| transmission := u64 (mTransmissions k + 1) |>
    <| transmissions ::= fun n => u16 (n + 1) |>.

Definition flownStream (s : Stream) (sq : Z) (e : InFlight) : Stream :=
  s <| inFlight ::= fun b => SeqBuf.modify b sq (fun _ => e) |> <| onTheWire ::= fun n => u64 (n + 1) |>.

(** [transmit] before the clock is looked at. *)
Lemma transmit_shape l s sq e now k :
  exists k', transmit l s sq e now k = updateProgressClock now false k' /\
    (forall j, view j k' = if decide (j = l) then flownStream s sq (flown e now k) else view j k) /\
    mSent k' = mSent k ++ [mkSent (u64 (mTransmissions k + 1)) sq l] /\
    mTransmissions k' = u64 (mTransmissions k + 1) /\ mTimings k' = mTimings k /\
    mCongestionWindow k' = mCongestionWindow k.
Proof.
  unfold transmit. cbn zeta. set (k0 := if transmissions e =? 0 then _ else _).
  assert (E0 : mStreams k0 = mStreams k /\ mSent k0 = mSent k /\ mTransmissions k0 = mTransmissions k /\
    mTimings k0 = mTimings k /\ mCongestionWindow k0 = mCongestionWindow k) by (unfold k0; by destruct (_ =? _)).
  clearbody k0. destruct E0 as (Es & Eq & Et & Etm & Ec).
  set (k1 := k0 <| mTransmissions ::= _ |>). set (e1 := e <| isLost := false |> <| sentAt := now |> <| transmission := _ |> <| transmissions ::= _ |>).
  assert (Ee : e1 = flown e now k) by (unfold e1, flown; simpl; by rewrite Et).
  set (k2 := if (transmissions e1 =? 1) && _ then bumpBy bytesSent (ifLength e1) k1 else k1).
  assert (E2 : mStreams k2 = mStreams k /\ mSent k2 = mSent k /\ mTransmissions k2 = u64 (mTransmissions k + 1) /\
    mTimings k2 = mTimings k /\ mCongestionWindow k2 = mCongestionWindow k).
  { unfold k2. destruct (_ && _); unfold k1; simpl; by rewrite Es, Eq, Et, Etm, Ec. }
  clearbody k2. destruct E2 as (Es2 & Eq2 & Et2 & Etm2 & Ec2).
  eexists. split; [done|]. simpl. split_and!; try done.
  - intros j. unfold view. simpl. case_decide; [simpl; by rewrite Ee|by rewrite Es2].
  - rewrite Eq2, Et. done.
Qed.

Lemma flownStream_lane s sq e x :
  SeqBuf.buffer_ok (inFlight s) -> SeqBuf.to_map (inFlight s) !! sq = Some x -> isLost e = false ->
  onTheWire s = wireCount (delete sq (SeqBuf.to_map (inFlight s))) ->
  (forall j x, j <> sq -> SeqBuf.to_map (inFlight s) !! j = Some x -> isLost x = true -> j ∈ lost s) ->
  peerPaused s = bool_decide (is_Some (probeAt s)) ->
  SeqBuf.buffer_ok (inFlight (flownStream s sq e)) /\
  SeqBuf.to_map (inFlight (flownStream s sq e)) = <[sq := e]> (SeqBuf.to_map (inFlight s)) /\
  lane_ok (flownStream s sq e).
Proof.
  intros Hb Hx Hl Hw Hlost Hp.
  assert (Hb' : SeqBuf.buffer_ok (inFlight (flownStream s sq e))) by by apply SeqBuf.modify_ok.
  assert (Em : SeqBuf.to_map (inFlight (flownStream s sq e)) = <[sq := e]> (SeqBuf.to_map (inFlight s))).
  { change (inFlight (flownStream s sq e)) with (SeqBuf.modify (inFlight s) sq (fun _ => e)).
    rewrite SeqBuf.modify_map by done. apply map_eq. intros j.
    destruct (decide (j = sq)) as [->|]; [|by rewrite lookup_alter_ne, lookup_insert_ne].
    by rewrite lookup_alter_eq, lookup_insert_eq, Hx. }
  split_and!; [done..|]. split; rewrite ?Em; try done.
  - pose proof (wireCount_bound _ Hb') as Hbound. rewrite Em in Hbound.
    rewrite <- insert_delete_eq, wireCount_insert in * by apply lookup_delete_eq. rewrite Hl in *.
    simpl. rewrite Hw. apply wrap_small. unfold is_uint.
    assert (0 <= wireCount (delete sq (SeqBuf.to_map (inFlight s)))) by (unfold wireCount; lia). lia.
  - intros j y [[<- <-]|[Hne Hy]]%lookup_insert_Some Hly; [congruence|]. by eapply Hlost.
Qed.

Lemma transmit_armed l s sq e now k :
  buffered k -> armed k -> by_now now k -> mTransmissions k < 2 ^ 63 -> departing l s sq e k ->
  buffered (transmit l s sq e now k) /\ armed (transmit l s sq e now k) /\ by_now now (transmit l s sq e now k).
Proof.
  intros Hb [[L R S B C T] Hf _ Hcw] Hnow Hlim [Db De Dw Dl Dp Do Dn].
  destruct (transmit_shape l s sq e now k) as (k1 & -> & Ev & Eq & Et & Etm & Ec).
  assert (Ewrap : u64 (mTransmissions k + 1) = mTransmissions k + 1).
  { apply wrap_small. unfold is_uint. lia. }
  set (e' := flown e now k) in *. assert (Etr : transmission e' = mTransmissions k + 1) by (simpl; exact Ewrap).
  rewrite Ewrap in *.
  destruct (flownStream_lane s sq e' e) as (Hb' & Em & Hlane); try done.
  assert (Hb1 : buffered k1) by (intros j; rewrite Ev; case_decide; [done|apply Hb]).
  assert (Hat : forall j n, entryAt k1 j n = if decide (j = l /\ n = sq) then Some e' else
      if decide (j = l) then SeqBuf.to_map (inFlight s) !! n else entryAt k j n).
  { intros j n. rewrite entryAt_map, Ev by done. destruct (decide (j = l)) as [->|]; cycle 1.
    - rewrite decide_False by naive_solver. by rewrite entryAt_map.
    - rewrite Em. destruct (decide (n = sq)) as [->|].
      + rewrite decide_True, lookup_insert_eq by done. done.
      + rewrite decide_False by naive_solver. by rewrite lookup_insert_ne. }
  assert (Hfly : forall j n x, flying k1 j n x -> (j = l /\ n = sq /\ x = e') \/ flying k j n x).
  { intros j n x [Hx Hl]. rewrite Hat in Hx. case_decide as E1; [left; destruct E1; by simplify_eq|right].
    case_decide as E2; [|done]. subst j. rewrite Do in Hx by naive_solver. done. }
  assert (Hbound : forall j n x, flying k j n x -> transmission x <= mTransmissions k).
  { intros j n x Hx. specialize (R j n x Hx). by apply B in R as [_ ?]. }
  assert (Ht1 : timers_ok (mSent k1) k1).
  { split; rewrite ?Et.
    - intros j. rewrite Ev. by case_decide.
    - intros j n x Hx. rewrite Eq. apply elem_of_app.
      destruct (Hfly j n x Hx) as [(-> & -> & ->)|Hx']; [right|left; by apply R].
      rewrite Etr. by apply list_elem_of_singleton.
    - rewrite Eq. apply sorted_snoc; [done|]. intros r Hr. specialize (B r Hr). simpl. lia.
    - intros r. rewrite Eq. intros [Hr|Hr]%elem_of_app; [specialize (B r Hr); lia|].
      apply list_elem_of_singleton in Hr as ->. simpl. lia.
    - lia.
    - intros j n x j' n' x' Hx Hx' Hle.
      destruct (Hfly j n x Hx) as [(-> & -> & ->)|Hy], (Hfly j' n' x' Hx') as [(-> & -> & ->)|Hy']; [done| |by eapply Hnow|by eapply T].
      specialize (Hbound _ _ _ Hy'). lia. }
  assert (Hc1 : cwnd_ok k1) by (unfold cwnd_ok in *; by rewrite Etm, Ec).
  destruct (updateProgressClock_tends now false k1 Hb1 Ht1 Hc1) as (Hb2 & Ht2 & Hc2 & _).
  destruct (updateProgressClock_kept now false k1) as (Es2 & Eq2 & _).
  split; [done|]. split; [split; try done|].
  - eapply front_same; [exact Es2|exact Eq2|]. rewrite Eq. destruct (mSent k) as [|r q]; simpl.
    + exists e'. apply entryOf_Some; [done|]. simpl. split; [|lia]. split; [|done]. rewrite Hat, decide_True by done. done.
    + destruct Hf as [x Hx]. exists x. apply entryOf_Some; [done|]. apply entryOf_Some in Hx as [Hx Hxt]; [|done].
      split; [|done]. destruct Hx as [Hx Hxl]. split; [|done]. rewrite Hat.
      assert (Hne : ~ (srLane r = l /\ srSeq r = sq)).
      { intros [E1 E2]. rewrite E1, E2 in Hx. by apply (Dn x). }
      rewrite decide_False by done. case_decide as E; [|done]. rewrite Do by naive_solver. by rewrite <- E.
  - apply updateProgressClock_clock.
  - intros j n x [Hx Hl]. assert (Hx1 : flying k1 j n x) by (split; [|done]; unfold entryAt, view in *; by rewrite Es2 in Hx).
    destruct (Hfly j n x Hx1) as [(-> & -> & ->)|Hy]; [done|by eapply Hnow].
Qed.

(** A stream that keeps its packets and its pause. *)
Lemma armed_set l s' k :
  inFlight s' = inFlight (view l k) -> peerPaused s' = peerPaused (view l k) ->
  (lane_ok (view l k) -> lane_ok s') -> armed_step k (setStream l s' k).
Proof.
  intros Ei Ep Hl Hb [Ht Hf Hc Hw]. destruct (tends_set l s' k Ei Hl Hb Ht Hw) as (Hb' & Ht' & Hw' & Hg).
  split; [done|]. split; [|done]. split; try done.
  - change (mSent (setStream l s' k)) with (mSent k). destruct (mSent k) as [|r q]; [done|].
    rewrite entryOf_at in * by done. unfold entryAt in *. rewrite view_set. case_decide as E; [|done].
    by rewrite Ei, <- E.
  - change (mStalledSince (setStream l s' k)) with (mStalledSince k). rewrite Hc. symmetry.
    apply waiting_same; intros j; rewrite view_set; case_decide as E; try done; subst j; by rewrite ?Ei, ?Ep.
Qed.

Lemma nextLost_lane s : SeqBuf.buffer_ok (inFlight s) -> lane_ok s -> lane_ok (nextLost s).2.
Proof.
  intros Hb [Hw Hl Hp]. unfold nextLost. pose proof (dropStale_spec (inFlight s) (lost s)) as H.
  assert (Hkeep : forall st l', lost s = st ++ l' ->
    Forall (fun j => match SeqBuf.find (inFlight s) j with Some e => isLost e = false | None => True end) st ->
    lane_ok (s <| lost := l' |>)).
  { intros st l' E Hst. split; simpl; try done. intros sq e He Hle. specialize (Hl sq e He Hle).
    rewrite E, elem_of_app in Hl. destruct Hl as [Hin|]; [|done]. rewrite Forall_forall in Hst.
    specialize (Hst sq Hin). rewrite SeqBuf.find_map, He in Hst by done. congruence. }
  destruct (dropStale (inFlight s) (lost s)) as [[[sq e]|] l'].
  - destruct H as (st & E & _ & _ & _ & Hst). by eapply Hkeep.
  - destruct H as [-> Hst]. apply (Hkeep (lost s)); [by rewrite app_nil_r|done].
Qed.

Lemma armed_step_same k k' : (forall l, mStreams k' l = mStreams k l) -> sends_kept k k' -> armed_step k k'.
Proof.
  intros Es Hk Hb Ha. assert (Hv : forall l, send_equal (view l k) (view l k')) by (intros l; unfold view; by rewrite Es).
  split_and!; [by eapply buffered_views|by eapply armed_views|by apply grounded_views].
Qed.

Lemma nextLost_armed l s k : mStreams k l = Some s -> armed_step k (setStream l (nextLost s).2 k).
Proof.
  intros Es Hb Ha. pose proof (view_some _ _ _ Es) as Ev. pose proof (Hb l) as Hbl. rewrite Ev in Hbl.
  apply armed_set; try done; rewrite Ev; unfold nextLost; destruct (dropStale _ _) eqn:E; try done.
  intros Hl. pose proof (nextLost_lane s Hbl Hl) as H. unfold nextLost in H. by rewrite E in H.
Qed.

Section Source.
Context {S : Type} `{!MessageSource S}.

Lemma peekNext_armed l k (src : S) : armed_step k (peekNext l k src).1.2.
Proof.
  unfold peekNext. destruct (s ← mStreams k l; c ← cursor s; Some (s, c)) as [[s c]|].
  { by apply armed_step_same. }
  destruct (next src l) as [[m|] src']; [|done].
  assert (Est : streamFor l k = (view l k, k) \/ streamFor l k = (view l k, setStream l (view l k) k)).
  { unfold streamFor, view. destruct (mStreams k l); [by left|by right]. }
  assert (Hset : armed_step k (setStream l ((view l k) <| cursor := Some (cursorFor m) |>) k)).
  { intros Hb Ha. apply armed_set; try done. by intros []. }
  destruct Est as [-> | ->]; cbn [fst snd].
  - etrans; [exact Hset|]. by apply armed_step_same.
  - etrans; [exact Hset|]. apply armed_step_same; [|done]. intros j. simpl. by repeat case_decide.
Qed.

Lemma peek_armed l k (src : S) : armed_step k (peek l k src).1.2.
Proof.
  unfold peek. destruct (mFailed k); [done|]. destruct (decide (l = Media)).
  { unfold peekMedia. destruct (mMediaCursor k); [by apply armed_step_same|].
    destruct (next src Media) as [[m|] src']; [by apply armed_step_same|done]. }
  destruct (mStreams k l) as [s|] eqn:Es.
  2:{ destruct (negb _); [done|apply peekNext_armed]. }
  pose proof (nextLost_armed l s k Es) as H. destruct (nextLost s) as [r s']. cbn [snd] in H.
  destruct (_ && _); [done|]. destruct (peerPaused s'); [done|].
  destruct (negb _); [done|]. etrans; [exact H|].
  destruct r as [[sq e]|]; [by apply armed_step_same|apply peekNext_armed].
Qed.
End Source.

(** What [commit] sends is new to the records. *)
Lemma retransmit_departing l k s sq e :
  buffered k -> (forall j, lane_ok (view j k)) -> mStreams k l = Some s ->
  nextLost s = (Some (sq, e), s) -> departing l (s <| lost ::= tail |>) sq e k.
Proof.
  intros Hb L Es Hn. pose proof (view_some _ _ _ Es) as Ev. pose proof (Hb l) as Hbl. rewrite Ev in Hbl.
  pose proof (dropStale_spec (inFlight s) (lost s)) as H. unfold nextLost in Hn.
  destruct (dropStale (inFlight s) (lost s)) as [[[sq' e']|] l']; [|done]. injection Hn as -> -> E.
  destruct H as (_ & _ & Hhd & Hf & Hl & _). destruct (L l) as [Hw Hlost Hp]. rewrite Ev in *.
  rewrite SeqBuf.find_map in Hf by done. split; simpl; try done.
  - rewrite (wireCount_delete _ _ e), Hl by done. rewrite Hw. lia.
  - intros j x Hne Hx Hlx. specialize (Hlost j x Hx Hlx).
    assert (El : lost s = l') by (rewrite <- E at 1; done). rewrite El in Hlost |- *.
    destruct l' as [|y l']; simplify_eq/=. apply elem_of_cons in Hlost as [->|]; done.
  - intros j _. by rewrite entryAt_map, Ev.
  - intros x [Hx Hlx]. rewrite entryAt_map, Ev in Hx by done. congruence.
Qed.

Lemma fragment_departing l k s c :
  window_ok l s -> lane_ok s -> buffered k -> mStreams k l = Some s ->
  nextSendSeq s - sendBase s < windowOf l ->
  departing l (sentStream s c) (nextSendSeq s) (fragmentAt c) k.
Proof.
  intros Hw [Hwire Hlost Hp] Hb Es Hroom. pose proof (view_some _ _ _ Es) as Ev.
  assert (Hnone : SeqBuf.to_map (inFlight s) !! nextSendSeq s = None).
  { destruct (SeqBuf.to_map (inFlight s) !! nextSendSeq s) as [x|] eqn:E; [|done].
    assert (Hin : is_Some (send_map s !! nextSendSeq s)) by (unfold send_map; by rewrite lookup_fmap, E).
    apply (wo_range l s Hw) in Hin. lia. }
  assert (Em : SeqBuf.to_map (inFlight (sentStream s c)) = <[nextSendSeq s := fragmentAt c]> (SeqBuf.to_map (inFlight s))).
  { change (inFlight (sentStream s c)) with (SeqBuf.insert (inFlight s) (nextSendSeq s) (fragmentAt c)).
    apply SeqBuf.insert_map_window; [apply Hw|]. intros j Hj.
    assert (Hin : is_Some (send_map s !! j)) by (unfold send_map; by rewrite lookup_fmap, fmap_is_Some).
    apply (wo_range l s Hw) in Hin. pose proof (wo_capacity l s Hw) as Hc. unfold SeqBuf.capacity in Hc. rewrite Hc. lia. }
  split; rewrite ?Em.
  - change (inFlight (sentStream s c)) with (SeqBuf.insert (inFlight s) (nextSendSeq s) (fragmentAt c)).
    apply SeqBuf.insert_ok, Hw.
  - by rewrite lookup_insert_eq.
  - rewrite delete_insert_id by done. exact Hwire.
  - intros j x Hne Hx Hlx. rewrite lookup_insert_ne in Hx by done. by eapply Hlost.
  - exact Hp.
  - intros j Hne. by rewrite lookup_insert_ne, entryAt_map, Ev.
  - intros x [Hx _]. rewrite entryAt_map, Ev in Hx by done. congruence.
Qed.

(** A link with the clock at [now]. *)
Definition armed_by (now : TimePoint) (k : ReliableLink) : Prop := buffered k /\ armed k /\ by_now now k.

Lemma commit_armed l now k d :
  l <> Media -> windows_ok k -> peeked l k d -> mTransmissions k < 2 ^ 63 ->
  armed_by now k -> armed_by now (commit l now k).
Proof.
  intros Hl Hw (s & Es & Hn & Hd) Hlim (Hb & Ha & Hnow).
  destruct (Hw l s Es) as [_ Hws]. pose proof (tk_lanes _ _ (ar_timers _ Ha)) as L.
  pose proof (L l) as Hls. rewrite (view_some _ _ _ Es) in Hls.
  unfold commit. rewrite decide_False, Es, Hn by done.
  destruct (nextLost s).1 as [[sq e]|] eqn:E1; cbn [fst snd].
  - apply transmit_armed; try done. by apply retransmit_departing.
  - destruct Hd as (c & Hc & Hroom & _). rewrite Hc. apply transmit_armed; try done.
    by apply fragment_departing.
Qed.

(** *** The timer *)
Lemma expired_armed old k found k' :
  expired old k found k' -> cwnd_ok k' -> armed_step k k'.
Proof.
  intros Hx Hc Hb Ha. pose proof (expired_waiting _ _ _ _ Hb Hx) as Ew.
  pose proof (expired_grounded _ _ _ _ Hx) as Hg. destruct Hx as [Hb' Ht _ Hf [? ? ? ? ? Es ?] _ _].
  split; [done|]. split; [|done]. split; try done. by rewrite Es, Ew, (ar_clock _ Ha).
Qed.

Lemma probeLane_armed now k l : armed_step k (probeLane now k l).
Proof.
  unfold probeLane. destruct (mStreams k l) as [s|] eqn:Es; [|done].
  destruct (probeAt s) as [at_|]; [|done]. destruct (_ && _) eqn:E; [|done]. apply andb_prop in E as [Ep _].
  cbn zeta. trans (raise mPingDue l k); [by apply armed_step_same|].
  apply armed_set; try done; change (view l (raise mPingDue l k)) with (view l k);
    rewrite (view_some _ _ _ Es); try done. intros [? ? _]. by split.
Qed.

(** [onTimer] up to the loop over the records: the peer is pinged when it has been silent. *)
Definition pinged (now : TimePoint) (k : ReliableLink) : ReliableLink :=
  match mLastReceived k, mRemoteStreamID k with
  | Some received, Some _ =>
    if ms (keepAlive (mTimings k)) <=? now - Z.max received (mPingedAt k)
    then (raise mPingDue Control k) <| mPingedAt := now |> else k
  | _, _ => k
  end.

Lemma pinged_kept now k : (forall l, mStreams (pinged now k) l = mStreams k l) /\ sends_kept k (pinged now k).
Proof. unfold pinged. repeat case_match; done. Qed.

Lemma onTimer_live now k :
  mFailed k = false ->
  timedOutSince now (ms (peerTimeout (mTimings k))) (mStalledSince k) = false ->
  timedOutSince now (ms (peerTimeout (mTimings k))) (mLastReceived k) = false ->
  exists found k1, expire (fun _ e _ => now <? sentAt e + us (Rtt.timeoutFor (mRtt k) (mTimeoutsInARow k)))
      true (bump timerWork) (mSent k) false (pinged now k) = (found, k1) /\
    onTimer now k = fold_left (probeLane now) StreamLanes
      (if found && (mTimeoutsInARow k1 <? MaxBackoffSteps) then k1 <| mTimeoutsInARow ::= Z.succ |> else k1).
Proof.
  intros Hf H1 H2. unfold onTimer. rewrite Hf, H1, H2. cbn [orb]. fold (pinged now k).
  destruct (pinged_kept now k) as [_ [Eq _ _ _ Er Eb _ _]]. rewrite Eq, Er, Eb.
  destruct (expire _ true (bump timerWork) (mSent k) false (pinged now k)) as [found k1]. by exists found, k1.
Qed.

Lemma initialWindow_ok t :
  if 0 <? fixedCwnd t then initialWindow t = dofZ (fixedCwnd t)
  else (inject_Z MinCongestionWindow <= initialWindow t <= inject_Z MaxCongestionWindow)%Q.
Proof.
  unfold initialWindow. destruct (0 <? fixedCwnd t); [done|].
  set (n := Rtt.clampTo _ _ _). assert (Hn : MinCongestionWindow <= n <= MaxCongestionWindow).
  { unfold n, Rtt.clampTo. change MinCongestionWindow with 8. change MaxCongestionWindow with 256.
    destruct (Z.ltb_spec (initialCwnd t) 8), (Z.ltb_spec 256 (initialCwnd t)); lia. }
  destruct (Qeq_le _ _ (dofZ_exact n ltac:(change MinCongestionWindow with 8 in *; change MaxCongestionWindow with 256 in *; lia)))
    as [Hlo Hhi].
  split; [eapply Qle_trans; [|exact Hhi]|eapply Qle_trans; [exact Hlo|]]; rewrite <- Zle_Qle; lia.
Qed.

Lemma fresh_flying k l sq e : (forall l, mStreams k l = None) -> ~ flying k l sq e.
Proof.
  intros Es [He _]. unfold entryAt, view in He. rewrite Es in He. simpl in He.
  rewrite SeqBuf.find_map, SeqBuf.newBuffer_map in He by apply new_buffer. done.
Qed.

(** A link with no stream and nothing sent. *)
Lemma fresh_armed now k :
  (forall l, mStreams k l = None) -> mSent k = [] -> mTransmissions k = 0 -> mStalledSince k = None ->
  mCongestionWindow k = initialWindow (mTimings k) -> armed_by now k.
Proof.
  intros Es Eq Et Est Ec.
  assert (Ev : forall l, view l k = newStream (windowOf l)) by (intros l; unfold view; by rewrite Es).
  assert (Hb : buffered k) by (intros l; rewrite Ev; apply new_buffer).
  assert (Hfly : forall l sq e, ~ flying k l sq e) by (intros; by apply fresh_flying).
  split; [done|]. split; [split|].
  - rewrite Eq. split; rewrite ?Et.
    + intros l. rewrite Ev. apply new_lane.
    + by intros l sq e H%Hfly.
    + constructor.
    + by intros r Hr%elem_of_nil.
    + lia.
    + by intros l sq e l' sq' e' H%Hfly.
  - by rewrite Eq.
  - rewrite Est. unfold waiting. simpl. by rewrite !Es.
  - unfold cwnd_ok. rewrite Ec. apply initialWindow_ok.
  - by intros l sq e H%Hfly.
Qed.

Lemma newLink_armed now t id gen b : armed_by now (newLink t id gen b).
Proof. by apply fresh_armed. Qed.

Lemma fail_streams k l : windows_ok k -> mStreams (fail k) l = None.
Proof.
  intros Hw. change (mStreams (fail k) l) with (mStreams (fold_left dropStream StreamLanes k) l).
  destruct (dropStream_fold StreamLanes k) as (_ & _ & _ & ->). case_decide as E; [done|].
  destruct (mStreams k l) as [s|] eqn:Es; [|done]. destruct (Hw l s Es) as [Hl _].
  destruct l; by (done || (exfalso; apply E; set_solver)).
Qed.

Lemma fail_armed now k : windows_ok k -> armed_by now (fail k).
Proof. intros Hw. apply fresh_armed; try done. intros l. by apply fail_streams. Qed.

Lemma fail_step k : windows_ok k -> armed_step k (fail k).
Proof.
  intros Hw _ _. destruct (fail_armed 0 k Hw) as (? & ? & _). split_and!; try done.
  intros l sq e Hfl. destruct (fresh_flying (fail k) l sq e); [|done]. intros. by apply fail_streams.
Qed.

Lemma probes_armed now ls k : armed_step k (fold_left (probeLane now) ls k).
Proof. revert k. induction ls as [|l ls IH]; intros k; simpl; [done|]. etrans; [apply probeLane_armed|apply IH]. Qed.

Lemma onTimer_armed now k : windows_ok k -> armed_step k (onTimer now k).
Proof.
  intros Hw Hb Ha. destruct (mFailed k) eqn:Hf; [unfold onTimer; by rewrite Hf|].
  destruct (timedOutSince now (ms (peerTimeout (mTimings k))) (mStalledSince k)
            || timedOutSince now (ms (peerTimeout (mTimings k))) (mLastReceived k)) eqn:Ex.
  { unfold onTimer. rewrite Hf, Ex. by apply fail_step. }
  apply orb_false_iff in Ex as [E1 E2]. destruct (onTimer_live now k Hf E1 E2) as (found & k1 & Ek & ->).
  destruct (pinged_kept now k) as [Es Hk]. destruct (armed_step_same _ _ Es Hk Hb Ha) as (Hb0 & Ha0 & _).
  pose proof (timeouts_expired (pinged now k) now Hb0 (ar_timers _ Ha0)) as Hx.
  pose proof (expire_cwnd (fun _ e _ => now <? sentAt e + us (Rtt.timeoutFor (mRtt k) (mTimeoutsInARow k)))
    true (bump timerWork) (mSent k) false (pinged now k) (fun _ H => H) (ar_window _ Ha0)) as Hc.
  pose proof Hk as [Eq _ _ _ Er Eb _ _]. rewrite Eq, Er, Eb in Hx. rewrite Ek in Hx, Hc. cbn [fst snd] in Hx, Hc.
  pose proof (expired_armed _ _ _ _ Hx Hc) as H1. set (k2 := if found && _ then _ else _).
  assert (H2 : armed_step k1 k2).
  { unfold k2. destruct (_ && _); [|done]. intros Hb1 Ha1. split; [done|]. split; [|by apply grounded_views]. destruct Ha1. split; try done.
    by apply (timers_recounted _ k1). }
  clearbody k2. enough (H : armed_step k (fold_left (probeLane now) StreamLanes k2)) by by apply H.
  etrans; [by apply armed_step_same|]. etrans; [exact H1|]. etrans; [exact H2|]. apply probes_armed.
Qed.

(** What the timer does to the packets in flight. *)
Lemma onTimer_entries now k :
  windows_ok k -> buffered k -> armed k -> mFailed k = false ->
  timedOutSince now (ms (peerTimeout (mTimings k))) (mStalledSince k) = false ->
  timedOutSince now (ms (peerTimeout (mTimings k))) (mLastReceived k) = false ->
  forall l sq, entryAt (onTimer now k) l sq = expireEntry (timedOut k now) l sq <$> entryAt k l sq.
Proof.
  intros Hw Hb Ha Hf E1 E2 l sq. destruct (onTimer_live now k Hf E1 E2) as (found & k1 & Ek & ->).
  destruct (pinged_kept now k) as [Es Hk]. destruct (armed_step_same _ _ Es Hk Hb Ha) as (Hb0 & Ha0 & _).
  pose proof (timeouts_expired (pinged now k) now Hb0 (ar_timers _ Ha0)) as Hx.
  destruct Hk as [Eq _ _ _ Er Eb _ _]. rewrite Eq, Er, Eb in Hx. rewrite Ek in Hx. cbn [fst snd] in Hx.
  assert (Hprobe : forall ls k, entryAt (fold_left (probeLane now) ls k) l sq = entryAt k l sq).
  { clear. intros ls. induction ls as [|j ls IH]; intros k; simpl; [done|]. rewrite IH. unfold probeLane.
    destruct (mStreams k j) as [s|] eqn:Es; [|done]. destruct (probeAt s); [|done]. destruct (_ && _); [|done].
    unfold entryAt. cbn zeta. rewrite view_set. case_decide as E; [|done]. subst. by rewrite (view_some _ _ _ Es). }
  rewrite Hprobe. set (k2 := if found && _ then _ else _).
  assert (E3 : entryAt k2 l sq = entryAt k1 l sq) by (unfold k2; by destruct (_ && _)).
  rewrite E3, (ex_entries _ _ _ _ Hx). unfold expireEntry, timedOut. rewrite Er, Eb.
  unfold entryAt, view. by rewrite Es.
Qed.
