(* ===== verification/LinkRuns.v ===== *)
(** * The life of a link

    [runs now k]: the link [k] can be there at the time [now], after any sequence of the
    calls of [ReliableLink.h] with a clock that does not go back, any source and any
    packets that pass the decoder. *)
From Stdlib Require Import QArith Sorted.
From S2P Require Import Prelude Double Constants PacketFlags PacketHeader AckRanges.
From S2P Require Import SequenceBuffer RttEstimator MessageAssembler MediaAssembler ReliableLink.
From S2P Require Import LinkStreams LinkReceive LinkWire Flow Protocol Delivery LinkTimers.

#[local] Open Scope Z_scope.
Import Budget Link.

(** ** Receiving leaves the send side alone *)
Lemma receives_armed j extra ps k k' s' :
  mStreams k' j = Some s' -> (forall i, i <> j -> mStreams k' i = mStreams k i) ->
  receives j extra ps (default (newStream (windowOf j)) (mStreams k j)) k s' (k' <| mStreams := mStreams k |>) ->
  armed_step k k'.
Proof.
  intros Hs' Ho Hrec. destruct (rc_absorbs _ _ _ _ _ _ _ Hrec) as [Hse [_ _ _ _ _ _ _ []] _]. simpl in *.
  assert (Hv : forall l, send_equal (view l k) (view l k')).
  { intros l. unfold view. destruct (decide (l = j)) as [->|]; [by rewrite Hs'|by rewrite Ho]. }
  intros Hb Ha. split_and!; [by eapply buffered_views|by eapply armed_views|by apply grounded_views].
Qed.

Lemma retryLane_armed l k : l <> Media -> link_ok k -> armed_step k (retryLane l k).
Proof.
  intros Hl Hok. destruct (retryLane_received l k Hl Hok) as [[_ ->]|(s' & ps & Hs' & Ho & Hrec)]; [done|].
  by eapply receives_armed.
Qed.

Lemma dispatch_armed p now k :
  link_ok k -> wire_header (header p) ->
  (kind (flags (header p)) = Data -> lane (flags (header p)) <> Media -> seq (header p) < 2 ^ 63) ->
  armed_step k (dispatch p now k).
Proof.
  intros Hok Hw Hseq. destruct (kind_cases p) as [Hk|[Hk|[Hk|Hk]]].
  - destruct (decide (lane (flags (header p)) = Media)) as [E|E].
    + unfold dispatch. rewrite Hk, decide_True by done. unfold handleMedia. cbn zeta.
      destruct (MediaAsm.accept _ _ _) as [[m|] asm]; by apply armed_step_same.
    + destruct (dispatch_data p now k Hok Hseq Hk E) as (s' & ps & Hs' & Ho & Hrec). by eapply receives_armed.
  - unfold dispatch. rewrite Hk. unfold existingStream. destruct (mStreams k _); [|done].
    apply handleAck_armed.
  - unfold dispatch. rewrite Hk. by apply armed_step_same.
  - unfold dispatch. by rewrite Hk.
Qed.

Lemma onPacket_armed p now k :
  link_ok k -> wire_header (header p) ->
  (kind (flags (header p)) = Data -> lane (flags (header p)) <> Media -> seq (header p) < 2 ^ 63) ->
  armed_step k (onPacket p now k).
Proof.
  intros Hok Hw Hseq. unfold onPacket. destruct (mFailed k) eqn:Hf; [done|].
  destruct (_ || _); [by apply armed_step_same|]. cbn zeta.
  set (k1 := match mLastReceived _ with Some _ => _ | None => _ end).
  assert (Hk1 : keeps k k1) by (apply remote_keeps, Hw).
  assert (H1 : armed_step k k1) by (unfold k1; simpl; destruct (mLastReceived k); by apply armed_step_same).
  etrans; [exact H1|]. apply (dispatch_armed p now k1); [by apply Hk1|done..].
Qed.

Lemma onPacket_ok p now k :
  link_ok k -> wire_header (header p) ->
  (kind (flags (header p)) = Data -> lane (flags (header p)) <> Media -> seq (header p) < 2 ^ 63) ->
  link_ok (onPacket p now k).
Proof.
  intros Hok Hw Hseq. destruct (onPacket_cases p now k Hw) as [Hk|(k1 & Hk & _ & _ & ->)]; [by apply Hk|].
  apply dispatch_ok; [by apply Hk|done..].
Qed.

(** ** Acknowledging *)
Lemma makeAck_armed l k : l <> Media -> link_ok k -> armed_step k (makeAck l k).2.
Proof.
  intros Hl Hok. unfold makeAck. cbn zeta. cbn [snd]. etrans; [by apply retryLane_armed|]. by apply armed_step_same.
Qed.

Lemma buildAcks_armed l k : l <> Media -> link_ok k -> armed_step k (buildAcks k l).
Proof.
  intros Hl Hok. unfold buildAcks. set (k1 := if negb (Z.land (mAckDue k) _ =? 0) then _ else k).
  assert (H1 : armed_step k k1).
  { unfold k1. destruct (negb _); [|done]. pose proof (makeAck_armed l k Hl Hok) as H.
    destruct (makeAck l k) as [d k2]. etrans; [exact H|]. by apply armed_step_same. }
  clearbody k1. etrans; [exact H1|]. destruct (negb _); [|done]. by apply armed_step_same.
Qed.

Lemma peekAck_armed k : link_ok k -> armed_step k (peekAck k).2.
Proof.
  intros Hok. unfold peekAck. destruct (mFailed k) eqn:Hf; [done|]. cbn zeta. cbn [snd].
  destruct (bool_decide _); [|done].
  trans (fold_left buildAcks StreamLanes k); [|by apply armed_step_same].
  assert (Hls : forall l, l ∈ StreamLanes -> l <> Media) by set_solver.
  revert k Hok Hf Hls. generalize StreamLanes. intros ls. induction ls as [|l ls IH]; intros k Hok Hf Hls; simpl; [done|].
  assert (Hl : l <> Media) by (apply Hls; by left).
  destruct (buildAcks_keeps l k Hl Hf Hok) as [Hk Hf'].
  etrans; [by apply buildAcks_armed|]. apply IH; [by apply Hk|done|]. intros j Hj. apply Hls. by right.
Qed.

Lemma setPaused_armed b k : armed_step k (setPaused b k).
Proof.
  unfold setPaused. destruct (eqb _ _); [done|].
  trans (k <| mPaused := b |>); [by apply armed_step_same|]. generalize (k <| mPaused := b |>). clear k.
  generalize [Reliable; Bulk]. intros ls. induction ls as [|l ls IH]; intros k; simpl; [done|].
  etrans; [|apply IH]. destruct (existingStream k l); [by apply armed_step_same|done].
Qed.

(** ** Looking for something to send *)
Section Source.
Context {S : Type} `{!MessageSource S}.

Lemma peek_ok l k (src : S) : link_ok k -> link_ok (peek l k src).1.2.
Proof.
  intros Hok. destruct (decide (l = Media)) as [->|Hl].
  - unfold peek. destruct (mFailed k); [done|]. rewrite decide_True by done.
    eapply quiet_ok; [apply peekMedia_quiet|done].
  - pose proof (peek_spec l k src Hl (lo_windows _ Hok)) as H.
    destruct (peek l k src) as [[[d|] k'] src']; cbn [fst snd].
    + destruct H as (_ & _ & [[_ Hq]|(m & _ & Ht)]); [by eapply quiet_ok|by eapply took_ok].
    + destruct H as [Hq _]. by eapply quiet_ok.
Qed.
End Source.

(** ** Runs *)
Inductive runs : TimePoint -> ReliableLink -> Prop :=
| runs_new now t id gen b :
    is_uint 32 id -> is_uint 32 gen -> gen <> 0 -> runs now (newLink t id gen b)
| runs_later now now' k : runs now k -> now <= now' -> runs now' k
| runs_peek {S} `{!MessageSource S} now l k (src : S) : runs now k -> runs now (peek l k src).1.2
| runs_send {S} `{!MessageSource S} now l k (src src' : S) d k' :
    runs now k -> peek l k src = (Some d, k', src') ->
    (forall s, mStreams k' l = Some s -> nextSendSeq s < 2 ^ 63) -> mTransmissions k' < 2 ^ 63 ->
    runs now (commit l now k')
| runs_packet now p k :
    runs now k -> wire_header (header p) ->
    (kind (flags (header p)) = Data -> lane (flags (header p)) <> Media -> seq (header p) < 2 ^ 63) ->
    runs now (onPacket p now k)
| runs_peekAck now k : runs now k -> runs now (peekAck k).2
| runs_commitAck now k : runs now k -> runs now (commitAck k)
| runs_timer now k : runs now k -> runs now (onTimer now k)
| runs_pause now b k : runs now k -> runs now (setPaused b k)
| runs_supervise now k : runs now k -> runs now (supervise now k)
| runs_take now k : runs now k -> runs now (takeDelivered k).2
| runs_budget now b k : runs now k -> runs now (k <| mBudget := b |>).

Lemma armed_later now now' k : now <= now' -> armed_by now k -> armed_by now' k.
Proof. intros Hle (? & ? & Hn). split_and!; try done. intros l sq e Hf. specialize (Hn l sq e Hf). lia. Qed.

Lemma armed_stays now k k' : armed_step k k' -> armed_by now k -> armed_by now k'.
Proof.
  intros Hs (Hb & Ha & Hn). destruct (Hs Hb Ha) as (? & ? & Hg). split_and!; try done.
  intros l sq e Hf%Hg. by eapply Hn.
Qed.

Lemma runs_ok now k : runs now k -> link_ok k /\ armed_by now k.
Proof.
  induction 1 as [now t id gen b H1 H2 H3|now now' k _ [IHl IHa] Hle|S HS now l k src _ [IHl IHa]
    |S HS now l k src src' d k' _ [IHl IHa] Hp Hs Ht|now p k _ [IHl IHa] Hw Hq|now k _ [IHl IHa]|now k _ [IHl IHa]
    |now k _ [IHl IHa]|now b k _ [IHl IHa]|now k _ [IHl IHa]|now k _ [IHl IHa]|now b k _ [IHl IHa]].
  - split; [|apply newLink_armed]. split; try done.
    + split; [|done]. simpl. by destruct (Z.eqb_spec id 0).
    + by intros d p Hd%elem_of_nil.
  - split; [done|]. by eapply armed_later.
  - split; [by apply peek_ok|]. eapply armed_stays; [apply peek_armed|done].
  - pose proof (peek_ok l k src IHl) as Hok. pose proof (armed_stays now _ _ (peek_armed l k src) IHa) as Ha.
    rewrite Hp in Hok, Ha. cbn [fst snd] in Hok, Ha. destruct (decide (l = Media)) as [->|Hl].
    + unfold commit. rewrite decide_True by done. unfold commitMedia. destruct (mMediaCursor k') as [c|]; [|done].
      split; [eapply quiet_ok; [|exact Hok]; by apply quiet_same_streams|].
      eapply armed_stays; [|exact Ha]. by apply armed_step_same.
    + pose proof (peek_spec l k src Hl (lo_windows _ IHl)) as Hsp. rewrite Hp in Hsp.
      destruct Hsp as (_ & Hpk & _). split; [by eapply commit_ok|].
      by eapply commit_armed; [..|exact Ha]; [|apply Hok| |].
  - split; [by apply onPacket_ok|]. eapply armed_stays; [by apply onPacket_armed|done].
  - split; [by apply peekAck_keeps|]. eapply armed_stays; [by apply peekAck_armed|done].
  - split; [by apply commitAck_ok|]. eapply armed_stays; [|exact IHa]. by apply armed_step_same.
  - split; [by apply onTimer_keeps|]. eapply armed_stays; [by apply onTimer_armed, IHl|done].
  - split; [by apply setPaused_keeps|]. eapply armed_stays; [apply setPaused_armed|done].
  - split; [by apply supervise_keeps|]. eapply armed_stays; [|exact IHa]. by apply armed_step_same.
  - split; [|eapply armed_stays; [|exact IHa]; by apply armed_step_same]. destruct IHl as [? ? [? ?] ? ?]. by split.
  - split; [by apply budget_keeps|]. eapply armed_stays; [|exact IHa]. by apply armed_step_same.
Qed.

(** ** What holds of every link *)
Lemma runs_windows now k : runs now k -> windows_ok k.
Proof. intros H. apply (lo_windows _ (proj1 (runs_ok _ _ H))). Qed.

Lemma considerAll_le l : forall n t,
  (n = Some t \/ Some t ∈ l) -> exists t', considerAll n l = Some t' /\ t' <= t.
Proof.
  induction l as [|o l IH]; intros n t H; simpl.
  - destruct H as [->|H%elem_of_nil]; [|done]. by exists t.
  - assert (Hc : forall n w, exists t', consider n w = Some t' /\ t' <= w /\ (forall x, n = Some x -> t' <= x)).
    { clear. intros n w. unfold consider. destruct n as [x|]; [|exists w; split_and!; done || lia].
      destruct (Z.ltb_spec w x); eexists; (split; [done|]); split; try lia; intros y [= <-]; lia. }
    assert (Hstep : exists m, (match o with Some w => consider n w | None => n end = Some m /\ m <= t) \/
       (Some t ∈ l /\ m = t)).
    { destruct H as [->|[<-|H]%elem_of_cons].
      - destruct o as [w|]; [|by exists t; left]. destruct (Hc (Some t) w) as (m & E & _ & Hm). exists m. left.
        split; [done|]. by apply Hm.
      - destruct (Hc n t) as (m & E & Hm & _). exists m. by left.
      - exists t. by right. }
    destruct Hstep as (m & [[E Hm]|[Hin ->]]).
    + rewrite E. destruct (IH (Some m) m (or_introl eq_refl)) as (t' & Et & Hle). exists t'. split; [done|lia].
    + apply IH. by right.
Qed.

Lemma flying_deadline now k l sq e :
  runs now k -> flying k l sq e ->
  exists t, nextDeadline k = Some t /\ t <= sentAt e + us (Rtt.timeoutFor (mRtt k) (mTimeoutsInARow k)).
Proof.
  intros Hr Hf. destruct (runs_ok _ _ Hr) as (_ & Hb & [[_ R S _ _ T] Hfront _ _] & _).
  pose proof (R l sq e Hf) as Hin. destruct (mSent k) as [|r q] eqn:Eq; [by apply elem_of_nil in Hin|].
  destruct Hfront as [e0 He0]. pose proof He0 as Hlive. apply entryOf_Some in Hlive as [Hf0 Et0]; [|done].
  assert (Hle : transmission e0 <= transmission e).
  { rewrite Et0. apply elem_of_cons in Hin as [<-|Hin]; [done|].
    apply StronglySorted_inv in S as [_ S]. rewrite Forall_forall in S. specialize (S _ Hin). simpl in S. lia. }
  specialize (T _ _ _ _ _ _ Hf0 Hf Hle).
  assert (Hd : exists t, nextDeadline k = Some t /\ t <= sentAt e0 + us (Rtt.timeoutFor (mRtt k) (mTimeoutsInARow k))).
  { unfold nextDeadline. rewrite Eq. apply considerAll_le. right. apply elem_of_cons. left.
    unfold entryOf in He0. destruct (mStreams k (srLane r)) as [s|]; [|done]. simpl.
    destruct (SeqBuf.find (inFlight s) (srSeq r)) as [x|]; [|done]. destruct (_ && _); [|done]. by simplify_eq. }
  destruct Hd as (t & Ht & Hlt). exists t. split; [done|lia].
Qed.

Lemma paused_deadline k l s :
  l <> Media -> mStreams k l = Some s -> lane_ok s -> peerPaused s = true ->
  exists at_ t, probeAt s = Some at_ /\ nextDeadline k = Some t /\ t <= at_.
Proof.
  intros Hl Es [_ _ Hp] Hpp. rewrite Hpp in Hp. symmetry in Hp. apply bool_decide_eq_true in Hp as [at_ Ea].
  exists at_. assert (Hd : exists t, nextDeadline k = Some t /\ t <= at_).
  { unfold nextDeadline. apply considerAll_le. right. apply elem_of_app. right.
    apply list_elem_of_fmap. exists l. rewrite Es, Hpp. split; [done|]. destruct l; set_solver. }
  destruct Hd as (t & ? & ?). by exists t.
Qed.

Lemma stalled_deadline k t0 :
  mStalledSince k = Some t0 -> exists t, nextDeadline k = Some t /\ t <= t0 + ms (peerTimeout (mTimings k)).
Proof.
  intros E. unfold nextDeadline. apply considerAll_le. right. rewrite E. simpl. right. left.
Qed.

(** C4: the accounts of a link.  Whatever calls it got and whatever packets came in: on
    every acknowledged lane no more packets than the window holds are unacknowledged;
    [onTheWire] is the number of packets in flight that are not declared lost; each lost
    one waits in the queue for retransmission, each other one has its record in the queue
    the timers and the loss detection look at. *)
Theorem packets_accounted now k l s :
  runs now k -> mStreams k l = Some s ->
  0 <= nextSendSeq s - sendBase s <= windowOf l /\
  (forall sq, is_Some (SeqBuf.find (inFlight s) sq) -> sendBase s <= sq < nextSendSeq s) /\
  onTheWire s = wireCount (SeqBuf.to_map (inFlight s)) /\
  forall sq e, SeqBuf.find (inFlight s) sq = Some e ->
    if isLost e then sq ∈ lost s else mkSent (transmission e) sq l ∈ mSent k.
Proof.
  intros Hr Es. destruct (runs_ok _ _ Hr) as (Hok & Hb & Ha & _).
  destruct (lo_windows _ Hok l s Es) as [_ Hw]. pose proof (view_some _ _ _ Es) as Ev.
  destruct (tk_lanes _ _ (ar_timers _ Ha) l) as [Hwire Hlost _]. rewrite Ev in *.
  pose proof (wo_buffer _ _ Hw) as Hbuf. split_and!.
  - destruct Hw. lia.
  - apply Hw.
  - intros sq Hsq. apply (wo_range _ _ Hw). rewrite send_map_lookup, fmap_is_Some by done. done.
  - done.
  - intros sq e He. destruct (isLost e) eqn:El.
    + apply (Hlost sq e); [|done]. by rewrite <- SeqBuf.find_map.
    + apply (tk_record _ _ (ar_timers _ Ha)). split; [|done]. unfold entryAt. by rewrite Ev.
Qed.

(** C6: no packet is forgotten.  While a packet is in flight [nextDeadline] is set, and
    not later than that packet's retransmission time-out; while the peer has paused a lane
    it is not later than the next probe; and while a lane waits for an acknowledgement it
    is not later than the time-out of the peer. *)
Theorem deadline_armed now k :
  runs now k ->
  (forall l sq e, flying k l sq e ->
    exists t, nextDeadline k = Some t /\ t <= sentAt e + us (Rtt.timeoutFor (mRtt k) (mTimeoutsInARow k))) /\
  (forall l s, mStreams k l = Some s -> peerPaused s = true ->
    exists at_ t, probeAt s = Some at_ /\ nextDeadline k = Some t /\ t <= at_) /\
  (waiting k = true -> exists t0 t, mStalledSince k = Some t0 /\ nextDeadline k = Some t /\
    t <= t0 + ms (peerTimeout (mTimings k))).
Proof.
  intros Hr. destruct (runs_ok _ _ Hr) as (Hok & Hb & Ha & _). split_and!.
  - intros l sq e. by apply (flying_deadline now).
  - intros l s Es. destruct (lo_windows _ Hok l s Es) as [Hl _].
    apply (paused_deadline k l); [done..|]. rewrite <- (view_some _ _ _ Es). apply (tk_lanes _ _ (ar_timers _ Ha)).
  - intros Hw. rewrite <- (ar_clock _ Ha) in Hw. apply bool_decide_eq_true in Hw as [t0 E0].
    destruct (stalled_deadline k t0 E0) as (t & ? & ?). by exists t0, t.
Qed.

(** C33: the retransmission timer looks at the front of its queue only, and does what a
    look at every packet would do: as long as the link does not give up on the peer, the
    packets in flight whose time-out has passed are declared lost, and no others. *)
Theorem timer_declares_lost now k :
  runs now k -> mFailed k = false ->
  timedOutSince now (ms (peerTimeout (mTimings k))) (mStalledSince k) = false ->
  timedOutSince now (ms (peerTimeout (mTimings k))) (mLastReceived k) = false ->
  forall l sq, entryAt (onTimer now k) l sq =
    (fun e => if negb (isLost e) &&
                 (sentAt e + us (Rtt.timeoutFor (mRtt k) (mTimeoutsInARow k)) <=? now)
              then e <| isLost := true |> else e) <$> entryAt k l sq.
Proof.
  intros Hr Hf E1 E2 l sq. destruct (runs_ok _ _ Hr) as (Hok & Hb & Ha & _).
  rewrite (onTimer_entries now k) by (done || apply Hok). done.
Qed.

(** Fast retransmission, too, agrees with a look at every packet: [detectLosses]
    declares lost exactly the packets in flight that [FastRetransmitThreshold] later
    transmissions have overtaken. *)
Theorem overtaken_declared_lost now k :
  runs now k ->
  forall l sq, entryAt (detectLosses k).2 l sq =
    (fun e => if negb (isLost e) && (transmission e + FastRetransmitThreshold <=? mLargestAcked k)
              then e <| isLost := true |> else e) <$> entryAt k l sq.
Proof.
  intros Hr l sq. destruct (runs_ok _ _ Hr) as (Hok & Hb & Ha & _).
  pose proof (ar_timers _ Ha) as Ht. rewrite (ex_entries _ _ _ _ (detectLosses_expired k Hb Ht)).
  destruct (entryAt k l sq) as [e|] eqn:E; [|done]. simpl. f_equal. unfold expireEntry.
  destruct (isLost e) eqn:El; [done|]. cbn [negb andb].
  rewrite (overtaken_small k (mSent k)); [done..|]. by apply (tk_record _ _ Ht).
Qed.

(** ** Sending *)
Definition wireOf (k : ReliableLink) (l : Lane) : Z := onTheWire (view l k).

Lemma open_view k l :
  congestionWindowOpen k l =
  negb (sharesCongestionWindow l) ||
  (u64 (wireOf k Reliable + wireOf k Bulk) <? dtrunc (mCongestionWindow k)).
Proof.
  unfold congestionWindowOpen, wireOf, view. destruct (negb _); [done|]. cbn [orb].
  by destruct (mStreams k Reliable), (mStreams k Bulk).
Qed.

Lemma open_set k l s j :
  onTheWire s = wireOf k l -> congestionWindowOpen (setStream l s k) j = congestionWindowOpen k j.
Proof.
  intros E. rewrite !open_view. do 2 f_equal. change (mCongestionWindow (setStream l s k)) with (mCongestionWindow k).
  f_equal. unfold wireOf in *. rewrite !view_set. repeat case_decide; congruence.
Qed.

Section Source2.
Context {S : Type} `{!MessageSource S}.

Lemma peekNext_open l k (src : S) j : congestionWindowOpen (peekNext l k src).1.2 j = congestionWindowOpen k j.
Proof.
  unfold peekNext. destruct (s ← mStreams k l; c ← cursor s; Some (s, c)) as [[s c]|]; [done|].
  destruct (next src l) as [[m|] src']; [|done].
  assert (Est : streamFor l k = (view l k, k) \/ streamFor l k = (view l k, setStream l (view l k) k)).
  { unfold streamFor, view. destruct (mStreams k l); [by left|by right]. }
  destruct Est as [-> | ->]; cbn [fst snd].
  - by apply (open_set k l ((view l k) <| cursor := Some (cursorFor m) |>)).
  - trans (congestionWindowOpen (setStream l (view l k) k) j); [|by apply open_set].
    apply (open_set (setStream l (view l k) k) l ((view l k) <| cursor := Some (cursorFor m) |>)).
    unfold wireOf. by rewrite view_set, decide_True.
Qed.

(** Nothing is offered while the congestion window is closed. *)
Lemma peek_open l k (src : S) d k' src' :
  l <> Media -> peek l k src = (Some d, k', src') -> congestionWindowOpen k' l = true.
Proof.
  intros Hl. unfold peek. destruct (mFailed k); [done|]. rewrite decide_False by done.
  destruct (mStreams k l) as [s|] eqn:Es.
  - destruct (nextLost s) as [r s1] eqn:En. destruct (_ && _); [done|]. destruct (peerPaused s1); [done|].
    set (k1 := setStream l s1 k). destruct (congestionWindowOpen k1 l) eqn:Eo; [|done]. cbn [negb].
    destruct r as [[sq e]|].
    + intros [= _ <- _]. exact Eo.
    + intros H. rewrite <- Eo, <- (peekNext_open l k1 src l). by rewrite H.
  - destruct (congestionWindowOpen k l) eqn:Eo; [|done]. cbn [negb]. intros H.
    rewrite <- Eo, <- (peekNext_open l k src l). by rewrite H.
Qed.
End Source2.

Lemma commit_wire l now k d :
  l <> Media -> windows_ok k -> (forall j, lane_ok (view j k)) -> peeked l k d ->
  (forall j, wireOf (commit l now k) j = if decide (j = l) then u64 (wireOf k l + 1) else wireOf k j) /\
  mCongestionWindow (commit l now k) = mCongestionWindow k.
Proof.
  intros Hl Hw L (s & Es & Hn & Hd). unfold commit. rewrite decide_False, Es, Hn by done.
  assert (Hshape : forall s' sq e, onTheWire s' = onTheWire s ->
    (forall j, wireOf (transmit l s' sq e now k) j = if decide (j = l) then u64 (wireOf k l + 1) else wireOf k j) /\
    mCongestionWindow (transmit l s' sq e now k) = mCongestionWindow k).
  { intros s' sq e Ew. destruct (transmit_shape l s' sq e now k) as (k1 & -> & Ev & _ & _ & _ & Ec).
    destruct (updateProgressClock_kept now false k1) as (Es1 & _ & _ & _ & Ec1). split; [|congruence].
    intros j. unfold wireOf, view in *. rewrite Es1. rewrite (Ev j). case_decide; [|done].
    simpl. by rewrite Ew, Es. }
  destruct (nextLost s).1 as [[sq e]|]; cbn [fst snd]; [by apply Hshape|].
  destruct Hd as (c & Hc & _). rewrite Hc. by apply Hshape.
Qed.

Lemma wireOf_bound now k l : runs now k -> 0 <= wireOf k l < 2 ^ 62.
Proof.
  intros Hr. destruct (runs_ok _ _ Hr) as (Hok & Hb & Ha & _). unfold wireOf.
  rewrite (ln_wire _ (tk_lanes _ _ (ar_timers _ Ha) l)). unfold wireCount. split; [lia|].
  assert (Hle : (size (filter (fun x : Z * InFlight => isLost x.2 = false) (SeqBuf.to_map (inFlight (view l k)))) <=
    size (SeqBuf.to_map (inFlight (view l k))))%nat).
  { apply map_subseteq_size, map_filter_subseteq. }
  pose proof (SeqBuf.size_map _ (Hb l)) as Hs. pose proof (SeqBuf.ok_size _ (Hb l)) as Hz.
  pose proof (entries_short (SeqBuf.mSlots (inFlight (view l k)))) as Hsh.
  assert (Hcap : zlen (SeqBuf.mSlots (inFlight (view l k))) = windowOf l).
  { unfold view. destruct (mStreams k l) as [s|] eqn:Es; simpl.
    - destruct (lo_windows _ Hok l s Es) as [_ Hw]. apply Hw.
    - apply zlen_replicate. by destruct l. }
  assert (windowOf l <= 256) by (by destruct l). lia.
Qed.

(** C34: the congestion window.  It stays between [MinCongestionWindow] and
    [MaxCongestionWindow], or at the size that was configured; and when a datagram of the
    lanes that share it is sent, first or again, no more packets of the two lanes are on
    the wire afterwards than it allows. *)
Theorem congestion_respected now k {S} `{!MessageSource S} (src src' : S) l d k' :
  runs now k -> sharesCongestionWindow l = true -> peek l k src = (Some d, k', src') ->
  let k2 := commit l now k' in
  onTheWire (view Reliable k2) + onTheWire (view Bulk k2) <= dtrunc (mCongestionWindow k2) /\
  (fixedCwnd (mTimings k) <= 0 ->
     (inject_Z MinCongestionWindow <= mCongestionWindow k <= inject_Z MaxCongestionWindow)%Q) /\
  (0 < fixedCwnd (mTimings k) -> mCongestionWindow k = dofZ (fixedCwnd (mTimings k))).
Proof.
  intros Hr Hsh Hp k2. assert (Hl : l <> Media) by (by destruct l).
  pose proof (runs_peek now l k src Hr) as Hr'. rewrite Hp in Hr'. cbn [fst snd] in Hr'.
  destruct (runs_ok _ _ Hr) as (Hok & _ & Ha & _). destruct (runs_ok _ _ Hr') as (Hok' & _ & Ha' & _).
  pose proof (peek_spec l k src Hl (lo_windows _ Hok)) as Hsp. rewrite Hp in Hsp. destruct Hsp as (_ & Hpk & _).
  destruct (commit_wire l now k' d Hl (lo_windows _ Hok') (tk_lanes _ _ (ar_timers _ Ha')) Hpk) as [Ew Ec].
  pose proof (peek_open l k src d k' src' Hl Hp) as Ho. rewrite open_view, Hsh in Ho. cbn [negb orb] in Ho.
  pose proof (wireOf_bound _ _ Reliable Hr'). pose proof (wireOf_bound _ _ Bulk Hr').
  rewrite wrap_small in Ho by (unfold is_uint; lia). apply Z.ltb_lt in Ho.
  split; [|pose proof (ar_window _ Ha) as Hc; unfold cwnd_ok in Hc; destruct (Z.ltb_spec 0 (fixedCwnd (mTimings k))); split; intros; done || lia].
  change (onTheWire (view Reliable k2)) with (wireOf (commit l now k') Reliable).
  change (onTheWire (view Bulk k2)) with (wireOf (commit l now k') Bulk). unfold k2. rewrite !Ew, Ec.
  destruct l; try done; repeat (case_decide; [|try done]); try done; rewrite wrap_small by (unfold is_uint; lia); lia.
Qed.

(** What is lost goes out first.  If a packet of a lane is declared lost, and the peer
    has not paused the lane, and the congestion window is open, then [peek] offers a packet
    that is declared lost, as it was sent before, and takes no message from the source. *)
Theorem lost_goes_first now k {S} `{!MessageSource S} (src : S) l s sq0 e0 :
  runs now k -> mFailed k = false -> mStreams k l = Some s -> peerPaused s = false ->
  congestionWindowOpen k l = true -> SeqBuf.find (inFlight s) sq0 = Some e0 -> isLost e0 = true ->
  exists sq e k', SeqBuf.find (inFlight s) sq = Some e /\ isLost e = true /\
    peek l k src = (Some (datagramOf (headerOf k l sq e) e), k', src).
Proof.
  intros Hr Hf Es Hp Ho He Hlost. destruct (runs_ok _ _ Hr) as (Hok & Hb & Ha & _).
  destruct (lo_windows _ Hok l s Es) as [Hl Hw]. pose proof (view_some _ _ _ Es) as Ev.
  pose proof (ln_lost _ (tk_lanes _ _ (ar_timers _ Ha) l)) as Hq. rewrite Ev in Hq.
  assert (Hin : sq0 ∈ lost s) by (apply (Hq sq0 e0); [by rewrite <- SeqBuf.find_map by apply Hw|done]).
  pose proof (dropStale_spec (inFlight s) (lost s)) as Hd.
  unfold peek. rewrite Hf, decide_False, Es by done. unfold nextLost.
  destruct (dropStale (inFlight s) (lost s)) as [[[sq e]|] rest].
  - destruct Hd as (_ & _ & _ & Hfe & Hle & _). exists sq, e. cbn [andb].
    rewrite bool_decide_eq_false_2 by done. cbn [andb]. change (peerPaused (s <| lost := rest |>)) with (peerPaused s).
    rewrite Hp. rewrite (open_set k l (s <| lost := rest |>)) by (unfold wireOf; by rewrite Ev). rewrite Ho. cbn [negb].
    eexists. split_and!; done.
  - destruct Hd as [_ Hall]. rewrite Forall_forall in Hall. specialize (Hall _ Hin). rewrite He in Hall. congruence.
Qed.

Lemma onTimer_failed now k :
  runs now k -> mFailed k = false ->
  mFailed (onTimer now k) = timedOutSince now (ms (peerTimeout (mTimings k))) (mStalledSince k)
                            || timedOutSince now (ms (peerTimeout (mTimings k))) (mLastReceived k).
Proof.
  intros Hr Hf. destruct (runs_ok _ _ Hr) as (Hok & _).
  destruct (timedOutSince now (ms (peerTimeout (mTimings k))) (mStalledSince k)
    || timedOutSince now (ms (peerTimeout (mTimings k))) (mLastReceived k)) eqn:E.
  { unfold onTimer. by rewrite Hf, E. }
  pose proof E as E'. apply orb_false_iff in E' as [E1 E2].
  destruct (onTimer_live now k Hf E1 E2) as (found & k1 & Ek & Ht).
  destruct (onTimer_quiet now k (link_buffers _ Hok)) as [Hq|Hq]; [by rewrite (q_failed _ _ Hq)|].
  exfalso. pose proof (expire_quiet (fun _ e _ => now <? sentAt e + us (Rtt.timeoutFor (mRtt k) (mTimeoutsInARow k)))
    true (bump timerWork) (mSent k) false (pinged now k) (fun k => bump_quiet _ k)) as Hx. rewrite Ek in Hx.
  assert (Hp : quiet k (pinged now k)) by (unfold pinged; repeat case_match; by apply quiet_same_streams).
  specialize (Hx (quiet_buffers _ _ Hp (link_buffers _ Hok))). cbn [snd] in Hx.
  assert (Hpr : forall ls k, mFailed (fold_left (probeLane now) ls k) = mFailed k).
  { clear. intros ls. induction ls as [|l ls IH]; intros k; simpl; [done|]. rewrite IH. apply (q_failed _ _ (probeLane_quiet now k l)). }
  assert (Hff : mFailed (onTimer now k) = false).
  { rewrite Ht, Hpr. destruct (_ && _); simpl; rewrite (q_failed _ _ Hx), (q_failed _ _ Hp); done. }
  rewrite Hq in Hff. done.
Qed.

(** C35: the link gives up on its peer exactly when it should.  The timer fails the link if
    and only if an acknowledgement is owed, or the supervised peer has been silent, for
    [peerTimeout]; the clock of the first runs exactly while a lane that the peer has not
    paused has packets in flight.  A failed link has nothing in flight, nothing pending and
    no timer. *)
Theorem gives_up_iff now k :
  runs now k -> mFailed k = false ->
  (mFailed (onTimer now k) = true <->
     (exists t, mStalledSince k = Some t /\ ms (peerTimeout (mTimings k)) <= now - t) \/
     (exists t, mLastReceived k = Some t /\ ms (peerTimeout (mTimings k)) <= now - t)) /\
  (is_Some (mStalledSince k) <-> waiting k = true) /\
  (mFailed (onTimer now k) = true ->
     inFlightCount (onTimer now k) = 0 /\ hasPendingReliable (onTimer now k) = false /\
     nextDeadline (onTimer now k) = None).
Proof.
  intros Hr Hf. pose proof (onTimer_failed now k Hr Hf) as E. split_and!.
  - rewrite E, orb_true_iff. unfold timedOutSince.
    assert (Hiff : forall o, (match o with Some t => ms (peerTimeout (mTimings k)) <=? now - t | None => false end = true) <->
      exists t, o = Some t /\ ms (peerTimeout (mTimings k)) <= now - t).
    { intros [t|]; [rewrite Z.leb_le|]; split.
      - intros H. by exists t.
      - by intros (? & [= <-] & ?).
      - done.
      - by intros (? & ? & _). }
    by rewrite !Hiff.
  - destruct (runs_ok _ _ Hr) as (_ & _ & Ha & _). rewrite <- (ar_clock _ Ha). by rewrite bool_decide_eq_true.
  - rewrite E. intros Hx. unfold onTimer. rewrite Hf, Hx.
    assert (Es : forall l, mStreams (fail k) l = None) by (intros l; apply fail_streams; by eapply runs_windows).
    split_and!.
    + unfold inFlightCount, StreamLanes. cbn [fold_left]. by rewrite !Es.
    + unfold hasPendingReliable, StreamLanes. cbn [existsb]. by rewrite !Es.
    + unfold nextDeadline.
      match goal with |- context [?f <$> StreamLanes] =>
        change (f <$> StreamLanes) with [f Control; f Reliable; f Bulk] end. cbv beta. by rewrite !Es.
Qed.

(** A failed link is out of use: it offers nothing, answers nothing, and neither a
    packet nor the timer changes it. *)
Theorem failed_is_inert k {S} `{!MessageSource S} (src : S) l p now :
  mFailed k = true ->
  peek l k src = (None, k, src) /\ peekAck k = (None, k) /\ onPacket p now k = k /\ onTimer now k = k.
Proof. intros Hf. unfold peek, peekAck, onPacket, onTimer. by rewrite Hf. Qed.

(** Packets of another stream are not taken.  Once the peer is known, a packet that
    carries another source id, or another destination id than the own one or none, changes
    nothing but the counter of such packets. *)
Theorem stale_is_dropped k p now r :
  mFailed k = false -> mRemoteStreamID k = Some r ->
  srcStreamID (header p) <> r \/
    (dstStreamID (header p) <> 0 /\ dstStreamID (header p) <> mLocalStreamID k) ->
  onPacket p now k = bump staleDropped k.
Proof.
  intros Hf Er H. unfold onPacket. rewrite Hf, Er.
  destruct (Z.eqb_spec r (srcStreamID (header p))), (Z.eqb_spec (dstStreamID (header p)) 0),
    (Z.eqb_spec (dstStreamID (header p)) (mLocalStreamID k)); try done; simpl; exfalso; destruct H as [?|[? ?]]; congruence.
Qed.

(** ** A run *)
Module Example.
Import Delivery.Example.

Definition sendOnce (now : TimePoint) (l : Lane) (x : ReliableLink * nat) : ReliableLink * nat :=
  match peek l x.1 x.2 with
  | (Some _, k, src) => (commit l now k, src)
  | (None, k, src) => (k, src)
  end.

Lemma sendOnce_runs now l x :
  runs now x.1 ->
  match mStreams (peek l x.1 x.2).1.2 l with Some s => nextSendSeq s <? 2 ^ 63 | None => true end
    && (mTransmissions (peek l x.1 x.2).1.2 <? 2 ^ 63) = true ->
  runs now (sendOnce now l x).1.
Proof.
  intros Hr Hlim. unfold sendOnce. destruct (peek l x.1 x.2) as [[[d|] k] src] eqn:E; cbn [fst snd] in *.
  - apply andb_prop in Hlim as [H1 H2]. eapply (runs_send now l x.1 x.2 src d); try done.
    + intros s Hs. rewrite Hs in H1. by apply Z.ltb_lt.
    + by apply Z.ltb_lt.
  - replace k with (peek l x.1 x.2).1.2 by (by rewrite E). by apply runs_peek.
Qed.

(** Three packets at 0, 1 and 2 ms; the round-trip time is not known yet. *)
Definition x0 : ReliableLink * nat := (newLink defaultTimings 11 1 None, 2%nat).
Definition x1 : ReliableLink * nat := sendOnce 0 Reliable x0.
Definition x2 : ReliableLink * nat := sendOnce (ms 1) Reliable x1.
Definition x3 : ReliableLink * nat := sendOnce (ms 2) Reliable x2.

Lemma x0_runs : runs 0 x0.1.
Proof. by apply runs_new. Qed.
Lemma x1_runs : runs 0 x1.1.
Proof. apply (sendOnce_runs 0 Reliable x0 x0_runs). vm_compute. reflexivity. Qed.
Lemma x2_runs : runs (ms 1) x2.1.
Proof. apply (sendOnce_runs (ms 1) Reliable x1); [by eapply runs_later; [apply x1_runs|]|]. vm_compute. reflexivity. Qed.
Lemma x3_runs : runs (ms 2) x3.1.
Proof.
  apply (sendOnce_runs (ms 2) Reliable x2); [by eapply runs_later; [apply x2_runs|]|]. vm_compute. reflexivity.
Qed.

(** The first two packets time out. *)
Definition late : TimePoint := ms 101.
Definition x4 : ReliableLink := onTimer late x3.1.
Lemma x3_late : runs late x3.1.
Proof. by eapply runs_later; [apply x3_runs|]. Qed.
Lemma x4_runs : runs late x4.
Proof. apply runs_timer, x3_late. Qed.

Definition streamOf (k : ReliableLink) : Stream := default (newStream 256) (mStreams k Reliable).

Lemma packets_accounted_witness :
  onTheWire (streamOf x4) = 1 /\ lost (streamOf x4) = [1; 2] /\
  onTheWire (streamOf x4) = wireCount (SeqBuf.to_map (inFlight (streamOf x4))).
Proof.
  split; [vm_compute; reflexivity|]. split; [vm_compute; reflexivity|].
  apply (packets_accounted late x4 Reliable (streamOf x4) x4_runs). vm_compute. reflexivity.
Defined.

Lemma deadline_armed_witness :
  nextDeadline x3.1 = Some (ms 100) /\ waiting x3.1 = true /\
  exists t0 t, mStalledSince x3.1 = Some t0 /\ nextDeadline x3.1 = Some t /\
    t <= t0 + ms (peerTimeout (mTimings x3.1)).
Proof.
  split; [vm_compute; reflexivity|]. assert (Hw : waiting x3.1 = true) by (vm_compute; reflexivity).
  split; [exact Hw|]. exact (proj2 (proj2 (deadline_armed (ms 2) x3.1 x3_runs)) Hw).
Defined.

Lemma timer_declares_lost_witness :
  isLost <$> entryAt x4 Reliable 2 = Some true /\ isLost <$> entryAt x4 Reliable 3 = Some false /\
  entryAt x4 Reliable 3 =
    (fun e => if negb (isLost e) &&
                 (sentAt e + us (Rtt.timeoutFor (mRtt x3.1) (mTimeoutsInARow x3.1)) <=? late)
              then e <| isLost := true |> else e) <$> entryAt x3.1 Reliable 3.
Proof.
  split; [vm_compute; reflexivity|]. split; [vm_compute; reflexivity|].
  apply (timer_declares_lost late x3.1 x3_late); vm_compute; reflexivity.
Defined.

(** Nothing is acknowledged yet, so nothing is overtaken. *)
Lemma overtaken_declared_lost_witness :
  isLost <$> entryAt (detectLosses x3.1).2 Reliable 1 = Some false /\
  entryAt (detectLosses x3.1).2 Reliable 1 =
    (fun e => if negb (isLost e) && (transmission e + FastRetransmitThreshold <=? mLargestAcked x3.1)
              then e <| isLost := true |> else e) <$> entryAt x3.1 Reliable 1.
Proof.
  split; [vm_compute; reflexivity|]. exact (overtaken_declared_lost (ms 2) x3.1 x3_runs Reliable 1).
Defined.

Definition look0 := peek Reliable x0.1 x0.2.
Lemma congestion_respected_witness :
  let k2 := commit Reliable 0 look0.1.2 in
  onTheWire (view Reliable k2) = 1 /\
  onTheWire (view Reliable k2) + onTheWire (view Bulk k2) <= dtrunc (mCongestionWindow k2).
Proof.
  intros k2. split; [vm_compute; reflexivity|].
  assert (H : peek Reliable x0.1 x0.2 = (Some (default emptyDatagram look0.1.1), look0.1.2, look0.2))
    by (vm_compute; reflexivity).
  exact (proj1 (congestion_respected 0 x0.1 x0.2 look0.2 Reliable _ look0.1.2 x0_runs eq_refl H)).
Defined.

Lemma lost_goes_first_witness :
  exists sq e k', SeqBuf.find (inFlight (streamOf x4)) sq = Some e /\ isLost e = true /\
    peek Reliable x4 (0%nat) = (Some (datagramOf (headerOf x4 Reliable sq e) e), k', 0%nat).
Proof.
  apply (lost_goes_first late x4 (0%nat) Reliable (streamOf x4) 1
    (default inhabitant (entryAt x4 Reliable 1)) x4_runs); vm_compute; reflexivity.
Defined.

Lemma gives_up_iff_witness :
  mFailed (onTimer (ms 5000) x3.1) = true /\ nextDeadline (onTimer (ms 5000) x3.1) = None.
Proof.
  assert (Hr : runs (ms 5000) x3.1) by (eapply runs_later; [apply x3_runs|vm_compute; discriminate]).
  assert (Hf : mFailed (onTimer (ms 5000) x3.1) = true) by (vm_compute; reflexivity).
  split; [exact Hf|]. assert (Hl : mFailed x3.1 = false) by (vm_compute; reflexivity).
  exact (proj2 (proj2 (proj2 (proj2 (gives_up_iff (ms 5000) x3.1 Hr Hl)) Hf))).
Defined.

Definition dead : ReliableLink := onTimer (ms 5000) x3.1.
Definition somePacket : DecodedPacket :=
  {| header := mkHeader (dataFlags Reliable) 33 0 1 0 0 7 0; body := [] |}.

Lemma failed_is_inert_witness :
  peek Reliable dead (2%nat) = (None, dead, 2%nat) /\ peekAck dead = (None, dead) /\
  onPacket somePacket 0 dead = dead /\ onTimer 0 dead = dead.
Proof. apply (failed_is_inert dead (2%nat) Reliable somePacket 0). vm_compute. reflexivity. Defined.

Definition met : ReliableLink := x0.1 <| mRemoteStreamID := Some 22 |>.
Lemma stale_is_dropped_witness : onPacket somePacket 0 met = bump staleDropped met.
Proof.
  apply (stale_is_dropped met somePacket 0 22); [vm_compute; reflexivity|reflexivity|left; discriminate].
Defined.
End Example.
