(* ===== verification/Engine.v ===== *)
(** * The engine: its state

    [Engine/NetworkEngine.h]: one I/O thread that owns the sessions with all peers.  The
    engine is a record, a member function a computation on it.

    Everything outside the engine is the type class [World]: the sockets, the adapter, the
    random numbers and the other threads, which may use the mailbox, take media messages and
    drop batches of events whenever the engine reaches for what they share.

    A [Peer &] or [Peer *] is the key of the peer in [mPeers], which is the id in its [info].
    A computation has no result if it follows a reference to a peer that is gone, reads
    outside a buffer, or is still in a loop when its fuel is used up. *)
From Stdlib Require Import QArith.
From S2P Require Import Prelude Double Constants IPv4Address Beacon PacketFlags PacketHeader OrderedMap.
From S2P Require Import MessageAssembler MediaAssembler RttEstimator SendScheduler ReliableLink ControlMessage Discovery.
From S2P Require Import Mailbox MailboxRuns.
From stdpp Require Import sorting.
#[local] Open Scope Z_scope.

(** ** The public types *)
Inductive PublicLane := LReliable | LBulk | LMedia.
Inductive SendResult := SentQueued | QueueFull | SentTooLarge | NotConnected | NotRunning.
Inductive DisconnectReason :=
  ByLocal | ByRemote | ByDeclined | ByIncompatible | ByLost | ByNetworkError | ByShutdown.
#[global] Instance PublicLane_eq_dec : EqDecision PublicLane.
Proof. solve_decision. Defined.
#[global] Instance SendResult_eq_dec : EqDecision SendResult.
Proof. solve_decision. Defined.
#[global] Instance DisconnectReason_eq_dec : EqDecision DisconnectReason.
Proof. solve_decision. Defined.

Record Message := mkMessage { msgType : Z; msgData : bytes }.

(** ** The sockets *)
Inductive SocketError :=
  Timeout | WouldBlock | Cancelled | SocketClosed | ConnectionRefused | ConnectionReset | ConnectionAborted |
  SocketNotConnected | AddressInUse | AddressNotAvailable | PermissionDenied | InvalidArgument | NetworkUnreachable |
  NetworkDown | MessageTooLarge | NotInitialized | UnknownError.
#[global] Instance SocketError_eq_dec : EqDecision SocketError.
Proof. solve_decision. Defined.
Record BindOptions := mkBind { enableBroadcast : bool; reuseAddress : bool; receiveBufferSize : Z; sendBufferSize : Z }.

Module Engine.

Definition ChannelReceiveBufferSize : Z := 4 * 1024 * 1024.
Definition ChannelSendBufferPerDatagram : Z := 2304.
Definition MaxDatagramsPerPass : nat := 256.
Definition MaxWait : Duration := ms 3600000.

Record LocalInterface := mkInterface { ifaceIp : IPv4Address; ifaceMask : IPv4Address }.
#[global] Instance LocalInterface_eq_dec : EqDecision LocalInterface.
Proof. solve_decision. Defined.

Record EngineConfig := mkConfig {
  cfgDisplayName : bytes;
  cfgAppId : bytes;
  cfgAppVersion : bytes;
  cfgDiscoveryPort : Z;
  cfgSendQueueBytes : Z;
  cfgMaxSendRate : Z;
  cfgTimings : LinkTimings;
  cfgAutoAccept : bool;
  cfgInstanceId : Z;
}.
#[global] Instance eta_EngineConfig : Eta EngineConfig := fun r =>
  mkConfig (cfgDisplayName r) (cfgAppId r) (cfgAppVersion r) (cfgDiscoveryPort r) (cfgSendQueueBytes r)
    (cfgMaxSendRate r) (cfgTimings r) (cfgAutoAccept r) (cfgInstanceId r).

(** The [MediaInbox] objects are shared between the engine and the events that wait for the
    event thread: an object is its number in [mInboxes]. *)
Abbreviation InboxRef := Z (only parsing).

Inductive EngineEvent :=
| PeerDiscovered (peer : PeerId) (info : PeerInfo)
| PeerLost (peer : PeerId)
| ConnectionRequest (peer : PeerId) (info : PeerInfo)
| Connected (peer : PeerId) (info : PeerInfo)
| Disconnected (peer : PeerId) (reason : DisconnectReason)
| MessageEvent (peer : PeerId) (lane : PublicLane) (message : Message) (media : option InboxRef)
| AdapterChanged (info : PeerInfo).

(** [batchShare]: the bytes the [BacklogShare] of the batch accounts for, 0 without one. *)
Record EventBatch := mkBatch { events : list EngineEvent; batchShare : Z }.

Inductive State := Connecting | AwaitingDecision | InSession | Closing.
#[global] Instance State_eq_dec : EqDecision State.
Proof. solve_decision. Defined.

Record Peer := mkPeer {
  peerInfo : PeerInfo;
  address : SocketAddress;
  state : State;
  link : Link.ReliableLink;
  control : list Link.OutboundMessage;
  deadline : option TimePoint;
  stateDeadline : option TimePoint;
  initiator : bool;
  acceptSent : bool;
  closeSent : bool;
  announced : bool;
  reported : bool;
  ended : bool;
  unsettled : bool;
  scheduled : Z;
  media : option InboxRef;
  mediaSentAtReport : Z;
  mediaReceivedAtReport : Z;
  mediaLoss : Q;
}.
#[global] Instance eta_Peer : Eta Peer := fun r =>
  mkPeer (peerInfo r) (address r) (state r) (link r) (control r) (deadline r) (stateDeadline r) (initiator r)
    (acceptSent r) (closeSent r) (announced r) (reported r) (ended r) (unsettled r) (scheduled r) (media r)
    (mediaSentAtReport r) (mediaReceivedAtReport r) (mediaLoss r).

Definition newPeer (info : PeerInfo) (address : SocketAddress) (timings : LinkTimings) (streamID : Z)
    (budget : Budget.AssemblyBudget) : Peer :=
  {| peerInfo := info; address := address; state := Connecting;
     link := Link.newLink timings streamID 0 (Some budget); control := []; deadline := None; stateDeadline := None;
     initiator := false; acceptSent := false; closeSent := false; announced := false; reported := false;
     ended := false; unsettled := false; scheduled := 0; media := None; mediaSentAtReport := 0;
     mediaReceivedAtReport := 0; mediaLoss := 0 |}.

Inductive Transmit := Sent | Lost | Refused.
#[global] Instance Transmit_eq_dec : EqDecision Transmit.
Proof. solve_decision. Defined.

(** A socket is the address it is bound to. *)
Record LoopStats := mkLoopStats {
  steps : Z;
  overdueWaits : Z;
  datagramsSent : Z;
  budgetTicks : Z;
  budgetTickTime : Z;
}.
#[global] Instance eta_LoopStats : Eta LoopStats := fun r =>
  mkLoopStats (steps r) (overdueWaits r) (datagramsSent r) (budgetTicks r) (budgetTickTime r).

Record NetworkEngine := mkEngine {
  mConfig : EngineConfig;
  mId : PeerId;
  mWoken : bool;
  mBacklogBytes : Z;
  mBacklogPaused : bool;
  mMailbox : Box.Mailbox;
  mIoSocket : option SocketAddress;
  mBeaconSocket : option SocketAddress;
  mInterface : option LocalInterface;
  mDiscovery : DiscoveryLogic;
  mPeers : gmap PeerId Peer;
  mByStream : gmap Z PeerId;
  mScheduler : Sched.SendScheduler;
  mAssemblyBudget : Budget.AssemblyBudget;
  mInboxes : gmap InboxRef (list Message);
  mEvents : list EngineEvent;
  mPaused : bool;
  mShutdown : bool;
  mCheckInterface : bool;
  mBeaconDue : bool;
  mPeersChanged : bool;
  mNextTick : option TimePoint;
  mNextWake : option TimePoint;
  mTouched : list PeerId;
  mAcksHeldBack : list PeerId;
  mEnded : list PeerId;
  mSocketBlocked : bool;
  mSocketFailed : bool;
  mWaitingForTick : bool;
  mTickTimedOut : bool;
  mStepStartedAt : TimePoint;
  mLoopStats : LoopStats;
}.
#[global] Instance eta_NetworkEngine : Eta NetworkEngine := fun r =>
  mkEngine (mConfig r) (mId r) (mWoken r) (mBacklogBytes r) (mBacklogPaused r) (mMailbox r) (mIoSocket r)
    (mBeaconSocket r) (mInterface r) (mDiscovery r) (mPeers r) (mByStream r) (mScheduler r) (mAssemblyBudget r)
    (mInboxes r) (mEvents r) (mPaused r) (mShutdown r) (mCheckInterface r) (mBeaconDue r) (mPeersChanged r)
    (mNextTick r) (mNextWake r) (mTouched r) (mAcksHeldBack r) (mEnded r) (mSocketBlocked r) (mSocketFailed r)
    (mWaitingForTick r) (mTickTimedOut r) (mStepStartedAt r) (mLoopStats r).

(** [libraryVersion] is [internal::Version], which the build generates. *)
Definition completed (libraryVersion : bytes) (config : EngineConfig) : EngineConfig :=
  let config := if MaxDisplayName <? zlen (cfgDisplayName config)
                then config <| cfgDisplayName ::= ztake MaxDisplayName |> else config in
  if bool_decide (cfgAppVersion config = []) then config <| cfgAppVersion := libraryVersion |> else config.

(** [generated] is what [makeInstanceId] returns. *)
Definition newEngine (libraryVersion : bytes) (generated : PeerId) (config : EngineConfig) : NetworkEngine :=
  let config := completed libraryVersion config in
  let id := if negb (cfgInstanceId config =? 0) then cfgInstanceId config else generated in
  let identity := {| localInstance := id; localAppIdHash := hashAppId (cfgAppId config);
                     localVersion := parseAppVersion (cfgAppVersion config); localName := cfgDisplayName config |} in
  {| mConfig := config; mId := id; mWoken := false; mBacklogBytes := 0; mBacklogPaused := false;
     mMailbox := Box.setQueueBytes (cfgSendQueueBytes config) Box.newMailbox; mIoSocket := None;
     mBeaconSocket := None; mInterface := None; mDiscovery := newDiscovery identity; mPeers := ∅; mByStream := ∅;
     mScheduler := Sched.newScheduler (cfgMaxSendRate config);
     mAssemblyBudget := Budget.mkBudget AssemblyBudgetBytes 0; mInboxes := ∅; mEvents := []; mPaused := false;
     mShutdown := false; mCheckInterface := true; mBeaconDue := false; mPeersChanged := false; mNextTick := None;
     mNextWake := None; mTouched := []; mAcksHeldBack := []; mEnded := []; mSocketBlocked := false;
     mSocketFailed := false; mWaitingForTick := false; mTickTimedOut := false; mStepStartedAt := 0;
     mLoopStats := mkLoopStats 0 0 0 0 0 |}.

Definition finished (e : NetworkEngine) : bool := mShutdown e && bool_decide (mPeers e = ∅).

(** ** Helpers *)
Definition wireLane (l : PublicLane) : Lane :=
  match l with LReliable => Reliable | LBulk => Bulk | LMedia => Media end.
Definition publicLane (l : Lane) : PublicLane :=
  match l with Bulk => LBulk | Media => LMedia | _ => LReliable end.

Definition earlier (a b : option TimePoint) : option TimePoint :=
  match a, b with
  | Some a, Some b => Some (Z.min a b)
  | Some a, None => Some a
  | None, b => b
  end.

Definition transfersData (p : Peer) : bool :=
  bool_decide (state p = InSession) || bool_decide (state p = Closing) && negb (closeSent p).

(** [std::ranges::unique] and [erase]. *)
Fixpoint uniqueFrom (x : Z) (l : list Z) : list Z :=
  match l with
  | [] => []
  | y :: l => if y =? x then uniqueFrom x l else y :: uniqueFrom y l
  end.
Definition unique (l : list Z) : list Z := match l with [] => [] | x :: l => x :: uniqueFrom x l end.

(** ** What other threads do *)

(** [~BacklogShare]: a batch of [n] bytes is gone. *)
Definition dropShare (n : Z) (e : NetworkEngine) : NetworkEngine :=
  let before := mBacklogBytes e in
  let e := e <| mBacklogBytes := u64 (before - n) |> in
  if mBacklogPaused e && (BacklogResumeBytes <=? before) && (u64 (before - n) <? BacklogResumeBytes)
  then let m := Box.post Box.ResumeReceiving 0 (mMailbox e) in
       e <| mMailbox := m |> <| mWoken := mWoken e || (Box.mDoorbell (mMailbox e) <? Box.mDoorbell m) |>
  else e.

(** [EngineEvent::takeMessage]: the message of a [MessageEvent]. *)
Definition takeMessage (message : Message) (media : option InboxRef) (e : NetworkEngine) :
    option Message * NetworkEngine :=
  match media with
  | None => (Some message, e)
  | Some inbox =>
    match mInboxes e !! inbox with
    | Some (taken :: rest) => (Some taken, e <| mInboxes ::= <[inbox := rest]> |>)
    | _ => (None, e)
    end
  end.

(** Work in the mailbox wakes the loop: the doorbell is [wake]. *)
Definition setMailbox (m : Box.Mailbox) (e : NetworkEngine) : NetworkEngine :=
  e <| mWoken := mWoken e || (Box.mDoorbell (mMailbox e) <? Box.mDoorbell m) |> <| mMailbox := m |>.

Inductive Call :=
| UseMailbox (a : action)
| TakeMessage (media : InboxRef)
| DropBatch (share : Z).
Definition performCall (e : NetworkEngine) (c : Call) : NetworkEngine :=
  match c with
  | UseMailbox a => setMailbox (perform a (mMailbox e)) e
  | TakeMessage media => (takeMessage (mkMessage 0 []) (Some media) e).2
  | DropBatch n => dropShare n e
  end.

(** The steps of the mailbox that belong to other threads than the I/O thread. *)
Definition appAction (a : action) : Prop :=
  match a with
  | Post _ _ | Seal _ => True
  | PushMail _ l _ _ | PushAll l _ => l <> Control
  | Resume w => Box.pwLane w <> Control /\ Box.pwLane w <> Media /\ zlen (Box.mailBody (Box.pwMail w)) <= Box.maxPayload (Box.pwLane w)
  | _ => False
  end.
Definition callOk (c : Call) : Prop := match c with UseMailbox a => appAction a | _ => True end.

(** ** The world *)
Inductive Port := IoPort | BeaconPort.

Class World (W : Type) := {
  sendDatagram : SocketAddress -> bytes -> W -> option SocketError * W;
  receiveDatagram : Port -> W -> (SocketError + SocketAddress * bytes) * W;
  waitReadable : Duration -> W -> option SocketError * W;
  queryInterface : W -> option LocalInterface * W;
  makeSocket : SocketAddress -> BindOptions -> W -> (SocketError + SocketAddress) * W;
  drawStreamID : W -> Z * W;
  otherThreads : W -> list Call * W;
  (** the capacity of a vector of so many elements, which its history decides *)
  capacityOf : Z -> W -> Z * W;
}.

(** The stream ids that are drawn, for as long as they are in use. *)
Fixpoint draw {W} `{!World W} (fuel : nat) (used : Z -> bool) (w : W) : option (Z * W) :=
  let '(id, w) := drawStreamID w in
  if used id then match fuel with O => None | S fuel => draw fuel used w end else Some (id, w).

(** What is relied on: a datagram fits the buffer, its sender and a local address have a
    16-bit port and a 32-bit address, a drawn stream id is a number between 1 and the largest of 32 bits,
    [fuel] draws are enough to meet one that is not among [MaxPeers], and the other
    threads only do what is theirs to do. *)
Definition address_ok (a : SocketAddress) : Prop := is_uint 32 (ipValue (ip a)) /\ is_uint 16 (port a).
Class WorldOk (W : Type) `{!World W} (fuel : nat) := {
  wo_receive : forall port w from d, (receiveDatagram port w).1 = inr (from, d) ->
    zlen d <= PackageBufferSize /\ address_ok from;
  wo_draw : forall w, 1 <= (drawStreamID w).1 < 2 ^ 32;
  wo_fresh : forall (used : gset Z) w, Z.of_nat (size used) < MaxPeers ->
    is_Some (draw fuel (fun id => bool_decide (id ∈ used)) w);
  wo_others : forall w c, c ∈ (otherThreads w).1 -> callOk c;
}.

(** ** Computations *)
Definition M (W A : Type) : Type := NetworkEngine -> W -> option (A * NetworkEngine * W).
#[global] Instance m_ret W : MRet (M W) := fun A a e w => Some (a, e, w).
#[global] Instance m_bind W : MBind (M W) := fun A B f m e w =>
  match m e w with Some (a, e, w) => f a e w | None => None end.

Section Computations.
Context {W : Type} `{!World W}.

Definition gets {A} (f : NetworkEngine -> A) : M W A := fun e w => Some (f e, e, w).
Definition modify (f : NetworkEngine -> NetworkEngine) : M W () := fun e w => Some ((), f e, w).
Definition ask {A} (f : W -> A * W) : M W A := fun e w => let '(a, w) := f w in Some (a, e, w).
Definition must {A} (o : option A) : M W A := fun e w => match o with Some a => Some (a, e, w) | None => None end.
Definition when (b : bool) (m : M W ()) : M W () := if b then m else mret ().

Definition forEach {A} (f : A -> M W ()) : list A -> M W () := fix go l :=
  match l with [] => mret () | x :: l => f x;; go l end.

(** Other threads come first. *)
Definition interfere : M W () := fun e w =>
  let '(calls, w) := otherThreads w in Some ((), fold_left performCall calls e, w).
Definition locked {A} (f : Box.Mailbox -> A * Box.Mailbox) : M W A := fun e w =>
  let '(a, m) := f (mMailbox e) in Some (a, setMailbox m e, w).
Definition mailbox {A} (f : Box.Mailbox -> A * Box.Mailbox) : M W A := interfere;; locked f.
Definition mailbox_ (f : Box.Mailbox -> Box.Mailbox) : M W () := mailbox (fun m => ((), f m)).

(** [find], following a reference, and an assignment through one. *)
Definition find (id : PeerId) : M W (option Peer) := gets (fun e => mPeers e !! id).
Definition deref (id : PeerId) : M W Peer := fun e w =>
  match mPeers e !! id with Some p => Some (p, e, w) | None => None end.
Definition setPeer (id : PeerId) (f : Peer -> Peer) : M W () :=
  p ← deref id; modify (fun e => e <| mPeers ::= <[id := f p]> |>).

(** A call of the link of a peer, which shares the budget of the engine. *)
Definition onLink {A} (id : PeerId) (f : Link.ReliableLink -> A * Link.ReliableLink) : M W A :=
  p ← deref id; budget ← gets mAssemblyBudget;
  let '(a, k) := f ((link p) <| Link.mBudget := Some budget |>) in
  modify (fun e => e <| mPeers ::= <[id := p <| link := k |>]> |>
                     <| mAssemblyBudget := default budget (Link.mBudget k) |>);;
  mret a.
Definition onLink_ (id : PeerId) (f : Link.ReliableLink -> Link.ReliableLink) : M W () :=
  onLink id (fun k => ((), f k)).

Definition touch (id : PeerId) : M W () := modify (fun e => e <| mTouched ::= fun l => l ++ [id] |>).
Definition emit (ev : EngineEvent) : M W () := modify (fun e => e <| mEvents ::= fun l => l ++ [ev] |>).
End Computations.
End Engine.
