(* ===== verification/SessionSpec.v ===== *)
(** * What a session is

    The abstract specification of the sessions of an engine: for every peer its stage, and
    what the application was told.  [astep] lists all that may happen to them; the handlers
    of the engine are shown to do nothing else.  Here is what follows from it for the
    application, above all the contract of [NetLinkCallbacks]: for every peer [onConnected]
    comes before its first [onMessage], and nothing follows its [onDisconnected]. *)
From S2P Require Import Prelude Constants Discovery Engine.
From stdpp Require Import relations.
Import Engine.
#[local] Open Scope Z_scope.

(** ** What the application is told *)
Inductive Phase := Out | Asked | In.
#[export] Instance Phase_eq_dec : EqDecision Phase.
Proof. solve_decision. Defined.

(** Whether the peer is discovered, and how far a session with it is. *)
Record Told := mkTold { tKnown : bool; tPhase : Phase }.
Definition untold : Told := mkTold false Out.

(** What the events that concern [id] may be. *)
Definition tell (id : PeerId) (t : Told) (ev : EngineEvent) : option Told :=
  match ev with
  | PeerDiscovered i _ => Some (if i =? id then mkTold true (tPhase t) else t)
  | PeerLost i =>
    if i =? id then if tKnown t && bool_decide (tPhase t = Out) then Some (mkTold false Out) else None else Some t
  | ConnectionRequest i _ =>
    if i =? id then if bool_decide (tPhase t = Out) then Some (mkTold (tKnown t) Asked) else None else Some t
  | Connected i _ =>
    if i =? id then if negb (bool_decide (tPhase t = In)) then Some (mkTold (tKnown t) In) else None else Some t
  | Disconnected i _ => Some (if i =? id then mkTold (tKnown t) Out else t)
  | MessageEvent i _ _ _ => if i =? id then if bool_decide (tPhase t = In) then Some t else None else Some t
  | AdapterChanged _ => Some t
  end.
Definition tellAll (id : PeerId) (evs : list EngineEvent) (t : Told) : option Told :=
  fold_left (fun t ev => t ← t; tell id t ev) evs (Some t).
Arguments tellAll : simpl never.

(** The peer an event is about. *)
Definition subject (ev : EngineEvent) : option PeerId :=
  match ev with
  | PeerDiscovered i _ | PeerLost i | ConnectionRequest i _ | Connected i _ | Disconnected i _ | MessageEvent i _ _ _ => Some i
  | AdapterChanged _ => None
  end.

(** ** The stage of a session *)
Record View := mkView {
  vState : State;
  vInitiator : bool;
  vAcceptSent : bool;
  vCloseSent : bool;
  vAnnounced : bool;
  vReported : bool;
  vEnded : bool;
  vUntil : option TimePoint;
}.
#[export] Instance eta_View : Eta View := fun r =>
  mkView (vState r) (vInitiator r) (vAcceptSent r) (vCloseSent r) (vAnnounced r) (vReported r) (vEnded r) (vUntil r).
Definition freshView : View := mkView Connecting false false false false false false None.

Definition vTransfers (v : View) : bool :=
  bool_decide (vState v = InSession) || bool_decide (vState v = Closing) && negb (vCloseSent v).

(** The session is told to be over, to an application that knows of it. *)
Definition reportView (v : View) : View := if vAnnounced v then v <| vReported := true |> else v.
Definition reportEvents (id : PeerId) (v : View) (r : DisconnectReason) : list EngineEvent :=
  if vAnnounced v && negb (vReported v) then [Disconnected id r] else [].

(** What may happen to one session, and what is told about it. *)
Inductive vstep (id : PeerId) : View -> View -> list EngineEvent -> Prop :=
| vs_initiate : vstep id freshView (freshView <| vInitiator := true |> <| vAnnounced := true |>) []
| vs_announce b : vstep id freshView (freshView <| vAnnounced := b |>) []
| vs_ask until i :
    vstep id freshView (freshView <| vState := AwaitingDecision |> <| vUntil := until |> <| vAnnounced := true |>)
      [ConnectionRequest id i]
| vs_accept v : vState v = AwaitingDecision \/ vState v = Connecting /\ vInitiator v = false ->
    vstep id v (v <| vState := Connecting |> <| vAcceptSent := true |> <| vUntil := None |>) []
| vs_connect v i : vState v = Connecting -> vEnded v = false ->
    vstep id v (v <| vState := InSession |> <| vAnnounced := true |> <| vUntil := None |>) [Connected id i]
| vs_message v l m b : vTransfers v = true -> vEnded v = false -> vReported v = false ->
    vstep id v v [MessageEvent id l m b]
| vs_drain v until : vState v = InSession ->
    vstep id v (v <| vState := Closing |> <| vUntil := until |>) []
| vs_close v r until :
    vstep id v ((reportView v) <| vState := Closing |> <| vCloseSent := true |> <| vUntil := until |>) (reportEvents id v r)
| vs_end v r : vstep id v ((reportView v) <| vEnded := true |>) (reportEvents id v r)
| vs_finish v : vCloseSent v = true -> vstep id v (v <| vEnded := true |>) [].

(** ** The sessions of an engine *)
Record Abs := mkAbs { aPeers : gmap PeerId View; aKnown : gset PeerId; aTrace : list EngineEvent }.
#[export] Instance eta_Abs : Eta Abs := fun r => mkAbs (aPeers r) (aKnown r) (aTrace r).
Definition nothing : Abs := mkAbs ∅ ∅ [].

Definition told (evs : list EngineEvent) (a : Abs) : Abs := a <| aTrace ::= fun t => t ++ evs |>.

Inductive astep (a : Abs) : Abs -> Prop :=
| as_peer id v v' evs : aPeers a !! id = Some v -> vstep id v v' evs ->
    astep a (told evs (a <| aPeers ::= <[id := v']> |>))
| as_add id : aPeers a !! id = None -> Z.of_nat (size (aPeers a)) < MaxPeers ->
    astep a (a <| aPeers ::= <[id := freshView]> |>)
| as_remove id v r : aPeers a !! id = Some v ->
    astep a (told (reportEvents id v r) (a <| aPeers ::= delete id |>))
| as_drop id v : aPeers a !! id = Some v ->
    vState v = Connecting /\ vInitiator v = true \/ vCloseSent v = true \/ vEnded v = true ->
    astep a (a <| aPeers ::= delete id |>)
| as_refuse id r : aPeers a !! id = None -> astep a (told [Disconnected id r] a)
| as_discover id i : astep a (told [PeerDiscovered id i] (a <| aKnown ::= union {[id]} |>))
| as_lose id : id ∈ aKnown a -> aPeers a !! id = None ->
    astep a (told [PeerLost id] (a <| aKnown ::= fun s => s ∖ {[id]} |>))
| as_adapter i : astep a (told [AdapterChanged i] a).

Definition reached (a : Abs) : Prop := rtc astep nothing a.

(** ** The invariant *)
Definition phase_ok (ph : Phase) (v : View) : Prop :=
  if vEnded v || vReported v || vCloseSent v then ph = Out
  else
    match vState v with
    | Connecting => if vInitiator v || negb (vAnnounced v) then ph = Out else ph <> In
    | AwaitingDecision => ph <> In
    | InSession | Closing => ph = In
    end.

Record view_ok (ph : Phase) (v : View) : Prop := {
  vo_reported : vReported v = true -> vAnnounced v = true /\ (vEnded v = true \/ vCloseSent v = true);
  vo_close : vCloseSent v = true -> vState v = Closing /\ (vAnnounced v = true -> vReported v = true);
  vo_ended : vEnded v = true -> vAnnounced v = true -> vReported v = true;
  vo_announced : vState v <> Connecting -> vAnnounced v = true \/ vCloseSent v = true;
  vo_awaiting : vState v = AwaitingDecision -> vInitiator v = false;
  vo_phase : phase_ok ph v;
}.

Definition session_ok (t : Told) (o : option View) : Prop :=
  match o with Some v => view_ok (tPhase t) v | None => tPhase t = Out end.

Record abs_ok (a : Abs) : Prop := {
  ao_told : forall id, exists t, tellAll id (aTrace a) untold = Some t /\
    (tKnown t = true <-> id ∈ aKnown a) /\ session_ok t (aPeers a !! id);
  ao_size : Z.of_nat (size (aPeers a)) <= MaxPeers;
}.

Lemma tellAll_app id evs evs' t : tellAll id (evs ++ evs') t = t ← tellAll id evs t; tellAll id evs' t.
Proof.
  unfold tellAll. rewrite fold_left_app. destruct (fold_left _ evs _) as [t'|]; [done|].
  cbn. induction evs'; done.
Qed.

Lemma tell_other id ev t : subject ev <> Some id -> tell id t ev = Some t.
Proof.
  destruct ev; cbn; intros H; try done; destruct (Z.eqb_spec peer id) as [->|]; done.
Qed.

Lemma tellAll_other id evs t : Forall (fun ev => subject ev <> Some id) evs -> tellAll id evs t = Some t.
Proof.
  unfold tellAll. induction 1 as [|ev evs H Hs IH]; [done|]. cbn. by rewrite tell_other.
Qed.

(** ** Every step keeps it *)
Lemma reportEvents_subject id v r : Forall (fun ev => subject ev = Some id) (reportEvents id v r).
Proof. unfold reportEvents. destruct (_ && _); repeat constructor. Qed.

Lemma vstep_subject id v v' evs : vstep id v v' evs -> Forall (fun ev => subject ev = Some id) evs.
Proof. destruct 1; repeat constructor; apply reportEvents_subject. Qed.

(** Telling the end of a session, whatever its stage. *)
Lemma report_tells id v r t : view_ok (tPhase t) v -> exists t', tellAll id (reportEvents id v r) t = Some t' /\
  tKnown t' = tKnown t /\ tPhase t' = Out.
Proof.
  intros [Hr Hc He Ha Hw Hp]. unfold reportEvents. destruct (vAnnounced v) eqn:E1, (vReported v) eqn:E2; cbn [andb negb].
  - exists t. split_and!; try done. unfold phase_ok in Hp. by rewrite E2, orb_true_r in Hp.
  - eexists. unfold tellAll. cbn. by rewrite Z.eqb_refl.
  - by destruct (Hr eq_refl).
  - exists t. split_and!; try done. unfold phase_ok in Hp. rewrite E1, E2, orb_false_r in Hp.
    destruct (vEnded v); [done|]. destruct (vCloseSent v) eqn:Ec; [done|]. cbn in Hp.
    destruct (vState v) eqn:Es; [by rewrite orb_true_r in Hp|..]; by destruct Ha.
Qed.

Lemma vstep_ok id v v' evs t : vstep id v v' evs -> view_ok (tPhase t) v ->
  exists t', tellAll id evs t = Some t' /\ tKnown t' = tKnown t /\ view_ok (tPhase t') v'.
Proof.
  intros Hs Hv. destruct Hs.
  - exists t. split_and!; try done. pose proof (vo_phase _ _ Hv) as Hp. by split.
  - exists t. split_and!; try done. pose proof (vo_phase _ _ Hv) as Hp. cbn in Hp. split; try done.
    unfold phase_ok. cbn. by destruct b; cbn; rewrite Hp.
  - pose proof (vo_phase _ _ Hv) as Hp. cbn in Hp. eexists. unfold tellAll. cbn. rewrite Z.eqb_refl, bool_decide_true by done.
    split_and!; try done. split; cbn; try done. by left.
  - exists t. split_and!; try done. destruct Hv as [Hr Hc He Ha Hw Hp]. unfold phase_ok in Hp. split; cbn; try done.
    + intros E. destruct (Hc E) as [Ec _]. rewrite Ec in H. by destruct H as [|[]].
    + unfold phase_ok. cbn. destruct (_ || _ || _) eqn:Eb; [done|]. destruct H as [Es|[Es Ei]]; rewrite Es in *; [|done].
      rewrite Hw by done. apply orb_false_iff in Eb as [_ Ec]. destruct Ha as [-> |]; [done| |congruence]. done.
  - destruct Hv as [Hr Hc He Ha Hw Hp]. unfold phase_ok in Hp. rewrite H, H0 in Hp. cbn [orb] in Hp.
    destruct (vCloseSent v) eqn:Ec; [by destruct (Hc eq_refl); congruence|].
    destruct (vReported v) eqn:Er; [by destruct (Hr eq_refl) as [_ []]; congruence|]. cbn [orb] in Hp.
    assert (Hn : tPhase t <> In) by (destruct (_ || _); congruence).
    eexists. unfold tellAll. cbn. rewrite Z.eqb_refl, bool_decide_false by done. split_and!; try done.
    split; cbn; rewrite ?Ec, ?Er, ?H0; try done; [by left|]. unfold phase_ok. cbn. by rewrite H0, Er, Ec.
  - pose proof (vo_phase _ _ Hv) as Hp. unfold phase_ok in Hp. rewrite H0, H1 in Hp. unfold vTransfers in H. cbn [orb] in Hp.
    exists t. split; [|done]. unfold tellAll. cbn. rewrite Z.eqb_refl, bool_decide_true; [done|].
    pose proof (vo_close _ _ Hv) as Hc. destruct (vCloseSent v); [destruct Hc as [E _]; [done|]; by rewrite E in H|].
    by destruct (vState v); vm_compute in H.
  - exists t. split_and!; try done. destruct Hv as [Hr Hc He Ha Hw Hp]. unfold phase_ok in Hp. split; cbn; try done.
    + intros E. by destruct (Hc E).
    + intros _. apply Ha. congruence.
    + unfold phase_ok. cbn. by rewrite H in Hp.
  - destruct (report_tells id v r t Hv) as (t' & E & Ek & Ep). exists t'. split_and!; try done.
    destruct Hv as [Hr Hc He Ha Hw Hp]. unfold reportView. split; destruct (vAnnounced v) eqn:Ea; cbn; try done; try (by intuition congruence).
    + unfold phase_ok. cbn. by rewrite orb_true_r.
    + unfold phase_ok. cbn. by rewrite orb_true_r.
  - destruct (report_tells id v r t Hv) as (t' & E & Ek & Ep). exists t'. split_and!; try done.
    destruct Hv as [Hr Hc He Ha Hw Hp]. unfold reportView. split; destruct (vAnnounced v) eqn:Ea; cbn; try done; try (by intuition congruence).
  - exists t. split_and!; try done. destruct Hv as [Hr Hc He Ha Hw Hp]. destruct (Hc H). split; cbn; try done.
    + intros E. split; [by apply Hr|by left].
    + unfold phase_ok in *. cbn. rewrite H, orb_true_r in Hp. done.
Qed.

(** A step that concerns one peer: the others were told nothing. *)
Lemma told_others id evs a peers known :
  abs_ok a -> Forall (fun ev => subject ev = Some id) evs ->
  (forall x, x <> id -> peers !! x = aPeers a !! x) ->
  (forall x, x <> id -> x ∈ known <-> x ∈ aKnown a) ->
  (forall t, tellAll id (aTrace a) untold = Some t -> (tKnown t = true <-> id ∈ aKnown a) -> session_ok t (aPeers a !! id) ->
    exists t', tellAll id evs t = Some t' /\ (tKnown t' = true <-> id ∈ known) /\ session_ok t' (peers !! id)) ->
  Z.of_nat (size peers) <= MaxPeers ->
  abs_ok (mkAbs peers known (aTrace a ++ evs)).
Proof.
  intros [Ht Hs] Hev Hp Hk Hid Hsz. split; [|done]. intros x. destruct (Ht x) as (t & E & Hkn & Hso). cbn.
  rewrite tellAll_app, E. cbn. destruct (decide (x = id)) as [->|Hne].
  - by apply Hid.
  - exists t. rewrite tellAll_other, Hp by (done || (eapply Forall_impl; [exact Hev|]; cbn; congruence)).
    split_and!; try done. by rewrite Hk.
Qed.

Lemma size_peers_le (m : gmap PeerId View) id v v' : m !! id = Some v -> size (<[id := v']> m) = size m.
Proof. intros H. by rewrite map_size_insert_Some. Qed.

Lemma size_delete_le (m : gmap PeerId View) id : (size (delete id m) <= size m)%nat.
Proof. rewrite map_size_delete. destruct (m !! id); cbn; lia. Qed.

Lemma astep_ok a a' : abs_ok a -> astep a a' -> abs_ok a'.
Proof.
  intros Hok Hs. pose proof (ao_size _ Hok) as Hsz. destruct Hs.
  - apply (told_others id evs a (<[id := v']> (aPeers a)) (aKnown a)); try done; [by eapply vstep_subject|..].
    + intros x Hx. by rewrite lookup_insert_ne.
    + intros t Et Hk Hso. rewrite H in Hso. rewrite lookup_insert_eq. destruct (vstep_ok _ _ _ _ _ H0 Hso) as (t' & E & Ek & Hv).
      exists t'. by rewrite Ek.
    + by rewrite (size_peers_le _ _ _ _ H).
  - replace (a <| aPeers ::= <[id:=freshView]> |>) with (mkAbs (<[id := freshView]> (aPeers a)) (aKnown a) (aTrace a ++ []))
      by (rewrite app_nil_r; by destruct a).
    apply (told_others id); try done.
    + intros x Hx. by rewrite lookup_insert_ne.
    + intros t Et Hk Hso. rewrite H in Hso. rewrite lookup_insert_eq. exists t. split_and!; try done.
    + rewrite map_size_insert_None by done. lia.
  - apply (told_others id _ a (delete id (aPeers a)) (aKnown a)); try done; [apply reportEvents_subject|..].
    + intros x Hx. by rewrite lookup_delete_ne.
    + intros t Et Hk Hso. rewrite H in Hso. destruct (report_tells id v r t Hso) as (t' & E & Ek & Ep).
      exists t'. rewrite Ek. split_and!; try done. by rewrite lookup_delete_eq.
    + pose proof (size_delete_le (aPeers a) id). lia.
  - replace (a <| aPeers ::= delete id |>) with (mkAbs (delete id (aPeers a)) (aKnown a) (aTrace a ++ []))
      by (rewrite app_nil_r; by destruct a).
    apply (told_others id); try done.
    + intros x Hx. by rewrite lookup_delete_ne.
    + intros t Et Hk Hso. rewrite H in Hso. exists t. split_and!; try done. rewrite lookup_delete_eq. cbn.
      destruct Hso as [Hr Hc He Ha Hw Hp]. unfold phase_ok in Hp.
      destruct H0 as [[E1 E2]|[E|E]]; rewrite ?E1, ?E2, ?E, ?orb_true_r in Hp; cbn in Hp; try done. by destruct (_ || _).
    + pose proof (size_delete_le (aPeers a) id). lia.
  - apply (told_others id _ a (aPeers a) (aKnown a)); try done; [by repeat constructor|].
    intros t Et Hk Hso. rewrite H in *. eexists. unfold tellAll. cbn. by rewrite Z.eqb_refl.
  - apply (told_others id _ a (aPeers a) ({[id]} ∪ aKnown a)); try done; [by repeat constructor|..].
    + intros x Hx. set_solver.
    + intros t Et Hk Hso. eexists. unfold tellAll. cbn. rewrite Z.eqb_refl. split_and!; [done|set_solver|].
      by destruct (aPeers a !! id).
  - apply (told_others id _ a (aPeers a) (aKnown a ∖ {[id]})); try done; [by repeat constructor|..].
    + intros x Hx. set_solver.
    + intros t Et Hk Hso. rewrite H0 in *. cbn in Hso. eexists. unfold tellAll. cbn. rewrite Z.eqb_refl, Hso.
      destruct Hk as [_ Hk]. rewrite Hk by done. cbn. rewrite bool_decide_true by done. split_and!; [done| |done]. cbn. set_solver.
  - split; [|done]. intros id. destruct (ao_told _ Hok id) as (t & E & H1 & H2). exists t. cbn. rewrite tellAll_app, E. done.
Qed.

Lemma nothing_ok : abs_ok nothing.
Proof. split; [|done]. intros id. by exists untold. Qed.

Lemma reached_ok a : reached a -> abs_ok a.
Proof.
  unfold reached. generalize nothing_ok. generalize nothing. intros a0 H0 H. induction H; [done|]. by eapply IHrtc, astep_ok.
Qed.

(** ** The contract in words *)

(** Whatever is accepted before a message ends with the connection of its peer, and nothing
    but messages of that peer since. *)
Definition concerns (id : PeerId) (ev : EngineEvent) : bool :=
  match ev with
  | ConnectionRequest i _ | Connected i _ | Disconnected i _ => i =? id
  | _ => false
  end.

Lemma phase_in id evs : forall t, tellAll id evs untold = Some t -> tPhase t = In ->
  exists pre post i, evs = pre ++ Connected id i :: post /\ Forall (fun ev => concerns id ev = false) post.
Proof.
  induction evs as [|ev evs IH] using rev_ind; intros t H Hp; [injection H as <-; done|].
  rewrite tellAll_app in H. destruct (tellAll id evs untold) as [t0|] eqn:E; [|done]. cbn in H.
  destruct (concerns id ev) eqn:Ec.
  - destruct ev; cbn in Ec; try done; unfold tellAll in H; cbn in H; rewrite Ec in H.
    + destruct (bool_decide _) eqn:?; [|done]. injection H as <-. done.
    + apply Z.eqb_eq in Ec as ->. by exists evs, [], info.
    + injection H as <-. done.
  - assert (Ht : tPhase t0 = In).
    { destruct ev; cbn in Ec; unfold tellAll in H; cbn in H; rewrite ?Ec in H; repeat case_match; try done; by injection H as <-. }
    destruct (IH t0 eq_refl Ht) as (pre & post & i & -> & Hpost). exists pre, (post ++ [ev]), i.
    split; [by rewrite <- app_assoc|]. apply Forall_app. split; [done|]. by repeat constructor.
Qed.

Lemma tellAll_cons id ev evs t : tellAll id (ev :: evs) t = t1 ← tell id t ev; tellAll id evs t1.
Proof. change (ev :: evs) with ([ev] ++ evs). by rewrite tellAll_app. Qed.

(** What was told up to some event was told correctly. *)
Lemma tellAll_split id pre ev post t : tellAll id (pre ++ ev :: post) untold = Some t ->
  exists t0 t1, tellAll id pre untold = Some t0 /\ tell id t0 ev = Some t1 /\ tellAll id post t1 = Some t.
Proof.
  rewrite tellAll_app. destruct (tellAll id pre untold) as [t0|]; [|done]. cbn. rewrite tellAll_cons.
  destruct (tell id t0 ev) as [t1|] eqn:E; [|done]. intros H. by exists t0, t1.
Qed.

(** A session goes on until the application is told of its end. *)
Lemma told_end id evs : forall t t', tellAll id evs t = Some t' -> tPhase t = In -> tPhase t' <> In -> exists r, Disconnected id r ∈ evs.
Proof.
  induction evs as [|ev evs IH]; intros t t' H Hp Hn; [injection H as <-; done|].
  rewrite tellAll_cons in H. destruct (tell id t ev) as [t1|] eqn:E; [|done]. cbn in H.
  assert (H1 : tPhase t1 = In \/ exists r, ev = Disconnected id r).
  { destruct (decide (subject ev = Some id)) as [Es|Es]; [|rewrite tell_other in E by done; injection E as <-; by left].
    destruct ev; cbn in Es; try done; injection Es as ->; cbn in E; rewrite Z.eqb_refl in E; rewrite ?Hp in E; cbn in E;
      rewrite ?andb_false_r in E; try done; [injection E as <-; by left|right; by eexists|injection E as <-; by left]. }
  destruct H1 as [H1|[r ->]]; [|exists r; by left]. destruct (IH t1 t' H H1 Hn) as [r Hr]. exists r. by right.
Qed.

(** A peer that is known was discovered, and not lost since. *)
Lemma known_in id evs : forall t, tellAll id evs untold = Some t -> tKnown t = true ->
  exists pre i post, evs = pre ++ PeerDiscovered id i :: post /\ PeerLost id ∉ post.
Proof.
  induction evs as [|ev evs IH] using rev_ind; intros t H Hk; [injection H as <-; done|].
  rewrite tellAll_app in H. destruct (tellAll id evs untold) as [t0|] eqn:E; [|done]. unfold tellAll in H. cbn in H.
  assert (Hold : tKnown t0 = true -> ev <> PeerLost id -> exists pre i post, evs ++ [ev] = pre ++ PeerDiscovered id i :: post /\ PeerLost id ∉ post).
  { intros Hk0 Hl. destruct (IH t0 eq_refl Hk0) as (pre & i & post & -> & Hpost). exists pre, i, (post ++ [ev]). split; [by rewrite <- app_assoc|].
    rewrite elem_of_app, list_elem_of_singleton. intros [|El]; [done|by apply Hl]. }
  destruct (decide (subject ev = Some id)) as [Es|Es].
  2:{ rewrite tell_other in H by done. injection H as ->. apply Hold; [done|]. intros ->. by apply Es. }
  destruct ev as [x i|x|x i|x i|x r|x l m b|]; cbn in Es; try done; injection Es as ->; cbn in H; rewrite Z.eqb_refl in H.
  - exists evs, i, []. split; [done|apply not_elem_of_nil].
  - destruct (_ && _); [|done]. by injection H as <-.
  - case_bool_decide; [|done]. injection H as <-. by apply Hold.
  - destruct (negb _); [|done]. injection H as <-. by apply Hold.
  - injection H as <-. by apply Hold.
  - case_bool_decide; [|done]. injection H as <-. by apply Hold.
Qed.

(** ** The contract, in words *)
Record contract (id : PeerId) (hist : list EngineEvent) : Prop := {
  ct_message : forall pre l m b post, hist = pre ++ MessageEvent id l m b :: post ->
    exists pre1 i pre2, pre = pre1 ++ Connected id i :: pre2 /\ Forall (fun ev => concerns id ev = false) pre2;
  ct_connected : forall pre i mid i' post, hist = pre ++ Connected id i :: mid ++ Connected id i' :: post ->
    exists r, Disconnected id r ∈ mid;
  ct_request : forall pre i mid i' post, hist = pre ++ Connected id i :: mid ++ ConnectionRequest id i' :: post ->
    exists r, Disconnected id r ∈ mid;
  ct_lost : forall pre post, hist = pre ++ PeerLost id :: post ->
    (exists pre1 i pre2, pre = pre1 ++ PeerDiscovered id i :: pre2 /\ PeerLost id ∉ pre2) /\
    forall pre1 i pre2, pre = pre1 ++ Connected id i :: pre2 -> exists r, Disconnected id r ∈ pre2;
}.

Lemma contract_kept id hist t : tellAll id hist untold = Some t -> contract id hist.
Proof.
  intros H. assert (Hc : forall t0 i t1, tell id t0 (Connected id i) = Some t1 -> tPhase t1 = In).
  { intros t0 i t1. cbn. rewrite Z.eqb_refl. destruct (negb _); [by intros [= <-]|done]. }
  assert (Hend : forall pre i mid ev post t0, (forall t1, tell id t0 ev = Some t1 -> tPhase t0 <> In) ->
    tellAll id (pre ++ Connected id i :: mid) untold = Some t0 -> tellAll id (pre ++ Connected id i :: mid ++ ev :: post) untold = Some t ->
    exists r, Disconnected id r ∈ mid).
  { intros pre i mid ev post t0 Hev H0 Hall. apply tellAll_split in H0 as (ta & tb & Ea & Eb & Em).
    eapply told_end; [exact Em|by eapply Hc|]. rewrite app_comm_cons, app_assoc in Hall. apply tellAll_split in Hall as (tc & td & E1 & E2 & _).
    apply (Hev td). rewrite <- E2. f_equal.
    assert (Em' : tellAll id (pre ++ Connected id i :: mid) untold = Some t0).
    { rewrite tellAll_app, Ea. cbn [mbind option_bind]. by rewrite tellAll_cons, Eb. }
    congruence. }
  split.
  - intros pre l m b post ->. apply tellAll_split in H as (t0 & t1 & E0 & E1 & _). 
    destruct (phase_in id pre t0 E0) as (pre1 & pre2 & i & H); [|by exists pre1, i, pre2].
    cbn in E1. rewrite Z.eqb_refl in E1. by case_bool_decide.
  - intros pre i mid i' post ->. pose proof H as Hall. rewrite app_comm_cons, app_assoc in H. apply tellAll_split in H as (t0 & t1 & E0 & E1 & _).
    eapply Hend; [|exact E0|exact Hall]. intros t2. cbn. rewrite Z.eqb_refl. by case_bool_decide.
  - intros pre i mid i' post ->. pose proof H as Hall. rewrite app_comm_cons, app_assoc in H. apply tellAll_split in H as (t0 & t1 & E0 & E1 & _).
    eapply Hend; [|exact E0|exact Hall]. intros t2. cbn. rewrite Z.eqb_refl. case_bool_decide as Ho; [|done]. intros _. by rewrite Ho.
  - intros pre post ->. pose proof H as Hall. apply tellAll_split in H as (t0 & t1 & E0 & E1 & _). cbn in E1. rewrite Z.eqb_refl in E1.
    destruct (tKnown t0 && bool_decide (tPhase t0 = Out)) eqn:Ek; [|done]. apply andb_true_iff in Ek as [Ek Eo]. apply bool_decide_eq_true in Eo.
    split; [by eapply known_in|]. intros pre1 i pre2 ->. apply tellAll_split in E0 as (ta & tb & Ea & Eb & Em).
    eapply told_end; [exact Em|by eapply Hc|]. by rewrite Eo.
Qed.
