(* ===== verification/LinkIdentity.v ===== *)
(** * A link keeps its name

    No operation of [ReliableLink] changes the stream id packets find the link by. *)
From Stdlib Require Import QArith.
From S2P Require Import Prelude Double Constants PacketFlags PacketHeader AckRanges.
From S2P Require Import SequenceBuffer RttEstimator MessageAssembler MediaAssembler ReliableLink.
Import Link.
#[local] Open Scope Z_scope.

Definition named (id : Z) (k : ReliableLink) : Prop := mLocalStreamID k = id.

(** The fields of the operations below are computed; what is not a field update is here. *)
Create HintDb naming discriminated.
Ltac naming := repeat first [done | progress cbn -[fold_left] in * | case_match | progress simplify_eq].

Lemma fold_named {A} (f : ReliableLink -> A -> ReliableLink) id l :
  (forall k x, named id k -> named id (f k x)) -> forall k, named id k -> named id (fold_left f l k).
Proof. intros Hf. induction l as [|x l IH]; intros k Hk; [done|]. by apply IH, Hf. Qed.

Lemma streamFor_named id l k : named id k -> named id (streamFor l k).2.
Proof. unfold streamFor, named. naming. Qed.
Lemma clock_named id now p k : named id k -> named id (updateProgressClock now p k).
Proof. unfold updateProgressClock, named. cbn zeta. naming. Qed.

Lemma offer_named id h e k : named id k -> named id (offer h e k).2.
Proof. done. Qed.

Lemma peekMedia_named {S} `{!MessageSource S} id k (src : S) : named id k -> named id (peekMedia k src).1.2.
Proof. unfold peekMedia, named. naming. Qed.
Lemma peekNext_named {S} `{!MessageSource S} id l k (src : S) : named id k -> named id (peekNext l k src).1.2.
Proof.
  unfold peekNext. intros Hk. destruct (s ← mStreams k l; c ← cursor s; Some (s, c)) as [[s c]|]; [done|].
  destruct (next src l) as [[m|] src']; [|done]. pose proof (streamFor_named id l k Hk).
  by destruct (streamFor l k) as [s k'].
Qed.
Lemma peek_named {S} `{!MessageSource S} id l k (src : S) : named id k -> named id (peek l k src).1.2.
Proof.
  intros Hk. unfold peek. destruct (mFailed k); [done|]. case_decide; [by apply peekMedia_named|].
  destruct (mStreams k l) as [s|]; [|destruct (negb _); [done|by apply peekNext_named]].
  destruct (nextLost s) as [r s']. destruct (_ && _); [done|]. destruct (peerPaused s'); [done|].
  destruct (negb _); [done|]. destruct r as [[sq e]|]; [done|]. by apply peekNext_named.
Qed.

Lemma transmit_named id l s sq e now k : named id k -> named id (transmit l s sq e now k).
Proof. intros Hk. unfold transmit. apply clock_named. unfold named in *. cbn zeta. repeat case_match; done. Qed.
Lemma commit_named id l now k : named id k -> named id (commit l now k).
Proof.
  intros Hk. unfold commit. case_decide.
  - unfold commitMedia, named in *. naming.
  - destruct (mStreams k l) as [s|]; [|done]. destruct (nextLost s) as [[[sq e]|] s']; [by apply transmit_named|].
    destruct (cursor s'); [by apply transmit_named|done].
Qed.

Lemma accept_named id l s h b k : named id k -> named id (acceptInOrder l s h b k).2.
Proof. unfold acceptInOrder, named. naming. Qed.
Lemma drainLoop_named id l n : forall s k, named id k -> named id (drainLoop n l s k).2.
Proof.
  induction n as [|n IH]; intros s k Hk; [done|]. cbn [drainLoop]. destruct (SeqBuf.find _ _) as [d|]; [|done].
  pose proof (accept_named id l s (bdHeader d) (bdBody d) k Hk). destruct (acceptInOrder _ _ _ _ _) as [[t s'] k'].
  destruct t; [|done]. by apply IH.
Qed.
Lemma retryRefused_named id l s k : named id k -> named id (retryRefused l s k).2.
Proof.
  intros Hk. unfold retryRefused. destruct (_ || _); [done|].
  pose proof (drainLoop_named id l (Z.to_nat (SeqBuf.mSize (reorder (s <| budgetPaused := false |>)))) (s <| budgetPaused := false |>) k Hk).
  unfold drainReorderBuffer. by destruct (drainLoop _ _ _ _).
Qed.
Lemma handleData_named id l h b k : named id k -> named id (handleData l h b k).
Proof.
  intros Hk. unfold handleData. pose proof (streamFor_named id l k Hk) as H1. destruct (streamFor l k) as [s k1].
  pose proof (retryRefused_named id l s k1 H1) as H2. destruct (retryRefused l s k1) as [s2 k2]. cbn zeta.
  destruct (_ <=? _); [done|]. destruct (_ || _); [done|]. destruct (negb (seq h =? _)); [exact H2|].
  match goal with |- context [acceptInOrder l s2 h b ?k] => pose proof (accept_named id l s2 h b k H2) as H3 end.
  destruct (acceptInOrder _ _ _ _ _) as [[t s3] k3]. destruct t; [|exact H3]. cbn [negb]. unfold drainReorderBuffer.
  pose proof (drainLoop_named id l (Z.to_nat (SeqBuf.mSize (reorder (s3 <| nextExpected ::= fun n => u64 (n + 1) |>))))
    (s3 <| nextExpected ::= fun n => u64 (n + 1) |>) k3 H3). by destruct (drainLoop _ _ _ _).
Qed.
Lemma handleMedia_named id h b k : named id k -> named id (handleMedia h b k).
Proof. unfold handleMedia, named. naming. Qed.

Lemma setPeerPaused_named id l p now k : named id k -> named id (setPeerPaused l p now k).
Proof.
  intros Hk. unfold setPeerPaused. destruct (mStreams k l); [|done]. destruct (eqb _ _); [done|]. by apply clock_named.
Qed.
Lemma markLost_named id r e t k : named id k -> named id (markLost r e t k).
Proof. unfold markLost, named. intros Hk. destruct (mStreams k (srLane r)); [|done]. cbn zeta. repeat case_match; done. Qed.
Lemma expire_named id keep t work q : (forall k, named id k -> named id (work k)) ->
  forall found k, named id k -> named id (expire keep t work q found k).2.
Proof.
  intros Hw. induction q as [|r q IH]; intros found k Hk; [done|]. cbn [expire]. destruct (entryOf (work k) r) as [e|].
  - destruct (keep r e (work k)); [by apply Hw|]. by apply IH, markLost_named, Hw.
  - by apply IH, Hw.
Qed.

Lemma releaseSeq_named id l p sq : named id p.2 -> named id (releaseSeq l p sq).2.
Proof.
  destruct p as [r k]. unfold releaseSeq, named. cbn. intros Hk. destruct (mStreams k l); [|done].
  destruct (SeqBuf.take _ _) as [[e|] b]; [|done]. cbn. done.
Qed.
Lemma releaseRange_named id l lo hi p : named id p.2 -> named id (releaseRange l lo hi p).2.
Proof.
  unfold releaseRange. revert p. induction (seqZ lo (hi - lo + 1)) as [|x xs IH]; intros p Hp; [done|].
  by apply IH, releaseSeq_named.
Qed.
Lemma releaseAcked_named id l a rs base last p : named id p.2 -> named id (releaseAcked l a rs base last p).2.
Proof.
  intros Hp. unfold releaseAcked. pose proof (releaseRange_named id l base (Z.min a last) p Hp) as H0.
  revert H0. generalize (releaseRange l base (Z.min a last) p). induction rs as [|r rs IH]; intros q Hq; [done|].
  cbn [fold_left]. apply IH. destruct (_ <? _); [done|]. by apply releaseRange_named.
Qed.
Lemma handleAck_named id l h b now k : named id k -> named id (handleAck l h b now k).
Proof.
  intros Hk. unfold handleAck. destruct (mStreams k l) as [s|]; [|done]. destruct (decodeAck b) as [[ack|]|]; [|done..].
  assert (H1 : named id (noteAck l s ack (isPaused (flags h)) now k)).
  { unfold noteAck. destruct (ackSerial s) as [last|]; [destruct (0 <? _); [|exact Hk]|]; apply setPeerPaused_named, Hk. }
  pose proof (releaseAcked_named id l (seq h) (ranges ack) (sendBase s) (u64 (nextSendSeq s - 1)) (noneReleased, _) H1) as H2.
  destruct (releaseAcked _ _ _ _ _ _) as [r k2]. cbn [snd] in H2.
  assert (H3 : named id (takeSample r now (moveWindow l k2))).
  { assert (Hm : named id (moveWindow l k2)) by (unfold moveWindow; by destruct (mStreams k2 l)).
    unfold takeSample. destruct (_ <? _); [|done]. by destruct (hasSample r). }
  pose proof (expire_named id (fun r _ k => mLargestAcked k <? u64 (srTransmission r + FastRetransmitThreshold)) false
    (fun k => k) (mSent (takeSample r now (moveWindow l k2))) (fun k H => H) false _ H3) as H4.
  unfold detectLosses. destruct (expire _ _ _ _ _ _) as [losses k4]. cbn [snd] in H4.
  pose proof (clock_named id now (0 <? acked r) k4 H4) as H5. unfold growWindow, named in *. by destruct (_ && _).
Qed.

Lemma onPacket_named id p now k : named id k -> named id (onPacket p now k).
Proof.
  intros Hk. unfold onPacket. destruct (mFailed k); [done|]. destruct (_ || _); [done|]. cbn zeta.
  set (k1 := match mLastReceived (k <| mRemoteStreamID := Some (srcStreamID (header p)) |>) with Some _ => _ | None => _ end).
  assert (H1 : named id k1) by (unfold k1, named in *; by destruct (mLastReceived _)).
  destruct (kind (flags (header p))).
  - case_decide; [by apply handleMedia_named|by apply handleData_named].
  - destruct (existingStream k1 _); [by apply handleAck_named|done].
  - done.
  - done.
Qed.

Lemma setPaused_named id b k : named id k -> named id (setPaused b k).
Proof.
  intros Hk. unfold setPaused. destruct (eqb _ _); [done|]. apply fold_named; [|done].
  intros k' l H. by destruct (existingStream k' l).
Qed.

Lemma makeAck_named id l k : named id k -> named id (makeAck l k).2.
Proof.
  intros Hk. unfold makeAck, retryLane. cbn. destruct (mStreams k l) as [s|]; [|done].
  pose proof (retryRefused_named id l s k Hk). by destruct (retryRefused l s k).
Qed.
Lemma peekAck_named id k : named id k -> named id (peekAck k).2.
Proof.
  intros Hk. unfold peekAck. destruct (mFailed k); [done|]. case_bool_decide; [|done]. cbn [snd].
  change (named id (fold_left buildAcks StreamLanes k)). apply fold_named; [|done]. intros k' l H'. unfold buildAcks.
  pose proof (makeAck_named id l k' H'). destruct (makeAck l k') as [d k2].
  destruct (negb (Z.land (mAckDue k') (bitOf l) =? 0)); cbn zeta; by destruct (negb _).
Qed.

Lemma dropStreams_named id ls k : named id k -> named id (fold_left dropStream ls k).
Proof.
  intros Hk. apply fold_named; [|done]. intros k' l H. unfold dropStream, named in *. by destruct (mStreams k' l).
Qed.

Lemma onTimer_named id now k : named id k -> named id (onTimer now k).
Proof.
  intros Hk. unfold onTimer. destruct (mFailed k); [done|]. destruct (_ || _); [by apply (dropStreams_named id StreamLanes)|].
  set (k1 := match mLastReceived k, mRemoteStreamID k with Some _, Some _ => _ | _, _ => _ end).
  assert (H1 : named id k1) by (unfold k1, named in *; repeat case_match; done). cbn zeta.
  pose proof (expire_named id (fun _ e _ => now <? sentAt e + us (Rtt.timeoutFor (mRtt k1) (mTimeoutsInARow k1))) true
    (bump timerWork) (mSent k1) (fun k H => H) false k1 H1) as H2.
  destruct (expire _ _ _ _ _ _) as [x k2]. cbn [snd] in H2. apply fold_named.
  - intros k' l H. unfold probeLane, named in *. repeat case_match; done.
  - by destruct (_ && _).
Qed.

(** ** Acknowledgements come to an end *)
Lemma accept_acks l s h b k : mPendingAcks (acceptInOrder l s h b k).2 = mPendingAcks k.
Proof. unfold acceptInOrder. naming. Qed.
Lemma drainLoop_acks l n : forall s k, mPendingAcks (drainLoop n l s k).2 = mPendingAcks k.
Proof.
  induction n as [|n IH]; intros s k; [done|]. cbn [drainLoop]. destruct (SeqBuf.find _ _) as [d|]; [|done].
  pose proof (accept_acks l s (bdHeader d) (bdBody d) k) as E. destruct (acceptInOrder _ _ _ _ _) as [[t s'] k']. cbn [snd] in E.
  destruct t; [|done]. cbn [negb]. by rewrite IH.
Qed.
Lemma makeAck_acks l k : mPendingAcks (makeAck l k).2 = mPendingAcks k.
Proof.
  unfold makeAck, retryLane. cbn. destruct (mStreams k l) as [s|]; [|done]. unfold retryRefused. destruct (_ || _); [done|].
  unfold drainReorderBuffer. pose proof (drainLoop_acks l (Z.to_nat (SeqBuf.mSize (reorder (s <| budgetPaused := false |>)))) (s <| budgetPaused := false |>) k).
  by destruct (drainLoop _ _ _ _).
Qed.

(** One Ack and one Ping of each lane, at most. *)
Lemma buildAcks_acks k l : (length (mPendingAcks (buildAcks k l)) <= length (mPendingAcks k) + 2)%nat.
Proof.
  unfold buildAcks. pose proof (makeAck_acks l k) as E. destruct (makeAck l k) as [d k'].
  destruct (negb (Z.land (mAckDue k) (bitOf l) =? 0)); cbn zeta; destruct (negb _); cbn in *; rewrite ?length_app; cbn; rewrite ?length_app, ?E; cbn; lia.
Qed.

Definition acksLeft (k : ReliableLink) : nat :=
  (length (mPendingAcks k) + if ((mAckDue k =? 0) && (mPingDue k =? 0))%Z then 0 else 6)%nat.

Lemma nothing_due k : mAckDue k = 0 -> mPingDue k = 0 -> fold_left buildAcks StreamLanes k = k.
Proof.
  intros E1 E2. assert (H : forall l, buildAcks k l = k).
  { intros l. unfold buildAcks. rewrite E1, Z.land_0_l. cbn [negb Z.eqb]. rewrite E2, Z.land_0_l. done. }
  unfold StreamLanes. cbn [fold_left]. by rewrite !H.
Qed.

(** Every turn of the loop of [sendAcks] brings it closer to its end. *)
Lemma peekAck_left d k k' : peekAck k = (Some d, k') -> (acksLeft (commitAck k') < acksLeft k)%nat.
Proof.
  unfold peekAck. destruct (mFailed k); [done|]. case_bool_decide as Ep; cbn zeta.
  - intros E. apply pair_eq in E as [Eh <-]. unfold acksLeft, commitAck. cbn -[fold_left]. rewrite Ep. cbn [length].
    change (list.head (mPendingAcks (fold_left buildAcks StreamLanes k)) = Some d) in Eh. cbn [StreamLanes fold_left] in Eh |- *.
    assert (Hd : (mAckDue k =? 0) && (mPingDue k =? 0) = false).
    { destruct (Z.eqb_spec (mAckDue k) 0), (Z.eqb_spec (mPingDue k) 0); try done.
      change (buildAcks (buildAcks (buildAcks k Control) Reliable) Bulk) with (fold_left buildAcks StreamLanes k) in Eh.
      rewrite nothing_due in Eh by done. by rewrite Ep in Eh. }
    rewrite Hd. pose proof (buildAcks_acks k Control) as H1. pose proof (buildAcks_acks (buildAcks k Control) Reliable) as H2.
    pose proof (buildAcks_acks (buildAcks (buildAcks k Control) Reliable) Bulk) as H3. rewrite Ep in H1. cbn [length] in H1. cbn [negb andb].
    destruct (mPendingAcks (buildAcks (buildAcks (buildAcks k Control) Reliable) Bulk)); [done|]. cbn [length tail] in *. lia.
  - intros [= Eh <-]. unfold acksLeft, commitAck. cbn. destruct (mPendingAcks k); [done|]. cbn. lia.
Qed.
