(* ===== verification/SchedulerRules.v ===== *)
(** * What a run of the scheduler keeps

    A rule for the owner of the callback of [SendScheduler::run]: what holds of the rings
    and of its own state before, and after every call, holds when [run] comes back; and
    [run] does come back if a rate is set. *)
From Stdlib Require Import QArith.
From S2P Require Import Prelude Double PacketFlags SendScheduler.
Import Sched.
#[local] Open Scope Z_scope.

(** Who is in the rings of [s'], when only [gone] left those of [s]. *)
Record ring_change (gone : Lane -> PeerId -> Prop) (s s' : SendScheduler) : Prop := {
  rc_rate : mRate s' = mRate s;
  rc_peers : forall k x, x ∈ peers (mRings s' k) <-> x ∈ peers (mRings s k) /\ ~ gone k x;
}.

Lemma ring_same s s' : mRate s' = mRate s -> (forall k, peers (mRings s' k) = peers (mRings s k)) ->
  ring_change (fun _ _ => False) s s'.
Proof. intros H1 H2. split; [done|]. intros k x. rewrite H2. tauto. Qed.

Lemma spend_rings n s : mRate (spend n s) = mRate s /\ mRings (spend n s) = mRings s.
Proof. unfold spend. by destruct (negb _). Qed.
Lemma refill_rings now s : mRate (refill now s) = mRate s /\ mRings (refill now s) = mRings s.
Proof. unfold refill. destruct (mRefilledAt s) as [t|]; [by destruct (t <? now)|done]. Qed.

Lemma delete_peer (ps : list PeerId) i p x : NoDup ps -> ps !! i = Some p -> x ∈ delete i ps <-> x ∈ ps /\ x <> p.
Proof.
  intros Hn Hi. pose proof (delete_Permutation _ _ _ Hi) as Hp. rewrite Hp in Hn. apply NoDup_cons in Hn as [Hni _].
  split.
  - intros Hx. split; [rewrite Hp; by right|]. by intros ->.
  - intros [Hx Hne]. rewrite Hp in Hx. by apply elem_of_cons in Hx as [|].
Qed.

(** The ring a turn begins with, and the peer whose turn it is. *)
Lemma turn_peer r : ring_ok r -> peers r <> [] ->
  ring_ok (turnRing r) /\ 0 <= cursor (turnRing r) < zlen (peers (turnRing r)) /\
  exists p, zlookup (peers (turnRing r)) (cursor (turnRing r)) = Some p /\
    peers (turnRing r) !! Z.to_nat (cursor (turnRing r)) = Some p /\ p ∈ peers r.
Proof.
  intros Hr Hne. destruct (turnRing_ok r Hr Hne) as (Ep & Hc & Hu). rewrite Ep. split_and!; [|lia..|].
  - split; rewrite ?Ep; [lia|done|apply Hr].
  - destruct (lookup_lt_is_Some_2 (peers r) (Z.to_nat (cursor (turnRing r)))) as [p Hp]; [unfold zlen in Hc; lia|].
    exists p. rewrite zlookup_lookup by lia. split_and!; try done. by eapply list_elem_of_lookup_2.
Qed.

Section Rule.
Context {St : Type} (send : St -> Lane -> PeerId -> Result * St).

(** What a turn does to the rings. *)
Lemma turn_rings l (t : Turn (St := St)) : scheduler_ok (sched t) -> peers (mRings (sched t) l) <> [] ->
  exists p, p ∈ peers (mRings (sched t) l) /\
  let '(res, st) := send (owner t) l p in
  let t' := match turn send l t with inl t' => t' | inr t' => t' end in
  owner t' = st /\ scheduler_ok (sched t') /\
  ring_change (fun k x => res = Empty /\ k = l /\ x = p) (sched t) (sched t').
Proof.
  intros Hs Hne. destruct (turn_peer _ (ok_rings _ Hs l) Hne) as (Hr & Hc & p & Hz & Hl & Hp). exists p. split; [done|].
  unfold turn. cbn zeta. fold (turnRing (mRings (sched t) l)). rewrite Hz. change (default 0 (Some p)) with p.
  set (r := turnRing (mRings (sched t) l)) in *. assert (Er : peers r = peers (mRings (sched t) l)) by apply turnRing_peers.
  destruct (send (owner t) l p) as [res st]. clearbody r.
  assert (Hok : forall r' n, 0 <= n <= 1 -> ring_ok r' -> scheduler_ok (spend n (setRing l r' (sched t)))).
  { intros r' n Hn Hr'. apply spend_ok; [lia|]. by apply setRing_ok. }
  assert (Hsame : forall s' r', res <> Empty -> mRate s' = mRate (sched t) -> mRings s' = mRings (setRing l r' (sched t)) ->
    peers r' = peers r -> ring_change (fun k x => res = Empty /\ k = l /\ x = p) (sched t) s').
  { intros s' r' Hres Hra Hri Ep. split; [done|]. intros k x. rewrite Hri. cbn.
    destruct (decide (k = l)) as [->|]; [rewrite Ep, Er|]; tauto. }
  destruct res; cbn [sched owner].
  - set (r' := if Quantum <=? _ then _ else _). assert (ring_ok r' /\ peers r' = peers r) as [Hr' Ep'].
    { unfold r'. cbn. destruct (Z.leb_spec Quantum (Z.succ (ringUsed r))); (split; [|done]); destruct Hr; split; cbn; lia || done. }
    destruct (spend_rings 1 (setRing l r' (sched t))) as [E1 E2]. split_and!; [done|by apply Hok|]. by apply (Hsame _ r').
  - destruct (spend_rings 1 (setRing l (nextPeer r) (sched t))) as [E1 E2].
    split_and!; [done|apply Hok; [lia|apply nextPeer_ok; [done|lia]]|]. by apply (Hsame _ (nextPeer r)).
  - split_and!; [done|apply setRing_ok; [done|]|split; [done|]].
    + destruct Hr as [Hc0 Hu Hn]. pose proof (delete_Permutation _ _ _ Hl) as Hp'. split; cbn; [|done|].
      * unfold zlen in *. rewrite length_delete by eauto. lia.
      * rewrite Hp' in Hn. by apply NoDup_cons in Hn as [_ ?].
    + intros k x. cbn. destruct (decide (k = l)) as [->|Hk]; cbn.
      * rewrite (delete_peer _ _ p x), Er by (apply Hr || done). intuition congruence.
      * intuition congruence.
  - split_and!; [done|by apply setRing_ok|]. by apply (Hsame _ r).
Qed.

Context (J : SendScheduler -> St -> Prop).
Hypothesis J_rings : forall s s' st, J s st -> scheduler_ok s' -> ring_change (fun _ _ => False) s s' -> J s' st.
Hypothesis J_send : forall s st l p, J s st -> p ∈ peers (mRings s l) ->
  let '(res, st') := send st l p in
  match res with
  | Empty => forall s', scheduler_ok s' -> ring_change (fun k x => k = l /\ x = p) s s' -> J s' st'
  | _ => J s st'
  end.

Definition keeps (t : Turn (St := St)) : Prop := scheduler_ok (sched t) /\ J (sched t) (owner t).

Lemma turn_keeps l t : keeps t -> ready l t = true -> keeps (match turn send l t with inl t' => t' | inr t' => t' end).
Proof.
  intros [Hs HJ] Hr. assert (Hne : peers (mRings (sched t) l) <> []).
  { unfold ready in Hr. apply andb_true_iff in Hr as [[Hr _]%andb_true_iff _]. by apply negb_true_iff, bool_decide_eq_false in Hr. }
  destruct (turn_rings l t Hs Hne) as (p & Hp & H). pose proof (J_send _ _ _ _ HJ Hp) as H1.
  destruct (send (owner t) l p) as [res st]. cbn zeta in H. destruct H as (Eo & Hs' & [Hra Hpe]). split; [done|]. rewrite Eo.
  destruct res.
  1, 2, 4: eapply J_rings; [exact H1|done|]; split; [done|]; intros k x; rewrite Hpe; intuition congruence.
  apply H1; [done|]. split; [done|]. intros k x. rewrite Hpe. intuition congruence.
Qed.

Lemma runLane_keeps l fuel : forall t r, keeps t -> runLane send fuel l t = Some r ->
  keeps (match r with inl t' => t' | inr t' => t' end).
Proof.
  induction fuel as [|fuel IH]; intros t r Hk; cbn [runLane]; destruct (ready l t) eqn:E; try done; try (by intros [= <-]).
  pose proof (turn_keeps l t Hk E) as Ht. destruct (turn send l t) as [t'|t']; [by intros [= <-]|]. by apply IH.
Qed.

Lemma runLanes_keeps fuel ls : forall t t', keeps t -> runLanes send fuel ls t = Some t' -> keeps t'.
Proof.
  induction ls as [|l ls IH]; intros t t' Hk; cbn [runLanes]; [by intros [= <-]|].
  destruct (runLane send fuel l t) as [r|] eqn:E; [|done]. pose proof (runLane_keeps l fuel t r Hk E) as Hr.
  destruct r as [t1|t1]; [by intros [= <-]|]. by apply IH.
Qed.

Lemma run_keeps fuel s st s' st' : scheduler_ok s -> J s st -> run send fuel s st = Some (s', st') -> scheduler_ok s' /\ J s' st'.
Proof.
  intros Hs HJ. unfold run. destruct (runLanes _ _ _ _) as [t|] eqn:E; [|done]. intros [= <- <-].
  eapply (runLanes_keeps fuel Order); [|exact E]. by split.
Qed.
End Rule.

(** ** [run] comes back *)
Section Back.
Context {St : Type} (send : St -> Lane -> PeerId -> Result * St).

Definition forget (t : Turn (St := St * list LogEntry)) : Turn (St := St) := mkTurn (sched t) (allowance t) (owner t).1.

Lemma turn_forget l t : turn send l (forget t) = match turn (logged send) l t with inl t => inl (forget t) | inr t => inr (forget t) end.
Proof. unfold turn, logged, forget. cbn. destruct (send _ _ _) as [[] st]; done. Qed.

Lemma runLane_forget l fuel : forall t, runLane send fuel l (forget t) =
  match runLane (logged send) fuel l t with Some (inl t) => Some (inl (forget t)) | Some (inr t) => Some (inr (forget t)) | None => None end.
Proof.
  induction fuel as [|fuel IH]; intros t; cbn [runLane]; change (ready l (forget t)) with (ready l t); destruct (ready l t); try done.
  rewrite turn_forget. destruct (turn (logged send) l t) as [t'|t']; [done|]. by rewrite IH.
Qed.

Lemma runLanes_forget fuel ls : forall t, runLanes send fuel ls (forget t) = forget <$> runLanes (logged send) fuel ls t.
Proof.
  induction ls as [|l ls IH]; intros t; cbn [runLanes]; [done|]. rewrite runLane_forget.
  destruct (runLane (logged send) fuel l t) as [[t'|t']|]; [done| |done]. by rewrite IH.
Qed.

(** Enough turns: one for every peer of a ring and one for every token. *)
Lemma run_back s st fuel : scheduler_ok s -> mRate s <> 0 ->
  (forall l, zlen (peers (mRings s l)) + burstOf (mRate s) <= Z.of_nat fuel) -> is_Some (run send fuel s st).
Proof.
  intros Hs Hr Hf. destruct (run_log send s st fuel Hs Hr) as (s' & st' & log & E & _).
  { intros l. pose proof (budget_burst s Hs). rewrite (ok_burst s Hs) in *. specialize (Hf l). lia. }
  unfold run in *. change (mkTurn s (mediaAllowance s) st) with (forget (mkTurn s (mediaAllowance s) (st, @nil LogEntry))).
  rewrite runLanes_forget. destruct (runLanes (logged send) _ _ _); [by eexists|done].
Qed.
End Back.
