(* ===== verification/EngineSessions.v ===== *)
(** * The engine: sessions, commands and the adapter

    [Engine/NetworkEngine.cpp]: how a session is asked for, answered, opened and ended, the
    commands of the application, and the sockets. *)
From Stdlib Require Import QArith.
From S2P Require Import Prelude Double Constants IPv4Address Beacon PacketFlags PacketHeader OrderedMap.
From S2P Require Import MessageAssembler MediaAssembler RttEstimator SendScheduler ReliableLink ControlMessage Discovery.
From S2P Require Import Mailbox MailboxRuns Engine.
#[local] Open Scope Z_scope.

Module Sessions.
Import Engine.

(** ** Any thread *)
Definition setAnnouncing (announcing : bool) : Box.Mailbox -> Box.Mailbox :=
  Box.post (if announcing then Box.Announce else Box.StopAnnouncing) 0.
Definition checkInterface : Box.Mailbox -> Box.Mailbox := Box.post Box.CheckInterface 0.

Definition connect (peer : PeerId) (m : Box.Mailbox) : bool * Box.Mailbox :=
  if negb (Box.isRunning m) then (false, m)
  else
    let session := Box.session peer m in
    if negb (bool_decide (session = Box.Requested)) &&
       (negb (bool_decide (session = Box.NoSession)) || negb (Box.isDiscovered peer m))
    then (false, m)
    else (true, Box.post Box.Connect peer m).

Definition accept (peer : PeerId) : Box.Mailbox -> Box.Mailbox := Box.post Box.AcceptPeer peer.
Definition decline (peer : PeerId) : Box.Mailbox -> Box.Mailbox := Box.post Box.DeclinePeer peer.
Definition disconnect (peer : PeerId) (m : Box.Mailbox) : Box.Mailbox := Box.post Box.Disconnect peer (Box.seal peer m).

(** What [send] returns, once [push] does. *)
Definition sendResult (r : Box.Push) : SendResult :=
  match r with
  | Box.Queued => SentQueued
  | Box.Full => QueueFull
  | Box.TooLarge => SentTooLarge
  | Box.Closed => NotConnected
  | Box.Stopped => NotRunning
  end.
Definition send (peer : PeerId) (type : Z) (data : bytes) (lane : PublicLane) (timeout : Z) (m : Box.Mailbox) :
    (SendResult + Box.PushWait) * Box.Mailbox :=
  let '(r, m) := Box.push peer (wireLane lane) (Box.mkMail type data) timeout m in
  (match r with Box.PushReturns r => inl (sendResult r) | Box.PushWaits w => inr w end, m).
Definition broadcast (type : Z) (data : bytes) (lane : PublicLane) : Box.Mailbox -> Z * Box.Mailbox :=
  Box.pushToAll (wireLane lane) (Box.mkMail type data).
Definition flush (peer : PeerId) : Box.Mailbox -> Box.FlushState := Box.flush peer.
Definition shutdown : Box.Mailbox -> Box.Mailbox := Box.post Box.Shutdown 0.

Section Sessions.
Context {W : Type} `{!World W} (fuel : nat).
Abbreviation M := (M W).

(** ** The steps of a session *)
Definition report (id : PeerId) (reason : DisconnectReason) : M () :=
  p ← deref id;
  if negb (announced p) then mret ()
  else
    setPeer id (fun p => p <| reported := true |>);;
    when (negb (reported p)) (emit (Disconnected id reason)).

Definition end_ (id : PeerId) : M () :=
  p ← deref id;
  setPeer id (fun p => p <| ended := true |>);;
  when (negb (ended p)) (
    mailbox_ (Box.close id);;
    modify (fun e => e <| mEnded ::= fun l => l ++ [id] |>)).

Definition queueControl (id : PeerId) (t : ControlType) (body : bytes) : M () :=
  setPeer id (fun p => p <| control ::= fun q => q ++ [Link.mkOutbound (control_to_Z t) body] |>).

Definition setConnected (id : PeerId) : M () :=
  setPeer id (fun p => p <| state := InSession |> <| announced := true |> <| stateDeadline := None |>);;
  mailbox_ (Box.open id);;
  p ← deref id;
  emit (Connected id (peerInfo p)).

Definition sendAccept (id : PeerId) : M () :=
  name ← gets (fun e => localName (mIdentity (mDiscovery e)));
  queueControl id CAccept (encodeAccept (mkAccept name));;
  setPeer id (fun p => p <| state := Connecting |> <| acceptSent := true |> <| stateDeadline := None |>);;
  mailbox_ (Box.publishSession id Box.Pending);;
  touch id.

Definition sendDecline (id : PeerId) (now : TimePoint) : M () :=
  queueControl id CDecline (encodeDecline (mkDecline Declined []));;
  report id ByLocal;;
  setPeer id (fun p => p <| state := Closing |> <| closeSent := true |> <| stateDeadline := Some (now + CloseLinger) |>);;
  mailbox_ (Box.close id);;
  touch id.

Definition sendClose (id : PeerId) (now : TimePoint) : M () :=
  mailbox_ (Box.close id);;
  p ← deref id;
  if bool_decide (Link.mRemoteStreamID (link p) = None) then end_ id
  else
    queueControl id CClose (encodeClose 0);;
    setPeer id (fun p => p <| state := Closing |> <| closeSent := true |> <| stateDeadline := Some (now + CloseLinger) |>);;
    touch id.

(** The destructor of a link gives back what its streams hold of the budget. *)
Definition destroyLink (id : PeerId) : M () := onLink_ id (fold_left Link.dropStream Link.StreamLanes).

Definition erase (id : PeerId) : M () :=
  it ← find id;
  match it with
  | None => mret ()
  | Some p =>
    modify (fun e => e <| mByStream ::= delete (Link.mLocalStreamID (link p)) |> <| mScheduler ::= Sched.remove id |>);;
    mailbox_ (Box.close id);;
    destroyLink id;;
    modify (fun e => e <| mPeers ::= delete id |>)
  end.

(** [try_emplace] changes nothing where there is a peer. *)
Definition addPeer (info : PeerInfo) (address : SocketAddress) (now : TimePoint) : M PeerId :=
  byStream ← gets mByStream;
  drawn ← ask (fun w => match draw fuel (fun s => bool_decide (is_Some (byStream !! s))) w with
                        | Some (s, w) => (Some s, w)
                        | None => (None, w)
                        end);
  streamID ← must drawn;
  let id := infoId info in
  modify (fun e => match mPeers e !! id with
    | None => e <| mPeers ::= <[id := newPeer info address (cfgTimings (mConfig e)) streamID (mAssemblyBudget e)]> |>
    | Some _ => e
    end);;
  paused ← gets mPaused;
  onLink_ id (Link.supervise now);;
  onLink_ id (Link.setPaused paused);;
  modify (fun e => e <| mByStream ::= <[streamID := id]> |>);;
  touch id;;
  mret id.

(** ** Commands *)
Definition startSession (id : PeerId) (now : TimePoint) : M () :=
  stopping ← gets mShutdown;
  if (stopping : bool) then mret ()
  else
    existing ← find id;
    let fresh : M () :=
      known ← gets (fun e => Discovery.find id (mDiscovery e));
      socket ← gets mIoSocket;
      count ← gets (fun e => Z.of_nat (size (mPeers e)));
      match known with
      | Some k =>
        if bool_decide (socket = None) || (MaxPeers <=? count) then emit (Disconnected id ByLocal)
        else
          peer ← addPeer (info k) (endpoint k) now;
          setPeer peer (fun p => p <| initiator := true |> <| announced := true |>);;
          identity ← gets (fun e => mIdentity (mDiscovery e));
          self ← gets mId;
          queueControl peer CHello (encodeHello
            {| fromInstance := self; toInstance := id; helloAppIdHash := localAppIdHash identity;
               helloMajor := verMajor (localVersion identity); helloMinor := verMinor (localVersion identity);
               helloName := localName identity |});;
          mailbox_ (Box.publishSession id Box.Pending)
      | None => emit (Disconnected id ByLost)
      end in
    match existing with
    | None => fresh
    | Some p =>
      if bool_decide (state p = AwaitingDecision) then sendAccept id
      else if negb (bool_decide (state p = Closing)) || negb (closeSent p) then mret ()
      else erase id;; fresh
    end.

Definition endSession (id : PeerId) (now : TimePoint) : M () :=
  p ← deref id;
  match state p with
  | InSession =>
    setPeer id (fun p => p <| state := Closing |> <| stateDeadline := Some (now + DrainTimeout) |>);;
    touch id
  | AwaitingDecision => sendDecline id now
  | Connecting => report id ByLocal;; sendClose id now
  | Closing => mret ()
  end.

Definition shutdownPeer (now : TimePoint) (id : PeerId) : M () :=
  report id ByShutdown;;
  p ← deref id;
  if bool_decide (state p = AwaitingDecision) then sendDecline id now
  else when (negb (closeSent p)) (sendClose id now).

Definition beginShutdown (now : TimePoint) : M () :=
  stopping ← gets mShutdown;
  modify (fun e => e <| mShutdown := true |>);;
  if (stopping : bool) then mret ()
  else
    modify (fun e => e <| mDiscovery ::= Discovery.setAnnouncing false |>);;
    ids ← gets (fun e => keysOf (mPeers e));
    forEach (shutdownPeer now) ids;;
    mailbox_ (Box.setRunning false).

Definition apply (now : TimePoint) (c : Box.PostedCommand) : M () :=
  let id := Box.commandPeer c in
  peer ← find id;
  let awaiting := match peer with Some p => bool_decide (state p = AwaitingDecision) | None => false end in
  match Box.command c with
  | Box.Connect => startSession id now
  | Box.AcceptPeer => when awaiting (sendAccept id)
  | Box.DeclinePeer => when awaiting (sendDecline id now)
  | Box.Disconnect => when (bool_decide (is_Some peer)) (endSession id now)
  | Box.Announce => modify (fun e => e <| mDiscovery ::= Discovery.setAnnouncing true |> <| mBeaconDue := true |>)
  | Box.StopAnnouncing => modify (fun e => e <| mDiscovery ::= Discovery.setAnnouncing false |>)
  | Box.CheckInterface => modify (fun e => e <| mCheckInterface := true |>)
  | Box.ResumeReceiving => mret ()
  | Box.Shutdown => beginShutdown now
  end.

(** ** The adapter and its sockets *)
Definition endAllSessions (reason : DisconnectReason) : M () :=
  ids ← gets (fun e => keysOf (mPeers e));
  forEach (fun id => report id reason;; mailbox_ (Box.close id)) ids;;
  forEach destroyLink ids;;
  modify (fun e => e <| mPeers := ∅ |> <| mByStream := ∅ |> <| mScheduler ::= Sched.clear |>
                     <| mAcksHeldBack := [] |> <| mEnded := [] |>).

Definition closeSockets : M () := modify (fun e => e <| mIoSocket := None |> <| mBeaconSocket := None |>).

(** [burst] is an [int], and so is the product: for a rate of more than 466 million datagrams a
    second it overflows. *)
Definition bind (iface : LocalInterface) : M () :=
  rate ← gets (fun e => cfgMaxSendRate (mConfig e));
  discoveryPort ← gets (fun e => cfgDiscoveryPort (mConfig e));
  let burst := sint32 (Sched.burstOf (if 0 <? rate then rate else DefaultMaxSendRate)) in
  socket ← ask (makeSocket (mkSocketAddress (ifaceIp iface) 0)
    (mkBind true false ChannelReceiveBufferSize (sint32 (burst * ChannelSendBufferPerDatagram))));
  match socket with
  | inl _ => mret ()
  | inr socket =>
    beacons ← ask (makeSocket (anyAddress discoveryPort) (mkBind false true 0 0));
    match beacons with
    | inr beacons => modify (fun e => e <| mBeaconSocket := Some beacons |>)
    | inl _ => mret ()
    end;;
    modify (fun e => e <| mIoSocket := Some socket |>
                       <| mDiscovery ::= setInterface (ifaceIp iface) (ifaceMask iface) |> <| mBeaconDue := true |>);;
    emit (AdapterChanged (mkPeerInfo 0 [] (ipToString (ifaceIp iface)) (port socket) []))
  end.

Definition updateInterface (socketFailed : bool) : M () :=
  modify (fun e => e <| mCheckInterface := false |>);;
  current ← ask queryInterface;
  previous ← gets mInterface;
  let changed := negb (bool_decide (current = previous)) in
  socket ← gets mIoSocket;
  if negb changed && negb socketFailed then
    match current, socket with
    | Some iface, None => bind iface
    | _, _ => mret ()
    end
  else
    when (bool_decide (is_Some socket)) (endAllSessions (if changed then ByLocal else ByNetworkError));;
    lost ← gets (fun e => (Discovery.clear (mDiscovery e)).1);
    modify (fun e => e <| mDiscovery ::= fun d => (Discovery.clear d).2 |>);;
    forEach (fun id => emit (PeerLost id)) lost;;
    modify (fun e => e <| mPeersChanged := true |> <| mInterface := current |>);;
    closeSockets;;
    match current with
    | Some iface => when changed (bind iface)
    | None => mret ()
    end.

(** ** What the link of a peer received *)
Definition onControl (id : PeerId) (message : Link.DeliveredMessage) : M () :=
  p ← deref id;
  if ended p then mret ()
  else
    let asked := bool_decide (state p = Connecting) && initiator p in
    match controlType (Link.dmTag message) with
    | Some CHello => mret ()
    | Some CAccept =>
      if asked then
        answer ← must (decodeAccept (Link.dmBody message));
        match answer with
        | Some a =>
          when (negb (bool_decide (acceptName a = [])) && (zlen (acceptName a) <=? MaxDisplayName))
            (setPeer id (fun p => p <| peerInfo ::= fun i => i <| displayName := acceptName a |> |>))
        | None => mret ()
        end;;
        setConnected id
      else mret ()
    | Some CDecline =>
      if asked then
        answer ← must (decodeDecline (Link.dmBody message));
        report id (match answer with
                   | Some d => if bool_decide (declineReason d = Incompatible) then ByIncompatible else ByDeclined
                   | None => ByDeclined
                   end);;
        end_ id
      else mret ()
    | Some CClose => report id ByRemote;; end_ id
    | None => mret ()
    end.

(** The inbox of the peer, made with the first media message. *)
Definition mediaInbox (id : PeerId) : M InboxRef :=
  p ← deref id;
  match media p with
  | Some inbox => mret inbox
  | None =>
    inbox ← gets (fun e => fresh (dom (mInboxes e)));
    modify (fun e => e <| mInboxes ::= <[inbox := []]> |>);;
    setPeer id (fun p => p <| media := Some inbox |>);;
    mret inbox
  end.

(** The oldest message makes room for one too many. *)
Definition keepNewest (m : Message) (waiting : list Message) : list Message :=
  (if MediaQueueMessages <=? zlen waiting then tail waiting else waiting) ++ [m].

Definition onMessage (id : PeerId) (message : Link.DeliveredMessage) : M () :=
  let content := mkMessage (Link.dmTag message) (Link.dmBody message) in
  let lane := publicLane (Link.dmLane message) in
  if bool_decide (Link.dmLane message = Control) then onControl id message
  else
    p ← deref id;
    if ended p || reported p || negb (transfersData p) then mret ()
    else if bool_decide (Link.dmLane message = Media) then
      inbox ← mediaInbox id;
      interfere;;
      modify (fun e => e <| mInboxes ::= alter (keepNewest content) inbox |>);;
      emit (MessageEvent id lane (mkMessage 0 []) (Some inbox))
    else emit (MessageEvent id lane content None).

Definition expired (p : Peer) (now : TimePoint) : bool :=
  match stateDeadline p with Some t => t <=? now | None => false end.

(** What follows for the state of the session. *)
Definition advanceState (id : PeerId) (now : TimePoint) : M () :=
  p ← deref id;
  let controlSettled := bool_decide (control p = []) && negb (Link.hasPending (link p) Control) in
  match state p with
  | Connecting => when (negb (initiator p) && acceptSent p && controlSettled) (setConnected id)
  | AwaitingDecision => when (expired p now) (sendDecline id now)
  | InSession => mret ()
  | Closing =>
    if closeSent p then when (controlSettled || expired p now) (end_ id)
    else
      over ←
        (if expired p now then mret true
         else if negb (Link.hasPending (link p) Reliable) && negb (Link.hasPending (link p) Bulk)
         then mailbox (Box.settle id) else mret false);
      when over (report id ByLocal;; sendClose id now)
  end.

Definition advance (id : PeerId) (now : TimePoint) : M () :=
  p ← deref id;
  if ended p then mret ()
  else if Link.mFailed (link p) then report id ByLost;; end_ id
  else
    messages ← onLink id Link.takeDelivered;
    forEach (onMessage id) messages;;
    p ← deref id;
    if ended p then mret () else advanceState id now.
End Sessions.
End Sessions.
