(* ===== verification/EngineStep.v ===== *)
(** * The engine: receiving, timers, sending, and the loop

    [Engine/NetworkEngine.cpp]: one round of the I/O loop, from the commands of the
    application to the batch of events it is handed. *)
From Stdlib Require Import QArith.
From S2P Require Import Prelude Double Constants IPv4Address Beacon PacketFlags PacketHeader OrderedMap.
From S2P Require Import MessageAssembler MediaAssembler RttEstimator SendScheduler ReliableLink ControlMessage Discovery.
From S2P Require Import Mailbox MailboxRuns Engine EngineSessions.
From stdpp Require Import sorting.
#[local] Open Scope Z_scope.

Module Loop.
Import Engine Sessions.

(** [static_cast<float>] of a double between 0 and 1: a 24-bit significand. *)
Definition toFloat (q : Q) : Q :=
  Qred (if Qnum q =? 0 then 0%Q else round_to (exponent q - 23) q).

(** A message source is a peer of the engine: what of the peer [next] uses, and the rest of
    the engine. *)
Record PeerSource (W : Type) := mkSource {
  srcPeer : PeerId;
  srcControl : list Link.OutboundMessage;
  srcTransfers : bool;
  srcEngine : NetworkEngine;
  srcWorld : W;
}.
Arguments mkSource {W}.
Arguments srcPeer {W}.
Arguments srcControl {W}.
Arguments srcTransfers {W}.
Arguments srcEngine {W}.
Arguments srcWorld {W}.

#[global] Instance peerSource_next {W} `{!World W} : Link.MessageSource (PeerSource W) := fun s l =>
  if bool_decide (l = Control) then
    match srcControl s with
    | [] => (None, s)
    | m :: rest => (Some m, mkSource (srcPeer s) rest (srcTransfers s) (srcEngine s) (srcWorld s))
    end
  else if negb (srcTransfers s) then (None, s)
  else
    match mailbox (Box.take (srcPeer s) l) (srcEngine s) (srcWorld s) with
    | Some (mail, e, w) =>
      ((fun m => Link.mkOutbound (Box.mailTag m) (Box.mailBody m)) <$> mail,
       mkSource (srcPeer s) (srcControl s) (srcTransfers s) e w)
    | None => (None, s)
    end.

Section Loop.
Context {W : Type} `{!World W} (fuel : nat).
Abbreviation M := (M W).

(** ** Sending *)
Definition countSent : M () :=
  modify (fun e => e <| mLoopStats ::= fun s => s <| datagramsSent ::= fun n => u64 (n + 1) |> |>).

Definition sendBeacon (to_ : SocketAddress) (reply_ : bool) : M () :=
  socket ← gets mIoSocket;
  if bool_decide (socket = None) then mret ()
  else
    datagram ← gets (fun e => beacon reply_ (mDiscovery e));
    error ← ask (sendDatagram to_ datagram);
    match error with
    | None => countSent;; modify (fun e => e <| mScheduler ::= Sched.spend 1 |>)
    | Some _ => mret ()
    end.

Definition transmit (to_ : SocketAddress) (d : Link.OutgoingDatagram) : M Transmit :=
  socket ← gets mIoSocket;
  if bool_decide (socket = None) then mret Lost
  else
    error ← ask (sendDatagram to_ (Link.datagramHeader d ++ Link.datagramBody d));
    match error with
    | None => countSent;; mret Sent
    | Some WouldBlock => modify (fun e => e <| mSocketBlocked := true |>);; mret Refused
    | Some NetworkDown | Some AddressNotAvailable | Some SocketClosed | Some NotInitialized =>
      modify (fun e => e <| mSocketBlocked := true |> <| mSocketFailed := true |>);; mret Refused
    | Some _ => mret Lost
    end.

(** [acks] bounds the turns of the loop. *)
Fixpoint ackLoop (acks : nat) (id : PeerId) : M () :=
  ack ← onLink id Link.peekAck;
  match ack with
  | None => mret ()
  | Some d =>
    match acks with
    | O => must None
    | S acks =>
      p ← deref id;
      blocked ← gets mSocketBlocked;
      outcome ← (if (blocked : bool) then mret Refused else transmit (address p) d);
      if bool_decide (outcome = Refused)
      then modify (fun e => e <| mAcksHeldBack ::= fun l => l ++ [id] |>)
      else
        onLink_ id Link.commitAck;;
        modify (fun e => e <| mScheduler ::= Sched.spend 1 |>);;
        ackLoop acks id
    end
  end.
(** There are those that are pending, and then an Ack and a Ping for each of the three
    lanes at most. *)
Definition sendAcks (id : PeerId) : M () :=
  p ← deref id; ackLoop (length (Link.mPendingAcks (link p)) + 6) id.

(** [peer.link.peek(lane, now, source)] *)
Definition peekLink (id : PeerId) (l : Lane) : M (option Link.OutgoingDatagram) := fun e w =>
  match mPeers e !! id with
  | None => None
  | Some p =>
    let '(d, k, s) := Link.peek l (link p) (mkSource id (control p) (transfersData p) e w) in
    Some (d, (srcEngine s) <| mPeers ::= <[id := p <| link := k |> <| control := srcControl s |>]> |>, srcWorld s)
  end.

Definition scheduleLane (id : PeerId) (l : Lane) : M () :=
  p ← deref id;
  if Z.land (scheduled p) (Link.bitOf l) =? 0 then
    datagram ← peekLink id l;
    when (bool_decide (is_Some datagram)) (
      modify (fun e => e <| mScheduler ::= Sched.add l id |>);;
      setPeer id (fun p => p <| scheduled ::= fun b => Z.lor b (Link.bitOf l) |>))
  else mret ().
Definition schedule (id : PeerId) : M () := forEach (scheduleLane id) Sched.Order.

(** The callback of [SendScheduler::run]. *)
Definition sendNext (now : TimePoint) (l : Lane) (id : PeerId) : M Sched.Result :=
  peer ← find id;
  match peer with
  | None => mret Sched.Empty
  | Some _ =>
    datagram ← peekLink id l;
    match datagram with
    | None =>
      setPeer id (fun p => p <| scheduled ::= fun b => Z.land b (255 - Link.bitOf l) |>);;
      mret Sched.Empty
    | Some d =>
      p ← deref id;
      outcome ← transmit (address p) d;
      if bool_decide (outcome = Refused) then mret Sched.Blocked
      else
        onLink_ id (Link.commit l now);;
        setPeer id (fun p => p <| deadline := Link.nextDeadline (link p) |>);;
        mret (if bool_decide (outcome = Sent) then Sched.Sent else Sched.Lost)
    end
  end.

(** The scheduler runs on its own copy of its state: the callback does not use it. *)
Definition sendData (now : TimePoint) : M () := fun e w =>
  let callback st l id :=
    match st with
    | Some (e, w) =>
      match sendNext now l id e w with
      | Some (r, e, w) => (r, Some (e, w))
      | None => (Sched.Blocked, None)
      end
    | None => (Sched.Blocked, None)
    end in
  match Sched.run callback fuel (mScheduler e) (Some (e, w)) with
  | Some (s, Some (e, w)) => Some ((), e <| mScheduler := s |>, w)
  | _ => None
  end.

(** ** Receiving *)
Definition onBeacon (from : SocketAddress) (datagram : bytes) (now : TimePoint) : M () :=
  stopping ← gets mShutdown;
  if (stopping : bool) then mret ()
  else
    r ← gets (fun e => Discovery.onBeacon from datagram now (mDiscovery e));
    r ← must r;
    let '(seen, d) := r in
    modify (fun e => e <| mDiscovery := d |>);;
    match seenPeer seen with
    | Some k =>
      when (bool_decide (sighting seen = New)) (
        emit (PeerDiscovered (infoId (info k)) (info k));;
        modify (fun e => e <| mPeersChanged := true |>));;
      when (seenReply seen) (sendBeacon (endpoint k) true)
    | None => mret ()
    end.

(** The peer whose link a Hello that comes again belongs to. *)
Definition knownLink (from : SocketAddress) (streamID : Z) (e : NetworkEngine) : option PeerId :=
  List.find (fun id => match mPeers e !! id with
    | Some p => bool_decide (address p = from) && bool_decide (Link.mRemoteStreamID (link p) = Some streamID)
    | None => false
    end) (keysOf (mPeers e)).

Definition helloOk (h : Hello) (from : SocketAddress) (e : NetworkEngine) : bool :=
  let identity := mIdentity (mDiscovery e) in
  negb (mShutdown e) && (toInstance h =? mId e) && negb (fromInstance h =? mId e) &&
  (helloAppIdHash h =? localAppIdHash identity) &&
  bool_decide (mkVersion (helloMajor h) (helloMinor h) = localVersion identity) &&
  (zlen (helloName h) <=? MaxDisplayName) && isInSubnet (mDiscovery e) (ip from).

Definition pendingCount (e : NetworkEngine) : Z :=
  zlen (filter (fun p => state p <> InSession) (valuesOf (mPeers e))).

(** What happens to a session that exists already: [None] if the Hello is ignored, else
    whether the two asked at once. *)
Definition replaceSession (id : PeerId) : M (option bool) :=
  existing ← find id;
  match existing with
  | None => mret (Some false)
  | Some p =>
    self ← gets mId;
    if bool_decide (state p = Connecting) && initiator p then
      if id <? self then mret None else erase id;; mret (Some true)
    else report id ByLost;; erase id;; mret (Some false)
  end.

Definition onHello (from : SocketAddress) (packet : DecodedPacket) (now : TimePoint) : M (option PeerId) :=
  again ← gets (knownLink from (srcStreamID (header packet)));
  match again with
  | Some id => mret (Some id)
  | None =>
    hello ← must (decodeHello (body packet));
    match hello with
    | None => mret None
    | Some h =>
      welcome ← gets (helloOk h from);
      if negb welcome then mret None
      else
        let id := fromInstance h in
        replaced ← replaceSession id;
        match replaced with
        | None => mret None
        | Some crossing =>
          count ← gets (fun e => Z.of_nat (size (mPeers e)));
          pending ← gets pendingCount;
          if (MaxPeers <=? count) || (MaxPendingSessions <=? pending) then mret None
          else
            peer ← addPeer fuel {| infoId := id; displayName := helloName h; infoAddress := ipToString (ip from);
                              infoPort := port from;
                              infoVersion := versionToString (mkVersion (helloMajor h) (helloMinor h)) |} from now;
            autoAccept ← gets (fun e => cfgAutoAccept (mConfig e));
            (if crossing || autoAccept then
               setPeer peer (fun p => p <| announced := crossing |>);;
               mailbox_ (Box.publishSession id Box.Pending);;
               sendAccept peer
             else
               setPeer peer (fun p => p <| state := AwaitingDecision |>
                 <| stateDeadline := Some (now + DecisionTimeout) |> <| announced := true |>);;
               mailbox_ (Box.publishSession id Box.Requested);;
               p ← deref peer;
               emit (ConnectionRequest id (peerInfo p)));;
            mret (Some peer)
        end
    end
  end.

(** Only the first packet of a link may not know whom it talks to. *)
Definition isFirstPacket (h : PacketHeader) : bool :=
  bool_decide (kind (flags h) = Data) && bool_decide (lane (flags h) = Control) && (PacketHeader.seq h =? 1) &&
  negb (isFragmented (flags h)) && (tag h =? control_to_Z CHello).

Definition receiver (from : SocketAddress) (packet : DecodedPacket) (now : TimePoint) : M (option PeerId) :=
  let h := header packet in
  if dstStreamID h =? 0 then
    if negb (isFirstPacket h) then mret None else onHello from packet now
  else
    id ← gets (fun e => mByStream e !! dstStreamID h);
    match id with
    | None => mret None
    | Some id => p ← find id; mret (match p with Some _ => Some id | None => None end)
    end.

Definition handleDatagram (now : TimePoint) (from : SocketAddress) (datagram : bytes) : M () :=
  announcement ← must (isBeacon datagram);
  if (announcement : bool) then onBeacon from datagram now
  else
    packet ← must (decodePacket datagram);
    match packet with
    | None => mret ()
    | Some packet =>
      peer ← receiver from packet now;
      match peer with
      | None => mret ()
      | Some id =>
        p ← deref id;
        if ended p || negb (bool_decide (address p = from)) then mret ()
        else
          let take : M () := onLink_ id (Link.onPacket packet now);; touch id in
          if negb (bool_decide (lane (flags (header packet)) = Control)) && negb (transfersData p) then
            if negb (bool_decide (state p = Connecting)) || initiator p || negb (acceptSent p) then mret ()
            else setConnected id;; take
          else take
      end
    end.

(** [continue], [break], or the body. *)
Fixpoint receiveLoop (port : Port) (handle : SocketAddress -> bytes -> M ()) (n : nat) : M () :=
  match n with
  | O => mret ()
  | S n =>
    datagram ← ask (receiveDatagram port);
    match datagram with
    | inl MessageTooLarge => receiveLoop port handle n
    | inl _ => mret ()
    | inr (from, d) => handle from d;; receiveLoop port handle n
    end
  end.

Definition receivePending (now : TimePoint) : M () :=
  socket ← gets mIoSocket;
  if bool_decide (socket = None) then mret ()
  else
    receiveLoop IoPort (handleDatagram now) MaxDatagramsPerPass;;
    beacons ← gets mBeaconSocket;
    when (bool_decide (is_Some beacons))
      (receiveLoop BeaconPort (fun from d => onBeacon from d now) MaxDatagramsPerPass).

(** ** Timers *)
Definition due (t : option TimePoint) (now : TimePoint) : bool :=
  match t with Some t => t <=? now | None => false end.

Definition serviceTimer (now : TimePoint) (id : PeerId) : M () :=
  p ← deref id;
  when (due (deadline p) now) (onLink_ id (Link.onTimer now);; touch id);;
  when (due (stateDeadline p) now) (touch id).
Definition serviceTimers (now : TimePoint) : M () :=
  ids ← gets (fun e => keysOf (mPeers e));
  forEach (serviceTimer now) ids.

Definition tick (now : TimePoint) : M () :=
  modify (fun e => e <| mNextTick := Some (now + BeaconInterval) |> <| mBeaconDue := true |>);;
  lost ← gets (fun e => expire now (fun id => bool_decide (is_Some (mPeers e !! id))) (mDiscovery e));
  modify (fun e => e <| mDiscovery := lost.2 |>);;
  forEach (fun id => emit (PeerLost id);; modify (fun e => e <| mPeersChanged := true |>)) lost.1.

Definition updatePause : M () :=
  interfere;;
  waiting ← gets mBacklogBytes;
  paused ← gets mPaused;
  if (if (paused : bool) then BacklogResumeBytes <=? waiting else waiting <=? BacklogPauseBytes) then mret ()
  else
    modify (fun e => e <| mPaused := negb paused |>);;
    interfere;;
    modify (fun e => e <| mBacklogPaused := negb paused |>);;
    ids ← gets (fun e => keysOf (mPeers e));
    forEach (fun id => onLink_ id (Link.setPaused (negb paused));; touch id) ids.

(** ** The statistics of a session *)
Definition noteLoss (p : Peer) : Peer :=
  let s := Link.mStats (link p) in
  if Link.mediaReceivedByPeer s =? mediaReceivedAtReport p then p
  else
    let sent := dofZ (u64 (Link.mediaSent s - mediaSentAtReport p)) in
    let received := dofZ (u64 (Link.mediaReceivedByPeer s - mediaReceivedAtReport p)) in
    let p := if dltb 0 sent
             then p <| mediaLoss := toFloat (dmin 1 (dmax 0 (dsub 1 (ddiv received sent)))) |> else p in
    p <| mediaSentAtReport := Link.mediaSent s |> <| mediaReceivedAtReport := Link.mediaReceivedByPeer s |>.

Definition statsFrom (p : Peer) : PeerStats :=
  let s := Link.mStats (link p) in
  {| rtt := Rtt.mSrtt (Link.mRtt (link p)); bytesQueued := 0; statBytesSent := Link.bytesSent s;
     statBytesReceived := Link.bytesReceived s; statRetransmissions := Link.retransmissions s;
     statMediaSent := Link.mediaSent s; statMediaDropped := 0;
     statMediaIncomplete := match Link.mMediaAssembler (link p) with Some a => MediaAsm.mAbandoned a | None => 0 end;
     statMediaLoss := mediaLoss p |}.
Definition statsOf (id : PeerId) : M PeerStats := setPeer id noteLoss;; p ← deref id; mret (statsFrom p).

(** ** The step *)
Definition batchBytes (evs : list EngineEvent) : Z :=
  fold_left (fun n ev => match ev with MessageEvent _ _ m _ => u64 (n + zlen (msgData m)) | _ => n end) evs 0.

Definition takeBatch : M EventBatch :=
  evs ← gets mEvents;
  modify (fun e => e <| mEvents := [] |>);;
  let bytes := batchBytes evs in
  when (0 <? bytes) (interfere;; modify (fun e => e <| mBacklogBytes ::= fun n => u64 (n + bytes) |>));;
  mret (mkBatch evs bytes).

Definition readyPeer (id : PeerId) : M () :=
  peer ← find id;
  match peer with
  | Some _ => setPeer id (fun p => p <| unsettled := true |>);; touch id
  | None => mret ()
  end.

(** What the loop of the step does with a touched peer, before and after sending. *)
Definition servePeer (now : TimePoint) (id : PeerId) : M () :=
  peer ← find id;
  match peer with
  | None => mret ()
  | Some _ =>
    advance id now;;
    sendAcks id;;
    p ← deref id;
    when (negb (ended p)) (schedule id)
  end.

Definition settlePeer (id : PeerId) : M () :=
  peer ← find id;
  match peer with
  | None => mret ()
  | Some p =>
    if ended p then mret ()
    else
      setPeer id (fun p => p <| deadline := Link.nextDeadline (link p) |>);;
      when (unsettled p && negb (Link.hasPendingReliable (link p))) (
        settled ← mailbox (Box.settle id);
        setPeer id (fun p => p <| unsettled := negb settled |>));;
      when (bool_decide (state p = InSession)) (
        s ← statsOf id;
        mailbox_ (Box.publishStats id s))
  end.

Definition eraseEnded (id : PeerId) : M () :=
  peer ← find id;
  match peer with
  | Some p => when (ended p) (erase id)
  | None => mret ()
  end.

Definition wakeFor (e : NetworkEngine) : option TimePoint :=
  fold_left (fun t p => earlier (earlier t (deadline p)) (stateDeadline p)) (valuesOf (mPeers e))
    (if mShutdown e then None else mNextTick e).

(** The commands, the adapter, and what arrived. *)
Definition takeIn (now : TimePoint) : M () :=
  modify (fun e => e <| mLoopStats ::= fun s => s <| steps ::= fun n => u64 (n + 1) |> |> <| mWoken := false |>
                     <| mTouched := mAcksHeldBack e |> <| mAcksHeldBack := [] |>);;
  work ← mailbox Box.drain;
  forEach (apply fuel now) (Box.commands work);;
  forEach readyPeer (Box.ready work);;
  tickDue ← gets (fun e => negb (mShutdown e) && match mNextTick e with Some t => t <=? now | None => true end);
  look ← gets (fun e => negb (mShutdown e) && (tickDue || mCheckInterface e || mSocketFailed e));
  when look (
    socketFailed ← gets mSocketFailed;
    modify (fun e => e <| mSocketFailed := false |>);;
    updateInterface socketFailed);;
  updatePause;;
  receivePending now;;
  serviceTimers now;;
  when tickDue (tick now);;
  announce ← gets (fun e => mBeaconDue e && mAnnouncing (mDiscovery e) && negb (mShutdown e));
  modify (fun e => e <| mBeaconDue := false |>);;
  when announce (
    to_ ← gets (fun e => mkSocketAddress (broadcastAddress (mDiscovery e)) (cfgDiscoveryPort (mConfig e)));
    sendBeacon to_ false).

(** The range-for over [mTouched] keeps iterators into the vector, up to the end it had when
    the loop began.  A [touch] within the loop appends to the vector: beyond its capacity it
    leaves them dangling. *)
Definition iteratorsValid (size capacity : Z) (vector : list PeerId) : option () :=
  if zlen vector <=? Z.max size capacity then Some () else None.

(** The touched peers, and what is sent to them. *)
Definition sendOut (now : TimePoint) : M () :=
  modify (fun e => e <| mTouched ::= fun l => unique (merge_sort Z.le l) |>
                     <| mScheduler ::= Sched.refill now |> <| mSocketBlocked := false |>);;
  ids ← gets mTouched;
  capacity ← ask (capacityOf (zlen ids));
  forEach (servePeer now) ids;;
  vector ← gets mTouched;
  must (iteratorsValid (zlen ids) capacity vector);;
  blocked ← gets mSocketBlocked;
  when (negb blocked) (sendData now);;
  ids ← gets mTouched;
  forEach settlePeer ids;;
  gone ← gets mEnded;
  modify (fun e => e <| mEnded := [] |>);;
  forEach eraseEnded gone.

Definition finish (now : TimePoint) : M () :=
  changed ← gets mPeersChanged;
  modify (fun e => e <| mPeersChanged := false |>);;
  when changed (
    peers ← gets (fun e => discoveredPeers (mDiscovery e));
    mailbox_ (Box.publishDiscovered peers));;
  modify (fun e => e <| mNextWake := wakeFor e |>
    <| mWaitingForTick := mSocketBlocked e || Sched.hasBacklog (mScheduler e) || negb (bool_decide (mAcksHeldBack e = [])) |>);;
  modify (fun e => if mWaitingForTick e || mSocketFailed e
                   then e <| mNextWake := earlier (mNextWake e) (Some (now + Sched.Tick)) |> else e).

Definition step (now : TimePoint) : M EventBatch := takeIn now;; sendOut now;; finish now;; takeBatch.

(** ** The loop *)

(** What [waitForWork] waits for: nothing, the condition variable, or the socket. *)
Inductive Wait := NoWait | AwaitWork (timeout : Duration) | AwaitSocket (timeout : Duration).

(** [std::chrono::ceil<microseconds>], in nanoseconds. *)
Definition ceilMicroseconds (d : Duration) : Duration := us (- ((- d) / 1000)).

Definition waitTime (now : TimePoint) (e : NetworkEngine) : Duration :=
  match mNextWake e with
  | None => MaxWait
  | Some t => if t <=? now then ms 1 else if t - now <? MaxWait then ceilMicroseconds (t - now) else MaxWait
  end.

Definition waitForWork (now : TimePoint) : M Wait :=
  timeout ← gets (waitTime now);
  overdue ← gets (fun e => due (mNextWake e) now);
  when overdue (modify (fun e => e <| mLoopStats ::= fun s => s <| overdueWaits ::= fun n => u64 (n + 1) |> |>));;
  interfere;;
  woken ← gets mWoken;
  socket ← gets mIoSocket;
  if (woken : bool) then mret NoWait
  else if bool_decide (socket = None) then mret (AwaitWork timeout)
  else
    error ← ask (waitReadable timeout);
    modify (fun e => e <| mTickTimedOut := mWaitingForTick e && bool_decide (error = Some Timeout) |>);;
    when (negb (bool_decide (error = None)) && negb (bool_decide (error = Some Timeout)) &&
          negb (bool_decide (error = Some Cancelled)))
      (modify (fun e => e <| mSocketFailed := true |>));;
    mret (AwaitSocket timeout).

(** The body of the loop of [run], up to the delivery of the events, and the wait that
    follows it: [before] and [after] are what the clock says. *)
Definition beginRound (before : TimePoint) : M EventBatch :=
  modify (fun e => if mTickTimedOut e
    then e <| mTickTimedOut := false |>
           <| mLoopStats ::= fun s => s <| budgetTicks ::= fun n => u64 (n + 1) |>
                                        <| budgetTickTime ::= fun n => u64 (n + Z.quot (before - mStepStartedAt e) 1000) |> |>
    else e);;
  modify (fun e => e <| mStepStartedAt := before |>);;
  step before.
Definition endRound (after : TimePoint) : M () :=
  over ← gets finished;
  when (negb over) (waitForWork after;; mret ()).
Definition round (before after : TimePoint) : M EventBatch :=
  batch ← beginRound before;
  endRound after;;
  mret batch.

(** The end of the loop. *)
Definition endLoop : M () := mailbox_ (Box.setRunning false).

(** The end of the loop after an exception. *)
Definition failLoop : M EventBatch :=
  modify (fun e => e <| mEvents := [] |>);;
  endAllSessions ByNetworkError;;
  mailbox_ (Box.setRunning false);;
  takeBatch.
End Loop.
End Loop.
