(* ===== verification/Backlog.v ===== *)
(** * What waits for the application

    The [DeliveryBacklog] of [Engine/NetworkEngine.{h,cpp}]: the bytes of the batches that were
    handed over and are not gone yet, which may outlive the engine.  [EngineStep.v] has what
    the engine does with it; here every access to an atomic and every passage under the mutex
    is a step of its own, of the engine's thread or of those that drop a batch. *)
From S2P Require Import Prelude Constants.
From stdpp Require Import list relations.
#[local] Open Scope Z_scope.

Module Backlog.

(** ** The shared object *)
Record DeliveryBacklog := mkBacklog { bytes : Z; paused : bool; onDrained : bool }.
#[global] Instance eta_DeliveryBacklog : Eta DeliveryBacklog := fun r => mkBacklog (bytes r) (paused r) (onDrained r).

(** [BacklogShare]: its constructor, and its destructor, which first takes its bytes off and
    then decides whether to call [onDrained]. *)
Definition share (n : Z) (b : DeliveryBacklog) : DeliveryBacklog := b <| bytes := u64 (bytes b + n) |>.
Definition takeOff (n : Z) (b : DeliveryBacklog) : Z * DeliveryBacklog := (bytes b, b <| bytes := u64 (bytes b - n) |>).
Definition callsBack (before n : Z) (b : DeliveryBacklog) : bool :=
  paused b && (BacklogResumeBytes <=? before) && (u64 (before - n) <? BacklogResumeBytes).

(** [~NetworkEngine], under the mutex. *)
Definition forgetEngine (b : DeliveryBacklog) : DeliveryBacklog := b <| onDrained := false |>.

(** [updatePause]: what follows from the bytes that were waiting. *)
Definition keepsPause (mPaused : bool) (waiting : Z) : bool :=
  if mPaused then BacklogResumeBytes <=? waiting else waiting <=? BacklogPauseBytes.

(** ** The threads

    [live]: the shares there are.  [leaving]: those whose destructor has taken their bytes off,
    with the bytes there were before; [calling]: how many of them are about to lock the mutex
    for [onDrained].  The engine is between two accesses, or has read what was waiting; its
    destructor has two steps, too.  [posted] counts the commands ResumeReceiving. *)
Inductive Engine := Idle | Loaded (waiting : Z) | Ending | Gone.
#[global] Instance Engine_eq_dec : EqDecision Engine.
Proof. solve_decision. Defined.
Record State := mkState {
  backlog : DeliveryBacklog; live : list Z; leaving : list (Z * Z); calling : nat;
  engine : Engine; mPaused : bool; posted : nat;
  (** not in the code: the commands there were when the senders were last asked to pause; whether
      the backlog had drained by then; and a call of [onDrained] without the engine *)
  postedBefore : nat; raced : bool; dangling : bool }.
#[global] Instance eta_State : Eta State := fun r =>
  mkState (backlog r) (live r) (leaving r) (calling r) (engine r) (mPaused r) (posted r) (postedBefore r) (raced r) (dangling r).
Definition begin : State := mkState (mkBacklog 0 false true) [] [] 0 Idle false 0 0 false false.

Definition decide_ (waiting : Z) (s : State) : State :=
  if keepsPause (mPaused s) waiting then s <| engine := Idle |>
  else
    let s := s <| mPaused := negb (mPaused s) |> in
    let s := s <| backlog := (backlog s) <| paused := mPaused s |> |> <| engine := Idle |> in
    if mPaused s then s <| postedBefore := posted s |> <| raced := bytes (backlog s) <? BacklogResumeBytes |> else s.
(** [onDrained], under the mutex, if it is there: it posts to the mailbox of the engine. *)
Definition drained (s : State) : State :=
  if onDrained (backlog s) then s <| posted ::= S |> <| dangling := dangling s || bool_decide (engine s = Gone) |> else s.

Inductive step (s : State) : State -> Prop :=
| bs_share n : engine s = Idle -> 0 < n -> bytes (backlog s) + n < 2 ^ 64 ->
    step s (s <| backlog := share n (backlog s) |> <| live ::= cons n |>)
| bs_takeOff l n l' : live s = l ++ n :: l' ->
    step s (s <| backlog := (takeOff n (backlog s)).2 |> <| live := l ++ l' |> <| leaving ::= cons ((takeOff n (backlog s)).1, n) |>)
| bs_check l before n l' : leaving s = l ++ (before, n) :: l' ->
    step s (s <| leaving := l ++ l' |> <| calling ::= if callsBack before n (backlog s) then S else id |>)
| bs_call k : calling s = S k -> step s (drained (s <| calling := k |>))
| bs_load : engine s = Idle -> step s (s <| engine := Loaded (bytes (backlog s)) |>)
| bs_decide waiting : engine s = Loaded waiting -> step s (decide_ waiting s)
| bs_destroy : engine s = Idle -> step s (s <| engine := Ending |> <| backlog := forgetEngine (backlog s) |>)
| bs_gone : engine s = Ending -> step s (s <| engine := Gone |>).

(** ** The invariant *)
Definition total (l : list Z) : Z := foldr Z.add 0 l.
#[global] Arguments total : simpl never.

(** The share that takes the backlog below what senders are resumed at. *)
Definition crosses (x : Z * Z) : Prop := BacklogResumeBytes <= x.1 /\ u64 (x.1 - x.2) < BacklogResumeBytes.
Record state_ok (s : State) : Prop := {
  so_bytes : bytes (backlog s) = total (live s) /\ total (live s) < 2 ^ 64;
  so_positive : Forall (fun n => 0 < n) (live s);
  so_paused : paused (backlog s) = mPaused s;
  so_owner : onDrained (backlog s) = true <-> engine s = Idle \/ exists w, engine s = Loaded w;
  so_dangling : dangling s = false;
  so_posted : (postedBefore s <= posted s)%nat;
  so_resume : mPaused s = true -> onDrained (backlog s) = true -> raced s = false -> bytes (backlog s) < BacklogResumeBytes ->
    (exists x, x ∈ leaving s /\ crosses x) \/ (0 < calling s)%nat \/ (postedBefore s < posted s)%nat;
}.

Lemma total_nonneg l : Forall (fun n => 0 < n) l -> 0 <= total l.
Proof. induction 1 as [|n l Hn _ IH]; [done|]. change (total (n :: l)) with (n + total l). lia. Qed.
Lemma total_without l n l' : total (l ++ n :: l') = n + total (l ++ l').
Proof. unfold total. induction l as [|x l IH]; cbn; [done|]. cbn in IH. lia. Qed.

Lemma begin_ok : state_ok begin.
Proof. split; try done. split; [by left|done]. Qed.

Lemma share_ok s n : state_ok s -> engine s = Idle -> 0 < n -> bytes (backlog s) + n < 2 ^ 64 ->
  state_ok (s <| backlog := share n (backlog s) |> <| live ::= cons n |>).
Proof.
  intros [[H1 H2] H3 H4 H5 H6 H7 H8] He Hn Hb. pose proof (total_nonneg _ H3). assert (E : u64 (bytes (backlog s) + n) = bytes (backlog s) + n)
    by (apply wrap_small; unfold is_uint; lia).
  split; cbn; rewrite ?E; [change (total (n :: live s)) with (n + total (live s)); lia|by constructor|done..|].
  intros. apply H8; (done || lia).
Qed.
Lemma takeOff_ok s l n l' : state_ok s -> live s = l ++ n :: l' ->
  state_ok (s <| backlog := (takeOff n (backlog s)).2 |> <| live := l ++ l' |> <| leaving ::= cons ((takeOff n (backlog s)).1, n) |>).
Proof.
  intros [[H1 H2] H3 H4 H5 H6 H7 H8] El. rewrite El in *. rewrite total_without in *. apply Forall_app in H3 as [Hl [Hn Hl']%Forall_cons].
  pose proof (total_nonneg (l ++ l') ltac:(by apply Forall_app)). assert (E : u64 (bytes (backlog s) - n) = bytes (backlog s) - n)
    by (apply wrap_small; unfold is_uint; lia).
  split; cbn; rewrite ?E; [lia|by apply Forall_app|done..|]. intros Hp Ho Hr Hb. destruct (Z.lt_ge_cases (bytes (backlog s)) BacklogResumeBytes) as [Hlt|Hge].
  - destruct (H8 Hp Ho Hr Hlt) as [(x & Hx & Hc)|?]; [left; exists x; set_solver|by right].
  - left. exists (bytes (backlog s), n). split; [set_solver|]. split; cbn; [done|]. by rewrite E.
Qed.
Lemma check_ok s l before n l' : state_ok s -> leaving s = l ++ (before, n) :: l' ->
  state_ok (s <| leaving := l ++ l' |> <| calling ::= if callsBack before n (backlog s) then S else id |>).
Proof.
  intros [[H1 H2] H3 H4 H5 H6 H7 H8] El. split; try done. cbn. intros Hp Ho Hr Hb. rewrite El in H8. unfold callsBack. rewrite H4, Hp.
  destruct (H8 Hp Ho Hr Hb) as [(x & Hx & Hc)|[?|?]]; [|right; left; case_match; cbn; lia|by do 2 right].
  apply elem_of_app in Hx as [Hx|[->|Hx]%elem_of_cons]; [left; exists x; set_solver| |left; exists x; set_solver].
  destruct Hc as [Hc1%Z.leb_le Hc2%Z.ltb_lt]. cbn in *. rewrite Hc1, Hc2. right. left. cbn. lia.
Qed.
Lemma call_ok s k : state_ok s -> calling s = S k -> state_ok (drained (s <| calling := k |>)).
Proof.
  intros [[H1 H2] H3 H4 H5 H6 H7 H8] Ek. unfold drained. cbn. destruct (onDrained (backlog s)) eqn:Eo; split; cbn; rewrite ?Eo; try done.
  - rewrite H6. cbn. apply bool_decide_eq_false. destruct (proj1 H5 eq_refl) as [->|(w & ->)]; done.
  - lia.
  - intros. do 2 right. lia.
Qed.
Lemma decide_ok s waiting : state_ok s -> engine s = Loaded waiting -> state_ok (decide_ waiting s).
Proof.
  intros [[H1 H2] H3 H4 H5 H6 H7 H8] Ee. assert (Ho : onDrained (backlog s) = true) by (apply H5; eauto).
  assert (Hi : onDrained (backlog s) = true <-> Idle = Idle \/ exists w, Idle = Loaded w) by (split; [by left|done]).
  unfold decide_. destruct (keepsPause _ _); [by split|]. destruct (mPaused s) eqn:Ep; cbn [negb]; (split; try done; cbn).
  intros _ _ Hr Hb. apply Z.ltb_ge in Hr. lia.
Qed.

Lemma backlog_step_ok s s' : step s s' -> state_ok s -> state_ok s'.
Proof.
  intros [n He Hn Hb|l n l' El|l before n l' El|k Ek|He|waiting Ee|He|He] Hok.
  - by apply share_ok.
  - by apply takeOff_ok.
  - by eapply check_ok.
  - by apply call_ok.
  - destruct Hok as [H1 H3 H4 H5 H6 H7 H8]. split; try done. cbn. rewrite H5, He. split; [right; eauto|by left].
  - by apply decide_ok.
  - destruct Hok as [H1 H3 H4 H5 H6 H7 H8]. split; try done. cbn. split; [done|]. by intros [|[]].
  - destruct Hok as [H1 H3 H4 H5 H6 H7 H8]. split; try done. cbn. rewrite H5, He. split; by intros [|[]].
Qed.
Lemma backlog_run_ok s : rtc step begin s -> state_ok s.
Proof. assert (H : forall s0, state_ok s0 -> rtc step s0 s -> state_ok s). { intros s0 H0 Hs. induction Hs; [done|]. eauto using backlog_step_ok. } apply H, begin_ok. Qed.

(** C28: nothing is lost of what waits for the application.  However the engine's thread and those
    that drop batches interleave, and whenever the engine is destroyed: the backlog is the
    bytes of the batches there are; [onDrained] is never called without the engine; and if
    the engine has asked its senders to pause, less waits than it resumes them at and no
    batch is on its way out, then the command to resume was posted since, or the backlog had
    already drained between the two accesses of [updatePause]. *)
Theorem backlog_accounts s : rtc step begin s ->
  bytes (backlog s) = total (live s) /\ dangling s = false /\
  (mPaused s = true -> engine s = Idle -> bytes (backlog s) < BacklogResumeBytes -> leaving s = [] -> calling s = 0%nat ->
    (postedBefore s < posted s)%nat \/ raced s = true).
Proof.
  intros [[H1 H2] H3 H4 H5 H6 H7 H8]%backlog_run_ok. split_and!; [done..|]. intros Hp He Hb Hl Hc. destruct (raced s) eqn:Er; [by right|left].
  destruct H8 as [(x & Hx & _)|[?|?]]; try done; [by apply H5; left|by rewrite Hl in Hx; apply elem_of_nil in Hx|lia].
Qed.

(** ** Runs *)

(** A batch of 40 MiB and one of 1 MiB: the senders are paused, and resumed when the first
    is gone. *)
Definition big : Z := 40 * 2 ^ 20.
Definition small : Z := 2 ^ 20.
Definition paused_ : State := decide_ (big + small) (mkState (mkBacklog (big + small) false true) [small; big] [] 0 (Loaded (big + small)) false 0 0 false false).
Definition resumed : State := drained (paused_ <| backlog ::= fun b => b <| bytes := small |> |> <| live := [small] |>).
Lemma paused_reached : rtc step begin paused_.
Proof.
  eapply rtc_l; [by apply (bs_share _ big)|]. eapply rtc_l; [by apply (bs_share _ small)|]. eapply rtc_l; [by apply bs_load|]. by apply rtc_once, bs_decide.
Qed.
Lemma resumed_reached : rtc step begin resumed.
Proof.
  etrans; [apply paused_reached|]. eapply rtc_l; [by apply (bs_takeOff _ [small] big [])|]. eapply rtc_l; [by apply (bs_check _ [] (big + small) big [])|].
  match goal with |- rtc _ ?x ?y => let a := eval vm_compute in x in let b := eval vm_compute in y in change (rtc step a b) end.
  apply rtc_once. match goal with |- step ?x _ => exact (bs_call x 0%nat eq_refl) end.
Qed.
Lemma backlog_accounts_witness : bytes (backlog resumed) = small /\ (postedBefore resumed < posted resumed)%nat.
Proof.
  destruct (backlog_accounts resumed resumed_reached) as (E & _ & H). split; [exact E|]. by destruct H.
Defined.

(** The batch is gone before the engine, which has seen it, says that it paused: nobody will
    tell it to resume, and the senders are held back until the loop wakes for something else,
    at the latest for the next beacon. *)
Definition racing : State := decide_ (big + small) (mkState (mkBacklog small false true) [small] [] 0 (Loaded (big + small)) false 0 0 false false).
Lemma resume_missed : rtc step begin racing /\ mPaused racing = true /\ bytes (backlog racing) < BacklogResumeBytes /\
  leaving racing = [] /\ calling racing = 0%nat /\ posted racing = 0%nat.
Proof.
  split; [|by vm_compute]. eapply rtc_l; [by apply (bs_share _ big)|]. eapply rtc_l; [by apply (bs_share _ small)|]. eapply rtc_l; [by apply bs_load|].
  eapply rtc_l; [by apply (bs_takeOff _ [small] big [])|]. eapply rtc_l; [by apply (bs_check _ [] (big + small) big [])|]. by apply rtc_once, bs_decide.
Qed.
End Backlog.
