(* ===== verification/EngineLogic.v ===== *)
(** * Reasoning about the engine

    The mailbox under the hands of several threads; a program logic for the computations of
    the engine; and what a handler does to one session, as far as others can see it. *)
From Stdlib Require Import QArith.
From S2P Require Import Prelude Constants PacketFlags OrderedMap SendScheduler ReliableLink Discovery.
From S2P Require Import Mailbox MailboxRuns Engine SessionSpec LinkIdentity EngineSessions.
Import Engine.
#[local] Open Scope Z_scope.

(** ** The mailbox *)

(** The I/O thread performs [ops], other threads anything that is theirs in between. *)
Inductive threads (m : Box.Mailbox) : list action -> Box.Mailbox -> Prop :=
| th_refl : threads m [] m
| th_app ops m1 a : threads m ops m1 -> appAction a -> threads m ops (perform a m1)
| th_own ops m1 a : threads m ops m1 -> allowed a m1 -> threads m (ops ++ [a]) (perform a m1).

Lemma threads_trans m ops m1 ops' m2 : threads m ops m1 -> threads m1 ops' m2 -> threads m (ops ++ ops') m2.
Proof.
  intros H1. induction 1 as [|ops' m2 a _ IH Ha|ops' m2 a _ IH Ha]; [by rewrite app_nil_r|by constructor|].
  rewrite app_assoc. by constructor.
Qed.

Lemma appAction_allowed a m : appAction a -> allowed a m.
Proof. by destruct a. Qed.

(** What the threads do is a run of the mailbox. *)
Definition in_run (q : Z) (m : Box.Mailbox) : Prop := exists n P T, run q n m P T.

Lemma threads_run q m ops m' : threads m ops m' -> in_run q m -> in_run q m'.
Proof.
  intros H Hr. induction H as [|ops m1 a _ IH Ha|ops m1 a _ IH Ha]; [done|..]; destruct (IH) as (n & P & T & Hn);
    eexists _, _, _; apply run_step; [exact Hn|by apply appAction_allowed|exact Hn|done].
Qed.

(** What of the mailbox concerns the session with one peer: whether its queues are open, and
    what callers are told of it. *)
Definition entryOf (m : Box.Mailbox) (id : PeerId) : bool * option Box.Session :=
  (bool_decide (is_Some (Box.mPeers m !! id)), Box.mSessions m !! id).

Definition entryAfter (id : PeerId) (a : action) (s : bool * option Box.Session) : bool * option Box.Session :=
  match a with
  | Open x => if x =? id then (true, Some Box.Connected) else s
  | Close x => if x =? id then (false, None) else s
  | PublishSession x p => if x =? id then (s.1, Some p) else s
  | Seal x => if (x =? id) && s.1 then (s.1, Some Box.Pending) else s
  | _ => s
  end.

Lemma enqueueAndRing_entry x p l mail m id : Box.mPeers m !! x = Some p ->
  entryOf (Box.enqueueAndRing x p l mail m) id = entryOf m id.
Proof.
  intros Hx. unfold Box.enqueueAndRing. destruct (enqueue_spec x p l mail m) as [_ (p' & He)].
  pose proof (en_box _ _ _ _ _ _ _ He) as Em. destruct (Box.enqueue x p l mail m) as [b m1]. cbn [snd] in Em. subst m1.
  unfold entryOf. destruct b; cbn; f_equal; (destruct (decide (id = x)) as [->|]; [rewrite lookup_insert_eq, Hx|by rewrite lookup_insert_ne]);
    by rewrite !bool_decide_true by (by eexists).
Qed.

Lemma pushAll_entry l mail m id : entryOf (Box.pushToAll l mail m).2 id = entryOf m id.
Proof.
  unfold Box.pushToAll. destruct (_ <? _); [done|]. destruct (Box.mRunning m); [cbn [negb]|done].
  destruct (pushOne_all l mail m (keysOf (Box.mPeers m)) 0 false m (NoDup_keysOf _) eq_refl ltac:(done)) as [Hpa _].
  destruct (fold_left _ _ _) as [[t r] m'] eqn:E. cbn [fst snd] in *.
  assert (Ho : entryOf m' id = entryOf m id).
  { clear Hpa. assert (Hind : forall ids acc, entryOf acc.2 id = entryOf m id ->
      entryOf (fold_left (Box.pushOne l mail) ids acc).2 id = entryOf m id).
    { induction ids as [|x ids IH]; intros [[t0 r0] m0] H0; [done|]. cbn [fold_left]. apply IH. cbn [snd] in *.
      unfold Box.pushOne. destruct (Box.mPeers m0 !! x) as [p|] eqn:Ex; [|done]. destruct (_ || _); [done|].
      pose proof (enqueueAndRing_entry x p l mail m0 id Ex) as Hr. unfold Box.enqueueAndRing in Hr.
      destruct (Box.enqueue x p l mail m0) as [b m1]. cbn [snd]. rewrite <- H0, <- Hr. by destruct b. }
    specialize (Hind (keysOf (Box.mPeers m)) (0, false, m) eq_refl). by rewrite E in Hind. }
  rewrite <- Ho. by destruct r.
Qed.

Lemma drain_entry m id : entryOf (Box.drain m).2 id = entryOf m id.
Proof.
  unfold Box.drain. cbn [snd Box.ready].
  assert (Hind : forall ids m0, entryOf (fold_left (fun m id => match Box.mPeers m !! id with
     | Some p => m <| Box.mPeers ::= <[id := p <| Box.listed := false |>]> |> | None => m end) ids m0) id = entryOf m0 id).
  { induction ids as [|x ids IH]; intros m0; [done|]. cbn [fold_left]. rewrite IH.
    destruct (Box.mPeers m0 !! x) as [p|] eqn:Ex; [|done]. unfold entryOf. cbn. f_equal.
    destruct (decide (id = x)) as [->|]; [rewrite lookup_insert_eq, Ex|by rewrite lookup_insert_ne].
    by rewrite !bool_decide_true by (by eexists). }
  change (entryOf (update Box.mSignalled _ ?y) id) with (entryOf y id). by rewrite Hind.
Qed.

(** Replacing what is stored of a peer. *)
Lemma entry_insert m x p p' id : Box.mPeers m !! x = Some p ->
  entryOf (m <| Box.mPeers ::= <[x := p']> |>) id = entryOf m id.
Proof.
  intros Ex. unfold entryOf. cbn. f_equal. destruct (decide (id = x)) as [->|]; [rewrite lookup_insert_eq, Ex|by rewrite lookup_insert_ne].
  by rewrite !bool_decide_true by (by eexists).
Qed.

Lemma perform_entry a m id : entryOf (perform a m) id = entryAfter id a (entryOf m id).
Proof.
  destruct a; cbn [perform entryAfter].
  - unfold Box.post. by destruct (negb _).
  - pose proof (push_cases id0 l mail timeout m) as H. destruct (Box.push id0 l mail timeout m) as [[[]|] m'];
      cbn [fst snd] in *; try (by subst). destruct H as (p & Hid & _ & _ & _ & ->). by apply enqueueAndRing_entry.
  - pose proof (resume_cases w m) as H. destruct (Box.pushResume w m) as [[] m']; cbn [fst snd] in *; try (by subst).
    destruct H as (p & Hid & _ & _ & _ & ->). by apply enqueueAndRing_entry.
  - apply pushAll_entry.
  - unfold Box.seal. destruct (Box.mPeers m !! id0) as [p|] eqn:E.
    + unfold entryOf. cbn. destruct (Z.eqb_spec id0 id) as [->|Hne].
      * rewrite E, !lookup_insert_eq, !bool_decide_true by (by eexists). done.
      * by rewrite !lookup_insert_ne by done.
    + destruct (Z.eqb_spec id0 id) as [->|Hne]; [|done]. unfold entryOf. by rewrite E.
  - done.
  - apply drain_entry.
  - unfold Box.take. destruct (Box.mPeers m !! id0) as [p|] eqn:E; [|done]. destruct (Box.queue _); [done|]. by apply (entry_insert m id0 p).
  - unfold Box.settle. destruct (Box.mPeers m !! id0) as [p|] eqn:E; [|done]. destruct (existsb _ _); [done|].
    destruct (_ =? _); [done|]. by apply (entry_insert m id0 p).
  - unfold Box.open, entryOf. cbn. rewrite insert_insert_eq. destruct (Z.eqb_spec id0 id) as [->|Hne].
    + rewrite !lookup_insert_eq, bool_decide_true by (by eexists). done.
    + by rewrite !lookup_insert_ne by done.
  - unfold Box.close, entryOf. cbn. destruct (Z.eqb_spec id0 id) as [->|Hne].
    + rewrite !lookup_delete_eq, bool_decide_false by (by intros []). done.
    + by rewrite !lookup_delete_ne by done.
  - unfold Box.publishSession, entryOf. cbn. destruct (Z.eqb_spec id0 id) as [->|Hne].
    + by rewrite lookup_insert_eq.
    + by rewrite lookup_insert_ne by done.
  - done.
  - unfold Box.publishStats. destruct (Box.mPeers m !! id0) as [p|] eqn:E; [|done]. by apply (entry_insert m id0 p).
Qed.

(** The entry of a peer after all that the threads do: what the I/O thread does decides,
    except that an application may seal an open session. *)
Definition entryRun (id : PeerId) (ops : list action) (s : bool * option Box.Session) : bool * option Box.Session :=
  fold_left (fun s a => entryAfter id a s) ops s.

Definition sealed_or (s s' : bool * option Box.Session) : Prop :=
  s' = s \/ s.1 = true /\ s' = (true, Some Box.Pending).

Lemma threads_entry m ops m' id : threads m ops m' -> sealed_or (entryRun id ops (entryOf m id)) (entryOf m' id).
Proof.
  induction 1 as [|ops m1 a _ IH Ha|ops m1 a _ IH Ha]; [by left|..]; rewrite perform_entry.
  - destruct a; cbn in Ha; try done; cbn [entryAfter]. destruct (entryOf m1 id) as [[] x]; cbn [fst].
    + destruct (_ && _); [|done]. right. by destruct IH as [<- |[? ?]].
    + by rewrite andb_false_r.
  - unfold entryRun in *. rewrite fold_left_app. cbn [fold_left]. destruct IH as [-> |[E ->]]; [by left|].
    destruct (fold_left _ ops _) as [o s]. cbn in E. subst o.
    destruct a; cbn [entryAfter]; try (by right); destruct (_ =? _); cbn; by (left + right).
Qed.

(** ** The logic *)
Section Logic.
Context {W : Type} `{!World W} (fuel : nat) `{!WorldOk W fuel} (stuck : Prop).

(** Whatever the world does, [m] ends as [Q] says.  [stuck] tells whether it is acceptable
    that it does not end: with [False] for [stuck], it does. *)
Definition wp {A} (m : M W A) (Q : A -> NetworkEngine -> Prop) (e : NetworkEngine) : Prop :=
  forall w, match m e w with Some (a, e', _) => Q a e' | None => stuck end.

Lemma wp_mono {A} (m : M W A) (Q Q' : A -> NetworkEngine -> Prop) e :
  (forall a e', Q a e' -> Q' a e') -> wp m Q e -> wp m Q' e.
Proof. intros H Hm w. specialize (Hm w). destruct (m e w) as [[[a e'] w']|]; auto. Qed.

Lemma wp_and {A} (m : M W A) (Q Q' : A -> NetworkEngine -> Prop) e : wp m Q e -> wp m Q' e -> wp m (fun a e' => Q a e' /\ Q' a e') e.
Proof. intros H1 H2 w. specialize (H1 w). specialize (H2 w). destruct (m e w) as [[[a e'] w']|]; auto. Qed.

Lemma wp_ret {A} (a : A) Q e : Q a e -> wp (mret a) Q e.
Proof. intros H w. exact H. Qed.

Lemma wp_bind {A B} (m : M W A) (f : A -> M W B) Q e : wp m (fun a => wp (f a) Q) e -> wp (mbind f m) Q e.
Proof.
  intros H w. specialize (H w). unfold mbind, m_bind. destruct (m e w) as [[[a e'] w']|]; [apply H|done].
Qed.

Lemma wp_gets {A} (f : NetworkEngine -> A) Q e : Q (f e) e -> wp (gets f) Q e.
Proof. intros H w. exact H. Qed.

Lemma wp_modify f Q e : Q () (f e) -> wp (modify f) Q e.
Proof. intros H w. exact H. Qed.

Lemma wp_ask {A} (f : W -> A * W) (Q : A -> NetworkEngine -> Prop) e : (forall w, Q (f w).1 e) -> wp (ask f) Q e.
Proof. intros H w. unfold ask. specialize (H w). by destruct (f w). Qed.

Lemma wp_must {A} (o : option A) (Q : A -> NetworkEngine -> Prop) e :
  is_Some o -> (forall a, o = Some a -> Q a e) -> wp (must o) Q e.
Proof. intros [a ->] H w. by apply H. Qed.

Lemma wp_must_or {A} (o : option A) (Q : A -> NetworkEngine -> Prop) e :
  (o = None -> stuck) -> (forall a, o = Some a -> Q a e) -> wp (must o) Q e.
Proof. intros H1 H2 w. unfold must. destruct o; auto. Qed.

Lemma wp_when b (m : M W ()) (Q : () -> NetworkEngine -> Prop) e :
  (b = true -> wp m Q e) -> (b = false -> Q () e) -> wp (when b m) Q e.
Proof. intros H1 H2. destruct b; [by apply H1|]. intros w. by apply H2. Qed.

(** A loop: [I] speaks of what is done and what is left. *)
Lemma wp_loop {A} (f : A -> M W ()) (I : list A -> list A -> NetworkEngine -> Prop) : forall l pre e,
  I pre l e ->
  (forall pre x post e, I pre (x :: post) e -> wp (f x) (fun _ => I (pre ++ [x]) post) e) ->
  wp (forEach f l) (fun _ => I (pre ++ l) []) e.
Proof.
  induction l as [|x l IH]; intros pre e HI Hf; [rewrite app_nil_r; by apply wp_ret|].
  cbn [forEach]. apply wp_bind. eapply wp_mono; [|by apply Hf]. cbn beta. intros _ e' HI'.
  replace (pre ++ x :: l) with ((pre ++ [x]) ++ l) by (by rewrite <- app_assoc). by apply IH.
Qed.

Lemma wp_forEach {A} (f : A -> M W ()) (I : NetworkEngine -> Prop) l e :
  I e -> (forall x e, x ∈ l -> I e -> wp (f x) (fun _ => I) e) -> wp (forEach f l) (fun _ => I) e.
Proof.
  intros HI Hf. revert e HI. induction l as [|x l IH]; intros e HI; [by apply wp_ret|]. cbn [forEach]. apply wp_bind.
  eapply wp_mono; [|apply Hf; [by left|done]]. cbn beta. intros _ e' HI'. apply IH; [|done].
  intros y e'' Hy. apply Hf. by right.
Qed.

Lemma wp_deref id p (Q : Peer -> NetworkEngine -> Prop) e : mPeers e !! id = Some p -> Q p e -> wp (deref id) Q e.
Proof. intros Hp H w. unfold deref. by rewrite Hp. Qed.

Lemma wp_find id (Q : option Peer -> NetworkEngine -> Prop) e : Q (mPeers e !! id) e -> wp (find id) Q e.
Proof. intros H. exact (wp_gets (fun e => mPeers e !! id) Q e H). Qed.

Lemma wp_setPeer id p f (Q : () -> NetworkEngine -> Prop) e :
  mPeers e !! id = Some p -> Q () (e <| mPeers ::= <[id := f p]> |>) -> wp (setPeer id f) Q e.
Proof. intros Hp H. unfold setPeer. eapply wp_bind, wp_deref; [done|]. by apply wp_modify. Qed.

Lemma wp_onLink {A} id p (f : Link.ReliableLink -> A * Link.ReliableLink) (Q : A -> NetworkEngine -> Prop) e :
  mPeers e !! id = Some p ->
  (let r := f ((link p) <| Link.mBudget := Some (mAssemblyBudget e) |>) in
   Q r.1 (e <| mPeers ::= <[id := p <| link := r.2 |>]> |>
            <| mAssemblyBudget := default (mAssemblyBudget e) (Link.mBudget r.2) |>)) ->
  wp (onLink id f) Q e.
Proof.
  intros Hp H. unfold onLink. eapply wp_bind, wp_deref; [done|]. apply wp_bind, wp_gets.
  destruct (f _) as [a k]. by apply wp_bind, wp_modify, wp_ret.
Qed.

(** Other threads change nothing but what is shared with them. *)
Definition meddled (e e' : NetworkEngine) : Prop :=
  exists woken backlog m inboxes,
    e' = e <| mWoken := woken |> <| mBacklogBytes := backlog |> <| mMailbox := m |> <| mInboxes := inboxes |> /\
    threads (mMailbox e) [] m.

Lemma meddled_refl e : meddled e e.
Proof. exists (mWoken e), (mBacklogBytes e), (mMailbox e), (mInboxes e). split; [by destruct e|constructor]. Qed.

Lemma meddled_trans e e1 e2 : meddled e e1 -> meddled e1 e2 -> meddled e e2.
Proof.
  intros (wk & b & m & i & -> & Hm) (wk' & b' & m' & i' & -> & Hm'). exists wk', b', m', i'. split; [done|].
  by apply (threads_trans _ [] m []).
Qed.

Lemma call_meddled e c : callOk c -> meddled e (performCall e c).
Proof.
  intros Hc. destruct c as [a|i|n]; cbn [performCall].
  - exists (mWoken e || (Box.mDoorbell (mMailbox e) <? Box.mDoorbell (perform a (mMailbox e)))), (mBacklogBytes e),
      (perform a (mMailbox e)), (mInboxes e). split; [reflexivity|]. apply th_app; [constructor|done].
  - unfold takeMessage. destruct (mInboxes e !! i) as [[|x r]|]; [apply meddled_refl| |apply meddled_refl].
    cbn [snd]. exists (mWoken e), (mBacklogBytes e), (mMailbox e), (<[i := r]> (mInboxes e)). split; [reflexivity|constructor].
  - unfold dropShare. destruct (_ && _).
    + exists (mWoken e || (Box.mDoorbell (mMailbox e) <? Box.mDoorbell (Box.post Box.ResumeReceiving 0 (mMailbox e)))),
        (u64 (mBacklogBytes e - n)), (Box.post Box.ResumeReceiving 0 (mMailbox e)), (mInboxes e). split; [reflexivity|]. cbn. apply (th_app _ [] (mMailbox e) (Post Box.ResumeReceiving 0)); [constructor|done].
    + exists (mWoken e), (u64 (mBacklogBytes e - n)), (mMailbox e), (mInboxes e). split; [reflexivity|constructor].
Qed.

Lemma wp_interfere (Q : () -> NetworkEngine -> Prop) e : (forall e', meddled e e' -> Q () e') -> wp interfere Q e.
Proof.
  intros H w. unfold interfere. pose proof (wo_others w) as Ho. destruct (otherThreads w) as [calls w']. cbn [fst] in Ho. apply H.
  assert (Hall : forall c, c ∈ calls -> callOk c) by exact Ho. clear Ho H.
  assert (Hgen : forall e0, meddled e e0 -> meddled e (fold_left performCall calls e0)); [|by apply Hgen, meddled_refl].
  induction calls as [|c calls IH]; intros e0 H0; [done|]. cbn [fold_left]. apply IH.
  - intros c' Hc. apply Hall. by right.
  - eapply meddled_trans; [done|]. apply call_meddled, Hall. by left.
Qed.

Lemma wp_mailbox {A} (f : Box.Mailbox -> A * Box.Mailbox) (Q : A -> NetworkEngine -> Prop) e :
  (forall e', meddled e e' -> Q (f (mMailbox e')).1 (setMailbox (f (mMailbox e')).2 e')) -> wp (mailbox f) Q e.
Proof.
  intros H. unfold mailbox. apply wp_bind, wp_interfere. intros e' He w. unfold locked. specialize (H e' He).
  by destruct (f (mMailbox e')).
Qed.
End Logic.

(** What holds if [m] ends, besides. *)
Lemma wp_also {W A} (stuck : Prop) (m : M W A) (Q Q' : A -> NetworkEngine -> Prop) e :
  wp stuck m Q e -> wp True m Q' e -> wp stuck m (fun a e' => Q a e' /\ Q' a e') e.
Proof. intros H1 H2 w. specialize (H1 w). specialize (H2 w). destruct (m e w) as [[[a e'] w']|]; auto. Qed.
