(* ===== verification/EngineEffects.v ===== *)
(** * What the handlers do to one session

    [effect] describes a computation that works on one peer: how its stage changes, what
    the application is told, and which operations of the mailbox it takes.  The functions
    sessions are made of are described here. *)
From Stdlib Require Import QArith.
From S2P Require Import Prelude Constants PacketFlags PacketHeader OrderedMap SendScheduler ReliableLink ControlMessage Discovery.
From S2P Require Import Mailbox MailboxRuns Engine SessionSpec LinkIdentity EngineSessions EngineLogic.
Import Engine Sessions.
#[local] Open Scope Z_scope.

Definition viewOf (p : Peer) : View :=
  mkView (state p) (initiator p) (acceptSent p) (closeSent p) (announced p) (reported p) (ended p) (stateDeadline p).

(** What stays as it is for as long as there is the peer, or until it is scheduled. *)
Record same_peer (p p' : Peer) : Prop := {
  sp_id : infoId (peerInfo p') = infoId (peerInfo p);
  sp_stream : Link.mLocalStreamID (link p') = Link.mLocalStreamID (link p);
  sp_scheduled : scheduled p' = scheduled p;
}.
#[export] Instance same_peer_preorder : PreOrder same_peer.
Proof. split; [done|]. intros p1 p2 p3 [] []. split; congruence. Qed.

(** The parts of an engine that no single session changes. *)
Record same_rest (e e' : NetworkEngine) : Prop := {
  sr_config : mConfig e' = mConfig e;
  sr_id : mId e' = mId e;
  sr_socket : mIoSocket e' = mIoSocket e;
  sr_discovery : mDiscovery e' = mDiscovery e;
  sr_streams : mByStream e' = mByStream e;
  sr_scheduler : mScheduler e' = mScheduler e;
  sr_shutdown : mShutdown e' = mShutdown e;
}.
#[export] Instance same_rest_preorder : PreOrder same_rest.
Proof. split; [done|]. intros e1 e2 e3 [] []. split; congruence. Qed.

Record effect (id : PeerId) (v v' : View) (evs : list EngineEvent) (ops : list action) (e e' : NetworkEngine) : Prop := {
  ef_peer : exists p p', mPeers e !! id = Some p /\ mPeers e' = <[id := p']> (mPeers e) /\
    viewOf p = v /\ viewOf p' = v' /\ same_peer p p';
  ef_events : mEvents e' = mEvents e ++ evs;
  ef_box : threads (mMailbox e) ops (mMailbox e');
  ef_ended : mEnded e ⊆ mEnded e';
  ef_ends : vEnded v' = true -> vEnded v = true \/ id ∈ mEnded e';
  ef_rest : same_rest e e';
}.

Lemma effect_trans id v v1 v2 evs evs' ops ops' e e1 e2 :
  effect id v v1 evs ops e e1 -> effect id v1 v2 evs' ops' e1 e2 -> effect id v v2 (evs ++ evs') (ops ++ ops') e e2.
Proof.
  intros [(p & p1 & Hp & Ep1 & Hv & Hv1 & Hs) He Hb Hen Hend Hr] [(q & p2 & Hq & Eq & Hv1' & Hv2 & Hs2) He2 Hb2 Hen2 Hend2 Hr2].
  split.
  - exists p, p2. split_and!; try done.
    + by rewrite Eq, Ep1, insert_insert_eq.
    + rewrite Ep1, lookup_insert_eq in Hq. injection Hq as <-. by etrans.
  - by rewrite He2, He, app_assoc.
  - by eapply threads_trans.
  - by etrans.
  - intros E. destruct (Hend2 E) as [E1|]; [|by right]. destruct (Hend E1); [by left|right]. by apply Hen2.
  - by etrans.
Qed.

Lemma effect_lookup id v v' evs ops e e' : effect id v v' evs ops e e' -> exists p', mPeers e' !! id = Some p' /\ viewOf p' = v'.
Proof. intros [(p & p' & _ & -> & _ & Hv & _) _ _ _ _ _]. exists p'. by rewrite lookup_insert_eq. Qed.

(** A change of nothing but one peer. *)
Lemma effect_peer id p p' e e' :
  mPeers e !! id = Some p -> mPeers e' = <[id := p']> (mPeers e) -> same_peer p p' ->
  mEvents e' = mEvents e -> mMailbox e' = mMailbox e -> mEnded e' = mEnded e -> same_rest e e' -> ended p' = ended p ->
  effect id (viewOf p) (viewOf p') [] [] e e'.
Proof.
  intros Hp E Hs H1 H2 H3 Hr Hen. split.
  - by exists p, p'.
  - by rewrite H1, app_nil_r.
  - rewrite H2. constructor.
  - by rewrite H3.
  - intros Hv. left. cbn in *. congruence.
  - done.
Qed.

(** Nothing happens to any peer. *)
Lemma effect_none id p evs ops e e' :
  mPeers e !! id = Some p -> mPeers e' = mPeers e -> mEvents e' = mEvents e ++ evs ->
  threads (mMailbox e) ops (mMailbox e') -> mEnded e' = mEnded e -> same_rest e e' ->
  effect id (viewOf p) (viewOf p) evs ops e e'.
Proof.
  intros Hp E H1 H2 H3 Hr. split; try done.
  - exists p, p. split_and!; try done. by rewrite E, insert_id.
  - by rewrite H3.
  - by left.
Qed.

Section Effects.
Context {W : Type} `{!World W} (fuel : nat) `{!WorldOk W fuel} (stuck : Prop).
Abbreviation wp := (wp (W := W) stuck).

(** One after the other. *)
Lemma wp_then {A B} id v v1 evs ops (m : Engine.M W A) (f : A -> Engine.M W B) Q e :
  wp m (fun _ e1 => effect id v v1 evs ops e e1) e ->
  (forall a e1 p1, effect id v v1 evs ops e e1 -> mPeers e1 !! id = Some p1 -> viewOf p1 = v1 -> wp (f a) Q e1) ->
  wp (mbind f m) Q e.
Proof.
  intros H1 H2. apply wp_bind. eapply wp_mono; [|exact H1]. cbn beta. intros a e1 He.
  destruct (effect_lookup _ _ _ _ _ _ _ He) as (p1 & Hp & Hv). by eapply H2.
Qed.

Lemma setPeer_effect id p f e : mPeers e !! id = Some p -> same_peer p (f p) -> ended (f p) = ended p ->
  wp (setPeer id f) (fun _ e' => effect id (viewOf p) (viewOf (f p)) [] [] e e') e.
Proof. intros Hp Hs He. eapply wp_setPeer; [done|]. by eapply effect_peer. Qed.

Lemma onLink_effect {A} id p (f : Link.ReliableLink -> A * Link.ReliableLink) e :
  mPeers e !! id = Some p -> (forall n k, named n k -> named n (f k).2) ->
  wp (onLink id f) (fun _ e' => effect id (viewOf p) (viewOf p) [] [] e e') e.
Proof.
  intros Hp Hn. eapply wp_onLink; [done|]. cbn zeta.
  set (k := (f ((link p) <| Link.mBudget := Some (mAssemblyBudget e) |>)).2).
  change (viewOf p) with (viewOf (p <| link := k |>)) at 2. apply effect_peer; try done.
  split; try done. by apply (Hn (Link.mLocalStreamID (link p)) ((link p) <| Link.mBudget := Some (mAssemblyBudget e) |>)).
Qed.

Lemma onLink_effect_ id p (f : Link.ReliableLink -> Link.ReliableLink) e :
  mPeers e !! id = Some p -> (forall n k, named n k -> named n (f k)) ->
  wp (onLink_ id f) (fun _ e' => effect id (viewOf p) (viewOf p) [] [] e e') e.
Proof. intros Hp Hn. by apply (onLink_effect id p (fun k => ((), f k))). Qed.

Lemma touch_effect id p x e : mPeers e !! id = Some p ->
  wp (touch x) (fun _ e' => effect id (viewOf p) (viewOf p) [] [] e e') e.
Proof. intros Hp. apply wp_modify. eapply effect_none; try done; [by rewrite app_nil_r|constructor]. Qed.

Lemma emit_effect id p ev e : mPeers e !! id = Some p ->
  wp (emit ev) (fun _ e' => effect id (viewOf p) (viewOf p) [ev] [] e e') e.
Proof. intros Hp. apply wp_modify. eapply effect_none; try done. constructor. Qed.

(** An operation on the mailbox, which is always one of its actions. *)
Lemma mailbox_effect {A} id p (f : Box.Mailbox -> A * Box.Mailbox) a e :
  mPeers e !! id = Some p -> (forall m, (f m).2 = perform a m) ->
  (forall m, threads (mMailbox e) [] m -> allowed a m) ->
  wp (mailbox f) (fun _ e' => effect id (viewOf p) (viewOf p) [] [a] e e') e.
Proof.
  intros Hp Hf Ha. eapply wp_mailbox; [done|]. intros e' (wk & b & m & i & -> & Ht). rewrite Hf.
  eapply effect_none; try done; [by rewrite app_nil_r|]. apply (th_own _ []); [done|by apply Ha].
Qed.

Lemma mailbox_effect_ id p f a e :
  mPeers e !! id = Some p -> (forall m, f m = perform a m) -> (forall m, threads (mMailbox e) [] m -> allowed a m) ->
  wp (mailbox_ f) (fun _ e' => effect id (viewOf p) (viewOf p) [] [a] e e') e.
Proof. intros Hp Hf Ha. by eapply mailbox_effect. Qed.

Lemma wp_seq {A B} id v v1 v2 evs evs' ops ops' (m : Engine.M W A) (f : A -> Engine.M W B) e :
  wp m (fun _ e1 => effect id v v1 evs ops e e1) e ->
  (forall a e1 p1, effect id v v1 evs ops e e1 -> mPeers e1 !! id = Some p1 -> viewOf p1 = v1 ->
    wp (f a) (fun _ e2 => effect id (viewOf p1) v2 evs' ops' e1 e2) e1) ->
  wp (mbind f m) (fun _ e2 => effect id v v2 (evs ++ evs') (ops ++ ops') e e2) e.
Proof.
  intros H1 H2. eapply wp_then; [exact H1|]. intros a e1 p1 He Hp Hv. eapply wp_mono; [|by eapply H2].
  cbn beta. intros b e2 He2. eapply effect_trans; [done|]. by rewrite <- Hv.
Qed.

(** ** The functions of a session *)
Lemma report_effect id r p e : mPeers e !! id = Some p ->
  wp (report id r) (fun _ e' => effect id (viewOf p) (reportView (viewOf p)) (reportEvents id (viewOf p) r) [] e e') e.
Proof.
  intros Hp. unfold report. eapply wp_bind, wp_deref; [done|]. unfold reportView, reportEvents. cbn [viewOf vAnnounced vReported].
  destruct (announced p) eqn:Ea; cbn [negb andb].
  - rewrite <- (app_nil_l (if negb (reported p) then _ else _)), <- (app_nil_l (@nil action)).
    eapply wp_seq; [by apply setPeer_effect|]. intros _ e1 p1 _ Hp1 Hv. cbn beta.
    change ((viewOf p) <| vReported := true |>) with (viewOf (p <| reported := true |>)). rewrite <- Hv. apply wp_when; intros ->.
    + by apply emit_effect.
    + eapply effect_none; try done; [by rewrite app_nil_r|constructor].
  - apply wp_ret. eapply effect_none; try done; [by rewrite app_nil_r|constructor].
Qed.

Lemma queueControl_effect id t b p e : mPeers e !! id = Some p ->
  wp (queueControl id t b) (fun _ e' => effect id (viewOf p) (viewOf p) [] [] e e') e.
Proof. intros Hp. by apply (setPeer_effect id p). Qed.

Definition closeOps (id : PeerId) (v : View) : list action := if vEnded v then [] else [Close id].

Lemma end_effect id p e : mPeers e !! id = Some p ->
  wp (end_ id) (fun _ e' => effect id (viewOf p) ((viewOf p) <| vEnded := true |>) [] (closeOps id (viewOf p)) e e') e.
Proof.
  intros Hp. unfold end_. eapply wp_bind, wp_deref; [done|]. eapply wp_bind, wp_setPeer; [done|]. unfold closeOps. cbn [viewOf vEnded].
  apply wp_when; intros Ee.
  - apply negb_true_iff in Ee. rewrite Ee. apply wp_bind. eapply wp_mailbox; [done|]. intros e' (wk & b & m & i & -> & Ht).
    apply wp_modify. split.
    + exists p, (p <| ended := true |>). by split_and!.
    + cbn. by rewrite app_nil_r.
    + cbn. by apply (th_own _ [] m (Close id)).
    + cbn. set_solver.
    + intros _. right. cbn. set_solver.
    + done.
  - apply negb_false_iff in Ee. rewrite Ee. split.
    + exists p, (p <| ended := true |>). by split_and!.
    + cbn. by rewrite app_nil_r.
    + constructor.
    + done.
    + by left.
    + done.
Qed.

Lemma closed_stays e id : (entryOf (mMailbox e) id).1 = false ->
  forall m, threads (mMailbox e) [] m -> allowed (Open id) m.
Proof.
  intros H m Ht. cbn. pose proof (threads_entry _ _ _ id Ht) as [E|[E _]].
  - destruct (Box.mPeers m !! id) eqn:Em; [|done]. unfold entryOf in E. cbn in E. injection E as E _.
    rewrite Em, bool_decide_true in E by (by eexists). unfold entryOf in H. cbn in H. congruence.
  - cbn in E. unfold entryOf in H. cbn in H. congruence.
Qed.

Definition connectedView (v : View) : View := v <| vState := InSession |> <| vAnnounced := true |> <| vUntil := None |>.

Lemma setConnected_effect id p e : mPeers e !! id = Some p -> (entryOf (mMailbox e) id).1 = false ->
  wp (setConnected id) (fun _ e' => exists i, effect id (viewOf p) (connectedView (viewOf p)) [Connected id i] [Open id] e e') e.
Proof.
  intros Hp Hc. unfold setConnected. eapply wp_then; [by apply (setPeer_effect id p)|]. intros _ e1 p1 He1 Hp1 Hv1.
  eapply wp_then; [eapply (mailbox_effect_ id p1 _ (Open id)); [done..|]|].
  { apply closed_stays. destruct He1 as [_ _ Hb _ _ _]. pose proof (threads_entry _ _ _ id Hb) as [E|[E _]].
    - unfold entryRun in E. cbn in E. by rewrite E.
    - cbn in E. unfold entryOf in Hc. cbn in Hc. congruence. }
  intros _ e2 p2 He2 Hp2 Hv2. eapply wp_bind, wp_deref; [done|]. eapply wp_mono; [|by eapply (emit_effect id p2)]. cbn beta.
  intros _ e3 He3. exists (peerInfo p2). rewrite Hv2 in He3. rewrite Hv1 in He2, He3.
  pose proof (effect_trans _ _ _ _ _ _ _ _ _ _ _ He1 (effect_trans _ _ _ _ _ _ _ _ _ _ _ He2 He3)) as H.
  exact H.
Qed.

Lemma sendAccept_effect id p e : mPeers e !! id = Some p ->
  wp (sendAccept id) (fun _ e' => effect id (viewOf p)
    ((viewOf p) <| vState := Connecting |> <| vAcceptSent := true |> <| vUntil := None |>) [] [PublishSession id Box.Pending] e e') e.
Proof.
  intros Hp. unfold sendAccept. apply wp_bind, wp_gets.
  change [PublishSession id Box.Pending] with ([] ++ [] ++ [PublishSession id Box.Pending] ++ []).
  change (@nil EngineEvent) with (@nil EngineEvent ++ [] ++ [] ++ []).
  eapply wp_seq; [by apply queueControl_effect|]. intros _ e1 p1 _ Hp1 Hv1. rewrite <- Hv1.
  eapply wp_seq; [by apply (setPeer_effect id p1)|]. intros _ e2 p2 _ Hp2 Hv2.
  change ((viewOf p1) <| vState := Connecting |> <| vAcceptSent := true |> <| vUntil := None |>) with
    (viewOf (p1 <| state := Connecting |> <| acceptSent := true |> <| stateDeadline := None |>)). rewrite <- Hv2.
  eapply wp_seq; [by apply (mailbox_effect_ id p2 _ (PublishSession id Box.Pending))|]. intros _ e3 p3 _ Hp3 Hv3. rewrite <- Hv3.
  by apply touch_effect.
Qed.

Definition closedView (v : View) (until : option TimePoint) : View :=
  v <| vState := Closing |> <| vCloseSent := true |> <| vUntil := until |>.

Lemma sendDecline_effect id now p e : mPeers e !! id = Some p ->
  wp (sendDecline id now) (fun _ e' => effect id (viewOf p)
    (closedView (reportView (viewOf p)) (Some (now + CloseLinger))) (reportEvents id (viewOf p) ByLocal) [Close id] e e') e.
Proof.
  intros Hp. unfold sendDecline.
  change [Close id] with ([] ++ [] ++ [] ++ [Close id] ++ []). rewrite <- (app_nil_r (reportEvents _ _ _)).
  change (reportEvents id (viewOf p) ByLocal ++ []) with ([] ++ reportEvents id (viewOf p) ByLocal ++ [] ++ [] ++ []).
  eapply wp_seq; [by apply queueControl_effect|]. intros _ e1 p1 _ Hp1 Hv1. rewrite <- Hv1.
  eapply wp_seq; [by apply report_effect|]. intros _ e2 p2 _ Hp2 Hv2. rewrite <- Hv2.
  eapply wp_seq; [by apply (setPeer_effect id p2)|]. intros _ e3 p3 _ Hp3 Hv3.
  change (closedView (viewOf p2) (Some (now + CloseLinger))) with
    (viewOf (p2 <| state := Closing |> <| closeSent := true |> <| stateDeadline := Some (now + CloseLinger) |>)). rewrite <- Hv3.
  eapply wp_seq; [by apply (mailbox_effect_ id p3 _ (Close id))|]. intros _ e4 p4 _ Hp4 Hv4. rewrite <- Hv4.
  by apply touch_effect.
Qed.

(** A remote that never answered is not told. *)
Lemma sendClose_effect id now p e : mPeers e !! id = Some p ->
  wp (sendClose id now) (fun _ e' =>
    effect id (viewOf p) (closedView (viewOf p) (Some (now + CloseLinger))) [] [Close id] e e' \/
    effect id (viewOf p) ((viewOf p) <| vEnded := true |>) [] ([Close id] ++ closeOps id (viewOf p)) e e') e.
Proof.
  intros Hp. unfold sendClose. eapply wp_then; [by apply (mailbox_effect_ id p _ (Close id))|]. intros _ e1 p1 He1 Hp1 Hv1.
  eapply wp_bind, wp_deref; [done|]. rewrite <- Hv1 in *. case_bool_decide as Hr.
  - eapply wp_mono; [|by apply end_effect]. cbn beta. intros _ e2 He2. right. by apply (effect_trans _ _ _ _ _ _ _ _ _ _ _ He1 He2).
  - eapply wp_then; [by apply queueControl_effect|]. intros _ e2 p2 He2 Hp2 Hv2. rewrite <- Hv2 in *.
    eapply wp_then; [by apply (setPeer_effect id p2)|]. intros _ e3 p3 He3 Hp3 Hv3.
    eapply wp_mono; [|by apply touch_effect]. cbn beta. intros _ e4 He4. left. rewrite Hv3 in He4.
    pose proof (effect_trans _ _ _ _ _ _ _ _ _ _ _ He1 (effect_trans _ _ _ _ _ _ _ _ _ _ _ He2 (effect_trans _ _ _ _ _ _ _ _ _ _ _ He3 He4))) as H.
    cbn [app] in H. exact H.
Qed.
End Effects.
