(* ===== verification/EngineInvariant.v ===== *)
(** * The invariant of the engine

    The sessions of the engine are those of the specification; the tables that go with
    them, the queues of the mailbox and the rings of the scheduler among them, agree with
    the peers. *)
From Stdlib Require Import QArith.
From S2P Require Import Prelude Constants IPv4Address PacketFlags PacketHeader OrderedMap SendScheduler ReliableLink ControlMessage Discovery.
From S2P Require Import Mailbox MailboxRuns Engine SessionSpec LinkIdentity EngineSessions EngineStep EngineLogic EngineEffects.
From stdpp Require Import relations.
Import Engine Sessions.
#[local] Open Scope Z_scope.

(** The engine as its specification sees it, after the events of [hist]. *)
Definition absOf (hist : list EngineEvent) (e : NetworkEngine) : Abs :=
  mkAbs (viewOf <$> mPeers e) (dom (mKnown (mDiscovery e))) (hist ++ mEvents e).

(** What the mailbox says of a session, by its stage. *)
Definition entry_fits (v : View) (s : bool * option Box.Session) : Prop :=
  s.1 = vTransfers v && negb (vEnded v) /\
  (vEnded v = false ->
   if vCloseSent v then s.2 = None
   else
     match vState v with
     | Connecting => s.2 = Some Box.Pending
     | AwaitingDecision => s.2 = Some Box.Requested
     | InSession | Closing => s.2 = Some Box.Connected \/ s.2 = Some Box.Pending
     end).

(** [skip]: a peer that was just added, of which the mailbox does not know yet. *)
Record conc_ok (skip : option PeerId) (cfg : EngineConfig) (peers : gmap PeerId Peer) (streams : gmap Z PeerId)
    (gone : list PeerId) (box : Box.Mailbox) (disc : DiscoveryLogic) (socket : option SocketAddress)
    (sched : Sched.SendScheduler) : Prop := {
  co_id : forall id p, peers !! id = Some p -> infoId (peerInfo p) = id;
  co_streams : forall s id, streams !! s = Some id <-> exists p, peers !! id = Some p /\ Link.mLocalStreamID (link p) = s;
  co_gone : forall id p, peers !! id = Some p -> ended p = true -> id ∈ gone;
  co_entry : forall id, match peers !! id with
    | Some p => if decide (skip = Some id) then (entryOf box id).1 = false /\ viewOf p = freshView
                else entry_fits (viewOf p) (entryOf box id)
    | None => entryOf box id = (false, None)
    end;
  co_run : in_run (cfgSendQueueBytes cfg) box;
  co_disc : discovery_ok disc;
  co_socket : socket = None -> peers = ∅ /\ mKnown disc = ∅;
  co_sched : Sched.scheduler_ok sched;
  co_rate : Sched.mRate sched = cfgMaxSendRate cfg;
  co_rings : forall l id, id ∈ Sched.peers (Sched.mRings sched l) <->
    exists p, peers !! id = Some p /\ Z.testbit (scheduled p) (lane_to_Z l) = true;
}.

Definition Inv (skip : option PeerId) (hist : list EngineEvent) (e : NetworkEngine) : Prop :=
  reached (absOf hist e) /\
  conc_ok skip (mConfig e) (mPeers e) (mByStream e) (mEnded e) (mMailbox e) (mDiscovery e) (mIoSocket e) (mScheduler e).

Lemma Inv_abs skip hist e : Inv skip hist e -> abs_ok (absOf hist e).
Proof. intros [H _]. by apply reached_ok. Qed.

(** The stage of a peer is one of those the specification allows. *)
Lemma Inv_view skip hist e id p : Inv skip hist e -> mPeers e !! id = Some p -> exists ph, view_ok ph (viewOf p).
Proof.
  intros HI Hp. destruct (ao_told _ (Inv_abs _ _ _ HI) id) as (t & _ & _ & Hs). cbn in Hs.
  rewrite lookup_fmap, Hp in Hs. by exists (tPhase t).
Qed.

(** ** Entries *)
Lemma fits_sealed v s s' : (vCloseSent v = true -> vState v = Closing) ->
  entry_fits v s -> sealed_or s s' -> entry_fits v s'.
Proof.
  intros Hc [H1 H2] [->|[E ->]]; [done|]. rewrite E in H1. symmetry in H1. apply andb_true_iff in H1 as [Ht He].
  split; cbn; [by rewrite Ht, He|]. intros _. unfold vTransfers in Ht.
  destruct (vCloseSent v); [by rewrite (Hc eq_refl) in Ht|]. destruct (vState v); try (by vm_compute in Ht); by right.
Qed.

Lemma entryRun_app id ops ops' s : entryRun id (ops ++ ops') s = entryRun id ops' (entryRun id ops s).
Proof. unfold entryRun. by rewrite fold_left_app. Qed.

(** What the operations of one handler come to, for its own peer and for the others. *)
Definition own_ops (id : PeerId) (ops : list action) : Prop := forall x s, x <> id -> entryRun x ops s = s.

Lemma own_ops_nil id : own_ops id [].
Proof. done. Qed.
Lemma own_ops_cons id a ops : (forall x s, x <> id -> entryAfter x a s = s) -> own_ops id ops -> own_ops id (a :: ops).
Proof. intros Ha Ho x s Hx. unfold entryRun. cbn [fold_left]. rewrite Ha by done. by apply Ho. Qed.
Lemma own_close id : own_ops id [Close id].
Proof. apply own_ops_cons; [|done]. intros x s Hx. cbn. by destruct (Z.eqb_spec id x). Qed.
Lemma own_open id : own_ops id [Open id].
Proof. apply own_ops_cons; [|done]. intros x s Hx. cbn. by destruct (Z.eqb_spec id x). Qed.
Lemma own_publish id p : own_ops id [PublishSession id p].
Proof. apply own_ops_cons; [|done]. intros x s Hx. cbn. by destruct (Z.eqb_spec id x). Qed.
Lemma own_other id a : (forall x s, entryAfter x a s = s) -> own_ops id [a].
Proof. intros H. apply own_ops_cons; [|done]. intros x s _. by rewrite H. Qed.
Lemma own_app id ops ops' : own_ops id ops -> own_ops id ops' -> own_ops id (ops ++ ops').
Proof. intros H1 H2 x s Hx. by rewrite entryRun_app, H1, H2. Qed.
#[export] Hint Resolve own_ops_nil own_close own_open own_publish own_app : netlink.

(** ** One session changes *)
Section Change.
Context (hist : list EngineEvent).

(** The entries of the others, and what does not change with a session. *)
Lemma conc_change skip e e' id v v' evs ops :
  conc_ok skip (mConfig e) (mPeers e) (mByStream e) (mEnded e) (mMailbox e) (mDiscovery e) (mIoSocket e) (mScheduler e) ->
  abs_ok (absOf hist e) -> (skip = None \/ skip = Some id) -> effect id v v' evs ops e e' -> own_ops id ops ->
  (forall s s', (if decide (skip = Some id) then s.1 = false /\ v = freshView else entry_fits v s) ->
     sealed_or (entryRun id ops s) s' -> entry_fits v' s') ->
  conc_ok None (mConfig e') (mPeers e') (mByStream e') (mEnded e') (mMailbox e') (mDiscovery e') (mIoSocket e') (mScheduler e').
Proof.
  intros [Hid Hst Hgo Hen Hru Hdi Hso Hsc Hra Hri] Hab Hskip [(p & p' & Hp & Ep & Hv & Hv' & [S1 S2 S3]) Hev Hbx Hsub Hend [R1 R2 R3 R4 R5 R6 R7]] Hown Hfit.
  rewrite R1, R3, R4, R5, R6, Ep. split; try done.
  - intros x q [[<- <-]|[Hne Hq]]%lookup_insert_Some; [rewrite S1|]; by apply Hid.
  - intros s x. rewrite Hst. destruct (decide (x = id)) as [->|Hne].
    + rewrite lookup_insert_eq. split.
      * intros (q & Hq & Es). rewrite Hp in Hq. injection Hq as <-. exists p'. by rewrite S2.
      * intros (q & [= <-] & Es). exists p. by rewrite <- S2.
    + by rewrite lookup_insert_ne by done.
  - intros x q [[<- <-]|[Hne Hq]]%lookup_insert_Some.
    + intros E. destruct Hend as [E'|]; [by rewrite <- Hv'| |done]. apply Hsub, (Hgo id p Hp). by rewrite <- Hv in E'.
    + intros E. by apply Hsub, (Hgo x q Hq).
  - intros x. pose proof (threads_entry _ _ _ x Hbx) as Hte. specialize (Hen x).
    destruct (decide (x = id)) as [->|Hne].
    + rewrite lookup_insert_eq, Hv', decide_False by done. rewrite Hp, Hv in Hen. by apply (Hfit (entryOf (mMailbox e) id)).
    + rewrite lookup_insert_ne by done. rewrite (Hown x _ Hne) in Hte. destruct (mPeers e !! x) as [q|] eqn:Eq.
      * rewrite decide_False in Hen by (destruct Hskip as [-> | ->]; congruence). rewrite decide_False by done.
        eapply fits_sealed; [|exact Hen|exact Hte]. destruct (ao_told _ Hab x) as (t & _ & _ & Hs). cbn in Hs.
        rewrite lookup_fmap, Eq in Hs. intros E. by destruct (vo_close _ _ Hs E).
      * destruct Hte as [->|[E _]]; [done|]. by rewrite Hen in E.
  - by eapply threads_run.
  - intros E. destruct (Hso E) as [E0 _]. by rewrite E0, lookup_empty in Hp.
  - intros l x. rewrite Hri. destruct (decide (x = id)) as [->|Hne].
    + rewrite lookup_insert_eq, Hp. split; intros (q & [= <-] & Ht); eexists; split; try done; by rewrite S3 in *.
    + by rewrite lookup_insert_ne by done.
Qed.

Lemma absOf_change e e' id v v' evs ops : effect id v v' evs ops e e' ->
  aPeers (absOf hist e) !! id = Some v /\
  absOf hist e' = told evs ((absOf hist e) <| aPeers ::= <[id := v']> |>).
Proof.
  intros [(p & p' & Hp & Ep & Hv & Hv' & _) Hev _ _ _ Hr]. split.
  - cbn. by rewrite lookup_fmap, Hp, <- Hv.
  - unfold absOf, told. cbn. by rewrite Ep, fmap_insert, Hev, Hv', app_assoc, (sr_discovery _ _ Hr).
Qed.

Lemma Inv_step skip e e' id v v' evs ops :
  Inv skip hist e -> (skip = None \/ skip = Some id) -> effect id v v' evs ops e e' -> vstep id v v' evs -> own_ops id ops ->
  (forall s s', (if decide (skip = Some id) then s.1 = false /\ v = freshView else entry_fits v s) ->
     sealed_or (entryRun id ops s) s' -> entry_fits v' s') ->
  Inv None hist e'.
Proof.
  intros [Hre Hco] Hskip He Hs Hown Hfit. destruct (absOf_change _ _ _ _ _ _ _ He) as [Hl Ea]. split.
  - rewrite Ea. eapply rtc_r; [exact Hre|]. by eapply as_peer.
  - by eapply conc_change; [exact Hco|apply (Inv_abs skip); by split|..].
Qed.

Lemma Inv_next e e' id v v' evs ops :
  Inv None hist e -> effect id v v' evs ops e e' -> vstep id v v' evs -> own_ops id ops ->
  (forall s s', entry_fits v s -> sealed_or (entryRun id ops s) s' -> entry_fits v' s') -> Inv None hist e'.
Proof.
  intros HI He Hs Ho Hf. eapply Inv_step; [exact HI|by left|done..|]. intros s s' H. rewrite decide_False in H by done. by apply Hf.
Qed.

Lemma told_same a id v : aPeers a !! id = Some v -> told [] (a <| aPeers ::= <[id := v]> |>) = a.
Proof.
  destruct a as [P K T]. intros H. change (mkAbs (<[id := v]> P) K (T ++ []) = mkAbs P K T). by rewrite insert_id, app_nil_r.
Qed.

(** Nothing others can see. *)
Lemma Inv_quiet e e' id v ops :
  Inv None hist e -> effect id v v [] ops e e' -> own_ops id ops -> (forall s, entryRun id ops s = s) -> Inv None hist e'.
Proof.
  intros HI He Hown Hs. pose proof HI as [Hre Hco]. destruct (absOf_change _ _ _ _ _ _ _ He) as [Hl Ea]. split.
  - rewrite Ea, told_same by done. exact Hre.
  - eapply conc_change; [exact Hco|by apply (Inv_abs None)|by left|done|done|].
    intros s s'. rewrite decide_False, Hs by done. apply fits_sealed.
    destruct (ef_peer _ _ _ _ _ _ _ He) as (p & _ & Hp & _ & <- & _).
    destruct (Inv_view _ _ _ _ _ HI Hp) as (ph & Hv). intros E. by destruct (vo_close _ _ Hv E).
Qed.
End Change.

(** ** A session is removed *)
Record removal (id : PeerId) (v : View) (evs : list EngineEvent) (e e' : NetworkEngine) : Prop := {
  rm_peer : exists p, mPeers e !! id = Some p /\ viewOf p = v /\
    mByStream e' = delete (Link.mLocalStreamID (link p)) (mByStream e);
  rm_peers : mPeers e' = delete id (mPeers e);
  rm_events : mEvents e' = mEvents e ++ evs;
  rm_box : exists ops, threads (mMailbox e) ops (mMailbox e') /\ own_ops id ops /\ forall s, entryRun id ops s = (false, None);
  rm_ended : mEnded e ⊆ mEnded e';
  rm_scheduler : mScheduler e' = Sched.remove id (mScheduler e);
  rm_config : mConfig e' = mConfig e;
  rm_id : mId e' = mId e;
  rm_socket : mIoSocket e' = mIoSocket e;
  rm_discovery : mDiscovery e' = mDiscovery e;
  rm_shutdown : mShutdown e' = mShutdown e;
}.

Lemma removal_after id v v1 evs e e1 e2 :
  effect id v v1 evs [] e e1 -> removal id v1 [] e1 e2 -> removal id v evs e e2.
Proof.
  intros [(p & p1 & Hp & Ep & Hv & Hv1 & [S1 S2 S3]) He Hb Hen _ [R1 R2 R3 R4 R5 R6 R7]]
    [(q & Hq & Hvq & Es) Hps Hev (ops & Ht & Ho & Hc) Hen2 Hsc Hcf Hi Hsk Hd Hsh].
  rewrite Ep, lookup_insert_eq in Hq. injection Hq as <-. split; try congruence.
  - exists p. split_and!; try done. by rewrite Es, S2, R5.
  - by rewrite Hps, Ep, delete_insert_eq.
  - by rewrite Hev, He, app_nil_r.
  - exists ops. split_and!; try done. by apply (threads_trans _ [] _ ops _ Hb).
  - by etrans.
Qed.

Lemma remove_ring l id x s : Sched.scheduler_ok s ->
  x ∈ Sched.peers (Sched.mRings (Sched.remove id s) l) <-> x <> id /\ x ∈ Sched.peers (Sched.mRings s l).
Proof.
  intros Hs. cbn. destruct (Sched.removeFrom_spec id _ (Sched.ok_rings _ Hs l)) as (_ & Hn & Hi & _). split.
  - intros Hx. assert (Hne : x <> id) by (by intros ->). split; [done|]. unfold Sched.removeFrom in Hx.
    destruct (list_find _ _) as [[i y]|]; [|done]. cbn in Hx. by eapply elem_of_submseteq; [exact Hx|]; apply sublist_submseteq, sublist_delete.
  - intros [Hne Hx]. by apply Hi.
Qed.

Lemma conc_remove e e' id v evs :
  conc_ok None (mConfig e) (mPeers e) (mByStream e) (mEnded e) (mMailbox e) (mDiscovery e) (mIoSocket e) (mScheduler e) ->
  (forall x p, mPeers e !! x = Some p -> closeSent p = true -> state p = Closing) -> removal id v evs e e' ->
  conc_ok None (mConfig e') (mPeers e') (mByStream e') (mEnded e') (mMailbox e') (mDiscovery e') (mIoSocket e') (mScheduler e').
Proof.
  intros [Hid Hst Hgo Hen Hru Hdi Hso Hsc Hra Hri] Hcl
    [(p & Hp & Hv & Es) Hps Hev (ops & Ht & Ho & Hc) Hen2 Esc Hcf Hi Hsk Hd Hsh].
  rewrite Hcf, Hsk, Hd, Hps, Es, Esc. split; try done.
  - intros x q [_ Hq]%lookup_delete_Some. by apply Hid.
  - intros s x. rewrite lookup_delete_Some, Hst. split.
    + intros (Hs & q & Hq & E). exists q. rewrite lookup_delete_Some. split; [|done]. split; [|done]. intros <-.
      rewrite Hp in Hq. injection Hq as <-. done.
    + intros (q & [Hne Hq]%lookup_delete_Some & E). split; [|by exists q]. intros Heq. apply Hne.
      assert (H1 : mByStream e !! s = Some id) by (apply Hst; by exists p).
      assert (H2 : mByStream e !! s = Some x) by (apply Hst; by exists q). congruence.
  - intros x q [_ Hq]%lookup_delete_Some E. by apply Hen2, (Hgo x q).
  - intros x. pose proof (threads_entry _ _ _ x Ht) as Hte. specialize (Hen x). destruct (decide (x = id)) as [->|Hne].
    + rewrite lookup_delete_eq. rewrite Hc in Hte. by destruct Hte as [-> |[? _]].
    + rewrite lookup_delete_ne by done. rewrite (Ho x _ Hne) in Hte. destruct (mPeers e !! x) as [q|] eqn:Eq.
      * rewrite decide_False in * by done. eapply fits_sealed; [|exact Hen|exact Hte]. cbn. by apply (Hcl x).
      * destruct Hte as [->|[E _]]; [done|]. by rewrite Hen in E.
  - by eapply threads_run.
  - intros E. destruct (Hso E) as [-> ?]. by rewrite delete_empty.
  - by apply Sched.remove_ok.
  - intros l x. rewrite remove_ring, Hri by done. split.
    + intros (Hne & q & Hq & E). exists q. by rewrite lookup_delete_ne.
    + intros (q & [Hne Hq]%lookup_delete_Some & E). split; [done|by exists q].
Qed.

Lemma Inv_closing skip hist e : Inv skip hist e -> forall x p, mPeers e !! x = Some p -> closeSent p = true -> state p = Closing.
Proof. intros HI x p Hp. destruct (Inv_view _ _ _ _ _ HI Hp) as (ph & Hv). intros E. by destruct (vo_close _ _ Hv E). Qed.

Lemma Inv_remove hist e e' id v evs :
  Inv None hist e -> removal id v evs e e' ->
  ((exists r, evs = reportEvents id v r) \/
   evs = [] /\ (vState v = Connecting /\ vInitiator v = true \/ vCloseSent v = true \/ vEnded v = true)) ->
  Inv None hist e'.
Proof.
  intros HI Hr Hevs. pose proof HI as [Hre Hco]. split; [|eapply conc_remove; [exact Hco|by eapply Inv_closing|done]].
  destruct Hr as [(p & Hp & Hv & _) Hps Hev _ _ _ _ _ _ Hd _].
  assert (Hl : aPeers (absOf hist e) !! id = Some v) by (cbn; by rewrite lookup_fmap, Hp, <- Hv).
  assert (Ea : absOf hist e' = told evs ((absOf hist e) <| aPeers ::= delete id |>)).
  { unfold absOf, told. cbn. by rewrite Hps, fmap_delete, Hev, Hd, app_assoc. }
  rewrite Ea. eapply rtc_r; [exact Hre|]. destruct Hevs as [[r ->]|[-> Hg]]; [by eapply as_remove|].
  replace (told [] ((absOf hist e) <| aPeers ::= delete id |>)) with ((absOf hist e) <| aPeers ::= delete id |>).
  - by eapply as_drop.
  - destruct (absOf hist e) as [P K T]. change (mkAbs (delete id P) K T = mkAbs (delete id P) K (T ++ [])). by rewrite app_nil_r.
Qed.

(** ** The application is told something, no session changes *)
Definition untouched (e e' : NetworkEngine) : Prop :=
  mPeers e' = mPeers e /\ mEnded e' = mEnded e /\ mMailbox e' = mMailbox e /\ mByStream e' = mByStream e /\
  mConfig e' = mConfig e /\ mIoSocket e' = mIoSocket e /\ mScheduler e' = mScheduler e.

Lemma Inv_told hist e e' evs :
  Inv None hist e -> untouched e e' -> mEvents e' = mEvents e ++ evs -> discovery_ok (mDiscovery e') ->
  (mIoSocket e = None -> mKnown (mDiscovery e') = ∅) ->
  (evs = [] /\ dom (mKnown (mDiscovery e')) = dom (mKnown (mDiscovery e)) \/
   astep (absOf hist e) (mkAbs (viewOf <$> mPeers e) (dom (mKnown (mDiscovery e'))) (hist ++ mEvents e ++ evs))) ->
  Inv None hist e'.
Proof.
  intros [Hre Hco] (Ep & Een & Em & Es & Ec & Ei & Esc) Ev Hd Hk Hs. split.
  - unfold absOf. rewrite Ep, Ev. destruct Hs as [[-> ->]|Hs]; [by rewrite app_nil_r|]. by eapply rtc_r.
  - rewrite Ep, Een, Em, Es, Ec, Ei, Esc. destruct Hco. split; try done. intros E. split; [|by apply Hk]. by apply co_socket0.
Qed.

(** ** A peer is added *)
Lemma draw_spec {W} `{!World W} fuel `{!WorldOk W fuel} used : forall n (w w' : W) s,
  draw n used w = Some (s, w') -> used s = false /\ 1 <= s < 2 ^ 32.
Proof.
  induction n as [|n IH]; intros w w' s; cbn [draw]; pose proof (wo_draw w) as Hd; destruct (drawStreamID w) as [x w1]; cbn in Hd;
    destruct (used x) eqn:E; try done; [intros [= <- <-]; done|apply IH|intros [= <- <-]; done].
Qed.

Lemma draw_ext {W} `{!World W} f g : (forall s, f s = g s) -> forall n (w : W), draw n f w = draw n g w.
Proof.
  intros H. induction n as [|n IH]; intros w; cbn [draw]; destruct (drawStreamID w) as [x w1]; rewrite H; [done|].
  destruct (g x); [apply IH|done].
Qed.

Lemma streams_size skip cfg peers streams gone box disc socket sched :
  conc_ok skip cfg peers streams gone box disc socket sched -> (size streams <= size peers)%nat.
Proof.
  intros Hc. rewrite <- (length_map_to_list streams), <- (length_map_to_list peers).
  rewrite <- (length_fmap snd (map_to_list streams)), <- (length_fmap fst (map_to_list peers)).
  apply submseteq_length, NoDup_submseteq.
  - apply NoDup_fmap_2_strong; [|apply NoDup_map_to_list]. intros [s1 x1] [s2 x2] H1 H2 E. cbn in E. subst x2.
    apply elem_of_map_to_list in H1, H2. apply (co_streams _ _ _ _ _ _ _ _ _ Hc) in H1 as (p1 & Hp1 & <-), H2 as (p2 & Hp2 & <-).
    rewrite Hp1 in Hp2. by injection Hp2 as ->.
  - intros x ([s y] & -> & H)%list_elem_of_fmap. apply elem_of_map_to_list in H.
    apply (co_streams _ _ _ _ _ _ _ _ _ Hc) in H as (p & Hp & _). apply list_elem_of_fmap. exists (y, p). split; [done|].
    by apply elem_of_map_to_list.
Qed.
