(* ===== verification/EngineRefines.v ===== *)
(** * The handlers keep the invariant

    Each function of the engine that touches sessions does what the specification allows,
    and leaves every table in order. *)
From Stdlib Require Import QArith.
From S2P Require Import Prelude Constants IPv4Address PacketFlags PacketHeader OrderedMap SendScheduler ReliableLink ControlMessage Discovery.
From S2P Require Import Mailbox MailboxRuns Engine SessionSpec LinkIdentity EngineSessions EngineStep EngineLogic EngineEffects EngineInvariant.
From stdpp Require Import relations.
Import Engine Sessions.
#[local] Open Scope Z_scope.

(** ** Entries after the operations of the handlers *)
Lemma entry_closed id v u s s' : sealed_or (entryRun id [Close id] s) s' -> entry_fits (closedView v u) s'.
Proof.
  unfold entryRun. cbn. rewrite Z.eqb_refl. intros [->|[? _]]; [|done]. split; cbn; [|done]. unfold vTransfers. cbn.
  by rewrite !bool_decide_false by done.
Qed.

Lemma entry_ended v s : s.1 = false -> entry_fits (v <| vEnded := true |>) s.
Proof. intros H. split; [|done]. cbn. by rewrite H, andb_false_r. Qed.

Lemma entry_end id v s s' : entry_fits v s -> sealed_or (entryRun id (closeOps id v) s) s' ->
  entry_fits ((reportView v) <| vEnded := true |>) s'.
Proof.
  intros [H1 _] Hs. apply entry_ended. unfold closeOps in Hs. destruct (vEnded v) eqn:E.
  - rewrite andb_false_r in H1. destruct Hs as [->|[Ho _]]; [done|]. unfold entryRun in Ho. cbn in Ho. congruence.
  - unfold entryRun in Hs. cbn in Hs. rewrite Z.eqb_refl in Hs. by destruct Hs as [->|[? _]].
Qed.

Lemma entry_end_closed id v v' s s' : sealed_or (entryRun id ([Close id] ++ closeOps id v) s) s' ->
  entry_fits (v' <| vEnded := true |>) s'.
Proof.
  intros Hs. apply entry_ended. unfold closeOps, entryRun in Hs. destruct (vEnded v); cbn in Hs; rewrite !Z.eqb_refl in Hs;
    by destruct Hs as [->|[? _]].
Qed.

Lemma own_closeOps id v : own_ops id (closeOps id v).
Proof. unfold closeOps. destruct (vEnded v); auto with netlink. Qed.
#[export] Hint Resolve own_closeOps : netlink.

(** What of an engine stays when a session changes. *)
Record steady (e e' : NetworkEngine) : Prop := {
  st_socket : mIoSocket e' = mIoSocket e;
  st_config : mConfig e' = mConfig e;
  st_id : mId e' = mId e;
  st_discovery : mDiscovery e' = mDiscovery e;
  st_shutdown : mShutdown e' = mShutdown e;
}.
#[export] Instance steady_preorder : PreOrder steady.
Proof. split; [done|]. intros e1 e2 e3 [] []. split; congruence. Qed.

Lemma effect_steady id v v' evs ops e e' : effect id v v' evs ops e e' -> steady e e'.
Proof. intros [_ _ _ _ _ []]. by split. Qed.
Lemma removal_steady id v evs e e' : removal id v evs e e' -> steady e e'.
Proof. intros []. by split. Qed.

Section Refines.
Context {W : Type} `{!World W} (fuel : nat) `{!WorldOk W fuel} (stuck : Prop) (hist : list EngineEvent).
Abbreviation wp := (wp (W := W) stuck).
Abbreviation Inv := (Inv None hist).

Definition good (e : NetworkEngine) {A} (_ : A) (e' : NetworkEngine) : Prop := Inv e' /\ steady e e'.

Lemma good_refl {A} e (a : A) : Inv e -> good e a e.
Proof. by split. Qed.
Lemma good_trans {A B} e e1 e2 (a : A) (b : B) : good e a e1 -> good e1 b e2 -> good e b e2.
Proof. intros [_ H1] [H2 H3]. split; [done|by etrans]. Qed.

Lemma wp_good_then {A B} (m : Engine.M W A) (f : A -> Engine.M W B) e :
  wp m (good e) e -> (forall a e1, good e a e1 -> wp (f a) (good e1) e1) -> wp (mbind f m) (good e) e.
Proof.
  intros H1 H2. apply wp_bind. eapply wp_mono; [|exact H1]. cbn beta. intros a e1 G. eapply wp_mono; [|by apply H2].
  intros b e2. by eapply good_trans.
Qed.

(** ... and the peer is still there. *)
Definition goodAt (id : PeerId) (e : NetworkEngine) {A} (a : A) (e' : NetworkEngine) : Prop :=
  good e a e' /\ is_Some (mPeers e' !! id).
Lemma wp_goodAt {A} id (m : Engine.M W A) e : wp m (goodAt id e) e -> wp m (good e) e.
Proof. apply wp_mono. by intros a e' []. Qed.
Lemma goodAt_effect {A} id v v' evs ops e (a : A) e' : effect id v v' evs ops e e' -> Inv e' -> goodAt id e a e'.
Proof.
  intros He HI. split; [split; [done|by eapply effect_steady]|]. destruct (effect_lookup _ _ _ _ _ _ _ He) as (p & Hp & _). by eexists.
Qed.

(** *** The steps of a session *)
Lemma good_step {A} id v v' evs ops (m : Engine.M W A) e :
  Inv e -> wp m (fun _ e' => effect id v v' evs ops e e') e -> vstep id v v' evs -> own_ops id ops ->
  (forall s s', entry_fits v s -> sealed_or (entryRun id ops s) s' -> entry_fits v' s') -> wp m (goodAt id e) e.
Proof.
  intros HI Hm Hs Ho Hf. eapply wp_mono; [|exact Hm]. cbn beta. intros a e' He.
  eapply goodAt_effect; [done|]. by eapply Inv_next.
Qed.

Lemma good_quiet {A} id v ops (m : Engine.M W A) e :
  Inv e -> wp m (fun _ e' => effect id v v [] ops e e') e -> own_ops id ops -> (forall s, entryRun id ops s = s) -> wp m (goodAt id e) e.
Proof.
  intros HI Hm Ho Hs. eapply wp_mono; [|exact Hm]. cbn beta. intros a e' He.
  eapply goodAt_effect; [done|]. by eapply Inv_quiet.
Qed.

Lemma sendAccept_ok id p e : Inv e -> mPeers e !! id = Some p ->
  state p = AwaitingDecision \/ state p = Connecting /\ initiator p = false -> wp (sendAccept id) (goodAt id e) e.
Proof.
  intros HI Hp Es. eapply good_step; [done|by eapply sendAccept_effect|by apply vs_accept|auto with netlink|].
  assert (Hs : state p <> InSession /\ state p <> Closing) by (destruct Es as [->|[-> _]]; done).
  intros s s' [F1 F2]. unfold entryRun. cbn. rewrite Z.eqb_refl. unfold vTransfers in F1. cbn in F1.
  rewrite !bool_decide_false in F1 by apply Hs. intros [->|[E _]]; cbn in *; [|congruence]. split; cbn.
  - unfold vTransfers. cbn. by rewrite !bool_decide_false by done.
  - intros _. destruct (closeSent p) eqn:Ec; [|done]. pose proof (Inv_closing _ _ _ HI _ _ Hp Ec). by destruct Hs.
Qed.

Lemma sendDecline_ok id now p e : Inv e -> mPeers e !! id = Some p -> wp (sendDecline id now) (goodAt id e) e.
Proof.
  intros HI Hp. eapply good_step; [done|by eapply sendDecline_effect|apply vs_close|auto with netlink|].
  intros s s' _. apply entry_closed.
Qed.

(** The session is reported and closed or ended, whichever it comes to. *)
Lemma report_close_ok id r now p e : Inv e -> mPeers e !! id = Some p ->
  wp (report id r;; sendClose id now) (goodAt id e) e.
Proof.
  intros HI Hp. eapply wp_then; [by eapply report_effect|]. intros [] e1 p1 He1 Hp1 Hv1.
  eapply wp_mono; [|by eapply sendClose_effect]. cbn beta. intros ? e2 He2. rewrite Hv1 in He2.
  destruct He2 as [He2|He2]; pose proof (effect_trans _ _ _ _ _ _ _ _ _ _ _ He1 He2) as He; rewrite app_nil_r in He;
    (eapply goodAt_effect; [exact He|]).
  - eapply Inv_next; [exact HI|exact He|apply vs_close|auto with netlink|]. intros s s' _. apply entry_closed.
  - eapply Inv_next; [exact HI|exact He|apply vs_end|apply (own_app id [Close id]); auto with netlink|].
    intros s s' _. apply (entry_end_closed id (reportView (viewOf p))).
Qed.

Lemma report_end_ok id r p e : Inv e -> mPeers e !! id = Some p -> wp (report id r;; end_ id) (goodAt id e) e.
Proof.
  intros HI Hp. eapply wp_then; [by eapply report_effect|]. intros [] e1 p1 He1 Hp1 Hv1.
  eapply wp_mono; [|by eapply end_effect]. cbn beta. intros ? e2 He2. rewrite Hv1 in He2.
  pose proof (effect_trans _ _ _ _ _ _ _ _ _ _ _ He1 He2) as He; rewrite app_nil_r in He. eapply goodAt_effect; [exact He|].
  eapply Inv_next; [exact HI|exact He|apply vs_end|auto with netlink|].
  intros s s' Hf Hs. eapply entry_end; [exact Hf|]. unfold closeOps in *.
  unfold reportView in Hs. by destruct (vAnnounced (viewOf p)).
Qed.

Lemma setConnected_ok id p e : Inv e -> mPeers e !! id = Some p -> state p = Connecting -> ended p = false ->
  wp (setConnected id) (goodAt id e) e.
Proof.
  intros HI Hp Es Ee. pose proof HI as [_ Hco]. pose proof (co_entry _ _ _ _ _ _ _ _ _ Hco id) as Hen. rewrite Hp, decide_False in Hen by done.
  assert (Hc : closeSent p = false).
  { destruct (closeSent p) eqn:Ec; [|done]. pose proof (Inv_closing _ _ _ HI _ _ Hp Ec). congruence. }
  eapply wp_mono; [|eapply (setConnected_effect fuel); [exact Hp|]].
  - cbn beta. intros ? e' [i He]. eapply goodAt_effect; [exact He|].
    eapply Inv_next; [exact HI|exact He|by apply vs_connect|auto with netlink|]. intros s s' _.
    unfold entryRun. cbn. rewrite Z.eqb_refl. intros [->|[_ ->]]; split; cbn; unfold vTransfers; cbn; rewrite ?Ee, ?Hc; try done; intros _; by (left + right).
  - destruct Hen as [-> _]. unfold vTransfers. cbn. rewrite Es. by rewrite !bool_decide_false by done.
Qed.

Lemma draining_ok id p until e : Inv e -> mPeers e !! id = Some p -> state p = InSession ->
  wp (setPeer id (fun p => p <| state := Closing |> <| stateDeadline := until |>)) (goodAt id e) e.
Proof.
  intros HI Hp Es. assert (Hc : closeSent p = false).
  { destruct (closeSent p) eqn:Ec; [|done]. pose proof (Inv_closing _ _ _ HI _ _ Hp Ec). congruence. }
  eapply good_step; [done|by eapply (setPeer_effect stuck id p)|by apply (vs_drain id (viewOf p) until)|auto with netlink|].
  intros s s' Hf Hs. eapply fits_sealed; [done| |exact Hs]. destruct Hf as [F1 F2]. split; cbn in *.
  - rewrite F1. unfold vTransfers. cbn. by rewrite Es, Hc.
  - intros E. specialize (F2 E). by rewrite Hc, Es in *.
Qed.

Lemma touch_ok id e : Inv e -> wp (touch id) (good e) e.
Proof. intros HI. apply wp_modify. by split. Qed.

Lemma endSession_ok id now p e : Inv e -> mPeers e !! id = Some p -> wp (endSession id now) (good e) e.
Proof.
  intros HI Hp. unfold endSession. eapply wp_bind, wp_deref; [done|]. destruct (state p) eqn:Es.
  - by eapply wp_goodAt, report_close_ok.
  - by eapply wp_goodAt, sendDecline_ok.
  - eapply wp_good_then; [by eapply wp_goodAt, draining_ok|]. intros [] e1 [G _]. by apply touch_ok.
  - apply wp_ret. by apply good_refl.
Qed.

(** *** Removing and adding *)
Lemma erase_removal id p e : mPeers e !! id = Some p -> wp (erase id) (fun _ e' => removal id (viewOf p) [] e e') e.
Proof.
  intros Hp. unfold erase. apply wp_bind, wp_find. rewrite Hp. apply wp_bind, wp_modify. apply wp_bind.
  eapply wp_mailbox; [done|]. intros e' (wk & b & m & i & -> & Ht). apply wp_bind. eapply wp_onLink; [exact Hp|]. cbn zeta.
  apply wp_modify. split; cbn; try done.
  - by exists p.
  - by rewrite delete_insert_eq.
  - by rewrite app_nil_r.
  - exists [Close id]. split_and!; [by apply (th_own _ [] m (Close id))|auto with netlink|]. intros s. unfold entryRun. cbn. by rewrite Z.eqb_refl.
Qed.

Lemma erase_ok id p e : Inv e -> mPeers e !! id = Some p ->
  state p = Connecting /\ initiator p = true \/ closeSent p = true \/ ended p = true ->
  wp (erase id) (fun _ e' => good e () e' /\ removal id (viewOf p) [] e e') e.
Proof.
  intros HI Hp Hg. eapply wp_mono; [|by eapply erase_removal]. cbn beta. intros _ e' Hr.
  split; [|done]. split; [|by eapply removal_steady]. eapply Inv_remove; [exact HI|exact Hr|]. by right.
Qed.

Lemma report_erase_ok id r p e : Inv e -> mPeers e !! id = Some p ->
  wp (report id r;; erase id) (fun _ e' => good e () e' /\ mPeers e' = delete id (mPeers e)) e.
Proof.
  intros HI Hp. eapply wp_then; [by eapply report_effect|]. intros [] e1 p1 He1 Hp1 Hv1.
  eapply wp_mono; [|by eapply erase_removal]. cbn beta. intros _ e2 Hr. rewrite Hv1 in Hr.
  pose proof (removal_after _ _ _ _ _ _ _ He1 Hr) as H. split; [|apply (rm_peers _ _ _ _ _ H)].
  split; [|by eapply removal_steady]. eapply Inv_remove; [exact HI|exact H|]. left. by exists r.
Qed.

Lemma addPeer_ok info addr now e :
  Inv e -> mPeers e !! infoId info = None -> Z.of_nat (size (mPeers e)) < MaxPeers -> mIoSocket e <> None ->
  wp (addPeer fuel info addr now) (fun id e' => id = infoId info /\ EngineInvariant.Inv (Some id) hist e' /\ steady e e' /\
    exists p, mPeers e' !! id = Some p /\ viewOf p = freshView /\ address p = addr) e.
Proof.
  intros [Hre Hco] Hn Hsz Hso. unfold addPeer. apply wp_bind, wp_gets. apply wp_bind, wp_ask. intros w.
  assert (Hd : exists s w', draw fuel (fun s => bool_decide (is_Some (mByStream e !! s))) w = Some (s, w')).
  { rewrite (draw_ext _ (fun s => bool_decide (s ∈ dom (mByStream e)))).
    - destruct (wo_fresh (dom (mByStream e)) w) as [[s w'] E]; [|by eauto]. rewrite size_dom.
      pose proof (streams_size _ _ _ _ _ _ _ _ _ Hco). lia.
    - intros s. apply bool_decide_ext. by rewrite elem_of_dom. }
  destruct Hd as (s & w' & Hd). rewrite Hd. destruct (draw_spec fuel _ _ _ _ _ Hd) as [Hf Hr]. apply bool_decide_eq_false in Hf.
  cbn [fst]. apply wp_bind, wp_must; [by eexists|]. intros ? [= <-]. apply wp_bind, wp_modify. rewrite Hn. apply wp_bind, wp_gets.
  apply wp_bind. eapply wp_onLink; [apply lookup_insert_eq|]. cbn zeta. cbn [fst snd].
  apply wp_bind. eapply wp_onLink; [apply lookup_insert_eq|]. cbn zeta. cbn [fst snd].
  apply wp_bind, wp_modify. apply wp_bind, wp_modify, wp_ret. cbn -[Link.setPaused Link.newLink Link.supervise].
  rewrite !insert_insert_eq.
  match goal with |- context [<[infoId info := ?p]> (mPeers e)] => set (p' := p) end.
  assert (Hname : Link.mLocalStreamID (link p') = s).
  { unfold p'. cbn -[Link.setPaused Link.newLink Link.supervise]. apply setPaused_named.
    unfold named. cbn. destruct (Z.eqb_spec s 0); [lia|done]. }
  split_and!; try done; [|exists p'; by rewrite lookup_insert_eq]. split.
  - unfold absOf. cbn -[p']. rewrite !insert_insert_eq, fmap_insert. change (viewOf p') with freshView. eapply rtc_r; [exact Hre|].
    apply (as_add (absOf hist e) (infoId info)); cbn; [by rewrite lookup_fmap, Hn|by rewrite map_size_fmap].
  - cbn -[p']. rewrite !insert_insert_eq. destruct Hco as [Hid Hst Hgo Hen Hru Hdi Hsk Hsc Hra Hri]. split; try done.
    + intros x q [[<- <-]|[Hne Hq]]%lookup_insert_Some; [done|by apply Hid].
    + intros t x. rewrite lookup_insert_Some, Hst. split.
      * intros [[<- <-]|[Hne (q & Hq & E)]]; [exists p'; by rewrite lookup_insert_eq|].
        exists q. rewrite lookup_insert_ne; [done|]. intros <-. congruence.
      * intros (q & [[<- <-]|[Hne Hq]]%lookup_insert_Some & E); [by left; rewrite <- Hname|]. right. split; [|by exists q].
        intros <-. apply Hf. exists x. apply Hst. by exists q.
    + intros x q [[<- <-]|[Hne Hq]]%lookup_insert_Some; [done|by apply Hgo].
    + intros x. specialize (Hen x). destruct (decide (x = infoId info)) as [->|Hne].
      * rewrite lookup_insert_eq, decide_True by done. rewrite Hn in Hen. by rewrite Hen.
      * rewrite lookup_insert_ne by done. destruct (mPeers e !! x); [|done]. rewrite decide_False in * by congruence. done.
    + intros l x. rewrite Hri. split.
      * intros (q & Hq & Ht). exists q. rewrite lookup_insert_ne; [done|]. intros <-. congruence.
      * intros (q & [[<- <-]|[Hne Hq]]%lookup_insert_Some & Ht); [|by exists q]. cbn -[Z.testbit] in Ht. by rewrite Z.bits_0 in Ht.
Qed.

(** *** Telling without a session *)
Lemma emit_told ev e :
  Inv e -> astep (absOf hist e) (told [ev] (absOf hist e)) -> wp (emit ev) (good e) e.
Proof.
  intros HI Hs. apply wp_modify. split; [|done]. eapply (Inv_told hist e _ [ev]); try done.
  - apply HI.
  - intros E. by apply (co_socket _ _ _ _ _ _ _ _ _ (proj2 HI)).
  - right. unfold absOf, told in *. cbn in *. by rewrite app_assoc.
Qed.

Lemma refuse_ok id r e : Inv e -> mPeers e !! id = None -> wp (emit (Disconnected id r)) (good e) e.
Proof. intros HI Hn. apply emit_told; [done|]. apply as_refuse. cbn. by rewrite lookup_fmap, Hn. Qed.

(** *** Commands *)
Lemma entry_published id v x s s' :
  (s.1 = false /\ v = freshView) -> sealed_or (entryRun id [PublishSession id x] s) s' -> s' = (false, Some x).
Proof. intros [E _]. unfold entryRun. cbn. rewrite Z.eqb_refl, E. by intros [->|[? _]]. Qed.

Lemma Inv_entered e e' id v' evs ops x :
  EngineInvariant.Inv (Some id) hist e -> effect id freshView v' evs ops e e' -> vstep id freshView v' evs ->
  ops = [PublishSession id x] -> entry_fits v' (false, Some x) -> Inv e'.
Proof.
  intros HI He Hs -> Hf. eapply Inv_step; [exact HI|by right|exact He|done|auto with netlink|].
  intros s s' H Hse. rewrite decide_True in H by done. by rewrite (entry_published _ _ _ _ _ H Hse).
Qed.

Lemma startSession_ok id now e : Inv e -> wp (startSession fuel id now) (good e) e.
Proof.
  intros HI. unfold startSession. apply wp_bind, wp_gets. destruct (mShutdown e); [by apply wp_ret, good_refl|].
  apply wp_bind, wp_find. cbn zeta.
  match goal with |- context [match mPeers e !! id with Some _ => _ | None => ?f end] => set (fresh := f) end.
  assert (Hfresh : forall e, Inv e -> mPeers e !! id = None -> wp fresh (good e) e).
  { clear e HI. intros e HI Hn. unfold fresh. apply wp_bind, wp_gets. apply wp_bind, wp_gets. apply wp_bind, wp_gets.
    destruct (Discovery.find id (mDiscovery e)) as [k|] eqn:Ek; [|by apply refuse_ok].
    case_bool_decide as Eso; [by apply refuse_ok|]. destruct (Z.leb_spec MaxPeers (Z.of_nat (size (mPeers e)))) as [|Hsz]; [by apply refuse_ok|].
    assert (Ei : infoId (info k) = id).
    { unfold Discovery.find in Ek. destruct (mKnown (mDiscovery e) !! id) as [en|] eqn:En; [|done]. injection Ek as <-.
      by apply (do_entries _ (co_disc _ _ _ _ _ _ _ _ _ (proj2 HI)) id en). }
    cbn [orb]. apply wp_bind. eapply wp_mono; [|apply addPeer_ok; by rewrite ?Ei]. cbn beta. rewrite Ei.
    intros peer e1 (-> & HI1 & Hst & p & Hp & Hv & _).
    eapply wp_then; [by eapply (setPeer_effect stuck id p)|]. intros [] e2 p2 He2 Hp2 Hv2.
    apply wp_bind, wp_gets, wp_bind, wp_gets.
    eapply wp_then; [by eapply queueControl_effect|]. intros [] e3 p3 He3 Hp3 Hv3.
    eapply wp_mono; [|eapply (mailbox_effect_ fuel stuck id p3 _ (PublishSession id Box.Pending)); done]. cbn beta. intros [] e4 He4.
    rewrite Hv3 in He4. rewrite Hv2 in He3, He4. pose proof (effect_trans _ _ _ _ _ _ _ _ _ _ _ He2 (effect_trans _ _ _ _ _ _ _ _ _ _ _ He3 He4)) as He.
    split; [|etrans; [exact Hst|by eapply effect_steady]]. cbn [app] in He.
    change (viewOf (p <| initiator := true |> <| announced := true |>)) with ((viewOf p) <| vInitiator := true |> <| vAnnounced := true |>) in He.
    rewrite Hv in He. eapply Inv_entered; [exact HI1|exact He|apply vs_initiate|done|]. by split. }
  destruct (mPeers e !! id) as [p|] eqn:Hp; [|by apply Hfresh].
  case_bool_decide as Es; [eapply wp_goodAt, sendAccept_ok; [done..|by left]|].
  destruct (_ || _) eqn:Ec; [by apply wp_ret, good_refl|]. apply orb_false_iff in Ec as [_ Ec]. apply negb_false_iff in Ec.
  apply wp_bind. eapply wp_mono; [|eapply erase_ok; [exact HI|exact Hp|by right; left]]. cbn beta.
  intros _ e1 [[HI1 Hst] Hr]. eapply wp_mono; [|apply Hfresh; [exact HI1|]].
  - cbn beta. intros [] e2 [HI2 Hst2]. split; [done|by etrans].
  - by rewrite (rm_peers _ _ _ _ _ Hr), lookup_delete_eq.
Qed.

Lemma reportView_idem v : reportView (reportView v) = reportView v.
Proof. unfold reportView. by destruct (vAnnounced v) eqn:E; cbn; rewrite ?E. Qed.
Lemma reportEvents_again id v r : reportEvents id (reportView v) r = [].
Proof. unfold reportEvents, reportView. by destruct (vAnnounced v) eqn:E; cbn; rewrite ?E. Qed.

Lemma shutdownPeer_ok id now p e : Inv e -> mPeers e !! id = Some p -> 
  wp (shutdownPeer now id) (fun a e' => good e a e' /\ exists v' evs ops, effect id (viewOf p) v' evs ops e e') e.
Proof.
  intros HI Hp. unfold shutdownPeer. eapply wp_then; [by eapply report_effect|]. intros [] e1 p1 He1 Hp1 Hv1.
  eapply wp_bind, wp_deref; [done|]. case_bool_decide as Es.
  - eapply wp_mono; [|by eapply sendDecline_effect]. cbn beta. intros [] e2 He2. rewrite Hv1, reportView_idem, reportEvents_again in He2.
    pose proof (effect_trans _ _ _ _ _ _ _ _ _ _ _ He1 He2) as He. rewrite app_nil_r in He. split; [|by eauto]. split; [|by eapply effect_steady].
    eapply Inv_next; [exact HI|exact He|apply vs_close|auto with netlink|]. intros s s' _. apply entry_closed.
  - apply wp_when; intros Ec.
    + eapply wp_mono; [|by eapply sendClose_effect]. cbn beta. intros [] e2 He2. rewrite Hv1 in He2.
      destruct He2 as [He2|He2]; pose proof (effect_trans _ _ _ _ _ _ _ _ _ _ _ He1 He2) as He; rewrite app_nil_r in He;
        (split; [|by eauto]; split; [|by eapply effect_steady]).
      * eapply Inv_next; [exact HI|exact He|apply vs_close|auto with netlink|]. intros s s' _. apply entry_closed.
      * eapply Inv_next; [exact HI|exact He|apply vs_end|apply (own_app id [Close id]); auto with netlink|].
        intros s s' _. apply (entry_end_closed id (reportView (viewOf p))).
    + apply negb_false_iff in Ec. destruct (Inv_view _ _ _ _ _ HI Hp) as (ph & Hvo).
      assert (Ec' : vCloseSent (viewOf p) = true).
      { unfold reportView in Hv1. assert (vCloseSent (viewOf p1) = true) as E by done. rewrite Hv1 in E. by destruct (vAnnounced (viewOf p)). }
      assert (Er : reportView (viewOf p) = viewOf p /\ reportEvents id (viewOf p) ByShutdown = []).
      { destruct (vo_close _ _ Hvo Ec') as [_ Ha]. unfold reportView, reportEvents. destruct (vAnnounced (viewOf p)) eqn:E; [|done].
        rewrite (Ha eq_refl). split; [|done]. destruct (viewOf p) eqn:Ev. cbn in *. by rewrite Ha. }
      destruct Er as [Er1 Er2]. rewrite Er1, Er2 in He1. split; [|by eauto]. split; [|by eapply effect_steady]. by eapply Inv_quiet.
Qed.

(** What every part of a step keeps. *)
Definition fine (e : NetworkEngine) {A} (_ : A) (e' : NetworkEngine) : Prop := Inv e' /\ mConfig e' = mConfig e.

Lemma good_fine {A} e (a : A) e' : good e a e' -> fine e a e'.
Proof. intros [HI Hs]. split; [done|apply Hs]. Qed.
Lemma wp_fine {A} (m : Engine.M W A) e : wp m (good e) e -> wp m (fine e) e.
Proof. apply wp_mono. intros a e'. apply good_fine. Qed.
Lemma fine_refl {A} e (a : A) : Inv e -> fine e a e.
Proof. by split. Qed.

Lemma wp_fine_then {A B} (m : Engine.M W A) (f : A -> Engine.M W B) e :
  wp m (fine e) e -> (forall a e1, Inv e1 -> wp (f a) (fine e1) e1) -> wp (mbind f m) (fine e) e.
Proof.
  intros H1 H2. apply wp_bind. eapply wp_mono; [|exact H1]. cbn beta. intros a e1 [HI Hc]. eapply wp_mono; [|by apply H2].
  intros b e2 [HI2 Hc2]. split; [done|congruence].
Qed.

Lemma fine_loop {A} (f : A -> Engine.M W ()) l e :
  Inv e -> (forall x e, x ∈ l -> Inv e -> wp (f x) (fine e) e) -> wp (forEach f l) (fine e) e.
Proof.
  intros HI Hf. apply (wp_forEach stuck f (fun e' => fine e () e')); [by apply fine_refl|].
  intros x e1 Hx [HI1 Hc1]. eapply wp_mono; [|by apply Hf]. intros [] e2 [HI2 Hc2]. split; [done|congruence].
Qed.

(** A change of what the invariant does not speak of. *)
Lemma modify_fine f e : Inv (f e) -> mConfig (f e) = mConfig e -> wp (modify f) (fine e) e.
Proof. intros HI Hc. apply wp_modify. by split. Qed.

Lemma mailbox_fine {A} (f : Box.Mailbox -> A * Box.Mailbox) a e :
  Inv e -> (forall m, (f m).2 = perform a m) -> (forall m, threads (mMailbox e) [] m -> allowed a m) ->
  (forall x s, entryAfter x a s = s) -> wp (mailbox f) (good e) e.
Proof.
  intros HI Hf Ha Hn. eapply wp_mailbox; [done|]. intros e' (wk & b & m & i & -> & Ht). rewrite Hf. split; [|done].
  pose proof (th_own _ [] m a Ht (Ha m Ht)) as Ht'. split; [apply HI|]. cbn. pose proof (Inv_closing _ _ _ HI) as Hcl. destruct HI as [_ [Hid Hst Hgo Hen Hru Hdi Hsk Hsc Hra Hri]].
  split; try done; [|by eapply threads_run]. intros x. specialize (Hen x). pose proof (threads_entry _ _ _ x Ht') as Hte.
  unfold entryRun in Hte. cbn in Hte. rewrite Hn in Hte. destruct (mPeers e !! x) as [p|] eqn:Ep.
  - rewrite decide_False in * by done. eapply fits_sealed; [|exact Hen|exact Hte]. cbn. by apply (Hcl x).
  - destruct Hte as [->|[E _]]; [done|]. by rewrite Hen in E.
Qed.

Lemma setAnnouncing_Inv b e : Inv e -> Inv (e <| mDiscovery ::= Discovery.setAnnouncing b |>).
Proof.
  intros HI. eapply (Inv_told hist e _ []); try done; [by rewrite app_nil_r| | |by left].
  - destruct (co_disc _ _ _ _ _ _ _ _ _ (proj2 HI)) as [H1 H2]. split; [done|]. intros x en Hx. by apply (entry_ok_same (mDiscovery e)), H2.
  - intros E. by apply (co_socket _ _ _ _ _ _ _ _ _ (proj2 HI)).
Qed.

Lemma beginShutdown_ok now e : Inv e -> wp (beginShutdown now) (fine e) e.
Proof.
  intros HI. unfold beginShutdown. apply wp_bind, wp_gets. apply wp_bind, wp_modify.
  destruct (mShutdown e); [by apply wp_ret; split|]. apply wp_bind, wp_modify, wp_bind, wp_gets.
  set (e1 := (e <| mShutdown := true |>) <| mDiscovery ::= Discovery.setAnnouncing false |>).
  assert (HI1 : Inv e1) by (by apply setAnnouncing_Inv). change (mConfig e) with (mConfig e1).
  apply wp_bind. eapply wp_mono; [|apply (wp_forEach stuck (shutdownPeer now)
    (fun e' => fine e1 () e' /\ forall x, x ∈ keysOf (mPeers e1) -> is_Some (mPeers e' !! x)))].
  - cbn beta. intros [] e2 [[HI2 Hc2] _]. eapply wp_mono; [|by apply (mailbox_fine _ (SetRunning false))].
    intros [] e3 [HI3 Hs3]. split; [done|]. by rewrite (st_config _ _ Hs3), Hc2.
  - split; [by apply fine_refl|]. intros x. apply elem_of_keysOf.
  - intros x e2 Hx [[HI2 Hc2] Hd]. destruct (Hd x Hx) as [p Hp]. eapply wp_mono; [|by eapply shutdownPeer_ok]. cbn beta.
    intros [] e3 [[HI3 Hs3] (v' & evs & ops & He)]. split; [split; [done|by rewrite (st_config _ _ Hs3)]|].
    destruct He as [(q & q' & Hq & -> & _) _ _ _ _ _]. intros y Hy. destruct (decide (y = x)) as [->|]; [rewrite lookup_insert_eq; by eexists|].
    rewrite lookup_insert_ne by done. by apply Hd.
Qed.

Lemma apply_ok now c e : Inv e -> wp (apply fuel now c) (fine e) e.
Proof.
  intros HI. unfold apply. apply wp_bind, wp_find. destruct (Box.command c).
  - by apply wp_fine, startSession_ok.
  - destruct (mPeers e !! Box.commandPeer c) as [p|] eqn:Hp; [|by apply wp_ret, fine_refl].
    apply wp_when; intros E; [|by apply fine_refl]. apply bool_decide_eq_true in E. eapply wp_fine, wp_goodAt, sendAccept_ok; [done..|by left].
  - destruct (mPeers e !! Box.commandPeer c) as [p|] eqn:Hp; [|by apply wp_ret, fine_refl].
    apply wp_when; intros E; [|by apply fine_refl]. by eapply wp_fine, wp_goodAt, sendDecline_ok.
  - apply wp_when; intros E; [|by apply fine_refl]. apply bool_decide_eq_true in E as [p Hp]. apply wp_fine. by eapply endSession_ok.
  - by apply wp_modify; split; [apply (setAnnouncing_Inv true e)|].
  - by apply wp_modify; split; [apply (setAnnouncing_Inv false e)|].
  - apply wp_modify. by split.
  - by apply wp_ret, fine_refl.
  - by apply beginShutdown_ok.
Qed.

(** *** All sessions end *)

(** The sessions of [pre] are reported, but their peers are still there. *)
Record ending (e0 : NetworkEngine) (pre : list PeerId) (e : NetworkEngine) : Prop := {
  eg_abs : exists a, reached a /\ aTrace a = hist ++ mEvents e /\ aKnown a = dom (mKnown (mDiscovery e0)) /\
    forall x, aPeers a !! x = if decide (x ∈ pre) then None else viewOf <$> mPeers e0 !! x;
  eg_left : forall x, x ∉ pre -> mPeers e !! x = mPeers e0 !! x;
  eg_there : forall x, is_Some (mPeers e0 !! x) -> is_Some (mPeers e !! x);
  eg_entry : forall x, x ∈ pre \/ mPeers e0 !! x = None -> entryOf (mMailbox e) x = (false, None);
  eg_box : in_run (cfgSendQueueBytes (mConfig e0)) (mMailbox e);
  eg_rest : same_rest e0 e;
}.

Lemma closed_entry m ops m' x : threads m ops m' -> entryRun x ops (entryOf m x) = (false, None) -> entryOf m' x = (false, None).
Proof. intros Ht E. pose proof (threads_entry _ _ _ x Ht) as [->|[E' _]]; [done|]. by rewrite E in E'. Qed.

Lemma ending_next e0 pre x r e : ending e0 pre e -> x ∉ pre -> is_Some (mPeers e0 !! x) ->
  wp (report x r;; mailbox_ (Box.close x)) (fun _ => ending e0 (pre ++ [x])) e.
Proof.
  intros [(a & Hre & Ht & Hk & Hps) Hl Hth Hen Hru Hr] Hx [p Hp0]. assert (Hp : mPeers e !! x = Some p) by (by rewrite Hl).
  eapply wp_then; [by eapply report_effect|]. intros [] e1 p1 He1 Hp1 Hv1.
  eapply wp_mono; [|eapply (mailbox_effect_ fuel stuck x p1 _ (Close x)); done]. cbn beta. intros [] e2 He2. rewrite Hv1 in He2.
  pose proof (effect_trans _ _ _ _ _ _ _ _ _ _ _ He1 He2) as [(q & q' & Hq & Eq & _) Hev Hbx _ _ Hre2]. rewrite app_nil_r in Hev. cbn [app] in Hbx.
  split.
  - exists (told (reportEvents x (viewOf p) r) (a <| aPeers ::= delete x |>)). split_and!.
    + eapply rtc_r; [exact Hre|]. apply (as_remove a x (viewOf p) r). by rewrite Hps, decide_False, Hp0.
    + cbn. by rewrite Ht, Hev, app_assoc.
    + done.
    + intros y. cbn. destruct (decide (y = x)) as [->|Hne]; [rewrite lookup_delete_eq, decide_True; [done|set_solver]|].
      rewrite lookup_delete_ne, Hps by done. destruct (decide (y ∈ pre)); [rewrite decide_True by set_solver|rewrite decide_False by set_solver]; done.
  - intros y Hy. rewrite Eq, lookup_insert_ne by set_solver. apply Hl. set_solver.
  - intros y Hy. rewrite Eq. destruct (decide (y = x)) as [->|]; [rewrite lookup_insert_eq; by eexists|]. rewrite lookup_insert_ne by done. by apply Hth.
  - intros y Hy. destruct (decide (y = x)) as [->|Hne].
    + eapply closed_entry; [exact Hbx|]. unfold entryRun. cbn. by rewrite Z.eqb_refl.
    + eapply closed_entry; [exact Hbx|]. rewrite (own_close x y _ Hne). apply Hen. set_solver.
  - by eapply threads_run.
  - by etrans.
Qed.

Lemma endAllSessions_ok r e : Inv e ->
  wp (endAllSessions r) (fun _ e' => Inv e' /\ steady e e' /\ mPeers e' = ∅ /\ mByStream e' = ∅ /\ mEnded e' = []) e.
Proof.
  intros HI. unfold endAllSessions. apply wp_bind, wp_gets.
  assert (H0 : ending e [] e).
  { destruct HI as [Hre Hco]. split; try done; try apply Hco.
    - exists (absOf hist e). split_and!; try done. intros x. rewrite decide_False by set_solver. cbn. by rewrite lookup_fmap.
    - intros x [Hx|Hx]; [set_solver|]. pose proof (co_entry _ _ _ _ _ _ _ _ _ Hco x) as H. by rewrite Hx in H. }
  apply wp_bind. eapply wp_mono; [|apply (wp_loop stuck _ (fun pre post e' => ending e pre e' /\ pre ++ post = keysOf (mPeers e)) _ []);
    [by split|]].
  2:{ intros pre x post e1 [He1 El]. assert (Hnd := NoDup_keysOf (mPeers e)). rewrite <- El in Hnd. apply NoDup_app in Hnd as (_ & Hd & _).
      eapply wp_mono; [|apply (ending_next e pre x r e1 He1)].
      - cbn beta. intros [] e2 He2. split; [done|]. by rewrite <- app_assoc.
      - intros Hx. by apply (Hd x Hx); left.
      - apply elem_of_keysOf. rewrite <- El. set_solver. }
  cbn beta. intros [] e1 [He1 _]. cbn [app] in He1. apply wp_bind.
  eapply wp_mono; [|apply (wp_forEach stuck _ (fun e' => ending e (keysOf (mPeers e)) e')); [done|]].
  2:{ clear e1 He1. intros x e1 Hx He1. apply elem_of_keysOf in Hx. destruct (eg_there _ _ _ He1 x Hx) as [p Hp].
      eapply wp_mono; [|eapply onLink_effect_; [exact Hp|intros; by apply dropStreams_named]]. cbn beta.
      intros [] e2 [(q & q' & _ & Eq & _) Hev Hbx _ _ Hre2]. destruct He1 as [(a & Ha) Hl Hth Hen Hru Hr]. rewrite app_nil_r in Hev. split.
      - exists a. by rewrite Hev.
      - intros y Hy. rewrite Eq, lookup_insert_ne; [by apply Hl|]. intros ->. apply Hy. by apply elem_of_keysOf.
      - intros y Hy. rewrite Eq. destruct (decide (y = x)) as [->|]; [rewrite lookup_insert_eq; by eexists|]. rewrite lookup_insert_ne by done. by apply Hth.
      - intros y Hy. eapply closed_entry; [exact Hbx|]. by apply Hen.
      - by eapply threads_run.
      - by etrans. }
  cbn beta. intros [] e2 [(a & Hre & Ht & Hk & Hps) _ _ Hen Hru [R1 R2 R3 R4 R5 R6 R7]]. apply wp_modify.
  destruct HI as [_ [Hid Hst Hgo Hen0 Hru0 Hdi Hsk Hsc Hra Hri]]. split; [|split_and!; try done; by split]. split.
  - replace (absOf hist _) with a; [done|]. destruct a as [P K T]. cbn in *. unfold absOf. cbn. f_equal; [|by rewrite R4|done].
    apply map_eq. intros x. rewrite Hps, fmap_empty, lookup_empty. destruct (decide (x ∈ keysOf (mPeers e))) as [|Hx]; [done|].
    destruct (mPeers e !! x) eqn:E; [|done]. destruct Hx. apply elem_of_keysOf. by eexists.
  - cbn. rewrite R1, R3, R4, R6. split; try done.
    + intros s x. rewrite lookup_empty. split; [done|]. intros (p & Hp & _). by rewrite lookup_empty in Hp.
    + intros x. rewrite lookup_empty. apply Hen. destruct (mPeers e !! x) eqn:E; [left|by right]. apply elem_of_keysOf. by eexists.
    + intros E. split; [done|]. by apply Hsk.
    + by apply Sched.clear_ok.
    + intros l x. cbn. split; [by intros ?%elem_of_nil|]. intros (p & Hp & _). by rewrite lookup_empty in Hp.
Qed.

(** *** The adapter *)
Lemma bind_ok iface e : Inv e -> mIoSocket e = None -> wp (Sessions.bind iface) (fine e) e.
Proof.
  intros HI Hn. unfold Sessions.bind. apply wp_bind, wp_gets. apply wp_bind, wp_gets. apply wp_bind, wp_ask. intros w.
  destruct (makeSocket _ _ w).1 as [|sock]; [by apply wp_ret, fine_refl|]. apply wp_bind, wp_ask. intros w2.
  assert (Hb : forall e1, Inv e1 -> mIoSocket e1 = None -> wp (modify (fun e => e <| mIoSocket := Some sock |>
      <| mDiscovery ::= setInterface (ifaceIp iface) (ifaceMask iface) |> <| mBeaconDue := true |>);;
      emit (AdapterChanged (mkPeerInfo 0 [] (ipToString (ifaceIp iface)) (port sock) []))) (fine e1) e1).
  { intros e1 HI1 Hn1. eapply wp_fine_then.
    - apply modify_fine; [|done]. destruct HI1 as [Hre [Hid Hst Hgo Hen Hru Hdi Hsk Hsc Hra Hri]]. destruct (Hsk Hn1) as [Ep Ek].
      split; [done|]. cbn. split; try done. split; cbn; rewrite Ek; [done|]. intros x en Hx. by rewrite lookup_empty in Hx.
    - intros [] e2 HI2. apply wp_fine, emit_told; [done|]. apply as_adapter. }
  destruct (makeSocket _ _ w2).1 as [|beacons].
  - apply wp_bind, wp_ret. by apply Hb.
  - apply wp_bind, wp_modify. eapply wp_mono; [|by apply Hb]. intros [] e2. done.
Qed.

(** Every discovered peer is lost. *)
Lemma tellLost_ok e ids : mPeers e = ∅ -> mKnown (mDiscovery e) = ∅ -> NoDup ids ->
  (exists a, reached a /\ aTrace a = hist ++ mEvents e /\ aKnown a = list_to_set ids /\ aPeers a = ∅) ->
  wp (forEach (fun id => emit (PeerLost id)) ids) (fun _ e' => reached (absOf hist e') /\
    exists evs, e' = e <| mEvents := evs |>) e.
Proof.
  intros Hp Hk. revert e Hp Hk. induction ids as [|x ids IH]; intros e Hp Hk Hnd (a & Hre & Ht & Ha & Hpa); cbn [forEach].
  - apply wp_ret. split; [|by exists (mEvents e); destruct e]. unfold absOf. rewrite Hp, Hk, fmap_empty, dom_empty_L, <- Ht, <- Hpa.
    destruct a as [P K T]. cbn in *. by rewrite Ha in Hre.
  - apply wp_bind, wp_modify. apply NoDup_cons in Hnd as [Hx Hnd]. eapply wp_mono; [|apply IH; try done].
    + cbn beta. intros [] e' (H1 & evs & ->). split; [done|]. by exists evs.
    + exists (told [PeerLost x] (a <| aKnown ::= fun s => s ∖ {[x]} |>)). split_and!.
      * eapply rtc_r; [exact Hre|]. apply as_lose; [rewrite Ha; set_solver|by rewrite Hpa, lookup_empty].
      * cbn. by rewrite Ht, app_assoc.
      * cbn. rewrite Ha. cbn. set_solver.
      * done.
Qed.

Lemma updateInterface_ok b e : Inv e -> wp (updateInterface b) (fine e) e.
Proof.
  intros HI. unfold updateInterface. apply wp_bind, wp_modify. set (e0 := e <| mCheckInterface := false |>).
  assert (HI0 : Inv e0) by done. change (@fine e ()) with (@fine e0 ()). clearbody e0. clear HI e.
  apply wp_bind, wp_ask. intros w. apply wp_bind, wp_gets. apply wp_bind, wp_gets. destruct (_ && _).
  { destruct (queryInterface w).1 as [iface|]; [|by apply wp_ret, fine_refl]. destruct (mIoSocket e0) eqn:Es; [by apply wp_ret, fine_refl|].
    by apply bind_ok. }
  apply wp_bind. eapply (wp_mono stuck _ (fun _ e1 => Inv e1 /\ steady e0 e1 /\ mPeers e1 = ∅)).
  2:{ apply wp_when; intros E.
      - eapply wp_mono; [|by apply endAllSessions_ok]. cbn beta. intros [] e1 (? & ? & ? & _). done.
      - apply bool_decide_eq_false in E. split_and!; try done. apply (co_socket _ _ _ _ _ _ _ _ _ (proj2 HI0)). by destruct (mIoSocket e0); [destruct E; eexists|]. }
  cbn beta. intros _ e1 (HI1 & Hs1 & Hp1). apply wp_bind, wp_gets. apply wp_bind, wp_modify. apply wp_bind.
  eapply wp_mono; [|apply tellLost_ok; [exact Hp1|done|apply NoDup_keysOf|]].
  2:{ exists (absOf hist e1). destruct HI1 as [Hre Hco]. split_and!; try done; cbn.
      - apply leibniz_equiv. intros x. rewrite elem_of_dom, elem_of_list_to_set. by rewrite elem_of_keysOf.
      - by rewrite Hp1, fmap_empty. }
  cbn beta. intros _ e2 (Hre2 & evs & ->). apply wp_bind, wp_modify. apply wp_bind. unfold closeSockets. apply wp_modify.
  match goal with |- EngineLogic.wp _ _ _ ?x => set (e3 := x) end.
  assert (HI3 : Inv e3).
  { split; [done|]. unfold e3. cbn. rewrite Hp1. destruct HI1 as [_ [Hid Hst Hgo Hen Hru Hdi Hsk Hsc Hra Hri]]. rewrite Hp1 in *. split; try done. }
  assert (Hc3 : mConfig e3 = mConfig e0) by apply Hs1. assert (Hn3 : mIoSocket e3 = None) by done. clearbody e3.
  assert (Hend : forall m : Engine.M W (), wp m (fine e3) e3 -> wp m (fine e0) e3).
  { intros m. apply wp_mono. intros [] e4 [? ?]. split; [done|congruence]. }
  destruct (queryInterface w).1 as [iface|]; [|by apply Hend, wp_ret, fine_refl].
  apply Hend, wp_when; intros E; [by apply bind_ok|by apply fine_refl].
Qed.
End Refines.
