(* ===== verification/EngineKeeps.v ===== *)
(** * A step keeps the invariant

    What the links received, what the sockets received, the timers and sending, and the
    step they add up to. *)
From Stdlib Require Import QArith.
From S2P Require Import Prelude Constants IPv4Address WireBuffer Beacon PacketFlags PacketHeader OrderedMap SendScheduler ReliableLink ControlMessage Discovery.
From S2P Require Import Mailbox MailboxRuns Engine SessionSpec LinkIdentity EngineSessions EngineStep EngineLogic EngineEffects EngineInvariant EngineRefines.
From stdpp Require Import relations.
Import Engine Sessions Loop.
#[local] Open Scope Z_scope.

(** Nothing is read outside a buffer. *)
Lemma some_unless {A} (o : option A) : o <> None -> is_Some o.
Proof. destruct o; [by eexists|done]. Qed.
Lemma decodeAccept_total d : is_Some (decodeAccept d).
Proof. destruct readAccept_parses as (V & HV & _). apply some_unless. by eapply decodeWhole_safe. Qed.
Lemma decodeDecline_total d : is_Some (decodeDecline d).
Proof. destruct readDecline_parses as (V & HV & _). apply some_unless. by eapply decodeWhole_safe. Qed.
Lemma decodeHello_total d : is_Some (decodeHello d).
Proof. destruct readHello_parses as (V & HV & _). apply some_unless. by eapply decodeWhole_safe. Qed.
Lemma decodePacket_total d : is_Some (decodePacket d).
Proof.
  apply some_unless. unfold decodePacket. destruct (_ <? _); [done|]. apply decode_then_safe; [apply decodeHeader_safe|].
  intros p _. by destruct (isBodySizeValid _ _).
Qed.

Section Keeps.
Context {W : Type} `{!World W} (fuel : nat) `{!WorldOk W fuel} (stuck : Prop) (hist : list EngineEvent).
Abbreviation wp := (wp (W := W) stuck).
Abbreviation Inv := (Inv None hist).
Abbreviation good := (good hist).
Abbreviation goodAt := (goodAt hist).
Abbreviation fine := (fine hist).

Lemma goodAt_trans {A B} id e e1 e2 (a : A) (b : B) : goodAt id e a e1 -> goodAt id e1 b e2 -> goodAt id e b e2.
Proof. intros [H1 _] [H2 H3]. split; [by eapply good_trans|done]. Qed.

Lemma goodAt_refl {A} id e (a : A) : Inv e -> is_Some (mPeers e !! id) -> goodAt id e a e.
Proof. intros HI Hp. split; [by apply good_refl|done]. Qed.

Lemma wp_at_then {A B} id (m : Engine.M W A) (f : A -> Engine.M W B) e :
  wp m (goodAt id e) e -> (forall a e1 p1, goodAt id e a e1 -> mPeers e1 !! id = Some p1 -> wp (f a) (goodAt id e1) e1) ->
  wp (mbind f m) (goodAt id e) e.
Proof.
  intros H1 H2. apply wp_bind. eapply wp_mono; [|exact H1]. cbn beta. intros a e1 G. pose proof G as [_ [p1 Hp1]].
  eapply wp_mono; [|by eapply H2]. intros b e2. by eapply goodAt_trans.
Qed.

(** A loop of one peer. *)
Lemma goodAt_loop {A} id (f : A -> Engine.M W ()) l e :
  Inv e -> is_Some (mPeers e !! id) ->
  (forall x e p, Inv e -> mPeers e !! id = Some p -> wp (f x) (goodAt id e) e) -> wp (forEach f l) (goodAt id e) e.
Proof.
  intros HI Hp Hf. apply (wp_forEach stuck f (fun e' => goodAt id e () e')); [by apply goodAt_refl|].
  intros x e1 _ G. pose proof G as [[HI1 _] [p1 Hp1]]. eapply wp_mono; [|by eapply Hf]. intros [] e2. by eapply goodAt_trans.
Qed.

(** *** What the link of a peer received *)
Lemma setPeer_same id p f e : Inv e -> mPeers e !! id = Some p -> same_peer p (f p) -> viewOf (f p) = viewOf p ->
  wp (setPeer id f) (fun a e' => goodAt id e a e' /\ exists p', mPeers e' !! id = Some p' /\ viewOf p' = viewOf p) e.
Proof.
  intros HI Hp Hs Hv. eapply wp_setPeer; [done|].
  assert (He : effect id (viewOf p) (viewOf p) [] [] e (e <| mPeers ::= <[id := f p]> |>)).
  { rewrite <- Hv at 2. apply effect_peer; try done. change (vEnded (viewOf (f p)) = vEnded (viewOf p)). by rewrite Hv. }
  split; [|exists (f p); cbn; by rewrite lookup_insert_eq]. eapply goodAt_effect; [exact He|].
  eapply Inv_quiet; [exact HI|exact He|auto with netlink|done].
Qed.

Lemma setPeer_quiet id p f e : Inv e -> mPeers e !! id = Some p -> same_peer p (f p) -> viewOf (f p) = viewOf p ->
  wp (setPeer id f) (goodAt id e) e.
Proof. intros. eapply wp_mono; [|by eapply setPeer_same]. by intros a e' []. Qed.

Lemma onLink_quiet {A} id p (f : Link.ReliableLink -> A * Link.ReliableLink) e :
  Inv e -> mPeers e !! id = Some p -> (forall n k, named n k -> named n (f k).2) -> wp (onLink id f) (goodAt id e) e.
Proof.
  intros HI Hp Hn. eapply (good_quiet stuck hist id (viewOf p) []); [done| |auto with netlink|done]. by apply onLink_effect.
Qed.

Lemma touch_at x id p e : Inv e -> mPeers e !! id = Some p -> wp (touch x) (goodAt id e) e.
Proof. intros HI Hp. apply wp_modify. split; [by split|]. by exists p. Qed.

Lemma onControl_ok id message p e : Inv e -> mPeers e !! id = Some p -> wp (onControl id message) (goodAt id e) e.
Proof.
  intros HI Hp. assert (Hret : wp (mret ()) (goodAt id e) e) by (apply wp_ret, goodAt_refl; [done|by exists p]).
  unfold onControl. eapply wp_bind, wp_deref; [done|]. destruct (ended p) eqn:Ee; [done|]. cbn zeta.
  destruct (controlType _) as [[]|]; [done| | | |done].
  - destruct (_ && _) eqn:Ea; [|done]. apply andb_true_iff in Ea as [Es _]. apply bool_decide_eq_true in Es.
    apply wp_bind, wp_must; [apply decodeAccept_total|]. intros answer _.
    apply wp_bind. eapply (wp_mono stuck _ (fun _ e1 => goodAt id e () e1 /\ exists p1, mPeers e1 !! id = Some p1 /\ state p1 = Connecting /\ ended p1 = false)).
    + cbn beta. intros _ e1 (G & p1 & Hp1 & Es1 & Ee1). eapply wp_mono; [|eapply (setConnected_ok fuel); [apply G|exact Hp1|done..]].
      intros [] e2. by eapply goodAt_trans.
    + assert (H0 : goodAt id e () e /\ exists p1, mPeers e !! id = Some p1 /\ state p1 = Connecting /\ ended p1 = false).
      { split; [apply goodAt_refl; [done|by exists p]|by exists p]. }
      destruct answer as [a|]; [|by apply wp_ret]. apply wp_when; intros _; [|done].
      eapply wp_mono; [|by eapply (setPeer_same id p)]. cbn beta. intros [] e1 [G (p1 & Hp1 & Hv1)]. split; [done|].
      exists p1. injection Hv1 as Es1 _ _ _ _ _ Ee1 _. split_and!; congruence.
  - destruct (_ && _); [|done]. apply wp_bind, wp_must; [apply decodeDecline_total|]. intros answer _.
    by eapply report_end_ok.
  - by eapply report_end_ok.
Qed.

Lemma message_ok id p l m b e : Inv e -> mPeers e !! id = Some p -> transfersData p = true -> ended p = false -> reported p = false ->
  wp (emit (MessageEvent id l m b)) (goodAt id e) e.
Proof.
  intros HI Hp Ht He Hr. eapply good_step; [done|by eapply emit_effect|by apply vs_message|auto with netlink|].
  intros s s' Hf Hs. eapply fits_sealed; [|exact Hf|exact Hs]. cbn. by apply (Inv_closing _ _ _ HI id).
Qed.

Lemma meddled_good {A} e e' (a : A) : Inv e -> meddled e e' -> good e a e'.
Proof.
  intros HI (wk & b & m & i & -> & Ht). split; [|done]. split; [apply HI|]. cbn. pose proof (Inv_closing _ _ _ HI) as Hcl.
  destruct HI as [_ [Hid Hst Hgo Hen Hru Hdi Hsk Hsc Hra Hri]]. split; try done; [|by eapply threads_run].
  intros x. specialize (Hen x). pose proof (threads_entry _ _ _ x Ht) as Hte. unfold entryRun in Hte. cbn in Hte.
  destruct (mPeers e !! x) as [p|] eqn:Ep.
  - rewrite decide_False in * by done. eapply fits_sealed; [|exact Hen|exact Hte]. cbn. by apply (Hcl x).
  - destruct Hte as [->|[E _]]; [done|]. by rewrite Hen in E.
Qed.

Lemma meddled_peers e e' : meddled e e' -> mPeers e' = mPeers e.
Proof. intros (wk & b & m & i & -> & Ht). done. Qed.

Lemma onMessage_ok id message p e : Inv e -> mPeers e !! id = Some p -> wp (onMessage id message) (goodAt id e) e.
Proof.
  intros HI Hp. assert (Hret : wp (mret ()) (goodAt id e) e) by (apply wp_ret, goodAt_refl; [done|by exists p]).
  unfold onMessage. cbn zeta. case_bool_decide; [by eapply onControl_ok|]. eapply wp_bind, wp_deref; [done|].
  destruct (_ || _) eqn:Eg; [done|]. apply orb_false_iff in Eg as [[Ee Er]%orb_false_iff Et%negb_false_iff].
  case_bool_decide; [|by eapply message_ok]. apply wp_bind.
  eapply (wp_mono stuck _ (fun _ e1 => goodAt id e () e1 /\ exists p1, mPeers e1 !! id = Some p1 /\ viewOf p1 = viewOf p)).
  - cbn beta. intros inbox e1 (G1 & p1 & Hp1 & Hv1). apply wp_bind. apply (wp_interfere fuel). intros e2 Hm.
    pose proof (meddled_good e1 e2 () (proj1 (proj1 G1)) Hm) as G2. apply wp_bind, wp_modify.
    match goal with |- EngineLogic.wp _ _ _ ?x => set (e3 := x) end.
    assert (HI3 : Inv e3) by apply G2. assert (Hp3 : mPeers e3 !! id = Some p1) by (by rewrite <- Hp1, <- (meddled_peers _ _ Hm)).
    assert (Hs3 : steady e e3) by (etrans; [apply G1|etrans; [apply G2|by split]]). injection Hv1 as Es _ _ Ec _ Er1 Ee1 _.
    eapply wp_mono; [|eapply (message_ok id p1 _ _ _ e3 HI3 Hp3)].
    + intros [] e4 [[HI4 Hs4] H4]. split; [split; [done|by etrans]|done].
    + unfold transfersData in *. by rewrite Es, Ec.
    + congruence.
    + congruence.
  - unfold mediaInbox. eapply wp_bind, wp_deref; [done|]. destruct (media p) as [i|].
    + apply wp_ret. split; [apply goodAt_refl; [done|by exists p]|by exists p].
    + apply wp_bind, wp_gets. apply wp_bind, wp_modify. apply wp_bind. eapply wp_mono; [|by eapply (setPeer_same id p)].
      cbn beta. intros [] e1 [G H1]. apply wp_ret. split; [|done]. eapply (goodAt_trans id); [|exact G].
      instantiate (1 := ()). split; [by split|by exists p].
Qed.

Lemma end_closing_ok id p e : Inv e -> mPeers e !! id = Some p -> closeSent p = true -> wp (end_ id) (goodAt id e) e.
Proof.
  intros HI Hp Ec. eapply good_step; [done|by eapply end_effect|by apply vs_finish|auto with netlink|].
  intros s s' Hf Hs. apply entry_ended. pose proof (entry_end id (viewOf p) s s' Hf Hs) as [-> _]. cbn. by rewrite andb_false_r.
Qed.

Lemma advanceState_ok id now p e : Inv e -> mPeers e !! id = Some p -> ended p = false -> wp (advanceState id now) (goodAt id e) e.
Proof.
  intros HI Hp Ee. assert (Hret : goodAt id e () e) by (apply goodAt_refl; [done|by exists p]).
  unfold advanceState. eapply wp_bind, wp_deref; [done|]. cbn zeta. destruct (state p) eqn:Es.
  - apply wp_when; intros E; [|done]. by eapply setConnected_ok.
  - apply wp_when; intros E; [|done]. by eapply sendDecline_ok.
  - by apply wp_ret.
  - destruct (closeSent p) eqn:Ec; [apply wp_when; intros E; [by eapply end_closing_ok|done]|].
    eapply wp_at_then.
    + destruct (expired p now); [by apply wp_ret|]. destruct (_ && _); [|by apply wp_ret].
      eapply (good_quiet stuck hist id (viewOf p) [Settle id]); [done| |by apply own_other|done].
      by eapply (mailbox_effect fuel stuck id p _ (Settle id)).
    + intros over e1 p1 [[HI1 _] _] Hp1. apply wp_when; intros E; [by eapply report_close_ok|]. apply goodAt_refl; [done|by exists p1].
Qed.

Lemma advance_ok id now p e : Inv e -> mPeers e !! id = Some p -> wp (advance id now) (goodAt id e) e.
Proof.
  intros HI Hp. assert (Hret : wp (mret ()) (goodAt id e) e) by (apply wp_ret, goodAt_refl; [done|by exists p]).
  unfold advance. eapply wp_bind, wp_deref; [done|]. destruct (ended p); [done|]. destruct (Link.mFailed _); [by eapply report_end_ok|].
  eapply wp_at_then; [eapply onLink_quiet; done|]. intros messages e1 p1 [[HI1 _] _] Hp1.
  eapply wp_at_then; [eapply goodAt_loop; [done|by exists p1|]; intros; by eapply onMessage_ok|].
  intros [] e2 p2 [[HI2 _] _] Hp2. eapply wp_bind, wp_deref; [done|]. destruct (ended p2) eqn:Ee.
  - apply wp_ret, goodAt_refl; [done|by exists p2].
  - by eapply advanceState_ok.
Qed.
End Keeps.
