(* ===== verification/EngineSends.v ===== *)
(** * Sending keeps the invariant

    Acknowledgements, the rings of the scheduler and the datagrams it hands out. *)
From Stdlib Require Import QArith.
From S2P Require Import Prelude Constants IPv4Address PacketFlags PacketHeader OrderedMap SendScheduler SchedulerRules ReliableLink Discovery.
From S2P Require Import Mailbox MailboxRuns Engine SessionSpec LinkIdentity EngineSessions EngineStep.
From S2P Require Import EngineLogic EngineEffects EngineInvariant EngineRefines EngineKeeps.
From stdpp Require Import relations.
Import Engine Sessions Loop.
#[local] Open Scope Z_scope.

(** ** A link asks its source *)
Lemma peek_source {S} `{!Link.MessageSource S} (R : S -> Prop) l k (src : S) :
  (forall s, R s -> R (Link.next s l).2) -> R src -> R (Link.peek l k src).2.
Proof.
  intros Hn Hs. specialize (Hn src Hs).
  assert (Hnext : forall k, l <> Media -> R (Link.peekNext l k src).2).
  { intros k' _. unfold Link.peekNext. destruct (s ← Link.mStreams k' l; c ← Link.cursor s; Some (s, c)) as [[s c]|]; [done|].
    destruct (Link.next src l) as [[m|] src']; [|done]. by destruct (Link.streamFor l k'). }
  unfold Link.peek. destruct (Link.mFailed k); [done|]. case_decide as El.
  - subst l. unfold Link.peekMedia. destruct (Link.mMediaCursor k); [done|]. by destruct (Link.next src Media) as [[m|] src'].
  - destruct (Link.mStreams k l) as [s|]; [|destruct (negb _); [done|by apply Hnext]].
    destruct (Link.nextLost s) as [r s']. destruct (_ && _); [done|]. destruct (Link.peerPaused s'); [done|].
    destruct (negb _); [done|]. destruct r as [[sq en]|]; [done|]. by apply Hnext.
Qed.

(** ** The bits of the lanes *)
Lemma lane_unset b l : (Z.land b (Link.bitOf l) =? 0) = true -> Z.testbit b (lane_to_Z l) = false.
Proof.
  intros H%Z.eqb_eq. pose proof (Z.land_spec b (Link.bitOf l) (lane_to_Z l)) as E. rewrite H, Z.bits_0 in E.
  replace (Z.testbit (Link.bitOf l) (lane_to_Z l)) with true in E by (by destruct l). by rewrite andb_true_r in E.
Qed.
Lemma bit_set b l k : Z.testbit (Z.lor b (Link.bitOf l)) (lane_to_Z k) = Z.testbit b (lane_to_Z k) || bool_decide (k = l).
Proof. rewrite Z.lor_spec. f_equal. by destruct l, k. Qed.
Lemma bit_clear b l k : Z.testbit (Z.land b (255 - Link.bitOf l)) (lane_to_Z k) = Z.testbit b (lane_to_Z k) && negb (bool_decide (k = l)).
Proof. rewrite Z.land_spec. f_equal. by destruct l, k. Qed.

(** ** What sending leaves alone *)
Record calm (e e' : NetworkEngine) : Prop := {
  ca_peers : mPeers e' = mPeers e;
  ca_events : mEvents e' = mEvents e;
  ca_box : mMailbox e' = mMailbox e;
  ca_ended : mEnded e' = mEnded e;
  ca_rest : same_rest e e';
}.
#[export] Instance calm_preorder : PreOrder calm.
Proof. split; [done|]. intros e1 e2 e3 [] []. split; [congruence..|by etrans]. Qed.

(** The scheduler of the engine, set aside. *)
Abbreviation withSched s e := (e <| mScheduler := s |>).

Lemma effect_sched id v v' evs ops e e' s : effect id v v' evs ops e e' -> effect id v v' evs ops (withSched s e) (withSched s e').
Proof. intros [H1 H2 H3 H4 H5 []]. by split. Qed.
Lemma calm_sched e e' s : calm e e' -> calm (withSched s e) (withSched s e').
Proof. intros [H1 H2 H3 H4 []]. by split. Qed.
Lemma same_sched e : withSched (mScheduler e) e = e.
Proof. by destruct e. Qed.

Section Sends.
Context {W : Type} `{!World W} (fuel : nat) `{!WorldOk W fuel} (stuck : Prop) (hist : list EngineEvent).
Abbreviation wp := (wp (W := W) stuck).
Abbreviation Inv := (Inv None hist).
Abbreviation good := (good hist).
Abbreviation goodAt := (goodAt hist).
Abbreviation fine := (fine hist).

Lemma calm_Inv e e' : Inv e -> calm e e' -> Inv e'.
Proof.
  intros HI [H1 H2 H3 H4 [R1 R2 R3 R4 R5 R6 R7]]. destruct HI as [Hre Hco]. split.
  - unfold absOf. by rewrite H1, H2, R4.
  - by rewrite R1, H1, R5, H4, H3, R4, R3, R6.
Qed.
Lemma calm_good {A} e (a : A) e' : Inv e -> calm e e' -> good e a e'.
Proof. intros HI Hc. split; [by eapply calm_Inv|]. destruct Hc as [_ _ _ _ []]. by split. Qed.

(** The tokens and the turns of the scheduler are not what the invariant is about. *)
Lemma Inv_sched e s : Inv e -> Sched.scheduler_ok s -> ring_change (fun _ _ => False) (mScheduler e) s -> Inv (withSched s e).
Proof.
  intros [Hre [Hid Hst Hgo Hen Hru Hdi Hsk Hsc Hra Hri]] Hs [Er Ep]. split; [done|]. split; try done; [cbn; congruence|].
  intros l x. cbn. rewrite Ep, Hri. tauto.
Qed.
Lemma spend_Inv e : Inv e -> Inv (e <| mScheduler ::= Sched.spend 1 |>).
Proof.
  intros HI. apply (Inv_sched e); [done|..].
  - apply Sched.spend_ok; [lia|apply HI].
  - destruct (spend_rings 1 (mScheduler e)) as [E1 E2]. apply ring_same; [done|]. intros l. by rewrite E2.
Qed.

Lemma sendBeacon_ok to_ r e : Inv e -> wp (sendBeacon to_ r) (good e) e.
Proof.
  intros HI. unfold sendBeacon. apply wp_bind, wp_gets. case_bool_decide; [by apply wp_ret, good_refl|].
  apply wp_bind, wp_gets. apply wp_bind, wp_ask. intros w. destruct (sendDatagram _ _ w).1; [by apply wp_ret, good_refl|].
  apply wp_bind, wp_modify. apply wp_modify. split; [|done]. by apply (spend_Inv (e <| mLoopStats ::= _ |>)).
Qed.

Lemma transmit_calm to_ d e : wp (transmit to_ d) (fun _ => calm e) e.
Proof.
  unfold transmit. apply wp_bind, wp_gets. case_bool_decide; [by apply wp_ret|]. apply wp_bind, wp_ask. intros w.
  destruct (sendDatagram _ _ w).1 as [[]|]; (apply wp_bind, wp_modify, wp_ret; by split) || by apply wp_ret.
Qed.

(** *** Acknowledgements *)
Lemma onLink_then {A B} id p (f : Link.ReliableLink -> A * Link.ReliableLink) (g : A -> Engine.M W B) e :
  Inv e -> mPeers e !! id = Some p -> (forall n k, named n k -> named n (f k).2) ->
  (forall a e1 p1 k, goodAt id e a e1 -> mPeers e1 !! id = Some p1 -> f ((link p) <| Link.mBudget := Some (mAssemblyBudget e) |>) = (a, k) ->
    link p1 = k -> wp (g a) (goodAt id e1) e1) -> wp (mbind g (onLink id f)) (goodAt id e) e.
Proof.
  intros HI Hp Hn Hg. apply wp_bind. eapply wp_onLink; [exact Hp|]. cbn zeta.
  set (k0 := (link p) <| Link.mBudget := Some (mAssemblyBudget e) |>) in *.
  assert (Hk : named (Link.mLocalStreamID (link p)) (f k0).2) by (by apply Hn).
  destruct (f k0) as [a k] eqn:Ef. cbn [fst snd] in *. match goal with |- EngineLogic.wp _ _ _ ?x => set (e1 := x) end.
  assert (He : effect id (viewOf p) (viewOf p) [] [] e e1).
  { change (viewOf p) with (viewOf (p <| link := k |>)) at 2. by apply effect_peer. }
  assert (G : goodAt id e a e1) by (eapply goodAt_effect; [exact He|]; eapply Inv_quiet; [exact HI|exact He|auto with netlink|done]).
  eapply wp_mono; [|eapply (Hg a e1 (p <| link := k |>) k G); [|done..]].
  - intros b e2. by eapply goodAt_trans.
  - cbn. by rewrite lookup_insert_eq.
Qed.

Lemma spend_at id p e : Inv e -> mPeers e !! id = Some p -> wp (modify (fun e => e <| mScheduler ::= Sched.spend 1 |>)) (goodAt id e) e.
Proof. intros HI Hp. apply wp_modify. split; [split; [by apply spend_Inv|done]|by exists p]. Qed.

Lemma ackLoop_ok id n : forall p e, Inv e -> mPeers e !! id = Some p -> (acksLeft (link p) <= n)%nat -> wp (ackLoop n id) (goodAt id e) e.
Proof.
  induction n as [|n IH]; intros p e HI Hp Hn; cbn [ackLoop];
    (eapply onLink_then; [done|exact Hp|intros; by apply peekAck_named|]); intros [d|] e1 p1 k [[HI1 _] _] Hp1 Ef Ek;
    try (apply wp_ret, goodAt_refl; [done|by exists p1]).
  - pose proof (peekAck_left _ _ _ Ef) as Hl. unfold acksLeft in Hl, Hn. cbn in Hl, Hn. lia.
  - eapply wp_bind, wp_deref; [done|]. apply wp_bind, wp_gets. apply wp_bind.
    eapply (wp_mono stuck _ (fun _ => calm e1)); [|by destruct (mSocketBlocked e1); [apply wp_ret|apply transmit_calm]].
    cbn beta. intros outcome e2 Hc. assert (Hp2 : mPeers e2 !! id = Some p1) by (by rewrite (ca_peers _ _ Hc)).
    pose proof (calm_good e1 () e2 HI1 Hc) as G2.
    apply (wp_mono stuck _ (goodAt id e2)); [intros [] e3 [G3 H3]; by split; [eapply good_trans|]|].
    case_bool_decide; [apply wp_modify; split; [by split; [apply G2|]|by exists p1]|].
    eapply (onLink_then id p1 (fun k => ((), Link.commitAck k))); [apply G2|done|done|].
    intros [] e3 p3 k3 [[HI3 _] _] Hp3 [= E3] Ek3. cbn beta. apply wp_bind, wp_modify.
    pose proof (peekAck_left _ _ _ Ef) as Hl.
    eapply wp_mono; [|apply (IH p3 (e3 <| mScheduler ::= Sched.spend 1 |>)); [by apply spend_Inv|done|]].
    + intros [] e4 [[HI4 Hs4] H4]. split; [|done]. split; [done|]. etrans; [|exact Hs4]. done.
    + rewrite Ek3, <- E3, Ek. unfold acksLeft in *. cbn in Hl, Hn |- *. lia.
Qed.

Lemma sendAcks_ok id p e : Inv e -> mPeers e !! id = Some p -> wp (sendAcks id) (goodAt id e) e.
Proof.
  intros HI Hp. unfold sendAcks. eapply wp_bind, wp_deref; [done|]. eapply ackLoop_ok; [done..|].
  unfold acksLeft. destruct (_ && _); lia.
Qed.

(** *** Peeking *)

(** Operations that say nothing of any session. *)
Definition silent (ops : list action) : Prop := forall x s, entryRun x ops s = s.

(** The engine while a source is asked. *)
Definition asked (e : NetworkEngine) (s : PeerSource W) : Prop :=
  exists woken backlog m inboxes ops,
    srcEngine s = e <| mWoken := woken |> <| mBacklogBytes := backlog |> <| mMailbox := m |> <| mInboxes := inboxes |> /\
    threads (mMailbox e) ops m /\ silent ops.

Lemma next_asked e s l : asked e s -> asked e (Link.next s l).2.
Proof.
  intros (wk & b & m & i & ops & Es & Ht & Ho). unfold Link.next, peerSource_next. case_bool_decide.
  { destruct (srcControl s); cbn [snd]; by exists wk, b, m, i, ops. }
  destruct (negb _); [by exists wk, b, m, i, ops|].
  pose proof (wp_mailbox fuel False (Box.take (srcPeer s) l) (fun _ e' => exists m1, meddled (srcEngine s) m1 /\
    e' = setMailbox (Box.take (srcPeer s) l (mMailbox m1)).2 m1) (srcEngine s)) as Hw.
  specialize (Hw ltac:(intros e' He'; by exists e') (srcWorld s)).
  destruct (mailbox _ _ _) as [[[mail e'] w']|]; [|done]. destruct Hw as (m1 & (wk1 & b1 & m2 & i1 & -> & Ht1) & ->).
  unfold asked. cbn [snd srcEngine]. rewrite Es in *. cbn in Ht1.
  match goal with |- context [setMailbox ?mb ?en] => set (m3 := mb); exists (mWoken (setMailbox m3 en)), b1, m3, i1, (ops ++ [Take (srcPeer s) l]) end.
  split_and!; [done| |].
  - apply (threads_trans _ _ m); [done|]. apply (th_own _ [] m2 (Take (srcPeer s) l)); done.
  - intros x st. rewrite entryRun_app, Ho. done.
Qed.

Lemma peekLink_effect id l p e : mPeers e !! id = Some p ->
  wp (peekLink id l) (fun _ e' => exists ops, silent ops /\ effect id (viewOf p) (viewOf p) [] ops e e') e.
Proof.
  intros Hp w. unfold peekLink. rewrite Hp.
  pose proof (peek_source (asked e) l (link p) (mkSource id (control p) (transfersData p) e w) (fun s => next_asked e s l)) as Ha.
  pose proof (peek_named (Link.mLocalStreamID (link p)) l (link p) (mkSource id (control p) (transfersData p) e w) eq_refl) as Hn.
  destruct (Link.peek _ _ _) as [[d k] s]. cbn [fst snd] in *. destruct Ha as (wk & b & m & i & ops & -> & Ht & Ho).
  - exists (mWoken e), (mBacklogBytes e), (mMailbox e), (mInboxes e), []. split_and!; [by destruct e|constructor|done].
  - exists ops. split; [done|]. split; try done.
    + exists p, (p <| link := k |> <| control := srcControl s |>). by split_and!.
    + cbn. by rewrite app_nil_r.
    + by left.
Qed.

Lemma peekLink_ok id l p e : Inv e -> mPeers e !! id = Some p ->
  wp (peekLink id l) (fun a e' => goodAt id e a e' /\ mScheduler e' = mScheduler e /\
    exists p', mPeers e' !! id = Some p' /\ scheduled p' = scheduled p) e.
Proof.
  intros HI Hp. eapply wp_mono; [|by eapply peekLink_effect]. cbn beta. intros d e' (ops & Ho & He).
  assert (HI' : Inv e') by (eapply Inv_quiet; [exact HI|exact He|intros x s _; apply Ho|apply Ho]).
  split; [by eapply goodAt_effect|]. destruct He as [(q & q' & Hq & Eq & _ & _ & [_ _ Hs]) _ _ _ _ []]. split; [done|].
  rewrite Hp in Hq. injection Hq as <-. exists q'. by rewrite Eq, lookup_insert_eq.
Qed.

(** *** The rings *)
Lemma Inv_ring e s id p b : Inv e -> mPeers e !! id = Some p -> Sched.scheduler_ok s -> Sched.mRate s = Sched.mRate (mScheduler e) ->
  (forall k x, x ∈ Sched.peers (Sched.mRings s k) <->
    if decide (x = id) then Z.testbit b (lane_to_Z k) = true else x ∈ Sched.peers (Sched.mRings (mScheduler e) k)) ->
  Inv (e <| mPeers ::= <[id := p <| scheduled := b |>]> |> <| mScheduler := s |>).
Proof.
  intros HI Hp Hs Hr Hk. set (p' := p <| scheduled := b |>). set (e' := _ <| mScheduler := s |>). destruct HI as [Hre [Hid Hst Hgo Hen Hru Hdi Hsk Hsc Hra Hri]].
  assert (Hl : forall x q', <[id := p']> (mPeers e) !! x = Some q' -> exists q, mPeers e !! x = Some q /\ infoId (peerInfo q') = infoId (peerInfo q) /\
    Link.mLocalStreamID (link q') = Link.mLocalStreamID (link q) /\ viewOf q' = viewOf q).
  { intros x q' [[<- <-]|[Hne Hq]]%lookup_insert_Some; [by exists p|by exists q']. }
  assert (Hf : viewOf <$> <[id := p']> (mPeers e) = viewOf <$> mPeers e).
  { rewrite fmap_insert. apply insert_id. by rewrite lookup_fmap, Hp. }
  split; [unfold absOf, e'; cbn; by rewrite Hf|]. unfold e'. cbn. split; try done.
  - intros x q' (q & Hq & -> & _)%Hl. by apply Hid.
  - intros t x. rewrite Hst. destruct (decide (x = id)) as [->|Hne].
    + rewrite lookup_insert_eq, Hp. split; intros (q & [= <-] & E); eexists; by split.
    + by rewrite lookup_insert_ne.
  - intros x q' (q & Hq & _ & _ & Hv)%Hl E. apply (Hgo x q Hq). by injection Hv as _ _ _ _ _ _ <- _.
  - intros x. specialize (Hen x). destruct (decide (x = id)) as [->|Hne]; [by rewrite lookup_insert_eq; rewrite Hp in Hen|by rewrite lookup_insert_ne].
  - intros E. destruct (Hsk E) as [E0 _]. by rewrite E0, lookup_empty in Hp.
  - congruence.
  - intros k x. rewrite Hk. case_decide as Hx.
    + subst x. rewrite lookup_insert_eq. split; [intros H; by exists p'|]. by intros (q & [= <-] & H).
    + by rewrite lookup_insert_ne, Hri.
Qed.

Lemma scheduleLane_ok id l p e : Inv e -> mPeers e !! id = Some p -> wp (scheduleLane id l) (goodAt id e) e.
Proof.
  intros HI Hp. unfold scheduleLane. eapply wp_bind, wp_deref; [done|].
  destruct (Z.land (scheduled p) (Link.bitOf l) =? 0) eqn:Eb; [|apply wp_ret, goodAt_refl; [done|by exists p]].
  apply lane_unset in Eb. apply wp_bind. eapply wp_mono; [|by eapply peekLink_ok]. cbn beta.
  intros d e1 (G & Es & p1 & Hp1 & Eb1). apply wp_when; intros _; [|by apply G].
  apply wp_bind, wp_modify. eapply wp_setPeer; [exact Hp1|]. split; [|cbn; rewrite lookup_insert_eq; by eexists].
  destruct G as [[HI1 Hst1] _]. split; [|etrans; [exact Hst1|by split]].
  assert (Hn : id ∉ Sched.peers (Sched.mRings (mScheduler e1) l)).
  { rewrite (co_rings _ _ _ _ _ _ _ _ _ (proj2 HI1)). intros (q & Hq & E). rewrite Hp1 in Hq. injection Hq as <-. congruence. }
  assert (Hs : Sched.scheduler_ok (Sched.add l id (mScheduler e1))) by (apply Sched.add_ok; [apply HI1|done]).
  apply (Inv_ring e1 _ id p1 _ HI1 Hp1 Hs eq_refl). intros k x. cbn. destruct (decide (x = id)) as [->|Hx].
  - rewrite bit_set. pose proof (co_rings _ _ _ _ _ _ _ _ _ (proj2 HI1) k id) as Hr.
    destruct (decide (k = l)) as [->|Hk]; cbn.
    + rewrite (bool_decide_true (l = l)), orb_true_r by done. split; [done|]. intros _. apply elem_of_app. right. by left.
    + rewrite (bool_decide_false (k = l)), orb_false_r, Hr by done. split; [intros (q & Hq & E); congruence|]. by exists p1.
  - destruct (decide (k = l)) as [->|Hk]; [|done]. cbn. rewrite elem_of_app, list_elem_of_singleton. tauto.
Qed.

Lemma schedule_ok id p e : Inv e -> mPeers e !! id = Some p -> wp (schedule id) (goodAt id e) e.
Proof. intros HI Hp. unfold schedule. apply goodAt_loop; [done|by exists p|]. intros; by eapply scheduleLane_ok. Qed.

(** *** The datagrams *)
Lemma sched_quiet s id v ops e e' : Inv (withSched s e) -> effect id v v [] ops e e' -> silent ops -> Inv (withSched s e') /\ steady e e'.
Proof.
  intros HI He Ho. split; [|by eapply effect_steady]. eapply Inv_quiet; [exact HI|by apply effect_sched|intros x st _; apply Ho|apply Ho].
Qed.

(** The callback of the scheduler, whose rings are [s]. *)
Definition sendsOk (s : Sched.SendScheduler) (l : Lane) (id : PeerId) (e : NetworkEngine) (r : Sched.Result) (e' : NetworkEngine) : Prop :=
  steady e e' /\
  match r with
  | Sched.Empty => forall s', Sched.scheduler_ok s' -> ring_change (fun k x => k = l /\ x = id) s s' -> Inv (withSched s' e')
  | _ => Inv (withSched s e')
  end.

Lemma nothing_left s l id p e : Inv (withSched s e) -> mPeers e !! id = Some p ->
  forall s', Sched.scheduler_ok s' -> ring_change (fun k x => k = l /\ x = id) s s' ->
  Inv (withSched s' (e <| mPeers ::= <[id := p <| scheduled ::= fun b => Z.land b (255 - Link.bitOf l) |>]> |>)).
Proof.
  intros HI Hp s' Hs' [Hr Hpe]. apply (Inv_ring (withSched s e) s' id p _ HI Hp Hs' Hr).
  intros k x. cbn. rewrite Hpe. pose proof (co_rings _ _ _ _ _ _ _ _ _ (proj2 HI) k x) as Hk. cbn in Hk.
  destruct (decide (x = id)) as [->|Hx]; [|intuition congruence]. rewrite bit_clear, Hk, Hp. destruct (decide (k = l)) as [->|Hne].
  - rewrite (bool_decide_true (l = l)), andb_false_r by done. split; [intros [_ H]; by destruct H|done].
  - rewrite (bool_decide_false (k = l)), andb_true_r by done. split; [intros [(q & [= <-] & E) _]; done|]. intros E. split; [by exists p|]. by intros [? _].
Qed.

Lemma sendNext_ok now s l id e : Inv (withSched s e) -> id ∈ Sched.peers (Sched.mRings s l) -> wp (sendNext now l id) (sendsOk s l id e) e.
Proof.
  intros HI Hin. apply (co_rings _ _ _ _ _ _ _ _ _ (proj2 HI)) in Hin as (p & Hp & _). cbn in Hp.
  unfold sendNext. apply wp_bind, wp_find. rewrite Hp. apply wp_bind. eapply wp_mono; [|by eapply peekLink_effect]. cbn beta.
  intros d e1 (ops & Ho & He). destruct (sched_quiet s _ _ _ _ _ HI He Ho) as [HI1 Hst1].
  destruct (effect_lookup _ _ _ _ _ _ _ He) as (p1 & Hp1 & _). destruct d as [d|].
  - eapply wp_bind, wp_deref; [done|]. apply wp_bind. eapply wp_mono; [|apply transmit_calm]. cbn beta. intros outcome e2 Hc.
    assert (HI2 : Inv (withSched s e2)) by (eapply calm_Inv; [exact HI1|by apply calm_sched]).
    assert (Hst2 : steady e e2) by (etrans; [exact Hst1|]; destruct Hc as [_ _ _ _ []]; by split).
    assert (Hp2 : mPeers e2 !! id = Some p1) by (by rewrite (ca_peers _ _ Hc)).
    case_bool_decide; [apply wp_ret; by split|]. apply wp_bind.
    eapply wp_mono; [|eapply onLink_effect_; [exact Hp2|intros; by apply commit_named]]. cbn beta. intros [] e3 He3.
    destruct (sched_quiet s _ _ _ _ _ HI2 He3 (fun _ _ => eq_refl)) as [HI3 Hst3]. destruct (effect_lookup _ _ _ _ _ _ _ He3) as (p3 & Hp3 & _).
    apply wp_bind. eapply wp_mono; [|eapply (setPeer_effect stuck id p3); done]. cbn beta. intros [] e4 He4.
    destruct (sched_quiet s _ _ _ _ _ HI3 He4 (fun _ _ => eq_refl)) as [HI4 Hst4].
    apply wp_ret. split; [by do 2 (etrans; [done|])|]. by case_bool_decide.
  - apply wp_bind. eapply wp_setPeer; [exact Hp1|]. apply wp_ret. split; [etrans; [exact Hst1|by split]|]. by apply nothing_left.
Qed.

(** The rings hold no more than there are peers. *)
Lemma ring_length l e : Inv e -> zlen (Sched.peers (Sched.mRings (mScheduler e) l)) <= MaxPeers.
Proof.
  intros HI. pose proof (ao_size _ (Inv_abs _ _ _ HI)) as Hsz. cbn in Hsz. rewrite map_size_fmap in Hsz.
  destruct HI as [_ Hco]. pose proof (Sched.ring_peers _ (Sched.ok_rings _ (co_sched _ _ _ _ _ _ _ _ _ Hco) l)) as Hn.
  assert (Hs : Sched.peers (Sched.mRings (mScheduler e) l) ⊆+ (map_to_list (mPeers e)).*1).
  { apply NoDup_submseteq; [done|]. intros x (p & Hp & _)%(co_rings _ _ _ _ _ _ _ _ _ Hco). apply list_elem_of_fmap. exists (x, p).
    split; [done|]. by apply elem_of_map_to_list. }
  apply submseteq_length in Hs. rewrite length_fmap, length_map_to_list in Hs. unfold zlen. lia.
Qed.

(** There is a rate, and [fuel] is enough for it. *)
Definition paced (cfg : EngineConfig) : Prop :=
  cfgMaxSendRate cfg <> 0 /\ MaxPeers + Sched.burstOf (cfgMaxSendRate cfg) <= Z.of_nat fuel.

Lemma sendData_ok now e : Inv e -> stuck \/ paced (mConfig e) -> wp (sendData fuel now) (good e) e.
Proof.
  intros HI Hpace w. unfold sendData. match goal with |- context [Sched.run ?c _ _ _] => set (callback := c) end.
  set (J := fun (s : Sched.SendScheduler) (st : option (NetworkEngine * W)) =>
    match st with Some (e', _) => Inv (withSched s e') /\ steady e e' | None => stuck end).
  assert (H0 : J (mScheduler e) (Some (e, w))) by (split; [by rewrite same_sched|done]).
  assert (Hs : Sched.scheduler_ok (mScheduler e)) by apply HI.
  destruct (Sched.run callback fuel (mScheduler e) (Some (e, w))) as [[s' st']|] eqn:Er.
  - destruct (run_keeps callback J) with (5 := Er) as [Hs' HJ']; [..|done|done|].
    + intros s s1 [[e1 w1]|] HJ Hs1 Hc; [|done]. destruct HJ as [HI1 Hst1]. split; [|done].
      exact (Inv_sched (withSched s e1) s1 HI1 Hs1 Hc).
    + intros s [[e1 w1]|] l x HJ Hx; cbn [callback]; [|exact HJ]. destruct HJ as [HI1 Hst1].
      pose proof (sendNext_ok now s l x e1 HI1 Hx w1) as Hsn. destruct (sendNext now l x e1 w1) as [[[r e2] w2]|]; [|done].
      destruct Hsn as [Hst2 Hr]. assert (Hst : steady e e2) by (by etrans). destruct r; try (by split).
      intros s1 Hs1 Hc. split; [by apply Hr|done].
    + destruct st' as [[e' w']|]; [|done]. destruct HJ' as [HI' Hst']. split; [done|]. etrans; [exact Hst'|]. by split.
  - destruct Hpace as [|[Hr Hf]]; [done|]. destruct (run_back callback (mScheduler e) (Some (e, w)) fuel Hs) as [x Ex].
    + rewrite (co_rate _ _ _ _ _ _ _ _ _ (proj2 HI)). done.
    + intros l. rewrite (co_rate _ _ _ _ _ _ _ _ _ (proj2 HI)). pose proof (ring_length l e HI). lia.
    + congruence.
Qed.
End Sends.
