(* ===== verification/EngineReceives.v ===== *)
(** * Receiving and the timers keep the invariant *)
From Stdlib Require Import QArith.
From S2P Require Import Prelude Constants IPv4Address Beacon PacketFlags PacketHeader OrderedMap SendScheduler ReliableLink ControlMessage Discovery.
From S2P Require Import Mailbox MailboxRuns Engine SessionSpec LinkIdentity EngineSessions EngineStep.
From S2P Require Import EngineLogic EngineEffects EngineInvariant EngineRefines EngineKeeps EngineSends.
From stdpp Require Import relations.
Import Engine Sessions Loop.
#[local] Open Scope Z_scope.

Lemma effect_keeps id v v' evs ops e e' : effect id v v' evs ops e e' ->
  forall x, is_Some (mPeers e !! x) -> is_Some (mPeers e' !! x).
Proof.
  intros [(p & p' & _ & -> & _) _ _ _ _ _] x Hx. destruct (decide (x = id)) as [->|]; [rewrite lookup_insert_eq; by eexists|].
  by rewrite lookup_insert_ne.
Qed.

Lemma lose_set (x : Z) (K S : gset Z) : x ∉ K -> x ∉ S -> (K ∪ ({[x]} ∪ S)) ∖ {[x]} = K ∪ S.
Proof. set_solver. Qed.

Section Receives.
Context {W : Type} `{!World W} (fuel : nat) `{!WorldOk W fuel} (stuck : Prop) (hist : list EngineEvent).
Abbreviation wp := (wp (W := W) stuck).
Abbreviation Inv := (Inv None hist).
Abbreviation good := (good hist).
Abbreviation goodAt := (goodAt hist).
Abbreviation fine := (fine hist).

(** The sockets stay as they are, too. *)
Definition kept (e : NetworkEngine) {A} (_ : A) (e' : NetworkEngine) : Prop :=
  Inv e' /\ mConfig e' = mConfig e /\ mIoSocket e' = mIoSocket e.
Lemma kept_refl {A} e (a : A) : Inv e -> kept e a e.
Proof. by split. Qed.
Lemma kept_trans {A B} e e1 e2 (a : A) (b : B) : kept e a e1 -> kept e1 b e2 -> kept e b e2.
Proof. intros (_ & H1 & H2) (H3 & H4 & H5). split_and!; [done|congruence..]. Qed.
Lemma good_kept {A} e (a : A) e' : good e a e' -> kept e a e'.
Proof. intros [HI []]. by split_and!. Qed.
Lemma wp_kept {A} (m : Engine.M W A) e : wp m (good e) e -> wp m (kept e) e.
Proof. apply wp_mono. intros a e'. apply good_kept. Qed.
Lemma wp_kept_fine {A} (m : Engine.M W A) e : wp m (kept e) e -> wp m (fine e) e.
Proof. apply wp_mono. intros a e' (HI & Hc & _). by split. Qed.

Lemma handleBeacon_ok from d now e : Inv e -> mIoSocket e <> None -> wp (Loop.onBeacon from d now) (kept e) e.
Proof.
  intros HI Hso. unfold Loop.onBeacon. apply wp_bind, wp_gets. destruct (mShutdown e); [by apply wp_ret, kept_refl|].
  apply wp_bind, wp_gets. pose proof (co_disc _ _ _ _ _ _ _ _ _ (proj2 HI)) as Hd.
  destruct (records from d (mDiscovery e)) as [b|] eqn:Er.
  - destruct (onBeacon_some from d now (mDiscovery e) b Hd Er) as (seen & E & Ep & Es & _). rewrite E.
    pose proof (Discovery.onBeacon_ok _ _ _ _ _ _ Hd E) as Hd'. apply wp_bind, wp_must; [by eexists|]. intros ? [= <-].
    set (d' := (mDiscovery e) <| mKnown ::= _ |>) in *. apply wp_bind, wp_modify. rewrite Ep. cbn [info infoId infoOf].
    set (e1 := e <| mDiscovery := d' |>).
    apply wp_bind. eapply (wp_mono stuck _ (fun _ e2 => Inv e2 /\ mConfig e2 = mConfig e /\ mIoSocket e2 = mIoSocket e)).
    + cbn beta. intros _ e2 (HI2 & Hc2 & Hs2). apply wp_when; intros _; [|by split_and!].
      eapply wp_mono; [|by apply sendBeacon_ok]. intros [] e3 [HI3 [S1 S2 _ _ _]]. split_and!; [done|congruence..].
    + apply wp_when; rewrite Es; intros Eq.
      * apply wp_bind, wp_modify, wp_modify. split_and!; [|done..].
        eapply (Inv_told hist e _ [PeerDiscovered (instanceId b) (infoOf from b)]); try done.
        right. cbn. rewrite app_assoc, dom_insert_L. apply (as_discover (absOf hist e)).
      * split_and!; [|done..]. eapply (Inv_told hist e e1 []); try done; [by rewrite app_nil_r|]. left. split; [done|].
        destruct (bool_decide_reflect (Discovery.find (instanceId b) (mDiscovery e) = Some (mkKnown (infoOf from b) from))) as [Ef|];
          [|by vm_compute in Eq].
        unfold Discovery.find in Ef. destruct (mKnown (mDiscovery e) !! instanceId b) eqn:Ek; [|done].
        unfold e1, d'. cbn. rewrite dom_insert_L. assert (instanceId b ∈ dom (mKnown (mDiscovery e))) by (apply elem_of_dom; by eexists). set_solver.
  - rewrite onBeacon_none by done. apply wp_bind, wp_must; [by eexists|]. intros ? [= <-]. apply wp_bind, wp_modify, wp_ret.
    replace (e <| mDiscovery := mDiscovery e |>) with e by (by destruct e). by apply kept_refl.
Qed.

(** *** A Hello *)
Lemma replaceSession_ok id e : Inv e ->
  wp (replaceSession id) (fun r e' => good e r e' /\ (r <> None -> mPeers e' !! id = None)) e.
Proof.
  intros HI. unfold replaceSession. apply wp_bind, wp_find. destruct (mPeers e !! id) as [p|] eqn:Hp.
  - apply wp_bind, wp_gets. destruct (_ && _) eqn:Ec.
    + apply andb_true_iff in Ec as [Es Ei]. apply bool_decide_eq_true in Es.
      destruct (id <? mId e); [apply wp_ret; by split; [apply good_refl|]|]. apply wp_bind.
      eapply wp_mono; [|eapply (erase_ok fuel); [exact HI|exact Hp|by left]]. cbn beta. intros _ e1 [G Hr]. apply wp_ret.
      split; [exact G|]. by rewrite (rm_peers _ _ _ _ _ Hr), lookup_delete_eq.
    + assert (Hb : wp (report id ByLost;; erase id;; mret (Some false))
        (fun r e' => good e r e' /\ (r <> None -> mPeers e' !! id = None)) e); [|exact Hb].
      pose proof (report_erase_ok (W := W) fuel stuck hist id ByLost p e HI Hp) as Hre. intros w. specialize (Hre w).
      unfold mbind, m_bind in *. destruct (report id ByLost e w) as [[[a e1] w1]|]; [|done].
      destruct (erase id e1 w1) as [[[a' e2] w2]|]; [|done]. destruct Hre as [G Ed]. split; [exact G|]. by rewrite Ed, lookup_delete_eq.
  - apply wp_ret. by split; [apply good_refl|].
Qed.

Definition found (e : NetworkEngine) (r : option PeerId) (e' : NetworkEngine) : Prop :=
  kept e r e' /\ forall id, r = Some id -> is_Some (mPeers e' !! id).
Lemma not_found e : Inv e -> found e None e.
Proof. intros HI. split; [by apply kept_refl|done]. Qed.

Lemma welcome_ok id b e p : EngineInvariant.Inv (Some id) hist e -> mPeers e !! id = Some p -> viewOf p = freshView ->
  wp (setPeer id (fun p => p <| announced := b |>);; mailbox_ (Box.publishSession id Box.Pending);; sendAccept id)
    (fun _ e' => Inv e' /\ steady e e' /\ is_Some (mPeers e' !! id)) e.
Proof.
  intros HI Hp Hv. eapply wp_then; [by eapply (setPeer_effect stuck id p)|]. intros [] e1 p1 He1 Hp1 Hv1.
  eapply wp_then; [by eapply (mailbox_effect_ fuel stuck id p1 _ (PublishSession id Box.Pending))|]. intros [] e2 p2 He2 Hp2 Hv2.
  rewrite Hv1 in He2, Hv2. pose proof (effect_trans _ _ _ _ _ _ _ _ _ _ _ He1 He2) as He. cbn [app] in He.
  change (viewOf (p <| announced := b |>)) with ((viewOf p) <| vAnnounced := b |>) in He, Hv2. rewrite Hv in He, Hv2.
  assert (HI2 : Inv e2) by (eapply Inv_entered; [exact HI|exact He|apply vs_announce|done|by split]).
  eapply wp_mono; [|eapply (sendAccept_ok fuel stuck hist id p2 e2 HI2 Hp2); right].
  - cbn beta. intros _ e3 [[HI3 Hs3] H3]. split_and!; [done| |done]. etrans; [|exact Hs3]. by eapply effect_steady.
  - injection Hv2 as -> -> _ _ _ _ _ _. done.
Qed.

Lemma ask_ok id until e p : EngineInvariant.Inv (Some id) hist e -> mPeers e !! id = Some p -> viewOf p = freshView ->
  wp (setPeer id (fun p => p <| state := AwaitingDecision |> <| stateDeadline := until |> <| announced := true |>);;
      mailbox_ (Box.publishSession id Box.Requested);;
      p ← deref id;
      emit (ConnectionRequest id (peerInfo p))) (fun _ e' => Inv e' /\ steady e e' /\ is_Some (mPeers e' !! id)) e.
Proof.
  intros HI Hp Hv. eapply wp_then; [by eapply (setPeer_effect stuck id p)|]. intros [] e1 p1 He1 Hp1 Hv1.
  eapply wp_then; [by eapply (mailbox_effect_ fuel stuck id p1 _ (PublishSession id Box.Requested))|]. intros [] e2 p2 He2 Hp2 Hv2.
  eapply wp_bind, wp_deref; [exact Hp2|]. eapply wp_mono; [|eapply (emit_effect stuck id p2); exact Hp2]. cbn beta. intros [] e3 He3.
  rewrite Hv2 in He3. rewrite Hv1 in He2, He3. pose proof (effect_trans _ _ _ _ _ _ _ _ _ _ _ He1 (effect_trans _ _ _ _ _ _ _ _ _ _ _ He2 He3)) as He.
  cbn [app] in He. change (viewOf (p <| state := AwaitingDecision |> <| stateDeadline := until |> <| announced := true |>)) with
    ((viewOf p) <| vState := AwaitingDecision |> <| vUntil := until |> <| vAnnounced := true |>) in He. rewrite Hv in He.
  split_and!; [|by eapply effect_steady|eapply effect_keeps; [exact He|by exists p]].
  eapply Inv_entered; [exact HI|exact He|apply vs_ask|done|by split].
Qed.

Lemma onHello_ok from packet now e : Inv e -> mIoSocket e <> None -> wp (onHello fuel from packet now) (found e) e.
Proof.
  intros HI Hso. unfold onHello. apply wp_bind, wp_gets. destruct (knownLink _ _ e) as [again|] eqn:Ek.
  { apply wp_ret. split; [by apply kept_refl|]. intros id [= <-]. apply List.find_some in Ek as [_ Ek].
    by destruct (mPeers e !! again). }
  apply wp_bind, wp_must; [apply decodeHello_total|]. intros [h|] _; [|by apply wp_ret, not_found].
  apply wp_bind, wp_gets. destruct (negb _); [by apply wp_ret, not_found|]. cbn zeta. apply wp_bind.
  eapply wp_mono; [|by apply replaceSession_ok]. cbn beta. intros r e1 [[HI1 Hst1] Hn].
  assert (Hnf : found e None e1) by (split; [split_and!; [done|apply Hst1..]|done]).
  destruct r as [crossing|]; [|by apply wp_ret]. apply wp_bind, wp_gets. apply wp_bind, wp_gets.
  destruct (Z.leb_spec MaxPeers (Z.of_nat (size (mPeers e1)))) as [|Hsz]; [by apply wp_ret|]. destruct (MaxPendingSessions <=? _); [by apply wp_ret|].
  cbn [orb]. apply wp_bind. match goal with |- EngineLogic.wp _ (addPeer _ ?i _ _) _ _ => set (info := i) end.
  eapply wp_mono; [|apply (addPeer_ok fuel stuck hist info from now e1 HI1); [by apply Hn|done|by rewrite (st_socket _ _ Hst1)]].
  cbn beta. intros peer e2 (-> & HI2 & Hst2 & p & Hp & Hv & _). apply wp_bind, wp_gets. cbn [infoId info] in *.
  assert (Hend : forall e3, Inv e3 /\ steady e2 e3 /\ is_Some (mPeers e3 !! fromInstance h) ->
    wp (mret (Some (fromInstance h))) (found e) e3).
  { intros e3 (HI3 & Hst3 & H3). apply wp_ret. split; [|by intros id [= <-]].
    assert (Hst : steady e e3) by (by do 2 (etrans; [done|])). split_and!; [done|apply Hst..]. }
  destruct (_ || _); apply wp_bind.
  - eapply wp_mono; [|by eapply welcome_ok]. cbn beta. intros _ e3. apply Hend.
  - eapply wp_mono; [|by eapply ask_ok]. cbn beta. intros _ e3. apply Hend.
Qed.

Lemma receiver_ok from packet now e : Inv e -> mIoSocket e <> None -> wp (receiver fuel from packet now) (found e) e.
Proof.
  intros HI Hso. unfold receiver. cbn zeta. destruct (_ =? _).
  - destruct (negb _); [by apply wp_ret, not_found|by apply onHello_ok].
  - apply wp_bind, wp_gets. destruct (mByStream e !! _) as [id|]; [|by apply wp_ret, not_found].
    apply wp_bind, wp_find, wp_ret. split; [by apply kept_refl|]. intros x. destruct (mPeers e !! id) eqn:E; [|done]. intros [= <-]. by exists p.
Qed.

(** *** Datagrams *)
Lemma taken_ok id packet now p e : Inv e -> mPeers e !! id = Some p ->
  wp (onLink_ id (Link.onPacket packet now);; touch id) (goodAt id e) e.
Proof.
  intros HI Hp. eapply wp_at_then; [eapply (onLink_quiet stuck hist id p (fun k => ((), Link.onPacket packet now k))); [done..|]|].
  - intros n k Hk. by apply onPacket_named.
  - intros [] e1 p1 [[HI1 _] _] Hp1. by eapply touch_at.
Qed.

Lemma handleDatagram_ok now from d e : Inv e -> mIoSocket e <> None -> wp (handleDatagram fuel now from d) (kept e) e.
Proof.
  intros HI Hso. unfold handleDatagram. apply wp_bind, wp_must; [apply some_unless, isBeacon_safe|]. intros b _.
  destruct b; [by apply handleBeacon_ok|]. apply wp_bind, wp_must; [apply decodePacket_total|].
  intros [packet|] _; [|by apply wp_ret, kept_refl]. apply wp_bind. eapply wp_mono; [|by apply receiver_ok]. cbn beta.
  intros [id|] e1 [K1 Hid]; [|by apply wp_ret]. destruct (Hid id eq_refl) as [p Hp]. assert (HI1 : Inv e1) by apply K1.
  apply (wp_mono stuck _ (kept e1)); [intros [] e2; by eapply kept_trans|]. apply wp_kept.
  assert (Hret : wp (mret ()) (good e1) e1) by (by apply wp_ret, good_refl).
  eapply wp_bind, wp_deref; [done|]. destruct (ended p) eqn:Ee; [done|]. cbn [orb]. destruct (negb _); [done|]. cbn zeta.
  destruct (_ && _); [|by eapply wp_goodAt, taken_ok].
  destruct (bool_decide_reflect (state p = Connecting)) as [Es|]; [|done]. cbn [negb orb]. destruct (_ || _); [done|].
  eapply (wp_goodAt stuck hist id), wp_at_then; [by eapply (setConnected_ok fuel)|]. intros [] e2 p2 [[HI2 _] _] Hp2. by eapply taken_ok.
Qed.

Lemma receiveLoop_ok port handle n : forall e, Inv e -> mIoSocket e <> None ->
  (forall from d e, Inv e -> mIoSocket e <> None -> wp (handle from d) (kept e) e) -> wp (receiveLoop port handle n) (kept e) e.
Proof.
  induction n as [|n IH]; intros e HI Hso Hh; cbn [receiveLoop]; [by apply wp_ret, kept_refl|]. apply wp_bind, wp_ask. intros w.
  destruct (receiveDatagram port w).1 as [er|[from d]]; [destruct er; try (by apply wp_ret, kept_refl); by apply IH|].
  apply wp_bind. eapply wp_mono; [|by apply Hh]. cbn beta. intros [] e1 K1. pose proof K1 as (HI1 & _ & Hs1).
  eapply wp_mono; [|apply IH; [done|congruence|done]]. intros [] e2. by eapply kept_trans.
Qed.

Lemma receivePending_ok now e : Inv e -> wp (receivePending fuel now) (fine e) e.
Proof.
  intros HI. unfold receivePending. apply wp_bind, wp_gets. case_bool_decide as Hso; [by apply wp_ret, fine_refl|].
  apply wp_kept_fine, wp_bind. eapply wp_mono; [|apply receiveLoop_ok; [done..|intros; by apply handleDatagram_ok]].
  cbn beta. intros [] e1 K1. pose proof K1 as (HI1 & _ & Hs1). apply wp_bind, wp_gets. apply wp_when; intros _; [|done].
  eapply wp_mono; [|apply receiveLoop_ok; [done|congruence|intros; by apply handleBeacon_ok]]. intros [] e2. by eapply kept_trans.
Qed.

(** *** Every peer in turn *)
Lemma each_peer (f : PeerId -> Engine.M W ()) e : Inv e ->
  (forall id p e, Inv e -> mPeers e !! id = Some p -> wp (f id) (fun _ e' => effect id (viewOf p) (viewOf p) [] [] e e') e) ->
  wp (ids ← gets (fun e => keysOf (mPeers e)); forEach f ids) (good e) e.
Proof.
  intros HI Hf. apply wp_bind, wp_gets.
  eapply wp_mono; [|apply (wp_forEach stuck f (fun e' => good e () e' /\ forall x, x ∈ keysOf (mPeers e) -> is_Some (mPeers e' !! x)))].
  - by intros [] e' [].
  - split; [by apply good_refl|]. intros x. apply elem_of_keysOf.
  - intros x e1 Hx [G Hd]. destruct (Hd x Hx) as [p Hp]. eapply wp_mono; [|eapply Hf; [apply G|exact Hp]]. cbn beta. intros [] e2 He.
    split; [eapply (good_trans _ _ _ _ () ()); [exact G|]; split; [|by eapply effect_steady]|].
    + eapply Inv_quiet; [apply G|exact He|auto with netlink|done].
    + intros y Hy. eapply effect_keeps; [exact He|]. by apply Hd.
Qed.

Lemma link_touch_effect id p (f : Link.ReliableLink -> Link.ReliableLink) e : mPeers e !! id = Some p ->
  (forall n k, named n k -> named n (f k)) ->
  wp (onLink_ id f;; touch id) (fun _ e' => effect id (viewOf p) (viewOf p) [] [] e e') e.
Proof.
  intros Hp Hn. eapply (wp_seq stuck id _ _ _ [] [] [] []); [by eapply onLink_effect_|]. intros [] e1 p1 _ Hp1 Hv1. rewrite <- Hv1. by apply touch_effect.
Qed.

Lemma serviceTimers_ok now e : Inv e -> wp (serviceTimers now) (good e) e.
Proof.
  intros HI. unfold serviceTimers. apply each_peer; [done|]. clear e HI. intros id p e HI Hp. unfold serviceTimer.
  eapply wp_bind, wp_deref; [done|]. assert (H0 : effect id (viewOf p) (viewOf p) [] [] e e).
  { eapply effect_none; try done; [by rewrite app_nil_r|constructor]. }
  eapply (wp_seq stuck id _ (viewOf p) _ [] [] [] []).
  - apply wp_when; intros _; [|done]. apply link_touch_effect; [done|intros; by apply onTimer_named].
  - intros [] e1 p1 _ Hp1 Hv1. rewrite <- Hv1. apply wp_when; intros _; [by apply touch_effect|].
    eapply effect_none; try done; [by rewrite app_nil_r|constructor].
Qed.

Lemma updatePause_ok e : Inv e -> wp updatePause (good e) e.
Proof.
  intros HI. unfold updatePause. apply wp_bind. apply (wp_interfere fuel). intros e1 Hm1.
  pose proof (meddled_good hist e e1 () HI Hm1) as G1. apply (wp_mono stuck _ (good e1)); [intros [] e2; by eapply good_trans|].
  destruct G1 as [HI1 _]. clear HI Hm1 e. apply wp_bind, wp_gets. apply wp_bind, wp_gets. destruct (if mPaused e1 then _ else _); [by apply wp_ret, good_refl|].
  apply wp_bind, wp_modify. apply wp_bind. apply (wp_interfere fuel). intros e2 Hm2.
  match type of Hm2 with meddled ?x _ => pose proof (meddled_good hist x e2 () HI1 Hm2) as [HI2 Hst2] end. apply wp_bind, wp_modify.
  match goal with |- EngineLogic.wp _ _ _ ?x => set (e3 := x) end.
  apply (wp_mono stuck _ (good e3)); [intros [] e4 [HI4 Hst4]; split; [done|etrans; [|exact Hst4]; destruct Hst2; by split]|].
  apply each_peer; [done|]. intros id p e HI Hp. apply link_touch_effect; [done|intros; by apply setPaused_named].
Qed.

(** *** Peers that are lost *)
Lemma lost_ok ids K : forall e, NoDup ids -> (forall x, x ∈ ids -> ~ (x ∈ K) /\ mPeers e !! x = None) ->
  reached (mkAbs (viewOf <$> mPeers e) (K ∪ list_to_set ids) (hist ++ mEvents e)) ->
  wp (forEach (fun id => emit (PeerLost id);; modify (fun e => e <| mPeersChanged := true |>)) ids)
    (fun _ e' => reached (mkAbs (viewOf <$> mPeers e) K (hist ++ mEvents e')) /\ exists evs b, e' = e <| mEvents := evs |> <| mPeersChanged := b |>) e.
Proof.
  induction ids as [|x ids IH]; intros e Hnd Hx Hre; cbn [forEach].
  - apply wp_ret. split; [|exists (mEvents e), (mPeersChanged e); by destruct e]. cbn in Hre. by rewrite union_empty_r_L in Hre.
  - apply NoDup_cons in Hnd as [Hn Hnd]. destruct (Hx x) as [HK Hp]; [by left|].
    apply wp_bind. apply wp_bind, wp_modify, wp_modify. eapply wp_mono; [|apply IH; [done| |]].
    + cbn beta. intros [] e' (H1 & evs & b & ->). split; [done|]. by exists evs, b.
    + intros y Hy. cbn. apply Hx. by right.
    + cbn. rewrite app_assoc. eapply rtc_r; [exact Hre|].
      replace (mkAbs (viewOf <$> mPeers e) (K ∪ list_to_set ids) ((hist ++ mEvents e) ++ [PeerLost x])) with
        (told [PeerLost x] ((mkAbs (viewOf <$> mPeers e) (K ∪ list_to_set (x :: ids)) (hist ++ mEvents e)) <| aKnown ::= fun s => s ∖ {[x]} |>)).
      * apply as_lose; cbn; [|by rewrite lookup_fmap, Hp]. apply elem_of_union_r, elem_of_union_l, elem_of_singleton. done.
      * change (mkAbs (viewOf <$> mPeers e) ((K ∪ ({[x]} ∪ list_to_set ids)) ∖ {[x]}) ((hist ++ mEvents e) ++ [PeerLost x]) =
          mkAbs (viewOf <$> mPeers e) (K ∪ list_to_set ids) ((hist ++ mEvents e) ++ [PeerLost x])).
        by rewrite lose_set by (done || by rewrite elem_of_list_to_set).
Qed.

Lemma tick_ok now e : Inv e -> wp (tick now) (fine e) e.
Proof.
  intros HI. unfold tick. apply wp_bind, wp_modify. match goal with |- EngineLogic.wp _ _ _ ?x => set (e0 := x) end.
  assert (HI0 : Inv e0) by done. change (@EngineRefines.fine hist e ()) with (@EngineRefines.fine hist e0 ()). clearbody e0. clear HI e.
  apply wp_bind, wp_gets. apply wp_bind, wp_modify.
  set (hs := fun id => bool_decide (is_Some (mPeers e0 !! id))).
  destruct (expired_peers now hs (mDiscovery e0)) as (El & Ek & _). set (r := expire now hs (mDiscovery e0)) in *.
  assert (Hl : forall x, x ∈ r.1 <-> isExpired now hs (mDiscovery e0) x = true).
  { intros x. rewrite El, list_elem_of_filter, elem_of_keysOf. split; [by intros []|]. intros E. split; [done|].
    unfold isExpired in E. destruct (mKnown _ !! x); [by eexists|done]. }
  pose proof HI0 as [Hre Hco].
  eapply wp_mono; [|apply (lost_ok r.1 (dom (mKnown r.2)))].
  - cbn beta. intros [] e2 (Hre2 & evs & b & ->). split; [|done]. split; [done|]. cbn.
    destruct Hco as [Hid Hst Hgo Hen Hru Hdi Hsk Hsc Hra Hri]. split; try done; [by apply expire_ok|].
    intros E. destruct (Hsk E) as [E1 E2]. split; [done|]. apply map_empty. intros x. rewrite Ek, E2, lookup_empty. by destruct (isExpired _ _ _ _).
  - rewrite El. apply NoDup_filter, NoDup_keysOf.
  - intros x Hx%Hl. cbn. rewrite not_elem_of_dom, Ek, Hx. split; [done|]. unfold isExpired in Hx. destruct (mKnown _ !! x); [|done].
    apply andb_true_iff in Hx as [_ Hx]. apply negb_true_iff, bool_decide_eq_false in Hx. by destruct (mPeers e0 !! x); [destruct Hx; eexists|].
  - cbn. replace (dom (mKnown r.2) ∪ list_to_set r.1) with (dom (mKnown (mDiscovery e0))); [done|].
    apply set_eq. intros x. rewrite elem_of_union, !elem_of_dom, elem_of_list_to_set, Hl, Ek. unfold isExpired.
    destruct (mKnown _ !! x) as [en|]; [|by split; [intros []|intros [[]|]]]. destruct (_ && _); split; intros; [by right|by eexists|by left|by eexists].
Qed.
End Receives.
