(* ===== verification/EngineSettles.v ===== *)
(** * What does not put off the end of a session

    A partial logic for the stage of sessions: whatever the world does, a computation that
    comes back changed no stage, except that it may have ended sessions or removed them.
    Most of the engine is of this kind; the functions that do change stages are the subject
    of the files on shutdown. *)
From Stdlib Require Import QArith.
From S2P Require Import Prelude Constants IPv4Address PacketFlags PacketHeader OrderedMap SendScheduler SchedulerRules ReliableLink ControlMessage Discovery.
From S2P Require Import Mailbox MailboxRuns Engine EngineSessions EngineStep EngineLogic EngineSends.
Import Engine Sessions Loop.
#[local] Open Scope Z_scope.

(** ** Stages *)

(** The session of [p] is as it was, or over. *)
Definition quieter (p p' : Peer) : Prop :=
  ended p' = true \/
  ended p' = ended p /\ state p' = state p /\ closeSent p' = closeSent p /\ stateDeadline p' = stateDeadline p.
#[export] Instance quieter_preorder : PreOrder quieter.
Proof.
  split; [by right|]. intros p1 p2 p3 [H|(H1 & H2 & H3 & H4)] [H'|(H1' & H2' & H3' & H4')]; try (by left); [left|right]; split_and?; congruence.
Qed.

(** So are all sessions there still are; no peer is no longer touched. *)
Record settles (e e' : NetworkEngine) : Prop := {
  st_shutdown : mShutdown e' = mShutdown e;
  st_touched : mTouched e ⊆ mTouched e';
  st_peers : forall id p', mPeers e' !! id = Some p' -> exists p, mPeers e !! id = Some p /\ quieter p p';
}.
#[export] Instance settles_preorder : PreOrder settles.
Proof.
  split; [split; [done|done|]; intros id p Hp; by exists p|]. intros e1 e2 e3 [S1 T1 P1] [S2 T2 P2]. split; [congruence|by etrans|].
  intros id p3 Hp3. destruct (P2 id p3 Hp3) as (p2 & Hp2 & Q2). destruct (P1 id p2 Hp2) as (p1 & Hp1 & Q1). exists p1. split; [done|by etrans].
Qed.

Lemma settles_same e e' : mShutdown e' = mShutdown e -> mTouched e ⊆ mTouched e' -> mPeers e' = mPeers e -> settles e e'.
Proof. intros H1 H2 H3. split; [done..|]. rewrite H3. intros id p Hp. by exists p. Qed.
Lemma settles_peer id p p' e e' : mShutdown e' = mShutdown e -> mTouched e ⊆ mTouched e' -> mPeers e !! id = Some p ->
  mPeers e' = <[id := p']> (mPeers e) -> quieter p p' -> settles e e'.
Proof.
  intros H1 H2 Hp E Hq. split; [done..|]. rewrite E. intros x q [[<- <-]|[Hne Hx]]%lookup_insert_Some; [by exists p|by exists q].
Qed.
Lemma settles_fewer e e' : mShutdown e' = mShutdown e -> mTouched e ⊆ mTouched e' -> mPeers e' ⊆ mPeers e -> settles e e'.
Proof. intros H1 H2 H3. split; [done..|]. intros id p Hp. exists p. split; [by eapply lookup_weaken|done]. Qed.
Lemma meddled_settles e e' : meddled e e' -> settles e e'.
Proof. intros (wk & b & m & i & -> & _). by apply settles_same. Qed.

Section Settles.
Context {W : Type} `{!World W} (fuel : nat) `{!WorldOk W fuel}.
Abbreviation wp := (wp (W := W) True).
Abbreviation Comp := (Engine.M W).

(** What [m] leads to, whatever the result. *)
Definition calms {A} (m : Comp A) : Prop := forall e, wp m (fun _ => settles e) e.

(** ** Rules *)
Lemma calms_at {A} (m : Comp A) e : calms m -> wp m (fun _ => settles e) e.
Proof. done. Qed.
Lemma wp_then_settles {A B} (m : Comp A) (f : A -> Comp B) e :
  wp m (fun _ => settles e) e -> (forall a e1, settles e e1 -> wp (f a) (fun _ => settles e1) e1) ->
  wp (mbind f m) (fun _ => settles e) e.
Proof.
  intros H1 H2. apply wp_bind. eapply wp_mono; [|exact H1]. cbn beta. intros a e1 G. eapply wp_mono; [|by apply H2].
  intros b e2 G2. by etrans.
Qed.
Lemma calms_bind {A B} (m : Comp A) (f : A -> Comp B) : calms m -> (forall a, calms (f a)) -> calms (mbind f m).
Proof. intros H1 H2 e. apply wp_then_settles; [apply H1|]. intros a e1 _. apply H2. Qed.
Lemma calms_ret {A} (a : A) : calms (mret a).
Proof. intros e. by apply wp_ret. Qed.
Lemma calms_gets {A} (f : NetworkEngine -> A) : calms (gets f).
Proof. intros e. by apply wp_gets. Qed.
Lemma calms_ask {A} (f : W -> A * W) : calms (ask f).
Proof. intros e. by apply wp_ask. Qed.
Lemma calms_must {A} (o : option A) : calms (must o).
Proof. intros e w. unfold must. by destruct o. Qed.
Lemma calms_when b (m : Comp ()) : calms m -> calms (when b m).
Proof. intros H e. apply wp_when; intros _; [apply H|done]. Qed.
Lemma calms_each {A} (f : A -> Comp ()) l : (forall x, calms (f x)) -> calms (forEach f l).
Proof.
  intros H e. apply (wp_forEach True f (settles e)); [done|]. intros x e1 _ G. eapply wp_mono; [|apply H]. intros [] e2 G2. by etrans.
Qed.
Lemma calms_modify f : (forall e, mShutdown (f e) = mShutdown e /\ mTouched e ⊆ mTouched (f e) /\ mPeers (f e) ⊆ mPeers e) -> calms (modify f).
Proof. intros H e. apply wp_modify. destruct (H e) as (H1 & H2 & H3). by apply settles_fewer. Qed.
Lemma calms_find id : calms (find id).
Proof. apply calms_gets. Qed.
Lemma wp_deref' id (Q : Peer -> NetworkEngine -> Prop) e : (forall p, mPeers e !! id = Some p -> Q p e) -> wp (deref id) Q e.
Proof. intros H w. unfold deref. destruct (mPeers e !! id) as [p|]; [by apply H|done]. Qed.
Lemma calms_deref id : calms (deref id).
Proof. intros e. by apply wp_deref'. Qed.
Lemma wp_setPeer' id f (Q : () -> NetworkEngine -> Prop) e :
  (forall p, mPeers e !! id = Some p -> Q () (e <| mPeers ::= <[id := f p]> |>)) -> wp (setPeer id f) Q e.
Proof. intros H. unfold setPeer. apply wp_bind, wp_deref'. intros p Hp. by apply wp_modify, H. Qed.
Lemma calms_setPeer id f : (forall p, quieter p (f p)) -> calms (setPeer id f).
Proof. intros H e. apply wp_setPeer'. intros p Hp. by eapply settles_peer. Qed.
Lemma calms_onLink {A} id (f : Link.ReliableLink -> A * Link.ReliableLink) : calms (onLink id f).
Proof.
  intros e. unfold onLink. apply wp_bind, wp_deref'. intros p Hp. apply wp_bind, wp_gets. destruct (f _) as [a k].
  apply wp_bind, wp_modify, wp_ret. eapply (settles_peer id p); [done..|by right].
Qed.
Lemma calms_interfere : calms interfere.
Proof. intros e. apply (wp_interfere fuel). apply meddled_settles. Qed.
Lemma calms_mailbox {A} (f : Box.Mailbox -> A * Box.Mailbox) : calms (mailbox f).
Proof. intros e. apply (wp_mailbox fuel). intros e' Hm. etrans; [by apply meddled_settles|]. by apply settles_same. Qed.
Lemma calms_mailbox_ f : calms (mailbox_ f).
Proof. apply calms_mailbox. Qed.
Lemma calms_onLink_ id f : calms (onLink_ id f).
Proof. apply calms_onLink. Qed.
Lemma calms_touch id : calms (touch id).
Proof. apply calms_modify. intros e. split_and!; [done| |done]. cbn. set_solver. Qed.
Lemma calms_emit ev : calms (emit ev).
Proof. by apply calms_modify. Qed.
End Settles.

Create HintDb settles.
#[export] Hint Resolve calms_ret calms_gets calms_ask calms_must calms_find calms_deref calms_onLink calms_onLink_ calms_interfere
  calms_mailbox calms_mailbox_ calms_touch calms_emit : settles.

(** Walks through a computation, and proves of what it is made of that it calms. *)
Ltac calm_peer := intros; first [by right|by left|idtac].
Ltac calm_engine := intros; by split_and!.
Ltac calm := repeat (intros; lazymatch goal with
  | |- calms (mbind _ _) => apply calms_bind
  | |- calms (when _ _) => apply calms_when
  | |- calms (forEach _ _) => apply calms_each
  | |- calms (setPeer _ _) => apply calms_setPeer; calm_peer
  | |- calms (modify _) => apply calms_modify; first [calm_engine|intros ?e]
  | |- calms (match ?x with _ => _ end) => destruct x
  | |- calms (match ?x with _ => _ end _) => destruct x; cbn beta
  | |- calms _ => solve [eauto with settles]
  end).

Section Functions.
Context {W : Type} `{!World W} (fuel : nat) `{!WorldOk W fuel}.
Abbreviation calms := (calms (W := W)).

(** ** Sessions *)
Lemma report_calms id r : calms (report id r).
Proof. unfold report. calm. Qed.
Lemma end_calms id : calms (end_ id).
Proof. unfold end_. calm. Qed.
Lemma queueControl_calms id t b : calms (queueControl id t b).
Proof. unfold queueControl. calm. Qed.
#[local] Hint Resolve report_calms end_calms queueControl_calms : settles.

Lemma erase_calms id : calms (erase id).
Proof. unfold erase, destroyLink. calm. split_and!; [done..|]. apply delete_subseteq. Qed.
Lemma endAllSessions_calms r : calms (endAllSessions r).
Proof. unfold endAllSessions, destroyLink. calm. split_and!; [done..|]. apply map_empty_subseteq. Qed.
#[local] Hint Resolve erase_calms endAllSessions_calms : settles.

Lemma bind_calms i : calms (bind i).
Proof. unfold bind. calm. Qed.
#[local] Hint Resolve bind_calms : settles.
Lemma updateInterface_calms b : calms (updateInterface b).
Proof. unfold updateInterface, closeSockets. calm. Qed.
Lemma mediaInbox_calms id : calms (mediaInbox id).
Proof. unfold mediaInbox. calm. Qed.

(** ** Sending *)
Lemma sendBeacon_calms to_ r : calms (sendBeacon to_ r).
Proof. unfold sendBeacon, countSent. calm. Qed.
Lemma transmit_calms to_ d : calms (transmit to_ d).
Proof. unfold transmit, countSent. calm. Qed.
#[local] Hint Resolve updateInterface_calms mediaInbox_calms sendBeacon_calms transmit_calms : settles.
Lemma ackLoop_calms n id : calms (ackLoop n id).
Proof. induction n as [|n IH]; cbn [ackLoop]; calm. Qed.
#[local] Hint Resolve ackLoop_calms : settles.
Lemma sendAcks_calms id : calms (sendAcks id).
Proof. unfold sendAcks. calm. Qed.

(** Taking a message for the link changes the mailbox only. *)
Definition sourceOf (id : PeerId) (e : NetworkEngine) (s : PeerSource W) : Prop := srcPeer s = id /\ settles e (srcEngine s).
Lemma source_next id e l s : sourceOf id e s -> sourceOf id e (Link.next s l).2.
Proof.
  intros [E G]. unfold Link.next, peerSource_next. destruct (bool_decide _); [by destruct (srcControl s)|]. destruct (negb _); [done|].
  pose proof (calms_mailbox fuel (Box.take (srcPeer s) l) (srcEngine s) (srcWorld s)) as H.
  destruct (mailbox _ _ _) as [[[m e'] w']|]; [|done]. split; [done|]. cbn. by etrans.
Qed.
Lemma peekLink_calms id l : calms (peekLink id l).
Proof.
  intros e w. unfold peekLink. destruct (mPeers e !! id) as [p|] eqn:Hp; [|done].
  assert (H : sourceOf id e (Link.peek l (link p) (mkSource id (control p) (transfersData p) e w)).2)
    by (apply peek_source; [intros; by apply source_next|by split]).
  destruct (Link.peek _ _ _) as [[d k] s]. destruct H as [_ [H1 H2 H3]]. split; [done..|]. cbn.
  intros x q [[<- <-]|[Hne Hx]]%lookup_insert_Some; [exists p; split; [done|by right]|by apply H3].
Qed.
#[local] Hint Resolve sendAcks_calms peekLink_calms : settles.
Lemma schedule_calms id : calms (schedule id).
Proof. unfold schedule, scheduleLane. calm. Qed.
Lemma sendNext_calms now l id : calms (sendNext now l id).
Proof. unfold sendNext. calm. Qed.

(** The callback of the scheduler. *)
Lemma sendData_calms now e : Sched.scheduler_ok (mScheduler e) -> wp (W := W) True (sendData fuel now) (fun _ => settles e) e.
Proof.
  intros Hs w. unfold sendData. match goal with |- context [Sched.run ?c _ _ _] => set (callback := c) end.
  set (J := fun (_ : Sched.SendScheduler) (st : option (NetworkEngine * W)) => match st with Some (e', _) => settles e e' | None => True end).
  destruct (Sched.run callback fuel (mScheduler e) (Some (e, w))) as [[s' st']|] eqn:Er; [|done].
  destruct (run_keeps callback J) with (5 := Er) as [_ HJ]; [done| |done|exact (reflexivity e)|].
  - intros s [[e1 w1]|] l x HJ Hx; cbn [callback]; [|done]. pose proof (sendNext_calms now l x e1 w1) as H.
    destruct (sendNext now l x e1 w1) as [[[r e2] w2]|]; [|done]. assert (settles e e2) by (by etrans). by destruct r.
  - destruct st' as [[e' w']|]; [|done]. destruct HJ as [H1 H2 H3]. by split.
Qed.

(** ** The rest of a step *)
Lemma onBeacon_calms from d now : calms (onBeacon from d now).
Proof. unfold onBeacon. calm. Qed.
Lemma readyPeer_calms id : calms (readyPeer id).
Proof. unfold readyPeer. calm. Qed.
Lemma serviceTimer_calms now id : calms (serviceTimer now id).
Proof. unfold serviceTimer. calm. Qed.
Lemma tick_calms now : calms (tick now).
Proof. unfold tick. calm. Qed.
Lemma updatePause_calms : calms updatePause.
Proof. unfold updatePause. calm. Qed.
Lemma settlePeer_calms id : calms (settlePeer id).
Proof. unfold settlePeer, statsOf. calm. unfold noteLoss. repeat case_match; by right. Qed.
Lemma eraseEnded_calms id : calms (eraseEnded id).
Proof. unfold eraseEnded. calm. Qed.
Lemma finish_calms now : calms (finish now).
Proof. unfold finish. calm. by destruct (_ || _). Qed.
Lemma takeBatch_calms : calms takeBatch.
Proof. unfold takeBatch. calm. Qed.
Lemma waitForWork_calms now : calms (waitForWork now).
Proof. unfold waitForWork. calm. Qed.
#[local] Hint Resolve waitForWork_calms : settles.
Lemma endRound_calms now : calms (endRound now).
Proof. unfold endRound. calm. Qed.
End Functions.
#[export] Hint Resolve report_calms end_calms queueControl_calms erase_calms updateInterface_calms mediaInbox_calms sendBeacon_calms
  sendAcks_calms schedule_calms onBeacon_calms readyPeer_calms serviceTimer_calms tick_calms updatePause_calms settlePeer_calms
  eraseEnded_calms finish_calms takeBatch_calms : settles.
