(* ===== verification/EngineGrowth.v ===== *)
(** * How much the list of touched peers grows

    The loop over the touched peers must not make their vector grow beyond its capacity.
    Almost nothing that it does touches a peer: saying goodbye is all. *)
From Stdlib Require Import QArith.
From S2P Require Import Prelude Constants IPv4Address PacketFlags PacketHeader OrderedMap SendScheduler SchedulerRules ReliableLink ControlMessage Discovery.
From S2P Require Import Mailbox MailboxRuns Engine EngineSessions EngineStep EngineLogic EngineSends EngineSettles.
Import Engine Sessions Loop.
#[local] Open Scope Z_scope.

Section Rules.
Context {W : Type} `{!World W} (fuel : nat) `{!WorldOk W fuel}.
Abbreviation wp := (wp (W := W) True).
Abbreviation Comp := (Engine.M W).

(** [m] touches [n] times at most; with 0 it touches nobody. *)
Definition touches {A} (n : nat) (m : Comp A) : Prop := forall e, wp m (fun _ e' => (length (mTouched e') <= length (mTouched e) + n)%nat) e.

Lemma touches_more {A} (m : Comp A) n n' : (n <= n')%nat -> touches n m -> touches n' m.
Proof. intros H Hm e. eapply wp_mono; [|apply Hm]. cbn beta. intros a e'. lia. Qed.
Lemma touches_bind {A B} (m : Comp A) (f : A -> Comp B) a b n : touches a m -> (forall x, touches b (f x)) -> n = (a + b)%nat -> touches n (mbind f m).
Proof.
  intros H1 H2 -> e. apply wp_bind. eapply wp_mono; [|apply H1]. cbn beta. intros x e1 Hl. eapply wp_mono; [|apply H2]. cbn beta. intros y e2. lia.
Qed.
Lemma touches_ret {A} (a : A) n : touches n (mret a).
Proof. intros e. apply wp_ret. lia. Qed.
Lemma touches_gets {A} (f : NetworkEngine -> A) n : touches n (gets f).
Proof. intros e. apply wp_gets. lia. Qed.
Lemma touches_ask {A} (f : W -> A * W) n : touches n (ask f).
Proof. intros e. apply wp_ask. intros w. lia. Qed.
Lemma touches_must {A} (o : option A) n : touches n (must o).
Proof. intros e w. unfold must. destruct o; [lia|done]. Qed.
Lemma touches_when b (m : Comp ()) n : touches n m -> touches n (when b m).
Proof. intros H e. apply wp_when; intros _; [apply H|lia]. Qed.
Lemma touches_each {A} (f : A -> Comp ()) l : (forall x, touches 0 (f x)) -> touches 0 (forEach f l).
Proof.
  intros H e. apply (wp_forEach True f (fun e' => (length (mTouched e') <= length (mTouched e) + 0)%nat)); [lia|].
  intros x e1 _ Hl. eapply wp_mono; [|apply H]. cbn beta. intros [] e2. lia.
Qed.
(** A loop whose body touches once at most. *)
Lemma touches_loop {A} (f : A -> Comp ()) l : (forall x, touches 1 (f x)) -> touches (length l) (forEach f l).
Proof.
  intros H. induction l as [|x l IH]; [apply touches_ret|]. apply (touches_bind _ _ 1 (length l)); [apply H|done|cbn; lia].
Qed.
Lemma touches_modify f n : (forall e, mTouched (f e) = mTouched e) -> touches n (modify f).
Proof. intros H e. apply wp_modify. rewrite H. lia. Qed.
Lemma touches_deref id n : touches n (deref id).
Proof. intros e. apply wp_deref'. intros p _. lia. Qed.
Lemma touches_find id n : touches n (find id).
Proof. apply touches_gets. Qed.
Lemma touches_setPeer id f n : touches n (setPeer id f).
Proof. intros e. apply wp_setPeer'. intros p _. cbn. lia. Qed.
Lemma touches_onLink {A} id (f : Link.ReliableLink -> A * Link.ReliableLink) n : touches n (onLink id f).
Proof.
  intros e. unfold onLink. apply wp_bind, wp_deref'. intros p _. apply wp_bind, wp_gets. destruct (f _) as [a k]. apply wp_bind, wp_modify, wp_ret. cbn. lia.
Qed.
Lemma touches_onLink_ id f n : touches n (onLink_ id f).
Proof. apply touches_onLink. Qed.
Lemma touches_interfere n : touches n interfere.
Proof. intros e. apply (wp_interfere fuel). intros e' (wk & b & m & i & -> & _). cbn. lia. Qed.
Lemma touches_mailbox {A} (f : Box.Mailbox -> A * Box.Mailbox) n : touches n (mailbox f).
Proof. intros e. apply (wp_mailbox fuel). intros e' (wk & b & m & i & -> & _). cbn. lia. Qed.
Lemma touches_mailbox_ f n : touches n (mailbox_ f).
Proof. apply touches_mailbox. Qed.
Lemma touches_emit ev n : touches n (emit ev).
Proof. by apply touches_modify. Qed.
Lemma touches_touch id : touches 1 (touch id).
Proof. intros e. apply wp_modify. cbn. rewrite length_app. cbn. lia. Qed.
End Rules.

Create HintDb touches.
#[export] Hint Resolve touches_ret touches_gets touches_ask touches_must touches_find touches_deref touches_setPeer touches_onLink touches_onLink_
  touches_interfere touches_mailbox touches_mailbox_ touches_emit touches_touch : touches.

(** Walks through a computation that touches nobody. *)
Ltac untouched := repeat (intros; lazymatch goal with
  | |- touches 0 (mbind _ _) => eapply (touches_bind _ _ 0 0); [| |reflexivity]
  | |- touches 0 (when _ _) => apply touches_when
  | |- touches 0 (forEach _ _) => apply touches_each
  | |- touches 0 (modify _) => by apply touches_modify
  | |- touches 0 (match ?x with _ => _ end) => destruct x
  | |- touches 0 (match ?x with _ => _ end _) => destruct x; cbn beta
  | |- touches 0 _ => solve [eauto with touches]
  end).

(** A vector has room for as many elements again as it has, so that the loop over the touched
    peers does not make it grow beyond its capacity. *)
Definition roomy (W : Type) `{!World W} : Prop := forall n (w : W), 2 * n <= (capacityOf n w).1.

Section Functions.
Context {W : Type} `{!World W} (fuel : nat) `{!WorldOk W fuel}.
Abbreviation touches := (touches (W := W)).

(** ** What the loop does with a peer *)
Lemma report_touches id r : touches 0 (report id r).
Proof. unfold report. untouched. Qed.
Lemma end_touches id : touches 0 (end_ id).
Proof. unfold end_. untouched. Qed.
Lemma setConnected_touches id : touches 0 (setConnected id).
Proof. unfold setConnected. untouched. Qed.
Lemma queueControl_touches id t b : touches 0 (queueControl id t b).
Proof. unfold queueControl. untouched. Qed.
#[local] Hint Resolve report_touches end_touches setConnected_touches queueControl_touches : touches.
Lemma onControl_touches id m : touches 0 (onControl id m).
Proof. unfold onControl. untouched. Qed.
Lemma mediaInbox_touches id : touches 0 (mediaInbox id).
Proof. unfold mediaInbox. untouched. Qed.
#[local] Hint Resolve onControl_touches mediaInbox_touches : touches.
Lemma onMessage_touches id m : touches 0 (onMessage id m).
Proof. unfold onMessage. untouched. Qed.
#[local] Hint Resolve onMessage_touches : touches.

Lemma touches_first {A B} (m : Engine.M W A) (f : A -> Engine.M W B) : touches 0 m -> (forall x, touches 1 (f x)) -> touches 1 (mbind f m).
Proof. intros H1 H2. by apply (touches_bind _ _ 0 1). Qed.
Lemma touches_last {A} (m : Engine.M W A) : touches 0 m -> touches 1 m.
Proof. apply touches_more. lia. Qed.
Ltac touched_once := repeat (intros; lazymatch goal with
  | |- EngineGrowth.touches 1 (mbind _ _) => apply touches_first; [solve [untouched]|]
  | |- EngineGrowth.touches 1 (when _ _) => apply touches_when
  | |- EngineGrowth.touches 1 (touch _) => apply touches_touch
  | |- EngineGrowth.touches 1 (match ?x with _ => _ end) => destruct x
  | |- EngineGrowth.touches 1 (match ?x with _ => _ end _) => destruct x; cbn beta
  | |- EngineGrowth.touches 1 _ => first [solve [apply touches_last; untouched]|solve [eauto with touches]]
  end).
Lemma sendDecline_touches id now : touches 1 (sendDecline id now).
Proof. unfold sendDecline. touched_once. Qed.
Lemma sendClose_touches id now : touches 1 (sendClose id now).
Proof. unfold sendClose. touched_once. Qed.
#[local] Hint Resolve sendDecline_touches sendClose_touches : touches.
Lemma advanceState_touches id now : touches 1 (advanceState id now).
Proof. unfold advanceState. touched_once. Qed.
#[local] Hint Resolve advanceState_touches : touches.
Lemma advance_touches id now : touches 1 (advance id now).
Proof. unfold advance. touched_once. Qed.
Lemma transmit_touches to_ d : touches 0 (transmit to_ d).
Proof. unfold transmit, countSent. untouched. Qed.
#[local] Hint Resolve transmit_touches : touches.
Lemma ackLoop_touches n id : touches 0 (ackLoop n id).
Proof. induction n as [|n IH]; cbn [ackLoop]; untouched. Qed.
#[local] Hint Resolve ackLoop_touches : touches.
Lemma sendAcks_touches id : touches 0 (sendAcks id).
Proof. unfold sendAcks. untouched. Qed.
Lemma peekLink_touches id l : touches 0 (peekLink id l).
Proof.
  intros e w. unfold peekLink. destruct (mPeers e !! id) as [p|] eqn:Hp; [|done].
  assert (H : mTouched (srcEngine (Link.peek l (link p) (mkSource id (control p) (transfersData p) e w)).2) = mTouched e).
  { apply (peek_source (fun s => mTouched (srcEngine s) = mTouched e)); [|done]. intros s Hs. unfold Link.next, peerSource_next.
    destruct (bool_decide _); [by destruct (srcControl s)|]. destruct (negb _); [done|].
    assert (Hm : wp (W := W) True (mailbox (Box.take (srcPeer s) l)) (fun _ e' => mTouched e' = mTouched e) (srcEngine s)).
    { apply (wp_mailbox fuel). by intros e' (wk & b & m & i & -> & _). }
    specialize (Hm (srcWorld s)). by destruct (mailbox _ _ _) as [[[m e'] w']|]. }
  destruct (Link.peek _ _ _) as [[d k] s]. cbn in *. rewrite H. lia.
Qed.
#[local] Hint Resolve sendAcks_touches peekLink_touches : touches.
Lemma schedule_touches id : touches 0 (schedule id).
Proof. unfold schedule, scheduleLane. untouched. Qed.
#[local] Hint Resolve schedule_touches : touches.

Lemma servePeer_touches now id : touches 1 (servePeer now id).
Proof.
  unfold servePeer. apply touches_first; [untouched|]. intros [p|]; [|apply touches_ret].
  apply (touches_bind _ _ 1 0); [apply advance_touches| |done]. intros _. untouched.
Qed.

(** Every peer of the list once at most. *)
Lemma serving_touches now l e : wp (W := W) True (forEach (servePeer now) l) (fun _ e' => zlen (mTouched e') <= zlen (mTouched e) + zlen l) e.
Proof.
  eapply wp_mono; [|apply (touches_loop (servePeer now) l (servePeer_touches now))]. cbn beta. unfold zlen. intros [] e'. lia.
Qed.
Lemma roomy_iterators (w : W) (l l' : list PeerId) : roomy W -> zlen l' <= zlen l + zlen l ->
  iteratorsValid (zlen l) (capacityOf (zlen l) w).1 l' = Some ().
Proof. intros Hr Hl. specialize (Hr (zlen l) w). unfold iteratorsValid. by rewrite (proj2 (Z.leb_le _ _)) by lia. Qed.
End Functions.
