(* ===== verification/EngineRound.v ===== *)
(** * A round of the loop keeps the invariant

    The step from the commands of the application to the batch of events, and the wait
    that follows it. *)
From Stdlib Require Import QArith.
From S2P Require Import Prelude Constants IPv4Address PacketFlags PacketHeader OrderedMap SendScheduler SchedulerRules ReliableLink Discovery.
From S2P Require Import Mailbox MailboxRuns Engine SessionSpec LinkIdentity EngineSessions EngineStep.
From S2P Require Import EngineLogic EngineEffects EngineInvariant EngineRefines EngineKeeps EngineSends EngineReceives EngineGrowth.
From stdpp Require Import relations sorting.
Import Engine Sessions Loop.
#[local] Open Scope Z_scope.

(** Events change hands. *)
Lemma Inv_handed hist e : Inv None hist e <-> Inv None (hist ++ mEvents e) (e <| mEvents := [] |>).
Proof. unfold Inv, absOf. cbn. by rewrite app_nil_r. Qed.

Section Round.
Context {W : Type} `{!World W} (fuel : nat) `{!WorldOk W fuel} (stuck : Prop) (hist : list EngineEvent).
Abbreviation wp := (wp (W := W) stuck).
Abbreviation Inv := (Inv None hist).
Abbreviation good := (good hist).
Abbreviation goodAt := (goodAt hist).
Abbreviation fine := (fine hist).
Abbreviation paced cfg := (paced fuel cfg /\ roomy W).

Lemma readyPeer_ok id e : Inv e -> wp (readyPeer id) (good e) e.
Proof.
  intros HI. unfold readyPeer. apply wp_bind, wp_find. destruct (mPeers e !! id) as [p|] eqn:Hp; [|by apply wp_ret, good_refl].
  eapply (wp_goodAt stuck hist id), wp_at_then; [by eapply (setPeer_quiet stuck hist id p)|]. intros [] e1 p1 [[HI1 _] _] Hp1. by eapply touch_at.
Qed.

Lemma servePeer_ok now id e : Inv e -> wp (servePeer now id) (good e) e.
Proof.
  intros HI. unfold servePeer. apply wp_bind, wp_find. destruct (mPeers e !! id) as [p|] eqn:Hp; [|by apply wp_ret, good_refl].
  eapply (wp_goodAt stuck hist id), wp_at_then; [by eapply (advance_ok fuel)|]. intros [] e1 p1 [[HI1 _] _] Hp1.
  eapply wp_at_then; [by eapply sendAcks_ok|]. intros [] e2 p2 [[HI2 _] _] Hp2. eapply wp_bind, wp_deref; [done|].
  apply wp_when; intros _; [by eapply (schedule_ok fuel)|]. apply goodAt_refl; [done|by exists p2].
Qed.

(** An operation of the mailbox that says nothing of any session. *)
Lemma mailbox_at {A} id p (f : Box.Mailbox -> A * Box.Mailbox) a e :
  Inv e -> mPeers e !! id = Some p -> (forall m, (f m).2 = perform a m) -> (forall m, allowed a m) ->
  (forall x s, entryAfter x a s = s) -> wp (mailbox f) (goodAt id e) e.
Proof.
  intros HI Hp Hf Ha Hn. eapply (good_quiet stuck hist id (viewOf p) [a]); [done|eapply (mailbox_effect fuel stuck id p _ a); done| |].
  - by apply own_other.
  - intros s. apply Hn.
Qed.

Lemma settlePeer_ok id e : Inv e -> wp (settlePeer id) (good e) e.
Proof.
  intros HI. unfold settlePeer. apply wp_bind, wp_find. destruct (mPeers e !! id) as [p|] eqn:Hp; [|by apply wp_ret, good_refl].
  destruct (ended p); [by apply wp_ret, good_refl|].
  eapply (wp_goodAt stuck hist id), wp_at_then; [by eapply (setPeer_quiet stuck hist id p)|]. intros [] e1 p1 [[HI1 _] _] Hp1. eapply wp_at_then.
  - apply wp_when; intros _; [|apply goodAt_refl; [done|by exists p1]].
    eapply wp_at_then; [by eapply (mailbox_at id p1 _ (Settle id))|]. intros b e2 p2 [[HI2 _] _] Hp2. by eapply (setPeer_quiet stuck hist id p2).
  - intros [] e2 p2 [[HI2 _] _] Hp2. apply wp_when; intros _; [|apply goodAt_refl; [done|by exists p2]].
    unfold statsOf. eapply wp_at_then.
    + eapply wp_at_then; [eapply (setPeer_quiet stuck hist id p2); [done..| |]|].
      * split; unfold noteLoss; repeat case_match; done.
      * unfold noteLoss; repeat case_match; done.
      * intros [] e3 p3 [[HI3 _] _] Hp3. eapply wp_bind, wp_deref; [done|]. apply wp_ret, goodAt_refl; [done|by exists p3].
    + intros st e3 p3 [[HI3 _] _] Hp3. by eapply (mailbox_at id p3 _ (PublishStats id st)).
Qed.

(** Whoever has ended is on the list. *)
Lemma Inv_ended e l0 l : Inv (e <| mEnded := l0 |>) -> (forall id p, mPeers e !! id = Some p -> ended p = true -> id ∈ l) -> Inv (e <| mEnded := l |>).
Proof. intros [Hre [Hid Hst Hgo Hen Hru Hdi Hsk Hsc Hra Hri]] Hl. split; [done|]. by split. Qed.

Lemma eraseEnded_ok x ids e : Inv (e <| mEnded := x :: ids |>) ->
  wp (eraseEnded x) (fun _ e' => Inv (e' <| mEnded := ids |>) /\ mConfig e' = mConfig e) e.
Proof.
  intros HI. unfold eraseEnded. apply wp_bind, wp_find.
  assert (Hgo : forall id p, mPeers e !! id = Some p -> ended p = true -> id ∈ x :: ids) by apply (proj2 HI).
  assert (Hleft : (forall p, mPeers e !! x = Some p -> ended p = false) -> Inv (e <| mEnded := ids |>)).
  { intros Hx. apply (Inv_ended e (x :: ids)); [done|]. intros id p Hp Ee.
    destruct (elem_of_cons ids id x) as [H _]. destruct (H (Hgo id p Hp Ee)) as [->|]; [|done]. by rewrite (Hx p Hp) in Ee. }
  destruct (mPeers e !! x) as [p|] eqn:Hp; [|apply wp_ret; split; [by apply Hleft|done]].
  apply wp_when; intros Ee; [|split; [|done]; apply Hleft; by intros q [= <-]].
  eapply wp_mono; [|exact (erase_removal (W := W) fuel stuck x p e Hp)]. cbn beta. intros _ e1 Hr. split; [|apply Hr].
  pose proof (rm_peers _ _ _ _ _ Hr) as Ep. apply (Inv_ended e1 (x :: ids)).
  - eapply Inv_remove; [exact HI|destruct Hr; by split|]. right. split; [done|]. by right; right.
  - cbn. rewrite Ep. intros id q [Hne Hq]%lookup_delete_Some E. pose proof (Hgo id q Hq E) as H. by apply elem_of_cons in H as [->|].
Qed.

Definition noneEnded (e : NetworkEngine) : Prop := forall id p, mPeers e !! id = Some p -> ended p = false.

Lemma erasing_ok ids : forall e, Inv (e <| mEnded := ids |>) -> wp (forEach eraseEnded ids) (fun a e' => fine e a e' /\ noneEnded e') e.
Proof.
  induction ids as [|x ids IH]; intros e HI; cbn [forEach].
  - assert (Hn : noneEnded e).
    { intros id p Hp. destruct (ended p) eqn:E; [|done]. pose proof (co_gone _ _ _ _ _ _ _ _ _ (proj2 HI) id p Hp E) as H. by apply elem_of_nil in H. }
    apply wp_ret. split; [|done]. split; [|done]. replace e with (e <| mEnded := mEnded e |>) by (by destruct e).
    apply (Inv_ended e []); [done|]. intros id p Hp E. by rewrite (Hn id p Hp) in E.
  - apply wp_bind. eapply wp_mono; [|by apply eraseEnded_ok]. cbn beta. intros [] e1 [HI1 Hc1]. eapply wp_mono; [|by apply IH].
    intros [] e2 [[HI2 Hc2] Hn2]. split; [|done]. split; [done|congruence].
Qed.

(** *** The parts of a step *)
Lemma takeIn_ok now e : Inv e -> wp (takeIn fuel now) (fine e) e.
Proof.
  intros HI. unfold takeIn. eapply wp_fine_then; [by apply modify_fine|]. intros [] e1 HI1.
  eapply wp_fine_then; [apply wp_fine; by eapply (mailbox_fine fuel _ _ _ Drain)|]. intros work e2 HI2.
  eapply wp_fine_then; [apply fine_loop; [done|]; intros; by apply apply_ok|]. intros [] e3 HI3.
  eapply wp_fine_then; [apply fine_loop; [done|]; intros; by apply wp_fine, readyPeer_ok|]. intros [] e4 HI4.
  apply wp_bind, wp_gets. apply wp_bind, wp_gets. eapply wp_fine_then.
  { apply wp_when; intros _; [|by apply fine_refl]. apply wp_bind, wp_gets. eapply wp_fine_then; [by apply modify_fine|].
    intros [] e5 HI5. by apply (updateInterface_ok fuel). }
  intros [] e5 HI5. eapply wp_fine_then; [by apply wp_fine, (updatePause_ok fuel)|]. intros [] e6 HI6.
  eapply wp_fine_then; [by apply receivePending_ok|]. intros [] e7 HI7.
  eapply wp_fine_then; [by apply wp_fine, serviceTimers_ok|]. intros [] e8 HI8.
  eapply wp_fine_then; [apply wp_when; intros _; [by apply tick_ok|by apply fine_refl]|]. intros [] e9 HI9.
  apply wp_bind, wp_gets. eapply wp_fine_then; [by apply modify_fine|]. intros [] e10 HI10.
  apply wp_when; intros _; [|by apply fine_refl]. apply wp_bind, wp_gets. by apply wp_fine, sendBeacon_ok.
Qed.

Lemma wp_ended_then {A B} (m : Engine.M W A) (f : A -> Engine.M W B) e :
  wp m (fine e) e -> (forall a e1, Inv e1 -> wp (f a) (fun b e2 => fine e1 b e2 /\ noneEnded e2) e1) ->
  wp (mbind f m) (fun b e2 => fine e b e2 /\ noneEnded e2) e.
Proof.
  intros H1 H2. apply wp_bind. eapply wp_mono; [|exact H1]. cbn beta. intros a e1 [HI Hc]. eapply wp_mono; [|by apply H2].
  intros b e2 [[HI2 Hc2] Hn]. split; [|done]. split; [done|congruence].
Qed.

Lemma sendOut_ok now e : Inv e -> stuck \/ paced (mConfig e) -> wp (sendOut fuel now) (fun a e' => fine e a e' /\ noneEnded e') e.
Proof.
  intros HI Hpace. unfold sendOut. apply wp_bind, wp_modify. match goal with |- EngineLogic.wp _ _ _ ?x => set (e1 := x) end.
  assert (Hr : ring_change (fun _ _ => False) (mScheduler e) (Sched.refill now (mScheduler e))).
  { destruct (refill_rings now (mScheduler e)) as [E1 E2]. apply ring_same; [done|]. intros l. by rewrite E2. }
  assert (HI1 : Inv e1).
  { exact (Inv_sched hist e (Sched.refill now (mScheduler e)) HI ltac:(apply Sched.refill_ok, HI) Hr). }
  assert (Hpace1 : stuck \/ paced (mConfig e1)) by done. change (@EngineRefines.fine hist e ()) with (@EngineRefines.fine hist e1 ()).
  clearbody e1. clear HI Hpace Hr e. apply wp_bind, wp_gets. apply wp_bind, wp_ask. intros w0. apply wp_bind.
  eapply wp_mono; [|apply wp_also; [apply fine_loop; [done|]; intros; by apply wp_fine, servePeer_ok|apply (serving_touches fuel)]].
  cbn beta. intros [] e2 [[HI2 Hc2] Hg]. apply wp_bind, wp_gets. apply wp_bind, wp_must_or.
  { intros Hi. destruct Hpace1 as [|[_ Hroom]]; [done|]. by rewrite (roomy_iterators w0 _ _ Hroom Hg) in Hi. }
  intros [] _. clear Hg.
  rewrite <- Hc2 in Hpace1. apply (wp_mono stuck _ (fun a e3 => fine e2 a e3 /\ noneEnded e3)); [intros [] e3 [[HI3 Hc3] Hn3]; split; [split; [done|congruence]|done]|].
  apply wp_bind, wp_gets. eapply wp_ended_then; [apply wp_when; intros _; [apply wp_fine, sendData_ok; [done..|destruct Hpace1 as [|[]]; [by left|by right]]|by apply fine_refl]|]. intros [] e3 HI3.
  apply wp_bind, wp_gets. eapply wp_ended_then; [apply fine_loop; [done|]; intros; by apply wp_fine, settlePeer_ok|]. intros [] e4 HI4.
  apply wp_bind, wp_gets. apply wp_bind, wp_modify.
  eapply wp_mono; [|apply erasing_ok; replace (_ <| mEnded := mEnded e4 |>) with e4 by (by destruct e4); exact HI4].
  intros [] e5 [[HI5 Hc5] Hn5]. by split.
Qed.

(** When the loop wakes up again: no later than anything falls due. *)
Definition by_then (t : TimePoint) (e : NetworkEngine) : Prop := exists w, mNextWake e = Some w /\ w <= t.
Record wakes (now : TimePoint) (e : NetworkEngine) : Prop := {
  wk_peers : forall id p t, mPeers e !! id = Some p -> deadline p = Some t \/ stateDeadline p = Some t -> by_then t e;
  wk_tick : mShutdown e = false -> forall t, mNextTick e = Some t -> by_then t e;
  wk_retry : mSocketBlocked e || Sched.hasBacklog (mScheduler e) || negb (bool_decide (mAcksHeldBack e = [])) || mSocketFailed e = true ->
    by_then (now + Sched.Tick) e;
}.

Lemma finish_ok now e : Inv e -> wp (finish now) (fine e) e.
Proof.
  intros HI. unfold finish. apply wp_bind, wp_gets. eapply wp_fine_then; [by apply modify_fine|]. intros [] e1 HI1.
  eapply wp_fine_then.
  { apply wp_when; intros _; [|by apply fine_refl]. apply wp_bind, wp_gets. apply wp_fine.
    by eapply (mailbox_fine fuel _ _ _ (PublishDiscovered _)). }
  intros [] e2 HI2. eapply wp_fine_then; [by apply modify_fine|]. intros [] e3 HI3. apply modify_fine; by destruct (_ || _).
Qed.

Lemma earlier_le a b t : a = Some t \/ b = Some t -> exists w, earlier a b = Some w /\ w <= t.
Proof. destruct a as [x|], b as [y|]; cbn; intros [[= <-]|[= <-]]; eexists; (split; [done|lia]). Qed.
Lemma earlier_mono a b t : (exists w, a = Some w /\ w <= t) \/ (exists w, b = Some w /\ w <= t) -> exists w, earlier a b = Some w /\ w <= t.
Proof. intros [(w & -> & H)|(w & -> & H)]; [destruct b|destruct a]; cbn; eexists; (split; [done|lia]). Qed.

Lemma wakeFor_spec e t :
  (mShutdown e = false /\ mNextTick e = Some t) \/ (exists id p, mPeers e !! id = Some p /\ (deadline p = Some t \/ stateDeadline p = Some t)) ->
  exists w, wakeFor e = Some w /\ w <= t.
Proof.
  unfold wakeFor. set (f := fun t p => _). set (a0 := if mShutdown e then None else mNextTick e).
  assert (Hf : forall l a, (exists w, a = Some w /\ w <= t) -> exists w, fold_left f l a = Some w /\ w <= t).
  { induction l as [|p l IH]; intros a Ha; [done|]. cbn. apply IH. unfold f. by do 2 (apply earlier_mono; left). }
  intros [[Es En]|(id & p & Hp & Hd)].
  - apply Hf. exists t. unfold a0. by rewrite Es, En.
  - assert (Hin : p ∈ valuesOf (mPeers e)) by (apply elem_of_valuesOf; by exists id).
    apply list_elem_of_split in Hin as (l1 & l2 & ->). rewrite fold_left_app. cbn. apply Hf. unfold f.
    destruct Hd as [Hd|Hd]; [apply earlier_mono; left|]; apply earlier_le; by right.
Qed.

Lemma finish_wakes now e : wp (finish now) (fun _ e' => mPeers e' = mPeers e /\ wakes now e') e.
Proof.
  unfold finish. apply wp_bind, wp_gets. apply wp_bind, wp_modify. apply wp_bind.
  apply (wp_mono stuck _ (fun _ e1 => mPeers e1 = mPeers e)).
  - intros _ e1 Hp1. apply wp_bind, wp_modify, wp_modify.
    set (e2 := e1 <| mNextWake := _ |> <| mWaitingForTick := _ |>).
    assert (H2 : forall t, (mShutdown e2 = false /\ mNextTick e2 = Some t) \/
      (exists id p, mPeers e2 !! id = Some p /\ (deadline p = Some t \/ stateDeadline p = Some t)) -> by_then t e2) by apply (wakeFor_spec e1).
    set (e3 := if mWaitingForTick e2 || mSocketFailed e2 then e2 <| mNextWake := earlier (mNextWake e2) (Some (now + Sched.Tick)) |> else e2).
    change (mPeers e3 = mPeers e /\ wakes now e3).
    assert (H3 : forall t, by_then t e2 -> by_then t e3).
    { intros t Ht. unfold e3. destruct (mWaitingForTick e2 || mSocketFailed e2); [|done]. by apply earlier_mono; left. }
    assert (Hs : mPeers e3 = mPeers e2 /\ mShutdown e3 = mShutdown e2 /\ mNextTick e3 = mNextTick e2) by (unfold e3; by destruct (mWaitingForTick e2 || mSocketFailed e2)).
    destruct Hs as (S1 & S2 & S3). split; [by rewrite S1|]. split.
    + intros id p t Hp Hd. apply H3, H2. right. exists id, p. by rewrite <- S1.
    + intros Es t Et. apply H3, H2. left. by rewrite <- S2, <- S3.
    + intros Hr. assert (E : mWaitingForTick e2 || mSocketFailed e2 = true).
      { unfold e3 in Hr. by destruct (mWaitingForTick e2 || mSocketFailed e2) in Hr. }
      unfold e3. rewrite E. apply earlier_mono. right. exists (now + Sched.Tick). split; [done|lia].
  - apply wp_when; intros _; [|done]. apply wp_bind, wp_gets. apply (wp_mailbox fuel). intros e1 Hm. cbn. by apply meddled_peers in Hm.
Qed.

(** *** The step *)

(** The events of [b] change hands. *)
Definition handed (e : NetworkEngine) (b : EventBatch) (e' : NetworkEngine) : Prop :=
  EngineInvariant.Inv None (hist ++ events b) e' /\ mEvents e' = [] /\ mConfig e' = mConfig e /\ noneEnded e'.

Lemma takeBatch_ok e : Inv e -> wp takeBatch (fun b e' => events b = mEvents e /\ EngineInvariant.Inv None (hist ++ events b) e' /\
  exists wk bl m i, e' = e <| mEvents := [] |> <| mWoken := wk |> <| mBacklogBytes := bl |> <| mMailbox := m |> <| mInboxes := i |> /\
    threads (mMailbox e) [] m) e.
Proof.
  intros HI%Inv_handed. unfold takeBatch. apply wp_bind, wp_gets. apply wp_bind, wp_modify. cbn zeta. set (e1 := e <| mEvents := [] |>) in *.
  apply wp_bind, wp_when; intros _.
  - apply wp_bind. apply (wp_interfere fuel). intros e2 Hm. pose proof (meddled_good (hist ++ mEvents e) e1 e2 () HI Hm) as [HI2 _].
    destruct Hm as (wk & bl & m & i & -> & Ht). apply wp_modify, wp_ret. split_and!; try done. exists wk, (u64 (bl + batchBytes (mEvents e))), m, i. split; [reflexivity|exact Ht].
  - apply wp_ret. split_and!; try done. exists (mWoken e), (mBacklogBytes e), (mMailbox e), (mInboxes e). split; [by destruct e|constructor].
Qed.

Lemma step_ok now e : Inv e -> stuck \/ paced (mConfig e) -> wp (step fuel now) (fun b e' => handed e b e' /\ wakes now e') e.
Proof.
  intros HI Hpace. unfold step. apply wp_bind. eapply wp_mono; [|by apply takeIn_ok]. cbn beta. intros [] e1 [HI1 Hc1].
  apply wp_bind. eapply wp_mono; [|apply sendOut_ok; [done|by rewrite Hc1]]. cbn beta. intros [] e2 [[HI2 Hc2] Hn2].
  apply wp_bind. eapply wp_mono; [|apply wp_and; [by apply finish_ok|apply finish_wakes]]. cbn beta. intros [] e3 [[HI3 Hc3] [Hp3 [K1 K2 K3]]].
  eapply wp_mono; [|by apply takeBatch_ok]. cbn beta. intros b e4 (_ & HI4 & wk & bl & m & i & -> & _). split; [|by split].
  split_and!; [done|done|cbn; congruence|]. intros id p. cbn. rewrite Hp3. apply Hn2.
Qed.
End Round.

Section Loop.
Context {W : Type} `{!World W} (fuel : nat) `{!WorldOk W fuel} (stuck : Prop) (hist : list EngineEvent).
Abbreviation wp := (wp (W := W) stuck).

Lemma waitForWork_ok told now e : Inv None told e ->
  wp (waitForWork now) (fun _ e' => Inv None told e' /\ mConfig e' = mConfig e /\ mEvents e' = mEvents e /\ mPeers e' = mPeers e) e.
Proof.
  intros HI. unfold waitForWork. apply wp_bind, wp_gets, wp_bind, wp_gets, wp_bind.
  eapply (wp_mono stuck _ (fun _ e1 => Inv None told e1 /\ mConfig e1 = mConfig e /\ mEvents e1 = mEvents e /\ mPeers e1 = mPeers e));
    [|by apply wp_when; intros _; [apply wp_modify|]].
  cbn beta. intros _ e1 (HI1 & Hc1 & He1 & Hp1). apply wp_bind. apply (wp_interfere fuel). intros e2 Hm.
  pose proof (meddled_good told e1 e2 () HI1 Hm) as [HI2 _].
  assert (H2 : mConfig e2 = mConfig e /\ mEvents e2 = mEvents e /\ mPeers e2 = mPeers e) by (by destruct Hm as (wk & b & m & i & -> & _)).
  apply wp_bind, wp_gets, wp_bind, wp_gets. destruct (mWoken e2); [by apply wp_ret|]. case_bool_decide; [by apply wp_ret|].
  apply wp_bind, wp_ask. intros w. apply wp_bind, wp_modify. apply wp_bind, wp_when; intros _; [apply wp_modify|]; apply wp_ret; done.
Qed.

(** What a round of the loop does. *)
Lemma beginRound_ok before e : Inv None hist e -> stuck \/ paced fuel (mConfig e) /\ roomy W -> wp (beginRound fuel before) (handed hist e) e.
Proof.
  intros HI Hpace. unfold beginRound. apply wp_bind, wp_modify. set (e1 := if mTickTimedOut e then _ else e).
  assert (H1 : Inv None hist e1 /\ mConfig e1 = mConfig e) by (unfold e1; by destruct (mTickTimedOut e)). clearbody e1. destruct H1 as [HI1 Hc1].
  rewrite <- Hc1 in Hpace. apply wp_bind, wp_modify. eapply wp_mono; [|apply (step_ok fuel); [exact HI1|exact Hpace]]. cbn beta.
  intros b e2 [(HI2 & He2 & Hc2 & Hn2) _]. split_and!; [done|done|etrans; [exact Hc2|exact Hc1]|done].
Qed.
Lemma endRound_ok told after e : Inv None told e ->
  wp (endRound after) (fun _ e' => Inv None told e' /\ mConfig e' = mConfig e /\ mEvents e' = mEvents e /\ mPeers e' = mPeers e) e.
Proof.
  intros HI. unfold endRound. apply wp_bind, wp_gets, wp_when; intros _; [|done].
  apply wp_bind. eapply wp_mono; [|exact (waitForWork_ok told after e HI)]. intros r e3 H. by apply wp_ret.
Qed.
Lemma round_ok before after e : Inv None hist e -> stuck \/ paced fuel (mConfig e) /\ roomy W -> wp (round fuel before after) (handed hist e) e.
Proof.
  intros HI Hpace. unfold round. apply wp_bind. eapply wp_mono; [|by apply beginRound_ok]. cbn beta.
  intros b e2 (HI2 & He2 & Hc2 & Hn2). apply wp_bind. eapply wp_mono; [|exact (endRound_ok (hist ++ events b) after e2 HI2)].
  cbn beta. intros r e3 (HI3 & Hc3 & He3 & Hp3). apply wp_ret. split_and!; [done|congruence..|]. unfold noneEnded. by rewrite Hp3.
Qed.
End Loop.
