(* ===== verification/EngineRuns.v ===== *)
(** * What the engine promises

    A run of the engine: rounds of its loop, with whatever the world answers and whatever
    other threads do before, during and after them. *)
From Stdlib Require Import QArith.
From S2P Require Import Prelude Constants IPv4Address PacketFlags PacketHeader OrderedMap SendScheduler SchedulerRules ReliableLink Discovery.
From S2P Require Import Mailbox MailboxRuns Engine SessionSpec LinkIdentity EngineSessions EngineStep.
From S2P Require Import EngineLogic EngineEffects EngineInvariant EngineRefines EngineKeeps EngineSends EngineReceives EngineSettles EngineGrowth EngineRound.
From stdpp Require Import relations sorting.
Import Engine Sessions Loop.
#[local] Open Scope Z_scope.

(** [hist] is what was handed to the application so far. *)
Inductive engine_run {W : Type} `{!World W} (fuel : nat) : list EngineEvent -> NetworkEngine -> Prop :=
| er_start lib generated config : is_uint 32 (cfgMaxSendRate config) -> engine_run fuel [] (newEngine lib generated config)
| er_call hist e c : engine_run fuel hist e -> callOk c -> engine_run fuel hist (performCall e c)
| er_begin hist e before w b e' w' : engine_run fuel hist e -> finished e = false ->
    beginRound fuel before e w = Some (b, e', w') -> engine_run fuel (hist ++ events b) e'
| er_wait hist e after w e' w' : engine_run fuel hist e -> endRound after e w = Some ((), e', w') -> engine_run fuel hist e'
| er_end hist e w e' w' : engine_run fuel hist e -> endLoop e w = Some ((), e', w') -> engine_run fuel hist e'
| er_fail hist e w b e' w' : engine_run fuel hist e -> failLoop e w = Some (b, e', w') -> engine_run fuel (hist ++ events b) e'.

Lemma newEngine_Inv lib generated config : is_uint 32 (cfgMaxSendRate config) -> Inv None [] (newEngine lib generated config).
Proof.
  intros Hr. assert (Er : cfgMaxSendRate (completed lib config) = cfgMaxSendRate config).
  { unfold completed. destruct (_ <? _), (bool_decide _); done. }
  split; [apply rtc_refl|]. split; cbn; try done.
  - intros s id. split; [done|]. intros (p & Hp & _). by rewrite lookup_empty in Hp.
  - eexists 0%nat, _, _. apply run_start.
  - apply Sched.newScheduler_ok. by rewrite Er.
  - intros l id. split; [by intros ?%elem_of_nil|]. intros (p & Hp & _). by rewrite lookup_empty in Hp.
Qed.

(** The peers the application was told of, and not of their end. *)
Definition isUnreported (e : NetworkEngine) (id : PeerId) : bool :=
  match mPeers e !! id with Some p => announced p && negb (reported p) | None => false end.
Definition unreported (e : NetworkEngine) : list PeerId := filter (fun id => isUnreported e id = true) (keysOf (mPeers e)).

Section Runs.
Context {W : Type} `{!World W} (fuel : nat) `{!WorldOk W fuel}.

Lemma endLoop_ok stuck hist e : Inv None hist e -> wp (W := W) stuck endLoop (fun _ e' => Inv None hist e' /\ mEvents e' = mEvents e /\
  mPeers e' = mPeers e /\ Box.mRunning (mMailbox e') = false) e.
Proof.
  intros HI. eapply wp_mono; [|apply wp_and; [by apply (mailbox_fine fuel stuck hist (fun m => ((), Box.setRunning false m)) (SetRunning false))|
    apply (wp_mailbox fuel stuck _ (fun _ e' => mEvents e' = mEvents e /\ mPeers e' = mPeers e /\ Box.mRunning (mMailbox e') = false))]].
  - by intros [] e' [[HI' _] H].
  - intros e' (wk & bl & m & i & -> & _). done.
Qed.

(** The end of the loop after an exception. *)
Lemma failLoop_ok stuck hist e : Inv None hist e ->
  wp (W := W) stuck failLoop (fun b e' => mPeers e' = ∅ /\ (exists m1, Box.mRunning m1 = false /\ threads m1 [] (mMailbox e')) /\
    mEvents e' = [] /\ Inv None ((hist ++ mEvents e) ++ events b) e') e.
Proof.
  intros HI%Inv_handed. unfold failLoop. apply wp_bind, wp_modify. apply wp_bind.
  eapply wp_mono; [|by apply (endAllSessions_ok fuel _ (hist ++ mEvents e))]. cbn beta.
  intros [] e1 (HI1 & _ & Hp1 & _). apply wp_bind. eapply wp_mono; [|by apply (endLoop_ok stuck (hist ++ mEvents e))].
  cbn beta. intros [] e2 (HI2 & _ & Hp2 & Hr2). rewrite Hp1 in Hp2. eapply wp_mono; [|by apply (takeBatch_ok fuel)]. cbn beta.
  intros b e3 (_ & HI3 & wk & bl & m & i & -> & Ht). split_and!; [done| |done|done]. by exists (mMailbox e2).
Qed.

(** A whole round. *)
Lemma er_round hist e before after w b e' w' : engine_run fuel hist e -> finished e = false ->
  round fuel before after e w = Some (b, e', w') -> engine_run fuel (hist ++ events b) e'.
Proof.
  unfold round, mbind, m_bind. intros Hrun Hf H. destruct (beginRound fuel before e w) as [[[b1 e1] w1]|] eqn:E1; [|done].
  destruct (endRound after e1 w1) as [[[[] e2] w2]|] eqn:E2; [|done]. injection H as <- <- <-.
  eapply er_wait; [|exact E2]. by eapply er_begin.
Qed.

(** The invariant, and what holds between two rounds. *)
Lemma run_Inv hist e : engine_run fuel hist e -> Inv None hist e /\ mEvents e = [] /\ noneEnded e.
Proof.
  induction 1 as [lib generated config Hr|hist e c Hrun (HI & He & Hn) Hc|hist e before w b e' w' Hrun (HI & He & Hn) Hf Hw|
    hist e after w e' w' Hrun (HI & He & Hn) Hw|hist e w e' w' Hrun (HI & He & Hn) Hw|
    hist e w b e' w' Hrun (HI & He & Hn) Hw].
  - split_and!; [by apply newEngine_Inv|done|]. intros id p Hp. cbn in Hp. by rewrite lookup_empty in Hp.
  - pose proof (call_meddled e c Hc) as Hm. pose proof (meddled_good hist _ _ () HI Hm) as [HI' _].
    destruct Hm as (wk & bl & m & i & Ee & _). rewrite Ee in *. by split_and!.
  - pose proof (beginRound_ok fuel True hist before e HI (or_introl I) w) as H. rewrite Hw in H. destruct H as (HI' & He' & _ & Hn'). by split_and!.
  - pose proof (endRound_ok fuel True hist after e HI w) as H. rewrite Hw in H. destruct H as (HI' & _ & He' & Hp'). split_and!; [done|congruence|].
    unfold noneEnded. by rewrite Hp'.
  - pose proof (endLoop_ok True hist e HI w) as H. rewrite Hw in H. destruct H as (HI' & He' & Hp' & _). split_and!; [done|congruence|].
    unfold noneEnded. by rewrite Hp'.
  - pose proof (failLoop_ok True hist e HI w) as H. rewrite Hw in H. destruct H as (Hp' & _ & He' & HI'). rewrite He, app_nil_r in HI'.
    split_and!; [done..|]. intros id p Hp. by rewrite Hp', lookup_empty in Hp.
Qed.

(** C8: the sessions of the engine are those of the specification.  Whatever the network and
    the other threads do, every round takes the sessions through steps of the session
    protocol only (being added, asked about, accepted, connected, drained, closed, ended,
    removed, each with the event that belongs to it), and what the application was handed
    is what the specification says it is told. *)
Theorem engine_refines hist e : engine_run fuel hist e -> reached (absOf hist e) /\ aTrace (absOf hist e) = hist.
Proof. intros (HI & He & _)%run_Inv. split; [apply HI|]. cbn. by rewrite He, app_nil_r. Qed.

(** C7: the contract of [NetLinkCallbacks].  For every peer: a message is handed over only
    after [onConnected], and with no request, connection or end of a session with that peer
    in between; between two connections, and between a connection and the next request,
    the application is told of the end of the first; and a peer is lost only if it was
    discovered and not lost since, and only when every connection with it has ended. *)
Theorem session_contract hist e id : engine_run fuel hist e -> contract id hist.
Proof.
  intros Hrun. destruct (run_Inv _ _ Hrun) as (HI & He & _). destruct (ao_told _ (Inv_abs _ _ _ HI) id) as (t & Ht & _).
  cbn in Ht. rewrite He, app_nil_r in Ht. by eapply contract_kept.
Qed.

(** C9: a round comes to its end.  With a send rate set, and if the vector of the touched
    peers has room for the goodbyes that are said while it is iterated over, every round of
    the loop of an engine in any reachable state returns, whatever the sockets deliver and
    the other threads do: no reference to a peer that is gone is followed, nothing is read
    outside a buffer, no iterator dangles, and every loop ends, within [MaxPeers] turns and
    one for each datagram of a burst in the scheduler. *)
Theorem round_returns hist e before after w : engine_run fuel hist e -> roomy W ->
  cfgMaxSendRate (mConfig e) <> 0 -> MaxPeers + Sched.burstOf (cfgMaxSendRate (mConfig e)) <= Z.of_nat fuel ->
  is_Some (round fuel before after e w).
Proof.
  intros (HI & _ & _)%run_Inv Hroom Hr Hf. pose proof (round_ok fuel False hist before after e HI (or_intror (conj (conj Hr Hf) Hroom)) w) as H.
  destruct (round fuel before after e w); [by eexists|done].
Qed.

(** C11: the tables of the engine agree.  Between two rounds: no more than [MaxPeers] peers,
    each under its own id; the stream ids lead to the peers whose links have them and to
    nothing else, so that no two links share one; a peer stands in the ring of a lane once
    if its bit of the lane is set, and not at all otherwise; no session that ended is left;
    without a socket there is neither a session nor a discovered peer; and the mailbox is
    one that its operations led to. *)
Theorem engine_tables hist e : engine_run fuel hist e ->
  Z.of_nat (size (mPeers e)) <= MaxPeers /\
  (forall id p, mPeers e !! id = Some p -> infoId (peerInfo p) = id /\ ended p = false) /\
  (forall s id, mByStream e !! s = Some id <-> exists p, mPeers e !! id = Some p /\ Link.mLocalStreamID (link p) = s) /\
  (forall l, NoDup (Sched.peers (Sched.mRings (mScheduler e) l)) /\
    forall id, id ∈ Sched.peers (Sched.mRings (mScheduler e) l) <->
      exists p, mPeers e !! id = Some p /\ Z.testbit (scheduled p) (lane_to_Z l) = true) /\
  (mIoSocket e = None -> mPeers e = ∅ /\ mKnown (mDiscovery e) = ∅) /\
  in_run (cfgSendQueueBytes (mConfig e)) (mMailbox e).
Proof.
  intros (HI & _ & Hn)%run_Inv. pose proof (ao_size _ (Inv_abs _ _ _ HI)) as Hsz. cbn in Hsz. rewrite map_size_fmap in Hsz.
  destruct HI as [_ [Hid Hst _ _ Hru _ Hsk Hsc _ Hri]]. split_and!; try done.
  - intros id p Hp. split; [by apply Hid|by eapply Hn].
  - intros l. split; [apply Hsc|apply Hri].
Qed.

(** C12: what other threads see of the sessions.  Between two rounds [send] finds a queue for
    a peer exactly while data is transferred in a session with it, and the mailbox says
    [Requested] while the application has to decide, [Pending] while the session is being
    set up, [Connected] (or [Pending] once [disconnect] sealed it) while data is
    transferred, and nothing when the close was sent or there is no session. *)
Theorem published_sessions hist e id : engine_run fuel hist e ->
  match mPeers e !! id with
  | None => Box.mPeers (mMailbox e) !! id = None /\ Box.session id (mMailbox e) = Box.NoSession
  | Some p =>
    (is_Some (Box.mPeers (mMailbox e) !! id) <-> transfersData p = true) /\
    if closeSent p then Box.session id (mMailbox e) = Box.NoSession
    else match state p with
         | Connecting => Box.session id (mMailbox e) = Box.Pending
         | AwaitingDecision => Box.session id (mMailbox e) = Box.Requested
         | InSession | Closing => Box.session id (mMailbox e) = Box.Connected \/ Box.session id (mMailbox e) = Box.Pending
         end
  end.
Proof.
  intros (HI & _ & Hn)%run_Inv. pose proof (co_entry _ _ _ _ _ _ _ _ _ (proj2 HI) id) as He. unfold Box.session.
  destruct (mPeers e !! id) as [p|] eqn:Hp.
  - rewrite decide_False in He by done. destruct He as [E1 E2]. cbn in E1, E2. rewrite (Hn id p Hp) in *. rewrite andb_true_r in E1.
    specialize (E2 eq_refl). change (vTransfers (viewOf p)) with (transfersData p) in E1. split.
    { split; intros H; [by rewrite bool_decide_true in E1|by rewrite H in E1; apply bool_decide_eq_true in E1]. }
    
    destruct (closeSent p); [by rewrite E2|]. destruct (state p); [by rewrite E2..| |]; destruct E2 as [->| ->]; by (left + right).
  - injection He as E1 E2. apply bool_decide_eq_false in E1. rewrite E2. split; [|done]. by destruct (Box.mPeers _ !! id); [destruct E1; eexists|].
Qed.

(** *** Waiting *)
Lemma waitTime_by t later e : by_then t e -> waitTime later e <= Z.max (ms 1) (t - later + 999).
Proof.
  intros (x & Ew & Hx). unfold waitTime. rewrite Ew. destruct (Z.leb_spec x later); [lia|].
  unfold ceilMicroseconds, us. destruct (Z.ltb_spec (x - later) MaxWait) as [Hlt|Hge]; Z.div_mod_to_equations; lia.
Qed.
Lemma waitTime_range later e : 0 < waitTime later e <= MaxWait.
Proof.
  unfold waitTime, MaxWait, ms. destruct (mNextWake e) as [x|]; [|lia]. destruct (Z.leb_spec x later); [lia|].
  unfold ceilMicroseconds, us. destruct (Z.ltb_spec (x - later) (3600000 * 1000000)); Z.div_mod_to_equations; lia.
Qed.

(** *** A failure of the loop *)
Lemma ringing_running x p l mail m : Box.mPeers m !! x = Some p -> Box.mRunning (Box.enqueueAndRing x p l mail m) = Box.mRunning m.
Proof.
  intros Hx. unfold Box.enqueueAndRing. destruct (enqueue_spec x p l mail m) as [_ (p' & He)].
  pose proof (en_box _ _ _ _ _ _ _ He) as Em. destruct (Box.enqueue x p l mail m) as [b m1]. cbn [snd] in Em. subst m1. by destruct b.
Qed.
Lemma pushAll_running l mail m : Box.mRunning (Box.pushToAll l mail m).2 = Box.mRunning m.
Proof.
  unfold Box.pushToAll. destruct (_ <? _); [done|]. destruct (Box.mRunning m) eqn:Er; [cbn [negb]|done].
  assert (Hind : forall ids acc, Box.mRunning acc.2 = true -> Box.mRunning (fold_left (Box.pushOne l mail) ids acc).2 = true).
  { induction ids as [|x ids IH]; intros [[t0 r0] m0] H0; [done|]. cbn [fold_left]. apply IH. cbn [snd] in *.
    unfold Box.pushOne. destruct (Box.mPeers m0 !! x) as [p|] eqn:Ex; [|done]. destruct (_ || _); [done|].
    pose proof (ringing_running x p l mail m0 Ex) as Hr. unfold Box.enqueueAndRing in Hr.
    destruct (Box.enqueue x p l mail m0) as [b m1]. cbn [snd]. rewrite <- H0, <- Hr. by destruct b. }
  specialize (Hind (keysOf (Box.mPeers m)) (0, false, m) Er). destruct (fold_left _ _ _) as [[t r] m']. cbn [snd] in Hind. by destruct r.
Qed.
Lemma app_running a m : appAction a -> Box.mRunning (perform a m) = Box.mRunning m.
Proof.
  destruct a; cbn; try done; intros _.
  - unfold Box.post. by destruct (negb _).
  - pose proof (push_cases id l mail timeout m) as H. destruct (Box.push id l mail timeout m) as [[[]|] m'];
      cbn [fst snd] in *; try (by subst). destruct H as (p & Hid & _ & _ & _ & ->). by apply ringing_running.
  - pose proof (resume_cases w m) as H. destruct (Box.pushResume w m) as [[] m']; cbn [fst snd] in *; try (by subst).
    destruct H as (p & Hid & _ & _ & _ & ->). by apply ringing_running.
  - apply pushAll_running.
  - unfold Box.seal. by destruct (Box.mPeers m !! id).
Qed.
Lemma threads_running m m' : threads m [] m' -> Box.mRunning m' = Box.mRunning m.
Proof.
  intros H. remember [] as ops eqn:Eo. induction H as [|ops m1 a _ IH Ha|ops m1 a _ _ _]; [done| |].
  - rewrite app_running by done. by apply IH.
  - by destruct ops.
Qed.

Lemma report_events id r e p : mPeers e !! id = Some p ->
  wp (W := W) True (report id r) (fun _ e' =>
    mEvents e' = mEvents e ++ (if announced p && negb (reported p) then [Disconnected id r] else []) /\
    forall x, x <> id -> mPeers e' !! x = mPeers e !! x) e.
Proof.
  intros Hp. unfold report. eapply wp_bind, wp_deref; [exact Hp|]. destruct (announced p); cbn [negb andb].
  - eapply wp_bind, wp_setPeer; [exact Hp|]. apply wp_when; intros ->; [apply wp_modify|]; cbn; rewrite ?app_nil_r;
      (split; [done|]; intros x Hx; by rewrite lookup_insert_ne).
  - apply wp_ret. by rewrite app_nil_r.
Qed.

(** Every one of them is reported once, in the order of their ids. *)
Lemma endAllSessions_events r e : wp (W := W) True (endAllSessions r) (fun _ e' => mEvents e' = mEvents e ++ ((fun id => Disconnected id r) <$> unreported e)) e.
Proof.
  unfold endAllSessions. apply wp_bind, wp_gets, wp_bind. unfold unreported. set (ids := keysOf (mPeers e)).
  set (J := fun (pre post : list PeerId) (e1 : NetworkEngine) => mEvents e1 = mEvents e ++ ((fun id => Disconnected id r) <$> filter (fun id => isUnreported e id = true) pre) /\
    (forall x, x ∈ post -> mPeers e1 !! x = mPeers e !! x /\ is_Some (mPeers e !! x)) /\ NoDup post).
  eapply wp_mono; [|apply (wp_loop True _ J ids [] e)].
  - cbn beta. intros [] e1 (E1 & _). apply wp_bind. apply (wp_mono True _ (fun _ e2 => mEvents e2 = mEvents e1)); [intros [] e2 E2; apply wp_modify; cbn; by rewrite E2|].
    apply (wp_forEach True destroyLink (fun e2 => mEvents e2 = mEvents e1)); [done|]. intros x e2 _ E2. unfold destroyLink, onLink_, onLink.
    apply wp_bind, wp_deref'. intros p _. by apply wp_bind, wp_gets, wp_bind, wp_modify, wp_ret.
  - split; [cbn; by rewrite app_nil_r|]. split; [|apply NoDup_keysOf]. intros x Hx. split; [done|]. by apply elem_of_keysOf.
  - intros pre x post e1 (E1 & Hpost & Hnd). apply NoDup_cons in Hnd as [Hx Hnd]. destruct (Hpost x) as [Ex [p Hp]]; [by left|]. rewrite Hp in Ex.
    apply wp_bind. eapply wp_mono; [|by apply report_events]. cbn beta. intros [] e2 [E2 H2].
    assert (HJ : J (pre ++ [x]) post e2).
    { split_and!; [|intros y Hy; rewrite H2 by (by intros ->); apply Hpost; by right|done]. rewrite E2, E1, filter_app, fmap_app, app_assoc. f_equal.
      rewrite filter_cons, filter_nil.
      assert (Eu : isUnreported e x = announced p && negb (reported p)) by (unfold isUnreported; by rewrite Hp). rewrite <- Eu. by destruct (isUnreported e x). }
    apply (wp_mailbox fuel). intros e3 (wk & b & m & i & -> & _). exact HJ.
Qed.
Lemma failLoop_events e : wp (W := W) True failLoop (fun b _ => events b = (fun id => Disconnected id ByNetworkError) <$> unreported e) e.
Proof.
  unfold failLoop. apply wp_bind, wp_modify, wp_bind. eapply wp_mono; [|apply endAllSessions_events]. cbn beta. intros [] e1 E1. apply wp_bind.
  apply (wp_mailbox fuel). intros e2 (wk & b & m & i & -> & _). cbn beta. unfold takeBatch. apply wp_bind, wp_gets, wp_bind, wp_modify, wp_bind.
  apply wp_when; intros _; [apply wp_bind, (wp_interfere fuel); intros e3 _; apply wp_modify|]; apply wp_ret; exact E1.
Qed.

(** C14: a loop that fails leaves nothing behind.  When an exception ends the loop in a state
    that keeps the invariant, the end of the loop returns; no session is left; [send] finds
    no queue, no session and an engine that does not run.  The application is handed exactly
    one [Disconnected] with a network error for every peer it was told of and not yet of its
    end, in the order of the ids, and nothing else: the events the step had gathered so far
    are dropped.  If there were none, as between two steps, the application has been told of
    the end of every session it was told of. *)
Theorem failure_ends_sessions hist e w : Inv None hist e ->
  exists b e' w', failLoop e w = Some (b, e', w') /\ mPeers e' = ∅ /\ Box.isRunning (mMailbox e') = false /\
    (forall id, Box.mPeers (mMailbox e') !! id = None /\ Box.session id (mMailbox e') = Box.NoSession) /\
    events b = ((fun id => Disconnected id ByNetworkError) <$> unreported e) /\
    (mEvents e = [] -> forall id, exists t, tellAll id (hist ++ events b) untold = Some t /\ tPhase t = Out).
Proof.
  intros HI. pose proof (failLoop_ok False hist e HI w) as H. pose proof (failLoop_events e w) as Hev.
  destruct (failLoop e w) as [[[b e'] w']|]; [|done]. destruct H as (Hp & (m1 & Hr & Ht) & Ee & HI'). exists b, e', w'.
  split_and!; [done|done|unfold Box.isRunning; by rewrite (threads_running _ _ Ht)| |exact Hev|].
  - intros id. pose proof (co_entry _ _ _ _ _ _ _ _ _ (proj2 HI') id) as He. rewrite Hp, lookup_empty in He. injection He as E1 E2.
    apply bool_decide_eq_false in E1. unfold Box.session. rewrite E2. split; [|done]. by destruct (Box.mPeers _ !! id); [destruct E1; eexists|].
  - intros E id. destruct (ao_told _ (Inv_abs _ _ _ HI') id) as (t & Htl & _ & Hs). cbn in Htl, Hs. rewrite Hp, fmap_empty, lookup_empty in Hs.
    rewrite Ee, E, !app_nil_r in Htl. by exists t.
Qed.
End Runs.
