(* ===== verification/EngineShutdown.v ===== *)
(** * Sessions come to an end

    What is left of a session once its close was sent is bounded in time, and after a
    shutdown nothing else is left: [winds] is the invariant, kept by every function of the
    engine that changes the stage of a session. *)
From Stdlib Require Import QArith.
From S2P Require Import Prelude Constants IPv4Address PacketFlags PacketHeader OrderedMap SendScheduler SchedulerRules ReliableLink ControlMessage Discovery.
From S2P Require Import Mailbox MailboxRuns Engine EngineSessions EngineStep EngineLogic EngineSettles.
Import Engine Sessions Loop.
#[local] Open Scope Z_scope.

(** The session waits for nothing but its last message to arrive, until [T] at most. *)
Definition leaving (T : TimePoint) (p : Peer) : Prop :=
  state p = Closing /\ exists t, stateDeadline p = Some t /\ t <= T.

(** In a step at [now]: whoever was sent a close leaves by [T]; of a shutdown all peers were
    told except [pending]; and who is told now leaves by [T], too. *)
Record winds (T now : TimePoint) (pending : list PeerId) (e : NetworkEngine) : Prop := {
  wd_close : forall id p, mPeers e !! id = Some p -> ended p = false -> closeSent p = true -> leaving T p;
  wd_told : mShutdown e = true -> forall id p, mPeers e !! id = Some p -> ended p = false -> closeSent p = true \/ id ∈ pending;
  wd_time : now + CloseLinger <= T \/ mShutdown e = true /\ pending = [];
}.

Lemma leaving_mono T T' p : T <= T' -> leaving T p -> leaving T' p.
Proof. intros HT [Hs (t & Et & Ht)]. split; [done|]. exists t. split; [done|lia]. Qed.
Lemma quieter_leaving T p p' : ended p' = false -> quieter p p' ->
  ended p = false /\ closeSent p' = closeSent p /\ (leaving T p -> leaving T p').
Proof.
  intros He [|(E1 & E2 & E3 & E4)]; [congruence|]. split_and!; [congruence|done|]. unfold leaving. by rewrite E2, E4.
Qed.

Lemma settles_winds T now pending e e' : winds T now pending e -> settles e e' -> winds T now pending e'.
Proof.
  intros [Hc Ht Hm] [S1 _ S3]. split.
  - intros id p' Hp' He' Hcs. destruct (S3 id p' Hp') as (p & Hp & Hq). destruct (quieter_leaving T p p' He' Hq) as (He & Ec & Hl).
    apply Hl, (Hc id); congruence.
  - rewrite S1. intros Hs id p' Hp' He'. destruct (S3 id p' Hp') as (p & Hp & Hq). destruct (quieter_leaving T p p' He' Hq) as (He & -> & _).
    by apply Ht.
  - by rewrite S1.
Qed.

(** A session that was sent no close, in an invariant state. *)
Lemma winds_open T now pending e id p : winds T now pending e -> mPeers e !! id = Some p -> ended p = false -> closeSent p = false ->
  now + CloseLinger <= T /\ (pending = [] -> mShutdown e = false).
Proof.
  intros [Hc Ht Hm] Hp He Hcs. split.
  - destruct Hm as [|[Hs ->]]; [done|]. destruct (Ht Hs id p Hp He) as [|H]; [congruence|by apply elem_of_nil in H].
  - intros ->. destruct (mShutdown e) eqn:Hs; [|done]. destruct (Ht eq_refl id p Hp He) as [|H]; [congruence|by apply elem_of_nil in H].
Qed.
Lemma winds_stage T now pending e id p : winds T now pending e -> mPeers e !! id = Some p -> state p <> Closing ->
  ended p = true \/ ended p = false /\ closeSent p = false.
Proof.
  intros Hw Hp Hs. destruct (ended p) eqn:He; [by left|right]. split; [done|]. destruct (closeSent p) eqn:Hc; [|done].
  by destruct (wd_close _ _ _ _ Hw id p Hp He Hc).
Qed.

(** One session changes its stage. *)
Lemma winds_peer T now pending e e' id p' : winds T now pending e -> mPeers e' = <[id := p']> (mPeers e) -> mShutdown e' = mShutdown e ->
  (ended p' = false -> closeSent p' = true -> leaving T p') ->
  (mShutdown e = true -> ended p' = false -> closeSent p' = true \/ id ∈ pending) -> winds T now pending e'.
Proof.
  intros [Hc Ht Hm] Ep Es H1 H2. split.
  - rewrite Ep. intros x q [[<- <-]|[Hne Hq]]%lookup_insert_Some; [done|by apply (Hc x)].
  - rewrite Ep, Es. intros Hs x q [[<- <-]|[Hne Hq]]%lookup_insert_Some; [by apply H2|by apply (Ht Hs x)].
  - by rewrite Es.
Qed.
(** An ended one may. *)
Lemma winds_ended T now pending e e' id p' : winds T now pending e -> mPeers e' = <[id := p']> (mPeers e) -> mShutdown e' = mShutdown e ->
  ended p' = true -> winds T now pending e'.
Proof. intros Hw Ep Es He. eapply winds_peer; [exact Hw|done|done|congruence..]. Qed.
(** Nobody is pending any more who was told. *)
Lemma winds_told T now x pending e : winds T now (x :: pending) e ->
  (forall p, mPeers e !! x = Some p -> ended p = false -> closeSent p = true) -> winds T now pending e.
Proof.
  intros [Hc Ht Hm] Hx. split; [done| |by destruct Hm as [|[_ ?]]; [left|]]. intros Hs id p Hp He.
  destruct (Ht Hs id p Hp He) as [|[->|]%elem_of_cons]; [by left|left; by apply Hx|by right].
Qed.

Section Shutdown.
Context {W : Type} `{!World W} (fuel : nat) `{!WorldOk W fuel} (T now : TimePoint).
Abbreviation wp := (wp (W := W) True).
Abbreviation Comp := (Engine.M W).

(** The invariant is kept, and [mShutdown] is as it was. *)
Definition moves (pending : list PeerId) (e e' : NetworkEngine) : Prop := winds T now pending e' /\ mShutdown e' = mShutdown e.

Lemma moves_trans pending e e1 e2 : moves pending e e1 -> moves pending e1 e2 -> moves pending e e2.
Proof. intros [_ S1] [W2 S2]. split; [done|congruence]. Qed.
Lemma calms_moves {A} (m : Comp A) pending e : calms m -> winds T now pending e -> wp m (fun _ => moves pending e) e.
Proof. intros H Hw. eapply wp_mono; [|apply H]. cbn beta. intros _ e' G. split; [by eapply settles_winds|apply G]. Qed.
Lemma moves_then {A B} pending (m : Comp A) (f : A -> Comp B) e :
  wp m (fun _ => moves pending e) e -> (forall a e1, moves pending e e1 -> wp (f a) (fun _ => moves pending e1) e1) ->
  wp (mbind f m) (fun _ => moves pending e) e.
Proof.
  intros H1 H2. apply wp_bind. eapply wp_mono; [|exact H1]. cbn beta. intros a e1 G. eapply wp_mono; [|by apply H2].
  intros b e2. by apply moves_trans.
Qed.
(** A calm step, and what it leaves as it was. *)
Lemma calm_then {A B} (Q : NetworkEngine -> B -> NetworkEngine -> Prop) (m : Comp A) (f : A -> Comp B) e :
  calms m -> (forall e1 b e2, settles e e1 -> Q e1 b e2 -> Q e b e2) ->
  (forall a e1, settles e e1 -> wp (f a) (Q e1) e1) -> wp (mbind f m) (Q e) e.
Proof.
  intros Hm HQ H. apply wp_bind. eapply wp_mono; [|apply Hm]. cbn beta. intros a e1 G. eapply wp_mono; [|by apply H]. intros b e2. by apply HQ.
Qed.
Lemma settles_moves pending e e1 e2 : settles e e1 -> moves pending e1 e2 -> moves pending e e2.
Proof. intros G [H1 H2]. split; [done|]. rewrite H2. apply G. Qed.

(** Of what comes first nothing need be known. *)
Lemma wp_skip {A B} (P : B -> Prop) (m : Comp A) (f : A -> Comp B) e :
  (forall a e1, wp (f a) (fun b _ => P b) e1) -> wp (mbind f m) (fun b _ => P b) e.
Proof. intros H. apply wp_bind. intros w. destruct (m e w) as [[[a e1] w1]|]; [apply H|done]. Qed.
Lemma wp_skip' {A B} (P : NetworkEngine -> Prop) (m : Comp A) (f : A -> Comp B) e :
  (forall a e1, wp (f a) (fun _ => P) e1) -> wp (mbind f m) (fun _ => P) e.
Proof. intros H. apply wp_bind. intros w. destruct (m e w) as [[[a e1] w1]|]; [apply H|done]. Qed.

(** ** The functions that change a stage *)

(** A stage is set that is not the last one. *)
Definition opening (id : PeerId) (e : NetworkEngine) : Prop :=
  forall p, mPeers e !! id = Some p -> ended p = false -> state p <> Closing.
Lemma settles_opening id e e' : opening id e -> settles e e' -> opening id e'.
Proof.
  intros H [_ _ S3] p' Hp' He'. destruct (S3 id p' Hp') as (p & Hp & [|(E1 & E2 & _)]); [congruence|]. rewrite E2. apply (H p); congruence.
Qed.
Lemma opening_at id e p : mPeers e !! id = Some p -> state p <> Closing -> opening id e.
Proof. intros Hp Hs q Hq _. congruence. Qed.

Lemma setPeer_open pending id f e : winds T now pending e -> opening id e ->
  (forall p, ended (f p) = ended p /\ closeSent (f p) = closeSent p) -> wp (setPeer id f) (fun _ => moves pending e) e.
Proof.
  intros Hw Hs Hf. apply wp_setPeer'. intros p Hp. split; [|done]. destruct (Hf p) as [E1 E2]. destruct (ended p) eqn:He.
  - by eapply (winds_ended _ _ _ _ _ id (f p) Hw).
  - destruct (winds_stage _ _ _ _ _ _ Hw Hp (Hs p Hp He)) as [|[_ Hc]]; [congruence|].
    eapply (winds_peer _ _ _ _ _ id (f p) Hw); [done..|congruence|]. intros Hsh _. rewrite E2. by apply (wd_told _ _ _ _ Hw Hsh id p).
Qed.

Lemma sendAccept_winds pending id e : winds T now pending e -> opening id e -> wp (sendAccept id) (fun _ => moves pending e) e.
Proof.
  intros Hw Hs. unfold sendAccept. apply wp_bind, wp_gets.
  apply (calm_then (fun e _ => moves pending e)); [calm|intros ? _ ?; apply settles_moves|]. intros [] e1 G1.
  apply moves_then; [apply setPeer_open; [by eapply settles_winds|by eapply settles_opening|done]|]. intros [] e2 [Hw2 _].
  apply calms_moves; [calm|done].
Qed.

Lemma setConnected_winds pending id e : winds T now pending e -> opening id e ->
  wp (setConnected id) (fun _ => moves pending e) e.
Proof.
  intros Hw Hs. unfold setConnected. apply moves_then; [by apply setPeer_open|]. intros [] e1 [Hw1 _].
  apply calms_moves; [calm|done].
Qed.

(** The close is sent: the session leaves by [T]. *)
Definition parted (id : PeerId) (e : NetworkEngine) : Prop :=
  forall p, mPeers e !! id = Some p -> ended p = false -> closeSent p = true.
Definition parts (pending : list PeerId) (id : PeerId) (e e' : NetworkEngine) : Prop := moves pending e e' /\ parted id e'.
Lemma settles_parted id e e' : parted id e -> settles e e' -> parted id e'.
Proof.
  intros H [_ _ S3] p' Hp' He'. destruct (S3 id p' Hp') as (p & Hp & Hq). destruct (quieter_leaving T p p' He' Hq) as (He & -> & _). by apply H.
Qed.
Lemma parts_calms {A} pending id (m : Comp A) e : calms m -> winds T now pending e -> parted id e -> wp m (fun _ => parts pending id e) e.
Proof.
  intros H Hw Hp. eapply wp_mono; [|apply H]. cbn beta. intros _ e' G. split; [split; [by eapply settles_winds|apply G]|by eapply settles_parted].
Qed.
Lemma parts_moves {A} pending id (m : Comp A) e : wp m (fun _ => parts pending id e) e -> wp m (fun _ => moves pending e) e.
Proof. apply wp_mono. by intros _ e' []. Qed.

(** Whoever was sent no close yet, or has ended. *)
Definition may_close (id : PeerId) (e : NetworkEngine) : Prop :=
  forall p, mPeers e !! id = Some p -> ended p = false -> now + CloseLinger <= T.
Lemma settles_may_close id e e' : may_close id e -> settles e e' -> may_close id e'.
Proof.
  intros H [_ _ S3] p' Hp' He'. destruct (S3 id p' Hp') as (p & Hp & Hq). destruct (quieter_leaving T p p' He' Hq) as (He & _ & _). by apply (H p).
Qed.
Lemma winds_may_close pending id e p : winds T now pending e -> mPeers e !! id = Some p -> closeSent p = false -> may_close id e.
Proof. intros Hw Hp Hc q Hq He. rewrite Hp in Hq. injection Hq as <-. by apply (winds_open _ _ _ _ _ _ Hw Hp He Hc). Qed.
Lemma stage_may_close pending id e p : winds T now pending e -> mPeers e !! id = Some p -> state p <> Closing -> may_close id e.
Proof.
  intros Hw Hp Hs q Hq He. rewrite Hp in Hq. injection Hq as <-. destruct (winds_stage _ _ _ _ _ _ Hw Hp Hs) as [|[_ Hc]]; [congruence|].
  by apply (winds_open _ _ _ _ _ _ Hw Hp He Hc).
Qed.

Lemma setPeer_close pending id f e : winds T now pending e -> may_close id e ->
  (forall p, ended (f p) = ended p /\ closeSent (f p) = true /\ leaving (now + CloseLinger) (f p)) ->
  wp (setPeer id f) (fun _ => parts pending id e) e.
Proof.
  intros Hw Ht Hf. apply wp_setPeer'. intros p Hp. destruct (Hf p) as (E1 & E2 & E3). split.
  - split; [|done]. destruct (ended p) eqn:He; [by eapply (winds_ended _ _ _ _ _ id (f p) Hw)|].
    eapply (winds_peer _ _ _ _ _ id (f p) Hw); [done..| |by left]. intros _ _. eapply leaving_mono; [|done]. by apply (Ht p).
  - intros q. cbn. rewrite lookup_insert_eq. by intros [= <-].
Qed.
Lemma leave_now p : leaving (now + CloseLinger) (p <| state := Closing |> <| closeSent := true |> <| stateDeadline := Some (now + CloseLinger) |>).
Proof. split; [done|]. eexists. split; [done|lia]. Qed.

Lemma settles_parts pending id e e1 e2 : settles e e1 -> parts pending id e1 e2 -> parts pending id e e2.
Proof. intros G [H1 H2]. split; [by eapply settles_moves|done]. Qed.

Lemma sendDecline_winds pending id e : winds T now pending e -> may_close id e -> wp (sendDecline id now) (fun _ => parts pending id e) e.
Proof.
  intros Hw Hm. unfold sendDecline. apply (calm_then (fun e _ => parts pending id e)); [calm|intros ? _ ?; apply settles_parts|]. intros [] e1 G1.
  apply (calm_then (fun e _ => parts pending id e)); [calm|intros ? _ ?; apply settles_parts|]. intros [] e2 G2.
  assert (settles e e2) as G by (by etrans). apply wp_bind.
  eapply wp_mono; [|apply setPeer_close; [by eapply settles_winds|by eapply settles_may_close|]].
  - cbn beta. intros [] e3 [[Hw3 Es3] Hp3]. eapply wp_mono; [|apply parts_calms; [|exact Hw3|exact Hp3]]; [|calm].
    intros [] e4 [[Hw4 Es4] Hp4]. split; [split; [done|congruence]|done].
  - intros p. split_and!; [done..|]. apply leave_now.
Qed.

Lemma sendClose_winds pending id e : winds T now pending e -> may_close id e -> wp (sendClose id now) (fun _ => parts pending id e) e.
Proof.
  intros Hw Hm. unfold sendClose. apply (calm_then (fun e _ => parts pending id e)); [calm|intros ? _ ?; apply settles_parts|]. intros [] e1 G1.
  apply wp_bind, wp_deref'. intros p Hp. case_bool_decide.
  - unfold end_. apply wp_bind, wp_deref'. intros p' Hp'. apply wp_bind, wp_setPeer'. intros p'' Hp''.
    match goal with |- EngineLogic.wp _ _ _ ?x => set (e2 := x) end.
    assert (G2 : settles e1 e2) by (eapply (settles_peer id p''); [done..|by left]).
    eapply wp_mono; [|apply parts_calms].
    + intros b e3. by apply settles_parts.
    + calm.
    + by do 2 (eapply settles_winds; [|done]).
    + intros q. cbn. rewrite lookup_insert_eq. by intros [= <-].
  - apply (calm_then (fun e _ => parts pending id e)); [calm|intros ? _ ?; apply settles_parts|]. intros [] e2 G2.
    assert (settles e e2) as G by (by etrans). apply wp_bind.
    eapply wp_mono; [|apply setPeer_close; [by eapply settles_winds|by eapply settles_may_close|]].
    + cbn beta. intros [] e3 [[Hw3 Es3] Hp3]. eapply wp_mono; [|apply parts_calms; [|exact Hw3|exact Hp3]]; [|calm].
      intros [] e4 [[Hw4 Es4] Hp4]. split; [split; [done|congruence]|done].
    + intros q. split_and!; [done..|]. apply leave_now.
Qed.

(** ** Commands *)
Lemma endSession_winds pending id e : winds T now pending e -> wp (endSession id now) (fun _ => moves pending e) e.
Proof.
  intros Hw. unfold endSession. apply wp_bind, wp_deref'. intros p Hp.
  destruct (state p) eqn:Es.
  - apply (calm_then (fun e _ => moves pending e)); [calm|intros ? _ ?; apply settles_moves|]. intros [] e1 G1.
    apply (parts_moves _ id), sendClose_winds; [by eapply settles_winds|]. eapply settles_may_close; [|done].
    eapply stage_may_close; [done..|congruence].
  - apply (parts_moves _ id), sendDecline_winds; [done|]. eapply stage_may_close; [done..|congruence].
  - apply moves_then; [apply setPeer_open; [done|eapply (opening_at id e p); congruence|done]|]. intros [] e1 [Hw1 _]. apply calms_moves; [calm|done].
  - by apply wp_ret.
Qed.

Lemma shutdownPeer_winds id pending e : winds T now (id :: pending) e ->
  wp (shutdownPeer now id) (fun _ => moves pending e) e.
Proof.
  intros Hw. apply (wp_mono True _ (fun _ => parts (id :: pending) id e)).
  { intros _ e' [[Hw' Es] Hp]. split; [by eapply winds_told|done]. }
  unfold shutdownPeer. apply (calm_then (fun e _ => parts (id :: pending) id e)); [calm|intros ? _ ?; apply settles_parts|]. intros [] e1 G1.
  assert (Hw1 : winds T now (id :: pending) e1) by (by eapply settles_winds).
  apply wp_bind, wp_deref'. intros p Hp. case_bool_decide as Hs.
  - apply sendDecline_winds; [done|]. eapply stage_may_close; [done..|congruence].
  - apply wp_when; intros Hc.
    + apply negb_true_iff in Hc. apply sendClose_winds; [done|]. by eapply winds_may_close.
    + apply negb_false_iff in Hc. split; [done|]. intros q Hq _. congruence.
Qed.

(** The peers there are, are told. *)
Lemma shutdownAll_winds l : forall e, winds T now l e -> wp (forEach (shutdownPeer now) l) (fun _ => moves [] e) e.
Proof.
  induction l as [|id l IH]; intros e Hw; cbn [forEach]; [by apply wp_ret|]. apply wp_bind.
  eapply wp_mono; [|by apply shutdownPeer_winds]. cbn beta. intros [] e1 [Hw1 Es1]. eapply wp_mono; [|by apply IH].
  intros [] e2 [Hw2 Es2]. split; [done|congruence].
Qed.
Lemma beginShutdown_winds e : winds T now [] e -> wp (beginShutdown now) (fun _ e' => winds T now [] e' /\ mShutdown e' = true) e.
Proof.
  intros Hw. unfold beginShutdown. apply wp_bind, wp_gets. apply wp_bind, wp_modify.
  destruct (mShutdown e) eqn:Es; [apply wp_ret; split; [eapply settles_winds; [exact Hw|]; by apply settles_same|done]|].
  apply wp_bind, wp_modify. apply wp_bind, wp_gets.
  match goal with |- EngineLogic.wp _ _ _ ?x => set (e1 := x) end.
  assert (Hw1 : winds T now (keysOf (mPeers e)) e1).
  { destruct Hw as [Hc Ht Hm]. split; [exact Hc| |].
    - intros _ id p Hp _. right. apply elem_of_keysOf. by exists p.
    - left. destruct Hm as [|[? _]]; [done|congruence]. }
  apply wp_bind. eapply wp_mono; [|by apply shutdownAll_winds]. cbn beta. intros [] e2 [Hw2 Es2].
  eapply wp_mono; [|apply calms_moves; [calm|exact Hw2]]. intros [] e3 [Hw3 Es3]. split; [done|]. by rewrite Es3, Es2.
Qed.

(** ** New sessions *)
Lemma addPeer_winds pending info a e : winds T now pending e -> mShutdown e = false ->
  wp (addPeer fuel info a now) (fun id e' => moves pending e e' /\ id = infoId info /\ (mPeers e !! id = None -> opening id e')) e.
Proof.
  intros Hw Hs. unfold addPeer. apply wp_bind, wp_gets. apply wp_bind, wp_ask. intros w0.
  apply wp_bind. eapply (wp_mono True _ (fun _ e1 => e1 = e)); [|intros w; unfold must; by destruct (_.1)]. cbn beta. intros stream ? ->.
  apply wp_bind, wp_modify. set (e1 := match mPeers e !! infoId info with None => _ | Some _ => e end).
  assert (H1 : winds T now pending e1 /\ mShutdown e1 = mShutdown e /\ (mPeers e !! infoId info = None -> opening (infoId info) e1)).
  { unfold e1. destruct (mPeers e !! infoId info) as [p|] eqn:Ep; [done|]. split_and!; [|done|].
    - by eapply (winds_peer _ _ _ e _ (infoId info) _ Hw); [reflexivity|done|done|congruence].
    - intros _. eapply opening_at; [cbn; apply lookup_insert_eq|done]. }
  clearbody e1. destruct H1 as (Hw1 & Hs1 & H1).
  eapply wp_mono; [|apply (wp_and True _ (fun _ => settles e1)); [|apply (wp_skip (fun id => id = infoId info))]].
  - cbn beta. intros id e' [G ->]. split_and!; [split; [by eapply settles_winds|by rewrite (st_shutdown _ _ G)]|done|].
    intros Hn. eapply settles_opening; [by apply H1|exact G].
  - apply calms_at. calm.
  - intros paused e2. do 4 (apply wp_skip; intros ? ?). by apply wp_ret.
Qed.

(** A Hello makes a session only before a shutdown. *)
Lemma erase_gone id e : wp (erase id) (fun _ e' => settles e e' /\ mPeers e' !! id = None) e.
Proof.
  apply wp_and; [apply calms_at, (erase_calms fuel)|]. unfold erase. apply wp_bind, wp_find. destruct (mPeers e !! id) as [p|] eqn:Hp; [|by apply wp_ret].
  apply (wp_skip' (fun e' => mPeers e' !! id = None)). intros _ e1. do 2 (apply (wp_skip' (fun e' => mPeers e' !! id = None)); intros _ ?).
  apply wp_modify. cbn. apply lookup_delete_eq.
Qed.

Lemma startSession_winds id e : winds T now [] e -> wp (startSession fuel id now) (fun _ => moves [] e) e.
Proof.
  intros Hw. unfold startSession. apply wp_bind, wp_gets. destruct (mShutdown e) eqn:Es; [by apply wp_ret|].
  apply wp_bind, wp_find. cbn zeta.
  match goal with |- context [match mPeers e !! id with None => ?m | Some _ => _ end] => set (fresh := m) end.
  assert (Hfresh : forall e1, winds T now [] e1 -> mShutdown e1 = false -> wp fresh (fun _ => moves [] e1) e1).
  { intros e1 Hw1 Es1. unfold fresh. apply wp_bind, wp_gets, wp_bind, wp_gets, wp_bind, wp_gets.
    destruct (Discovery.find id (mDiscovery e1)) as [k|]; [|apply calms_moves; [calm|done]].
    destruct (_ || _); [apply calms_moves; [calm|done]|]. apply moves_then.
    - eapply wp_mono; [|by apply addPeer_winds]. cbn beta. by intros peer e2 [H _].
    - intros peer e2 [Hw2 _]. apply calms_moves; [calm|done]. }
  clearbody fresh. destruct (mPeers e !! id) as [p|] eqn:Hp; [|by apply Hfresh].
  case_bool_decide as Hs; [apply sendAccept_winds; [done|]; eapply (opening_at id e p); congruence|].
  destruct (_ || _); [by apply wp_ret|]. apply moves_then; [apply calms_moves; [calm|done]|]. intros [] e1 [Hw1 Es1]. apply Hfresh; [done|congruence].
Qed.

(** A shutdown once begun is not taken back. *)
Definition onward (e e' : NetworkEngine) : Prop := winds T now [] e' /\ (mShutdown e = true -> mShutdown e' = true).
Lemma moves_onward e e' : moves [] e e' -> onward e e'.
Proof. intros [H1 H2]. split; [done|congruence]. Qed.

Lemma apply_winds c e : winds T now [] e ->
  wp (apply fuel now c) (fun _ e' => onward e e' /\ (Box.command c = Box.Shutdown -> mShutdown e' = true)) e.
Proof.
  intros Hw. unfold apply. apply wp_bind, wp_find.
  assert (Hmove : forall m : Comp (), Box.command c <> Box.Shutdown -> wp m (fun _ => moves [] e) e ->
    wp m (fun _ e' => onward e e' /\ (Box.command c = Box.Shutdown -> mShutdown e' = true)) e).
  { intros m Hc. apply wp_mono. intros [] e' H. split; [by apply moves_onward|done]. }
  assert (Hopen : (match mPeers e !! Box.commandPeer c with Some p => bool_decide (state p = AwaitingDecision) | None => false end) = true ->
    exists p, mPeers e !! Box.commandPeer c = Some p /\ state p = AwaitingDecision).
  { destruct (mPeers e !! Box.commandPeer c) as [p|]; [|done]. intros H%bool_decide_eq_true. by exists p. }
  destruct (Box.command c) eqn:Ec; cbn zeta; try (apply Hmove; [congruence|]).
  - by apply startSession_winds.
  - apply wp_when; intros Ha; [|done]. destruct (Hopen Ha) as (p & Hp & Hs). apply sendAccept_winds; [done|].
    eapply (opening_at _ _ p); congruence.
  - apply wp_when; intros Ha; [|done]. destruct (Hopen Ha) as (p & Hp & Hs). apply (parts_moves _ (Box.commandPeer c)), sendDecline_winds; [done|].
    eapply (stage_may_close _ _ _ p); [done|congruence..].
  - apply wp_when; intros _; [|done]. by apply endSession_winds.
  - apply calms_moves; [calm|done].
  - apply calms_moves; [calm|done].
  - apply calms_moves; [calm|done].
  - by apply wp_ret.
  - eapply wp_mono; [|by apply beginShutdown_winds]. intros [] e' [H1 H2]. by split.
Qed.

(** ** What the link of a peer received *)
Lemma onControl_winds id m e : winds T now [] e -> wp (onControl id m) (fun _ => moves [] e) e.
Proof.
  intros Hw. unfold onControl. apply wp_bind, wp_deref'. intros p Hp. destruct (ended p) eqn:He; [by apply wp_ret|]. cbn zeta.
  destruct (controlType _) as [[]|]; [by apply wp_ret| | | |by apply wp_ret].
  - destruct (_ && _) eqn:Ea; [|by apply wp_ret]. apply andb_true_iff in Ea as [Es%bool_decide_eq_true _].
    apply (calm_then (fun e _ => moves [] e)); [calm|intros ? _ ?; apply settles_moves|]. intros answer e1 G1.
    apply (calm_then (fun e _ => moves [] e)); [calm|intros ? _ ?; apply settles_moves|]. intros [] e2 G2.
    assert (settles e e2) as G by (by etrans). apply setConnected_winds; [by eapply settles_winds|]. eapply settles_opening; [|done].
    eapply (opening_at id e p); congruence.
  - destruct (_ && _); [|by apply wp_ret]. apply calms_moves; [calm|done].
  - apply calms_moves; [calm|done].
Qed.
Lemma onMessage_winds id m e : winds T now [] e -> wp (onMessage id m) (fun _ => moves [] e) e.
Proof.
  intros Hw. unfold onMessage. cbn zeta. case_bool_decide; [by apply onControl_winds|]. apply calms_moves; [calm|done].
Qed.

Lemma advanceState_winds id e : winds T now [] e -> (forall p, mPeers e !! id = Some p -> ended p = false) ->
  wp (advanceState id now) (fun _ => moves [] e) e.
Proof.
  intros Hw He. unfold advanceState. apply wp_bind, wp_deref'. intros p Hp. cbn zeta. destruct (state p) eqn:Es.
  - apply wp_when; intros _; [|done]. apply setConnected_winds; [done|]. eapply (opening_at id e p); congruence.
  - apply wp_when; intros _; [|done]. apply (parts_moves _ id), sendDecline_winds; [done|]. eapply (stage_may_close _ _ _ p); [done|congruence..].
  - by apply wp_ret.
  - destruct (closeSent p) eqn:Ec; [apply calms_moves; [calm|done]|].
    apply (calm_then (fun e _ => moves [] e)); [calm|intros ? _ ?; apply settles_moves|]. intros over e1 G1. apply wp_when; intros _; [|split; [by eapply settles_winds|done]].
    apply (calm_then (fun e _ => moves [] e)); [calm|intros ? _ ?; apply settles_moves|]. intros [] e2 G2.
    assert (settles e e2) as G by (by etrans). apply (parts_moves _ id), sendClose_winds; [by eapply settles_winds|].
    eapply settles_may_close; [|done]. by eapply winds_may_close.
Qed.
Lemma advance_winds id e : winds T now [] e -> wp (advance id now) (fun _ => moves [] e) e.
Proof.
  intros Hw. unfold advance. apply wp_bind, wp_deref'. intros p Hp. destruct (ended p) eqn:He; [by apply wp_ret|].
  destruct (Link.mFailed (link p)); [apply calms_moves; [calm|done]|]. apply moves_then; [apply calms_moves; [calm|done]|].
  intros messages e1 [Hw1 _]. apply moves_then.
  - apply (wp_forEach True _ (moves [] e1)); [done|]. intros m e2 _ [Hw2 Es2]. eapply wp_mono; [|by apply onMessage_winds].
    intros [] e3 [Hw3 Es3]. split; [done|congruence].
  - intros [] e2 [Hw2 _]. apply wp_bind, wp_deref'. intros q Hq. destruct (ended q) eqn:Eq; [by apply wp_ret|]. apply advanceState_winds; [done|].
    intros q' Hq'. congruence.
Qed.

(** ** What the sockets received *)
Lemma replaceSession_winds id e : winds T now [] e ->
  wp (replaceSession id) (fun r e' => moves [] e e' /\ (is_Some r -> mPeers e' !! id = None)) e.
Proof.
  intros Hw. assert (Herase : forall (b : bool) e, winds T now [] e -> wp (erase id;; mret (Some b)) (fun r e' => moves [] e e' /\ (is_Some r -> mPeers e' !! id = None)) e).
  { intros b e0 Hw0. apply wp_bind. eapply wp_mono; [|apply erase_gone]. cbn beta. intros [] e1 [G1 H1]. apply wp_ret. split; [|done].
    split; [by eapply settles_winds|apply G1]. }
  unfold replaceSession. apply wp_bind, wp_find. destruct (mPeers e !! id) as [p|] eqn:Hp; [|by apply wp_ret].
  apply wp_bind, wp_gets. destruct (_ && _).
  - destruct (_ <? _); [apply wp_ret; split; [done|by intros []]|by apply Herase].
  - apply wp_bind. eapply wp_mono; [|apply calms_moves; [apply (report_calms id ByLost)|exact Hw]]. cbn beta. intros [] e1 [Hw1 Es1].
    eapply wp_mono; [|by apply Herase]. cbn beta. intros r e2 [[Hw2 Es2] H2]. split; [split; [done|congruence]|done].
Qed.

Lemma onHello_winds from packet e : winds T now [] e -> wp (onHello fuel from packet now) (fun _ => moves [] e) e.
Proof.
  intros Hw. unfold onHello. apply wp_bind, wp_gets. destruct (knownLink _ _ _); [by apply wp_ret|].
  apply wp_bind. eapply (wp_mono True _ (fun _ e1 => e1 = e)); [|intros w; unfold must; by destruct (decodeHello _)]. cbn beta. intros hello ? ->.
  destruct hello as [h|]; [|by apply wp_ret]. apply wp_bind, wp_gets. destruct (helloOk h from e) eqn:Hok; [cbn [negb]|by apply wp_ret].
  assert (Es : mShutdown e = false) by (unfold helloOk in Hok; by destruct (mShutdown e)). cbn zeta.
  apply wp_bind. eapply wp_mono; [|by apply replaceSession_winds]. cbn beta. intros replaced e1 [[Hw1 Es1] Hgone].
  apply (wp_mono True _ (fun _ => moves [] e1)); [intros _ e2 H2; by eapply moves_trans|]. destruct replaced as [crossing|]; [|by apply wp_ret].
  apply wp_bind, wp_gets, wp_bind, wp_gets. destruct (_ || _); [by apply wp_ret|]. apply wp_bind.
  eapply wp_mono; [|apply addPeer_winds; [done|congruence]]. cbn beta. intros peer e2 ([Hw2 Es2] & -> & Hopen). cbn [infoId] in *.
  specialize (Hopen (Hgone ltac:(by eexists))).
  apply (wp_mono True _ (fun _ => moves [] e2)); [intros _ e3 [H3 E3]; split; [done|congruence]|].
  apply wp_bind, wp_gets. apply moves_then; [|intros [] e3 [H3 _]; by apply wp_ret]. destruct (_ || _).
  - apply (calm_then (fun e _ => moves [] e)); [calm|intros ? _ ?; apply settles_moves|]. intros [] e3 G3.
    apply (calm_then (fun e _ => moves [] e)); [calm|intros ? _ ?; apply settles_moves|]. intros [] e4 G4.
    assert (settles e2 e4) as G by (by etrans). apply sendAccept_winds; [by eapply settles_winds|by eapply settles_opening].
  - apply moves_then; [by apply setPeer_open|]. intros [] e3 [H3 _]. apply calms_moves; [calm|done].
Qed.
Lemma receiver_winds from packet e : winds T now [] e -> wp (receiver fuel from packet now) (fun _ => moves [] e) e.
Proof.
  intros Hw. unfold receiver. cbn zeta. destruct (_ =? _); [destruct (negb _); [by apply wp_ret|by apply onHello_winds]|]. apply calms_moves; [calm|done].
Qed.

Lemma handleDatagram_winds from d e : winds T now [] e -> wp (handleDatagram fuel now from d) (fun _ => moves [] e) e.
Proof.
  intros Hw. unfold handleDatagram. apply moves_then; [apply calms_moves; [calm|done]|]. intros b e1 [Hw1 _].
  destruct b; [apply calms_moves; [calm|done]|]. apply moves_then; [apply calms_moves; [calm|done]|]. intros packet e2 [Hw2 _].
  destruct packet as [packet|]; [|by apply wp_ret]. apply moves_then; [by apply receiver_winds|]. intros peer e3 [Hw3 _].
  destruct peer as [id|]; [|by apply wp_ret]. apply wp_bind, wp_deref'. intros p Hp. destruct (_ || _); [by apply wp_ret|]. cbn zeta.
  assert (Htake : forall e, winds T now [] e -> wp (onLink_ id (Link.onPacket packet now);; touch id) (fun _ => moves [] e) e)
    by (intros; apply calms_moves; [calm|done]).
  destruct (_ && _); [|by apply Htake]. destruct (_ || _) eqn:Ec; [by apply wp_ret|].
  apply orb_false_iff in Ec as [[Es%negb_false_iff%bool_decide_eq_true _]%orb_false_iff _].
  apply moves_then; [apply setConnected_winds; [done|]; eapply (opening_at id e3 p); congruence|]. intros [] e4 [Hw4 _]. by apply Htake.
Qed.

Lemma receiveLoop_winds port handle n : (forall from d e, winds T now [] e -> wp (handle from d) (fun _ => moves [] e) e) ->
  forall e, winds T now [] e -> wp (receiveLoop port handle n) (fun _ => moves [] e) e.
Proof.
  intros Hh. induction n as [|n IH]; intros e Hw; cbn [receiveLoop]; [by apply wp_ret|]. apply wp_bind, wp_ask. intros w.
  destruct (receiveDatagram port w).1 as [err|[from d]].
  - destruct err; by first [apply IH|apply wp_ret].
  - apply moves_then; [by apply Hh|]. intros [] e1 [Hw1 _]. by apply IH.
Qed.
Lemma receivePending_winds e : winds T now [] e -> wp (receivePending fuel now) (fun _ => moves [] e) e.
Proof.
  intros Hw. unfold receivePending. apply wp_bind, wp_gets. case_bool_decide; [by apply wp_ret|].
  apply moves_then; [apply receiveLoop_winds; [|done]; intros; by apply handleDatagram_winds|]. intros [] e1 [Hw1 _].
  apply wp_bind, wp_gets. apply wp_when; intros _; [|done]. apply receiveLoop_winds; [|done]. intros from d e2 Hw2. apply calms_moves; [calm|done].
Qed.
End Shutdown.
