(* ===== verification/EngineEnds.v ===== *)
(** * A shutdown comes to its end

    Once the loop has taken the command to shut down, the first round at or after the end
    of the last linger leaves no session, so that the loop is over. *)
From Stdlib Require Import QArith.
From S2P Require Import Prelude Constants IPv4Address PacketFlags PacketHeader OrderedMap SendScheduler SchedulerRules ReliableLink ControlMessage Discovery.
From S2P Require Import Mailbox MailboxRuns Engine SessionSpec LinkIdentity EngineSessions EngineStep.
From S2P Require Import EngineLogic EngineEffects EngineInvariant EngineRefines EngineKeeps EngineSends EngineReceives EngineGrowth EngineRound EngineRuns.
From S2P Require Import EngineSettles EngineShutdown.
From stdpp Require Import relations sorting.
Import Engine Sessions Loop.
#[local] Open Scope Z_scope.

(** ** Commands wait until the loop takes them *)
Definition asked (e : NetworkEngine) : Prop := exists id, Box.mkPosted Box.Shutdown id ∈ Box.mCommands (mMailbox e).

Lemma ringing_commands x p l mail m : Box.mCommands (Box.enqueueAndRing x p l mail m) = Box.mCommands m.
Proof.
  unfold Box.enqueueAndRing. destruct (enqueue_spec x p l mail m) as [_ (p' & He)].
  pose proof (en_box _ _ _ _ _ _ _ He) as Em. destruct (Box.enqueue x p l mail m) as [b m1]. cbn [snd] in Em. subst m1. by destruct b.
Qed.
Lemma app_commands a m : appAction a -> Box.mCommands m ⊆ Box.mCommands (perform a m).
Proof.
  destruct a; cbn; try done; intros _.
  - unfold Box.post. destruct (negb _); cbn; set_solver.
  - pose proof (push_cases id l mail timeout m) as H. destruct (Box.push id l mail timeout m) as [[[]|] m'];
      cbn [fst snd] in *; try (by subst). destruct H as (p & _ & _ & _ & _ & ->). by rewrite ringing_commands.
  - pose proof (resume_cases w m) as H. destruct (Box.pushResume w m) as [[] m']; cbn [fst snd] in *; try (by subst).
    destruct H as (p & _ & _ & _ & _ & ->). by rewrite ringing_commands.
  - unfold Box.pushToAll. destruct (_ <? _); [done|]. destruct (negb _); [done|].
    destruct (pushOne_all l mail m (keysOf (Box.mPeers m)) 0 false m (NoDup_keysOf _) eq_refl ltac:(done)) as [Hpa _].
    pose proof (pa_commands _ _ _ _ _ _ _ _ Hpa) as Ec. destruct (fold_left _ _ _) as [[t r] m']. cbn [fst snd] in *. rewrite <- Ec. by destruct r.
  - unfold Box.seal. by destruct (Box.mPeers m !! id).
Qed.
Lemma threads_commands m m' : threads m [] m' -> Box.mCommands m ⊆ Box.mCommands m'.
Proof.
  intros H. remember [] as ops eqn:Eo. induction H as [|ops m1 a _ IH Ha|ops m1 a _ _ _]; [done| |].
  - etrans; [by apply IH|]. by apply app_commands.
  - by destruct ops.
Qed.
Lemma meddled_asked e e' : asked e -> meddled e e' -> asked e'.
Proof. intros (id & H) (wk & b & m & i & -> & Ht). exists id. cbn. by apply (threads_commands _ _ Ht). Qed.

(** ** Who has to go is touched *)
Lemma unique_in x : forall l y, x ∈ l -> x = y \/ x ∈ uniqueFrom y l.
Proof.
  induction l as [|z l IH]; intros y; [by intros ?%elem_of_nil|]. cbn. intros [->|H]%elem_of_cons.
  - destruct (Z.eqb_spec z y); [by left|right; by left].
  - destruct (Z.eqb_spec z y) as [->|]; [by apply IH|]. destruct (IH z H) as [->|]; right; [by left|by right].
Qed.
Lemma touched_sorted l : l ⊆ unique (merge_sort Z.le l).
Proof.
  intros x Hx. rewrite <- (merge_sort_Permutation Z.le l) in Hx. destruct (merge_sort Z.le l) as [|y k]; [done|]. cbn.
  apply elem_of_cons in Hx as [->|Hx]; [by left|]. destruct (unique_in x k y Hx) as [->|]; [by left|by right].
Qed.

Section Ends.
Context {W : Type} `{!World W} (fuel : nat) `{!WorldOk W fuel} (T now : TimePoint).
Abbreviation wp := (wp (W := W) True).
Abbreviation Comp := (Engine.M W).
Abbreviation winds := (winds T now []).
Abbreviation onward := (onward T now).

(** Whose state has a deadline that has passed, is touched. *)
Definition dueAt (id : PeerId) (e : NetworkEngine) : Prop :=
  forall p, mPeers e !! id = Some p -> ended p = false -> due (stateDeadline p) now = true -> id ∈ mTouched e.
Lemma settles_dueAt id e e' : dueAt id e -> settles e e' -> dueAt id e'.
Proof.
  intros H [_ S2 S3] p' Hp' He' Hd. destruct (S3 id p' Hp') as (p & Hp & [|(E1 & _ & _ & E4)]); [congruence|]. apply S2, (H p); congruence.
Qed.

Lemma serviceTimer_due id e : wp (serviceTimer now id) (fun _ e' => settles e e' /\ dueAt id e') e.
Proof.
  unfold serviceTimer. apply wp_bind, wp_deref'. intros p Hp.
  apply wp_bind. eapply (wp_mono True _ (fun _ => settles e)); [|apply calms_at; calm]. cbn beta. intros [] e1 G1. apply wp_when; intros Hd.
  - apply wp_modify. split; [etrans; [exact G1|apply settles_same; [done| |done]]|]; cbn; [set_solver|]. intros _ _ _ _. cbn. set_solver.
  - split; [done|]. intros p' Hp' He' Hd'. destruct (st_peers _ _ G1 id p' Hp') as (q & Hq & [|(_ & _ & _ & E4)]); congruence.
Qed.
Lemma serviceTimers_due e : wp (serviceTimers now) (fun _ e' => settles e e' /\ forall id, dueAt id e') e.
Proof.
  unfold serviceTimers. apply wp_bind, wp_gets. eapply wp_mono; [|apply (wp_loop True (serviceTimer now)
    (fun pre _ e' => settles e e' /\ forall id, id ∈ pre -> dueAt id e') (keysOf (mPeers e)) [] e)].
  - cbn beta. intros [] e' [G H]. split; [done|]. intros id p Hp. destruct (st_peers _ _ G id p Hp) as (q & Hq & _). eapply H; [|done].
    apply elem_of_keysOf. by exists q.
  - split; [done|]. by intros id ?%elem_of_nil.
  - intros pre x post e1 [G1 H1]. eapply wp_mono; [|apply serviceTimer_due]. cbn beta. intros [] e2 [G2 H2]. split; [by etrans|].
    intros id [Hi|Hi%list_elem_of_singleton]%elem_of_app; [by eapply settles_dueAt; [apply H1|]|by subst].
Qed.

(** ** The first half of a step *)
Lemma drain_asked e : wp (mailbox Box.drain) (fun work e' => settles e e' /\
  (asked e -> exists c, c ∈ Box.commands work /\ Box.command c = Box.Shutdown)) e.
Proof.
  apply wp_and; [apply calms_at, (calms_mailbox fuel)|]. apply (wp_mailbox fuel). intros e' Hm Ha.
  destruct (meddled_asked e e' Ha Hm) as (id & H). by eexists.
Qed.

Lemma onward_trans e e1 e2 : onward e e1 -> onward e1 e2 -> onward e e2.
Proof. intros [_ H1] [H2 H3]. split; [done|auto]. Qed.
Lemma settles_onward e e' : winds e -> settles e e' -> onward e e'.
Proof. intros Hw G. split; [by eapply settles_winds|]. by rewrite (st_shutdown _ _ G). Qed.
Lemma onward_then {A B} (m : Comp A) (f : A -> Comp B) (P : NetworkEngine -> Prop) e :
  wp m (fun _ => onward e) e -> (forall a e1, onward e e1 -> wp (f a) (fun _ e2 => onward e1 e2 /\ P e2) e1) ->
  wp (mbind f m) (fun _ e2 => onward e e2 /\ P e2) e.
Proof.
  intros H1 H2. apply wp_bind. eapply wp_mono; [|exact H1]. cbn beta. intros a e1 G. eapply wp_mono; [|by apply H2].
  cbn beta. intros b e2 [G2 H]. split; [by eapply onward_trans|done].
Qed.
Lemma calms_onward {A} (m : Comp A) e : calms m -> winds e -> wp m (fun _ => onward e) e.
Proof. intros H Hw. eapply wp_mono; [|apply H]. intros a e1. by apply settles_onward. Qed.

(** All commands are carried out, the one to shut down among them. *)
Lemma commands_winds l e : winds e ->
  wp (forEach (apply fuel now) l) (fun _ e' => onward e e' /\ ((exists c, c ∈ l /\ Box.command c = Box.Shutdown) -> mShutdown e' = true)) e.
Proof.
  intros Hw. eapply wp_mono; [|apply (wp_loop True (apply fuel now)
    (fun pre _ e' => onward e e' /\ forall c, c ∈ pre -> Box.command c = Box.Shutdown -> mShutdown e' = true) l [] e)].
  - cbn beta. intros [] e' [G H]. split; [done|]. intros (c & Hc & Es). by apply (H c).
  - split; [done|]. by intros c ?%elem_of_nil.
  - intros pre c post e1 [G1 H1]. eapply wp_mono; [|apply (apply_winds fuel T now), G1]. cbn beta. intros [] e2 [G2 H2].
    split; [by eapply onward_trans|]. intros c' [Hc|Hc%list_elem_of_singleton]%elem_of_app Es; [|subst; by apply H2]. by apply G2, (H1 c').
Qed.

Lemma takeIn_winds e : winds e ->
  wp (takeIn fuel now) (fun _ e' => onward e e' /\ (asked e -> mShutdown e' = true) /\ forall id, dueAt id e') e.
Proof.
  intros Hw. unfold takeIn. apply wp_bind, wp_modify. match goal with |- EngineLogic.wp _ _ _ ?x => set (e1 := x) end.
  assert (Hw1 : winds e1) by (destruct Hw; by split).
  change (asked e) with (asked e1). apply (wp_mono True _ (fun _ e' => onward e1 e' /\ (asked e1 -> mShutdown e' = true) /\ forall id, dueAt id e')).
  { intros [] e' (G & H). split; [|done]. by destruct G. }
  clearbody e1. clear e Hw. rename e1 into e, Hw1 into Hw.
  apply wp_bind. eapply wp_mono; [|apply drain_asked]. cbn beta. intros work e1 [G1 Ha1].
  assert (Hw1 : winds e1) by (by eapply settles_winds).
  apply wp_bind. eapply wp_mono; [|by apply commands_winds]. cbn beta. intros [] e2 [G2 Hs2].
  assert (Ha : asked e -> mShutdown e2 = true) by auto.
  apply (wp_mono True _ (fun _ e' => onward e2 e' /\ forall id, dueAt id e')).
  { intros [] e' [[H1 H2] H3]. split_and!; [|auto|done]. split; [done|]. intros Hs. apply H2, G2. by rewrite (st_shutdown _ _ G1). }
  destruct G2 as [Hw2 _]. clear e Hw e1 G1 Ha1 Hw1 Hs2 Ha. rename e2 into e, Hw2 into Hw.
  apply onward_then; [apply calms_onward; [calm|done]|]. intros [] e1 [Hw1 _].
  apply wp_bind, wp_gets, wp_bind, wp_gets.
  apply onward_then; [apply calms_onward; [calm|done]|]. intros [] e2 [Hw2 _].
  apply onward_then; [apply calms_onward; [calm|done]|]. intros [] e3 [Hw3 _].
  apply onward_then; [eapply wp_mono; [|by apply receivePending_winds]; intros []; apply moves_onward|]. intros [] e4 [Hw4 _].
  apply wp_bind. eapply wp_mono; [|apply serviceTimers_due]. cbn beta. intros [] e5 [G5 Hd5].
  eapply (wp_mono True _ (fun _ => settles e5)); [|apply calms_at; calm].
  intros [] e6 G6. split; [apply settles_onward; [done|by etrans]|]. intros id. by eapply settles_dueAt.
Qed.

(** ** The second half: whoever has to go, goes *)

(** The time of every session is up. *)
Definition doomed (e : NetworkEngine) : Prop :=
  forall id p, mPeers e !! id = Some p -> ended p = false -> closeSent p = true /\ leaving now p.
Definition gone (id : PeerId) (e : NetworkEngine) : Prop := forall p, mPeers e !! id = Some p -> ended p = true.

Lemma winds_doomed e : winds e -> mShutdown e = true -> T <= now -> doomed e.
Proof.
  intros [Hc Ht _] Hs HT id p Hp He. destruct (Ht Hs id p Hp He) as [Hcs|H]; [|by apply elem_of_nil in H]. split; [done|].
  eapply leaving_mono; [exact HT|by apply (Hc id)].
Qed.
Lemma settles_doomed e e' : doomed e -> settles e e' -> doomed e'.
Proof.
  intros H [_ _ S3] id p' Hp' He'. destruct (S3 id p' Hp') as (p & Hp & Hq). destruct (quieter_leaving now p p' He' Hq) as (He & -> & Hl).
  destruct (H id p Hp He). auto.
Qed.
Lemma settles_gone id e e' : gone id e -> settles e e' -> gone id e'.
Proof. intros H [_ _ S3] p' Hp'. destruct (S3 id p' Hp') as (p & Hp & [|(E1 & _)]); [done|]. rewrite E1. by apply H. Qed.

Lemma end_gone id e : wp (end_ id) (fun _ e' => settles e e' /\ gone id e') e.
Proof.
  apply wp_and; [apply calms_at, (end_calms fuel)|]. unfold end_. apply wp_bind, wp_deref'. intros p Hp.
  apply wp_bind, wp_setPeer'. intros q Hq. match goal with |- EngineLogic.wp _ _ _ ?x => set (e1 := x) end.
  assert (H1 : gone id e1) by (intros x; cbn; rewrite lookup_insert_eq; by intros [= <-]).
  eapply (wp_mono True _ (fun _ => settles e1)); [|apply calms_at; calm]. intros [] e2 G. by eapply settles_gone.
Qed.

(** Nothing a peer says puts it off. *)
Lemma onMessage_doomed id m e : doomed e -> wp (onMessage id m) (fun _ => settles e) e.
Proof.
  intros Hd. unfold onMessage. cbn zeta. case_bool_decide; [|apply calms_at; calm].
  unfold onControl. apply wp_bind, wp_deref'. intros p Hp. destruct (ended p) eqn:He; [by apply wp_ret|]. cbn zeta.
  destruct (Hd id p Hp He) as [_ [Es _]]. rewrite Es, (bool_decide_false (Closing = Connecting)) by done. cbn [andb]. apply calms_at.
  destruct (controlType _) as [[]|]; calm.
Qed.
Lemma advance_doomed id e : doomed e -> wp (advance id now) (fun _ e' => settles e e' /\ gone id e') e.
Proof.
  intros Hd. unfold advance. apply wp_bind, wp_deref'. intros p Hp. destruct (ended p) eqn:He.
  { apply wp_ret. split; [done|]. intros q Hq. congruence. }
  destruct (Link.mFailed (link p)).
  - apply wp_bind. eapply wp_mono; [|apply (report_calms (W := W))]. cbn beta. intros [] e1 G1. eapply wp_mono; [|apply end_gone].
    cbn beta. intros [] e2 [G2 H2]. split; [by etrans|done].
  - apply wp_bind. eapply (wp_mono True _ (fun _ => settles e)); [|apply calms_at; calm]. cbn beta. intros messages e1 G1.
    apply wp_bind. eapply (wp_mono True _ (fun _ => settles e)).
    + cbn beta. intros [] e2 G2. apply wp_bind, wp_deref'. intros q Hq. destruct (ended q) eqn:Eq.
      { apply wp_ret. split; [done|]. intros x Hx. congruence. }
      unfold advanceState. apply wp_bind, wp_deref'. intros q' Hq'. rewrite Hq in Hq'. injection Hq' as <-. cbn zeta.
      destruct (settles_doomed _ _ Hd G2 id q Hq Eq) as (Ec & Es & t & Et & Ht). rewrite Es, Ec. unfold expired. rewrite Et.
      rewrite (proj2 (Z.leb_le t now) Ht), orb_true_r. cbn [when]. eapply wp_mono; [|apply end_gone]. cbn beta.
      intros [] e3 [G3 H3]. split; [by etrans|done].
    + apply (wp_forEach True _ (settles e)); [done|]. intros m e2 _ G2. eapply wp_mono; [|apply onMessage_doomed; by eapply settles_doomed].
      intros [] e3 G3. by etrans.
Qed.
Lemma servePeer_doomed id e : doomed e -> wp (servePeer now id) (fun _ e' => settles e e' /\ gone id e') e.
Proof.
  intros Hd. unfold servePeer. apply wp_bind, wp_find. destruct (mPeers e !! id) as [p|] eqn:Hp; [|apply wp_ret; split; [done|]; intros q Hq; congruence].
  apply wp_bind. eapply wp_mono; [|by apply advance_doomed]. cbn beta. intros [] e1 [G1 H1].
  eapply (wp_mono True _ (fun _ => settles e1)); [|apply calms_at; calm]. intros [] e2 G2. split; [by etrans|by eapply settles_gone].
Qed.
Lemma servePeer_winds id e : winds e -> wp (servePeer now id) (fun _ => moves T now [] e) e.
Proof.
  intros Hw. unfold servePeer. apply wp_bind, wp_find. destruct (mPeers e !! id) as [p|]; [|by apply wp_ret].
  apply moves_then; [by apply (advance_winds fuel)|]. intros [] e1 [Hw1 _]. apply calms_moves; [calm|done].
Qed.

(** Only [left] may still have a session, if its time is up. *)
Definition clearing (left : list PeerId) (e : NetworkEngine) : Prop :=
  mShutdown e = true -> T <= now -> forall id p, mPeers e !! id = Some p -> ended p = false -> id ∈ left.
Lemma settles_clearing left e e' : clearing left e -> settles e e' -> clearing left e'.
Proof.
  intros H [S1 _ S3] Hs HT id p' Hp' He'. destruct (S3 id p' Hp') as (p & Hp & [|(E1 & _)]); [congruence|].
  apply (H ltac:(congruence) HT id p Hp). congruence.
Qed.

Lemma serving_winds l e : winds e -> clearing l e -> wp (forEach (servePeer now) l) (fun _ e' => moves T now [] e e' /\ clearing [] e') e.
Proof.
  intros Hw Hc. apply (wp_loop True (servePeer now) (fun _ left e' => moves T now [] e e' /\ clearing left e') l [] e); [done|].
  intros _ x left e1 [[Hw1 Es1] Hc1]. destruct (decide (mShutdown e1 = true /\ T <= now)) as [[Hs HT]|Hn].
  - eapply wp_mono; [|apply servePeer_doomed; by apply winds_doomed]. cbn beta. intros [] e2 [G2 H2].
    split; [split; [by eapply settles_winds|by rewrite (st_shutdown _ _ G2)]|].
    intros Hs2 _ id p Hp He. pose proof (settles_clearing _ _ _ Hc1 G2 Hs2 HT id p Hp He) as [->|]%elem_of_cons; [|done].
    by rewrite (H2 p Hp) in He.
  - eapply wp_mono; [|by apply servePeer_winds]. cbn beta. intros [] e2 [Hw2 Es2]. split; [split; [done|congruence]|].
    intros Hs2 HT. destruct Hn. split; [congruence|done].
Qed.

Lemma sendOut_winds hist e : Inv None hist e -> winds e -> (forall id, dueAt id e) ->
  wp (sendOut fuel now) (fun _ e' => moves T now [] e e' /\ clearing [] e') e.
Proof.
  intros HI Hw Hd. unfold sendOut. apply wp_bind, wp_modify. match goal with |- EngineLogic.wp _ _ _ ?x => set (e1 := x) end.
  assert (G1 : settles e e1) by (apply settles_same; [done|apply touched_sorted|done]).
  assert (HI1 : Inv None hist e1).
  { apply (Inv_sched hist e (Sched.refill now (mScheduler e)) HI); [apply Sched.refill_ok, HI|].
    destruct (refill_rings now (mScheduler e)) as [E1 E2]. apply ring_same; [done|]. intros l. by rewrite E2. }
  assert (Hw1 : winds e1) by (by eapply settles_winds).
  assert (Hc1 : clearing (mTouched e1) e1).
  { intros Hs HT id p Hp He. destruct (winds_doomed e1 Hw1 Hs HT id p Hp He) as (_ & _ & t & Et & Ht).
    apply (settles_dueAt id e e1 (Hd id) G1 p Hp He). unfold due. rewrite Et. by apply Z.leb_le. }
  apply (wp_mono True _ (fun _ e' => moves T now [] e1 e' /\ clearing [] e')); [by intros _ e' [[H1 H2] H3]|].
  clearbody e1. clear e HI Hw Hd G1. apply wp_bind, wp_gets, wp_bind, wp_ask. intros w0. apply wp_bind.
  eapply wp_mono; [|apply wp_and; [exact (serving_winds (mTouched e1) e1 Hw1 Hc1)|
    apply (fine_loop True hist (servePeer now)); [exact HI1|]; intros; by apply wp_fine, (servePeer_ok fuel)]].
  cbn beta. intros [] e2 [[[Hw2 Es2] Hc2] [HI2 _]].
  eapply (wp_mono True _ (fun _ => settles e2)).
  { intros [] e3 G3. split; [split; [by eapply settles_winds|by rewrite (st_shutdown _ _ G3)]|by eapply settles_clearing]. }
  apply wp_bind, wp_gets, wp_bind, wp_must_or; [done|]. intros [] _.
  apply wp_bind, wp_gets. apply wp_then_settles; [apply wp_when; intros _; [apply (sendData_calms fuel), HI2|done]|]. intros [] e3 _. apply calms_at; calm.
Qed.

(** ** A round *)
Lemma beginRound_clears hist e : Inv None hist e -> winds e ->
  wp (beginRound fuel now) (fun _ e' => winds e' /\ (mShutdown e = true \/ asked e -> mShutdown e' = true) /\ clearing [] e') e.
Proof.
  intros HI Hw.
  unfold beginRound. apply wp_bind, wp_modify. set (e1 := if mTickTimedOut e then _ else e).
  assert (H1 : Inv None hist e1 /\ winds e1 /\ mShutdown e1 = mShutdown e /\ (asked e -> asked e1))
    by (unfold e1; destruct (mTickTimedOut e); [split_and!; [done|destruct Hw; by split|done|done]|done]). clearbody e1.
  destruct H1 as (HI1 & Hw1 & Es1 & Ha1). apply wp_bind, wp_modify. set (e2 := e1 <| mStepStartedAt := now |>).
  assert (HI2 : Inv None hist e2) by done. assert (Hw2 : winds e2) by (destruct Hw1; by split).
  apply (wp_mono True _ (fun _ e' => winds e' /\ (mShutdown e2 = true \/ asked e2 -> mShutdown e' = true) /\ clearing [] e')).
  { intros b e' (H & Hs & Hc). split_and!; [done| |done]. intros [H'|H']; apply Hs; [left; by rewrite <- Es1 in H'|right; by apply Ha1]. }
  clearbody e2. clear e HI Hw e1 HI1 Hw1 Es1 Ha1. unfold step.
  apply wp_bind. eapply wp_mono; [|apply wp_and; [by apply (takeIn_winds e2)|by apply (takeIn_ok fuel True hist now e2)]]. cbn beta.
  intros [] e3 [([Hw3 Ho3] & Ha3 & Hd3) [HI3 _]].
  apply wp_bind. eapply wp_mono; [|by apply (sendOut_winds hist)]. cbn beta. intros [] e4 [[Hw4 Es4] Hc4].
  eapply (wp_mono True _ (fun _ => settles e4)); [|apply calms_at; calm]. intros b e5 G5.
  split_and!; [by eapply settles_winds| |by eapply settles_clearing]. rewrite (st_shutdown _ _ G5), Es4. intros [|]; auto.
Qed.
Lemma beginRound_winds hist e : Inv None hist e -> winds e ->
  wp (beginRound fuel now) (fun _ e' => winds e' /\ (mShutdown e = true \/ asked e -> mShutdown e' = true) /\
    (mShutdown e' = true -> T <= now -> mPeers e' = ∅)) e.
Proof.
  intros HI Hw. eapply wp_mono; [|apply wp_and; [by apply (beginRound_ok fuel True hist now e HI); left|by apply (beginRound_clears hist)]].
  cbn beta. intros b e' [(_ & _ & _ & Hn) (Hw' & Hs & Hc)]. split_and!; [done..|]. intros Hs' HT. apply map_empty. intros id.
  destruct (mPeers e' !! id) as [p|] eqn:Hp; [|done]. pose proof (Hc Hs' HT id p Hp (Hn id p Hp)) as H. by apply elem_of_nil in H.
Qed.
End Ends.

(** ** Runs with a clock *)

(** Where the loop is: what the clock last said, what the application was handed, the engine. *)
Record Moment := mkMoment { clock : TimePoint; heard : list EngineEvent; current : NetworkEngine }.

Section Runs.
Context {W : Type} `{!World W} (fuel : nat) `{!WorldOk W fuel}.

(** The clock of the rounds never goes back. *)
Inductive moment_step : Moment -> Moment -> Prop :=
| ms_call t h e c : callOk c -> moment_step (mkMoment t h e) (mkMoment t h (performCall e c))
| ms_begin t h e now w b e' w' : t <= now -> finished e = false -> beginRound fuel now e w = Some (b, e', w') ->
    moment_step (mkMoment t h e) (mkMoment now (h ++ events b) e')
| ms_wait t h e now w e' w' : t <= now -> endRound now e w = Some ((), e', w') -> moment_step (mkMoment t h e) (mkMoment now h e').

Definition started (m : Moment) : Prop :=
  exists t lib generated config, is_uint 32 (cfgMaxSendRate config) /\ rtc moment_step (mkMoment t [] (newEngine lib generated config)) m.

Lemma moment_run m m' : moment_step m m' -> engine_run fuel (heard m) (current m) -> engine_run fuel (heard m') (current m').
Proof. intros [] Hr; cbn in *; [by apply er_call|by eapply er_begin|by eapply er_wait]. Qed.
Lemma moments_run m m' : rtc moment_step m m' -> engine_run fuel (heard m) (current m) -> engine_run fuel (heard m') (current m').
Proof. induction 1; eauto using moment_run. Qed.
(** Between two rounds: how long the invariant lets sessions linger. *)
Lemma winds_later T t t' e : winds T t [] e -> mShutdown e = true -> winds T t' [] e.
Proof. intros [H1 H2 _] Hs. split; [done..|by right]. Qed.
Lemma winds_clock t t' e : winds (t + CloseLinger) t [] e -> t <= t' -> winds (t' + CloseLinger) t' [] e.
Proof. intros [H1 H2 H3] Ht. split; [|done|left; lia]. intros id p Hp He Hc. eapply leaving_mono; [|by apply (H1 id)]. lia. Qed.

Lemma moment_winds m m' : moment_step m m' -> engine_run fuel (heard m) (current m) ->
  winds (clock m + CloseLinger) (clock m) [] (current m) -> winds (clock m' + CloseLinger) (clock m') [] (current m').
Proof.
  intros [t h e c Hc|t h e now w b e' w' Ht Hf Hb|t h e now w e' w' Ht Hw] Hr Hwi; destruct (run_Inv _ _ _ Hr) as (HI & _); cbn in *.
  - eapply settles_winds; [exact Hwi|]. by apply meddled_settles, call_meddled.
  - pose proof (beginRound_winds fuel (now + CloseLinger) now h e HI (winds_clock _ _ _ Hwi Ht) w) as H. rewrite Hb in H. apply H.
  - eapply settles_winds; [by eapply winds_clock|]. pose proof (endRound_calms fuel now e w) as H. by rewrite Hw in H.
Qed.
Lemma started_winds m : started m -> engine_run fuel (heard m) (current m) /\ winds (clock m + CloseLinger) (clock m) [] (current m).
Proof.
  intros (t & lib & generated & config & Hr & Hs). set (m0 := mkMoment t [] (newEngine lib generated config)) in *.
  assert (H0 : engine_run fuel (heard m0) (current m0) /\ winds (clock m0 + CloseLinger) (clock m0) [] (current m0)).
  { split; [by apply er_start|]. split; [| |left; lia]; intros *; cbn; by rewrite ?lookup_empty. }
  clearbody m0. induction Hs as [|m0 m1 m2 Hs _ IH]; [done|]. destruct H0 as [H1 H2]. apply IH. split; [by eapply moment_run|by eapply moment_winds].
Qed.

(** After the shutdown was taken. *)
Lemma shut_step T m m' : moment_step m m' -> engine_run fuel (heard m) (current m) -> mShutdown (current m) = true ->
  winds T (clock m) [] (current m) -> mShutdown (current m') = true /\ winds T (clock m') [] (current m').
Proof.
  intros [t h e c Hc|t h e now w b e' w' Ht Hf Hb|t h e now w e' w' Ht Hw] Hr Hs Hwi; destruct (run_Inv _ _ _ Hr) as (HI & _); cbn in *.
  - pose proof (meddled_settles _ _ (call_meddled e c Hc)) as G. rewrite (st_shutdown _ _ G). split; [done|by eapply settles_winds].
  - pose proof (beginRound_winds fuel T now h e HI (winds_later _ _ _ _ Hwi Hs) w) as H. rewrite Hb in H. destruct H as (H1 & H2 & _). auto.
  - pose proof (endRound_calms fuel now e w) as G. rewrite Hw in G. rewrite (st_shutdown _ _ G). split; [done|].
    eapply settles_winds; [by eapply winds_later|done].
Qed.
Lemma shut_run T m m' : rtc moment_step m m' -> engine_run fuel (heard m) (current m) -> mShutdown (current m) = true ->
  winds T (clock m) [] (current m) -> mShutdown (current m') = true /\ winds T (clock m') [] (current m').
Proof.
  induction 1 as [|m m1 m2 Hs _ IH]; [done|]. intros Hr Hsh Hw. destruct (shut_step T m m1 Hs Hr Hsh Hw) as [H1 H2].
  apply IH; [by eapply moment_run|done..].
Qed.

(** The loop wakes in time for the sessions that linger. *)
Lemma beginRound_wakes hist now e : Inv None hist e -> wp (W := W) True (beginRound fuel now) (fun _ e' => wakes now e') e.
Proof.
  intros HI. unfold beginRound. apply wp_bind, wp_modify. set (e1 := if mTickTimedOut e then _ else e).
  assert (HI1 : Inv None hist e1) by (unfold e1; by destruct (mTickTimedOut e)). clearbody e1. apply wp_bind, wp_modify.
  eapply wp_mono; [|apply (step_ok fuel True hist); [exact HI1|by left]]. by intros b e2 [_ H].
Qed.
Lemma lingering_wait T now later e : winds T now [] e -> mShutdown e = true -> noneEnded e -> wakes now e -> finished e = false ->
  waitTime later e <= Z.max (ms 1) (T - later + 999).
Proof.
  intros Hw Hs Hn Hk Hf. unfold finished in Hf. rewrite Hs in Hf. apply bool_decide_eq_false, map_choose in Hf as (id & p & Hp).
  destruct (wd_told _ _ _ _ Hw Hs id p Hp (Hn id p Hp)) as [Hc|H]; [|by apply elem_of_nil in H].
  destruct (wd_close _ _ _ _ Hw id p Hp (Hn id p Hp) Hc) as (_ & t & Et & Ht).
  pose proof (waitTime_by t later e (wk_peers _ _ Hk id p t Hp (or_intror Et))). lia.
Qed.

(** C10: a shutdown comes to its end.  Suppose the command to shut down waits in the mailbox when
    the loop begins a round at [t0].  Then this round takes it and nothing takes it back.
    Whatever the peers send, the sockets answer and other threads do: the wait that follows
    any later round is over, rounded up to microseconds and at least a millisecond, at
    [t0 + CloseLinger]; and, with a send rate set and room in the vector of the touched
    peers, the first round at that time or later returns and leaves no session, so that
    the loop is over. *)
Theorem shutdown_in_time m t0 w0 b e1 w1 m' :
  started m -> asked (current m) -> finished (current m) = false -> clock m <= t0 ->
  beginRound fuel t0 (current m) w0 = Some (b, e1, w1) -> rtc moment_step (mkMoment t0 (heard m ++ events b) e1) m' ->
  mShutdown (current m') = true /\
  (forall now w b' e' w' later, beginRound fuel now (current m') w = Some (b', e', w') -> finished e' = false ->
    waitTime later e' <= Z.max (ms 1) (t0 + CloseLinger - later + 999)) /\
  (forall now w, t0 + CloseLinger <= now -> roomy W -> cfgMaxSendRate (mConfig (current m')) <> 0 ->
    MaxPeers + Sched.burstOf (cfgMaxSendRate (mConfig (current m'))) <= Z.of_nat fuel ->
    exists b' e' w', beginRound fuel now (current m') w = Some (b', e', w') /\ finished e' = true).
Proof.
  intros Hst Ha Hf Ht Hb Hlater. destruct (started_winds m Hst) as [Hr Hw]. destruct (run_Inv _ _ _ Hr) as (HI & _).
  pose proof (beginRound_winds fuel (t0 + CloseLinger) t0 _ _ HI (winds_clock _ _ _ Hw Ht) w0) as H0. rewrite Hb in H0.
  destruct H0 as (Hw1 & Hs1 & _). specialize (Hs1 (or_intror Ha)). set (m1 := mkMoment t0 (heard m ++ events b) e1) in *.
  assert (Hr1 : engine_run fuel (heard m1) (current m1)) by (by eapply er_begin).
  destruct (shut_run (t0 + CloseLinger) m1 m' Hlater Hr1 Hs1 Hw1) as [Hs' Hw'].
  destruct (run_Inv _ _ _ (moments_run _ _ Hlater Hr1)) as (HI' & _). split_and!; [done|..].
  - intros now w b' e' w' later Hb' Hf'. pose proof (beginRound_winds fuel _ now _ _ HI' (winds_later _ _ now _ Hw' Hs') w) as H.
    pose proof (beginRound_wakes _ now _ HI' w) as Hk. pose proof (beginRound_ok fuel True _ now _ HI' (or_introl I) w) as Hh.
    rewrite Hb' in H, Hk, Hh. destruct H as (Hw2 & Hs2 & _), Hh as (_ & _ & _ & Hn). eapply lingering_wait; [exact Hw2|auto|done..].
  - intros now w Hn Hroom Hrate Hfuel. pose proof (beginRound_winds fuel _ now _ _ HI' (winds_later _ _ _ _ Hw' Hs') w) as H.
    pose proof (beginRound_ok fuel False _ now _ HI' (or_intror (conj (conj Hrate Hfuel) Hroom)) w) as H'.
    destruct (beginRound fuel now (current m') w) as [[[b' e'] w']|]; [|done]. exists b', e', w'. split; [done|].
    destruct H as (_ & H2 & H3). unfold finished. rewrite (H2 (or_introl Hs')), (H3 (H2 (or_introl Hs')) Hn). by apply bool_decide_true.
Qed.
End Runs.
