(* ===== verification/EngineDeadlines.v ===== *)
(** * The deadlines the loop wakes for

    The loop does not ask the links for their deadlines when it decides how long to wait: it
    looks at the copy each peer keeps.  A copy goes stale with the next call of the link, so
    whoever calls it touches the peer, and the copies of the touched peers are taken anew
    before the step is over.  Here: between two rounds no copy is stale. *)
From Stdlib Require Import QArith.
From S2P Require Import Prelude Constants IPv4Address PacketFlags PacketHeader OrderedMap SendScheduler SchedulerRules SequenceBuffer ReliableLink.
From S2P Require Import ControlMessage Discovery Mailbox MailboxRuns Engine EngineSessions EngineStep EngineLogic EngineSends.
From S2P Require Import EngineInvariant EngineRefines EngineReceives EngineSettles EngineGrowth EngineRound EngineRuns EngineShutdown EngineEnds.
From stdpp Require Import sorting.
Import Engine Sessions Loop.
#[local] Open Scope Z_scope.

(** ** Links *)

(** What of a stream counts for the deadline. *)
Definition probeOf (o : option Link.Stream) : option TimePoint :=
  match o with Some s => if negb (Link.peerPaused s) then None else Link.probeAt s | None => None end.
Definition flightOf (o : option Link.Stream) (sq : Z) : option Link.InFlight := s ← o; SeqBuf.find (Link.inFlight s) sq.
Definition alike (o o' : option Link.Stream) : Prop := probeOf o' = probeOf o /\ forall sq, flightOf o' sq = flightOf o sq.

Lemma deadline_alike k streams : (forall l, alike (Link.mStreams k l) (streams l)) ->
  Link.nextDeadline (k <| Link.mStreams := streams |>) = Link.nextDeadline k.
Proof.
  intros H. unfold Link.nextDeadline. cbn -[Link.considerAll SeqBuf.find]. f_equal.
  assert (E : forall l sq, (s ← streams l; SeqBuf.find (Link.inFlight s) sq) = (s ← Link.mStreams k l; SeqBuf.find (Link.inFlight s) sq)) by (intros l; apply (H l)).
  assert (P : forall l, probeOf (streams l) = probeOf (Link.mStreams k l)) by (intros l; apply (H l)).
  f_equal; [|repeat f_equal; apply P]. destruct (Link.mSent k) as [|o r]; [done|]. by rewrite E.
Qed.
Lemma deadline_setStream k l s : alike (Link.mStreams k l) (Some s) -> Link.nextDeadline (Link.setStream l s k) = Link.nextDeadline k.
Proof. intros H. apply deadline_alike. intros j. by case_decide; subst. Qed.
Lemma find_new {T} `{!Inhabited T} n sq : SeqBuf.find (SeqBuf.newBuffer (T := T) n) sq = None.
Proof.
  unfold SeqBuf.find, SeqBuf.slotAt. cbn. destruct (replicate _ _ !! _) as [x|] eqn:E; [|done]. by apply lookup_replicate in E as [-> _].
Qed.
Lemma deadline_peekNext {S} `{!Link.MessageSource S} l k (src : S) : Link.nextDeadline (Link.peekNext l k src).1.2 = Link.nextDeadline k.
Proof.
  unfold Link.peekNext. destruct (s ← Link.mStreams k l; c ← Link.cursor s; Some (s, c)) as [[s c]|]; [done|].
  destruct (Link.next src l) as [[m|] src']; [|done]. unfold Link.streamFor. destruct (Link.mStreams k l) as [s|] eqn:Es; cbn [fst snd Link.offer].
  - apply (deadline_setStream k l (s <| Link.cursor := Some (Link.cursorFor m) |>)). by rewrite Es.
  - set (k1 := Link.setStream l (Link.newStream (Link.windowOf l)) k).
    assert (E : Link.nextDeadline k1 = Link.nextDeadline k).
    { apply deadline_setStream. rewrite Es. split; [done|]. intros sq. apply find_new. }
    rewrite <- E. apply (deadline_setStream k1 l ((Link.newStream (Link.windowOf l)) <| Link.cursor := Some (Link.cursorFor m) |>)).
    unfold k1. cbn. by rewrite decide_True.
Qed.
Lemma deadline_peek {S} `{!Link.MessageSource S} l k (src : S) : Link.nextDeadline (Link.peek l k src).1.2 = Link.nextDeadline k.
Proof.
  unfold Link.peek. destruct (Link.mFailed k); [done|]. destruct (decide (l = Media)).
  { unfold Link.peekMedia. destruct (Link.mMediaCursor k); [done|]. by destruct (Link.next src Media) as [[m|] src']. }
  destruct (Link.mStreams k l) as [s|] eqn:Es; [|destruct (negb _); [done|apply deadline_peekNext]].
  unfold Link.nextLost. destruct (Link.dropStale _ _) as [r lost'].
  assert (E : Link.nextDeadline (Link.setStream l (s <| Link.lost := lost' |>) k) = Link.nextDeadline k) by (apply deadline_setStream; by rewrite Es).
  destruct (_ && _); [done|]. destruct (Link.peerPaused _); [done|]. destruct (negb _); [done|].
  destruct r as [[sq f]|]; [done|]. by rewrite deadline_peekNext.
Qed.

(** ** The copies *)
Definition current (p : Peer) : Prop := ended p = true \/ deadline p = Link.nextDeadline (link p).
(** Nobody's copy is stale, except of those in [stale]. *)
Definition fresh_but (stale : list PeerId) (e : NetworkEngine) : Prop :=
  forall id p, mPeers e !! id = Some p -> id ∈ stale \/ current p.

Lemma fresh_weaken stale stale' e e' : fresh_but stale e -> stale ⊆ stale' -> mPeers e' ⊆ mPeers e -> fresh_but stale' e'.
Proof. intros H Hs Hp id p Hid. destruct (H id p) as [|]; [by eapply lookup_weaken|left; by apply Hs|by right]. Qed.
Lemma fresh_peer stale id p' e e' : fresh_but stale e -> mPeers e' = <[id := p']> (mPeers e) -> id ∈ stale \/ current p' -> fresh_but stale e'.
Proof. intros H E Hp x q. rewrite E. intros [[<- <-]|[_ Hx]]%lookup_insert_Some; [done|by apply H]. Qed.

(** First whoever calls a link touches its peer, then the touched peers are settled one
    after the other. *)
Inductive Phase := Serving | Settling (rest : list PeerId).
Definition owed (ph : Phase) (e : NetworkEngine) : list PeerId := match ph with Serving => mTouched e | Settling rest => rest end.
Lemma owed_mono ph e e' : mTouched e ⊆ mTouched e' -> owed ph e ⊆ owed ph e'.
Proof. by destruct ph. Qed.

Section Rules.
Context {W : Type} `{!World W} (fuel : nat) `{!WorldOk W fuel} (ph : Phase) (X : list PeerId).
Abbreviation wp := (wp (W := W) True).
Abbreviation Comp := (Engine.M W).

(** The peers of [X] are touched. *)
Definition tended (e : NetworkEngine) : Prop := fresh_but (owed ph e) e /\ X ⊆ mTouched e.
Definition timely {A} (m : Comp A) : Prop := forall e, tended e -> wp m (fun _ => tended) e.

Lemma tended_fewer e e' : tended e -> mTouched e ⊆ mTouched e' -> mPeers e' ⊆ mPeers e -> tended e'.
Proof. intros [H1 H2] Ht Hp. split; [|by etrans]. eapply fresh_weaken; [done|by apply owed_mono|done]. Qed.
Lemma tended_peer id p' e e' : tended e -> mTouched e' = mTouched e -> mPeers e' = <[id := p']> (mPeers e) -> id ∈ owed ph e \/ current p' -> tended e'.
Proof.
  intros [H1 H2] Ht Hp Hc. split; [|by rewrite Ht]. assert (E : owed ph e' = owed ph e) by (destruct ph; [done|reflexivity]). rewrite E.
  by eapply fresh_peer.
Qed.
Lemma timely_at {A} (m : Comp A) e : timely m -> tended e -> wp m (fun _ => tended) e.
Proof. intros H. apply H. Qed.
Lemma timely_bind {A B} (m : Comp A) (f : A -> Comp B) : timely m -> (forall a, timely (f a)) -> timely (mbind f m).
Proof. intros H1 H2 e He. apply wp_bind. eapply wp_mono; [|by apply H1]. cbn beta. intros a e1. apply H2. Qed.
Lemma timely_ret {A} (a : A) : timely (mret a).
Proof. intros e He. by apply wp_ret. Qed.
Lemma timely_gets {A} (f : NetworkEngine -> A) : timely (gets f).
Proof. intros e He. by apply wp_gets. Qed.
Lemma timely_ask {A} (f : W -> A * W) : timely (ask f).
Proof. intros e He. by apply wp_ask. Qed.
Lemma timely_must {A} (o : option A) : timely (must o).
Proof. intros e He w. unfold must. by destruct o. Qed.
Lemma timely_when b (m : Comp ()) : timely m -> timely (when b m).
Proof. intros H e He. apply wp_when; intros _; [by apply H|done]. Qed.
Lemma timely_each {A} (f : A -> Comp ()) l : (forall x, x ∈ l -> timely (f x)) -> timely (forEach f l).
Proof. intros H e He. apply (wp_forEach True f tended); [done|]. intros x e1 Hx. by apply H. Qed.
Lemma timely_modify f : (forall e, mTouched e ⊆ mTouched (f e) /\ mPeers (f e) ⊆ mPeers e) -> timely (modify f).
Proof. intros H e He. apply wp_modify. destruct (H e). by eapply tended_fewer. Qed.
Lemma timely_deref id : timely (deref id).
Proof. intros e He. by apply wp_deref'. Qed.
Lemma timely_find id : timely (find id).
Proof. apply timely_gets. Qed.
Lemma timely_setPeer id f : (forall p, current p -> current (f p)) -> timely (setPeer id f).
Proof.
  intros Hf e He. apply wp_setPeer'. intros p Hp. eapply (tended_peer id (f p)); [done..|]. destruct (proj1 He id p Hp); [by left|right; by apply Hf].
Qed.
Lemma timely_interfere : timely interfere.
Proof. intros e He. apply (wp_interfere fuel). intros e' (wk & b & m & i & -> & _). by eapply tended_fewer. Qed.
Lemma timely_mailbox {A} (f : Box.Mailbox -> A * Box.Mailbox) : timely (mailbox f).
Proof. intros e He. apply (wp_mailbox fuel). intros e' (wk & b & m & i & -> & _). by eapply tended_fewer. Qed.
Lemma timely_mailbox_ f : timely (mailbox_ f).
Proof. apply timely_mailbox. Qed.
Lemma timely_emit ev : timely (emit ev).
Proof. apply timely_modify. by intros e. Qed.
Lemma timely_touch id : timely (touch id).
Proof. apply timely_modify. intros e. split; [|done]. cbn. intros x Hx. apply elem_of_app. by left. Qed.

(** A call of a link that does not change its deadline, or of one whose peer is touched. *)
Lemma wp_onLink_peer {A} id (f : Link.ReliableLink -> A * Link.ReliableLink) (Q : A -> NetworkEngine -> Prop) e :
  (forall p a k b, mPeers e !! id = Some p -> f ((link p) <| Link.mBudget := Some (mAssemblyBudget e) |>) = (a, k) ->
    Q a (e <| mPeers ::= <[id := p <| link := k |>]> |> <| mAssemblyBudget := b |>)) -> wp (onLink id f) Q e.
Proof.
  intros H. unfold onLink. apply wp_bind, wp_deref'. intros p Hp. apply wp_bind, wp_gets. destruct (f _) as [a k] eqn:E. by apply wp_bind, wp_modify, wp_ret, H.
Qed.
Lemma timely_onLink {A} id (f : Link.ReliableLink -> A * Link.ReliableLink) :
  (forall k, Link.nextDeadline (f k).2 = Link.nextDeadline k) -> timely (onLink id f).
Proof.
  intros Hf e He. apply wp_onLink_peer. intros p a k b Hp Hk. eapply (tended_peer id (p <| link := k |>)); [done..|].
  destruct (proj1 He id p Hp) as [|[Hc|Hc]]; [by left|right; by left|]. right. right. change (deadline p = Link.nextDeadline k). specialize (Hf ((link p) <| Link.mBudget := Some (mAssemblyBudget e) |>)).
  rewrite Hk in Hf. cbn [snd] in Hf. rewrite Hf, Hc. reflexivity.
Qed.
Lemma timely_onTouched {A} id (f : Link.ReliableLink -> A * Link.ReliableLink) : ph = Serving -> id ∈ X -> timely (onLink id f).
Proof.
  intros Hph Hx e He. apply wp_onLink_peer. intros p a k b Hp _. eapply (tended_peer id (p <| link := k |>)); [done..|]. left. rewrite Hph. by apply (proj2 He).
Qed.
End Rules.

Create HintDb timely.
#[export] Hint Resolve timely_ret timely_gets timely_ask timely_must timely_find timely_deref timely_interfere timely_mailbox timely_mailbox_
  timely_emit timely_touch : timely.

(** Walks through a computation, and proves of what it is made of that no copy goes stale. *)
Ltac tend := repeat (intros; lazymatch goal with
  | |- timely _ _ (mbind _ _) => apply timely_bind
  | |- timely _ _ (when _ _) => apply timely_when
  | |- timely _ _ (forEach _ _) => apply timely_each
  | |- timely _ _ (setPeer _ _) => apply timely_setPeer; try done
  | |- timely _ _ (modify _) => by apply timely_modify
  | |- timely _ _ (match ?x with _ => _ end) => destruct x
  | |- timely _ _ (match ?x with _ => _ end _) => destruct x; cbn beta
  | |- timely _ _ _ => solve [eauto with timely]
  end).

Section Functions.
Context {W : Type} `{!World W} (fuel : nat) `{!WorldOk W fuel}.
Abbreviation timely := (timely (W := W)).
Abbreviation wp := (wp (W := W) True).

(** ** Sessions *)
Lemma report_timely ph X id r : timely ph X (report id r).
Proof. unfold report. tend. Qed.
Lemma end_timely ph X id : timely ph X (end_ id).
Proof. unfold end_. tend. by left. Qed.
Lemma queueControl_timely ph X id t b : timely ph X (queueControl id t b).
Proof. unfold queueControl. tend. Qed.
Lemma setConnected_timely ph X id : timely ph X (setConnected id).
Proof. unfold setConnected. tend. Qed.
#[local] Hint Resolve report_timely end_timely queueControl_timely setConnected_timely : timely.
Lemma sendAccept_timely ph X id : timely ph X (sendAccept id).
Proof. unfold sendAccept. tend. Qed.
Lemma sendDecline_timely ph X id now : timely ph X (sendDecline id now).
Proof. unfold sendDecline. tend. Qed.
Lemma sendClose_timely ph X id now : timely ph X (sendClose id now).
Proof. unfold sendClose. tend. Qed.
#[local] Hint Resolve sendAccept_timely sendDecline_timely sendClose_timely : timely.

(** A peer that goes takes its copy along. *)
Lemma erase_timely ph X id : timely ph X (erase id).
Proof.
  unfold erase. apply timely_bind; [tend|]. intros [p|]; [|tend]. apply timely_bind; [tend|]. intros _. apply timely_bind; [tend|]. intros _.
  intros e He. apply wp_bind. apply wp_onLink_peer. intros q [] k b Hq _. apply wp_modify. eapply (tended_fewer ph X e); [done..|]. cbn.
  rewrite delete_insert_eq. apply delete_subseteq.
Qed.
Lemma destroyLinks_touched l e : wp (forEach destroyLink l) (fun _ e' => mTouched e ⊆ mTouched e') e.
Proof.
  apply (wp_forEach True destroyLink (fun e' => mTouched e ⊆ mTouched e')); [done|]. intros x e1 _ H1. apply wp_onLink_peer. by intros.
Qed.
Lemma endAllSessions_timely ph X r : timely ph X (endAllSessions r).
Proof.
  unfold endAllSessions. apply timely_bind; [tend|]. intros ids. apply timely_bind; [tend|]. intros _ e He. apply wp_bind.
  eapply wp_mono; [|apply destroyLinks_touched]. cbn beta. intros [] e1 H1. apply wp_modify. eapply (tended_fewer ph X e); [done..|]. apply map_empty_subseteq.
Qed.
#[local] Hint Resolve erase_timely endAllSessions_timely : timely.

(** A new peer is touched. *)
Lemma addPeer_timely X info a now : timely Serving X (addPeer fuel info a now).
Proof.
  unfold addPeer. apply timely_bind; [tend|]. intros s. apply timely_bind; [tend|]. intros d. apply timely_bind; [tend|]. intros streamID.
  cbn zeta. set (id := infoId info). intros e [H1 H2]. apply wp_bind, wp_modify. match goal with |- EngineLogic.wp _ _ _ ?x => set (e1 := x) end.
  assert (F1 : fresh_but (id :: mTouched e1) e1 /\ X ⊆ mTouched e1).
  { unfold e1. destruct (mPeers e !! id) as [p|]; [split; [eapply fresh_weaken; [done|set_solver|done]|done]|]. split; [|done].
    eapply (fresh_peer _ id); [eapply fresh_weaken; [exact H1|set_solver|done]|reflexivity|]. left. by left. }
  clearbody e1. clear e H1 H2. destruct F1 as [F1 X1]. apply wp_bind, wp_gets, wp_bind. apply wp_onLink_peer. intros p1 [] k1 b1 Hp1 _.
  apply wp_bind. apply wp_onLink_peer. intros p2 [] k2 b2 Hp2 _. apply wp_bind, wp_modify, wp_bind, wp_modify, wp_ret. split; cbn; [|set_solver].
  assert (F2 : fresh_but (mTouched e1 ++ [id]) e1) by (eapply fresh_weaken; [exact F1|set_solver|done]).
  eapply (fresh_peer _ id _ e1); [exact F2|cbn; by rewrite insert_insert_eq|]. left. set_solver.
Qed.
#[local] Hint Resolve addPeer_timely : timely.

(** ** Commands and the adapter *)
Lemma startSession_timely X id now : timely Serving X (startSession fuel id now).
Proof. unfold startSession. tend. Qed.
Lemma endSession_timely ph X id now : timely ph X (endSession id now).
Proof. unfold endSession. tend. Qed.
Lemma shutdownPeer_timely ph X now id : timely ph X (shutdownPeer now id).
Proof. unfold shutdownPeer. tend. Qed.
#[local] Hint Resolve startSession_timely endSession_timely shutdownPeer_timely : timely.
Lemma beginShutdown_timely ph X now : timely ph X (beginShutdown now).
Proof. unfold beginShutdown. tend. Qed.
#[local] Hint Resolve beginShutdown_timely : timely.
Lemma apply_timely X now c : timely Serving X (apply fuel now c).
Proof. unfold apply. tend. Qed.
Lemma bind_timely ph X i : timely ph X (bind i).
Proof. unfold bind. tend. Qed.
#[local] Hint Resolve bind_timely : timely.
Lemma updateInterface_timely ph X b : timely ph X (updateInterface b).
Proof. unfold updateInterface, closeSockets. tend. Qed.
#[local] Hint Resolve apply_timely updateInterface_timely : timely.

(** ** What the link of a peer received *)
Lemma onControl_timely ph X id m : timely ph X (onControl id m).
Proof. unfold onControl. tend. Qed.
Lemma mediaInbox_timely ph X id : timely ph X (mediaInbox id).
Proof. unfold mediaInbox. tend. Qed.
#[local] Hint Resolve onControl_timely mediaInbox_timely : timely.
Lemma onMessage_timely ph X id m : timely ph X (onMessage id m).
Proof. unfold onMessage. tend. Qed.
Lemma advanceState_timely ph X id now : timely ph X (advanceState id now).
Proof. unfold advanceState. tend. Qed.
#[local] Hint Resolve onMessage_timely advanceState_timely : timely.
Lemma takeDelivered_timely ph X id : timely ph X (onLink id Link.takeDelivered).
Proof. by apply timely_onLink. Qed.
#[local] Hint Resolve takeDelivered_timely : timely.
Lemma advance_timely ph X id now : timely ph X (advance id now).
Proof. unfold advance. tend. Qed.
#[local] Hint Resolve advance_timely : timely.

(** ** Sending *)
Lemma sendBeacon_timely ph X to_ r : timely ph X (sendBeacon to_ r).
Proof. unfold sendBeacon, countSent. tend. Qed.
Lemma transmit_timely ph X to_ d : timely ph X (transmit to_ d).
Proof. unfold transmit, countSent. tend. Qed.
#[local] Hint Resolve sendBeacon_timely transmit_timely : timely.
(** An acknowledgement is sent on behalf of a peer that is touched. *)
Lemma onTouched_timely {A} X id (f : Link.ReliableLink -> A * Link.ReliableLink) : id ∈ X -> timely Serving X (onLink id f).
Proof. by apply timely_onTouched. Qed.
Lemma onTouched_timely_ X id f : id ∈ X -> timely Serving X (onLink_ id f).
Proof. by apply timely_onTouched. Qed.
#[local] Hint Resolve onTouched_timely onTouched_timely_ : timely.
Lemma ackLoop_timely X n id : id ∈ X -> timely Serving X (ackLoop n id).
Proof. intros Hx. induction n as [|n IH]; cbn [ackLoop]; tend. Qed.
#[local] Hint Resolve ackLoop_timely : timely.
Lemma sendAcks_timely X id : id ∈ X -> timely Serving X (sendAcks id).
Proof. intros Hx. unfold sendAcks. tend. Qed.

(** Looking for something to send does not change the deadline. *)
Lemma peekLink_timely ph X id l : timely ph X (peekLink id l).
Proof.
  intros e He w. unfold peekLink. destruct (mPeers e !! id) as [p|] eqn:Hp; [|done]. set (src := mkSource id (control p) (transfersData p) e w).
  assert (H : mTouched e ⊆ mTouched (srcEngine (Link.peek l (link p) src).2) /\ mPeers (srcEngine (Link.peek l (link p) src).2) = mPeers e).
  { apply (peek_source (fun s => mTouched e ⊆ mTouched (srcEngine s) /\ mPeers (srcEngine s) = mPeers e)); [|done]. intros s Hs. unfold Link.next, peerSource_next.
    destruct (bool_decide _); [by destruct (srcControl s)|]. destruct (negb _); [done|].
    assert (Hm : wp (mailbox (Box.take (srcPeer s) l)) (fun _ e' => mTouched e ⊆ mTouched e' /\ mPeers e' = mPeers e) (srcEngine s)).
    { apply (wp_mailbox fuel). by intros e' (wk & b & m & i & -> & _). }
    specialize (Hm (srcWorld s)). by destruct (mailbox _ _ _) as [[[m e'] w']|]. }
  pose proof (deadline_peek l (link p) src) as Hd. destruct (Link.peek _ _ _) as [[d k] s]. cbn [fst snd] in *. destruct H as [Ht Hps].
  assert (He' : tended ph X (srcEngine s)) by (eapply tended_fewer; [exact He|done|by rewrite Hps]).
  eapply (tended_peer ph X id); [exact He'|done|reflexivity|]. rewrite <- Hps in Hp. destruct (proj1 He' id p Hp) as [|[Hc|Hc]]; [by left|right; by left|].
  right. right. change (deadline p = Link.nextDeadline k). by rewrite Hd.
Qed.
#[local] Hint Resolve sendAcks_timely peekLink_timely : timely.
Lemma schedule_timely ph X id : timely ph X (schedule id).
Proof. unfold schedule, scheduleLane. tend. Qed.
#[local] Hint Resolve schedule_timely : timely.
Lemma servePeer_timely X now id : id ∈ X -> timely Serving X (servePeer now id).
Proof. intros Hx. unfold servePeer. tend. Qed.

(** What is sent makes the copy anew. *)
Lemma sendNext_timely ph X now l id : timely ph X (sendNext now l id).
Proof.
  unfold sendNext. apply timely_bind; [tend|]. intros [p|]; [|tend]. apply timely_bind; [tend|]. intros [d|]; [|tend].
  apply timely_bind; [tend|]. intros p1. apply timely_bind; [tend|]. intros outcome. case_bool_decide; [tend|].
  intros e He. apply wp_bind. apply wp_onLink_peer. intros q [] k b Hq _. apply wp_bind, wp_setPeer'. intros q1 Hq1. apply wp_ret.
  cbn in Hq1. rewrite lookup_insert_eq in Hq1. injection Hq1 as <-.
  eapply (tended_peer ph X id _ e); [exact He|done|cbn; by rewrite insert_insert_eq|]. right. by right.
Qed.
Lemma sendData_timely ph X now e : tended ph X e -> Sched.scheduler_ok (mScheduler e) -> wp (sendData fuel now) (fun _ => tended ph X) e.
Proof.
  intros He Hs w. unfold sendData. match goal with |- context [Sched.run ?c _ _ _] => set (callback := c) end.
  set (J := fun (_ : Sched.SendScheduler) (st : option (NetworkEngine * W)) => match st with Some (e', _) => tended ph X e' | None => True end).
  destruct (Sched.run callback fuel (mScheduler e) (Some (e, w))) as [[s' st']|] eqn:Er; [|done].
  destruct (run_keeps callback J) with (5 := Er) as [_ HJ]; [done| |done|exact He|].
  - intros s [[e1 w1]|] l x HJ Hx; cbn [callback]; [|done]. pose proof (sendNext_timely ph X now l x e1 HJ w1) as H.
    destruct (sendNext now l x e1 w1) as [[[r e2] w2]|]; [|done]. by destruct r.
  - destruct st' as [[e' w']|]; [|done]. by eapply (tended_fewer ph X e').
Qed.

(** ** What the sockets received *)

(** A link is called and its peer touched. *)
Lemma callAndTouch_timely X id f : timely Serving X (onLink_ id f;; touch id).
Proof.
  intros e [H1 H2]. apply wp_bind. apply wp_onLink_peer. intros p [] k b Hp _. apply wp_modify. split; cbn; [|set_solver].
  eapply (fresh_peer _ id _ e); [eapply fresh_weaken; [exact H1|set_solver|done]|reflexivity|]. left. set_solver.
Qed.
#[local] Hint Resolve callAndTouch_timely : timely.
Lemma onBeacon_timely ph X from d now : timely ph X (onBeacon from d now).
Proof. unfold onBeacon. tend. Qed.
Lemma replaceSession_timely ph X id : timely ph X (replaceSession id).
Proof. unfold replaceSession. tend. Qed.
#[local] Hint Resolve onBeacon_timely replaceSession_timely : timely.
Lemma onHello_timely X from packet now : timely Serving X (onHello fuel from packet now).
Proof. unfold onHello. tend. Qed.
#[local] Hint Resolve onHello_timely : timely.
Lemma receiver_timely X from packet now : timely Serving X (receiver fuel from packet now).
Proof. unfold receiver. tend. Qed.
#[local] Hint Resolve receiver_timely : timely.
Lemma handleDatagram_timely X now from d : timely Serving X (handleDatagram fuel now from d).
Proof.
  unfold handleDatagram. apply timely_bind; [tend|]. intros []; [tend|]. apply timely_bind; [tend|]. intros [packet|]; [|tend].
  apply timely_bind; [tend|]. intros [id|]; [|tend]. apply timely_bind; [tend|]. intros p. destruct (_ || _); [tend|]. cbn zeta.
  pose proof (callAndTouch_timely X id (Link.onPacket packet now)). destruct (_ && _); [|done]. destruct (_ || _); [tend|]. by apply timely_bind; [tend|].
Qed.
#[local] Hint Resolve handleDatagram_timely : timely.
Lemma receiveLoop_timely X port handle n : (forall from d, timely Serving X (handle from d)) -> timely Serving X (receiveLoop port handle n).
Proof. intros Hh. induction n as [|n IH]; cbn [receiveLoop]; tend. Qed.
Lemma receivePending_timely X now : timely Serving X (receivePending fuel now).
Proof. unfold receivePending. tend; apply receiveLoop_timely; tend. Qed.

(** ** A step *)
Lemma serviceTimer_timely X now id : timely Serving X (serviceTimer now id).
Proof.
  unfold serviceTimer. apply timely_bind; [tend|]. intros p. apply timely_bind; [|tend]. apply timely_when, callAndTouch_timely.
Qed.
Lemma updatePause_timely X : timely Serving X updatePause.
Proof.
  unfold updatePause. do 3 (apply timely_bind; [tend|]; intros ?). match goal with |- context [if ?b then mret () else _] => destruct b end; [tend|]. do 4 (apply timely_bind; [tend|]; intros ?).
  apply timely_each. intros id _. apply callAndTouch_timely.
Qed.
Lemma tick_timely ph X now : timely ph X (tick now).
Proof. unfold tick. tend. Qed.
#[local] Hint Resolve receivePending_timely serviceTimer_timely updatePause_timely tick_timely : timely.

(** Whose acknowledgements were held back is touched from the start. *)
Lemma takeIn_timely now e : fresh_but [] e -> wp (takeIn fuel now) (fun _ => tended Serving []) e.
Proof.
  intros H. unfold takeIn. apply wp_bind, wp_modify. apply timely_at.
  - unfold readyPeer, serviceTimers. tend.
  - split; [|set_solver]. eapply fresh_weaken; [exact H|set_solver|done].
Qed.

(** Settling a peer pays what is owed to it. *)
Lemma settlePeer_timely x rest : forall e, tended (Settling (x :: rest)) [] e -> wp (settlePeer x) (fun _ => tended (Settling rest) []) e.
Proof.
  intros e [H _]. unfold settlePeer. apply wp_bind, wp_find.
  assert (Hpay : forall e', mPeers e' ⊆ mPeers e -> (forall p, mPeers e' !! x = Some p -> current p) -> tended (Settling rest) [] e').
  { intros e' Hp Hx. split; [|set_solver]. intros id p Hid. destruct (decide (id = x)) as [->|Hne]; [right; by apply Hx|].
    destruct (H id p) as [[|]%elem_of_cons|]; [by eapply lookup_weaken|done|by left|by right]. }
  destruct (mPeers e !! x) as [p|] eqn:Hp; [|apply wp_ret, Hpay; [done|by rewrite Hp]].
  destruct (ended p) eqn:He; [apply wp_ret, Hpay; [done|]; rewrite Hp; intros q [= <-]; by left|].
  apply wp_bind, wp_setPeer'. intros q Hq. apply timely_at; [|].
  - unfold statsOf, noteLoss. tend. intros Hc. by repeat case_match.
  - split; [|set_solver]. intros id r. cbn. intros [[<- <-]|[Hne Hid]]%lookup_insert_Some; [right; by right|].
    destruct (H id r Hid) as [[->|]%elem_of_cons|]; [done|by left|by right].
Qed.
Lemma settling_timely l e : tended (Settling l) [] e -> wp (forEach settlePeer l) (fun _ => tended (Settling []) []) e.
Proof.
  intros H. apply (wp_loop True settlePeer (fun _ rest => tended (Settling rest) []) l [] e H). intros _ x rest. apply settlePeer_timely.
Qed.

Lemma sendOut_timely hist now e : Inv None hist e -> tended Serving [] e -> wp (sendOut fuel now) (fun _ => tended (Settling []) []) e.
Proof.
  intros HI He. unfold sendOut. apply wp_bind, wp_modify. match goal with |- EngineLogic.wp _ _ _ ?x => set (e1 := x) end.
  assert (He1 : tended Serving (mTouched e1) e1).
  { split; [|done]. eapply fresh_weaken; [apply He|apply touched_sorted|done]. }
  assert (HI1 : Inv None hist e1).
  { apply (Inv_sched hist e (Sched.refill now (mScheduler e)) HI); [apply Sched.refill_ok, HI|].
    destruct (refill_rings now (mScheduler e)) as [E1 E2]. apply ring_same; [done|]. intros l. by rewrite E2. }
  clearbody e1. clear e HI He. apply wp_bind, wp_gets, wp_bind, wp_ask. intros w0. apply wp_bind.
  eapply wp_mono; [|apply wp_and; [apply (timely_at Serving (mTouched e1) (forEach (servePeer now) (mTouched e1))); [|exact He1]|
    apply (fine_loop True hist (servePeer now)); [exact HI1|]; intros; by apply wp_fine, (servePeer_ok fuel)]];
    [|apply timely_each; intros x Hx; by apply servePeer_timely].
  cbn beta. intros [] e2 [[He2 _] [HI2 _]]. apply wp_bind, wp_gets, wp_bind, wp_must_or; [done|]. intros [] _. apply wp_bind, wp_gets, wp_bind.
  assert (He2' : tended Serving [] e2) by (split; [done|set_solver]).
  eapply wp_mono; [|apply wp_when; intros _; [apply sendData_timely; [exact He2'|apply HI2]|exact He2']]. cbn beta. intros [] e3 [He3 _].
  apply wp_bind, wp_gets, wp_bind. eapply wp_mono; [|apply settling_timely; split; [exact He3|set_solver]]. cbn beta. intros [] e4 He4.
  apply timely_at; [|done]. unfold eraseEnded. tend.
Qed.
Lemma step_timely hist now e : Inv None hist e -> fresh_but [] e -> wp (step fuel now) (fun _ => fresh_but []) e.
Proof.
  intros HI H. unfold step. apply wp_bind. eapply wp_mono; [|apply wp_and; [by apply takeIn_timely|by apply (takeIn_ok fuel True hist now e)]].
  cbn beta. intros [] e1 [He1 [HI1 _]]. apply wp_bind. eapply wp_mono; [|by apply (sendOut_timely hist)]. cbn beta. intros [] e2 He2.
  eapply (wp_mono True _ (fun _ => tended (Settling []) [])); [by intros b e' [He' _]|]. apply timely_at; [|done]. unfold finish, takeBatch. tend.
  intros _. apply timely_modify. intros e'. by destruct (_ || _).
Qed.

(** Between two rounds no copy is stale. *)
Lemma run_fresh hist e : engine_run fuel hist e -> fresh_but [] e.
Proof.
  assert (Hs : forall e e', fresh_but [] e -> mPeers e' = mPeers e -> fresh_but [] e') by (intros e1 e2 H E; eapply fresh_weaken; [exact H|done|by rewrite E]).
  induction 1 as [lib generated config Hr|hist e c Hrun IH Hc|hist e before w b e' w' Hrun IH Hf Hw|
    hist e after w e' w' Hrun IH Hw|hist e w e' w' Hrun IH Hw|hist e w b e' w' Hrun IH Hw]; try destruct (run_Inv fuel _ _ Hrun) as (HI & _).
  - intros id p Hp. cbn in Hp. by rewrite lookup_empty in Hp.
  - destruct (call_meddled e c Hc) as (wk & bl & m & i & Ee & _). rewrite Ee. by eapply Hs.
  - unfold beginRound, mbind, m_bind, modify in Hw. revert Hw. set (e1 := if mTickTimedOut e then _ else e).
    set (e2 := e1 <| mStepStartedAt := before |>). assert (H2 : Inv None hist e2 /\ fresh_but [] e2).
    { subst e2 e1. destruct (mTickTimedOut e); (split; [done|by eapply (Hs e)]). }
    clearbody e2. clear e1. destruct H2 as [HI2 F2]. intros Hw. pose proof (step_timely hist before e2 HI2 F2 w) as H. rewrite Hw in H. done.
  - pose proof (endRound_ok fuel True hist after e HI w) as H. rewrite Hw in H. destruct H as (_ & _ & _ & Hp'). by eapply Hs.
  - pose proof (endLoop_ok fuel True hist e HI w) as H. rewrite Hw in H. destruct H as (_ & _ & Hp' & _). by eapply Hs.
  - pose proof (failLoop_ok fuel True hist e HI w) as H. rewrite Hw in H. destruct H as (Hp' & _). intros id p. by rewrite Hp', lookup_empty.
Qed.

(** C13: the loop does not oversleep.  After every step, the wait that follows it at [later] is
    over, rounded up to microseconds and at least a millisecond, when the first deadline of
    a link falls due, which is what the link itself says at that time and not what it said
    when it was last asked, or that of the state of a session; when the next beacon is, and
    at the next tick of the budget if anything could not be sent; and it is never zero and
    never longer than an hour. *)
Theorem loop_wakes hist e now w b e' w' later :
  engine_run fuel hist e -> step fuel now e w = Some (b, e', w') ->
  (forall id p t, mPeers e' !! id = Some p -> Link.nextDeadline (link p) = Some t \/ stateDeadline p = Some t ->
    waitTime later e' <= Z.max (ms 1) (t - later + 999)) /\
  (mShutdown e' = false -> forall t, mNextTick e' = Some t -> waitTime later e' <= Z.max (ms 1) (t - later + 999)) /\
  (mSocketBlocked e' || Sched.hasBacklog (mScheduler e') || negb (bool_decide (mAcksHeldBack e' = [])) || mSocketFailed e' = true ->
    waitTime later e' <= Z.max (ms 1) (now + Sched.Tick - later + 999)) /\
  0 < waitTime later e' <= MaxWait.
Proof.
  intros Hrun Hs. destruct (run_Inv fuel _ _ Hrun) as (HI & _). pose proof (step_ok fuel True hist now e HI (or_introl I) w) as H. rewrite Hs in H.
  destruct H as [(_ & _ & _ & Hn) [H1 H2 H3]]. pose proof (step_timely hist now e HI (run_fresh _ _ Hrun) w) as Hf. rewrite Hs in Hf.
  split_and!; [|intros; by eapply waitTime_by, H2|intros; by apply waitTime_by, H3|apply waitTime_range..].
  intros id p t Hp Ht. eapply waitTime_by, H1; [exact Hp|]. destruct (Hf id p Hp) as [[]%elem_of_nil|[He|Hd]]; [|by rewrite Hd].
  by rewrite (Hn id p Hp) in He.
Qed.
End Functions.
