(* ===== verification/EngineTypes.v ===== *)
(** * What is said about peers fits its types

    Everything the engine learns about a peer comes from a datagram.  Whatever arrives: the
    [PeerInfo] that is stored, and that the application is told of, holds an id of 64 bits, a
    port of 16 bits and texts of bounded length. *)
From Stdlib Require Import QArith.
From S2P Require Import Prelude Constants Text IPv4Address WireBuffer Beacon PacketFlags PacketHeader OrderedMap SendScheduler SchedulerRules.
From S2P Require Import ReliableLink ControlMessage Discovery Mailbox MailboxRuns Engine EngineSessions EngineStep EngineLogic EngineSends.
From S2P Require Import EngineInvariant EngineRefines EngineReceives EngineRound EngineRuns EngineSettles.
Import Engine Sessions Loop.
#[local] Open Scope Z_scope.

(** ** The bounds *)
Definition MaxAddressText : Z := 15.
Definition MaxVersionText : Z := 11.
Record info_ok (i : PeerInfo) : Prop := {
  io_id : is_uint 64 (infoId i);
  io_port : is_uint 16 (infoPort i);
  io_name : zlen (displayName i) <= MaxDisplayName;
  io_address : zlen (infoAddress i) <= MaxAddressText;
  io_version : zlen (infoVersion i) <= MaxVersionText;
}.

Lemma decimal_length n k : 0 <= n < 10 ^ k -> 1 <= k -> zlen (decimal n) <= k.
Proof.
  intros Hn Hk. destruct (decimal_spec n ltac:(lia)) as [Hc Hv]. destruct (Z.le_gt_cases (zlen (decimal n)) k) as [|Hgt]; [done|].
  pose proof (canonical_size _ Hc ltac:(lia)) as H. rewrite Hv in H. assert (10 ^ k <= 10 ^ (zlen (decimal n) - 1)) by (apply Z.pow_le_mono_r; lia). lia.
Qed.
Lemma ipToString_length a : zlen (ipToString a) <= MaxAddressText.
Proof.
  assert (H : forall n, 0 <= n < 256 -> zlen (decimal n) <= 3) by (intros n Hn; apply decimal_length; lia).
  assert (Ho : forall s, 0 <= octet a s < 256) by (intros s; unfold octet; rewrite (Z.land_ones _ 8) by lia; apply Z.mod_pos_bound; lia).
  assert (Hl : 0 <= Z.land (ipValue a) 255 < 256) by (rewrite (Z.land_ones _ 8) by lia; apply Z.mod_pos_bound; lia).
  unfold ipToString, MaxAddressText. rewrite !zlen_app, !zlen_cons, !zlen_nil. pose proof (H _ (Ho 24)). pose proof (H _ (Ho 16)). pose proof (H _ (Ho 8)).
  pose proof (H _ Hl). lia.
Qed.
Lemma versionToString_length v : is_uint 16 (verMajor v) -> is_uint 16 (verMinor v) -> zlen (versionToString v) <= MaxVersionText.
Proof.
  unfold is_uint. intros H1 H2. unfold versionToString, MaxVersionText. rewrite !zlen_app, !zlen_cons, !zlen_nil.
  pose proof (decimal_length (verMajor v) 5 ltac:(lia) ltac:(lia)). pose proof (decimal_length (verMinor v) 5 ltac:(lia) ltac:(lia)). lia.
Qed.

Lemma decodeHello_fits d h : decodeHello d = Some (Some h) -> hello_ok h.
Proof. unfold decodeHello. destruct readHello_parses as (V & HV & Hiff). rewrite (decodeWhole_iff _ V) by done. by intros [H _]%Hiff. Qed.
Lemma decodeBeacon_fits d b : decodeBeacon d = Some (Some b) -> beacon_ok b.
Proof.
  unfold decodeBeacon. destruct (isBeacon d) as [x|]; cbn [mbind option_bind]; [|done]. destruct (_ || _); [done|].
  destruct readBeacon_parses as (V & HV & Hiff). rewrite (decodeWhole_iff _ V), Hiff by done. by intros [H _].
Qed.
Lemma infoOf_ok from b : address_ok from -> beacon_ok b -> zlen (beaconName b) <= MaxDisplayName -> info_ok (infoOf from b).
Proof.
  intros [_ Hp] Hb Hn. destruct Hb. split; [done..| |]; [apply ipToString_length|by apply versionToString_length].
Qed.

(** ** The engine *)
Definition event_ok (ev : EngineEvent) : Prop :=
  match ev with PeerDiscovered _ i | ConnectionRequest _ i | Connected _ i => info_ok i | _ => True end.
Definition known_ok (d : DiscoveryLogic) : Prop := forall id e, mKnown d !! id = Some e -> info_ok (info (entryPeer e)).
Record typed (e : NetworkEngine) : Prop := {
  ty_peers : forall id p, mPeers e !! id = Some p -> info_ok (peerInfo p);
  ty_known : known_ok (mDiscovery e);
  ty_events : Forall event_ok (mEvents e);
}.

Lemma typed_same e e' : typed e -> mPeers e' = mPeers e -> mDiscovery e' = mDiscovery e -> mEvents e' = mEvents e -> typed e'.
Proof. intros [H1 H2 H3] E1 E2 E3. split; by rewrite ?E1, ?E2, ?E3. Qed.
Lemma typed_fewer e e' : typed e -> mPeers e' ⊆ mPeers e -> mKnown (mDiscovery e') ⊆ mKnown (mDiscovery e) -> mEvents e' = mEvents e -> typed e'.
Proof.
  intros [H1 H2 H3] E1 E2 E3. split; [intros id p Hp; eapply H1; by eapply lookup_weaken|intros id x Hx; eapply H2; by eapply lookup_weaken|by rewrite E3].
Qed.
Lemma meddled_typed e e' : typed e -> meddled e e' -> typed e'.
Proof. intros H (wk & b & m & i & -> & _). by eapply typed_same. Qed.

Section Types.
Context {W : Type} `{!World W} (fuel : nat) `{!WorldOk W fuel}.
Abbreviation wp := (wp (W := W) True).
Abbreviation Comp := (Engine.M W).

Definition types {A} (m : Comp A) : Prop := forall e, typed e -> wp m (fun _ => typed) e.

Lemma types_at {A} (m : Comp A) e : types m -> typed e -> wp m (fun _ => typed) e.
Proof. intros H. apply H. Qed.
Lemma types_bind {A B} (m : Comp A) (f : A -> Comp B) : types m -> (forall a, types (f a)) -> types (mbind f m).
Proof. intros H1 H2 e He. apply wp_bind. eapply wp_mono; [|by apply H1]. cbn beta. intros a e1. apply H2. Qed.
(** What is found of a peer is right, too. *)
Lemma types_deref {B} id (f : Peer -> Comp B) : (forall p, info_ok (peerInfo p) -> types (f p)) -> types (mbind f (deref id)).
Proof. intros H e He. apply wp_bind, wp_deref'. intros p Hp. apply H; [|done]. by eapply ty_peers. Qed.
Lemma types_find {B} id (f : option Peer -> Comp B) : (forall o, (forall p, o = Some p -> info_ok (peerInfo p)) -> types (f o)) -> types (mbind f (find id)).
Proof. intros H e He. apply wp_bind, wp_find. apply H; [|done]. intros p Hp. by eapply ty_peers. Qed.
Lemma types_known {B} id (f : option KnownPeer -> Comp B) : (forall o, (forall k, o = Some k -> info_ok (info k)) -> types (f o)) ->
  types (mbind f (gets (fun e => Discovery.find id (mDiscovery e)))).
Proof.
  intros H e He. apply wp_bind, wp_gets. apply H; [|done]. intros k Hk. unfold Discovery.find in Hk. apply fmap_Some in Hk as (x & Hx & ->).
  by eapply (ty_known _ He).
Qed.
Lemma types_ret {A} (a : A) : types (mret a).
Proof. intros e He. by apply wp_ret. Qed.
Lemma types_gets {A} (f : NetworkEngine -> A) : types (gets f).
Proof. intros e He. by apply wp_gets. Qed.
Lemma types_ask {A} (f : W -> A * W) : types (ask f).
Proof. intros e He. by apply wp_ask. Qed.
Lemma types_must {A} (o : option A) : types (must o).
Proof. intros e He w. unfold must. by destruct o. Qed.
Lemma types_when b (m : Comp ()) : (b = true -> types m) -> types (when b m).
Proof. intros H e He. apply wp_when; intros Hb; [by apply H|done]. Qed.
Lemma types_each {A} (f : A -> Comp ()) l : (forall x, types (f x)) -> types (forEach f l).
Proof. intros H e He. apply (wp_forEach True f typed); [done|]. intros x e1 _. apply H. Qed.
Lemma types_modify f : (forall e, typed e -> typed (f e)) -> types (modify f).
Proof. intros H e He. by apply wp_modify, H. Qed.
Lemma types_setPeer id f : (forall p, info_ok (peerInfo p) -> info_ok (peerInfo (f p))) -> types (setPeer id f).
Proof.
  intros H e [H1 H2 H3]. apply wp_setPeer'. intros p Hp. split; [|done..]. cbn. intros x q [[<- <-]|[_ Hq]]%lookup_insert_Some; [|by eapply H1].
  apply H. by eapply H1.
Qed.
Lemma types_onLink {A} id (f : Link.ReliableLink -> A * Link.ReliableLink) : types (onLink id f).
Proof.
  intros e [H1 H2 H3]. unfold onLink. apply wp_bind, wp_deref'. intros p Hp. apply wp_bind, wp_gets. destruct (f _) as [a k].
  apply wp_bind, wp_modify, wp_ret. split; [|done..]. cbn. intros x q [[<- <-]|[_ Hq]]%lookup_insert_Some; [|by eapply H1]. cbn. by eapply H1.
Qed.
Lemma types_onLink_ id f : types (onLink_ id f).
Proof. apply types_onLink. Qed.
Lemma types_interfere : types interfere.
Proof. intros e He. apply (wp_interfere fuel). intros e' Hm. by eapply meddled_typed. Qed.
Lemma types_mailbox {A} (f : Box.Mailbox -> A * Box.Mailbox) : types (mailbox f).
Proof.
  intros e He. apply (wp_mailbox fuel). intros e' Hm. eapply (typed_same e'); [by eapply meddled_typed|done..].
Qed.
Lemma types_mailbox_ f : types (mailbox_ f).
Proof. apply types_mailbox. Qed.
Lemma types_touch id : types (touch id).
Proof. apply types_modify. intros e He. by eapply typed_same. Qed.
Lemma types_emit ev : event_ok ev -> types (emit ev).
Proof. intros Hev. apply types_modify. intros e [H1 H2 H3]. split; [done..|]. cbn. apply Forall_app. by split; [|constructor]. Qed.
End Types.

Create HintDb types.
#[export] Hint Resolve types_ret types_gets types_ask types_must types_onLink types_onLink_ types_interfere types_mailbox types_mailbox_ types_touch : types.

(** Walks through a computation, and proves of what it is made of that it keeps the types. *)
Ltac keep_engine := let e := fresh "e" in let He := fresh "He" in intros e He; first [by eapply (typed_same e)|by eapply (typed_fewer e)|idtac].
Ltac keep := repeat (intros; lazymatch goal with
  | |- types (mbind _ (deref _)) => apply types_deref
  | |- types (mbind _ (find _)) => apply types_find
  | |- types (mbind _ (gets (fun e => Discovery.find _ (mDiscovery e)))) => apply types_known
  | |- types (mbind _ _) => apply types_bind
  | |- types (when _ _) => apply types_when
  | |- types (forEach _ _) => apply types_each
  | |- types (setPeer _ _) => apply types_setPeer; intros ?p ?Hp; try done
  | |- types (modify _) => apply types_modify; keep_engine
  | |- types (emit _) => apply types_emit; cbn; eauto
  | |- types (match ?x with _ => _ end) => destruct x
  | |- types (match ?x with _ => _ end _) => destruct x; cbn beta
  | |- types _ => solve [eauto with types]
  end).

Section Functions.
Context {W : Type} `{!World W} (fuel : nat) `{!WorldOk W fuel}.
Abbreviation types := (types (W := W)).

(** ** Sessions *)
Lemma report_types id r : types (report id r).
Proof. unfold report. keep. Qed.
Lemma end_types id : types (end_ id).
Proof. unfold end_. keep. Qed.
Lemma queueControl_types id t b : types (queueControl id t b).
Proof. unfold queueControl. keep. Qed.
Lemma setConnected_types id : types (setConnected id).
Proof. unfold setConnected. keep. Qed.
#[local] Hint Resolve report_types end_types queueControl_types setConnected_types : types.
Lemma sendAccept_types id : types (sendAccept id).
Proof. unfold sendAccept. keep. Qed.
Lemma sendDecline_types id now : types (sendDecline id now).
Proof. unfold sendDecline. keep. Qed.
Lemma sendClose_types id now : types (sendClose id now).
Proof. unfold sendClose. keep. Qed.
#[local] Hint Resolve sendAccept_types sendDecline_types sendClose_types : types.
Lemma erase_types id : types (erase id).
Proof. unfold erase, destroyLink. keep. eapply (typed_fewer e); [done| |done..]. apply delete_subseteq. Qed.
#[local] Hint Resolve erase_types : types.
Lemma addPeer_types info a now : info_ok info -> types (addPeer fuel info a now).
Proof.
  intros Hi. unfold addPeer. keep. destruct (mPeers e !! infoId info) as [p|] eqn:E; [done|]. destruct He as [H1 H2 H3]. split; [|done..].
  cbn. intros id q [[<- <-]|[_ Hq]]%lookup_insert_Some; [done|by eapply H1].
Qed.
#[local] Hint Resolve addPeer_types : types.

(** ** Commands and the adapter *)
Lemma startSession_types id now : types (startSession fuel id now).
Proof. unfold startSession. keep. Qed.
Lemma endSession_types id now : types (endSession id now).
Proof. unfold endSession. keep. Qed.
Lemma shutdownPeer_types now id : types (shutdownPeer now id).
Proof. unfold shutdownPeer. keep. Qed.
#[local] Hint Resolve startSession_types endSession_types shutdownPeer_types : types.
Lemma beginShutdown_types now : types (beginShutdown now).
Proof. unfold beginShutdown. keep. Qed.
#[local] Hint Resolve beginShutdown_types : types.
Lemma apply_types now c : types (apply fuel now c).
Proof. unfold apply. keep. Qed.
Lemma endAllSessions_types r : types (endAllSessions r).
Proof. unfold endAllSessions, destroyLink. keep. eapply (typed_fewer e); [done| |done..]. apply map_empty_subseteq. Qed.
Lemma bind_types i : types (bind i).
Proof. unfold bind. keep. Qed.
#[local] Hint Resolve endAllSessions_types bind_types : types.
Lemma updateInterface_types b : types (updateInterface b).
Proof. unfold updateInterface, closeSockets. keep. eapply (typed_fewer e); [done..| |done]. apply map_empty_subseteq. Qed.
#[local] Hint Resolve apply_types updateInterface_types : types.

(** ** What the link of a peer received *)
Lemma onControl_types id m : types (onControl id m).
Proof.
  unfold onControl. keep. destruct Hp as [H1 H2 H3 H4 H5]. split; try done. cbn. bool_prop. lia.
Qed.
Lemma mediaInbox_types id : types (mediaInbox id).
Proof. unfold mediaInbox. keep. Qed.
#[local] Hint Resolve onControl_types mediaInbox_types : types.
Lemma onMessage_types id m : types (onMessage id m).
Proof. unfold onMessage. keep. Qed.
Lemma advanceState_types id now : types (advanceState id now).
Proof. unfold advanceState. keep. Qed.
#[local] Hint Resolve onMessage_types advanceState_types : types.
Lemma advance_types id now : types (advance id now).
Proof. unfold advance. keep. Qed.
#[local] Hint Resolve advance_types : types.

(** ** Sending *)
Lemma sendBeacon_types to_ r : types (sendBeacon to_ r).
Proof. unfold sendBeacon, countSent. keep. Qed.
Lemma transmit_types to_ d : types (transmit to_ d).
Proof. unfold transmit, countSent. keep. Qed.
#[local] Hint Resolve sendBeacon_types transmit_types : types.
Lemma ackLoop_types n id : types (ackLoop n id).
Proof. induction n as [|n IH]; cbn [ackLoop]; keep. Qed.
#[local] Hint Resolve ackLoop_types : types.
Lemma sendAcks_types id : types (sendAcks id).
Proof. unfold sendAcks. keep. Qed.
Lemma peekLink_types id l : types (peekLink id l).
Proof.
  intros e He w. unfold peekLink. destruct (mPeers e !! id) as [p|] eqn:Hp; [|done].
  assert (H : typed (srcEngine (Link.peek l (link p) (mkSource id (control p) (transfersData p) e w)).2)).
  { apply (peek_source (fun s => typed (srcEngine s))); [|done]. intros s Hs. unfold Link.next, peerSource_next.
    destruct (bool_decide _); [by destruct (srcControl s)|]. destruct (negb _); [done|].
    pose proof (types_mailbox fuel (Box.take (srcPeer s) l) (srcEngine s) Hs (srcWorld s)) as H. by destruct (mailbox _ _ _) as [[[m e'] w']|]. }
  destruct (Link.peek _ _ _) as [[d k] s]. destruct H as [H1 H2 H3]. split; [|done..]. cbn. intros x q [[<- <-]|[_ Hq]]%lookup_insert_Some; [|by eapply H1].
  cbn. by eapply (ty_peers _ He).
Qed.
#[local] Hint Resolve sendAcks_types peekLink_types : types.
Lemma schedule_types id : types (schedule id).
Proof. unfold schedule, scheduleLane. keep. Qed.
Lemma sendNext_types now l id : types (sendNext now l id).
Proof. unfold sendNext. keep. Qed.
#[local] Hint Resolve schedule_types : types.
Lemma sendData_types now e : typed e -> Sched.scheduler_ok (mScheduler e) -> wp (W := W) True (sendData fuel now) (fun _ => typed) e.
Proof.
  intros He Hs w. unfold sendData. match goal with |- context [Sched.run ?c _ _ _] => set (callback := c) end.
  set (J := fun (_ : Sched.SendScheduler) (st : option (NetworkEngine * W)) => match st with Some (e', _) => typed e' | None => True end).
  destruct (Sched.run callback fuel (mScheduler e) (Some (e, w))) as [[s' st']|] eqn:Er; [|done].
  destruct (run_keeps callback J) with (5 := Er) as [_ HJ]; [done| |done|exact He|].
  - intros s [[e1 w1]|] l x HJ Hx; cbn [callback]; [|done]. pose proof (sendNext_types now l x e1 HJ w1) as H.
    destruct (sendNext now l x e1 w1) as [[[r e2] w2]|]; [|done]. by destruct r.
  - destruct st' as [[e' w']|]; [|done]. by eapply (typed_same e').
Qed.

(** ** What the sockets received *)
Lemma onBeacon_types from d now : address_ok from -> types (onBeacon from d now).
Proof.
  intros Ha. unfold onBeacon. apply types_bind; [keep|]. intros stopping. destruct stopping; [keep|].
  intros e He. apply wp_bind, wp_gets. destruct (Discovery.onBeacon from d now (mDiscovery e)) as [[seen d']|] eqn:E; [|intros w; exact I].
  assert (H : known_ok d' /\ forall k, seenPeer seen = Some k -> info_ok (info k)).
  { unfold Discovery.onBeacon in E. destruct (decodeBeacon d) as [[b|]|] eqn:Ed; cbn [mbind option_bind] in E; [|injection E as <- <-; split; [apply He|done]|done].
    destruct (isWelcome from b (mDiscovery e)) eqn:Ew; [|injection E as <- <-; split; [apply He|done]]. cbn [negb] in E.
    assert (Hnew : info_ok (infoOf from b)) by (apply infoOf_ok; [done|by eapply decodeBeacon_fits|by apply isWelcome_spec in Ew as (_ & _ & _ & ?)]).
    destruct (_ && _); [injection E as <- <-; split; [apply He|done]|]. injection E as <- <-.
    match goal with |- context [mkEntry ?q now] => set (peer := q) end. cbn [seenPeer].
    assert (Hpeer : info_ok (info peer)).
    { unfold peer. destruct (mKnown (mDiscovery e) !! instanceId b) as [x|] eqn:Ex; [|done]. destruct (_ || _); [done|]. by eapply (ty_known _ He). }
    split; [|by intros k [= <-]]. intros id x. cbn. intros [[<- <-]|[_ Hx]]%lookup_insert_Some; [done|by eapply (ty_known _ He)]. }
  destruct H as [Hk Hseen]. apply wp_bind. apply (wp_mono True _ (fun r e1 => r = (seen, d') /\ e1 = e)); [|by intros w]. intros r e1 [-> ->].
  apply wp_bind, wp_modify. assert (He1 : typed (e <| mDiscovery := d' |>)) by (destruct He; by split). apply types_at; [|exact He1].
  destruct (seenPeer seen) as [k|]; [|keep]. specialize (Hseen k eq_refl). keep.
Qed.

Lemma replaceSession_types id : types (replaceSession id).
Proof. unfold replaceSession. keep. Qed.
#[local] Hint Resolve replaceSession_types : types.

Lemma onHello_types from packet now : address_ok from -> types (onHello fuel from packet now).
Proof.
  intros Ha. unfold onHello. apply types_bind; [keep|]. intros again. destruct again; [keep|].
  intros e He. apply wp_bind. apply (wp_mono True _ (fun o e1 => e1 = e /\ decodeHello (body packet) = Some o));
    [|intros w; unfold must; by destruct (decodeHello (body packet))].
  intros hello e1 [-> Hd]. destruct hello as [h|]; [|by apply wp_ret]. apply wp_bind, wp_gets. destruct (helloOk h from e) eqn:Hok; [cbn [negb]|by apply wp_ret].
  apply types_at; [|done]. apply decodeHello_fits in Hd. assert (Hn : zlen (helloName h) <= MaxDisplayName) by (unfold helloOk in Hok; bool_prop; lia).
  assert (Hi : info_ok {| infoId := fromInstance h; displayName := helloName h; infoAddress := ipToString (ip from); infoPort := port from;
    infoVersion := versionToString (mkVersion (helloMajor h) (helloMinor h)) |}).
  { destruct Hd, Ha as [_ Hp]. split; cbn; [done..|apply ipToString_length|by apply versionToString_length]. }
  keep.
Qed.
Lemma receiver_types from packet now : address_ok from -> types (receiver fuel from packet now).
Proof. intros Ha. pose proof (fun p => onHello_types from p now Ha). unfold receiver. keep. Qed.
Lemma handleDatagram_types now from d : address_ok from -> types (handleDatagram fuel now from d).
Proof. intros Ha. pose proof (fun p => receiver_types from p now Ha). pose proof (onBeacon_types from d now Ha). unfold handleDatagram. keep. Qed.
Lemma receiveLoop_types port handle n : (forall from d, address_ok from -> types (handle from d)) -> types (receiveLoop port handle n).
Proof.
  intros Hh. induction n as [|n IH]; cbn [receiveLoop]; [keep|]. intros e He. apply wp_bind, wp_ask. intros w.
  destruct (receiveDatagram port w).1 as [err|[from d]] eqn:E; [apply types_at; [destruct err; keep|done]|].
  pose proof (Hh from d (proj2 (wo_receive port w from d E))). apply types_at; [|done]. keep.
Qed.
Lemma receivePending_types now : types (receivePending fuel now).
Proof.
  unfold receivePending. keep; intros; apply receiveLoop_types; intros; [by apply handleDatagram_types|by apply onBeacon_types].
Qed.
#[local] Hint Resolve receivePending_types : types.

(** ** A round *)
Lemma tick_types now : types (tick now).
Proof.
  unfold tick. apply types_bind; [keep|]. intros _ e He. apply wp_bind, wp_gets, wp_bind, wp_modify. apply types_at; [keep|].
  destruct He as [H1 H2 H3]. split; [done| |done]. intros id x. cbn.
  destruct (expired_peers now (fun id => bool_decide (is_Some (mPeers e !! id))) (mDiscovery e)) as (_ & H & _). rewrite H. destruct (isExpired _ _ _ _); [done|apply H2].
Qed.
Lemma takeIn_types now : types (takeIn fuel now).
Proof.
  pose proof (tick_types now). unfold takeIn, readyPeer, updatePause, serviceTimers, serviceTimer. keep.
Qed.
Lemma sendOut_types hist now e : Inv None hist e -> typed e -> wp (W := W) True (sendOut fuel now) (fun _ => typed) e.
Proof.
  intros HI He. unfold sendOut. apply wp_bind, wp_modify. match goal with |- EngineLogic.wp _ _ _ ?x => set (e1 := x) end.
  assert (He1 : typed e1) by (by eapply (typed_same e)).
  assert (HI1 : Inv None hist e1).
  { apply (Inv_sched hist e (Sched.refill now (mScheduler e)) HI); [apply Sched.refill_ok, HI|].
    destruct (refill_rings now (mScheduler e)) as [E1 E2]. apply ring_same; [done|]. intros l. by rewrite E2. }
  clearbody e1. clear e HI He. apply wp_bind, wp_gets, wp_bind, wp_ask. intros w0. apply wp_bind.
  eapply wp_mono; [|apply wp_and; [apply (types_at (forEach (servePeer now) (mTouched e1))); [unfold servePeer; keep|exact He1]|
    apply (fine_loop True hist (servePeer now)); [exact HI1|]; intros; by apply wp_fine, (servePeer_ok fuel)]].
  cbn beta. intros [] e2 [He2 [HI2 _]]. apply wp_bind, wp_gets, wp_bind, wp_must_or; [done|]. intros [] _. apply wp_bind, wp_gets, wp_bind.
  eapply wp_mono; [|apply wp_when; intros _; [apply sendData_types; [exact He2|apply HI2]|exact He2]]. cbn beta. intros [] e3 He3.
  apply types_at; [|done]. unfold settlePeer, statsOf, eraseEnded, noteLoss. keep. repeat case_match; done.
Qed.
Lemma takeBatch_types e : typed e -> wp (W := W) True takeBatch (fun b e' => typed e' /\ Forall event_ok (events b)) e.
Proof.
  intros He. unfold takeBatch. apply wp_bind, wp_gets, wp_bind, wp_modify.
  assert (He1 : typed (e <| mEvents := [] |>)) by (destruct He; by split). cbn zeta. apply wp_bind.
  eapply wp_mono; [|apply (types_at (when _ _) _); [keep|exact He1]]. cbn beta. intros [] e2 He2. apply wp_ret. split; [done|apply He].
Qed.
Lemma beginRound_types hist now e : Inv None hist e -> typed e -> wp (W := W) True (beginRound fuel now) (fun b e' => typed e' /\ Forall event_ok (events b)) e.
Proof.
  intros HI He. unfold beginRound. apply wp_bind, wp_modify. set (e1 := if mTickTimedOut e then _ else e).
  assert (H1 : Inv None hist e1 /\ typed e1) by (unfold e1; destruct (mTickTimedOut e); [split; [done|by eapply (typed_same e)]|done]). clearbody e1.
  destruct H1 as [HI1 He1]. apply wp_bind, wp_modify. set (e2 := e1 <| mStepStartedAt := now |>).
  assert (HI2 : Inv None hist e2) by done. assert (He2 : typed e2) by (by eapply (typed_same e1)). clearbody e2. clear e HI He e1 HI1 He1. unfold step.
  apply wp_bind. eapply wp_mono; [|apply wp_and; [by apply (takeIn_types now)|by apply (takeIn_ok fuel True hist now e2)]]. cbn beta. intros [] e3 [He3 [HI3 _]].
  apply wp_bind. eapply wp_mono; [|by apply (sendOut_types hist)]. cbn beta. intros [] e4 He4.
  apply wp_bind. eapply wp_mono; [|apply (types_at (finish now)); [unfold finish; keep|exact He4]].
  - cbn beta. intros [] e5 He5. by apply takeBatch_types.
  - destruct (_ || _); [by eapply (typed_same e)|done].
Qed.
Lemma failLoop_types e : typed e -> wp (W := W) True failLoop (fun b e' => typed e' /\ Forall event_ok (events b)) e.
Proof.
  intros He. unfold failLoop. apply wp_bind, wp_modify. assert (He1 : typed (e <| mEvents := [] |>)) by (destruct He; by split).
  apply wp_bind. eapply wp_mono; [|by apply endAllSessions_types]. cbn beta. intros [] e1 He2. apply wp_bind.
  eapply wp_mono; [|by apply (types_mailbox_ fuel)]. cbn beta. intros [] e3. apply takeBatch_types.
Qed.
Lemma endRound_types now : types (endRound now).
Proof. unfold endRound, waitForWork. keep. Qed.

Lemma run_typed hist e : engine_run fuel hist e -> typed e /\ Forall event_ok hist.
Proof.
  induction 1 as [lib generated config Hr|hist e c Hrun [He Hh] Hc|hist e before w b e' w' Hrun [He Hh] Hf Hw|
    hist e after w e' w' Hrun [He Hh] Hw|hist e w e' w' Hrun [He Hh] Hw|hist e w b e' w' Hrun [He Hh] Hw].
  - split; [|done]. split; [intros id p|intros id x|done]; cbn; by rewrite lookup_empty.
  - split; [|done]. eapply meddled_typed; [exact He|by apply call_meddled].
  - destruct (run_Inv fuel _ _ Hrun) as (HI & _). pose proof (beginRound_types hist before e HI He w) as H. rewrite Hw in H. destruct H.
    split; [done|]. by apply Forall_app.
  - pose proof (endRound_types after e He w) as H. rewrite Hw in H. done.
  - pose proof (types_mailbox_ fuel (Box.setRunning false) e He w) as H. unfold endLoop in Hw. rewrite Hw in H. done.
  - pose proof (failLoop_types e He w) as H. rewrite Hw in H. destruct H. split; [done|]. by apply Forall_app.
Qed.
End Functions.
