(* ===== verification/EngineExample.v ===== *)
(** * A run of the engine

    A small world, and an engine in it that a peer connects to: what is promised of all
    runs holds of this one. *)
From Stdlib Require Import QArith.
From S2P Require Import Prelude Constants IPv4Address Beacon PacketFlags PacketHeader OrderedMap SendScheduler ReliableLink ControlMessage Discovery.
From S2P Require Import Mailbox MailboxRuns Engine SessionSpec EngineSessions EngineStep.
From S2P Require Import EngineLogic EngineEffects EngineInvariant EngineGrowth EngineRound EngineRuns EngineDeadlines.
From stdpp Require Import relations sorting.
Import Engine Sessions Loop.
#[local] Open Scope Z_scope.

(** ** The world *)

(** Datagrams that are on their way to the engine, and the next stream id. *)
Record Script := mkScript { arrivals : list (SocketAddress * bytes); nextId : Z }.

Definition deliverable (a : SocketAddress * bytes) : bool :=
  (zlen a.2 <=? PackageBufferSize) && (0 <=? ipValue (ip a.1)) && (ipValue (ip a.1) <? 2 ^ 32) && (0 <=? port a.1) && (port a.1 <? 2 ^ 16).

Definition home : LocalInterface := mkInterface (mkIPv4 0xC0A80101) (mkIPv4 0xFFFFFF00).

#[export] Instance script_world : World Script := {|
  sendDatagram _ _ w := (None, w);
  receiveDatagram p w :=
    match p, arrivals w with
    | IoPort, a :: rest => (if deliverable a then inr a else inl MessageTooLarge, mkScript rest (nextId w))
    | _, _ => (inl WouldBlock, w)
    end;
  waitReadable _ w := (Some Timeout, w);
  queryInterface w := (Some home, w);
  makeSocket a _ w := (inr (mkSocketAddress (ip a) 5000), w);
  drawStreamID w := (1 + nextId w mod (2 ^ 32 - 1), mkScript (arrivals w) (nextId w + 1));
  otherThreads w := ([], w);
  capacityOf n w := (2 * n, w);
|}.

(** The ids of as many draws as are made differ. *)
Lemma draw_fresh (used : gset Z) : forall n (w : Script), Z.of_nat n < 2 ^ 31 ->
  draw n (fun id => bool_decide (id ∈ used)) w = None ->
  exists ids : list Z, length ids = S n /\ NoDup ids /\ (forall x, x ∈ ids -> x ∈ used) /\
    forall x, x ∈ ids <-> exists k, 0 <= k <= Z.of_nat n /\ x = 1 + (nextId w + k) mod (2 ^ 32 - 1).
Proof.
  induction n as [|n IH]; intros w Hn; cbn -[Z.pow]; case_bool_decide as Hu; try done.
  - intros _. exists [1 + nextId w mod (2 ^ 32 - 1)]. split_and!; [done|apply NoDup_singleton|by intros x ->%list_elem_of_singleton|].
    intros x. rewrite list_elem_of_singleton. split.
    + intros ->. exists 0. by rewrite Z.add_0_r.
    + intros (k & Hk & ->). replace k with 0 by lia. by rewrite Z.add_0_r.
  - intros Hd. destruct (IH (mkScript (arrivals w) (nextId w + 1)) ltac:(lia) Hd) as (ids & Hl & Hnd & Hin & Hx). cbn in Hx.
    exists ((1 + nextId w mod (2 ^ 32 - 1)) :: ids). split_and!; [cbn; lia| | |].
    + apply NoDup_cons. split; [|done]. rewrite Hx. intros (k & Hk & E). Z.div_mod_to_equations. lia.
    + intros x [->|H]%elem_of_cons; [done|by apply Hin].
    + intros x. rewrite elem_of_cons, Hx. split.
      * intros [->|(k & Hk & ->)]; [exists 0; split; [lia|by rewrite Z.add_0_r]|]. exists (k + 1). split; [lia|]. do 2 f_equal. lia.
      * intros (k & Hk & ->). destruct (decide (k = 0)) as [->|]; [left; by rewrite Z.add_0_r|]. right. exists (k - 1). split; [lia|]. do 2 f_equal. lia.
Qed.

#[export] Instance script_ok : WorldOk Script 500.
Proof.
  split.
  - intros [] [[|a rest] n] from d; cbn -[deliverable]; try done. destruct (deliverable a) eqn:E; [|done]. intros [= ->].
    unfold deliverable in E. cbn [fst snd] in E. bool_prop. unfold address_ok, is_uint. lia.
  - intros w. cbn -[Z.pow]. pose proof (Z.mod_pos_bound (nextId w) (2 ^ 32 - 1) ltac:(lia)). lia.
  - intros used w Hs. destruct (draw _ _ w) eqn:E; [by eexists|]. apply draw_fresh in E as (ids & Hl & Hnd & Hin & _); [|lia].
    assert (Hle : (length ids <= size used)%nat).
    { rewrite <- (list_to_set_elements_L used), size_list_to_set by apply NoDup_elements. apply submseteq_length, NoDup_submseteq; [done|].
      intros x Hx. apply elem_of_elements. by apply Hin. }
    unfold MaxPeers in Hs. lia.
  - intros w c Hc. cbn in Hc. by apply elem_of_nil in Hc.
Qed.

(** Its vectors have room for as many elements again as they hold. *)
Lemma script_roomy : roomy Script.
Proof. intros n w. cbn. lia. Qed.

(** ** The run *)
Definition theConfig : EngineConfig :=
  {| cfgDisplayName := [Byte.x4d]; cfgAppId := [Byte.x61]; cfgAppVersion := [Byte.x31; Byte.x2e; Byte.x34]; cfgDiscoveryPort := 4242;
     cfgSendQueueBytes := DefaultSendQueueBytes; cfgMaxSendRate := DefaultMaxSendRate; cfgTimings := defaultTimings;
     cfgAutoAccept := true; cfgInstanceId := 1 |}.
Definition engine0 : NetworkEngine := newEngine [] 9 theConfig.

(** The peer 2 says hello with stream 77, then sends a message on the lane Reliable to the
    stream the engine draws, 1. *)
Definition there : SocketAddress := mkSocketAddress (mkIPv4 0xC0A80107) 4000.
Definition hello : bytes :=
  encodePacket (mkHeader (dataFlags Control) 77 0 1 0 1 (control_to_Z CHello) 0)
    (encodeHello (mkHello 2 1 (hashAppId [Byte.x61]) 1 4 [Byte.x41])).
Definition dataTo (stream : Z) : bytes := encodePacket (mkHeader (dataFlags Reliable) 77 stream 1 0 1 5 0) [Byte.x48; Byte.x69].


(** What a round leaves: the events, the engine, the world. *)
Definition outcome (r : option (EventBatch * NetworkEngine * Script)) : list EngineEvent * NetworkEngine * Script :=
  match r with Some (b, e, w) => (events b, e, w) | None => ([], engine0, mkScript [] 0) end.
Definition script1 : Script := mkScript [(there, hello); (there, dataTo 1)] 0.
Definition after1 : list EngineEvent * NetworkEngine * Script := outcome (round 500 0 (ms 1) engine0 script1).
Abbreviation told1 := after1.1.1.
Abbreviation engine1 := after1.1.2.

Lemma outcome_run hist e before after w : engine_run 500 hist e -> finished e = false -> round 500 before after e w <> None ->
  engine_run 500 (hist ++ (outcome (round 500 before after e w)).1.1) (outcome (round 500 before after e w)).1.2.
Proof. intros Hr Hf Hn. destruct (round 500 before after e w) as [[[b e'] w']|] eqn:E; [|done]. by eapply (er_round 500 hist e before after w b e' w'). Qed.

Lemma engine0_run : engine_run 500 [] engine0.
Proof. apply er_start. by vm_compute. Qed.
Lemma engine1_run : engine_run 500 told1 engine1.
Proof.
  pose proof (outcome_run [] engine0 0 (ms 1) script1 engine0_run) as H. rewrite app_nil_l in H. unfold after1. apply H; by vm_compute.
Qed.

Abbreviation step2 := (step 500 (ms 10) engine1 (mkScript [] 1)).

(** ** What is promised of it *)
Lemma engine_refines_witness : reached (absOf told1 engine1) /\ aTrace (absOf told1 engine1) = told1.
Proof. exact (engine_refines 500 told1 engine1 engine1_run). Defined.

Lemma session_contract_witness :
  (exists pre m, told1 = pre ++ [MessageEvent 2 LReliable m None]) /\ contract 2 told1.
Proof.
  split; [|exact (session_contract 500 told1 engine1 2 engine1_run)].
  eexists [_; _], _. vm_compute. reflexivity.
Defined.

Lemma round_returns_witness : is_Some (round 500 (ms 10) (ms 11) engine1 (mkScript [] 1)).
Proof. apply (round_returns 500 told1 engine1 _ _ _ engine1_run script_roomy); vm_compute; congruence. Defined.

Lemma engine_tables_witness :
  mByStream engine1 !! 1 = Some 2 /\ exists p, mPeers engine1 !! 2 = Some p /\ Link.mLocalStreamID (link p) = 1.
Proof.
  split; [vm_compute; reflexivity|]. destruct (engine_tables 500 told1 engine1 engine1_run) as (_ & _ & Hs & _).
  apply Hs. vm_compute. reflexivity.
Defined.

Lemma engine1_transfers : match mPeers engine1 !! 2 with
  | Some p => transfersData p = true /\ Box.session 2 (mMailbox engine1) = Box.Connected
  | None => False
  end.
Proof. vm_compute. done. Qed.
Lemma published_sessions_witness :
  is_Some (mPeers engine1 !! 2) /\ is_Some (Box.mPeers (mMailbox engine1) !! 2) /\ Box.session 2 (mMailbox engine1) = Box.Connected.
Proof.
  pose proof (published_sessions 500 told1 engine1 2 engine1_run) as H. pose proof engine1_transfers as Ht.
  destruct (mPeers engine1 !! 2) as [p|]; [|done]. destruct Ht as [Ht Hs]. split_and!; [by eexists|by apply H|done].
Defined.

(** The Accept is on its way and is sent again after 100 ms unless it is acknowledged. *)
Lemma step2_deadline : match step2 with
  | Some (_, e, _) => match mPeers e !! 2 with Some p => Link.nextDeadline (link p) = Some (ms 100) | None => False end
  | None => False
  end.
Proof. vm_compute. reflexivity. Qed.

Lemma loop_wakes_witness : exists b e' w', step2 = Some (b, e', w') /\ waitTime (ms 20) e' <= ms 80 + 999 /\ 0 < waitTime (ms 20) e'.
Proof.
  pose proof step2_deadline as Hd. destruct step2 as [[[b e'] w']|] eqn:E; [|destruct Hd].
  destruct (loop_wakes 500 told1 engine1 (ms 10) (mkScript [] 1) b e' w' (ms 20) engine1_run E) as (H1 & _ & _ & H2).
  exists b, e', w'. split; [reflexivity|]. split; [|apply H2]. destruct (mPeers e' !! 2) as [p|] eqn:Ep; [|destruct Hd].
  exact (H1 2 p (ms 100) Ep (or_introl Hd)).
Defined.

Lemma unreported1 : unreported engine1 = [2].
Proof. vm_compute. reflexivity. Qed.
Lemma failure_ends_sessions_witness : exists b e' w' t, failLoop engine1 (mkScript [] 1) = Some (b, e', w') /\
  events b = [Disconnected 2 ByNetworkError] /\ mPeers e' = ∅ /\ tellAll 2 (told1 ++ [Disconnected 2 ByNetworkError]) untold = Some t /\ tPhase t = Out.
Proof.
  destruct (run_Inv 500 told1 engine1 engine1_run) as (HI & Hev & _).
  destruct (failure_ends_sessions 500 told1 engine1 (mkScript [] 1) HI) as (b & e' & w' & E & Hp & _ & _ & Hb & Ht).
  rewrite unreported1 in Hb. cbn in Hb. rewrite Hb in Ht. destruct (Ht Hev 2) as (t & H1 & H2). exists b, e', w', t.
  exact (conj E (conj Hb (conj Hp (conj H1 H2)))).
Defined.

(** ** A request that crosses a withdrawn one

    An application that decides about requests itself asks the peer 2 for a session and
    withdraws at once; in the same round the peer asks, too.  Its Hello is answered from
    stream 3, the second one drawn in that round. *)
Definition careful : NetworkEngine := newEngine [] 9 (theConfig <| cfgAutoAccept := false |>).
Definition announcement : bytes := encodeBeacon (mkBeacon 2 (hashAppId [Byte.x61]) (mkVersion 1 4) false [Byte.x41]).
Definition found1 : list EngineEvent * NetworkEngine * Script := outcome (round 500 0 (ms 1) careful (mkScript [(there, announcement)] 0)).
Definition withdrawn : NetworkEngine :=
  performCall (performCall found1.1.2 (UseMailbox (Post Box.Connect 2))) (UseMailbox (Post Box.Disconnect 2)).

(** The application is told that the session it asked for is over, and then of one it was
    not asked about, although requests are not accepted automatically. *)
Theorem withdrawn_request_accepts :
  (subject <$> found1.1.1) = [None; Some 2] /\ cfgAutoAccept (mConfig withdrawn) = false /\
  match (outcome (round 500 (ms 10) (ms 11) withdrawn (mkScript [(there, hello); (there, dataTo 3)] 1))).1.1 with
  | [Disconnected 2 ByLocal; Connected 2 _; MessageEvent 2 LReliable _ None] => True
  | _ => False
  end.
Proof. vm_compute. done. Qed.

(** ** An exception after the end of a session was noted

    The peer closed the session with [engine1], and the loop fails before the step is over:
    the event is cleared with the others, and the session counts as reported already. *)
Theorem failure_drops_end :
  match report 2 ByRemote engine1 (mkScript [] 1) with
  | Some (_, e, w) =>
    mEvents e = [Disconnected 2 ByRemote] /\
    match failLoop e w with Some (b, e', _) => events b = [] /\ mPeers e' = ∅ | None => False end
  | None => False
  end.
Proof. vm_compute. done. Qed.

(** ** A vector that grows while it is iterated

    The same world, but for vectors that have no room beyond their elements, as those of a
    vector that was filled one by one may have. *)
Record Tight := tight { loose : Script }.
Definition tightly {A} (m : Script -> A * Script) (w : Tight) : A * Tight := let '(x, w') := m (loose w) in (x, tight w').

#[local] Instance tight_world : World Tight := {|
  sendDatagram to d := tightly (sendDatagram to d);
  receiveDatagram p := tightly (receiveDatagram p);
  waitReadable t := tightly (waitReadable t);
  queryInterface := tightly queryInterface;
  makeSocket a b := tightly (makeSocket a b);
  drawStreamID := tightly drawStreamID;
  otherThreads := tightly otherThreads;
  capacityOf n w := (n, w);
|}.

(** The application ends the session with the peer 2 of [engine1].  The goodbye is said when
    the peer is served, which touches it a second time: the loop of the round iterates a
    vector that has moved.  Where the vector has room, the round returns. *)
Definition leaving : NetworkEngine := performCall engine1 (UseMailbox (Post Box.Disconnect 2)).
Theorem growing_vector_dangles :
  round 500 (ms 10) (ms 11) leaving (tight (mkScript [] 1)) = None /\ round 500 (ms 10) (ms 11) leaving (mkScript [] 1) <> None.
Proof. vm_compute. done. Qed.
