(* ===== verification/ShutdownExample.v ===== *)
(** * A shutdown, step by step

    The engine of [EngineExample] is asked to stop while a session is open whose peer no
    longer answers. *)
From Stdlib Require Import QArith.
From S2P Require Import Prelude Constants Mailbox MailboxRuns SendScheduler Engine EngineSessions EngineStep EngineRuns EngineEnds EngineExample.
From stdpp Require Import relations.
Import Engine Sessions Loop.
#[local] Open Scope Z_scope.
Definition stopping : NetworkEngine := performCall engine1 (UseMailbox (Post Box.Shutdown 0)).
Abbreviation quiet := (mkScript [] 1).
Lemma round_moments t h e before after w b e' w' : finished e = false -> t <= before -> before <= after ->
  round 500 before after e w = Some (b, e', w') -> rtc (moment_step 500) (mkMoment t h e) (mkMoment after (h ++ events b) e').
Proof.
  unfold round, mbind, m_bind. intros Hf H1 H2 H. destruct (beginRound 500 before e w) as [[[b1 e1] w1]|] eqn:E1; [|done].
  destruct (endRound after e1 w1) as [[[[] e2] w2]|] eqn:E2; [|done]. injection H as <- <- <-.
  eapply rtc_l; [by eapply ms_begin|]. eapply rtc_l; [by eapply ms_wait|]. done.
Qed.
Lemma outcome_some r : r <> None -> exists b w', r = Some (b, (outcome r).1.2, w') /\ (outcome r).1.1 = events b.
Proof. destruct r as [[[b e] w]|]; [|done]. intros _. by exists b, w. Qed.
Lemma round1_returns : round 500 0 (ms 1) engine0 script1 <> None.
Proof. by vm_compute. Qed.
Lemma round1 : exists b w', round 500 0 (ms 1) engine0 script1 = Some (b, engine1, w') /\ told1 = events b.
Proof. unfold after1. exact (outcome_some _ round1_returns). Qed.
Lemma engine0_begins : is_uint 32 (cfgMaxSendRate theConfig) /\ finished engine0 = false /\ 0 <= 0 <= ms 1.
Proof. by vm_compute. Qed.
Lemma stopping_started : started 500 (mkMoment (ms 1) told1 stopping).
Proof.
  pose proof engine0_begins as (Hr & Hf & H0 & H1). destruct round1 as (b & w' & E & Et). exists 0, [], 9, theConfig. split; [exact Hr|].
  eapply rtc_r; [exact (round_moments 0 [] engine0 0 (ms 1) script1 b engine1 w' Hf H0 H1 E)|].
  rewrite app_nil_l, <- Et. exact (ms_call 500 (ms 1) told1 engine1 (UseMailbox (Post Box.Shutdown 0)) I).
Qed.
Lemma stopping_asked : asked stopping /\ finished stopping = false /\ ms 1 <= ms 10.
Proof. split_and!; [exists 0; vm_compute; by left|by vm_compute..]. Qed.
Lemma default_paced : DefaultMaxSendRate <> 0 /\ MaxPeers + Sched.burstOf DefaultMaxSendRate <= Z.of_nat 500.
Proof. by vm_compute. Qed.
Lemma stopping_lingers : match beginRound 500 (ms 10) stopping quiet with Some (_, e, _) => finished e = false /\ cfgMaxSendRate (mConfig e) = DefaultMaxSendRate | None => False end.
Proof. by vm_compute. Qed.
Lemma shutdown_in_time_witness : exists b e1 w1 b' e' w',
  beginRound 500 (ms 10) stopping quiet = Some (b, e1, w1) /\ finished e1 = false /\
  beginRound 500 (ms 10 + CloseLinger) e1 quiet = Some (b', e', w') /\ finished e' = true.
Proof.
  pose proof stopping_lingers as H. pose proof stopping_asked as (Ha & Hs & Ht). pose proof default_paced as [Hp1 Hp2].
  destruct (beginRound 500 (ms 10) stopping quiet) as [[[b e1] w1]|] eqn:E; [|destruct H]. destruct H as [Hf Hr].
  destruct (shutdown_in_time 500 (mkMoment (ms 1) told1 stopping) (ms 10) quiet b e1 w1 (mkMoment (ms 10) (heard (mkMoment (ms 1) told1 stopping) ++ events b) e1) stopping_started
    Ha Hs Ht E (rtc_refl _ _)) as (_ & _ & H). cbn [current] in H. rewrite Hr in H.
  destruct (H (ms 10 + CloseLinger) quiet (Z.le_refl _) script_roomy Hp1 Hp2) as (b' & e' & w' & E' & F).
  exists b, e1, w1, b', e', w'. exact (conj eq_refl (conj Hf (conj E' F))).
Defined.
