(* ===== verification/Logging.v ===== *)
(** * Log lines

    [NetLinkLog.{h,cpp}]: every thread has a sink for what it logs, or none; a [LogScope]
    gives it one for as long as the scope lives, unless it has one already; and
    [NETLINK_LOG] formats a line only if there is a sink. *)
From S2P Require Import Prelude Text.
From stdpp Require Import gmap.
#[local] Open Scope Z_scope.

Inductive LogLevel := LogDebug | LogInfo | LogWarning | LogError.
#[global] Instance LogLevel_eq_dec : EqDecision LogLevel.
Proof. solve_decision. Defined.

Module Log.
Abbreviation ThreadId := nat (only parsing).

Section Log.
Context {LogSink : Type}.

(** [thread_local LogSink threadSink]: no entry is the empty function. *)
Abbreviation Sinks := (gmap ThreadId LogSink).

(** A call of a sink. *)
Record Written := mkWritten { by_ : ThreadId; into : LogSink; level : LogLevel; line : text }.

(** ** Operations, by the thread [t] *)
Definition setThreadLogSink (t : ThreadId) (sink : option LogSink) (s : Sinks) : Sinks :=
  match sink with Some k => <[t := k]> s | None => delete t s end.
Definition hasThreadLogSink (t : ThreadId) (s : Sinks) : bool := bool_decide (is_Some (s !! t)).
Definition writeLog (t : ThreadId) (lvl : LogLevel) (txt : text) (s : Sinks) : list Written :=
  match s !! t with Some k => [mkWritten t k lvl txt] | None => [] end.

(** [LogScope]: its constructor returns [mOwns], which its destructor is given. *)
Definition openScope (t : ThreadId) (sink : option LogSink) (s : Sinks) : bool * Sinks :=
  let mOwns := bool_decide (is_Some sink) && negb (hasThreadLogSink t s) in
  (mOwns, if mOwns then setThreadLogSink t sink s else s).
Definition closeScope (t : ThreadId) (mOwns : bool) (s : Sinks) : Sinks :=
  if mOwns then setThreadLogSink t None s else s.

(** [NETLINK_LOG]: whether the arguments are formatted, and what is written. *)
Definition netlinkLog (t : ThreadId) (lvl : LogLevel) (format : () -> text) (s : Sinks) : bool * list Written :=
  if hasThreadLogSink t s then (true, writeLog t lvl (format ()) s) else (false, []).

(** ** What threads do

    A thread sets its sink while it has no scope open, as the threads of the core do when
    they begin; it opens scopes and leaves the last one first; and it logs. *)
Inductive Op := SetSink (sink : option LogSink) | Open (sink : option LogSink) | Leave | Say (lvl : LogLevel) (format : () -> text).

(** The sinks, the [mOwns] of the scopes every thread has open, the last one first, what was
    written, and how many lines were formatted. *)
Record State := mkState { sinks : Sinks; scopes : gmap ThreadId (list bool); written : list Written; formatted : nat }.
Definition begin : State := mkState ∅ ∅ [] 0.
Definition openScopes (t : ThreadId) (s : State) : list bool := default [] (scopes s !! t).

Definition perform (s : State) (x : ThreadId * Op) : option State :=
  let '(t, op) := x in
  match op, openScopes t s with
  | SetSink k, [] => Some (mkState (setThreadLogSink t k (sinks s)) (scopes s) (written s) (formatted s))
  | SetSink _, _ :: _ => None
  | Open k, l =>
    let '(owns, sinks) := openScope t k (sinks s) in Some (mkState sinks (<[t := owns :: l]> (scopes s)) (written s) (formatted s))
  | Leave, owns :: l => Some (mkState (closeScope t owns (sinks s)) (<[t := l]> (scopes s)) (written s) (formatted s))
  | Leave, [] => None
  | Say lvl format, _ =>
    let '(did, out) := netlinkLog t lvl format (sinks s) in
    Some (mkState (sinks s) (scopes s) (written s ++ out) (if did then S (formatted s) else formatted s))
  end.
Fixpoint performAll (ops : list (ThreadId * Op)) (s : State) : option State :=
  match ops with [] => Some s | x :: ops => s ← perform s x; performAll ops s end.

(** ** The reference: of the sink a thread set and those of its scopes, the outermost counts *)
Record Nest := mkNest { base : option LogSink; inner : list (option LogSink) }.
Definition outermost (n : Nest) : option LogSink := foldr (fun k found => match found with Some _ => found | None => k end) (base n) (inner n).
Abbreviation Nests := (gmap ThreadId Nest).
Definition nestOf (t : ThreadId) (n : Nests) : Nest := default (mkNest None []) (n !! t).
Definition refPerform (s : Nests * list Written) (x : ThreadId * Op) : Nests * list Written :=
  let '(n, out) := s in
  let '(t, op) := x in
  let mine := nestOf t n in
  match op with
  | SetSink k => (<[t := mkNest k (inner mine)]> n, out)
  | Open k => (<[t := mkNest (base mine) (k :: inner mine)]> n, out)
  | Leave => (<[t := mkNest (base mine) (tail (inner mine))]> n, out)
  | Say lvl format => (n, out ++ match outermost mine with Some k => [mkWritten t k lvl (format ())] | None => [] end)
  end.

(** [mOwns] says which scope gave the thread its sink. *)
Fixpoint owned (b : option LogSink) (l : list (option LogSink)) : list bool :=
  match l with
  | [] => []
  | k :: l => (bool_decide (is_Some k) && negb (bool_decide (is_Some (outermost (mkNest b l))))) :: owned b l
  end.
Record matches (s : State) (r : Nests * list Written) : Prop := {
  ma_sinks : forall t, sinks s !! t = outermost (nestOf t r.1);
  ma_scopes : forall t, openScopes t s = owned (base (nestOf t r.1)) (inner (nestOf t r.1));
  ma_written : written s = r.2;
  ma_formatted : formatted s = length r.2;
}.

Lemma nest_insert t t' n m : nestOf t (<[t' := n]> m) = if decide (t = t') then n else nestOf t m.
Proof. unfold nestOf. case_decide; subst; [by rewrite lookup_insert_eq|by rewrite lookup_insert_ne]. Qed.
Lemma scopes_insert t t' l s k w f : openScopes t (mkState k (<[t' := l]> (scopes s)) w f) = if decide (t = t') then l else openScopes t s.
Proof. unfold openScopes. cbn. case_decide; subst; [by rewrite lookup_insert_eq|by rewrite lookup_insert_ne]. Qed.
Lemma set_lookup t t' k m : setThreadLogSink t' k m !! t = if decide (t = t') then k else m !! t.
Proof.
  unfold setThreadLogSink. destruct k; case_decide; subst; by rewrite ?lookup_insert_eq, ?lookup_insert_ne, ?lookup_delete_eq, ?lookup_delete_ne.
Qed.

(** A scope that does not own the sink changes nothing; one that does had found none. *)
Lemma open_lookup t t' k m : (openScope t' k m).2 !! t = if decide (t = t') then match m !! t with Some x => Some x | None => k end else m !! t.
Proof.
  unfold openScope, hasThreadLogSink. cbn. case_decide; subst.
  - destruct (m !! t') as [x|] eqn:E; cbn; [by rewrite andb_false_r|]. rewrite andb_true_r.
    destruct k; cbn; [|done]. by rewrite lookup_insert_eq.
  - destruct (_ && _); [|done]. by rewrite set_lookup, decide_False.
Qed.

Lemma outermost_cons b k l : outermost (mkNest b (k :: l)) = match outermost (mkNest b l) with Some x => Some x | None => k end.
Proof. unfold outermost. cbn. by destruct (foldr _ b l). Qed.
Lemma nest_eta n : mkNest (base n) (inner n) = n.
Proof. by destruct n. Qed.
Lemma close_lookup t t' b k (o : option LogSink) m : m !! t' = match o with Some x => Some x | None => k end ->
  b = bool_decide (is_Some k) && negb (bool_decide (is_Some o)) ->
  closeScope t' b m !! t = if decide (t = t') then o else m !! t.
Proof.
  intros Hm ->. unfold closeScope. destruct o as [y|]; cbn; [rewrite andb_false_r; case_decide; by subst|]. rewrite andb_true_r.
  destruct k; cbn; case_decide; subst; by rewrite ?lookup_delete_eq, ?lookup_delete_ne.
Qed.

Lemma perform_matches s r x s'  : matches s r -> perform s x = Some s' -> matches s' (refPerform r x).
Proof.
  intros [H1 H2 H3 H4] Hp. destruct r as [n out], x as [t op]. cbn [fst snd] in *. cbn [perform] in Hp. specialize (H2 t) as H2t. specialize (H1 t) as H1t.
  destruct op as [k|k| |lvl format]; cbn [refPerform].
  - destruct (openScopes t s) as [|b l] eqn:El; [|done]. injection Hp as <-. destruct (inner (nestOf t n)) as [|k0 inn] eqn:Ei; [|done].
    split; cbn; [..|done|done]; intros x; [rewrite set_lookup|]; rewrite nest_insert; case_decide; subst; first [done|apply H1|apply H2].
  - destruct (openScope t k (sinks s)) as [owns k'] eqn:Eo. injection Hp as <-.
    assert (Ek : forall x, k' !! x = (openScope t k (sinks s)).2 !! x) by (by rewrite Eo).
    assert (Eb : owns = (openScope t k (sinks s)).1) by (by rewrite Eo).
    split; cbn [fst snd sinks written formatted]; [..|done|done]; intros x; [rewrite Ek, open_lookup|rewrite scopes_insert]; rewrite nest_insert; case_decide; subst; try done.
    + by rewrite outermost_cons, nest_eta, H1t.
    + cbn [base inner owned]. by rewrite H2t, nest_eta, <- H1t.
  - destruct (openScopes t s) as [|owns l] eqn:El; [done|]. injection Hp as <-. rewrite <- (nest_eta (nestOf t n)) in H1t.
    destruct (inner (nestOf t n)) as [|k0 inn] eqn:Ei; [done|]. rewrite outermost_cons in H1t. injection H2t as -> ->.
    split; cbn; [..|done|done]; intros x; [rewrite (close_lookup _ _ _ _ _ _ H1t eq_refl)|rewrite scopes_insert]; rewrite nest_insert;
      case_decide; by subst.
  - unfold netlinkLog, hasThreadLogSink, writeLog in Hp. rewrite H1t in Hp. destruct (outermost (nestOf t n)) as [k|]; cbn in Hp; injection Hp as <-.
    + split; cbn; [done|done|by rewrite H3|]. rewrite length_app. cbn. lia.
    + split; cbn; rewrite ?app_nil_r; done.
Qed.

Lemma performAll_matches ops : forall s r s', matches s r -> performAll ops s = Some s' -> matches s' (fold_left refPerform ops r).
Proof.
  induction ops as [|x ops IH]; intros s r s' Hm; cbn; [by intros [= <-]|]. destruct (perform s x) as [s1|] eqn:E; [|done]. cbn.
  apply IH. by eapply perform_matches.
Qed.

(** C27: a line goes to the outermost sink of the thread that writes it.  However threads set
    their sinks, open and leave scopes and log: what is written, and into which sink, is what
    the reference says, as long as a thread sets its sink only while it has no scope open;
    for the reference the sink a thread set counts first, and then that of the
    first scope it opened that has one; a line is formatted only if it is written; and once
    a thread has left its scopes, it has the sink it set. *)
Theorem lines_scoped ops s : performAll ops begin = Some s ->
  let '(n, out) := fold_left refPerform ops (∅, []) in
  written s = out /\ formatted s = length (written s) /\ forall t, openScopes t s = [] -> sinks s !! t = base (nestOf t n).
Proof.
  intros H. assert (H0 : matches begin (∅, [])) by (split; try done; intros t; by vm_compute).
  apply (performAll_matches ops _ _ _ H0) in H. destruct (fold_left refPerform ops (∅, [])) as [n out]. destruct H as [H1 H2 H3 H4]. cbn in *.
  split_and!; [done|congruence|]. intros t Ht. rewrite H1. specialize (H2 t). rewrite Ht in H2.
  destruct (nestOf t n) as [b [|k inn]]; [done|]. by cbn in H2.
Qed.
End Log.

(** A thread without a sink opens two scopes of which the first has none, another one has
    set its own. *)
Module Example.
Definition hello : () -> text := fun _ => [Byte.x68].
Definition ops : list (nat * Op (LogSink := nat)) :=
  [(1, SetSink (Some 7)); (2, Open None); (2, Say LogInfo hello); (2, Open (Some 8)); (1, Open (Some 9)); (2, Say LogInfo hello);
   (1, Say LogError hello); (2, Leave); (2, Say LogDebug hello); (1, Leave); (2, Leave)]%nat.
Lemma lines_scoped_witness : exists s, performAll ops begin = Some s /\
  written s = [mkWritten 2 8 LogInfo [Byte.x68]; mkWritten 1 7 LogError [Byte.x68]]%nat /\ formatted s = 2%nat /\ sinks s !! 1%nat = Some 7%nat.
Proof.
  destruct (performAll ops begin) as [s|] eqn:E; [|by vm_compute in E]. exists s. split; [done|].
  pose proof (lines_scoped ops s E) as H. cbn in H. destruct H as (Hw & Hf & Hb). split; [exact Hw|]. rewrite Hf, Hw. split; [done|].
  apply Hb. vm_compute in E. by injection E as <-.
Defined.
End Example.
End Log.
