(* ===== verification/TaskQueue.v ===== *)
(** * The queue of the event thread

    [Util/TaskQueue.h]: any thread posts tasks, one worker thread runs them.  The functions
    are the parts of the operations that happen under the mutex; [step] interleaves them.
    A call of [start], [stop] or [stopAfterDrain] comes from another thread than the
    worker, one call at a time: their caller holds a mutex of its own. *)
From S2P Require Import Prelude.
From stdpp Require Import relations.
#[local] Open Scope Z_scope.

Module Tasks.
Section Queue.
Context {Task : Type}.

(** Where the worker is: before it takes the mutex, in [mCV.wait], in a task, at its end. *)
Inductive Worker := Checking | Sleeping | Working (task : Task) | Returned.

(** [mThread] is empty while it is not joinable. *)
Record TaskQueue := mkQueue {
  mThread : option Worker;
  mRunning : bool;
  mDraining : bool;
  mQueue : list Task;
}.
#[global] Instance eta_TaskQueue : Eta TaskQueue := fun r => mkQueue (mThread r) (mRunning r) (mDraining r) (mQueue r).
Definition newQueue : TaskQueue := mkQueue None false false [].

(** Assigning to a thread that is joinable ends the process: [None]. *)
Definition start (q : TaskQueue) : option TaskQueue :=
  if mRunning q then Some q
  else
    let q := q <| mRunning := true |> <| mDraining := false |> in
    match mThread q with
    | Some _ => None
    | None => Some (q <| mThread := Some Checking |>)
    end.

(** [stop]: whether it goes on, and the part under the mutex. *)
Definition stopRunning (q : TaskQueue) : bool * TaskQueue := (mRunning q, q <| mRunning := false |>).
Definition discard (q : TaskQueue) : TaskQueue := q <| mQueue := [] |>.

(** [stopAfterDrain], up to its notification: whether it goes on. *)
Definition beginDrain (q : TaskQueue) : bool * TaskQueue :=
  if negb (mRunning q) then (false, q) else (true, q <| mDraining := true |>).

Definition post (task : Task) (q : TaskQueue) : TaskQueue := q <| mQueue ::= fun l => l ++ [task] |>.
Definition pending (q : TaskQueue) : Z := zlen (mQueue q).
Definition isRunning (q : TaskQueue) : bool := mRunning q.

(** [notify_one] and [notify_all]: nobody but the worker waits. *)
Definition notify (q : TaskQueue) : TaskQueue :=
  match mThread q with Some Sleeping => q <| mThread := Some Checking |> | _ => q end.

(** [joinOrDetach], from another thread: [None] while it waits. *)
Definition joinOrDetach (q : TaskQueue) : option TaskQueue :=
  match mThread q with
  | None => Some q
  | Some Returned => Some (q <| mThread := None |>)
  | Some _ => None
  end.

(** [run]: what it waits for, one passage under the mutex, and the end of a task,
    with or without an exception. *)
Definition hasTask (q : TaskQueue) : bool := match mQueue q with [] => false | _ => true end.
Definition ready (q : TaskQueue) : bool := hasTask q || negb (mRunning q) || mDraining q.
Definition turn (q : TaskQueue) : TaskQueue :=
  if negb (ready q) then q <| mThread := Some Sleeping |>
  else if negb (mRunning q) then q <| mThread := Some Returned |>
  else
    match mQueue q with
    | [] => q <| mRunning := false |> <| mThread := Some Returned |>
    | task :: rest => q <| mQueue := rest |> <| mThread := Some (Working task) |>
    end.
Definition taskDone (q : TaskQueue) : TaskQueue := q <| mThread := Some Checking |>.

(** ** Threads *)

(** Where the call of [start], [stop] or [stopAfterDrain] is that is under way. *)
Inductive Caller := Idle | Emptying | Notifying | Joining.
#[global] Instance Caller_eq_dec : EqDecision Caller.
Proof. solve_decision. Defined.

(** [owed] counts the posts that have pushed their task and not notified yet. *)
Record System := mkSystem { queue : TaskQueue; caller : Caller; owed : nat }.
#[global] Instance eta_System : Eta System := fun r => mkSystem (queue r) (caller r) (owed r).
Definition newSystem : System := mkSystem newQueue Idle 0.

Inductive Label := Posted (task : Task) | Took (task : Task) | Finished | Started | Stopped | Discarded | Drains | Joined | Spurious | Quiet.

(** A wait on a condition variable may end without a reason: [st_spurious]. *)
Inductive step : Label -> System -> System -> Prop :=
| st_post task s : step (Posted task) s (s <| queue ::= post task |> <| owed ::= S |>)
| st_notify_one s n : owed s = S n -> step Quiet s (s <| queue ::= notify |> <| owed := n |>)
| st_start s q : caller s = Idle -> start (queue s) = Some q -> step Started s (s <| queue := q |>)
| st_stop s q : caller s = Idle -> stopRunning (queue s) = (true, q) ->
    step Stopped s (s <| queue := q |> <| caller := Emptying |>)
| st_discard s : caller s = Emptying -> step Discarded s (s <| queue ::= discard |> <| caller := Notifying |>)
| st_drain s q : caller s = Idle -> beginDrain (queue s) = (true, q) ->
    step Drains s (s <| queue := q |> <| caller := Notifying |>)
| st_notify_all s : caller s = Notifying -> step Quiet s (s <| queue ::= notify |> <| caller := Joining |>)
| st_join s q : caller s = Joining -> joinOrDetach (queue s) = Some q ->
    step Joined s (s <| queue := q |> <| caller := Idle |>)
| st_spurious s : mThread (queue s) = Some Sleeping ->
    step Spurious s (s <| queue ::= fun q => q <| mThread := Some Checking |> |>)
| st_take s task : mThread (queue s) = Some Checking -> mThread (turn (queue s)) = Some (Working task) ->
    step (Took task) s (s <| queue ::= turn |>)
| st_turn s : mThread (queue s) = Some Checking -> (forall task, mThread (turn (queue s)) <> Some (Working task)) ->
    step Quiet s (s <| queue ::= turn |>)
| st_done s task : mThread (queue s) = Some (Working task) -> step Finished s (s <| queue ::= taskDone |>).

Inductive steps : list Label -> System -> System -> Prop :=
| ss_none s : steps [] s s
| ss_step tr l s1 s2 s3 : steps tr s1 s2 -> step l s2 s3 -> steps (tr ++ [l]) s1 s3.

Definition posted (tr : list Label) : list Task := omap (fun l => match l with Posted t => Some t | _ => None end) tr.
Definition taken (tr : list Label) : list Task := omap (fun l => match l with Took t => Some t | _ => None end) tr.

(** ** The invariant *)
Definition notifies (s : System) : Prop := (0 < owed s)%nat \/ caller s = Emptying \/ caller s = Notifying.

Record ok (s : System) : Prop := {
  ok_idle : caller s = Idle -> mRunning (queue s) = false -> mThread (queue s) = None;
  ok_busy : caller s <> Idle -> is_Some (mThread (queue s));
  ok_running : mRunning (queue s) = true -> exists w, mThread (queue s) = Some w /\ w <> Returned;
  ok_called : caller s <> Idle -> mRunning (queue s) = false \/ mDraining (queue s) = true;
  ok_emptying : caller s = Emptying -> mRunning (queue s) = false;
  ok_open : caller s = Idle -> mRunning (queue s) = true -> mDraining (queue s) = false;
  ok_sleep : mThread (queue s) = Some Sleeping -> ready (queue s) = true -> notifies s;
}.

Lemma notify_fields q : mRunning (notify q) = mRunning q /\ mDraining (notify q) = mDraining q /\ mQueue (notify q) = mQueue q.
Proof. unfold notify. by destruct (mThread q) as [[]|]. Qed.
Lemma notify_thread q : mThread (notify q) <> Some Sleeping /\ (mThread (notify q) = mThread q \/ mThread q = Some Sleeping /\ mThread (notify q) = Some Checking).
Proof. unfold notify. destruct (mThread q) as [[]|] eqn:E; cbn; rewrite ?E; split; auto; discriminate. Qed.

(** A passage under the mutex: the worker goes to sleep, or ends, or takes the first task. *)
Inductive turned (q : TaskQueue) : TaskQueue -> Prop :=
| tu_sleep : ready q = false -> turned q (q <| mThread := Some Sleeping |>)
| tu_stopped : mRunning q = false -> turned q (q <| mThread := Some Returned |>)
| tu_drained : mRunning q = true -> mDraining q = true -> mQueue q = [] ->
    turned q (q <| mRunning := false |> <| mThread := Some Returned |>)
| tu_task task rest : mRunning q = true -> mQueue q = task :: rest ->
    turned q (q <| mQueue := rest |> <| mThread := Some (Working task) |>).
Lemma turn_turned q : turned q (turn q).
Proof.
  unfold turn. destruct (ready q) eqn:Er; cbn [negb]; [|by constructor].
  destruct (mRunning q) eqn:Erun; cbn [negb]; [|by constructor].
  destruct (mQueue q) as [|t rest] eqn:Eq; [|by constructor]. constructor; [done| |done].
  unfold ready, hasTask in Er. by rewrite Eq, Erun in Er.
Qed.

Lemma newSystem_ok : ok newSystem.
Proof. by split. Qed.

Lemma ok_not_idle s : ok s -> mThread (queue s) <> None -> mRunning (queue s) = false -> caller s <> Idle.
Proof. intros H Ht Hr Hc. by apply Ht, (ok_idle _ H). Qed.

Lemma posted_ok task s : ok s -> ok (s <| queue ::= post task |> <| owed ::= S |>).
Proof. intros [H1 H2 H3 H4 H5 H6 H7]. split; try done. intros _ _. left. cbn. lia. Qed.

(** Who is notified is awake. *)
Lemma notified_ok s c n : ok s -> (caller s <> Idle <-> c <> Idle) -> (c = Emptying -> caller s = Emptying) ->
  ok (mkSystem (notify (queue s)) c n).
Proof.
  intros [H1 H2 H3 H4 H5 H6 H7] Hc He. destruct (notify_fields (queue s)) as (Er & Ed & Eq), (notify_thread (queue s)) as [Hn Ht].
  assert (Hi : c = Idle -> caller s = Idle) by (destruct (caller s), c; intuition congruence).
  split; cbn; rewrite ?Er, ?Ed; try done.
  - intros E Hr. specialize (H1 (Hi E) Hr). destruct Ht as [->|[Ht _]]; congruence.
  - intros E. destruct (H2 (proj2 Hc E)) as [w Hw]. destruct Ht as [->|[_ ->]]; by eexists.
  - intros Hr. destruct (H3 Hr) as (w & Hw & Hne). destruct Ht as [->|[_ ->]]; [by exists w|by eexists].
  - intros E. apply H4, Hc, E.
  - intros E. by apply H5, He.
  - intros E. by apply H6, Hi.
Qed.

Lemma turn_ok s : ok s -> mThread (queue s) = Some Checking -> ok (s <| queue ::= turn |>).
Proof.
  destruct s as [q c o]. intros [H1 H2 H3 H4 H5 H6 H7] Ht. change (ok (mkSystem (turn q) c o)). cbn in *.
  assert (Hc : c = Idle -> mRunning q = true).
  { intros Hc. destruct (mRunning q); [done|]. specialize (H1 Hc eq_refl). congruence. }
  destruct (turn_turned q) as [Hr|Hr|Hr Hd Hq|t rest Hr Hq]; split; cbn; try done; try (by eexists); try (by intuition congruence).
  intros _. change (ready q = true -> notifies (mkSystem q c o)). congruence.
Qed.

#[local] Ltac fill :=
  try done; try (intros; by (left + right)); try (intros; by eexists);
  try (intros; right; by (left + right)); try (intros; by eauto).
Lemma queue_step_ok l s s' : ok s -> step l s s' -> ok s'.
Proof.
  intros Hok Hs. destruct Hs; try (by apply posted_ok); try (by apply turn_ok).
  - by apply notified_ok.
  - unfold start in H0. destruct (mRunning (queue s)) eqn:Er; [injection H0 as <-; by destruct s|].
    cbn [mThread update] in H0. rewrite (ok_idle _ Hok) in H0 by done. injection H0 as <-.
    split; cbn; try done; try congruence. by eexists.
  - unfold stopRunning in H0. injection H0 as Hr <-. destruct (ok_running _ Hok Hr) as (w & Hw & Hne). split; cbn; fill.
  - pose proof Hok as [H1 H2 H3 H4 H5 H6 H7]. specialize (H2 ltac:(congruence)). specialize (H5 H). split; cbn; fill.
  - unfold beginDrain in H0. destruct (mRunning (queue s)) eqn:Er; [|done]. injection H0 as <-.
    destruct (ok_running _ Hok Er) as (w & Hw & Hne). split; cbn; fill.
  - apply (notified_ok s Joining (owed s)); [done| |done]. rewrite H. split; done.
  - unfold joinOrDetach in H0. pose proof Hok as [H1 H2 H3 H4 H5 H6 H7]. specialize (H2 ltac:(congruence)). specialize (H4 ltac:(congruence)).
    destruct (mThread (queue s)) as [[]|] eqn:Et; try done;  injection H0 as <-.
    assert (Er : mRunning (queue s) = false).
    { destruct (mRunning (queue s)); [|done]. destruct (H3 eq_refl) as (w & [= <-] & Hw). done. }
    split; cbn; try done; congruence.
  - pose proof Hok as [H1 H2 H3 H4 H5 H6 H7]. split; cbn; fill. intros Hc Hr. specialize (H1 Hc Hr). congruence.
  - pose proof Hok as [H1 H2 H3 H4 H5 H6 H7]. split; cbn; fill. intros Hc Hr. specialize (H1 Hc Hr). congruence.
Qed.

Lemma steps_ok tr s : steps tr newSystem s -> ok s.
Proof.
  remember newSystem as s0 eqn:E. induction 1 as [|tr l s1 s2 s3 _ IH Hs]; subst; [apply newSystem_ok|].
  eapply queue_step_ok; [by apply IH|done].
Qed.

(** ** Order *)

(** What a step does to the tasks that wait. *)
Lemma step_queue l s s' : step l s s' ->
  match l with
  | Posted task => mQueue (queue s') = mQueue (queue s) ++ [task]
  | Took task => mQueue (queue s) = task :: mQueue (queue s')
  | Discarded => mQueue (queue s') = []
  | _ => mQueue (queue s') = mQueue (queue s)
  end.
Proof.
  destruct 1 as [|s n Hn|s q Hc Hq|s q Hc Hq| |s q Hc Hq|s Hc|s q Hc Hq| |s t Ht Hw|s Ht Hw|]; try done; cbn -[turn].
  - apply notify_fields.
  - unfold start in Hq. destruct (mRunning _); [by injection Hq as <-|]. cbn in Hq.
    destruct (mThread _); [done|]. by injection Hq as <-.
  - unfold stopRunning in Hq. by injection Hq as _ <-.
  - unfold beginDrain in Hq. destruct (negb _); [done|]. by injection Hq as <-.
  - apply notify_fields.
  - unfold joinOrDetach in Hq. by destruct (mThread _) as [[]|]; try done; injection Hq as <-.
  - change (mQueue (queue s) = t :: mQueue (turn (queue s))).
    destruct (turn_turned (queue s)) as [| | |t' rest Hr E]; cbn in Hw; try done. injection Hw as <-. done.
  - change (mQueue (turn (queue s)) = mQueue (queue s)).
    destruct (turn_turned (queue s)) as [| | |t' rest Hr E]; cbn in Hw; try done. by destruct (Hw t').
Qed.

Lemma posted_app tr tr' : posted (tr ++ tr') = posted tr ++ posted tr'.
Proof. apply omap_app. Qed.
Lemma taken_app tr tr' : taken (tr ++ tr') = taken tr ++ taken tr'.
Proof. apply omap_app. Qed.

(** What was posted and not discarded was taken or waits. *)
Lemma tasks_kept tr s : steps tr newSystem s -> Discarded ∉ tr -> taken tr ++ mQueue (queue s) = posted tr.
Proof.
  remember newSystem as s0 eqn:E. induction 1 as [|tr l s1 s2 s3 _ IH Hs]; subst; [done|].
  rewrite posted_app, taken_app, not_elem_of_app. apply step_queue in Hs. intros [Hn Hd]. specialize (IH eq_refl Hn).
  destruct l; cbn; rewrite ?app_nil_r; try (by rewrite Hs).
  - by rewrite Hs, app_assoc, IH.
  - rewrite Hs in *. by rewrite <- app_assoc.
  - by destruct Hd; left.
Qed.

(** C19: tasks run in the order they were posted in.  What the worker took so far and what
    still waits is, in this order, what was posted, except for what [stop] discarded; if
    nothing was discarded it is all of it. *)
Theorem tasks_in_order tr s : steps tr newSystem s ->
  taken tr ++ mQueue (queue s) `sublist_of` posted tr /\
  (Discarded ∉ tr -> taken tr ++ mQueue (queue s) = posted tr).
Proof.
  intros H. split; [|by apply tasks_kept]. revert H.
  remember newSystem as s0 eqn:E. induction 1 as [|tr l s1 s2 s3 _ IH Hs]; subst; [apply sublist_nil_l|].
  specialize (IH eq_refl). rewrite posted_app, taken_app. apply step_queue in Hs. destruct l; cbn; rewrite ?app_nil_r; try (by rewrite Hs).
  - rewrite Hs, app_assoc. by apply sublist_app.
  - rewrite Hs in *. by rewrite <- app_assoc.
  - rewrite Hs, app_nil_r. etrans; [|exact IH]. by apply sublist_inserts_r.
Qed.

(** ** Stopping *)
Lemma steps_snoc_inv tr l s1 s3 : steps (tr ++ [l]) s1 s3 -> exists s2, steps tr s1 s2 /\ step l s2 s3.
Proof.
  intros H. remember (tr ++ [l]) as tr' eqn:E. destruct H as [|tr0 l0 s1 s2 s3 H Hs]; [by destruct tr|].
  apply app_inj_tail in E as [-> ->]. by exists s2.
Qed.
Lemma steps_app_inv tr tr' s1 s3 : steps (tr ++ tr') s1 s3 -> exists s2, steps tr s1 s2 /\ steps tr' s2 s3.
Proof.
  revert s3. induction tr' as [|l tr' IH] using rev_ind; intros s3 H.
  - rewrite app_nil_r in H. exists s3. split; [done|constructor].
  - rewrite app_assoc in H. apply steps_snoc_inv in H as (s2 & H & Hs). destruct (IH _ H) as (s0 & H0 & H1).
    exists s0. split; [done|]. by econstructor.
Qed.
Lemma steps_single l s s' : steps [l] s s' -> step l s s'.
Proof.
  intros (s2 & H & Hs)%(steps_snoc_inv []). remember [] as tr eqn:E. destruct H as [|tr l0]; [done|by destruct tr].
Qed.
Lemma steps_from_ok tr s s' : ok s -> steps tr s s' -> ok s'.
Proof. intros Hok. induction 1 as [|tr l s1 s2 s3 _ IH Hs]; [done|]. by eapply queue_step_ok; [apply IH|]. Qed.

(** While [stop] or [stopAfterDrain] has not returned. *)
Lemma called_step l s s' : caller s <> Idle -> step l s s' -> l <> Joined -> caller s' <> Idle.
Proof. by destruct 2; cbn; try congruence. Qed.
Lemma drain_step l s s' : (caller s = Notifying \/ caller s = Joining) -> step l s s' -> l <> Joined ->
  (caller s' = Notifying \/ caller s' = Joining) /\ l <> Discarded /\ mDraining (queue s') = mDraining (queue s) /\
  (mRunning (queue s) = true -> mRunning (queue s') = false -> mQueue (queue s') = []).
Proof.
  intros Hc Hs. destruct Hs as [| | | | | | | | |s t Ht Hw|s Ht Hw|]; intros Hj; destruct s as [q0 c o]; cbn -[turn notify] in *;
    try (by intuition congruence).
  - destruct (notify_fields q0) as (Er & Ed & _). rewrite Er, Ed. intuition congruence.
  - destruct (notify_fields q0) as (Er & Ed & _). rewrite Er, Ed. intuition congruence.
  - destruct (turn_turned q0); cbn; intuition congruence.
  - destruct (turn_turned q0); cbn; intuition congruence.
Qed.

Lemma drain_steps tr s s' : steps tr s s' -> Joined ∉ tr -> (caller s = Notifying \/ caller s = Joining) -> mRunning (queue s) = true ->
  (caller s' = Notifying \/ caller s' = Joining) /\ mQueue (queue s) ++ posted tr = taken tr ++ mQueue (queue s') /\
  (mRunning (queue s') = true \/ mQueue (queue s) `prefix_of` taken tr).
Proof.
  induction 1 as [s|tr l s1 s2 s3 Hss IH Hs]; intros Hj Hc Hr; [cbn; rewrite app_nil_r; by split_and!; [..|left]|].
  rewrite not_elem_of_app in Hj. destruct Hj as [Hj Hl]. assert (Hl' : l <> Joined) by (intros ->; destruct Hl; by left).
  destruct (IH Hj Hc Hr) as (Hc2 & E2 & Hp2). destruct (drain_step l s2 s3 Hc2 Hs Hl') as (Hc3 & Hd & _ & He).
  apply step_queue in Hs. rewrite posted_app, taken_app.
  assert (E3 : mQueue (queue s1) ++ posted tr ++ posted [l] = (taken tr ++ taken [l]) ++ mQueue (queue s3)).
  { rewrite app_assoc, E2. destruct l; cbn in *; rewrite ?app_nil_r, ?Hs; try done; by rewrite <- app_assoc. }
  split_and!; [done..|]. destruct (mRunning (queue s3)) eqn:E; [by left|]. right.
  destruct (mRunning (queue s2)) eqn:Er2.
  - rewrite He, app_nil_r in E3 by done. rewrite <- E3. by eexists.
  - destruct Hp2 as [|Hp2]; [done|]. by apply prefix_app_r.
Qed.

(** C20: [stopAfterDrain] returns when everything is done.  If it is called while the queue
    runs, by a thread other than the worker, and no [stop] discarded tasks before: whatever
    was posted before the call has run when it returns, in order; and no task runs any more,
    as the worker is gone and the queue no longer runs. *)
Theorem drain_complete tr1 tr2 s : steps (tr1 ++ Drains :: tr2 ++ [Joined]) newSystem s -> Joined ∉ tr2 -> Discarded ∉ tr1 ->
  posted tr1 `prefix_of` taken (tr1 ++ tr2) /\ mThread (queue s) = None /\ mRunning (queue s) = false.
Proof.
  intros H Hj Hd. apply steps_app_inv in H as (s1 & H1 & H). rewrite app_comm_cons in H. apply steps_snoc_inv in H as (s3 & H & Hs).
  apply (steps_app_inv [Drains] tr2) in H as (s2 & Hb%steps_single & H3). inversion Hb as [| | | | |? q Hc Hq| | | | | |]; subst.
  pose proof (steps_ok _ _ H1) as Hok. pose proof (steps_from_ok _ _ _ (queue_step_ok _ _ _ Hok Hb) H3) as Hok3.
  unfold beginDrain in Hq. destruct (mRunning (queue s1)) eqn:Er; [|done]. injection Hq as <-.
  destruct (drain_steps _ _ _ H3 Hj) as (Hc3 & E3 & Hp); [by left|done|]. cbn in E3, Hp.
  pose proof (tasks_kept _ _ H1 Hd) as E1.
  inversion Hs as [| | | | | | |? q Hcj Hq| | | |]; subst. unfold joinOrDetach in Hq.
  destruct (ok_busy _ Hok3) as [w Hw]; [congruence|]. rewrite Hw in Hq. destruct w; try done. injection Hq as <-.
  assert (Er3 : mRunning (queue s3) = false).
  { destruct (mRunning (queue s3)) eqn:E; [|done]. destruct (ok_running _ Hok3 E) as (w & Hw' & Hne). congruence. }
  split_and!; [|done|done]. destruct Hp as [|Hp]; [congruence|]. rewrite taken_app, <- E1. by apply prefix_app.
Qed.

(** The steps that are left before a call returns, if nobody posts. *)
Definition weight (w : Worker) : nat := match w with Sleeping | Working _ => 2 | Checking => 1 | Returned => 0 end.
Definition stepsLeft (s : System) : nat :=
  2 * length (mQueue (queue s)) + match mThread (queue s) with Some w => weight w | None => 0 end +
  match caller s with Emptying => 3 | Notifying => 2 | Joining => 1 | Idle => 0 end + owed s.
Definition isPosted (l : Label) : bool := match l with Posted _ => true | _ => false end.

(** Steps that are bound to come: not those of who may post, nor a wake-up without reason. *)
Definition due (l : Label) : bool := match l with Posted _ | Spurious | Started | Stopped | Drains => false | _ => true end.

Lemma notify_weight q : (match mThread (notify q) with Some w => weight w | None => 0 end <= match mThread q with Some w => weight w | None => 0 end)%nat.
Proof. unfold notify. destruct (mThread q) as [[]|] eqn:E; cbn; rewrite ?E; cbn; lia. Qed.

Lemma called_decreases l s s' : ok s -> caller s <> Idle -> step l s s' -> isPosted l = false -> (stepsLeft s' < stepsLeft s)%nat.
Proof.
  intros Hok Hc Hs Hp. assert (Hready : ready (queue s) = true).
  { unfold ready. destruct (ok_called _ Hok Hc) as [->| ->]; cbn; by rewrite ?orb_true_r. }
  destruct Hs as [|s n Hn| | |s He| |s He|s q He Hq|s Ht|s t Ht Hw|s Ht Hw|s t Ht]; try done; unfold stepsLeft; cbn -[Nat.mul].
  - pose proof (notify_weight (queue s)). destruct (notify_fields (queue s)) as (_ & _ & ->). lia.
  - rewrite He. lia.
  - pose proof (notify_weight (queue s)). destruct (notify_fields (queue s)) as (_ & _ & ->). rewrite He. lia.
  - rewrite He. unfold joinOrDetach in Hq. destruct (mThread (queue s)) as [[]|] eqn:Et; try done; injection Hq as <-; cbn -[Nat.mul]; rewrite ?Et; lia.
  - rewrite Ht. cbn. lia.
  - change (update queue turn s) with (mkSystem (turn (queue s)) (caller s) (owed s)).
    destruct (turn_turned (queue s)) as [Hr| | |t' rest Hr E]; cbn -[Nat.mul] in *; try done. rewrite Ht, E. cbn. lia.
  - destruct (turn_turned (queue s)) as [Hr| | |t' rest Hr E]; cbn -[Nat.mul] in *; rewrite ?Ht; cbn; try lia; [congruence|]. by destruct (Hw t').
  - rewrite Ht. cbn. lia.
Qed.

(** A worker that has something to do, or is in a task, gets on. *)
Lemma worker_moves s w : ok s -> mThread (queue s) = Some w -> w <> Returned -> (w = Sleeping -> ready (queue s) = true) ->
  exists l s', step l s s' /\ due l = true.
Proof.
  intros Hok Hw Hr Hready. destruct w as [| |t|]; [| | |done].
  - destruct (mThread (turn (queue s))) as [[| |t|]|] eqn:Et; try (by eexists Quiet, _; split; [apply st_turn; [done|congruence]|]).
    eexists (Took t), _. by split; [apply st_take|].
  - destruct (ok_sleep _ Hok Hw (Hready eq_refl)) as [Ho|[Hc|Hc]].
    + destruct (owed s) as [|n] eqn:E; [lia|]. eexists Quiet, _. by split; [eapply st_notify_one|].
    + eexists Discarded, _. by split; [apply st_discard|].
    + eexists Quiet, _. by split; [apply st_notify_all|].
  - eexists Finished, _. by split; [eapply st_done|].
Qed.

(** C0: no wake-up is lost.  As long as a task waits and the queue runs, something is bound to
    happen that brings the worker closer to it: it is in a task, or about to look, or a
    notification is on its way to it.  It never takes a wake-up without reason. *)
Theorem tasks_are_reached tr s : steps tr newSystem s -> mRunning (queue s) = true -> hasTask (queue s) = true ->
  exists l s', step l s s' /\ due l = true.
Proof.
  intros Hok%steps_ok Hr Ht. destruct (ok_running _ Hok Hr) as (w & Hw & Hne). apply (worker_moves s w); try done.
  intros _. unfold ready. by rewrite Ht.
Qed.

Lemma called_moves s : ok s -> caller s <> Idle -> exists l s', step l s s' /\ due l = true.
Proof.
  intros Hok Hc. destruct (ok_busy _ Hok Hc) as [w Hw]. destruct (decide (caller s = Joining)) as [Hj|Hj].
  - assert (Hw' : w = Returned \/ w <> Returned) by (destruct w; auto; by right). destruct Hw' as [->|Hne].
    + eexists Joined, _. split; [apply st_join; [done|]|done]. unfold joinOrDetach. by rewrite Hw.
    + apply (worker_moves s w); try done. intros _. unfold ready. destruct (ok_called _ Hok Hc) as [->| ->]; cbn; by rewrite ?orb_true_r.
  - destruct (caller s) eqn:E; try done.
    + eexists Discarded, _. by split; [apply st_discard|].
    + eexists Quiet, _. by split; [apply st_notify_all|].
Qed.

Lemma called_bounded tr s s' : steps tr s s' -> ok s -> caller s <> Idle -> Joined ∉ tr -> Forall (fun l => isPosted l = false) tr ->
  ok s' /\ caller s' <> Idle /\ (length tr + stepsLeft s' <= stepsLeft s)%nat.
Proof.
  induction 1 as [|tr l s1 s2 s3 _ IH Hs]; intros Hok Hc Hj Hp; [done|]. rewrite not_elem_of_app in Hj. destruct Hj as [Hj Hl].
  apply Forall_app in Hp as [Hp Hpl]. rewrite Forall_singleton in Hpl. destruct (IH Hok Hc Hj Hp) as (Hok2 & Hc2 & Hle).
  assert (l <> Joined) by (intros ->; destruct Hl; by left). split_and!; [by eapply queue_step_ok|by eapply called_step|].
  pose proof (called_decreases _ _ _ Hok2 Hc2 Hs Hpl). rewrite length_app. cbn [length]. lia.
Qed.

(** C21: [stop] and [stopAfterDrain] return.  From the moment the call is under way, if every
    task returns and no new task is posted, the call can go on at every point, whether or not
    the worker wakes up without reason, and returns after at most [stepsLeft] steps of all
    threads: no wake-up is missed and nobody waits for nothing. *)
Theorem stop_returns tr s tr' s' : steps tr newSystem s -> caller s <> Idle ->
  steps tr' s s' -> Joined ∉ tr' -> Forall (fun l => isPosted l = false) tr' ->
  (length tr' < stepsLeft s)%nat /\ exists l s'', step l s' s'' /\ due l = true.
Proof.
  intros Hok%steps_ok Hc H Hj Hp. destruct (called_bounded _ _ _ H Hok Hc Hj Hp) as (Hok' & Hc' & Hle). split; [|by apply called_moves].
  assert (0 < stepsLeft s')%nat by (unfold stepsLeft; destruct (caller s'); [done|lia..]). lia.
Qed.

(** ** Running it *)
Inductive Act := DoPost (task : Task) | DoNotifyOne | DoStart | DoStop | DoDiscard | DoDrain | DoNotifyAll | DoJoin | DoTurn | DoReturn.
Definition act (a : Act) (s : System) : option (Label * System) :=
  match a with
  | DoPost task => Some (Posted task, s <| queue ::= post task |> <| owed ::= S |>)
  | DoNotifyOne => match owed s with S n => Some (Quiet, s <| queue ::= notify |> <| owed := n |>) | O => None end
  | DoStart => if decide (caller s = Idle) then q ← start (queue s); Some (Started, s <| queue := q |>) else None
  | DoStop =>
    if decide (caller s = Idle) then
      match stopRunning (queue s) with (true, q) => Some (Stopped, s <| queue := q |> <| caller := Emptying |>) | _ => None end
    else None
  | DoDiscard => if decide (caller s = Emptying) then Some (Discarded, s <| queue ::= discard |> <| caller := Notifying |>) else None
  | DoDrain =>
    if decide (caller s = Idle) then
      match beginDrain (queue s) with (true, q) => Some (Drains, s <| queue := q |> <| caller := Notifying |>) | _ => None end
    else None
  | DoNotifyAll => if decide (caller s = Notifying) then Some (Quiet, s <| queue ::= notify |> <| caller := Joining |>) else None
  | DoJoin => if decide (caller s = Joining) then q ← joinOrDetach (queue s); Some (Joined, s <| queue := q |> <| caller := Idle |>) else None
  | DoTurn =>
    match mThread (queue s), mThread (turn (queue s)) with
    | Some Checking, Some (Working task) => Some (Took task, s <| queue ::= turn |>)
    | Some Checking, _ => Some (Quiet, s <| queue ::= turn |>)
    | _, _ => None
    end
  | DoReturn => match mThread (queue s) with Some (Working _) => Some (Finished, s <| queue ::= taskDone |>) | _ => None end
  end.
Fixpoint acts (tr : list Label) (l : list Act) (s : System) : option (list Label * System) :=
  match l with
  | [] => Some (tr, s)
  | a :: l => '(lab, s) ← act a s; acts (tr ++ [lab]) l s
  end.

Lemma act_step a s l s' : act a s = Some (l, s') -> step l s s'.
Proof.
  destruct a; cbn -[turn]; intros H; repeat case_match; simplify_option_eq; try done; try (by econstructor); try (by constructor; congruence).
  apply st_stop; [done|]. unfold stopRunning. congruence.
Qed.
Lemma acts_steps tr0 tr l s0 s s' : steps tr0 s0 s -> acts tr0 l s = Some (tr, s') -> steps tr s0 s'.
Proof.
  revert tr0 s. induction l as [|a l IH]; intros tr0 s H0 H; cbn in H; [by injection H as <- <-|].
  destruct (act a s) as [[lab s1]|] eqn:Ea; [|done]. cbn in H. eapply IH; [|done]. econstructor; [done|by eapply act_step].
Qed.
End Queue.
Arguments Worker : clear implicits.
Arguments TaskQueue : clear implicits.
Arguments System : clear implicits.
Arguments Label : clear implicits.
Arguments Act : clear implicits.

(** One task, and the end: the worker sleeps, is woken by the post, and by the drain. *)
Module Example.
Definition opening : list (Act nat) := [DoStart; DoTurn; DoPost 7%nat; DoNotifyOne; DoTurn; DoReturn; DoPost 8%nat].
Definition ending : list (Act nat) := [DoDrain; DoPost 9%nat; DoNotifyAll; DoTurn; DoReturn; DoTurn; DoReturn; DoTurn; DoJoin].
Definition after (l : list (Act nat)) : list (Label nat) * System nat := default ([], newSystem) (acts [] l newSystem).

Lemma after_steps l : is_Some (acts [] l newSystem) -> steps (after l).1 newSystem (after l).2.
Proof.
  intros [[tr s] E]. unfold after. rewrite E. cbn. eapply acts_steps; [constructor|exact E].
Qed.

Lemma tasks_in_order_witness :
  taken (after (opening ++ ending)).1 = [7; 8; 9]%nat /\
  taken (after (opening ++ ending)).1 ++ mQueue (queue (after (opening ++ ending)).2) = posted (after (opening ++ ending)).1.
Proof.
  split; [by vm_compute|]. apply (tasks_in_order _ (after (opening ++ ending)).2).
  - apply after_steps. vm_compute. by eexists.
  - vm_compute. intros H. by repeat apply elem_of_cons in H as [H|H]; try done; apply elem_of_nil in H.
Defined.

Lemma drain_complete_witness : exists tr1 tr2 (s : System nat), posted tr1 = [7; 8]%nat /\
  posted tr1 `prefix_of` taken (tr1 ++ tr2) /\ mThread (queue s) = None /\ mRunning (queue s) = false.
Proof.
  exists [Started; Quiet; Posted 7%nat; Quiet; Took 7%nat; Finished; Posted 8%nat],
    [Posted 9%nat; Quiet; Took 8%nat; Finished; Took 9%nat; Finished; Quiet], (after (opening ++ ending)).2.
  split; [done|]. apply drain_complete.
  - refine (eq_rect _ (fun tr => steps tr _ _) (after_steps (opening ++ ending) _) _ _); [vm_compute; by eexists|by vm_compute].
  - rewrite !elem_of_cons, elem_of_nil. intuition discriminate.
  - rewrite !elem_of_cons, elem_of_nil. intuition discriminate.
Defined.

Lemma tasks_are_reached_witness : mThread (queue (after (take 3 opening)).2) = Some Sleeping /\
  exists l s', step l (after (take 3 opening)).2 s' /\ due l = true.
Proof.
  split; [by vm_compute|]. apply (tasks_are_reached (after (take 3 opening)).1); [|by vm_compute..].
  apply after_steps. vm_compute. by eexists.
Defined.

Lemma stop_returns_witness : stepsLeft (after (opening ++ take 3 ending)).2 = 8%nat /\
  (0 < stepsLeft (after (opening ++ take 3 ending)).2)%nat /\
  exists l s', step l (after (opening ++ take 3 ending)).2 s' /\ due l = true.
Proof.
  split; [by vm_compute|]. apply (stop_returns (after (opening ++ take 3 ending)).1 _ [] _).
  - apply after_steps. vm_compute. by eexists.
  - by vm_compute.
  - constructor.
  - apply not_elem_of_nil.
  - constructor.
Defined.
End Example.
End Tasks.
