(* ===== verification/NetworkInformation.v ===== *)
(** * Network adapters

    [Network/NetworkInformation.h]: what is known of an adapter of this machine.  A string is
    its bytes. *)
From Stdlib Require Import Strings.String.
From S2P Require Import Prelude Text IPv4Address.
From stdpp Require Import list.
#[local] Open Scope Z_scope.

(** A string literal. *)
Definition lit (s : string) : text := list_byte_of_string s.

Inductive AdapterTypes := Ethernet | WiFi | Loopback | Virtual | OtherType.
#[export] Instance AdapterTypes_eq_dec : EqDecision AdapterTypes.
Proof. solve_decision. Defined.

(** [NoPriority] is the value 0 a default-initialized adapter has, which no enumerator names. *)
Inductive AdapterPriorityInternal := NoPriority | SuppressedInternal | AvailableInternal | PreferredInternal.
#[export] Instance AdapterPriorityInternal_eq_dec : EqDecision AdapterPriorityInternal.
Proof. solve_decision. Defined.

Record NetworkAdapterInternal := mkAdapter {
  AdapterName : text;
  NetworkName : text;
  IPv4 : text;
  Subnet : text;
  ID : Z;
  IsDefaultRoute : bool;
  Eligible : bool;
  Type_ : AdapterTypes;
  Priority : AdapterPriorityInternal;
}.
#[export] Instance NetworkAdapterInternal_eq_dec : EqDecision NetworkAdapterInternal.
Proof. solve_decision. Defined.
Definition noAdapter : NetworkAdapterInternal := mkAdapter [] [] [] [] 0 false false OtherType NoPriority.

Definition filterSubnetMask (subnet : text) : bool :=
  match parse subnet with Some mask => isNetmask mask | None => false end.
Definition newAdapter (adapterName networkName ipv4 subnet : text) (id : Z) (isDefaultRoute : bool) (type : AdapterTypes)
    (priority : AdapterPriorityInternal) : NetworkAdapterInternal :=
  mkAdapter adapterName networkName ipv4 subnet id isDefaultRoute (filterSubnetMask subnet) type priority.

(** [operator==] *)
Definition sameAdapter (a b : NetworkAdapterInternal) : bool :=
  bool_decide (AdapterName a = AdapterName b) && bool_decide (Subnet a = Subnet b).
Definition isValid (a : NetworkAdapterInternal) : bool :=
  negb (bool_decide (AdapterName a = [])) && negb (bool_decide (IPv4 a = [])) && negb (ID a =? 0).

Definition mixByte (hash byte : Z) : Z := u64 (Z.lxor hash byte * 0x100000001B3).
Definition keyBytes (interfaceKey : Z) : list Z := map (fun i => u8 (Z.shiftr interfaceKey (8 * i))) (seqZ 0 8).
Definition makeAdapterId (interfaceKey : Z) (ipv4 : text) : Z :=
  let hash := fold_left mixByte (keyBytes interfaceKey ++ map byteZ ipv4) 0xCBF29CE484222325 in
  if negb (hash =? 0) then hash else 1.

Definition networkNameOf (type : AdapterTypes) (ipv4 : text) : text :=
  match type with
  | WiFi => lit "WiFi (" ++ ipv4 ++ lit ")"
  | Ethernet => lit "Ethernet (" ++ ipv4 ++ lit ")"
  | _ => []
  end.

(** An address of the operating system: what [inet_ntop] prints of an IPv4 address is its
    dotted quad; an IPv6 address is what is printed of it. *)
Inductive Sockaddr := Inet4 (a : IPv4Address) | Inet6 (printed : text) | OtherFamily.
Definition sockaddrToString (sa : Sockaddr) : text :=
  match sa with Inet4 a => ipToString a | Inet6 printed => printed | OtherFamily => [] end.

Definition isInet4 (o : option Sockaddr) : bool := match o with Some (Inet4 _) => true | _ => false end.

(** ** What the backends make of an address *)
Lemma makeAdapterId_range key address : 1 <= makeAdapterId key address < 2 ^ 64.
Proof.
  unfold makeAdapterId. set (bytes := keyBytes key ++ _).
  assert (Hr : forall h, is_uint 64 h -> is_uint 64 (fold_left mixByte bytes h)).
  { generalize bytes. intros l. induction l as [|b l IH]; intros h Hh; [done|]. cbn. apply IH. by apply wrap_bounds. }
  specialize (Hr 0xCBF29CE484222325 ltac:(split; [done|reflexivity])). unfold is_uint in Hr.
  destruct (Z.eqb_spec (fold_left mixByte bytes 0xCBF29CE484222325) 0); cbn [negb]; lia.
Qed.
Lemma ipToString_ne a : ipToString a <> [].
Proof. unfold ipToString. by destruct (decimal (octet a 24)). Qed.

(** An adapter with an address of its own is valid if it has a name. *)
Lemma newAdapter_valid name network a mask key route type priority :
  isValid (newAdapter name network (ipToString a) mask (makeAdapterId key (ipToString a)) route type priority) = true <-> name <> [].
Proof.
  unfold isValid. cbn. rewrite (bool_decide_false _ (ipToString_ne a)). pose proof (makeAdapterId_range key (ipToString a)).
  destruct (Z.eqb_spec (makeAdapterId key (ipToString a)) 0); [lia|]. rewrite !andb_true_r. destruct (bool_decide_reflect (name = [])); cbn; intuition congruence.
Qed.

(** One step of a loop that appends. *)
Lemma fold_appends {A B} (f : list B -> A -> list B) (g : A -> list B) l : (forall acc x, f acc x = acc ++ g x) ->
  forall acc, fold_left f l acc = acc ++ concat (map g l).
Proof.
  intros Hf. induction l as [|x l IH]; intros acc; cbn; [by rewrite app_nil_r|]. by rewrite IH, Hf, app_assoc.
Qed.

Lemma eligible_iff subnet : filterSubnetMask subnet = true <-> exists mask, parse subnet = Some mask /\ isNetmask mask = true.
Proof.
  unfold filterSubnetMask. destruct (parse subnet) as [m|]; split; [by intros H; exists m|by intros (? & [= <-] & ?)|done|by intros (? & ? & _)].
Qed.
