(* ===== verification/LinuxAdapters.v ===== *)
(** * The adapters of a Linux machine

    [Network/NetworkInformationLinux.cpp].  What the operating system answers is a parameter:
    the record [Machine]. *)
From Stdlib Require Import Strings.String.
From S2P Require Import Prelude Text IPv4Address NetworkInformation.
From stdpp Require Import list.
#[local] Open Scope Z_scope.

Module Linux.

Definition IFF_UP : Z := 0x1.
Definition IFF_LOOPBACK : Z := 0x8.
Definition IFF_RUNNING : Z := 0x40.
Definition hasFlag (flags flag : Z) : bool := negb (Z.land flags flag =? 0).

(** One entry of [getifaddrs]; null pointers are [None]. *)
Record Ifaddr := mkIfaddr { ifa_name : option text; ifa_addr : option Sockaddr; ifa_netmask : option Sockaddr; ifa_flags : Z }.

(** [getifaddrs] may fail; [routeLines] are the lines of /proc/net/route, if it can be opened. *)
Record Machine := mkMachine {
  getifaddrs : option (list Ifaddr);
  fileExists : text -> bool;
  routeLines : option (list text);
  if_nametoindex : text -> Z;
}.

Section Backend.
Context (os : Machine).

Definition isWirelessInterface (ifName : text) : bool := fileExists os (lit "/sys/class/net/" ++ ifName ++ lit "/wireless").

Definition filterAdapterType (ifName : text) (flags : Z) : AdapterTypes :=
  if hasFlag flags IFF_LOOPBACK then Loopback
  else if isWirelessInterface ifName then WiFi
  else if negb (fileExists os (lit "/sys/class/net/" ++ ifName ++ lit "/device")) then Virtual
  else Ethernet.

Definition determinePriority (isDefaultRoute : bool) (type : AdapterTypes) (flags : Z) : AdapterPriorityInternal :=
  if bool_decide (type = Loopback) then SuppressedInternal
  else if negb (hasFlag flags IFF_UP) || negb (hasFlag flags IFF_RUNNING) then AvailableInternal
  else if negb isDefaultRoute then AvailableInternal
  else if negb (bool_decide (type = Ethernet)) && negb (bool_decide (type = WiFi)) then AvailableInternal
  else PreferredInternal.

(** [operator>>] into a string: the next word, and what follows it. *)
Definition isSpace (c : byte) : bool := (byteZ c =? 32) || (9 <=? byteZ c) && (byteZ c <=? 13).
Fixpoint skipSpace (l : text) : text :=
  match l with c :: l' => if isSpace c then skipSpace l' else l | [] => [] end.
Fixpoint spanWord (l : text) : text * text :=
  match l with
  | c :: l' => if isSpace c then ([], l) else let '(w, rest) := spanWord l' in (c :: w, rest)
  | [] => ([], [])
  end.
Definition extract (l : text) : option (text * text) :=
  let '(w, rest) := spanWord (skipSpace l) in if bool_decide (w = []) then None else Some (w, rest).

(** [strtoul] with base 16: a sign, 0x and digits, all of them optional. *)
Definition hexDigit (c : byte) : option Z :=
  let z := byteZ c in
  if (48 <=? z) && (z <=? 57) then Some (z - 48)
  else if (65 <=? z) && (z <=? 70) then Some (z - 55)
  else if (97 <=? z) && (z <=? 102) then Some (z - 87) else None.
Fixpoint hexValue (v : Z) (l : text) : Z :=
  match l with
  | c :: l => match hexDigit c with Some d => hexValue (v * 16 + d) l | None => v end
  | [] => v
  end.
Definition afterPrefix (l : text) : text :=
  match l with
  | z :: x :: d :: rest =>
    if (byteZ z =? 48) && ((byteZ x =? 120) || (byteZ x =? 88)) && bool_decide (is_Some (hexDigit d)) then d :: rest else l
  | _ => l
  end.
Definition saturate (v : Z) : Z := if v <? 2 ^ 64 then v else 2 ^ 64 - 1.
Definition strtoul16 (l : text) : Z :=
  match l with
  | s :: rest =>
    if byteZ s =? 45 then
      let v := hexValue 0 (afterPrefix rest) in if v <? 2 ^ 64 then u64 (- v) else 2 ^ 64 - 1
    else saturate (hexValue 0 (afterPrefix (if byteZ s =? 43 then rest else l)))
  | [] => 0
  end.

(** The interface a line of the routing table names, if it is a default route. *)
Definition defaultInterface (line : text) : option text :=
  '(iface, rest) ← extract line; '(destination, rest) ← extract rest; '(gateway, rest) ← extract rest;
  '(flagsHex, _) ← extract rest;
  if negb (bool_decide (destination = lit "00000000")) then None
  else if Z.land (strtoul16 flagsHex) 0x2 =? 0 then None else Some iface.
Definition getDefaultInterfaces : option (list text) :=
  lines ← routeLines os; Some (omap defaultInterface (tail lines)).

Definition saveAdapter (defaultRouteIfNames : list text) (adapters : list NetworkAdapterInternal) (ifa : Ifaddr) :
    list NetworkAdapterInternal :=
  match ifa_addr ifa with
  | Some (Inet4 a) =>
    let adapterName := default [] (ifa_name ifa) in
    let addressString := sockaddrToString (Inet4 a) in
    let subnetMaskString := match ifa_netmask ifa with Some mask => sockaddrToString mask | None => [] end in
    let type := filterAdapterType adapterName (ifa_flags ifa) in
    let networkName := networkNameOf type addressString in
    let isDefaultRoute := bool_decide (adapterName ∈ defaultRouteIfNames) in
    let visibility := determinePriority isDefaultRoute type (ifa_flags ifa) in
    adapters ++ [newAdapter adapterName networkName addressString subnetMaskString
                   (makeAdapterId (if_nametoindex os adapterName) addressString) isDefaultRoute type visibility]
  | _ => adapters
  end.

(** [processAdapter] on the list that [getNetworkInformationFromOS] keeps. *)
Definition processAdapter (addrList : list Ifaddr) : list NetworkAdapterInternal :=
  let defaultRouteIfNames := default [] getDefaultInterfaces in
  fold_left (saveAdapter defaultRouteIfNames) addrList [].

(** [init] and, unless it fails, [processAdapter]. *)
Definition scan : option (list NetworkAdapterInternal) := addrList ← getifaddrs os; Some (processAdapter addrList).
End Backend.
End Linux.

(** ** What is found *)

(** What a Linux machine says of an interface, and what the adapter says. *)
Record linux_describes (os : Linux.Machine) (ifa : Linux.Ifaddr) (a : NetworkAdapterInternal) : Prop := {
  ld_name : AdapterName a = default [] (Linux.ifa_name ifa);
  ld_address : exists address, Linux.ifa_addr ifa = Some (Inet4 address) /\ IPv4 a = ipToString address;
  ld_valid : isValid a = true <-> AdapterName a <> [];
  ld_id : 1 <= ID a < 2 ^ 64;
  ld_eligible : Eligible a = true <-> exists mask, parse (Subnet a) = Some mask /\ isNetmask mask = true;
  ld_suppressed : Priority a = SuppressedInternal <-> Linux.hasFlag (Linux.ifa_flags ifa) Linux.IFF_LOOPBACK = true;
  ld_preferred : Priority a = PreferredInternal <->
    Linux.hasFlag (Linux.ifa_flags ifa) Linux.IFF_LOOPBACK = false /\
    Linux.hasFlag (Linux.ifa_flags ifa) Linux.IFF_UP = true /\ Linux.hasFlag (Linux.ifa_flags ifa) Linux.IFF_RUNNING = true /\
    (exists lines line, Linux.routeLines os = Some lines /\ line ∈ tail lines /\ Linux.defaultInterface line = Some (AdapterName a)) /\
    (Linux.isWirelessInterface os (AdapterName a) = true \/
     Linux.fileExists os (lit "/sys/class/net/" ++ AdapterName a ++ lit "/device") = true);
}.

Lemma default_route os name : bool_decide (name ∈ default [] (Linux.getDefaultInterfaces os)) = true <->
  exists lines line, Linux.routeLines os = Some lines /\ line ∈ tail lines /\ Linux.defaultInterface line = Some name.
Proof.
  rewrite bool_decide_eq_true. unfold Linux.getDefaultInterfaces. destruct (Linux.routeLines os) as [lines|]; cbn.
  - rewrite list_elem_of_omap. split; [intros (line & H1 & H2); by exists lines, line|intros (? & line & [= <-] & H1 & H2); by exists line].
  - split; [by intros ?%elem_of_nil|by intros (? & ? & ? & _)].
Qed.

Lemma linux_one os ifa address : Linux.ifa_addr ifa = Some (Inet4 address) ->
  exists a, Linux.saveAdapter os (default [] (Linux.getDefaultInterfaces os)) [] ifa = [a] /\ linux_describes os ifa a.
Proof.
  intros Ha. unfold Linux.saveAdapter. rewrite Ha. eexists. split; [done|]. set (name := default [] (Linux.ifa_name ifa)).
  split; cbn [AdapterName IPv4 ID Eligible Priority Subnet newAdapter].
  - done.
  - by exists address.
  - apply newAdapter_valid.
  - apply makeAdapterId_range.
  - apply eligible_iff.
  - unfold Linux.determinePriority, Linux.filterAdapterType. destruct (Linux.hasFlag _ Linux.IFF_LOOPBACK) eqn:El; [done|].
    rewrite bool_decide_false by (by destruct (Linux.isWirelessInterface os name), (Linux.fileExists os (lit "/sys/class/net/" ++ name ++ lit "/device"))). by repeat case_match.
  - rewrite <- default_route. unfold Linux.determinePriority, Linux.filterAdapterType. fold name.
    destruct (Linux.hasFlag _ Linux.IFF_LOOPBACK); [rewrite bool_decide_true by done; split; [done|by intros [? _]]|].
    destruct (Linux.hasFlag _ Linux.IFF_UP), (Linux.hasFlag _ Linux.IFF_RUNNING), (bool_decide (name ∈ _)),
      (Linux.isWirelessInterface os name), (Linux.fileExists os (lit "/sys/class/net/" ++ name ++ lit "/device")); vm_compute; intuition congruence.
Qed.

Lemma linux_save os routes acc ifa : Linux.saveAdapter os routes acc ifa = acc ++ Linux.saveAdapter os routes [] ifa.
Proof. unfold Linux.saveAdapter. destruct (Linux.ifa_addr ifa) as [[]|]; by rewrite ?app_nil_r. Qed.

(** What a Linux machine has is what is found.  Unless the list of interfaces cannot be
    had, every IPv4 address of the machine becomes one adapter, in the order of the list,
    and nothing else does.  The adapter is valid if the interface has a name, its ID is a
    64-bit number other than 0; it is suppressed exactly if the interface is a loopback, and
    preferred exactly if it is up and running, a default route leads over it, and it is
    wireless or has a device. *)
Theorem linux_scan_spec os ifas : Linux.getifaddrs os = Some ifas ->
  exists l, Linux.scan os = Some l /\ Forall2 (linux_describes os) (filter (fun ifa => isInet4 (Linux.ifa_addr ifa) = true) ifas) l.
Proof.
  intros H. unfold Linux.scan. rewrite H. eexists. split; [done|]. unfold Linux.processAdapter. set (routes := default [] _).
  rewrite (fold_appends _ (Linux.saveAdapter os routes [])) by apply linux_save. cbn [app]. clear H.
  induction ifas as [|ifa ifas IH]; [constructor|]. cbn [map concat]. rewrite filter_cons. case_decide as Hd.
  - destruct (Linux.ifa_addr ifa) as [[a| |]|] eqn:Ea; try done. destruct (linux_one os ifa a Ea) as (ad & E & Hl).
    fold routes in E. rewrite E. by constructor.
  - assert (E : Linux.saveAdapter os routes [] ifa = []) by (unfold Linux.saveAdapter; by destruct (Linux.ifa_addr ifa) as [[]|]).
    by rewrite E.
Qed.
