(* ===== verification/WindowsAdapters.v ===== *)
(** * The adapters of a Windows machine

    [Network/NetworkInformationWindows.cpp].  What the operating system answers is a parameter:
    the record [Machine]. *)
From Stdlib Require Import Strings.String.
From S2P Require Import Prelude Text IPv4Address NetworkInformation.
From stdpp Require Import list.
#[local] Open Scope Z_scope.

Module Windows.

Definition NO_ERROR : Z := 0.
Definition ERROR_ACCESS_DENIED : Z := 5.
Definition ERROR_BUFFER_OVERFLOW : Z := 111.
Definition IF_TYPE_ETHERNET_CSMACD : Z := 6.
Definition IF_TYPE_SOFTWARE_LOOPBACK : Z := 24.
Definition IF_TYPE_PROP_VIRTUAL : Z := 53.
Definition IF_TYPE_IEEE80211 : Z := 71.
Definition IfOperStatusUp : Z := 1.

(** The lists of [GetAdaptersAddresses]; [Description] is converted to bytes. *)
Record Unicast := mkUnicast { lpSockaddr : Sockaddr; OnLinkPrefixLength : Z }.
Record AdapterAddresses := mkAddresses {
  Description : text;
  unicasts : list Unicast;
  IfType : Z;
  Luid : Z;
  Flags : Z;
  OperStatus : Z;
}.
Record Route := mkRoute { PrefixLength : Z; InterfaceLuid : Z }.

(** [sizeResult] is what the first call of [GetAdaptersAddresses] returns, [addresses] what
    the second one fills in; [forwardTable] is the routing table. *)
Record Machine := mkMachine {
  winsockStarts : bool;
  sizeResult : Z;
  allocated : bool;
  addresses : option (list AdapterAddresses);
  forwardTable : option (list Route);
}.

Definition prefixLengthToSubnetMask (family : Sockaddr) (prefixLength : Z) : text :=
  match family with
  | Inet4 _ =>
    if prefixLength <=? 32
    then ipToString (mkIPv4 (if prefixLength =? 0 then 0 else u32 (Z.shiftl 0xFFFFFFFF (32 - prefixLength))))
    else []
  | Inet6 _ => if prefixLength <=? 128 then decimal prefixLength else []
  | OtherFamily => []
  end.

Definition filterAdapterType (Type_ : Z) : AdapterTypes :=
  if Type_ =? IF_TYPE_ETHERNET_CSMACD then Ethernet
  else if Type_ =? IF_TYPE_IEEE80211 then WiFi
  else if Type_ =? IF_TYPE_SOFTWARE_LOOPBACK then Loopback
  else if Type_ =? IF_TYPE_PROP_VIRTUAL then Virtual
  else OtherType.

Definition determinePriority (isDefaultRoute IPv4Enabled : bool) (type : AdapterTypes) (status : Z) : AdapterPriorityInternal :=
  if bool_decide (type = Loopback) then SuppressedInternal
  else if negb (status =? IfOperStatusUp) then AvailableInternal
  else if negb isDefaultRoute || negb IPv4Enabled then AvailableInternal
  else if negb (bool_decide (type = Ethernet)) && negb (bool_decide (type = WiFi)) then AvailableInternal
  else PreferredInternal.

Section Backend.
Context (os : Machine).

Definition getDefaultInterfaces : option (list Z) :=
  match forwardTable os with
  | Some table => Some (omap (fun r => if PrefixLength r =? 0 then Some (InterfaceLuid r) else None) table)
  | None => None
  end.

Definition saveUnicast (defaultRouteLuidValues : list Z) (adapter : AdapterAddresses) (adapters : list NetworkAdapterInternal)
    (unicast : Unicast) : list NetworkAdapterInternal :=
  match lpSockaddr unicast with
  | Inet4 a =>
    let addressString := sockaddrToString (Inet4 a) in
    let subnetMaskString := prefixLengthToSubnetMask (Inet4 a) (OnLinkPrefixLength unicast) in
    let type := filterAdapterType (IfType adapter) in
    let networkName := networkNameOf type addressString in
    let isDefaultRoute := bool_decide (Luid adapter ∈ defaultRouteLuidValues) in
    let ipv4Enabled := negb (Z.land (Flags adapter) 0x80 =? 0) in
    let visibility := determinePriority isDefaultRoute ipv4Enabled type (OperStatus adapter) in
    adapters ++ [newAdapter (Description adapter) networkName addressString subnetMaskString
                   (makeAdapterId (Luid adapter) addressString) isDefaultRoute type visibility]
  | _ => adapters
  end.
Definition saveAdapter (defaultRouteLuidValues : list Z) (adapters : list NetworkAdapterInternal) (adapter : AdapterAddresses) :
    list NetworkAdapterInternal :=
  fold_left (saveUnicast defaultRouteLuidValues adapter) (unicasts adapter) adapters.

Definition getNetworkInformationFromOS : option (list AdapterAddresses) :=
  if negb (sizeResult os =? ERROR_ACCESS_DENIED) && negb (sizeResult os =? ERROR_BUFFER_OVERFLOW) then None
  else if negb (allocated os) then None else addresses os.

Definition processAdapter (nodes : list AdapterAddresses) : list NetworkAdapterInternal :=
  let defaultRouteLuidValues := default [] getDefaultInterfaces in
  fold_left (saveAdapter defaultRouteLuidValues) nodes [].

Definition scan : option (list NetworkAdapterInternal) :=
  if negb (winsockStarts os) then None
  else match getNetworkInformationFromOS with Some nodes => Some (processAdapter nodes) | None => None end.
End Backend.
End Windows.

(** ** What is found *)
Lemma prefix_mask p : 0 <= p <= 32 -> (if p =? 0 then 0 else u32 (Z.shiftl 0xFFFFFFFF (32 - p))) = maskOf p.
Proof.
  intros Hp. assert (p = 0 \/ p ∈ seqZ 1 32) as [->|Hin] by (rewrite elem_of_seqZ; lia); [done|].
  assert (Hall : forallb (fun p => (if p =? 0 then 0 else u32 (Z.shiftl 0xFFFFFFFF (32 - p))) =? maskOf p) (seqZ 1 32) = true) by reflexivity.
  rewrite forallb_forall in Hall. apply Z.eqb_eq, Hall. by apply list_elem_of_In.
Qed.

(** The mask of a prefix is printed as the netmask with that many ones, which is read back;
    it makes the adapter eligible unless the prefix is empty. *)
Lemma prefix_mask_reads address p : 0 <= p <= 32 ->
  parse (Windows.prefixLengthToSubnetMask (Inet4 address) p) = Some (mkIPv4 (maskOf p)) /\
  (filterSubnetMask (Windows.prefixLengthToSubnetMask (Inet4 address) p) = true <-> p <> 0).
Proof.
  intros Hp. unfold Windows.prefixLengthToSubnetMask. destruct (Z.leb_spec p 32); [|lia]. rewrite prefix_mask by done.
  assert (Hu : is_uint 32 (maskOf p)).
  { unfold is_uint, maskOf. pose proof (Z.pow_pos_nonneg 2 (32 - p) ltac:(lia) ltac:(lia)).
    pose proof (Z.pow_le_mono_r 2 (32 - p) 32 ltac:(lia) ltac:(lia)). lia. }
  rewrite parse_complete by done. split; [done|]. unfold filterSubnetMask. rewrite parse_complete by done.
  rewrite isNetmask_spec by done. cbn [ipValue]. split.
  - intros (k & Hk & E) ->. unfold maskOf in E. pose proof (Z.pow_lt_mono_r 2 (32 - k) 32 ltac:(lia) ltac:(lia) ltac:(lia)).
    change (32 - 0) with 32 in E. lia.
  - intros Hne. exists p. split; [lia|done].
Qed.

(** What a Windows machine says of an address, and what the adapter says. *)
Record windows_describes (os : Windows.Machine) (node : Windows.AdapterAddresses) (u : Windows.Unicast) (a : NetworkAdapterInternal) : Prop := {
  wd_name : AdapterName a = Windows.Description node;
  wd_address : exists address, Windows.lpSockaddr u = Inet4 address /\ IPv4 a = ipToString address;
  wd_valid : isValid a = true <-> AdapterName a <> [];
  wd_id : 1 <= ID a < 2 ^ 64;
  wd_mask : 0 <= Windows.OnLinkPrefixLength u <= 32 ->
    parse (Subnet a) = Some (mkIPv4 (maskOf (Windows.OnLinkPrefixLength u))) /\ (Eligible a = true <-> Windows.OnLinkPrefixLength u <> 0);
  wd_suppressed : Priority a = SuppressedInternal <-> Windows.IfType node = Windows.IF_TYPE_SOFTWARE_LOOPBACK;
  wd_preferred : Priority a = PreferredInternal <->
    (Windows.IfType node = Windows.IF_TYPE_ETHERNET_CSMACD \/ Windows.IfType node = Windows.IF_TYPE_IEEE80211) /\
    Windows.OperStatus node = Windows.IfOperStatusUp /\ Z.land (Windows.Flags node) 0x80 <> 0 /\
    exists table r, Windows.forwardTable os = Some table /\ r ∈ table /\ Windows.PrefixLength r = 0 /\ Windows.InterfaceLuid r = Windows.Luid node;
}.

Lemma default_luid os luid : bool_decide (luid ∈ default [] (Windows.getDefaultInterfaces os)) = true <->
  exists table r, Windows.forwardTable os = Some table /\ r ∈ table /\ Windows.PrefixLength r = 0 /\ Windows.InterfaceLuid r = luid.
Proof.
  rewrite bool_decide_eq_true. unfold Windows.getDefaultInterfaces. destruct (Windows.forwardTable os) as [table|]; cbn.
  - rewrite list_elem_of_omap. split.
    + intros (r & Hr & E). destruct (Z.eqb_spec (Windows.PrefixLength r) 0); [|done]. injection E as <-. by exists table, r.
    + intros (? & r & [= <-] & Hr & Hp & <-). exists r. split; [done|]. by rewrite Hp.
  - split; [by intros ?%elem_of_nil|by intros (? & ? & ? & _)].
Qed.

Lemma windows_one os node u address : Windows.lpSockaddr u = Inet4 address ->
  exists a, Windows.saveUnicast (default [] (Windows.getDefaultInterfaces os)) node [] u = [a] /\ windows_describes os node u a.
Proof.
  intros Ha. unfold Windows.saveUnicast. rewrite Ha. eexists. split; [done|].
  assert (Ht : Windows.filterAdapterType (Windows.IfType node) = Loopback <-> Windows.IfType node = Windows.IF_TYPE_SOFTWARE_LOOPBACK).
  { unfold Windows.filterAdapterType. destruct (Z.eqb_spec (Windows.IfType node) Windows.IF_TYPE_ETHERNET_CSMACD) as [->|]; [done|].
    destruct (Z.eqb_spec (Windows.IfType node) Windows.IF_TYPE_IEEE80211) as [->|]; [done|].
    destruct (Z.eqb_spec (Windows.IfType node) Windows.IF_TYPE_SOFTWARE_LOOPBACK) as [->|]; [done|]. destruct (_ =? _); intuition congruence. }
  assert (He : Windows.filterAdapterType (Windows.IfType node) = Ethernet \/ Windows.filterAdapterType (Windows.IfType node) = WiFi <->
    Windows.IfType node = Windows.IF_TYPE_ETHERNET_CSMACD \/ Windows.IfType node = Windows.IF_TYPE_IEEE80211).
  { unfold Windows.filterAdapterType. destruct (Z.eqb_spec (Windows.IfType node) Windows.IF_TYPE_ETHERNET_CSMACD) as [->|]; [by intuition|].
    destruct (Z.eqb_spec (Windows.IfType node) Windows.IF_TYPE_IEEE80211) as [->|]; [by intuition|]. repeat case_match; intuition congruence. }
  split; cbn [AdapterName IPv4 ID Eligible Priority Subnet newAdapter].
  - done.
  - by exists address.
  - apply newAdapter_valid.
  - apply makeAdapterId_range.
  - apply prefix_mask_reads.
  - unfold Windows.determinePriority. case_bool_decide as El; [by intuition|]. repeat case_match; intuition congruence.
  - rewrite <- default_luid, <- He. unfold Windows.determinePriority. case_bool_decide as El.
    { split; [done|]. intros [[E|E] _]; congruence. }
    destruct (Z.eqb_spec (Windows.OperStatus node) Windows.IfOperStatusUp); cbn [negb]; [|intuition congruence].
    destruct (bool_decide (_ ∈ _)); cbn [negb orb]; [|intuition congruence].
    destruct (Z.eqb_spec (Z.land (Windows.Flags node) 0x80) 0); cbn [negb]; [intuition congruence|].
    repeat case_bool_decide; cbn; intuition congruence.
Qed.

Lemma windows_save routes node acc u : Windows.saveUnicast routes node acc u = acc ++ Windows.saveUnicast routes node [] u.
Proof. unfold Windows.saveUnicast. destruct (Windows.lpSockaddr u); by rewrite ?app_nil_r. Qed.

(** C0: what a Windows machine has is what is found.  Every IPv4 address of every adapter
    becomes one adapter of the list, in order, and nothing else does.  Its mask is the
    netmask of the prefix and is read back as such, which makes it eligible unless the
    prefix is empty; it is suppressed exactly if it is a loopback, and preferred exactly if
    it is an Ethernet or wireless adapter that is up, has IPv4 enabled, and a default route
    leads over it. *)
Theorem windows_scan_spec os nodes : Windows.winsockStarts os = true -> Windows.getNetworkInformationFromOS os = Some nodes ->
  exists l, Windows.scan os = Some l /\
    Forall2 (fun nu => windows_describes os nu.1 nu.2)
      (filter (fun nu => isInet4 (Some (Windows.lpSockaddr nu.2)) = true) (concat (map (fun n => map (pair n) (Windows.unicasts n)) nodes))) l.
Proof.
  intros Hw H. unfold Windows.scan. rewrite Hw, H. eexists. split; [done|]. unfold Windows.processAdapter. set (routes := default [] _).
  assert (Hs : forall acc node, Windows.saveAdapter routes acc node = acc ++ concat (map (Windows.saveUnicast routes node []) (Windows.unicasts node))).
  { intros acc node. unfold Windows.saveAdapter. apply fold_appends, windows_save. }
  rewrite (fold_appends _ _ _ Hs). cbn [app]. clear H Hs.
  induction nodes as [|node nodes IH]; [constructor|]. cbn [map concat]. rewrite filter_app. apply Forall2_app; [|exact IH].
  induction (Windows.unicasts node) as [|u us IHu]; [constructor|]. cbn [map concat]. rewrite filter_cons. case_decide as Hd.
  - cbn in Hd. destruct (Windows.lpSockaddr u) as [a| |] eqn:Ea; try done. destruct (windows_one os node u a Ea) as (ad & E & Hl).
    fold routes in E. rewrite E. by constructor.
  - assert (E : Windows.saveUnicast routes node [] u = []) by (cbn in Hd; unfold Windows.saveUnicast; by destruct (Windows.lpSockaddr u)).
    by rewrite E.
Qed.
