(* ===== verification/MacAdapters.v ===== *)
(** * The adapters of a Mac

    [Network/NetworkInformationMac.mm].  What the operating system answers is a parameter: the
    record [Machine].  The list of [getifaddrs] is as on Linux; the routing table is a buffer
    of messages, which is read as [<net/route.h>] and [<sys/socket.h>] lay them out. *)
From Stdlib Require Import Strings.String.
From S2P Require Import Prelude Text ByteOrder IPv4Address NetworkInformation LinuxAdapters.
From stdpp Require Import list.
#[local] Open Scope Z_scope.

Module Mac.
Import Linux.

(** ** The platform *)
Definition IFM_NMASK : Z := 0xe0.
Definition IFM_ETHER : Z := 0x20.
Definition IFM_IEEE80211 : Z := 0x80.
Definition IFM_TYPE (media : Z) : Z := Z.land media IFM_NMASK.
Definition IFNAMSIZ : nat := 16.
Definition AF_INET : Z := 2.
Definition RTF_GATEWAY : Z := 0x2.
Definition RTAX_DST : Z := 0.
Definition RTAX_MAX : Z := 8.
Definition sizeof_long : Z := 8.

(** The members of [rt_msghdr] that are read, by their offsets: [rtm_msglen] at 0,
    [rtm_index] at 4, [rtm_flags] at 8, [rtm_addrs] at 12; of [sockaddr], [sa_len] at 0 and
    [sa_family] at 1; of [sockaddr_in], [sin_addr] at 4.  Integers are little-endian. *)
Definition sizeof_rt_msghdr : Z := 92.
Fixpoint readLE (n : nat) (buf : bytes) (at_ : Z) : option Z :=
  match n with
  | O => Some 0
  | S n => b ← readUint8 buf at_; rest ← readLE n buf (at_ + 1); Some (b + 256 * rest)
  end.

(** [socketOpens]: a socket to ask with can be had; [media] is what SIOCGIFMEDIA answers for a
    name, [routeSize] and [routeDump] are the two calls of [sysctl], the second with the size
    of the buffer, of which it fills the beginning. *)
Record Machine := mkMachine {
  getifaddrs : option (list Ifaddr);
  socketOpens : bool;
  media : text -> option Z;
  routeSize : option Z;
  routeDump : Z -> option bytes;
  if_nametoindex : text -> Z;
  if_indextoname : Z -> option text;
}.

Definition roundUpToWord (length : Z) : Z := if 0 <? length then 1 + Z.lor (length - 1) (sizeof_long - 1) else sizeof_long.
Definition present (addrs i : Z) : bool := negb (Z.land addrs (Z.shiftl 1 i) =? 0).

Section Backend.
Context (os : Machine).

Definition filterAdapterType (ifName : text) (flags : Z) : AdapterTypes :=
  if hasFlag flags IFF_LOOPBACK then Loopback
  else if negb (socketOpens os) then OtherType
  else
    match media os (take (IFNAMSIZ - 1) ifName) with
    | Some active => if IFM_TYPE active =? IFM_IEEE80211 then WiFi else if IFM_TYPE active =? IFM_ETHER then Ethernet else Virtual
    | None => Virtual
    end.

Definition determinePriority (isDefaultRoute : bool) (type : AdapterTypes) (flags : Z) : AdapterPriorityInternal :=
  if bool_decide (type = Loopback) then SuppressedInternal
  else if negb (hasFlag flags IFF_UP) || negb (hasFlag flags IFF_RUNNING) then AvailableInternal
  else if negb isDefaultRoute then AvailableInternal
  else if negb (bool_decide (type = Ethernet)) && negb (bool_decide (type = WiFi)) then AvailableInternal
  else PreferredInternal.

(** The addresses [which] of a message, which lie from [sa] on; [None] is a read outside the
    buffer. *)
Fixpoint readAddresses (buffer : bytes) (addrs : Z) (which : list Z) (sa : Z) (isDefault : bool) : option bool :=
  match which with
  | [] => Some isDefault
  | i :: which =>
    if negb (present addrs i) then readAddresses buffer addrs which sa isDefault
    else
      sa_len ← readUint8 buffer sa;
      let saLen := if negb (sa_len =? 0) then sa_len else sizeof_long in
      isDefault ← (if i =? RTAX_DST then
                     sa_family ← readUint8 buffer (sa + 1);
                     if sa_family =? AF_INET then
                       s_addr ← readLE 4 buffer (sa + 4);
                       Some (isDefault || (s_addr =? 0))
                     else Some isDefault
                   else Some isDefault);
      readAddresses buffer addrs which (sa + roundUpToWord saLen) isDefault
  end.

(** The messages from [next] on. *)
Fixpoint readMessages (fuel : nat) (buffer : bytes) (end_ next : Z) (ifNames : list text) : option (list text) :=
  match fuel with
  | O => None
  | S fuel =>
    if next + sizeof_rt_msghdr <=? end_ then
      rtm_msglen ← readLE 2 buffer next;
      if rtm_msglen =? 0 then Some ifNames
      else
        rtm_flags ← readLE 4 buffer (next + 8);
        ifNames ← (if hasFlag rtm_flags RTF_GATEWAY then
                     rtm_addrs ← readLE 4 buffer (next + 12);
                     isDefault ← readAddresses buffer rtm_addrs (seqZ 0 RTAX_MAX) (next + sizeof_rt_msghdr) false;
                     if isDefault : bool then
                       rtm_index ← readLE 2 buffer (next + 4);
                       Some (match if_indextoname os rtm_index with Some name => ifNames ++ [name] | None => ifNames end)
                     else Some ifNames
                   else Some ifNames);
        readMessages fuel buffer end_ (next + rtm_msglen) ifNames
    else Some ifNames
  end.

(** The names, or [Some None] if the table cannot be had.  Every message is at least a byte. *)
Definition getDefaultInterfaces : option (option (list text)) :=
  match routeSize os with
  | None => Some None
  | Some needed =>
    match routeDump os needed with
    | None => Some None
    | Some filled =>
      let buffer := blit (replicate (Z.to_nat needed) Byte.x00) 0 filled in
      names ← readMessages (S (length filled)) buffer (zlen filled) 0 []; Some (Some names)
    end
  end.

Definition saveAdapter (defaultRouteIfNames : list text) (adapters : list NetworkAdapterInternal) (ifa : Ifaddr) :
    list NetworkAdapterInternal :=
  match ifa_addr ifa with
  | Some (Inet4 a) =>
    let adapterName := default [] (ifa_name ifa) in
    let addressString := sockaddrToString (Inet4 a) in
    let subnetMaskString := match ifa_netmask ifa with Some mask => sockaddrToString mask | None => [] end in
    let type := filterAdapterType adapterName (ifa_flags ifa) in
    let networkName := networkNameOf type addressString in
    let isDefaultRoute := bool_decide (adapterName ∈ defaultRouteIfNames) in
    let visibility := determinePriority isDefaultRoute type (ifa_flags ifa) in
    adapters ++ [newAdapter adapterName networkName addressString subnetMaskString
                   (makeAdapterId (if_nametoindex os adapterName) addressString) isDefaultRoute type visibility]
  | _ => adapters
  end.

Definition processAdapter (addrList : list Ifaddr) : option (list NetworkAdapterInternal) :=
  names ← getDefaultInterfaces; Some (fold_left (saveAdapter (default [] names)) addrList []).

(** [init] and, unless it fails, [processAdapter]. *)
Definition scan : option (option (list NetworkAdapterInternal)) :=
  match getifaddrs os with Some addrList => Some <$> processAdapter addrList | None => Some None end.
End Backend.
End Mac.

(** ** The routing table

    What the system writes: a message is a header and the addresses its mask names, each
    padded to words. *)
Fixpoint writeLE (n : nat) (v : Z) : bytes := match n with O => [] | S n => toByte v :: writeLE n (v / 256) end.
Record MacRoute := mkMacRoute {
  mrKind : bytes; mrIndex : Z; mrPadding : bytes; mrFlags : Z; mrMask : Z; mrOther : bytes; mrAddresses : list bytes }.
Definition macHeader (size : Z) (r : MacRoute) : bytes :=
  writeLE 2 size ++ mrKind r ++ writeLE 2 (mrIndex r) ++ mrPadding r ++ writeLE 4 (mrFlags r) ++ writeLE 4 (mrMask r) ++ mrOther r.
Definition macRouteSize (r : MacRoute) : Z := Mac.sizeof_rt_msghdr + zlen (concat (mrAddresses r)).
Definition encodeMacRoute (r : MacRoute) : bytes := macHeader (macRouteSize r) r ++ concat (mrAddresses r).

(** An address with its length in front, or a zero for one of a word, padded to words. *)
Definition mac_address_ok (a : bytes) : Prop :=
  exists len rest, a = len :: rest /\ zlen a = Mac.roundUpToWord (if byteZ len =? 0 then Mac.sizeof_long else byteZ len).
Definition macPresent (r : MacRoute) : list Z := filter (fun i => Mac.present (mrMask r) i = true) (seqZ 0 Mac.RTAX_MAX).
Record mac_route_ok (r : MacRoute) : Prop := {
  mr_kind : zlen (mrKind r) = 2;
  mr_index : is_uint 16 (mrIndex r);
  mr_padding : zlen (mrPadding r) = 2;
  mr_flags : is_uint 32 (mrFlags r);
  mr_mask : is_uint 32 (mrMask r);
  mr_other : zlen (mrOther r) = 76;
  mr_addresses : length (mrAddresses r) = length (macPresent r) /\ Forall mac_address_ok (mrAddresses r);
  mr_size : is_uint 16 (macRouteSize r);
}.

(** A route over a gateway whose destination is 0.0.0.0. *)
Definition macAny (a : bytes) : bool := match a with _ :: family :: _ :: _ :: rest => (byteZ family =? Mac.AF_INET) && bool_decide (take 4 rest = replicate 4 Byte.x00) | _ => false end.
Definition macIsDefault (r : MacRoute) : bool :=
  Linux.hasFlag (mrFlags r) Mac.RTF_GATEWAY && Mac.present (mrMask r) Mac.RTAX_DST && match mrAddresses r with a :: _ => macAny a | [] => false end.

(** *** Reading what was written *)
Lemma readLE_shift n : forall pre l i, 0 <= i -> Mac.readLE n (pre ++ l) (zlen pre + i) = Mac.readLE n l i.
Proof.
  induction n as [|n IH]; [done|]. intros pre l i Hi. cbn. rewrite readUint8_shift by lia. destruct (readUint8 l i); [|done]. cbn.
  rewrite <- Z.add_assoc, IH by lia. done.
Qed.
Lemma readLE_written n : forall v post, 0 <= v < 256 ^ Z.of_nat n -> Mac.readLE n (writeLE n v ++ post) 0 = Some v.
Proof.
  induction n as [|n IH]; intros v post Hv; [cbn in *; f_equal; lia|]. cbn [writeLE Mac.readLE app].
  change (readUint8 (toByte v :: writeLE n (v / 256) ++ post) 0) with (Some (byteZ (toByte v))). cbn [mbind option_bind].
  pose proof (readLE_shift n [toByte v] (writeLE n (v / 256) ++ post) 0 ltac:(lia)) as H. change (zlen [toByte v] + 0) with (0 + 1) in H.
  cbn [app] in H. rewrite H, IH; cbn; [|].
  - f_equal. rewrite byteZ_toByte. unfold wrap. change (2 ^ 8) with 256. pose proof (Z.div_mod v 256). lia.
  - rewrite Nat2Z.inj_succ, Z.pow_succ_r in Hv by lia. split; [apply Z.div_pos; lia|apply Z.div_lt_upper_bound; lia].
Qed.
Lemma readLE_at n pre v post i : i = zlen pre -> 0 <= v < 256 ^ Z.of_nat n -> Mac.readLE n (pre ++ writeLE n v ++ post) i = Some v.
Proof. intros -> Hv. rewrite <- (Z.add_0_r (zlen pre)), readLE_shift by lia. by apply readLE_written. Qed.
Lemma zlen_writeLE n v : zlen (writeLE n v) = Z.of_nat n.
Proof. revert v. induction n as [|n IH]; intros v; [done|]. cbn [writeLE]. rewrite zlen_cons, IH. lia. Qed.
#[local] Hint Rewrite zlen_writeLE : zlen.

Lemma zlen_macHeader size r : mac_route_ok r -> zlen (macHeader size r) = Mac.sizeof_rt_msghdr.
Proof. intros [H1 _ H3 _ _ H6 _ _]. unfold macHeader, Mac.sizeof_rt_msghdr. autorewrite with zlen. lia. Qed.
Lemma zlen_encodeMacRoute r : mac_route_ok r -> zlen (encodeMacRoute r) = macRouteSize r.
Proof. intros H. unfold encodeMacRoute, macRouteSize. rewrite zlen_app, zlen_macHeader by done. lia. Qed.

(** The members of a header that is followed by [post]. *)
Lemma macHeader_reads size r post : mac_route_ok r -> is_uint 16 size ->
  Mac.readLE 2 (macHeader size r ++ post) 0 = Some size /\ Mac.readLE 2 (macHeader size r ++ post) 4 = Some (mrIndex r) /\
  Mac.readLE 4 (macHeader size r ++ post) 8 = Some (mrFlags r) /\ Mac.readLE 4 (macHeader size r ++ post) 12 = Some (mrMask r).
Proof.
  intros [H1 H2 H3 H4 H5 _ _ _] Hs. unfold macHeader, is_uint in *. split_and!.
  - rewrite <- !app_assoc. by apply readLE_written.
  - rewrite <- !app_assoc, (app_assoc (writeLE 2 size)). apply readLE_at; [autorewrite with zlen; lia|done].
  - rewrite <- !app_assoc, (app_assoc (writeLE 2 size)), (app_assoc (_ ++ _)), (app_assoc ((_ ++ _) ++ _)).
    apply readLE_at; [autorewrite with zlen; lia|done].
  - rewrite <- !app_assoc, (app_assoc (writeLE 2 size)), (app_assoc (_ ++ _)), (app_assoc ((_ ++ _) ++ _)), (app_assoc (((_ ++ _) ++ _) ++ _)).
    apply readLE_at; [autorewrite with zlen; lia|done].
Qed.

(** *** The addresses of a message *)
Lemma padded_size (len : byte) : 8 <= Mac.roundUpToWord (if byteZ len =? 0 then Mac.sizeof_long else byteZ len).
Proof. destruct len; by vm_compute. Qed.
Lemma mac_address_size a : mac_address_ok a -> 8 <= zlen a.
Proof. intros (len & rest & -> & ->). apply padded_size. Qed.

(** An address other than the destination only takes room. *)
Lemma skip_addresses addrs : forall which addresses pre post d, Forall (fun i => i <> Mac.RTAX_DST) which ->
  Forall mac_address_ok addresses -> length addresses = length (filter (fun i => Mac.present addrs i = true) which) ->
  Mac.readAddresses (pre ++ concat addresses ++ post) addrs which (zlen pre) d = Some d.
Proof.
  induction which as [|i which IH]; intros addresses pre post d Hw Ha Hl; [done|]. apply Forall_cons in Hw as [Hi Hw].
  rewrite filter_cons in Hl. cbn [Mac.readAddresses]. destruct (Mac.present addrs i) eqn:Ep; cbn [negb].
  - rewrite decide_True in Hl by done. destruct addresses as [|a addresses]; [done|]. apply Forall_cons in Ha as [(len & rest & -> & Hz) Ha].
    cbn [concat app]. rewrite readUint8_at. cbn [mbind option_bind]. rewrite (proj2 (Z.eqb_neq i Mac.RTAX_DST) Hi). cbn [mbind option_bind].
    replace (if negb (byteZ len =? 0) then byteZ len else Mac.sizeof_long) with (if byteZ len =? 0 then Mac.sizeof_long else byteZ len) by (by destruct (_ =? 0)).
    rewrite <- Hz, <- zlen_app. specialize (IH addresses (pre ++ len :: rest) post d Hw Ha ltac:(cbn in Hl; lia)).
    rewrite <- !app_assoc in IH. rewrite <- app_assoc. exact IH.
  - rewrite decide_False in Hl by done. by apply IH.
Qed.

Lemma four_zero b0 b1 b2 b3 : (byteZ b0 + 256 * (byteZ b1 + 256 * (byteZ b2 + 256 * (byteZ b3 + 256 * 0))) =? 0) = bool_decide ([b0; b1; b2; b3] = replicate 4 Byte.x00).
Proof.
  pose proof (byteZ_range b0). pose proof (byteZ_range b1). pose proof (byteZ_range b2). pose proof (byteZ_range b3). unfold is_uint in *.
  assert (Hz : forall b, byteZ b = 0 -> b = Byte.x00) by (intros b Hb; by apply byteZ_inj).
  case_bool_decide as Hd; [by injection Hd as -> -> -> ->|]. apply Z.eqb_neq. intros E. apply Hd.
  rewrite (Hz b0), (Hz b1), (Hz b2), (Hz b3) by lia. done.
Qed.

(** The destination that an address in a buffer is. *)
Lemma destination_reads a pre post : mac_address_ok a ->
  (sa_family ← readUint8 (pre ++ a ++ post) (zlen pre + 1);
   if sa_family =? Mac.AF_INET then s_addr ← Mac.readLE 4 (pre ++ a ++ post) (zlen pre + 4); Some (false || (s_addr =? 0)) else Some false) = Some (macAny a).
Proof.
  intros Ha%mac_address_size. rewrite readUint8_shift, readLE_shift by lia.
  destruct a as [|len [|fam [|x2 [|x3 [|y0 [|y1 [|y2 [|y3 rest]]]]]]]]; try (by vm_compute in Ha). clear Ha.
  change (readUint8 _ 1) with (Some (byteZ fam)). cbn [mbind option_bind macAny take].
  change (Mac.readLE 4 _ 4) with (Some (byteZ y0 + 256 * (byteZ y1 + 256 * (byteZ y2 + 256 * (byteZ y3 + 256 * 0))))). cbn [mbind option_bind orb].
  rewrite four_zero. by destruct (_ =? _).
Qed.

Lemma readAddresses_written r pre post : mac_route_ok r ->
  Mac.readAddresses (pre ++ concat (mrAddresses r) ++ post) (mrMask r) (seqZ 0 Mac.RTAX_MAX) (zlen pre) false =
  Some (Mac.present (mrMask r) Mac.RTAX_DST && match mrAddresses r with a :: _ => macAny a | [] => false end).
Proof.
  intros [_ _ _ _ _ _ [Hl Ha] _]. unfold macPresent in Hl. change (seqZ 0 Mac.RTAX_MAX) with (Mac.RTAX_DST :: seqZ 1 7) in *.
  assert (Hn : Forall (fun i => i <> Mac.RTAX_DST) (seqZ 1 7)) by (apply Forall_forall; intros i [? ?]%elem_of_seqZ; unfold Mac.RTAX_DST; lia).
  rewrite filter_cons in Hl. cbn [Mac.readAddresses]. destruct (Mac.present (mrMask r) Mac.RTAX_DST) eqn:Ep; cbn [negb andb].
  - rewrite decide_True in Hl by done. destruct (mrAddresses r) as [|a addresses]; [done|]. apply Forall_cons in Ha as [Ha Hr].
    cbn [concat]. rewrite <- app_assoc. change (Mac.RTAX_DST =? Mac.RTAX_DST) with true.
    cbv iota. rewrite destination_reads by done. destruct Ha as (len & rest & -> & Hz). cbn [app]. rewrite readUint8_at. cbn [mbind option_bind].
    replace (if negb (byteZ len =? 0) then byteZ len else Mac.sizeof_long) with (if byteZ len =? 0 then Mac.sizeof_long else byteZ len) by (by destruct (_ =? 0)).
    rewrite <- Hz, <- zlen_app. pose proof (skip_addresses (mrMask r) (seqZ 1 7) addresses (pre ++ len :: rest) post (macAny (len :: rest)) Hn Hr ltac:(cbn [length] in Hl; lia)) as H.
    rewrite <- !app_assoc in H. exact H.
  - rewrite decide_False in Hl by done. rewrite skip_addresses by done. done.
Qed.

(** *** The messages *)
Definition macNames (os : Mac.Machine) (rs : list MacRoute) : list text :=
  omap (fun r => if macIsDefault r then Mac.if_indextoname os (mrIndex r) else None) rs.
Definition macDump (rs : list MacRoute) : bytes := concat (map encodeMacRoute rs).

Lemma readMessages_written os : forall rs fuel pre post names, Forall mac_route_ok rs -> (length (macDump rs) < fuel)%nat ->
  Mac.readMessages os fuel (pre ++ macDump rs ++ post) (zlen pre + zlen (macDump rs)) (zlen pre) names = Some (names ++ macNames os rs).
Proof.
  induction rs as [|r rs IH]; intros fuel pre post names Hok Hf; (destruct fuel as [|fuel]; [lia|]); cbn [Mac.readMessages].
  { change (zlen (macDump [])) with 0. rewrite (proj2 (Z.leb_gt _ _)) by (unfold Mac.sizeof_rt_msghdr; lia). cbn. by rewrite app_nil_r. }
  apply Forall_cons in Hok as [Hr Hok]. pose proof (zlen_encodeMacRoute r Hr) as Hz. pose proof (zlen_nonneg (concat (mrAddresses r))) as Hc.
  change (macDump (r :: rs)) with (encodeMacRoute r ++ macDump rs) in *. pose proof (zlen_nonneg (macDump rs)).
  assert (Hs : 92 <= macRouteSize r) by (unfold macRouteSize, Mac.sizeof_rt_msghdr; lia).
  rewrite zlen_app, Hz, (proj2 (Z.leb_le _ _)) by (unfold Mac.sizeof_rt_msghdr; lia).
  set (tl_ := concat (mrAddresses r) ++ macDump rs ++ post). replace ((encodeMacRoute r ++ macDump rs) ++ post) with (macHeader (macRouteSize r) r ++ tl_)
    by (unfold encodeMacRoute, tl_; by rewrite <- !app_assoc).
  destruct (macHeader_reads (macRouteSize r) r tl_ Hr (mr_size _ Hr)) as (R0 & R4 & R8 & R12).
  pose proof (readLE_shift 2 pre (macHeader (macRouteSize r) r ++ tl_) 0 ltac:(lia)) as S0. rewrite Z.add_0_r in S0. rewrite S0, R0. cbn [mbind option_bind].
  rewrite (proj2 (Z.eqb_neq (macRouteSize r) 0)) by lia. rewrite !readLE_shift, R4, R8, R12 by lia. cbn [mbind option_bind].
  assert (E : Mac.readAddresses (pre ++ macHeader (macRouteSize r) r ++ tl_) (mrMask r) (seqZ 0 Mac.RTAX_MAX) (zlen pre + Mac.sizeof_rt_msghdr) false =
    Some (Mac.present (mrMask r) Mac.RTAX_DST && match mrAddresses r with a :: _ => macAny a | [] => false end)).
  { rewrite <- (zlen_macHeader (macRouteSize r) r Hr), <- zlen_app, app_assoc. by apply readAddresses_written. }
  rewrite E. cbn [mbind option_bind].
  set (names' := names ++ match (if macIsDefault r then Mac.if_indextoname os (mrIndex r) else None) with Some n => [n] | None => [] end).
  match goal with |- (?m ≫= _) = _ => assert (Em : m = Some names') end.
  { unfold names', macIsDefault. rewrite <- andb_assoc. destruct (Linux.hasFlag _ _), (Mac.present _ _ && _); cbn; rewrite ?app_nil_r; try done. by destruct (Mac.if_indextoname os (mrIndex r)); rewrite ?app_nil_r. }
  rewrite Em. cbn [mbind option_bind]. assert (Hlt : (length (macDump rs) < fuel)%nat) by (rewrite length_app in Hf; unfold zlen in Hz; lia).
  specialize (IH fuel (pre ++ encodeMacRoute r) post names' Hok Hlt). rewrite zlen_app, Hz, <- Z.add_assoc in IH.
  replace (pre ++ macHeader (macRouteSize r) r ++ tl_) with ((pre ++ encodeMacRoute r) ++ macDump rs ++ post)
    by (unfold encodeMacRoute, tl_; by rewrite <- !app_assoc).
  rewrite IH. f_equal. unfold names', macNames. rewrite <- app_assoc. f_equal. cbn. by destruct (if macIsDefault r then _ else _).
Qed.

(** The routing table is read without leaving the buffer, to its end, and the names that are
    found are those of the interfaces that a route over a gateway to 0.0.0.0 leads over. *)
Theorem mac_routes_exact os needed rs : Mac.routeSize os = Some needed -> Mac.routeDump os needed = Some (macDump rs) ->
  zlen (macDump rs) <= needed -> Forall mac_route_ok rs -> Mac.getDefaultInterfaces os = Some (Some (macNames os rs)).
Proof.
  intros H1 H2 Hn Hok. unfold Mac.getDefaultInterfaces. rewrite H1, H2. unfold blit.
  pose proof (readMessages_written os rs (S (length (macDump rs))) [] (zdrop (0 + zlen (macDump rs)) (replicate (Z.to_nat needed) Byte.x00)) [] Hok ltac:(lia)) as H.
  cbn [app] in H. change (zlen []) with 0 in H. change (0 + zlen (macDump rs)) with (zlen (macDump rs)) in *.
  change (ztake 0 _ ++ ?l) with l. by rewrite H.
Qed.

(** ** What is found *)

(** What a Mac says of an interface, and what the adapter says. *)
Record mac_describes (os : Mac.Machine) (names : list text) (ifa : Linux.Ifaddr) (a : NetworkAdapterInternal) : Prop := {
  md_name : AdapterName a = default [] (Linux.ifa_name ifa);
  md_address : exists address, Linux.ifa_addr ifa = Some (Inet4 address) /\ IPv4 a = ipToString address;
  md_valid : isValid a = true <-> AdapterName a <> [];
  md_id : 1 <= ID a < 2 ^ 64;
  md_eligible : Eligible a = true <-> exists mask, parse (Subnet a) = Some mask /\ isNetmask mask = true;
  md_suppressed : Priority a = SuppressedInternal <-> Linux.hasFlag (Linux.ifa_flags ifa) Linux.IFF_LOOPBACK = true;
  md_preferred : Priority a = PreferredInternal <->
    Linux.hasFlag (Linux.ifa_flags ifa) Linux.IFF_LOOPBACK = false /\
    Linux.hasFlag (Linux.ifa_flags ifa) Linux.IFF_UP = true /\ Linux.hasFlag (Linux.ifa_flags ifa) Linux.IFF_RUNNING = true /\
    AdapterName a ∈ names /\ Mac.socketOpens os = true /\
    exists active, Mac.media os (take 15 (AdapterName a)) = Some active /\ (Mac.IFM_TYPE active = Mac.IFM_IEEE80211 \/ Mac.IFM_TYPE active = Mac.IFM_ETHER);
}.

(** The type of an interface. *)
Lemma mac_type os name flags :
  (Mac.filterAdapterType os name flags = Loopback <-> Linux.hasFlag flags Linux.IFF_LOOPBACK = true) /\
  (Mac.filterAdapterType os name flags = Ethernet \/ Mac.filterAdapterType os name flags = WiFi <->
    Linux.hasFlag flags Linux.IFF_LOOPBACK = false /\ Mac.socketOpens os = true /\
    exists active, Mac.media os (take 15 name) = Some active /\ (Mac.IFM_TYPE active = Mac.IFM_IEEE80211 \/ Mac.IFM_TYPE active = Mac.IFM_ETHER)).
Proof.
  unfold Mac.filterAdapterType. change (Mac.IFNAMSIZ - 1)%nat with 15%nat. destruct (Linux.hasFlag flags Linux.IFF_LOOPBACK); [split; [done|]; split; [by intros []|by intros [? _]]|].
  destruct (Mac.socketOpens os); cbn [negb]; [|split; [done|]; split; [by intros []|by intros (_ & ? & _)]].
  destruct (Mac.media os (take 15 name)) as [active|]; [|split; [done|]; split; [by intros []|by intros (_ & _ & ? & ? & _)]].
  destruct (Z.eqb_spec (Mac.IFM_TYPE active) Mac.IFM_IEEE80211), (Z.eqb_spec (Mac.IFM_TYPE active) Mac.IFM_ETHER);
    (split; [done|]); (split; [intros H; split_and!; [done..|]; exists active; split; [done|]; first [by left|by right|by destruct H]|]);
    intros (_ & _ & x & [= <-] & [H|H]); first [by left|by right|done].
Qed.

Lemma mac_priority isDefaultRoute type flags : Mac.determinePriority isDefaultRoute type flags = PreferredInternal <->
  Linux.hasFlag flags Linux.IFF_UP = true /\ Linux.hasFlag flags Linux.IFF_RUNNING = true /\ isDefaultRoute = true /\ (type = Ethernet \/ type = WiFi).
Proof.
  unfold Mac.determinePriority. destruct (Linux.hasFlag flags Linux.IFF_UP), (Linux.hasFlag flags Linux.IFF_RUNNING), isDefaultRoute, type; vm_compute; intuition congruence.
Qed.
Lemma mac_one os names ifa address : Linux.ifa_addr ifa = Some (Inet4 address) ->
  exists a, Mac.saveAdapter os names [] ifa = [a] /\ mac_describes os names ifa a.
Proof.
  intros Ha. unfold Mac.saveAdapter. rewrite Ha. eexists. split; [done|]. set (name := default [] (Linux.ifa_name ifa)).
  destruct (mac_type os name (Linux.ifa_flags ifa)) as [Hl Hp]. split; cbn [AdapterName IPv4 ID Eligible Priority Subnet newAdapter].
  - done.
  - by exists address.
  - apply newAdapter_valid.
  - apply makeAdapterId_range.
  - apply eligible_iff.
  - rewrite <- Hl. unfold Mac.determinePriority. case_bool_decide; [done|]. by repeat case_match.
  - rewrite mac_priority, Hp, bool_decide_eq_true. tauto.
Qed.

Lemma mac_save os names acc ifa : Mac.saveAdapter os names acc ifa = acc ++ Mac.saveAdapter os names [] ifa.
Proof. unfold Mac.saveAdapter. destruct (Linux.ifa_addr ifa) as [[]|]; by rewrite ?app_nil_r. Qed.

(** What a Mac has is what is found, as on Linux: every IPv4 address of the machine becomes
    one adapter, in order, and nothing else does; and it is preferred exactly if it is up
    and running, a default route leads over it, and its medium is wireless or Ethernet. *)
Theorem mac_scan_spec os ifas names : Mac.getifaddrs os = Some ifas -> Mac.getDefaultInterfaces os = Some (Some names) ->
  exists l, Mac.scan os = Some (Some l) /\ Forall2 (mac_describes os names) (filter (fun ifa => isInet4 (Linux.ifa_addr ifa) = true) ifas) l.
Proof.
  intros H Hn. unfold Mac.scan, Mac.processAdapter. rewrite H, Hn. cbn [mbind option_bind fmap option_fmap option_map default]. eexists. split; [done|].
  rewrite (fold_appends _ (Mac.saveAdapter os names [])) by apply mac_save. cbn [app]. clear H Hn.
  induction ifas as [|ifa ifas IH]; [constructor|]. cbn [map concat]. rewrite filter_cons. case_decide as Hd.
  - destruct (Linux.ifa_addr ifa) as [[a| |]|] eqn:Ea; try done. destruct (mac_one os names ifa a Ea) as (ad & E & Hl). rewrite E. by constructor.
  - assert (E : Mac.saveAdapter os names [] ifa = []) by (unfold Mac.saveAdapter; by destruct (Linux.ifa_addr ifa) as [[]|]).
    by rewrite E.
Qed.

(** A Mac with two routes, of which the second is the default, over [en0]. *)
Module MacExample.
Definition word (l : list Z) : bytes := map toByte l.
Definition entry (index : Z) (destination : list Z) : MacRoute :=
  mkMacRoute (word [5; 4]) index (word [0; 0]) 0x803 0x5 (replicate 76 Byte.x00)
    [word ([16; 2; 0; 0] ++ destination) ++ replicate 8 Byte.x00; word [0; 0; 0; 0; 0; 0; 0; 0]].
Definition routes : list MacRoute := [entry 4 [10; 0; 0; 0]; entry 5 [0; 0; 0; 0]].
Definition mac : Mac.Machine :=
  Mac.mkMachine
    (Some [Linux.mkIfaddr (Some (lit "lo0")) (Some (Inet4 (mkIPv4 0x7f000001))) (Some (Inet4 (mkIPv4 0xff000000))) 0x8049;
           Linux.mkIfaddr (Some (lit "en0")) (Some (Inet4 (mkIPv4 0xc0a80105))) (Some (Inet4 (mkIPv4 0xffffff00))) 0x8863])
    true (fun name => if bool_decide (name = lit "en0") then Some 0x80 else None) (Some 512)
    (fun _ => Some (macDump routes)) (fun name => if bool_decide (name = lit "en0") then 5 else 1)
    (fun index => if index =? 5 then Some (lit "en0") else if index =? 4 then Some (lit "utun0") else None).

Lemma word_address (a : bytes) len rest : a = len :: rest -> zlen a = Mac.roundUpToWord (if byteZ len =? 0 then Mac.sizeof_long else byteZ len) -> mac_address_ok a.
Proof. intros E H. by exists len, rest. Qed.
Lemma entry_ok index destination : is_uint 16 index -> length destination = 4%nat -> mac_route_ok (entry index destination).
Proof.
  intros Hi Hd. destruct destination as [|d0 [|d1 [|d2 [|d3 [|]]]]]; try done. split; try done.
  split; [done|]. repeat constructor; (eapply word_address; [reflexivity|by vm_compute]).
Qed.
Lemma mac_routes : Mac.getDefaultInterfaces mac = Some (Some [lit "en0"]).
Proof.
  rewrite (mac_routes_exact mac 512 routes eq_refl eq_refl); [by vm_compute|by vm_compute|]. apply Forall_cons; split; [by apply entry_ok|]. apply Forall_singleton. by apply entry_ok.
Qed.
Lemma mac_scan : map (fun a => (AdapterName a, Priority a)) <$> default None (Mac.scan mac) =
  Some [(lit "lo0", SuppressedInternal); (lit "en0", PreferredInternal)].
Proof. by vm_compute. Qed.
End MacExample.
