(* ===== verification/Adapters.v ===== *)
(** * The adapter that is used

    [Network/NetworkInformationCommon.cpp], and the adapters of [Core/NetLinkCore.cpp]: which
    one is selected, the address the engine gets from it, and what the application is shown.
    [mNetwork] is the adapters found last; every function holds [mNetworkMutex]. *)
From Stdlib Require Import Strings.String.
From S2P Require Import Prelude Text IPv4Address Engine NetworkInformation LinuxAdapters WindowsAdapters.
From stdpp Require Import list.
#[local] Open Scope Z_scope.

Module Adapters.
Inductive AdapterPriority := Suppressed | Available | Preferred.
#[global] Instance AdapterPriority_eq_dec : EqDecision AdapterPriority.
Proof. solve_decision. Defined.
Record NetworkAdapter := mkPublic { adapterName : text; networkName : text; ipv4 : text; id : Z; priority : AdapterPriority }.
Definition adapterValid (a : NetworkAdapter) : bool :=
  negb (bool_decide (adapterName a = [])) && negb (bool_decide (networkName a = [])) && negb (bool_decide (ipv4 a = [])) && negb (id a =? 0).

Record Network := mkNetwork { mNetwork : list NetworkAdapterInternal; mAdapter : NetworkAdapterInternal }.
#[global] Instance eta_Network : Eta Network := fun r => mkNetwork (mNetwork r) (mAdapter r).
Definition newNetwork : Network := mkNetwork [] noAdapter.

Definition mapPriority (internal : AdapterPriorityInternal) : AdapterPriority :=
  match internal with PreferredInternal => Preferred | AvailableInternal => Available | _ => Suppressed end.
Definition toPublicAdapter (internal : NetworkAdapterInternal) : NetworkAdapter :=
  mkPublic (AdapterName internal) (NetworkName internal) (IPv4 internal) (ID internal) (mapPriority (Priority internal)).

(** An adapter that is shown is valid if the one it stands for is and its network has a name. *)
Lemma adapterValid_public a : adapterValid (toPublicAdapter a) = isValid a && negb (bool_decide (NetworkName a = [])).
Proof.
  unfold adapterValid, isValid. cbn. by destruct (bool_decide (AdapterName a = [])), (bool_decide (NetworkName a = [])), (bool_decide (IPv4 a = [])), (ID a =? 0).
Qed.

Definition findAdapter (p : NetworkAdapterInternal -> bool) (l : list NetworkAdapterInternal) : option NetworkAdapterInternal :=
  List.find p l.
Definition isAdapterCurrentlyAvailable (adapter : NetworkAdapterInternal) (n : Network) : NetworkAdapterInternal :=
  default noAdapter (findAdapter (fun it => sameAdapter it adapter) (mNetwork n)).

(** [scanned] is the outcome of [init] and [processAdapter]. *)
Definition enumerateAdapters (scanned : option (list NetworkAdapterInternal)) (n : Network) : Network :=
  match scanned with Some l => n <| mNetwork := l |> | None => n end.

Definition selectAdapter (n : Network) : Network :=
  let current := isAdapterCurrentlyAvailable (mAdapter n) n in
  if isValid (mAdapter n) && isValid current then n <| mAdapter := current |>
  else
    let candidate p := findAdapter (fun a => isValid a && bool_decide (Priority a = p)) (mNetwork n) in
    match candidate PreferredInternal with
    | Some a => n <| mAdapter := a |>
    | None => match candidate AvailableInternal with Some a => n <| mAdapter := a |> | None => n end
    end.

(** The mask is 0.0.0.0 if it cannot be read. *)
Definition interfaceOf (a : NetworkAdapterInternal) : option Engine.LocalInterface :=
  match parse (IPv4 a) with
  | Some ip => Some (Engine.mkInterface ip (default unspecified (parse (Subnet a))))
  | None => None
  end.

(** [binds] says to which addresses a socket can be bound. *)
Definition selectedInterface (binds : IPv4Address -> bool) (scanned : option (list NetworkAdapterInternal)) (n : Network) :
    option Engine.LocalInterface * Network :=
  let current := interfaceOf (mAdapter n) in
  if match current with Some i => binds (Engine.ifaceIp i) | None => false end then (current, n)
  else if negb (isValid (mAdapter n)) then (None, n)
  else
    let n := enumerateAdapters scanned n in
    let found := isAdapterCurrentlyAvailable (mAdapter n) n in
    if negb (isValid found) then (None, n)
    else let n := n <| mAdapter := found |> in (interfaceOf (mAdapter n), n).

Definition adapterAt (address : text) (n : Network) : NetworkAdapter :=
  if isValid (mAdapter n) && bool_decide (IPv4 (mAdapter n) = address) then toPublicAdapter (mAdapter n)
  else mkPublic [] [] address 0 Suppressed.

Definition getAvailableAdapters (scanned : option (list NetworkAdapterInternal)) (n : Network) : list NetworkAdapter * Network :=
  let n := enumerateAdapters scanned n in (map toPublicAdapter (mNetwork n), n).

(** Up to [checkInterface] of the engine, which follows if an adapter was found. *)
Definition setActiveAdapter (adapterID : Z) (scanned : option (list NetworkAdapterInternal)) (n : Network) : bool * Network :=
  let n := enumerateAdapters scanned n in
  match findAdapter (fun a => ID a =? adapterID) (mNetwork n) with
  | None => (false, n)
  | Some chosen => (true, n <| mAdapter := chosen |>)
  end.

Definition getActiveAdapterID (n : Network) : Z := ID (mAdapter n).

(** ** What is promised *)

(** The value of the enumerator. *)
Definition rank (p : AdapterPriorityInternal) : Z :=
  match p with NoPriority => 0 | SuppressedInternal => 1 | AvailableInternal => 2 | PreferredInternal => 3 end.

Lemma findAdapter_Some p l a : findAdapter p l = Some a ->
  p a = true /\ exists pre post, l = pre ++ a :: post /\ Forall (fun b => p b = false) pre.
Proof.
  unfold findAdapter. induction l as [|b l IH]; cbn; [done|]. destruct (p b) eqn:Ep.
  - intros [= <-]. split; [done|]. by exists [], l.
  - intros (Hp & pre & post & -> & Hpre)%IH. split; [done|]. exists (b :: pre), post. split; [done|]. by constructor.
Qed.
Lemma findAdapter_None p l : findAdapter p l = None -> Forall (fun b => p b = false) l.
Proof.
  unfold findAdapter. induction l as [|b l IH]; cbn; [constructor|]. destruct (p b) eqn:Ep; [done|]. intros H%IH. by constructor.
Qed.

Lemma available_in a n : isValid (isAdapterCurrentlyAvailable a n) = true ->
  isAdapterCurrentlyAvailable a n ∈ mNetwork n /\ sameAdapter (isAdapterCurrentlyAvailable a n) a = true.
Proof.
  unfold isAdapterCurrentlyAvailable. destruct (findAdapter _ _) as [b|] eqn:E; cbn; [|done]. intros _.
  apply findAdapter_Some in E as (Hs & pre & post & -> & _). split; [|done]. apply elem_of_app. right. left.
Qed.

(** The first valid adapter of a priority, if there is one. *)
Lemma candidate_cases n p :
  match findAdapter (fun a => isValid a && bool_decide (Priority a = p)) (mNetwork n) with
  | Some a => isValid a = true /\ Priority a = p /\
      exists pre post, mNetwork n = pre ++ a :: post /\ Forall (fun b => isValid b = true -> Priority b <> p) pre
  | None => Forall (fun b => isValid b = true -> Priority b <> p) (mNetwork n)
  end.
Proof.
  assert (Hf : forall l, Forall (fun b => isValid b && bool_decide (Priority b = p) = false) l ->
    Forall (fun b => isValid b = true -> Priority b <> p) l).
  { intros l Hl. eapply Forall_impl; [exact Hl|]. intros b Hb Hv. cbn beta in Hb. rewrite Hv in Hb. by apply bool_decide_eq_false in Hb. }
  destruct (findAdapter _ _) as [a|] eqn:E.
  - apply findAdapter_Some in E as (Hp & pre & post & E & Hpre). apply andb_true_iff in Hp as [Hv Hp%bool_decide_eq_true].
    split_and!; [done..|]. exists pre, post. split; [done|by apply Hf].
  - by apply Hf, findAdapter_None.
Qed.

(** Which adapter is selected.  One that was selected before stays selected as long as an
    adapter of the same name and mask is there.  Otherwise the first valid adapter of the
    highest priority is taken, and none that is suppressed; if there is none at all, the
    selection stays as it is. *)
Theorem select_best n :
  let n' := selectAdapter n in
  let kept := isValid (mAdapter n) && isValid (isAdapterCurrentlyAvailable (mAdapter n) n) in
  mNetwork n' = mNetwork n /\
  (kept = true -> mAdapter n' ∈ mNetwork n /\ isValid (mAdapter n') = true /\ sameAdapter (mAdapter n') (mAdapter n) = true) /\
  (kept = false ->
    (forall a, a ∈ mNetwork n -> isValid a = true -> rank (Priority a) < 2) /\ mAdapter n' = mAdapter n \/
    isValid (mAdapter n') = true /\ 2 <= rank (Priority (mAdapter n')) /\
    exists pre post, mNetwork n = pre ++ mAdapter n' :: post /\
      (forall a, a ∈ pre -> isValid a = true -> rank (Priority a) < rank (Priority (mAdapter n'))) /\
      (forall a, a ∈ mNetwork n -> isValid a = true -> rank (Priority a) <= rank (Priority (mAdapter n')))).
Proof.
  cbn zeta. unfold selectAdapter. destruct (isValid (mAdapter n) && _) eqn:Ek.
  { apply andb_true_iff in Ek as [_ Hc]. destruct (available_in _ _ Hc). by split_and!. }
  pose proof (candidate_cases n PreferredInternal) as Hp. pose proof (candidate_cases n AvailableInternal) as Ha.
  assert (Hr : forall b : NetworkAdapterInternal, Priority b <> PreferredInternal -> rank (Priority b) <= 2) by (intros b; by destruct (Priority b)).
  assert (Hr' : forall b : NetworkAdapterInternal, rank (Priority b) <= 3) by (intros b; by destruct (Priority b)).
  assert (Hr2 : forall b : NetworkAdapterInternal, Priority b <> PreferredInternal -> Priority b <> AvailableInternal -> rank (Priority b) < 2)
    by (intros b; by destruct (Priority b)).
  destruct (findAdapter _ _) as [a|] in Hp |- *.
  { destruct Hp as (Hv & Ep & pre & post & E & Hpre). split_and!; [done..|]. intros _. right. cbn. rewrite Ep. split_and!; [done..|].
    exists pre, post. split_and!; [done| |intros b _ _; apply Hr']. intros b Hb Hbv. rewrite Forall_forall in Hpre.
    specialize (Hr b (Hpre b Hb Hbv)). cbn. lia. }
  rewrite Forall_forall in Hp. destruct (findAdapter _ _) as [a|] in Ha |- *.
  - destruct Ha as (Hv & Ep & pre & post & E & Hpre). split_and!; [done..|]. intros _. right. cbn. rewrite Ep. split_and!; [done..|].
    rewrite Forall_forall in Hpre. exists pre, post. split_and!; [done| |].
    + intros b Hb Hbv. cbn. apply Hr2; [|by apply Hpre]. apply Hp; [|done]. rewrite E. apply elem_of_app. by left.
    + intros b Hb Hbv. cbn. by apply Hr, Hp.
  - split_and!; [done..|]. intros _. left. rewrite Forall_forall in Ha. split; [|done]. intros b Hb Hbv. by apply Hr2; [apply Hp|apply Ha].
Qed.

(** *** The selected interface *)

(** The selected adapter, if there is one, can be shown. *)
Definition selection_ok (n : Network) : Prop := mAdapter n = noAdapter \/ isValid (mAdapter n) = true.

Lemma select_keeps n : selection_ok n -> selection_ok (selectAdapter n).
Proof.
  unfold selectAdapter. destruct (isValid (mAdapter n) && _) eqn:Ek; [apply andb_true_iff in Ek as [_ Hc]; by right|].
  pose proof (candidate_cases n PreferredInternal) as Hp. pose proof (candidate_cases n AvailableInternal) as Ha.
  destruct (findAdapter _ _) as [a|] in Hp |- *; [intros _; right; apply Hp|]. destruct (findAdapter _ _) as [a|] in Ha |- *; [intros _; right; apply Ha|done].
Qed.
Lemma setActive_keeps adapterID scanned n : Forall (fun a => isValid a = true) (default (mNetwork n) scanned) ->
  selection_ok n -> selection_ok (setActiveAdapter adapterID scanned n).2.
Proof.
  intros Hv Hn. unfold setActiveAdapter. assert (E : mNetwork (enumerateAdapters scanned n) = default (mNetwork n) scanned) by (by destruct scanned).
  rewrite E. destruct (findAdapter _ _) as [a|] eqn:Ef; cbn.
  - apply findAdapter_Some in Ef as (_ & pre & post & Ep & _). right. rewrite Forall_forall in Hv. apply Hv. rewrite Ep. apply elem_of_app. right. left.
  - destruct scanned; done.
Qed.

(** C22: the engine's address belongs to the selected adapter.  If the adapter is asked for its
    interface and there is one, it is that of the adapter selected afterwards, which either
    was selected before and can be bound to, or has the same name and mask as that one; and
    when the engine reports the address it moved to, the adapter that is shown is that one. *)
Theorem interface_is_selected binds scanned n i n' : selection_ok n -> selectedInterface binds scanned n = (Some i, n') ->
  interfaceOf (mAdapter n') = Some i /\ selection_ok n' /\
  (n' = n /\ binds (Engine.ifaceIp i) = true \/
   mAdapter n' ∈ default (mNetwork n) scanned /\ sameAdapter (mAdapter n') (mAdapter n) = true) /\
  adapterAt (ipToString (Engine.ifaceIp i)) n' = toPublicAdapter (mAdapter n').
Proof.
  intros Hn H. assert (Hshow : forall m, isValid (mAdapter m) = true -> interfaceOf (mAdapter m) = Some i ->
    adapterAt (ipToString (Engine.ifaceIp i)) m = toPublicAdapter (mAdapter m)).
  { intros m Hv Hi. unfold interfaceOf in Hi. destruct (parse (IPv4 (mAdapter m))) as [a|] eqn:Ep; [|done]. injection Hi as <-.
    apply parse_sound in Ep as [_ Ep]. unfold adapterAt. cbn. by rewrite Hv, bool_decide_true. }
  unfold selectedInterface in H. destruct (match interfaceOf (mAdapter n) with Some _ => _ | None => false end) eqn:Eb.
  - injection H as Hi <-. rewrite Hi in Eb. split_and!; [done..|by left|]. apply Hshow; [|done].
    destruct Hn as [Hn|]; [|done]. rewrite Hn in Hi. done.
  - destruct (isValid (mAdapter n)) eqn:Ev; cbn [negb] in H; [|done]. destruct (isValid (isAdapterCurrentlyAvailable _ _)) eqn:Ef; cbn [negb] in H; [|done].
    injection H as Hi <-. destruct (available_in _ _ Ef) as [Hin Hs].
    assert (E : mNetwork (enumerateAdapters scanned n) = default (mNetwork n) scanned /\ mAdapter (enumerateAdapters scanned n) = mAdapter n) by (by destruct scanned).
    destruct E as [En Ea]. split_and!; [done|by right| |by apply Hshow]. right. cbn. rewrite En, Ea in *. done.
Qed.
End Adapters.

(** ** Two machines *)
Module AdapterExample.
Import Adapters.

Definition tab : text := [Byte.x09].
Definition address (a b c d : Z) : IPv4Address := mkIPv4 (((a * 256 + b) * 256 + c) * 256 + d).
Definition mask24 : option Sockaddr := Some (Inet4 (address 255 255 255 0)).

(** An Ethernet adapter with two addresses, and the loopback. *)
Definition linuxBox : Linux.Machine := {|
  Linux.getifaddrs := Some [
    Linux.mkIfaddr (Some (lit "lo")) (Some (Inet4 (address 127 0 0 1))) (Some (Inet4 (address 255 0 0 0))) 0x49;
    Linux.mkIfaddr (Some (lit "eth0")) (Some (Inet4 (address 192 168 1 7))) mask24 0x1043;
    Linux.mkIfaddr (Some (lit "eth0")) (Some (Inet6 (lit "fe80::1"))) None 0x1043;
    Linux.mkIfaddr (Some (lit "eth0")) (Some (Inet4 (address 192 168 2 7))) mask24 0x1043];
  Linux.fileExists := fun path => bool_decide (path = lit "/sys/class/net/eth0/device");
  Linux.routeLines := Some [lit "Iface"; lit "eth0" ++ tab ++ lit "00000000" ++ tab ++ lit "0101A8C0" ++ tab ++ lit "0003"];
  Linux.if_nametoindex := fun name => if bool_decide (name = lit "lo") then 1 else 2;
|}.
Definition found : list NetworkAdapterInternal := default [] (Linux.scan linuxBox).

Lemma linux_scan_spec_witness : map Priority found = [SuppressedInternal; PreferredInternal; PreferredInternal] /\
  exists l, Linux.scan linuxBox = Some l /\
    Forall2 (linux_describes linuxBox) (filter (fun ifa => isInet4 (Linux.ifa_addr ifa) = true) (default [] (Linux.getifaddrs linuxBox))) l.
Proof. split; [by vm_compute|]. apply linux_scan_spec. reflexivity. Defined.

Definition windowsBox : Windows.Machine := {|
  Windows.winsockStarts := true; Windows.sizeResult := 111; Windows.allocated := true;
  Windows.addresses := Some [Windows.mkAddresses (lit "Intel") [Windows.mkUnicast (Inet4 (address 10 0 0 5)) 8] 6 77 0x80 1];
  Windows.forwardTable := Some [Windows.mkRoute 0 77];
|}.
Lemma windows_scan_spec_witness : map Subnet (default [] (Windows.scan windowsBox)) = [lit "255.0.0.0"] /\
  exists l, Windows.scan windowsBox = Some l /\
    Forall2 (fun nu => windows_describes windowsBox nu.1 nu.2)
      (filter (fun nu => isInet4 (Some (Windows.lpSockaddr nu.2)) = true)
        (concat (map (fun n => map (pair n) (Windows.unicasts n)) (default [] (Windows.addresses windowsBox))))) l.
Proof. split; [by vm_compute|]. apply windows_scan_spec; reflexivity. Defined.

(** The application chooses the second address of the adapter. *)
Definition second : NetworkAdapterInternal := default noAdapter (found !! 2%nat).
Definition chosen : bool * Network := setActiveAdapter (ID second) (Linux.scan linuxBox) newNetwork.

Lemma interface_is_selected_witness :
  selectedInterface (fun _ => true) None chosen.2 = (interfaceOf second, chosen.2) /\
  adapterAt (ipToString (address 192 168 2 7)) chosen.2 = toPublicAdapter second.
Proof.
  split; [by vm_compute|].
  apply (interface_is_selected (fun _ => true) None chosen.2 (Engine.mkInterface (address 192 168 2 7) (address 255 255 255 0)) chosen.2);
    [right; by vm_compute|by vm_compute].
Defined.

(** The choice does not survive a restart, although nothing changed: [operator==] takes the
    first address of the adapter for the one that was chosen. *)
Lemma choice_forgotten :
  chosen.1 = true /\ IPv4 (mAdapter chosen.2) = lit "192.168.2.7" /\ second ∈ mNetwork chosen.2 /\
  IPv4 (mAdapter (selectAdapter (enumerateAdapters (Linux.scan linuxBox) chosen.2))) = lit "192.168.1.7".
Proof.
  assert (Hc : chosen.1 = true /\ IPv4 (mAdapter chosen.2) = lit "192.168.2.7" /\ bool_decide (second ∈ mNetwork chosen.2) = true /\
    IPv4 (mAdapter (selectAdapter (enumerateAdapters (Linux.scan linuxBox) chosen.2))) = lit "192.168.1.7") by (by vm_compute).
  by rewrite bool_decide_eq_true in Hc.
Qed.

(** An interface that is down is shown as available, on both platforms. *)
Lemma down_is_available route enabled type flags status : type <> Loopback ->
  Linux.hasFlag flags Linux.IFF_UP = false -> status <> Windows.IfOperStatusUp ->
  Linux.determinePriority route type flags = AvailableInternal /\
  Windows.determinePriority route enabled type status = AvailableInternal.
Proof.
  intros Ht Hu Hs. unfold Linux.determinePriority, Windows.determinePriority. rewrite bool_decide_false, Hu by done.
  by destruct (Z.eqb_spec status Windows.IfOperStatusUp).
Qed.
End AdapterExample.
