(* ===== verification/NetLinkCore.v ===== *)
(** * The object behind the public interface

    [Core/NetLinkCore.{h,cpp}]: runs an engine on its thread, calls the application back on
    the event thread, and starts and stops both.  [core_step] interleaves all threads: the
    engine's, the worker of the [TaskQueue], callers of [start] and [stop], and anyone who
    uses the mailbox of an engine.  An engine is shared by reference: it is its number among
    the engines that were started, and so are the callbacks it was started with. *)
From Stdlib Require Import QArith.
From S2P Require Import Prelude Constants Text IPv4Address Discovery Mailbox MailboxRuns Engine SessionSpec EngineSessions EngineStep.
From S2P Require Import EngineRuns Logging TaskQueue NetworkInformation Adapters.
From stdpp Require Import relations.
#[local] Open Scope Z_scope.

Module Core.
Import Engine Sessions Loop Adapters.

(** ** Data *)

(** Which of the functions of [NetLinkCallbacks] are set. *)
Record NetLinkCallbacks := mkCallbacks {
  onPeerDiscovered : bool;
  onPeerLost : bool;
  onConnectionRequest : bool;
  onConnected : bool;
  onDisconnected : bool;
  onMessage : bool;
  onNetworkAdapterChanged : bool;
  onLog : bool;
}.

(** A call of the application. *)
Inductive Callback :=
| CallPeerDiscovered (info : PeerInfo)
| CallPeerLost (peer : PeerId)
| CallConnectionRequest (info : PeerInfo)
| CallConnected (info : PeerInfo)
| CallDisconnected (peer : PeerId) (reason : DisconnectReason)
| CallMessage (peer : PeerId) (lane : PublicLane) (message : Message)
| CallNetworkAdapterChanged (adapter : NetworkAdapter).

Record NetLinkConfig := mkNetLinkConfig {
  configName : text;
  appId : text;
  appVersion : text;
  discoveryPort : Z;
  sendQueueBytes : Z;
  maxSendRate : Z;
  configTimeout : Z;
}.

(** [localInterface] says whether the dependencies bring an address of their own. *)
Record NetLinkCoreDependencies := mkDependencies { localInterface : bool; timings : LinkTimings }.

(** What is posted to the event thread: the events of the engine [from] for the callbacks
    [to], a line for [onLog] of the callbacks [to], or the sink that calls it at once. *)
Inductive Task := Deliver (to from : nat) (batch : EventBatch) | LogLine (to : nat) (level : LogLevel) (line : text) | SetLogSink (to : nat).

(** Where the thread of an engine is: at the head of its loop, after the delivery of a step,
    at its end. *)
Inductive ThreadState := Looping | Waiting | Over.
#[global] Instance ThreadState_eq_dec : EqDecision ThreadState.
Proof. solve_decision. Defined.

(** One call of [start]: its engine, its callbacks, the thread, and what the engine handed
    over so far. *)
Record Run := mkRun { eng : NetworkEngine; given : NetLinkCallbacks; thread : ThreadState; handedOver : list EngineEvent }.
#[global] Instance eta_Run : Eta Run := fun r => mkRun (eng r) (given r) (thread r) (handedOver r).

(** Who calls [finish], and where the holder of [mLifecycleMutex] is. *)
Inductive Purpose := ByStop | ByStart (config : NetLinkConfig) (callbacks : NetLinkCallbacks).
Inductive Life :=
  Free | Finishing (p : Purpose) | Draining (p : Purpose) | Waits (p : Purpose) | Resetting (p : Purpose) |
  Launching (config : NetLinkConfig) (callbacks : NetLinkCallbacks).

(** The members of the class, then the threads: [runs] are the engines started so far, [life]
    the holder of the mutex, [stops] the calls of [stop] that wait for it; [rest] are the
    events of the task under way that are not dispatched, [dispatched] all that are, and
    [called] the calls of the application they led to; [eventSink] is the log sink of the
    event thread, and [logged] what [onLog] was called with. *)
Record NetLinkCore := mkCore {
  mDependencies : NetLinkCoreDependencies;
  mEngine : option nat;
  mCallbacks : nat;
  mLogSink : option nat;
  mThread : option nat;
  mEvents : Tasks.System Task;
  mNetwork : Network;
  runs : list Run;
  life : Life;
  stops : nat;
  rest : list EngineEvent;
  dispatched : list (nat * EngineEvent);
  called : list (nat * Callback);
  eventSink : option nat;
  logged : list (nat * (LogLevel * text));
}.
#[global] Instance eta_NetLinkCore : Eta NetLinkCore := fun r =>
  mkCore (mDependencies r) (mEngine r) (mCallbacks r) (mLogSink r) (mThread r) (mEvents r) (mNetwork r) (runs r) (life r)
    (stops r) (rest r) (dispatched r) (called r) (eventSink r) (logged r).
Definition newCore (dependencies : NetLinkCoreDependencies) : NetLinkCore :=
  mkCore dependencies None 0 None None Tasks.newSystem newNetwork [] Free 0 [] [] [] None [].

(** ** Operations *)
Definition engine (c : NetLinkCore) : option Run := match mEngine c with Some g => runs c !! g | None => None end.
Definition onEngine (g : nat) (f : NetworkEngine -> NetworkEngine) (c : NetLinkCore) : NetLinkCore :=
  c <| runs ::= alter (fun r => r <| eng ::= f |>) g |>.
Definition post (task : Task) (c : NetLinkCore) : NetLinkCore :=
  c <| mEvents ::= fun s => s <| Tasks.queue ::= Tasks.post task |> <| Tasks.owed ::= S |> |>.

(** [start], up to the call of [finish]: whether it gets there.  A task of the event thread
    does not. *)
Definition mayStart (config : NetLinkConfig) (c : NetLinkCore) : bool :=
  if bool_decide (appId config = []) then false
  else match engine c with Some r => negb (Box.isRunning (mMailbox (eng r))) | None => true end.

Definition engineConfigOf (dependencies : NetLinkCoreDependencies) (config : NetLinkConfig) (callbacks : NetLinkCallbacks) : EngineConfig :=
  let timings := timings dependencies in
  {| cfgDisplayName := configName config; cfgAppId := appId config; cfgAppVersion := appVersion config;
     cfgDiscoveryPort := discoveryPort config; cfgSendQueueBytes := sendQueueBytes config;
     cfgMaxSendRate := maxSendRate config;
     cfgTimings := mkLinkTimings (initialRto timings) (minRto timings) (maxRto timings) (configTimeout config) (keepAlive timings)
                     (initialCwnd timings) (fixedCwnd timings);
     cfgAutoAccept := negb (onConnectionRequest callbacks); cfgInstanceId := 0 |}.

(** [start], after [finish].  [scanned] is what is found out about the adapters,
    [libraryVersion] and [generated] are as for the engine.  [None]: a thread is replaced that
    is still joinable. *)
Definition launch (scanned : option (list NetworkAdapterInternal)) (libraryVersion : bytes) (generated : PeerId)
    (config : NetLinkConfig) (callbacks : NetLinkCallbacks) (c : NetLinkCore) : option NetLinkCore :=
  let g := length (runs c) in
  let dependencies := mDependencies c in
  let logSink := if onLog callbacks then Some g else None in
  let c := c <| mCallbacks := g |> <| mLogSink := logSink |> in
  match Tasks.start (Tasks.queue (mEvents c)), mThread c with
  | Some q, None =>
    let c := c <| mEvents ::= fun s => s <| Tasks.queue := q |> |> <| eventSink := None |> in
    let c := if onLog callbacks then post (SetLogSink g) c else c in
    let c := if negb (localInterface dependencies)
             then c <| mNetwork ::= fun n => selectAdapter (enumerateAdapters scanned n) |> else c in
    let engine := newEngine libraryVersion generated (engineConfigOf dependencies config callbacks) in
    Some (c <| runs ::= fun l => l ++ [mkRun engine callbacks Looping []] |> <| mEngine := Some g |> <| mThread := Some g |>)
  | _, _ => None
  end.

(** [stop], up to the mutex: the engine it asks to stop, if there is one. *)
Definition requestStop (c : NetLinkCore) : option NetLinkCore :=
  match mEngine c with
  | None => None
  | Some g => Some (onEngine g (fun e => setMailbox (shutdown (mMailbox e)) e) c)
  end.

(** [finish]: [joinOrDetach] of the engine thread, [None] while it waits; then the end of it. *)
Definition joinThread (c : NetLinkCore) : option NetLinkCore :=
  match mThread c with
  | None => Some c
  | Some g => match runs c !! g with Some r => if decide (thread r = Over) then Some (c <| mThread := None |>) else None | None => None end
  end.
Definition resetEngine (c : NetLinkCore) : NetLinkCore := c <| mEngine := None |> <| mLogSink := None |>.

(** [deliver], on the thread of the engine [from]. *)
Definition deliver (from : nat) (batch : EventBatch) (c : NetLinkCore) : NetLinkCore := post (Deliver (mCallbacks c) from batch) c.

Definition dispatch (callbacks : NetLinkCallbacks) (n : Network) (event : EngineEvent) (e : NetworkEngine) :
    option Callback * NetworkEngine :=
  match event with
  | PeerDiscovered _ info => (if onPeerDiscovered callbacks then Some (CallPeerDiscovered info) else None, e)
  | PeerLost peer => (if onPeerLost callbacks then Some (CallPeerLost peer) else None, e)
  | ConnectionRequest _ info => (if onConnectionRequest callbacks then Some (CallConnectionRequest info) else None, e)
  | Connected _ info => (if onConnected callbacks then Some (CallConnected info) else None, e)
  | Disconnected peer reason => (if onDisconnected callbacks then Some (CallDisconnected peer reason) else None, e)
  | MessageEvent peer lane message media =>
    let '(message, e) := takeMessage message media e in
    (match message with Some m => if onMessage callbacks then Some (CallMessage peer lane m) else None | None => None end, e)
  | AdapterChanged info =>
    (if onNetworkAdapterChanged callbacks then Some (CallNetworkAdapterChanged (adapterAt (infoAddress info) n)) else None, e)
  end.

(** One event of the task under way. *)
Definition dispatchNext (to from : nat) (event : EngineEvent) (c : NetLinkCore) : NetLinkCore :=
  match runs c !! to, runs c !! from with
  | Some callee, Some r =>
    let '(call, e) := dispatch (given callee) (mNetwork c) event (eng r) in
    let c := c <| runs ::= alter (fun r => r <| eng := e |>) from |> <| dispatched ::= fun l => l ++ [(from, event)] |> in
    match call with Some call => c <| called ::= fun l => l ++ [(to, call)] |> | None => c end
  | _, _ => c
  end.

(** *** Passed on to the engine *)

(** A use of the mailbox of the engine, or [fallback] without one. *)
Definition passOn {A} (fallback : A) (f : Box.Mailbox -> A * Box.Mailbox) (c : NetLinkCore) : A * NetLinkCore :=
  match mEngine c, engine c with
  | Some g, Some r => let '(a, m) := f (mMailbox (eng r)) in (a, onEngine g (setMailbox m) c)
  | _, _ => (fallback, c)
  end.
Definition look {A} (fallback : A) (f : Box.Mailbox -> A) (c : NetLinkCore) : A :=
  match engine c with Some r => f (mMailbox (eng r)) | None => fallback end.

Definition startDiscovery : NetLinkCore -> bool * NetLinkCore :=
  passOn false (fun m => if negb (Box.isRunning m) then (false, m) else (true, setAnnouncing true m)).
Definition stopDiscovery (c : NetLinkCore) : NetLinkCore := (passOn () (fun m => ((), setAnnouncing false m)) c).2.
Definition peers : NetLinkCore -> list PeerInfo := look [] Box.discovered.
Definition connectedPeers : NetLinkCore -> list PeerId := look [] Box.connected.
Definition connect (peer : PeerId) : NetLinkCore -> bool * NetLinkCore := passOn false (Sessions.connect peer).
Definition accept (peer : PeerId) (c : NetLinkCore) : NetLinkCore := (passOn () (fun m => ((), Sessions.accept peer m)) c).2.
Definition decline (peer : PeerId) (c : NetLinkCore) : NetLinkCore := (passOn () (fun m => ((), Sessions.decline peer m)) c).2.
Definition disconnect (peer : PeerId) (c : NetLinkCore) : NetLinkCore := (passOn () (fun m => ((), Sessions.disconnect peer m)) c).2.
Definition send (peer : PeerId) (type : Z) (data : bytes) (lane : PublicLane) (timeout : Z) :
    NetLinkCore -> (SendResult + Box.PushWait) * NetLinkCore :=
  passOn (inl NotRunning) (Sessions.send peer type data lane timeout).
Definition broadcast (type : Z) (data : bytes) (lane : PublicLane) : NetLinkCore -> Z * NetLinkCore :=
  passOn 0 (Sessions.broadcast type data lane).
Definition stats (peer : PeerId) : NetLinkCore -> option PeerStats := look None (Box.stats peer).

(** *** The adapters *)
Definition useAdapter (adapterID : Z) (scanned : option (list NetworkAdapterInternal)) (c : NetLinkCore) : bool * NetLinkCore :=
  let '(found, n) := setActiveAdapter adapterID scanned (mNetwork c) in
  let c := c <| mNetwork := n |> in
  if negb found then (false, c) else (true, (passOn () (fun m => ((), checkInterface m)) c).2).

(** ** The threads *)
Definition after (p : Purpose) : Life := match p with ByStop => Free | ByStart config callbacks => Launching config callbacks end.
Definition tasks (c : NetLinkCore) : Tasks.TaskQueue Task := Tasks.queue (mEvents c).
Definition eventsOf (t : Task) : list EngineEvent := match t with Deliver _ _ b => events b | _ => [] end.

(** [callbacks->onLog(level, text)] *)
Definition callOnLog (to : nat) (level : LogLevel) (line : text) (c : NetLinkCore) : NetLinkCore :=
  c <| logged ::= fun l => l ++ [(to, (level, line))] |>.

(** What is left of a task when it is done: the batch of events is gone; the line is logged;
    the sink is set. *)
Definition taskGone (t : Task) (c : NetLinkCore) : NetLinkCore :=
  match t with
  | Deliver _ from b => onEngine from (fun e => performCall e (DropBatch (batchShare b))) c
  | LogLine to level line => callOnLog to level line c
  | SetLogSink to => c <| eventSink := Some to |>
  end.

(** There is a sink for the log of the start [g]: its [onLog] is set. *)
Definition hasLogSink (g : nat) (c : NetLinkCore) : bool := match runs c !! g with Some r => onLog (given r) | None => false end.

Section Threads.
Context {W : Type} `{!World W} (fuel : nat).

Inductive core_step (c : NetLinkCore) : NetLinkCore -> Prop :=
(* The engine thread: a step and the delivery of its events, the wait, the end of the loop. *)
| cs_begin g r before w b e w' : runs c !! g = Some r -> thread r = Looping -> finished (eng r) = false ->
    beginRound fuel before (eng r) w = Some (b, e, w') ->
    let c1 := c <| runs ::= <[g := mkRun e (given r) Waiting (handedOver r ++ events b)]> |> in
    core_step c (if bool_decide (events b = []) then c1 else deliver g b c1)
| cs_wait g r now w e w' : runs c !! g = Some r -> thread r = Waiting -> endRound now (eng r) w = Some ((), e, w') ->
    core_step c (c <| runs ::= <[g := r <| eng := e |> <| thread := Looping |>]> |>)
| cs_end g r w e w' : runs c !! g = Some r -> thread r = Looping -> finished (eng r) = true -> endLoop (eng r) w = Some ((), e, w') ->
    core_step c (c <| runs ::= <[g := r <| eng := e |> <| thread := Over |>]> |>)
(* An exception ends the loop between two steps. *)
| cs_fail g r w b e w' : runs c !! g = Some r -> thread r <> Over -> failLoop (eng r) w = Some (b, e, w') ->
    let c1 := c <| runs ::= <[g := mkRun e (given r) Over (handedOver r ++ events b)]> |> in
    core_step c (if bool_decide (events b = []) then c1 else deliver g b c1)
(* Any thread. *)
| cs_call g k : callOk k -> core_step c (onEngine g (fun e => performCall e k) c)
| cs_log g level line : hasLogSink g c = true -> core_step c (post (LogLine g level line) c)
| cs_network n : core_step c (c <| mNetwork := n |>)
(* The event thread. *)
| cs_quiet l s : l = Tasks.Quiet \/ l = Tasks.Spurious -> Tasks.step l (mEvents c) s -> core_step c (c <| mEvents := s |>)
| cs_take t s : Tasks.step (Tasks.Took t) (mEvents c) s -> core_step c (c <| mEvents := s |> <| rest := eventsOf t |>)
| cs_dispatch to from b ev evs : Tasks.mThread (tasks c) = Some (Tasks.Working (Deliver to from b)) -> rest c = ev :: evs ->
    core_step c ((dispatchNext to from ev c) <| rest := evs |>)
| cs_done t s : Tasks.mThread (tasks c) = Some (Tasks.Working t) -> rest c = [] -> Tasks.step Tasks.Finished (mEvents c) s ->
    core_step c (taskGone t (c <| mEvents := s |>))
| cs_say g t level line : Tasks.mThread (tasks c) = Some (Tasks.Working t) -> eventSink c = Some g -> core_step c (callOnLog g level line c)
(* [stop], not from the event thread. *)
| cs_stop c1 : requestStop c = Some c1 -> core_step c (c1 <| stops ::= S |>)
| cs_stop_lock n : stops c = S n -> life c = Free -> core_step c (c <| stops := n |> <| life := Finishing ByStop |>)
(* [start] *)
| cs_start config callbacks : life c = Free -> mayStart config c = true ->
    core_step c (c <| life := Finishing (ByStart config callbacks) |>)
| cs_launch scanned lib generated config callbacks c1 : life c = Launching config callbacks ->
    is_uint 32 (maxSendRate config) -> launch scanned lib generated config callbacks c = Some c1 -> core_step c (c1 <| life := Free |>)
(* [finish] *)
| cs_nothing p : life c = Finishing p -> mEngine c = None -> core_step c (c <| life := after p |>)
| cs_join p g c1 : life c = Finishing p -> mEngine c = Some g -> joinThread c = Some c1 -> core_step c (c1 <| life := Draining p |>)
| cs_drain p s : life c = Draining p -> Tasks.step Tasks.Drains (mEvents c) s -> core_step c (c <| mEvents := s |> <| life := Waits p |>)
| cs_drained p s : life c = Waits p -> Tasks.step Tasks.Joined (mEvents c) s -> core_step c (c <| mEvents := s |> <| life := Resetting p |>)
| cs_idle p : life c = Draining p -> (Tasks.beginDrain (tasks c)).1 = false -> core_step c (c <| life := Resetting p |>)
| cs_reset p : life c = Resetting p -> core_step c ((resetEngine c) <| life := after p |>).

Definition core_run (deps : NetLinkCoreDependencies) : NetLinkCore -> Prop := rtc core_step (newCore deps).

(** ** The invariant *)

(** Events with the number of the engine they come from: what waits in the queue, what is
    left of the task under way, and what all engines handed over, one after another. *)
Definition tagged (t : Task) : list (nat * EngineEvent) :=
  match t with Deliver _ from b => map (pair from) (events b) | _ => [] end.
Definition queued (q : Tasks.TaskQueue Task) : list (nat * EngineEvent) := concat (map tagged (Tasks.mQueue q)).
Definition underWay (q : Tasks.TaskQueue Task) (left : list EngineEvent) : list (nat * EngineEvent) :=
  match Tasks.mThread q with Some (Tasks.Working (Deliver _ from _)) => map (pair from) left | _ => [] end.
Definition history (hs : list (list EngineEvent)) : list (nat * EngineEvent) := concat (imap (fun g h => map (pair g) h) hs).

Definition atWork (q : Tasks.TaskQueue Task) : option Task :=
  match Tasks.mThread q with Some (Tasks.Working t) => Some t | _ => None end.

Definition life_ok (c : NetLinkCore) : Prop :=
  match life c with
  | Free | Finishing _ => Tasks.caller (mEvents c) = Tasks.Idle /\ (is_Some (mEngine c) <-> Tasks.mRunning (tasks c) = true)
  | Draining _ => Tasks.caller (mEvents c) = Tasks.Idle /\ Tasks.mRunning (tasks c) = true /\ mThread c = None /\ is_Some (mEngine c)
  | Waits _ => Tasks.caller (mEvents c) <> Tasks.Idle /\ mThread c = None /\ is_Some (mEngine c)
  | Resetting _ => Tasks.caller (mEvents c) = Tasks.Idle /\ Tasks.mRunning (tasks c) = false /\ mThread c = None
  | Launching _ _ => Tasks.caller (mEvents c) = Tasks.Idle /\ Tasks.mRunning (tasks c) = false /\ mEngine c = None
  end.

Record core_ok (c : NetLinkCore) : Prop := {
  co_tasks : Tasks.ok (mEvents c);
  co_runs : forall g r, runs c !! g = Some r -> engine_run fuel (handedOver r) (eng r);
  co_live : forall g r, runs c !! g = Some r -> thread r <> Over -> mThread c = Some g;
  co_thread : forall g, mThread c = Some g -> mEngine c = Some g;
  co_engine : forall g, mEngine c = Some g -> length (runs c) = S g /\ mCallbacks c = g;
  co_events : dispatched c ++ underWay (tasks c) (rest c) ++ queued (tasks c) = history (handedOver <$> runs c);
  co_match : forall to from b, Deliver to from b ∈ Tasks.mQueue (tasks c) \/ atWork (tasks c) = Some (Deliver to from b) ->
    to = from /\ is_Some (runs c !! from);
  co_rest : match atWork (tasks c) with Some (Deliver _ _ _) => True | _ => rest c = [] end;
  co_quiet : Tasks.mRunning (tasks c) = false -> queued (tasks c) = [];
  co_life : life_ok c;
}.

Lemma newCore_ok deps : core_ok (newCore deps).
Proof.
  split; cbn; try done; try (intros ? ? H; by rewrite lookup_nil in H).
  intros to from b [H|H]; [by apply elem_of_nil in H|done].
Qed.

(** Changes that only concern the engines themselves. *)
Lemma core_runs_ok c l : core_ok c -> length l = length (runs c) ->
  (forall g r', l !! g = Some r' -> exists r, runs c !! g = Some r /\ (thread r' <> Over -> thread r <> Over) /\
    handedOver r' = handedOver r /\ engine_run fuel (handedOver r') (eng r')) ->
  core_ok (c <| runs := l |>).
Proof.
  intros [H1 H2 H3 H4 H5 H6 H7 H8 H9 H10] Hlen Hl.
  assert (Hh : handedOver <$> l = handedOver <$> runs c).
  { apply list_eq. intros g. rewrite !list_lookup_fmap. destruct (l !! g) as [r'|] eqn:E.
    - destruct (Hl g r' E) as (r & -> & _ & Eh & _). cbn. by f_equal.
    - apply lookup_ge_None in E. by rewrite lookup_ge_None_2 by lia. }
  split; try done.
  - intros g r' E. by destruct (Hl g r' E) as (r & _ & _ & _ & Hr).
  - intros g r' E Ho. destruct (Hl g r' E) as (r & Er & Ht & _). by eapply H3, Ht.
  - intros g E. cbn. rewrite Hlen. by apply H5.
  - cbn. by rewrite Hh.
  - intros to from b Hb. destruct (H7 to from b Hb) as [-> Hf]. split; [done|]. cbn. apply lookup_lt_is_Some. rewrite Hlen. by apply lookup_lt_is_Some.
Qed.

Lemma alter_ok c g f : core_ok c ->
  (forall r, runs c !! g = Some r -> (thread (f r) <> Over -> thread r <> Over) /\ handedOver (f r) = handedOver r /\ engine_run fuel (handedOver r) (eng (f r))) ->
  core_ok (c <| runs ::= alter f g |>).
Proof.
  intros Hok Hf. apply (core_runs_ok c (alter f g (runs c)) Hok); [by rewrite length_alter|]. intros g' r'. destruct (decide (g = g')) as [<-|Hne].
  - rewrite list_lookup_alter_eq. intros (r & Er & ->)%fmap_Some. destruct (Hf r Er) as (Ht & Eh & He). exists r. by rewrite Eh.
  - rewrite list_lookup_alter_ne by done. intros Er. exists r'. split_and!; try done. by apply (co_runs _ Hok g').
Qed.
Lemma onEngine_ok c g f : core_ok c -> (forall hist e, engine_run fuel hist e -> engine_run fuel hist (f e)) -> core_ok (onEngine g f c).
Proof. intros Hok Hf. apply alter_ok; [done|]. intros r Er. split_and!; try done. by apply Hf, (co_runs _ Hok g). Qed.

(** The engine that runs is the last one started, and its events are for its callbacks. *)
Lemma live_last c g r : core_ok c -> runs c !! g = Some r -> thread r <> Over ->
  mThread c = Some g /\ mEngine c = Some g /\ mCallbacks c = g /\ length (runs c) = S g /\ Tasks.mRunning (tasks c) = true.
Proof.
  intros Hok Er Ht. pose proof (co_live _ Hok _ _ Er Ht) as Hth. pose proof (co_thread _ Hok _ Hth) as He.
  destruct (co_engine _ Hok _ He) as [Hl Hc]. split_and!; try done. pose proof (co_life _ Hok) as HL. unfold life_ok in HL.
  destruct (life c); try (by apply HL; rewrite He); intuition congruence.
Qed.

Lemma history_app hs h : history (hs ++ [h]) = history hs ++ map (pair (length hs)) h.
Proof. unfold history. rewrite imap_app, concat_app. cbn. by rewrite Nat.add_0_r, app_nil_r. Qed.

(** The last engine hands something over. *)
Lemma history_last rs g r e evs st : rs !! g = Some r -> length rs = S g ->
  history (handedOver <$> <[g := mkRun e (given r) st (handedOver r ++ evs)]> rs) = history (handedOver <$> rs) ++ map (pair g) evs.
Proof.
  intros Er Hl. destruct rs as [|x rs] using rev_ind; [done|]. rewrite length_app in Hl. cbn in Hl. assert (Hg : g = length rs) by lia. subst g.
  rewrite lookup_app_r, Nat.sub_diag in Er by lia. injection Er as ->. rewrite insert_app_r_alt, Nat.sub_diag by lia. cbn [list_insert insert].
  rewrite !fmap_app. cbn [fmap list_fmap]. rewrite !history_app, length_fmap. cbn. by rewrite map_app, app_assoc.
Qed.

(** *** What the steps of the queue leave *)
Abbreviation System := (Tasks.System Task).

Lemma notify_atWork (q : Tasks.TaskQueue Task) : atWork (Tasks.notify q) = atWork q.
Proof. unfold atWork, Tasks.notify. by destruct (Tasks.mThread q) as [[]|] eqn:E; cbn; rewrite ?E. Qed.

Lemma quiet_step l (s s' : System) : l = Tasks.Quiet \/ l = Tasks.Spurious -> Tasks.ok s -> Tasks.step l s s' ->
  Tasks.mQueue (Tasks.queue s') = Tasks.mQueue (Tasks.queue s) /\ atWork (Tasks.queue s') = atWork (Tasks.queue s) /\
  (Tasks.caller s' = Tasks.Idle <-> Tasks.caller s = Tasks.Idle) /\
  (Tasks.mRunning (Tasks.queue s') = Tasks.mRunning (Tasks.queue s) \/ Tasks.caller s <> Tasks.Idle /\ Tasks.mQueue (Tasks.queue s) = []).
Proof.
  intros Hl Hok Hs. destruct Hs as [|s n Hn| | | | |s Hc| |s Ht| |s Ht Hw|]; try (by destruct Hl).
  - destruct (Tasks.notify_fields (Tasks.queue s)) as (Er & _ & Eq). cbn -[Tasks.notify]. rewrite Eq, Er, notify_atWork. intuition.
  - destruct (Tasks.notify_fields (Tasks.queue s)) as (Er & _ & Eq). cbn -[Tasks.notify]. rewrite Eq, Er, notify_atWork, Hc. intuition congruence.
  - cbn. unfold atWork. cbn. rewrite Ht. intuition.
  - pose proof (Tasks.ok_open _ Hok) as Ho. destruct s as [q k o]. cbn -[Tasks.turn] in *.
    destruct (Tasks.turn_turned q) as [Hr|Hr|Hr Hd Hq|t rs Hr Hq]; unfold atWork; cbn in *; rewrite ?Ht; try (by destruct (Hw t)); split_and!; auto.
    right. split; [|done]. intros ->. specialize (Ho eq_refl Hr). congruence.
Qed.

Lemma core_take_step t (s s' : System) : Tasks.step (Tasks.Took t) s s' ->
  Tasks.mQueue (Tasks.queue s) = t :: Tasks.mQueue (Tasks.queue s') /\ atWork (Tasks.queue s) = None /\ atWork (Tasks.queue s') = Some t /\
  Tasks.caller s' = Tasks.caller s /\ Tasks.mRunning (Tasks.queue s') = Tasks.mRunning (Tasks.queue s).
Proof.
  intros Hs. pose proof (Tasks.step_queue _ _ _ Hs) as Hq. inversion Hs as [| | | | | | | | |s0 t0 Ht Hw| |]; subst. destruct s as [q k o].
  cbn -[Tasks.turn] in *. unfold atWork. rewrite Ht, Hw. split_and!; try done.
  destruct (Tasks.turn_turned q); cbn in *; done.
Qed.

Lemma done_step (s s' : System) : Tasks.step Tasks.Finished s s' ->
  Tasks.mQueue (Tasks.queue s') = Tasks.mQueue (Tasks.queue s) /\ atWork (Tasks.queue s') = None /\
  Tasks.caller s' = Tasks.caller s /\ Tasks.mRunning (Tasks.queue s') = Tasks.mRunning (Tasks.queue s).
Proof. intros Hs. by inversion Hs; subst. Qed.

Lemma drain_begins (s s' : System) : Tasks.step Tasks.Drains s s' ->
  Tasks.mQueue (Tasks.queue s') = Tasks.mQueue (Tasks.queue s) /\ atWork (Tasks.queue s') = atWork (Tasks.queue s) /\
  Tasks.caller s' <> Tasks.Idle /\ Tasks.mRunning (Tasks.queue s') = Tasks.mRunning (Tasks.queue s).
Proof.
  intros Hs. inversion Hs as [| | | | |s0 q Hc Hq| | | | | |]; subst. unfold Tasks.beginDrain in Hq.
  destruct (negb _); [done|]. by injection Hq as <-.
Qed.

Lemma drain_ends (s s' : System) : Tasks.ok s -> Tasks.step Tasks.Joined s s' ->
  Tasks.mQueue (Tasks.queue s') = Tasks.mQueue (Tasks.queue s) /\ atWork (Tasks.queue s) = None /\ atWork (Tasks.queue s') = None /\
  Tasks.caller s' = Tasks.Idle /\ Tasks.mRunning (Tasks.queue s') = false /\ Tasks.mRunning (Tasks.queue s) = false.
Proof.
  intros Hok Hs. pose proof (Tasks.queue_step_ok _ _ _ Hok Hs) as Hok'. pose proof (Tasks.step_queue _ _ _ Hs) as Hq.
  inversion Hs as [| | | | | | |s0 q Hc Hj| | | |]; subst. pose proof (Tasks.ok_busy _ Hok) as Hb. rewrite Hc in Hb.
  unfold Tasks.joinOrDetach in Hj. destruct (Tasks.mThread (Tasks.queue s)) as [[]|] eqn:Et; try done; [|by destruct Hb].
  injection Hj as <-. assert (Er : Tasks.mRunning (Tasks.queue s) = false).
  { destruct (Tasks.mRunning (Tasks.queue s)) eqn:E; [|done]. destruct (Tasks.ok_running _ Hok E) as (w & Hw & Hne). congruence. }
  unfold atWork. cbn. by rewrite Et.
Qed.

(** *** Every step keeps it *)
Lemma underWay_same q q' left : atWork q' = atWork q -> underWay q' left = underWay q left.
Proof. unfold underWay, atWork. destruct (Tasks.mThread q) as [[]|], (Tasks.mThread q') as [[]|]; try done; intros H; by injection H as ->. Qed.
Lemma underWay_none q left : atWork q = None -> underWay q left = [].
Proof. unfold underWay, atWork. by destruct (Tasks.mThread q) as [[]|]. Qed.
Lemma underWay_some q t left : atWork q = Some t -> underWay q left = match t with Deliver _ from _ => map (pair from) left | _ => [] end.
Proof. unfold underWay, atWork. destruct (Tasks.mThread q) as [[]|]; try done. by intros [= ->]. Qed.

(** The queue moves, with the same tasks in it and the same one under way. *)
Lemma moves_ok c s l : core_ok c -> Tasks.ok s ->
  Tasks.mQueue (Tasks.queue s) = Tasks.mQueue (tasks c) -> atWork (Tasks.queue s) = atWork (tasks c) ->
  (Tasks.mRunning (Tasks.queue s) = false -> Tasks.mRunning (tasks c) = false \/ Tasks.mQueue (tasks c) = []) ->
  life_ok (c <| mEvents := s |> <| life := l |>) -> core_ok (c <| mEvents := s |> <| life := l |>).
Proof.
  intros [H1 H2 H3 H4 H5 H6 H7 H8 H9 H10] Hs Eq Ew Hr Hl. unfold queued, tasks in *. split; unfold queued, tasks; cbn; try done.
  - rewrite (underWay_same _ _ _ Ew), Eq. exact H6.
  - rewrite Eq, Ew. exact H7.
  - rewrite Ew. exact H8.
  - intros E. rewrite Eq. destruct (Hr E) as [E'|E']; [exact (H9 E')|by rewrite E'].
Qed.

Lemma life_same c l : core_ok c -> life_ok (c <| life := l |>) -> core_ok (c <| life := l |>).
Proof. intros [H1 H2 H3 H4 H5 H6 H7 H8 H9 H10] Hl. by split. Qed.

Lemma post_ok c t : core_ok c -> (forall to from b, t <> Deliver to from b) -> core_ok (post t c).
Proof.
  intros [H1 H2 H3 H4 H5 H6 H7 H8 H9 H10] Ht. assert (Et : tagged t = []) by (destruct t as [to from b| |]; [by destruct (Ht to from b)|done..]).
  assert (Eq : queued (tasks (post t c)) = queued (tasks c)) by (unfold queued; cbn; rewrite map_app, concat_app; cbn; by rewrite Et, !app_nil_r).
  split; try done.
  - by apply Tasks.posted_ok.
  - rewrite Eq. exact H6.
  - intros to from b [[Hin|Hin]%elem_of_app|Hw]; [apply (H7 to from b); by left| |apply (H7 to from b); by right].
    apply list_elem_of_singleton in Hin as E. by destruct (Ht to from b).
  - rewrite Eq. exact H9.
Qed.

(** The engine thread hands events over. *)
Lemma handover_ok c g r b e th : core_ok c -> runs c !! g = Some r -> thread r <> Over ->
  engine_run fuel (handedOver r ++ events b) e ->
  let c1 := c <| runs ::= <[g := mkRun e (given r) th (handedOver r ++ events b)]> |> in
  core_ok (if bool_decide (events b = []) then c1 else deliver g b c1).
Proof.
  intros Hok Er Ht Hrun' c1. destruct (live_last c g r Hok Er Ht) as (Hth & He & Hc & Hl & Hr).
  pose proof Hok as [H1 H2 H3 H4 H5 H6 H7 H8 H9 H10].
  assert (Hruns : forall g' r', runs c1 !! g' = Some r' -> g' = g /\ r' = mkRun e (given r) th (handedOver r ++ events b) \/ runs c !! g' = Some r').
  { intros g' r' E. unfold c1 in E. cbn in E. destruct (decide (g = g')) as [<-|Hne]; [left|right; by rewrite list_lookup_insert_ne in E].
    rewrite list_lookup_insert_eq in E by (apply lookup_lt_is_Some; by eexists). by injection E as <-. }
  assert (Hlen : length (runs c1) = length (runs c)) by apply length_insert.
  assert (H2' : forall g r, runs c1 !! g = Some r -> engine_run fuel (handedOver r) (eng r)).
  { intros g' r' [[-> ->]|E]%Hruns; [done|by eapply H2]. }
  assert (H3' : forall g r, runs c1 !! g = Some r -> thread r <> Over -> mThread c = Some g).
  { intros g' r' [[-> ->]|E]%Hruns Ho; [done|by eapply H3]. }
  assert (H7' : forall to from b', Deliver to from b' ∈ Tasks.mQueue (tasks c) \/ atWork (tasks c) = Some (Deliver to from b') ->
    to = from /\ is_Some (runs c1 !! from)).
  { intros to from b' Hin. destruct (H7 to from b' Hin) as [-> Hs]. split; [done|]. apply lookup_lt_is_Some. rewrite Hlen. by apply lookup_lt_is_Some. }
  pose proof (history_last (runs c) g r e (events b) th Er Hl) as Hh.
  case_bool_decide as Eb.
  - split; try done.
    + intros g' E. rewrite Hlen. by apply H5.
    + etrans; [exact H6|]. symmetry. etrans; [exact Hh|]. rewrite Eb. apply app_nil_r.
  - split; try done.
    + by apply Tasks.posted_ok.
    + intros g' E. unfold deliver. cbn. rewrite length_insert. by apply H5.
    + symmetry. etrans; [exact Hh|]. rewrite <- H6. unfold queued. cbn. rewrite map_app, concat_app. cbn. by rewrite app_nil_r, !app_assoc.
    + intros to from b' [[Hin|Hin]%elem_of_app|Hw]; [apply (H7' to from b'); by left| |apply (H7' to from b'); by right].
      apply list_elem_of_singleton in Hin. injection Hin as -> -> ->. split; [exact Hc|]. apply lookup_lt_is_Some. unfold deliver. cbn. rewrite length_insert. lia.
    + intros E. change (Tasks.mRunning (tasks c) = false) in E. congruence.
Qed.

(** Every event is dispatched to the callbacks of the engine that handed it over. *)
Lemma dispatch_run hist callbacks n ev e : engine_run fuel hist e -> engine_run fuel hist (dispatch callbacks n ev e).2.
Proof.
  intros Hr. destruct ev as [| | | | |peer lane m media|]; try done. cbn. unfold takeMessage.
  destruct media as [i|]; [|done]. pose proof (er_call fuel hist e (TakeMessage i) Hr I) as H. cbn in H.
  destruct (mInboxes e !! i) as [[|]|]; done.
Qed.
Lemma core_dispatch_ok c to from b ev evs : core_ok c -> Tasks.mThread (tasks c) = Some (Tasks.Working (Deliver to from b)) -> rest c = ev :: evs ->
  core_ok ((dispatchNext to from ev c) <| rest := evs |>) /\
  dispatched (dispatchNext to from ev c) = dispatched c ++ [(from, ev)].
Proof.
  intros Hok Hw Hrest. assert (Ew : atWork (tasks c) = Some (Deliver to from b)) by (unfold atWork; by rewrite Hw).
  destruct (co_match _ Hok to from b (or_intror Ew)) as [-> [r Er]]. unfold dispatchNext. rewrite Er.
  pose proof (dispatch_run _ (given r) (mNetwork c) ev _ (co_runs _ Hok from r Er)) as Hr.
  destruct (dispatch (given r) (mNetwork c) ev (eng r)) as [call e]. cbn [snd] in Hr.
  assert (Hok1 : core_ok (c <| runs ::= alter (fun r => r <| eng := e |>) from |>)).
  { apply alter_ok; [done|]. intros r' E. rewrite Er in E. injection E as <-. done. }
  destruct Hok1 as [H1 H2 H3 H4 H5 H6 H7 H8 H9 H10].
  assert (E6 : (dispatched c ++ [(from, ev)]) ++ underWay (tasks c) evs ++ queued (tasks c) =
    history (handedOver <$> alter (fun r => r <| eng := e |>) from (runs c))).
  { refine (eq_trans _ H6). change (rest (c <| runs ::= alter (fun r => r <| eng := e |>) from |>)) with (rest c).
    rewrite Hrest, <- app_assoc. change (tasks (c <| runs ::= alter (fun r => r <| eng := e |>) from |>)) with (tasks c).
    by rewrite !(underWay_some _ _ _ Ew). }
  assert (E8 : forall left, match atWork (tasks c) with Some (Deliver _ _ _) => True | _ => left = @nil EngineEvent end) by (intros left; by rewrite Ew).
  destruct call; (split; [|done]); split; try done; apply E8.
Qed.

(** The event thread takes a task, and is done with it. *)
Lemma life_moves c s lf : life_ok c -> (Tasks.caller s = Tasks.Idle <-> Tasks.caller (mEvents c) = Tasks.Idle) ->
  (Tasks.mRunning (Tasks.queue s) = Tasks.mRunning (tasks c) \/ Tasks.caller (mEvents c) <> Tasks.Idle) ->
  life_ok (c <| mEvents := s |> <| rest := lf |>).
Proof.
  unfold life_ok, tasks. cbn. intros H Hc [Hr|Hr]; destruct (life c); rewrite ?Hc, ?Hr; try done; destruct H as [H _]; by rewrite H in Hr.
Qed.

Lemma core_take_ok c t s : core_ok c -> Tasks.step (Tasks.Took t) (mEvents c) s -> core_ok (c <| mEvents := s |> <| rest := eventsOf t |>).
Proof.
  intros Hok Hs. pose proof (Tasks.queue_step_ok _ _ _ (co_tasks _ Hok) Hs) as Hs'. destruct (core_take_step _ _ _ Hs) as (Eq & Ew & Ew' & Ec & Er).
  pose proof Hok as [H1 H2 H3 H4 H5 H6 H7 H8 H9 H10]. unfold tasks, queued in *. rewrite (underWay_none _ _ Ew), Eq in H6. cbn in H6.
  split; try done; unfold tasks, queued; cbn.
  - refine (eq_trans _ H6). f_equal. rewrite (underWay_some _ _ _ Ew'). by destruct t.
  - intros to from b [Hin|Hin]; apply (H7 to from b).
    + left. rewrite Eq. by right.
    + left. rewrite Eq, Ew' in *. injection Hin as ->. left.
  - rewrite Ew'. by destruct t.
  - intros E. rewrite Er in E. specialize (H9 E). rewrite Eq in H9. cbn in H9. by apply app_eq_nil in H9 as [_ ?].
  - apply life_moves; [done|by rewrite Ec|by left].
Qed.

Lemma done_ok c t s : core_ok c -> Tasks.mThread (tasks c) = Some (Tasks.Working t) -> rest c = [] -> Tasks.step Tasks.Finished (mEvents c) s ->
  core_ok (taskGone t (c <| mEvents := s |>)).
Proof.
  intros Hok Hw Hrest Hs. pose proof (Tasks.queue_step_ok _ _ _ (co_tasks _ Hok) Hs) as Hs'. destruct (done_step _ _ Hs) as (Eq & Ew & Ec & Er).
  pose proof Hok as [H1 H2 H3 H4 H5 H6 H7 H8 H9 H10]. assert (Ew0 : atWork (tasks c) = Some t) by (unfold atWork; by rewrite Hw).
  assert (E0 : underWay (tasks c) (rest c) = []) by (rewrite Hrest, (underWay_some _ _ _ Ew0); by destruct t).
  assert (Hok1 : core_ok (c <| mEvents := s |>)).
  { unfold tasks, queued in *. rewrite E0 in H6. split; try done; unfold tasks, queued; cbn.
    - by rewrite (underWay_none _ _ Ew), Eq.
    - rewrite Eq, Ew. intros to from b [Hin|Hin]; [|done]. apply (H7 to from b). by left.
    - by rewrite Ew.
    - by rewrite Er, Eq.
    - pose proof (life_moves c s (rest c) H10) as HL. rewrite Ec in HL. specialize (HL ltac:(done) (or_introl Er)). by destruct c. }
  destruct t as [to from b|to level line|to]; [|by destruct Hok1; split..]. apply onEngine_ok; [done|]. intros hist e He. by apply er_call.
Qed.

(** [start], after [finish]. *)
Lemma launched_ok c s sink n e callbacks : core_ok c -> mEngine c = None -> Tasks.mThread (tasks c) = None ->
  Tasks.ok s -> Tasks.caller s = Tasks.Idle -> Tasks.mRunning (Tasks.queue s) = true -> atWork (Tasks.queue s) = None ->
  queued (Tasks.queue s) = queued (tasks c) -> (forall to from b, Deliver to from b ∈ Tasks.mQueue (Tasks.queue s) -> Deliver to from b ∈ Tasks.mQueue (tasks c)) ->
  engine_run fuel [] e ->
  core_ok (mkCore (mDependencies c) (Some (length (runs c))) (length (runs c)) sink (Some (length (runs c))) s n
    (runs c ++ [mkRun e callbacks Looping []]) Free (stops c) (rest c) (dispatched c) (called c) None (logged c)).
Proof.
  intros Hok He Ht Hs Hc Hr Hw Eq Hin Hrun. pose proof Hok as [H1 H2 H3 H4 H5 H6 H7 H8 H9 H10].
  assert (Hruns : forall g r, (runs c ++ [mkRun e callbacks Looping []]) !! g = Some r ->
    runs c !! g = Some r \/ g = length (runs c) /\ r = mkRun e callbacks Looping []).
  { intros g r [E|[Hg E]]%lookup_app_Some; [by left|right]. apply list_lookup_singleton_Some in E as [E <-]. split; [lia|done]. }
  assert (Ew : atWork (tasks c) = None) by (unfold atWork; by rewrite Ht).
  assert (Hth : mThread c = None) by (destruct (mThread c) as [g|] eqn:E; [specialize (H4 g eq_refl); congruence|done]).
  split; try done; unfold tasks; cbn.
  - intros g r [E|[-> ->]]%Hruns; [by eapply H2|done].
  - intros g r [E|[-> ->]]%Hruns Ho; [|done]. specialize (H3 g r E Ho). congruence.
  - intros g [= <-]. rewrite length_app. cbn. split; [lia|done].
  - rewrite (underWay_none _ _ Hw), Eq. rewrite (underWay_none _ _ Ew) in H6.
    assert (Eh : handedOver <$> (runs c ++ [mkRun e callbacks Looping []]) = (handedOver <$> runs c) ++ [[]]) by (rewrite fmap_app; reflexivity).
    refine (eq_trans H6 _). symmetry. refine (eq_trans (f_equal history Eh) (eq_trans (history_app _ _) _)). apply app_nil_r.
  - intros to from b [Hi|Hi]; [|congruence]. destruct (H7 to from b (or_introl (Hin _ _ _ Hi))) as [-> [r Er]]. split; [done|].
    exists r. by apply lookup_app_l_Some.
  - rewrite Hw. by rewrite Ew in H8.
  - congruence.
Qed.

Lemma launch_eq scanned lib generated config callbacks c q : Tasks.start (tasks c) = Some q -> mThread c = None ->
  launch scanned lib generated config callbacks c = Some (mkCore (mDependencies c) (Some (length (runs c))) (length (runs c))
    (if onLog callbacks then Some (length (runs c)) else None) (Some (length (runs c)))
    (if onLog callbacks then Tasks.mkSystem (Tasks.post (SetLogSink (length (runs c))) q) (Tasks.caller (mEvents c)) (S (Tasks.owed (mEvents c)))
     else Tasks.mkSystem q (Tasks.caller (mEvents c)) (Tasks.owed (mEvents c)))
    (if localInterface (mDependencies c) then mNetwork c else selectAdapter (enumerateAdapters scanned (mNetwork c)))
    (runs c ++ [mkRun (newEngine lib generated (engineConfigOf (mDependencies c) config callbacks)) callbacks Looping []])
    (life c) (stops c) (rest c) (dispatched c) (called c) None (logged c)).
Proof.
  unfold launch, tasks. destruct c as [d me mc ml mt mv mn rs lf st rt di ca es lg]. cbn -[newEngine selectAdapter enumerateAdapters Tasks.start engineConfigOf].
  intros -> ->. by destruct (onLog callbacks), (localInterface d).
Qed.
Lemma launch_ok c scanned lib generated config callbacks : core_ok c -> life c = Launching config callbacks -> is_uint 32 (maxSendRate config) ->
  exists c1, launch scanned lib generated config callbacks c = Some c1 /\ core_ok (c1 <| life := Free |>).
Proof.
  intros Hok Hlife Hrate. pose proof (co_life _ Hok) as HL. unfold life_ok in HL. rewrite Hlife in HL. destruct HL as (Hc & Hr & He).
  assert (Hth : mThread c = None).
  { destruct (mThread c) as [g|] eqn:E; [|done]. pose proof (co_thread _ Hok g E). congruence. }
  pose proof (Tasks.ok_idle _ (co_tasks _ Hok) Hc Hr) as Hw. fold (tasks c) in Hw.
  set (q := Tasks.mkQueue (Some Tasks.Checking) true false (Tasks.mQueue (tasks c))).
  assert (Hq : Tasks.start (tasks c) = Some q) by (unfold Tasks.start; rewrite Hr; cbn -[tasks]; by rewrite Hw).
  assert (Hsq : Tasks.ok ((mEvents c) <| Tasks.queue := q |>)).
  { refine (Tasks.queue_step_ok _ _ _ (co_tasks _ Hok) _). by apply Tasks.st_start. }
  rewrite (launch_eq scanned lib generated config callbacks c q Hq Hth). eexists. split; [done|].
  set (e := newEngine _ _ _). assert (Hrun : engine_run fuel [] e) by (apply er_start; done). clearbody e.
  set (n := if localInterface (mDependencies c) then _ else _). clearbody n. unfold update, eta_NetLinkCore. cbn.
  destruct (onLog callbacks); [|by apply (launched_ok c _ _ n e callbacks Hok He Hw Hsq)].
  apply (launched_ok c _ _ n e callbacks Hok He Hw (Tasks.posted_ok (SetLogSink (length (runs c))) _ Hsq)); try done.
  - unfold queued. cbn. rewrite map_app, concat_app. cbn. by rewrite app_nil_r.
  - cbn. intros to from b [Hi|Hi]%elem_of_app; [done|by apply list_elem_of_singleton in Hi].
Qed.

(** [finish] *)
Lemma join_ok c p g c1 : core_ok c -> life c = Finishing p -> mEngine c = Some g -> joinThread c = Some c1 -> core_ok (c1 <| life := Draining p |>).
Proof.
  intros Hok Hl He Hj. pose proof Hok as [H1 H2 H3 H4 H5 H6 H7 H8 H9 H10]. unfold life_ok in H10. rewrite Hl in H10. destruct H10 as [Hc Hr].
  assert (Hrun : Tasks.mRunning (tasks c) = true) by (apply Hr; by rewrite He). unfold joinThread in Hj.
  destruct (mThread c) as [g'|] eqn:Eth.
  - destruct (runs c !! g') as [r|] eqn:Er; [|done]. case_decide as Ho; [|done]. injection Hj as <-. split; try done.
    intros g0 r0 E0 Ho0. specialize (H3 g0 r0 E0 Ho0). injection H3 as <-. cbn in E0. congruence.
  - injection Hj as <-. split; try done; cbn; by rewrite Eth.
Qed.

Lemma core_quiet_ok c l s : core_ok c -> l = Tasks.Quiet \/ l = Tasks.Spurious -> Tasks.step l (mEvents c) s -> core_ok (c <| mEvents := s |>).
Proof.
  intros Hok Hl Hs. destruct (quiet_step l _ _ Hl (co_tasks _ Hok) Hs) as (Eq & Ew & Ec & Er).
  pose proof (Tasks.queue_step_ok _ _ _ (co_tasks _ Hok) Hs) as Hs'.
  assert (HL : life_ok (c <| mEvents := s |> <| rest := rest c |>)) by (apply life_moves; [apply Hok|done|intuition]).
  refine (eq_rect _ core_ok (moves_ok c s (life c) Hok Hs' Eq Ew _ _) _ _); [| |by destruct c].
  - intros E. destruct Er as [Er|[_ Er]]; [left|by right]. unfold tasks. congruence.
  - by destruct c.
Qed.

Lemma core_insert_ok c g r r' : core_ok c -> runs c !! g = Some r -> thread r <> Over -> handedOver r' = handedOver r ->
  engine_run fuel (handedOver r) (eng r') -> core_ok (c <| runs ::= <[g := r']> |>).
Proof.
  intros Hok Er Ht Eh Hrun. apply (core_runs_ok c (<[g := r']> (runs c)) Hok); [apply length_insert|]. intros g' x. destruct (decide (g = g')) as [<-|Hne].
  - rewrite list_lookup_insert_eq by (apply lookup_lt_is_Some; by eexists). intros [= <-]. exists r. by rewrite Eh.
  - rewrite list_lookup_insert_ne by done. intros Ex. exists x. split_and!; try done. by apply (co_runs _ Hok g').
Qed.

Lemma core_step_ok c c' : core_ok c -> core_step c c' -> core_ok c'.
Proof.
  intros Hok Hs. pose proof (co_life _ Hok) as HL. unfold life_ok in HL.
  destruct Hs as [g r before w b e w' Er Ht Hf Hb|g r now w e w' Er Ht Hw|g r w e w' Er Ht Hf Hw|g r w b e w' Er Ht Hw|g k Hk|g level line Hg|n|l s Hl Hs|t s Hs|
    to from b ev evs Hw Hr|t s Hw Hr Hs|g t level line Hw He|c1 Hc|n Hn Hl|config callbacks Hl Hm|scanned lib gen config callbacks c1 Hl Hrate Hc|p Hl He|p g c1 Hl He Hj|
    p s Hl Hs|p s Hl Hs|p Hl Hb|p Hl].
  - apply handover_ok; [done|done|congruence|]. by eapply er_begin; [apply (co_runs _ Hok g)|..].
  - apply (core_insert_ok c g r); try done; [congruence|]. by eapply er_wait; [apply (co_runs _ Hok g)|].
  - apply (core_insert_ok c g r); try done; [congruence|]. by eapply er_end; [apply (co_runs _ Hok g)|].
  - apply handover_ok; [done..|]. by eapply er_fail; [apply (co_runs _ Hok g)|].
  - apply onEngine_ok; [done|]. intros hist e He. by apply er_call.
  - by apply post_ok.
  - destruct Hok. by split.
  - by eapply core_quiet_ok.
  - by apply core_take_ok.
  - by apply (core_dispatch_ok c to from b).
  - by apply done_ok.
  - destruct Hok. by split.
  - unfold requestStop in Hc. destruct (mEngine c) as [g|]; [|done]. injection Hc as <-.
    assert (Hok1 : core_ok (onEngine g (fun e => setMailbox (shutdown (mMailbox e)) e) c)).
    { apply onEngine_ok; [done|]. intros hist e He. by apply (er_call fuel hist e (UseMailbox (Post Box.Shutdown 0))). }
    destruct Hok1. by split.
  - rewrite Hl in HL. refine (_ : core_ok ((c <| stops := n |>) <| life := Finishing ByStop |>)). apply life_same; [by destruct Hok; split|done].
  - rewrite Hl in HL. by apply life_same.
  - destruct (launch_ok c scanned lib gen config callbacks Hok Hl Hrate) as (c2 & E & H). rewrite Hc in E. by injection E as <-.
  - rewrite Hl in HL. destruct HL as [Hi Hr]. apply life_same; [done|]. unfold life_ok. destruct p; cbn; [done|]. split_and!; try done.
    destruct (Tasks.mRunning (tasks c)) eqn:E; [|done]. rewrite He in Hr. by destruct (proj2 Hr eq_refl).
  - by eapply join_ok.
  - rewrite Hl in HL. destruct HL as (Hi & Hr & Ht). destruct (drain_begins _ _ Hs) as (Eq & Ew & Ec & Er).
    apply (moves_ok c s (Waits p) Hok); try done; [by eapply Tasks.queue_step_ok; [apply Hok|]|intros E; left; unfold tasks; congruence].
  - rewrite Hl in HL. destruct HL as (Hi & Ht). destruct (drain_ends _ _ (co_tasks _ Hok) Hs) as (Eq & Ew & Ew' & Ec & Er & Er').
    apply (moves_ok c s (Resetting p) Hok); try done; [by eapply Tasks.queue_step_ok; [apply Hok|]|unfold tasks; congruence|by left|]. by destruct Ht.
  - rewrite Hl in HL. destruct HL as (Hi & Hr & Ht). unfold Tasks.beginDrain in Hb. by rewrite Hr in Hb.
  - rewrite Hl in HL. destruct HL as (Hi & Hr & Ht). destruct Hok as [H1 H2 H3 H4 H5 H6 H7 H8 H9 H10].
    split; try done; cbn; try congruence. unfold life_ok. destruct p; cbn; [|done]. split; [done|]. change (is_Some (@None nat) <-> Tasks.mRunning (tasks c) = true).
    rewrite Hr. split; [by intros []|done].
Qed.

Lemma core_run_ok deps c : core_run deps c -> core_ok c.
Proof.
  intros H. assert (Hind : forall c0, core_ok c0 -> rtc core_step c0 c -> core_ok c).
  { intros c0 H0 Hr. induction Hr as [|x y z Hs _ IH]; [done|]. by apply IH, (core_step_ok x). }
  eapply Hind; [apply newCore_ok|exact H].
Qed.
End Threads.
End Core.
