(* ===== verification/CoreRuns.v ===== *)
(** * What the application sees

    The runs of [NetLinkCore.v], with any number of calls of [start] and [stop]: what the
    callbacks are told of an engine, when they are told, and what is left when [stop]
    returns. *)
From Stdlib Require Import QArith.
From S2P Require Import Prelude Constants Text IPv4Address Discovery Mailbox MailboxRuns Engine SessionSpec EngineSessions EngineStep.
From S2P Require Import EngineInvariant EngineRuns Logging TaskQueue Adapters NetLinkCore.
From stdpp Require Import relations.
Import Engine Sessions Loop Adapters.
#[local] Open Scope Z_scope.

Section Application.
Context {W : Type} `{!World W} (fuel : nat) `{!WorldOk W fuel}.
Abbreviation core_step := (Core.core_step fuel).
Abbreviation core_run := (Core.core_run fuel).

(** What the callbacks of the start [g] were told. *)
Definition toldOf (g : nat) (c : Core.NetLinkCore) : list EngineEvent :=
  omap (fun x => if decide (x.1 = g) then Some x.2 else None) (Core.dispatched c).

(** ** The history of the engines *)
Lemma history_cons_lookup hs g : forall n, omap (fun x => if decide (x.1 = g) then Some x.2 else None) (concat (imap (fun i h => map (pair (n + i)%nat) h) hs)) =
  if decide (n <= g)%nat then default [] (hs !! (g - n)%nat) else @nil EngineEvent.
Proof.
  induction hs as [|h hs IH]; intros n; cbn; [by case_decide|]. rewrite omap_app.
  assert (Eh : omap (fun x => if decide (x.1 = g) then Some x.2 else None) (map (pair (n + 0)%nat) h) = if decide (n = g) then h else []).
  { rewrite Nat.add_0_r. induction h as [|ev h IHh]; cbn; [by case_decide|]. case_decide; [subst; by rewrite IHh|exact IHh]. }
  rewrite Eh. erewrite imap_ext; [rewrite (IH (S n))|].
  - repeat case_decide; try lia; subst; cbn.
    + by rewrite Nat.sub_diag, app_nil_r.
    + by replace (g - n)%nat with (S (g - S n)) by lia.
    + done.
  - intros i x Hx. cbn. by rewrite <- Nat.add_succ_comm.
Qed.
Lemma history_of hs g : omap (fun x => if decide (x.1 = g) then Some x.2 else None) (Core.history hs) = default [] (hs !! g).
Proof.
  etrans; [exact (history_cons_lookup hs g 0)|]. by rewrite Nat.sub_0_r.
Qed.

Lemma told_prefix deps c g r : core_run deps c -> Core.runs c !! g = Some r -> toldOf g c `prefix_of` Core.handedOver r.
Proof.
  intros Hok%Core.core_run_ok Er. pose proof (f_equal (omap (fun x => if decide (x.1 = g) then Some x.2 else None)) (Core.co_events _ _ Hok)) as H.
  rewrite omap_app, history_of, list_lookup_fmap, Er in H. cbn in H. rewrite <- H. by eexists.
Qed.

(** ** What is told *)

Lemma tellAll_prefix id evs evs' t : tellAll id (evs ++ evs') untold = Some t -> exists t', tellAll id evs untold = Some t'.
Proof. rewrite tellAll_app. destruct (tellAll id evs untold) as [t'|]; [by exists t'|done]. Qed.

(** C15: the application is told what the engine found, in order and in time.  However starts,
    stops, rounds of engines, tasks and uses of the mailboxes interleave: the events
    dispatched so far are, in this order and without a gap, the first of those that the
    engines handed over, one engine after another; each was dispatched to the callbacks of
    the start it comes from, and so the callbacks of every start are told according to the
    contract of [NetLinkCallbacks]. *)
Theorem application_told deps c : core_run deps c ->
  Core.dispatched c `prefix_of` Core.history (Core.handedOver <$> Core.runs c) /\
  (forall g r, Core.runs c !! g = Some r -> toldOf g c `prefix_of` Core.handedOver r /\ forall id, contract id (toldOf g c)) /\
  (forall to from b, Core.atWork (Core.tasks c) = Some (Core.Deliver to from b) -> to = from).
Proof.
  intros Hrun. pose proof (Core.core_run_ok _ _ _ Hrun) as Hok. split_and!.
  - rewrite <- (Core.co_events _ _ Hok). by eexists.
  - intros g r Er. pose proof (told_prefix deps c g r Hrun Er) as Hp. split; [done|]. intros id. destruct Hp as [later Hp].
    pose proof (Core.co_runs _ _ Hok g r Er) as Hr. destruct (run_Inv fuel _ _ Hr) as (HI & He & _). destruct (ao_told _ (Inv_abs _ _ _ HI) id) as (t & Ht & _).
    cbn in Ht. rewrite He, app_nil_r, Hp in Ht. apply tellAll_prefix in Ht as [t' Ht']. by eapply contract_kept.
  - intros to from b Hw. by apply (Core.co_match _ _ Hok to from b (or_intror Hw)).
Qed.

(** ** When [stop] has returned *)
Lemma finished_told c : Core.core_ok fuel c -> Core.mEngine c = None ->
  Core.dispatched c = Core.history (Core.handedOver <$> Core.runs c) /\
  (forall g r, Core.runs c !! g = Some r -> Core.thread r = Core.Over) /\ Tasks.mThread (Core.tasks c) = None.
Proof.
  intros Hok He. pose proof (Core.co_life _ _ Hok) as HL. unfold Core.life_ok in HL. rewrite He in HL.
  assert (Hr : Tasks.caller (Core.mEvents c) = Tasks.Idle /\ Tasks.mRunning (Core.tasks c) = false).
  { destruct (Core.life c) as [|p|p|p|p|].
    1, 2: destruct HL as [Hc Hr]; split; [done|]; destruct (Tasks.mRunning (Core.tasks c)); [by destruct (proj2 Hr eq_refl)|done].
    - by destruct HL as (_ & _ & _ & []).
    - by destruct HL as (_ & _ & []).
    - by destruct HL as (? & ? & _).
    - by destruct HL as (? & ? & _). }
  destruct Hr as [Hc Hr]. pose proof (Tasks.ok_idle _ (Core.co_tasks _ _ Hok) Hc Hr) as Hw. fold (Core.tasks c) in Hw. split_and!.
  - pose proof (Core.co_events _ _ Hok) as E. rewrite (Core.co_quiet _ _ Hok Hr) in E.
    rewrite Core.underWay_none in E by (unfold Core.atWork; by rewrite Hw). by rewrite !app_nil_r in E.
  - intros g r Er. destruct (decide (Core.thread r = Core.Over)) as [|Hne]; [done|]. pose proof (Core.co_live _ _ Hok g r Er Hne) as Ht.
    pose proof (Core.co_thread _ _ Hok g Ht). congruence.
  - exact Hw.
Qed.

(** What was told stays told, and a thread that ended has ended. *)
Definition extends (c c' : Core.NetLinkCore) : Prop :=
  Core.dispatched c `prefix_of` Core.dispatched c' /\
  forall g r, Core.runs c !! g = Some r -> Core.thread r = Core.Over ->
    exists r', Core.runs c' !! g = Some r' /\ Core.thread r' = Core.Over /\ Core.handedOver r' = Core.handedOver r.
#[local] Instance extends_preorder : PreOrder extends.
Proof.
  split.
  - intros c. split; [done|]. intros g r Er Ho. by exists r.
  - intros c1 c2 c3 [Hd1 Hr1] [Hd2 Hr2]. split; [by etrans|]. intros g r Er Ho.
    destruct (Hr1 g r Er Ho) as (r2 & E2 & Ho2 & Eh2). destruct (Hr2 g r2 E2 Ho2) as (r3 & E3 & Ho3 & Eh3). exists r3. split_and!; congruence.
Qed.

Lemma alter_extends c g f : (forall r, Core.thread (f r) = Core.thread r /\ Core.handedOver (f r) = Core.handedOver r) ->
  extends c (c <| Core.runs ::= alter f g |>).
Proof.
  intros Hf. split; [done|]. intros g' r Er Ho. cbn. destruct (decide (g = g')) as [<-|Hne].
  - rewrite list_lookup_alter_eq, Er. exists (f r). destruct (Hf r) as [-> ->]. done.
  - rewrite list_lookup_alter_ne by done. by exists r.
Qed.
Lemma insert_extends c g r x : Core.runs c !! g = Some r -> Core.thread r <> Core.Over -> extends c (c <| Core.runs ::= <[g := x]> |>).
Proof.
  intros Er Ht. split; [done|]. intros g' r' Er' Ho. cbn. destruct (decide (g = g')) as [<-|Hne]; [congruence|].
  rewrite list_lookup_insert_ne by done. by exists r'.
Qed.

Lemma step_extends c c' : Core.core_ok fuel c -> core_step c c' -> extends c c'.
Proof.
  intros Hok Hs. destruct Hs as [g r before w b e w' Er Ht Hf Hb|g r now w e w' Er Ht Hw|g r w e w' Er Ht Hf Hw|g r w b e w' Er Ht Hw|g k Hk|g level line Hg|n|l s Hl Hs|t s Hs|
    to from b ev evs Hw Hr|t s Hw Hr Hs|g t level line Hw He|c1 Hc|n Hn Hl|config callbacks Hl Hm|scanned lib gen config callbacks c1 Hl Hrate Hc|p Hl He|p g c1 Hl He Hj|
    p s Hl Hs|p s Hl Hs|p Hl Hb|p Hl]; try (by split; [|intros g' r' Er' Ho; exists r']).
  - assert (H := insert_extends c g r (Core.mkRun e (Core.given r) Core.Waiting (Core.handedOver r ++ events b)) Er ltac:(congruence)).
    case_bool_decide; exact H.
  - apply (insert_extends c g r); [done|congruence].
  - apply (insert_extends c g r); [done|congruence].
  - assert (H := insert_extends c g r (Core.mkRun e (Core.given r) Core.Over (Core.handedOver r ++ events b)) Er Ht). case_bool_decide; exact H.
  - by apply alter_extends.
  - assert (Hd : Core.runs (Core.dispatchNext to from ev c) = Core.runs c \/
      exists e, Core.runs (Core.dispatchNext to from ev c) = alter (fun r => r <| Core.eng := e |>) from (Core.runs c)).
    { unfold Core.dispatchNext. destruct (Core.runs c !! to), (Core.runs c !! from); try (by left). destruct (Core.dispatch _ _ _ _) as [[call|] e]; right; by exists e. }
    destruct (Core.core_dispatch_ok _ c to from b ev evs Hok Hw Hr) as [_ Ed]. split; [cbn; rewrite Ed; by eexists|].
    destruct Hd as [Hd|[e Hd]].
    + intros g r Er Ho. exists r. split; [|done]. change (Core.runs (Core.dispatchNext to from ev c) !! g = Some r). by rewrite Hd.
    + intros g r Er Ho. destruct (alter_extends c from (fun r => r <| Core.eng := e |>) ltac:(done)) as [_ H]. destruct (H g r Er Ho) as (r' & E' & H').
      exists r'. split; [|done]. change (Core.runs (Core.dispatchNext to from ev c) !! g = Some r'). rewrite Hd. exact E'.
  - destruct t as [to from b|to level line|to]; [exact (alter_extends (c <| Core.mEvents := s |>) from (fun r => r <| Core.eng ::= fun e => performCall e (DropBatch (batchShare b)) |>) ltac:(done))|..]; by split; [|intros g' r' Er' Ho; exists r'].
  - unfold Core.requestStop in Hc. destruct (Core.mEngine c) as [g|]; [|done]. injection Hc as <-.
    exact (alter_extends c g (fun r => r <| Core.eng ::= fun e => setMailbox (shutdown (mMailbox e)) e |>) ltac:(done)).
  - unfold Core.launch in Hc. cbn in Hc. destruct (Tasks.start _) as [q|]; [|done]. destruct (Core.mThread c); [done|]. injection Hc as <-.
    destruct (Core.onLog callbacks), (Core.localInterface (Core.mDependencies c)); (split; [done|]);
      intros g' r' Er' Ho; exists r'; (split; [|done]); by apply lookup_app_l_Some.
  - unfold Core.joinThread in Hj. destruct (Core.mThread c) as [g'|]; [destruct (Core.runs c !! g') as [r|]; [case_decide; [|done]|done]|]; injection Hj as <-;
      by split; [|intros g0 r0 Er0 Ho; exists r0].
Qed.

Lemma history_split hs hs' : exists later, Core.history (hs ++ hs') = Core.history hs ++ later /\ Forall (fun x => (length hs <= x.1)%nat) later.
Proof.
  induction hs' as [|h hs' (later & E & Hl)] using rev_ind; [exists []; by rewrite !app_nil_r|].
  rewrite app_assoc, Core.history_app, E. exists (later ++ map (pair (length (hs ++ hs'))) h). split; [by rewrite app_assoc|].
  apply Forall_app. split; [done|]. apply Forall_map, Forall_forall. intros x _. cbn. rewrite length_app. lia.
Qed.

Lemma run_extends deps c c' : core_run deps c -> rtc core_step c c' -> core_run deps c' /\ extends c c'.
Proof.
  intros H0 Hr. induction Hr as [|x y z Hs _ IH]; [split; [done|reflexivity]|].
  destruct (IH (rtc_r _ _ _ H0 Hs)) as [Hz He]. split; [done|]. etrans; [|exact He]. apply step_extends; [by eapply Core.core_run_ok|done].
Qed.

(** C16: a [stop] that waited leaves nothing behind.  Once [finish] has let go of the engine,
    which is what a [stop] waits for unless a callback calls it, or if no engine was started
    yet: every event the engines handed over has been dispatched, their threads have ended,
    and the event thread is gone.  Whatever happens afterwards, no event is dispatched to the
    callbacks of the starts up to then.  (A line of the log may still reach them.) *)
Theorem stop_is_final deps c c' : core_run deps c -> Core.mEngine c = None -> rtc core_step c c' ->
  Core.dispatched c = Core.history (Core.handedOver <$> Core.runs c) /\
  (forall g r, Core.runs c !! g = Some r -> Core.thread r = Core.Over) /\ Tasks.mThread (Core.tasks c) = None /\
  exists later, Core.dispatched c' = Core.dispatched c ++ later /\ Forall (fun x => (length (Core.runs c) <= x.1)%nat) later.
Proof.
  intros Hrun He Hr. pose proof (Core.core_run_ok _ _ _ Hrun) as Hok. destruct (finished_told c Hok He) as (Hd & Ho & Hw). split_and!; [done..|].
  destruct (run_extends _ _ _ Hrun Hr) as [Hrun' [[later Hl] Hx]]. exists later. split; [done|].
  pose proof (Core.co_events _ _ (Core.core_run_ok _ _ _ Hrun')) as E'.
  assert (Hhs : exists hs', Core.handedOver <$> Core.runs c' = (Core.handedOver <$> Core.runs c) ++ hs').
  { exists (drop (length (Core.runs c)) (Core.handedOver <$> Core.runs c')). rewrite <- (take_drop (length (Core.runs c)) (Core.handedOver <$> Core.runs c')) at 1.
    f_equal. apply list_eq. intros g. destruct (decide (g < length (Core.runs c))%nat) as [Hg|Hg].
    - rewrite lookup_take_lt by done. destruct (proj2 (lookup_lt_is_Some (Core.runs c) g) Hg) as [r Er].
      destruct (Hx g r Er (Ho g r Er)) as (r' & Er' & _ & Eh). rewrite !list_lookup_fmap, Er, Er'. cbn. by f_equal.
    - rewrite lookup_take_ge by lia. symmetry. apply lookup_ge_None. rewrite length_fmap. lia. }
  destruct Hhs as [hs' Hhs]. rewrite Hhs in E'. destruct (history_split (Core.handedOver <$> Core.runs c) hs') as (R & ER & HR).
  rewrite ER, Hl, <- Hd, <- app_assoc in E'. apply app_inv_head in E'. rewrite <- E', length_fmap in HR. by apply Forall_app in HR as [HR _].
Qed.

(** C17: one engine at a time.  The thread of an engine runs only while that engine is the
    last one started and the one the core refers to, with its own callbacks; and when
    [start] gets to starting the next one, both threads it starts are free to be started. *)
Theorem one_engine deps c : core_run deps c ->
  (forall g r, Core.runs c !! g = Some r -> Core.thread r <> Core.Over ->
    length (Core.runs c) = S g /\ Core.mEngine c = Some g /\ Core.mCallbacks c = g /\ Core.mThread c = Some g /\
    exists w, Tasks.mThread (Core.tasks c) = Some w) /\
  (forall scanned lib generated config callbacks, Core.life c = Core.Launching config callbacks -> is_uint 32 (Core.maxSendRate config) ->
    is_Some (Core.launch scanned lib generated config callbacks c)).
Proof.
  intros Hok%Core.core_run_ok. split.
  - intros g r Er Ho. destruct (Core.live_last _ c g r Hok Er Ho) as (Ht & He & Hc & Hl & Hr). split_and!; try done.
    destruct (Tasks.ok_running _ (Core.co_tasks _ _ Hok) Hr) as (w & Hw & _). by exists w.
  - intros scanned lib generated config callbacks Hl Hr. destruct (Core.launch_ok fuel c scanned lib generated config callbacks Hok Hl Hr) as (c1 & -> & _). by eexists.
Qed.

(** ** The public functions *)

(** A use of the mailbox that is an action of another thread is a step, or nothing. *)
Lemma passOn_steps {A} (fallback : A) f a c : (forall m, (f m).2 = perform a m \/ (f m).2 = m) -> appAction a ->
  rtc core_step c (Core.passOn fallback f c).2.
Proof.
  intros Hf Ha. unfold Core.passOn. destruct (Core.mEngine c) as [g|] eqn:Ee; [|apply rtc_refl].
  destruct (Core.engine c) as [r|] eqn:Er; [|apply rtc_refl]. unfold Core.engine in Er. rewrite Ee in Er.
  specialize (Hf (mMailbox (Core.eng r))). destruct (f (mMailbox (Core.eng r))) as [x m]. cbn [snd] in *.
  destruct Hf as [-> | ->].
  - replace (Core.onEngine g (setMailbox (perform a (mMailbox (Core.eng r)))) c) with (Core.onEngine g (fun e => performCall e (UseMailbox a)) c).
    { apply rtc_once. by apply Core.cs_call. }
    unfold Core.onEngine, update. cbn. f_equal. apply list_alter_ext; [|done]. intros r' Er'. rewrite Er in Er'. by injection Er' as <-.
  - replace (Core.onEngine g (setMailbox (mMailbox (Core.eng r))) c) with c; [apply rtc_refl|].
    destruct c as [d me mc ml mt mv mn rs lf st rt di ca es lg]. cbn in Er |- *. unfold Core.onEngine, update, Core.eta_NetLinkCore. cbn. f_equal.
    symmetry. rewrite <- (list_alter_id (fun x => x) rs g) at 2 by done. apply list_alter_ext; [|done]. intros r' Er'. rewrite Er in Er'. injection Er' as <-.
    destruct r as [e gv th ho]. unfold update, Core.eta_Run. cbn. f_equal. unfold setMailbox, update. cbn. rewrite Z.ltb_irrefl, orb_false_r. by destruct e.
Qed.

Lemma wire_not_control lane : wireLane lane <> PacketFlags.Control.
Proof. by destruct lane. Qed.

(** Two uses in a row, the first of which does not ring. *)
Lemma passOn_twice a b c : appAction a -> appAction b -> (forall m, Box.mDoorbell (perform a m) = Box.mDoorbell m) ->
  rtc core_step c (Core.passOn () (fun m => ((), perform b (perform a m))) c).2.
Proof.
  intros Ha Hb Hd. unfold Core.passOn. destruct (Core.mEngine c) as [g|] eqn:Ee; [|apply rtc_refl].
  destruct (Core.engine c) as [r|] eqn:Er; [|apply rtc_refl]. unfold Core.engine in Er. rewrite Ee in Er. cbn [snd].
  eapply rtc_l; [by apply (Core.cs_call _ c g (UseMailbox a))|]. eapply rtc_l; [by apply (Core.cs_call _ _ g (UseMailbox b))|].
  match goal with |- rtc _ ?x ?y => replace x with y; [apply rtc_refl|] end.
  unfold Core.onEngine, update. cbn. f_equal. apply list_eq. intros i. destruct (decide (g = i)) as [<-|Hne].
  - rewrite !list_lookup_alter_eq, Er. cbn. do 2 f_equal. unfold setMailbox, update. cbn. by rewrite Hd, Z.ltb_irrefl, orb_false_r.
  - by rewrite !list_lookup_alter_ne.
Qed.

(** The functions of the interface are made of the steps that the theorems above are about:
    whoever calls them, from whichever thread, adds nothing to what can happen. *)
Theorem public_calls c peer type data lane timeout adapterID scanned :
  rtc core_step c (Core.startDiscovery c).2 /\ rtc core_step c (Core.stopDiscovery c) /\
  rtc core_step c (Core.connect peer c).2 /\ rtc core_step c (Core.accept peer c) /\ rtc core_step c (Core.decline peer c) /\
  rtc core_step c (Core.disconnect peer c) /\ rtc core_step c (Core.send peer type data lane timeout c).2 /\
  rtc core_step c (Core.broadcast type data lane c).2 /\ rtc core_step c (Core.useAdapter adapterID scanned c).2.
Proof.
  split_and!.
  - apply (passOn_steps _ _ (Post Box.Announce 0)); [|done]. intros m. destruct (negb _); [by right|by left].
  - apply (passOn_steps _ _ (Post Box.StopAnnouncing 0)); [|done]. by left.
  - apply (passOn_steps _ _ (Post Box.Connect peer)); [|done]. intros m. unfold connect. destruct (negb (Box.isRunning m)); [by right|].
    cbn zeta. destruct (_ && _); [by right|by left].
  - apply (passOn_steps _ _ (Post Box.AcceptPeer peer)); [|done]. by left.
  - apply (passOn_steps _ _ (Post Box.DeclinePeer peer)); [|done]. by left.
  - apply (passOn_twice (Seal peer) (Post Box.Disconnect peer)); [done..|]. intros m. cbn. unfold Box.seal. by destruct (Box.mPeers m !! peer).
  - apply (passOn_steps _ _ (PushMail peer (wireLane lane) (Box.mkMail type data) timeout)); [|apply wire_not_control].
    intros m. left. unfold send. cbn [perform]. by destruct (Box.push peer (wireLane lane) (Box.mkMail type data) timeout m).
  - apply (passOn_steps _ _ (PushAll (wireLane lane) (Box.mkMail type data))); [|apply wire_not_control]. by left.
  - unfold Core.useAdapter. destruct (setActiveAdapter _ _ _) as [found n]. eapply rtc_l; [apply (Core.cs_network _ c n)|].
    destruct found; cbn [negb]; [|apply rtc_refl]. apply (passOn_steps _ _ (Post Box.CheckInterface 0)); [|done]. by left.
Qed.

(** ** Running it *)
Inductive Move :=
| MBegin (g : nat) (before : TimePoint) | MWait (g : nat) (now : TimePoint) | MEnd (g : nat)
| MLog (g : nat) (level : LogLevel) (line : text) | MTask (a : Tasks.Act Core.Task) | MDispatch
| MStop | MStopLock | MStart (config : Core.NetLinkConfig) (callbacks : Core.NetLinkCallbacks) | MLaunch (lib : bytes) (generated : PeerId)
| MFinish.

Definition taskMove (l : Tasks.Label Core.Task) (s : Tasks.System Core.Task) (c : Core.NetLinkCore) : option Core.NetLinkCore :=
  match l with
  | Tasks.Quiet => Some (c <| Core.mEvents := s |>)
  | Tasks.Took t => Some (c <| Core.mEvents := s |> <| Core.rest := Core.eventsOf t |>)
  | Tasks.Finished =>
    match Tasks.mThread (Core.tasks c), Core.rest c with
    | Some (Tasks.Working t), [] => Some (Core.taskGone t (c <| Core.mEvents := s |>))
    | _, _ => None
    end
  | Tasks.Drains => match Core.life c with Core.Draining p => Some (c <| Core.mEvents := s |> <| Core.life := Core.Waits p |>) | _ => None end
  | Tasks.Joined => match Core.life c with Core.Waits p => Some (c <| Core.mEvents := s |> <| Core.life := Core.Resetting p |>) | _ => None end
  | _ => None
  end.

Definition move (m : Move) (c : Core.NetLinkCore) (w : W) : option (Core.NetLinkCore * W) :=
  match m with
  | MBegin g before =>
    r ← Core.runs c !! g;
    if decide (Core.thread r = Core.Looping) then
      if finished (Core.eng r) then None
      else
        '(b, e, w) ← beginRound fuel before (Core.eng r) w;
        let c1 := c <| Core.runs ::= <[g := Core.mkRun e (Core.given r) Core.Waiting (Core.handedOver r ++ events b)]> |> in
        Some (if bool_decide (events b = []) then c1 else Core.deliver g b c1, w)
    else None
  | MWait g now =>
    r ← Core.runs c !! g;
    if decide (Core.thread r = Core.Waiting) then
      '(_, e, w) ← endRound now (Core.eng r) w;
      Some (c <| Core.runs ::= <[g := r <| Core.eng := e |> <| Core.thread := Core.Looping |>]> |>, w)
    else None
  | MEnd g =>
    r ← Core.runs c !! g;
    if decide (Core.thread r = Core.Looping) then
      if finished (Core.eng r) then
        '(_, e, w) ← endLoop (Core.eng r) w;
        Some (c <| Core.runs ::= <[g := r <| Core.eng := e |> <| Core.thread := Core.Over |>]> |>, w)
      else None
    else None
  | MLog g level line => if Core.hasLogSink g c then Some (Core.post (Core.LogLine g level line) c, w) else None
  | MTask a => '(l, s) ← Tasks.act a (Core.mEvents c); c ← taskMove l s c; Some (c, w)
  | MDispatch =>
    match Tasks.mThread (Core.tasks c), Core.rest c with
    | Some (Tasks.Working (Core.Deliver to from _)), ev :: evs => Some ((Core.dispatchNext to from ev c) <| Core.rest := evs |>, w)
    | _, _ => None
    end
  | MStop => c ← Core.requestStop c; Some (c <| Core.stops ::= S |>, w)
  | MStopLock =>
    match Core.stops c, Core.life c with
    | S n, Core.Free => Some (c <| Core.stops := n |> <| Core.life := Core.Finishing Core.ByStop |>, w)
    | _, _ => None
    end
  | MStart config callbacks =>
    match Core.life c with
    | Core.Free => if Core.mayStart config c then Some (c <| Core.life := Core.Finishing (Core.ByStart config callbacks) |>, w) else None
    | _ => None
    end
  | MLaunch lib generated =>
    match Core.life c with
    | Core.Launching config callbacks =>
      if (0 <=? Core.maxSendRate config) && (Core.maxSendRate config <? 2 ^ 32)
      then c ← Core.launch None lib generated config callbacks c; Some (c <| Core.life := Core.Free |>, w) else None
    | _ => None
    end
  | MFinish =>
    match Core.life c, Core.mEngine c with
    | Core.Finishing p, None => Some (c <| Core.life := Core.after p |>, w)
    | Core.Finishing p, Some _ => c ← Core.joinThread c; Some (c <| Core.life := Core.Draining p |>, w)
    | Core.Resetting p, _ => Some ((Core.resetEngine c) <| Core.life := Core.after p |>, w)
    | _, _ => None
    end
  end.
Fixpoint moves (l : list Move) (c : Core.NetLinkCore) (w : W) : option (Core.NetLinkCore * W) :=
  match l with [] => Some (c, w) | m :: l => '(c, w) ← move m c w; moves l c w end.

Lemma task_move_step a l s c c' : Tasks.act a (Core.mEvents c) = Some (l, s) -> taskMove l s c = Some c' -> core_step c c'.
Proof.
  intros Ha%Tasks.act_step H. destruct l; cbn in H; try done.
  - injection H as <-. by apply Core.cs_take.
  - destruct (Tasks.mThread (Core.tasks c)) as [[| |t|]|] eqn:Et; try done. destruct (Core.rest c) eqn:Er; [|done]. injection H as <-. by eapply Core.cs_done.
  - destruct (Core.life c) eqn:El; try done. injection H as <-. by apply Core.cs_drain.
  - destruct (Core.life c) eqn:El; try done. injection H as <-. by apply Core.cs_drained.
  - injection H as <-. eapply Core.cs_quiet; [|exact Ha]. by left.
Qed.
Lemma move_step m c w c' w' : move m c w = Some (c', w') -> core_step c c'.
Proof.
  destruct m; cbn -[Core.launch beginRound endRound endLoop Core.dispatchNext finished]; intros H.
  - destruct (Core.runs c !! g) as [r|] eqn:Er; [|done]. cbn -[beginRound] in H. case_decide as Ht; [|done]. destruct (finished (Core.eng r)) eqn:Ef; [done|].
    destruct (beginRound fuel before (Core.eng r) w) as [[[b e] w1]|] eqn:Eb; [|done]. injection H as <- <-. by eapply Core.cs_begin.
  - destruct (Core.runs c !! g) as [r|] eqn:Er; [|done]. cbn -[endRound] in H. case_decide as Ht; [|done].
    destruct (endRound now (Core.eng r) w) as [[[[] e] w1]|] eqn:Eb; [|done]. injection H as <- <-. by eapply Core.cs_wait.
  - destruct (Core.runs c !! g) as [r|] eqn:Er; [|done]. cbn -[endLoop finished] in H. case_decide as Ht; [|done]. destruct (finished (Core.eng r)) eqn:Ef; [|done].
    destruct (endLoop (Core.eng r) w) as [[[[] e] w1]|] eqn:Eb; [|done]. injection H as <- <-. by eapply Core.cs_end.
  - destruct (Core.hasLogSink g c) eqn:Eg; [|done]. injection H as <- <-. by apply Core.cs_log.
  - destruct (Tasks.act a (Core.mEvents c)) as [[l s]|] eqn:Ea; [|done]. cbn in H. destruct (taskMove l s c) as [c1|] eqn:Et; [|done]. injection H as <- <-. by eapply task_move_step.
  - destruct (Tasks.mThread (Core.tasks c)) as [[| |[to from b|to level line|to]|]|] eqn:Et; try done. destruct (Core.rest c) eqn:Er; [done|]. injection H as <- <-. by eapply Core.cs_dispatch.
  - destruct (Core.requestStop c) as [c1|] eqn:Ec; [|done]. injection H as <- <-. by apply Core.cs_stop.
  - destruct (Core.stops c) eqn:En; [done|]. destruct (Core.life c) eqn:El; try done. injection H as <- <-. by apply Core.cs_stop_lock.
  - destruct (Core.life c) eqn:El; try done. destruct (Core.mayStart config c) eqn:Em; [|done]. injection H as <- <-. by apply Core.cs_start.
  - destruct (Core.life c) eqn:El; try done. destruct (_ && _) eqn:Er; [|done]. destruct (Core.launch None lib generated config callbacks c) as [c1|] eqn:Ec; [|done].
    injection H as <- <-. apply andb_true_iff in Er as [Er1%Z.leb_le Er2%Z.ltb_lt]. by eapply Core.cs_launch.
  - destruct (Core.life c) eqn:El; try done.
    + destruct (Core.mEngine c) eqn:Ee; [|injection H as <- <-; by apply Core.cs_nothing]. destruct (Core.joinThread c) as [c1|] eqn:Ej; [|done].
      injection H as <- <-. by eapply Core.cs_join.
    + injection H as <- <-. by apply Core.cs_reset.
Qed.
Lemma moves_steps l : forall c w c' w', moves l c w = Some (c', w') -> rtc core_step c c'.
Proof.
  induction l as [|m l IH]; intros c w c' w' H; [injection H as <- <-; by apply rtc_refl|]. cbn -[move] in H.
  destruct (move m c w) as [[c1 w1]|] eqn:E; [|done]. eapply rtc_l; [by eapply move_step|by eapply IH].
Qed.
End Application.
