(* ===== verification/CoreTypes.v ===== *)
(** * What callbacks are told about peers fits its types

    [EngineTypes.v] for the calls of the application: whatever the threads of the core do, a
    [PeerInfo] that a callback is called with is one a peer could have. *)
From Stdlib Require Import QArith.
From S2P Require Import Prelude Constants Text Discovery Mailbox Engine EngineSessions EngineStep EngineRuns EngineTypes.
From S2P Require Import Logging TaskQueue Adapters NetLinkCore CoreRuns.
From stdpp Require Import relations.
Import Engine Sessions Loop Adapters.
#[local] Open Scope Z_scope.

(** The peer a callback is told about. *)
Definition callInfo (c : Core.Callback) : option PeerInfo :=
  match c with Core.CallPeerDiscovered i | Core.CallConnectionRequest i | Core.CallConnected i => Some i | _ => None end.
Definition call_ok (c : Core.Callback) : Prop := forall i, callInfo c = Some i -> info_ok i.

Section Types.
Context {W : Type} `{!World W} (fuel : nat) `{!WorldOk W fuel}.

Lemma dispatch_call_ok callbacks n ev e call e' : event_ok ev -> Core.dispatch callbacks n ev e = (Some call, e') -> call_ok call.
Proof.
  unfold Core.dispatch. intros Hev H i Hi. destruct ev as [p j|p|p j|p j|p r|p l m box|j]; cbn in Hev, H.
  6: { destruct (takeMessage m box e) as [[m'|] e1]; [|done]. case_match; [|done]. by injection H as <- <-. }
  all: try (case_match; [|done]); injection H as <- <-; cbn in Hi; first [done|by injection Hi as <-].
Qed.

(** Only the dispatch of an event calls the application. *)
Lemma step_called c c' : Core.core_step fuel c c' -> Core.called c' = Core.called c \/
  exists to from b ev evs call callbacks n e e', Core.atWork (Core.tasks c) = Some (Core.Deliver to from b) /\ Core.rest c = ev :: evs /\
    Core.dispatch callbacks n ev e = (Some call, e') /\ Core.called c' = Core.called c ++ [(to, call)].
Proof.
  intros [g r before w b e w' Er Ht Hf Hb|g r now w e w' Er Ht Hw|g r w e w' Er Ht Hf Hw|g r w b e w' Er Ht Hw|g k Hk|g level line Hg|n|l s Hl Hs|t s Hs|
    to from b ev evs Hw Hr|t s Hw Hr Hs|g t level line Hw He|c1 Hc|n Hn Hl|config callbacks Hl Hm|scanned lib gen config callbacks c1 Hl Hrate Hc|p Hl He|p g c1 Hl He Hj|
    p s Hl Hs|p s Hl Hs|p Hl Hb|p Hl]; try (by left).
  - left. by case_bool_decide.
  - left. by case_bool_decide.
  - unfold Core.dispatchNext. destruct (Core.runs c !! to) as [callee|] eqn:E1; [|by left]. destruct (Core.runs c !! from) as [r|] eqn:E2; [|by left].
    destruct (Core.dispatch (Core.given callee) (Core.mNetwork c) ev (Core.eng r)) as [[call|] e'] eqn:Ed; [right|by left].
    exists to, from, b, ev, evs, call, (Core.given callee), (Core.mNetwork c), (Core.eng r), e'. split_and!; try done. unfold Core.atWork. by rewrite Hw.
  - left. by destruct t.
  - left. unfold Core.requestStop in Hc. destruct (Core.mEngine c); [|done]. by injection Hc as <-.
  - left. unfold Core.launch in Hc. cbn in Hc. destruct (Tasks.start _); [|done]. destruct (Core.mThread c); [done|]. injection Hc as <-.
    by destruct (Core.onLog callbacks), (Core.localInterface (Core.mDependencies c)).
  - left. unfold Core.joinThread in Hj. destruct (Core.mThread c) as [g'|]; [destruct (Core.runs c !! g') as [r|]; [case_decide; [|done]|done]|]; by injection Hj as <-.
Qed.

Lemma handed_event c from ev : Core.core_ok fuel c -> (from, ev) ∈ Core.history (Core.handedOver <$> Core.runs c) -> event_ok ev.
Proof.
  intros Hok Hin. assert (H : ev ∈ omap (fun x => if decide (x.1 = from) then Some x.2 else None) (Core.history (Core.handedOver <$> Core.runs c))).
  { apply list_elem_of_omap. exists (from, ev). split; [done|]. cbn. by rewrite decide_True. }
  rewrite history_of, list_lookup_fmap in H. destruct (Core.runs c !! from) as [r|] eqn:Er; [|by apply elem_of_nil in H]. cbn in H.
  destruct (run_typed fuel _ _ (Core.co_runs _ _ Hok from r Er)) as [_ Hf]. rewrite Forall_forall in Hf. by apply Hf.
Qed.

Lemma called_typed deps c : Core.core_run fuel deps c -> forall g call, (g, call) ∈ Core.called c -> call_ok call.
Proof.
  unfold Core.core_run. intros Hr. refine (proj2 (_ : Core.core_ok fuel c /\ forall g call, (g, call) ∈ Core.called c -> call_ok call)).
  assert (Hgen : forall c0, Core.core_ok fuel c0 /\ (forall g call, (g, call) ∈ Core.called c0 -> call_ok call) -> rtc (Core.core_step fuel) c0 c ->
    Core.core_ok fuel c /\ (forall g call, (g, call) ∈ Core.called c -> call_ok call)).
  { intros c0 H0 Hs. clear Hr. induction Hs as [|x y z Hs _ IH]; [done|]. apply IH. destruct H0 as [Hok Hc]. split; [by eapply Core.core_step_ok|].
    destruct (step_called x y Hs) as [->|(to & from & b & ev & evs & call & cbs & n & e & e' & Hw & Hrest & Hd & ->)]; [done|].
    intros g call' [Hin|Hin%list_elem_of_singleton]%elem_of_app; [by eapply Hc|]. injection Hin as -> ->. eapply dispatch_call_ok; [|exact Hd].
    apply (handed_event x from); [done|]. rewrite <- (Core.co_events _ _ Hok), (Core.underWay_some _ _ _ Hw), Hrest. set_solver. }
  apply (Hgen (Core.newCore deps)); [|done]. split; [apply Core.newCore_ok|]. by intros g call ?%elem_of_nil.
Qed.
End Types.
