(* ===== verification/CoreExample.v ===== *)
(** * A run of the core

    Starts and stops in the world of [EngineExample.v]: what is promised of all runs holds of
    this one, and one thing that is not promised does not hold. *)
From Stdlib Require Import QArith.
From S2P Require Import Prelude Constants Text IPv4Address Discovery Mailbox MailboxRuns Engine SessionSpec EngineSessions EngineStep.
From S2P Require Import EngineRuns EngineExample Logging TaskQueue Adapters NetLinkCore CoreRuns.
From stdpp Require Import relations.
Import Engine.
#[local] Open Scope Z_scope.

Definition everything : Core.NetLinkCallbacks := Core.mkCallbacks true true false true true true true false.
Definition settings : Core.NetLinkConfig := Core.mkNetLinkConfig [Byte.x4d] [Byte.x61] [Byte.x31; Byte.x2e; Byte.x34] 4242 DefaultSendQueueBytes DefaultMaxSendRate 5000.
Definition core0 : Core.NetLinkCore := Core.newCore (Core.mkDependencies true defaultTimings).
Definition world0 : Script := mkScript [(there, EngineExample.hello); (there, dataTo 1)] 0.

(** The engine starts, a step of it is delivered, and its three events are dispatched. *)
Definition starting : list Move := [MStart settings everything; MFinish; MLaunch [] 1].
Definition working : list Move :=
  [MBegin 0 0; MWait 0 (ms 1); MTask Tasks.DoNotifyOne; MTask Tasks.DoTurn; MDispatch; MDispatch; MDispatch; MTask Tasks.DoReturn].

(** Someone calls [stop]; the engine tells its peer, and ends. *)
Definition ending : list Move := [MStop; MBegin 0 (ms 20); MWait 0 (ms 21); MBegin 0 (ms 6000); MWait 0 (ms 6001); MEnd 0].
Definition draining : list Move :=
  [MFinish; MTask Tasks.DoDrain; MTask Tasks.DoNotifyAll; MTask Tasks.DoTurn; MDispatch; MTask Tasks.DoReturn; MTask Tasks.DoTurn; MTask Tasks.DoJoin; MFinish].

Definition reach (l : list Move) : option Core.NetLinkCore := fst <$> moves 500 l core0 world0.
Lemma reach_run l c : reach l = Some c -> Core.core_run 500 (Core.mkDependencies true defaultTimings) c.
Proof.
  unfold reach. destruct (moves 500 l core0 world0) as [[c' w]|] eqn:E; [|done]. intros [= <-]. by eapply moves_steps.
Qed.
Definition at_ (l : list Move) : Core.NetLinkCore := default core0 (reach l).
Lemma at_run l : is_Some (reach l) -> Core.core_run 500 (Core.mkDependencies true defaultTimings) (at_ l).
Proof. intros [c E]. unfold at_. rewrite E. by apply (reach_run l). Qed.

Definition inSession : list Move := starting ++ working.
Definition stopped : list Move := inSession ++ ending ++ [MStopLock] ++ draining.

Definition isMessage (ev : EngineEvent) : bool := match ev with MessageEvent _ _ _ _ => true | _ => false end.
Definition isDisconnected (ev : EngineEvent) : bool := match ev with Disconnected _ ByShutdown => true | _ => false end.

Lemma inSession_told : map isMessage (toldOf 0 (at_ inSession)) = [false; false; true] /\ is_Some (reach inSession).
Proof. split; [by vm_compute|]. vm_compute. by eexists. Qed.
Lemma stopped_told : map isDisconnected (toldOf 0 (at_ stopped)) = [false; false; false; true] /\ Core.mEngine (at_ stopped) = None /\ is_Some (reach stopped).
Proof. split_and!; [by vm_compute..|]. vm_compute. by eexists. Qed.

Lemma application_told_witness : map isMessage (toldOf 0 (at_ inSession)) = [false; false; true] /\
  forall g r, Core.runs (at_ inSession) !! g = Some r -> toldOf g (at_ inSession) `prefix_of` Core.handedOver r /\ forall id, contract id (toldOf g (at_ inSession)).
Proof.
  split; [exact (proj1 inSession_told)|]. apply (application_told 500 (Core.mkDependencies true defaultTimings) (at_ inSession)), at_run, inSession_told.
Defined.

(** After [stop], the next start: its engine is another one, and what it finds is dispatched. *)
Definition again : list Move :=
  [MStart settings everything; MFinish; MLaunch [] 1; MBegin 1 (ms 7000); MTask Tasks.DoTurn; MDispatch].
Definition restarted : Core.NetLinkCore := default core0 (fst <$> moves 500 again (at_ stopped) (mkScript [] 5)).
Lemma restarted_steps : rtc (Core.core_step 500) (at_ stopped) restarted.
Proof.
  unfold restarted. destruct (moves 500 again (at_ stopped) (mkScript [] 5)) as [[c w]|] eqn:E; [by eapply moves_steps|].
  exfalso. revert E. vm_compute. discriminate.
Qed.
Lemma stop_is_final_witness : map isDisconnected (toldOf 0 (at_ stopped)) = [false; false; false; true] /\ length (toldOf 1 restarted) = 1%nat /\
  exists later, Core.dispatched restarted = Core.dispatched (at_ stopped) ++ later /\ Forall (fun x => (length (Core.runs (at_ stopped)) <= x.1)%nat) later.
Proof.
  destruct stopped_told as (Ht & He & Hr). split; [exact Ht|]. split; [by vm_compute|].
  apply (stop_is_final 500 (Core.mkDependencies true defaultTimings) (at_ stopped) restarted); [by apply at_run|exact He|exact restarted_steps].
Defined.

Lemma one_engine_witness : is_Some (Core.launch None [] 1 settings everything (at_ (take 2 starting))).
Proof.
  apply (one_engine 500 (Core.mkDependencies true defaultTimings) (at_ (take 2 starting))); [|by vm_compute|by vm_compute].
  apply at_run. vm_compute. by eexists.
Defined.

(** A call of [stop] that is overtaken by [start] waits for the next engine: the engine it
    asked to end has ended and is replaced before it gets the mutex, and the one it then
    waits for was never asked. *)
Definition overtaken : list Move := inSession ++ ending ++ [MStart settings everything] ++ draining ++ [MLaunch [] 1; MStopLock].
Lemma stop_waits_for_next : exists c r, Core.core_run 500 (Core.mkDependencies true defaultTimings) c /\
  Core.life c = Core.Finishing Core.ByStop /\ Core.joinThread c = None /\
  Core.runs c !! 1%nat = Some r /\ Core.mThread c = Some 1%nat /\ Core.thread r = Core.Looping /\
  Box.mCommands (mMailbox (Core.eng r)) = [] /\ mShutdown (Core.eng r) = false.
Proof.
  exists (at_ overtaken). eexists. split; [apply at_run; vm_compute; by eexists|]. split_and!; vm_compute; reflexivity.
Qed.

(** A line that is written through the sink of an earlier start, as a call of
    [getAvailableAdapters] does that began before [stop]: it waits in the queue of the event
    thread and is handed to the callbacks of that start by the event thread of the next. *)
Definition chatty : Core.NetLinkCallbacks := Core.mkCallbacks true true false true true true true true.
Definition warning : text := [Byte.x6e; Byte.x6f].
Definition briefly : list Move :=
  [MStart settings chatty; MFinish; MLaunch [] 1; MStop; MBegin 0 0; MWait 0 (ms 1); MEnd 0; MStopLock; MFinish; MTask Tasks.DoDrain;
   MTask Tasks.DoNotifyAll; MTask Tasks.DoTurn; MTask Tasks.DoReturn; MTask Tasks.DoTurn; MTask Tasks.DoJoin; MFinish].
Definition late : list Move :=
  briefly ++ [MLog 0 LogWarning warning; MStart settings everything; MFinish; MLaunch [] 1; MTask Tasks.DoTurn; MTask Tasks.DoReturn].
Lemma line_after_stop : exists c c', Core.core_run 500 (Core.mkDependencies true defaultTimings) c /\
  Core.core_run 500 (Core.mkDependencies true defaultTimings) c' /\ Core.mEngine c = None /\ Core.life c = Core.Free /\
  Core.logged c = [] /\ Core.logged c' = [(0%nat, (LogWarning, warning))] /\ Core.mCallbacks c' = 1%nat.
Proof.
  exists (at_ briefly), (at_ late). split; [apply at_run; vm_compute; by eexists|]. split; [apply at_run; vm_compute; by eexists|].
  split_and!; vm_compute; reflexivity.
Qed.
