(* ===== verification/SocketErrors.v ===== *)
(** * The errors of the sockets

    The codes the operating systems report, and the portable errors they are mapped to:
    [Socket/Platform/SocketCommon.h], [mapNativeError] of both platforms, and [toString] of
    [Socket/SocketTypes.h]. *)
From Stdlib Require Import Strings.String.
From S2P Require Import Prelude Text Engine NetworkInformation.
#[local] Open Scope Z_scope.

(** ** The codes

    [EWOULDBLOCK] is [EAGAIN] on the POSIX systems that are supported. *)
Inductive Errno :=
  EPERM | EINTR | EBADF | EAGAIN | EACCES | EFAULT | EINVAL | EPIPE | ENOTSOCK | EMSGSIZE | EAFNOSUPPORT | EADDRINUSE |
  EADDRNOTAVAIL | ENETDOWN | ENETUNREACH | ENETRESET | ECONNABORTED | ECONNRESET | ENOBUFS | ENOTCONN | ESHUTDOWN |
  ETIMEDOUT | ECONNREFUSED | EHOSTDOWN | EHOSTUNREACH | EINPROGRESS | OtherErrno (code : Z).
#[global] Instance Errno_eq_dec : EqDecision Errno.
Proof. solve_decision. Defined.

Inductive WsaCode :=
  WSAEINTR | WSAEACCES | WSAEFAULT | WSAEINVAL | WSAEWOULDBLOCK | WSAEINPROGRESS | WSAENOTSOCK | WSAEMSGSIZE |
  WSAEAFNOSUPPORT | WSAEADDRINUSE | WSAEADDRNOTAVAIL | WSAENETDOWN | WSAENETUNREACH | WSAENETRESET | WSAECONNABORTED |
  WSAECONNRESET | WSAENOBUFS | WSAENOTCONN | WSAESHUTDOWN | WSAETIMEDOUT | WSAECONNREFUSED | WSAEHOSTDOWN |
  WSAEHOSTUNREACH | WSANOTINITIALISED | WSAEDISCON | OtherWsa (code : Z).
#[global] Instance WsaCode_eq_dec : EqDecision WsaCode.
Proof. solve_decision. Defined.

(** What [lastNativeError] returns on either platform. *)
Inductive NativeError := Posix (e : Errno) | Winsock (w : WsaCode).
#[global] Instance NativeError_eq_dec : EqDecision NativeError.
Proof. solve_decision. Defined.

Definition isWouldBlock (code : NativeError) : bool :=
  match code with
  | Posix e => bool_decide (e = EAGAIN) || bool_decide (e = ENOBUFS)
  | Winsock w => bool_decide (w = WSAEWOULDBLOCK) || bool_decide (w = WSAENOBUFS)
  end.
Definition isInterrupted (code : NativeError) : bool :=
  match code with
  | Posix e => bool_decide (e = EINTR)
  | Winsock w => bool_decide (w = WSAEINTR)
  end.

Definition mapErrno (code : Errno) : SocketError :=
  match code with
  | EAGAIN | EINPROGRESS => WouldBlock
  | ETIMEDOUT => Timeout
  | EPIPE | ESHUTDOWN => SocketClosed
  | ECONNREFUSED => ConnectionRefused
  | ECONNRESET | ENETRESET => ConnectionReset
  | ECONNABORTED => ConnectionAborted
  | ENOTCONN => SocketNotConnected
  | EADDRINUSE => AddressInUse
  | EADDRNOTAVAIL => AddressNotAvailable
  | EACCES | EPERM => PermissionDenied
  | EINVAL | EFAULT | EBADF | ENOTSOCK | EAFNOSUPPORT => InvalidArgument
  | ENETUNREACH | EHOSTUNREACH | EHOSTDOWN => NetworkUnreachable
  | ENETDOWN => NetworkDown
  | EMSGSIZE => MessageTooLarge
  | _ => UnknownError
  end.

Definition mapWsa (code : WsaCode) : SocketError :=
  match code with
  | WSAEWOULDBLOCK | WSAEINPROGRESS => WouldBlock
  | WSAETIMEDOUT => Timeout
  | WSAESHUTDOWN | WSAEDISCON => SocketClosed
  | WSAECONNREFUSED => ConnectionRefused
  | WSAECONNRESET | WSAENETRESET => ConnectionReset
  | WSAECONNABORTED => ConnectionAborted
  | WSAENOTCONN => SocketNotConnected
  | WSAEADDRINUSE => AddressInUse
  | WSAEADDRNOTAVAIL => AddressNotAvailable
  | WSAEACCES => PermissionDenied
  | WSAEINVAL | WSAEFAULT | WSAENOTSOCK | WSAEAFNOSUPPORT => InvalidArgument
  | WSAENETUNREACH | WSAEHOSTUNREACH | WSAEHOSTDOWN => NetworkUnreachable
  | WSAENETDOWN => NetworkDown
  | WSAEMSGSIZE => MessageTooLarge
  | WSANOTINITIALISED => NotInitialized
  | _ => UnknownError
  end.

Definition mapNativeError (code : NativeError) : SocketError :=
  match code with Posix e => mapErrno e | Winsock w => mapWsa w end.

(** The error of a call that is not repeated. *)
Definition callError (code : NativeError) : SocketError :=
  if isWouldBlock code then WouldBlock else mapNativeError code.

Definition errorToString (error : SocketError) : text :=
  match error with
  | Timeout => lit "Timeout"
  | WouldBlock => lit "Would block"
  | Cancelled => lit "Cancelled"
  | SocketClosed => lit "Closed"
  | ConnectionRefused => lit "Connection refused"
  | ConnectionReset => lit "Connection reset"
  | ConnectionAborted => lit "Connection aborted"
  | SocketNotConnected => lit "Not connected"
  | AddressInUse => lit "Address in use"
  | AddressNotAvailable => lit "Address not available"
  | PermissionDenied => lit "Permission denied"
  | InvalidArgument => lit "Invalid argument"
  | NetworkUnreachable => lit "Network unreachable"
  | NetworkDown => lit "Network down"
  | MessageTooLarge => lit "Message too large"
  | NotInitialized => lit "Socket subsystem not initialized"
  | UnknownError => lit "Unknown error"
  end.

(** ** What the codes become *)

(** No two errors are logged alike. *)
Lemma errorToString_inj e e' : errorToString e = errorToString e' -> e = e'.
Proof. destruct e, e'; cbn; (done || (intros H; discriminate H)). Qed.

(** The operating system never reports that a wait was cancelled. *)
Lemma callError_not_cancelled code : callError code <> Cancelled.
Proof. destruct code as [[]|[]]; done. Qed.

(** A call is to be repeated later, neither given up nor taken for a failure, exactly if
    nothing is there yet, no buffer space is, or the call is on its way. *)
Lemma callError_would_block code : callError code = WouldBlock <->
  code ∈ [Posix EAGAIN; Posix ENOBUFS; Posix EINPROGRESS; Winsock WSAEWOULDBLOCK; Winsock WSAENOBUFS; Winsock WSAEINPROGRESS].
Proof.
  split; [|intros H; repeat (apply elem_of_cons in H as [->|H]); [done..|by apply not_elem_of_nil in H]].
  destruct code as [[]|[]]; intros [=]; repeat first [apply list_elem_of_here|apply list_elem_of_further].
Qed.

Lemma mapNativeError_unknown_interrupt code : isInterrupted code = true -> mapNativeError code = UnknownError.
Proof. destruct code as [[]|[]]; done. Qed.
