(* ===== verification/SocketPlatform.v ===== *)
(** * The native sockets

    [Socket/Platform/SocketPlatform.cpp] and the parts of [SocketPlatformPosix.cpp] and
    [SocketPlatformWindows.cpp] that create and close sockets.  The operating system is a
    parameter: the type class [Kernel] has a field per system call that is used, a
    function of the state of the system; a call fails with its code.  What is relied on is
    [KernelOk]. *)
From S2P Require Import Prelude IPv4Address Engine SocketErrors.
From stdpp Require Import list.
#[local] Open Scope Z_scope.

(** ** What the system calls exchange *)
Inductive Platform := OnLinux | OnMac | OnWindows.
#[global] Instance Platform_eq_dec : EqDecision Platform.
Proof. solve_decision. Defined.

(** The port and the address are in network byte order. *)
Record sockaddr_in := mkSockaddr { sin_port : Z; s_addr : Z }.
Definition sockaddr_ok (a : sockaddr_in) : Prop := is_uint 16 (sin_port a) /\ is_uint 32 (s_addr a).

Inductive SocketOption := SO_REUSEADDR | SO_REUSEPORT | SO_BROADCAST | SO_RCVBUF | SO_SNDBUF | SO_NOSIGPIPE.

(** What a receive call wrote: the bytes, whether [MSG_TRUNC] is set, the sender. *)
Record Received := mkReceived { received : bytes; truncated : bool; from : sockaddr_in }.

Class Kernel (K : Type) := {
  platform : Platform;
  littleEndian : bool;
  clock : K -> TimePoint * K;
  wsaStartup : K -> Z * K;
  socket : K -> (NativeError + Z) * K;
  fcntlGetFlags : Z -> K -> (NativeError + Z) * K;
  fcntlSetFlags : Z -> Z -> K -> (NativeError + ()) * K;
  fcntlCloseOnExec : Z -> K -> K;
  ioctlNonBlocking : Z -> K -> (NativeError + ()) * K;
  ioctlNoConnReset : Z -> K -> K;
  setsockopt : Z -> SocketOption -> Z -> K -> (NativeError + ()) * K;
  getsockopt : Z -> SocketOption -> K -> (NativeError + Z) * K;
  bindSocket : Z -> sockaddr_in -> K -> (NativeError + ()) * K;
  getsockname : Z -> K -> (NativeError + sockaddr_in) * K;
  sendto : Z -> bytes -> sockaddr_in -> K -> (NativeError + Z) * K;
  sendmsg : Z -> list bytes -> sockaddr_in -> K -> (NativeError + Z) * K;
  recvfrom : Z -> Z -> K -> (NativeError + Received) * K;
  recvmsg : Z -> Z -> K -> (NativeError + Received) * K;
  closeSocket : Z -> K -> K;
  shutdownSocket : Z -> K -> K;
}.

(** ** Computations

    The state of the system, the descriptors and handles this code opened and has not
    closed, the result of [WSAStartup] once it ran, and the fields of a socket that its
    threads share: [State::shutdown], and on Windows [mReadableUnread] and [mArmedFor].
    [None]: a loop did not end within the rounds it was given. *)
Record System (K : Type) := mkSystem {
  os : K;
  held : list Z;
  runtime : option Z;
  shutdownFlag : bool;
  mReadableUnread : bool;
  mArmedFor : option TimePoint;
}.
Arguments mkSystem {K} _ _ _ _ _ _.
Arguments os {K} _.
Arguments held {K} _.
Arguments runtime {K} _.
Arguments shutdownFlag {K} _.
Arguments mReadableUnread {K} _.
Arguments mArmedFor {K} _.
#[global] Instance eta_System K : Eta (System K) := fun r =>
  mkSystem (os r) (held r) (runtime r) (shutdownFlag r) (mReadableUnread r) (mArmedFor r).

Definition IO (K A : Type) : Type := System K -> option (A * System K).
#[global] Instance io_ret K : MRet (IO K) := fun A a s => Some (a, s).
#[global] Instance io_bind K : MBind (IO K) := fun A B f m s =>
  match m s with Some (a, s) => f a s | None => None end.

Fixpoint removeFirst (x : Z) (l : list Z) : list Z :=
  match l with [] => [] | y :: l => if x =? y then l else y :: removeFirst x l end.

Section Calls.
Context {K : Type}.

Definition sys {A} (f : K -> A * K) : IO K A := fun s => let '(a, k) := f (os s) in Some (a, s <| os := k |>).
Definition sys_ (f : K -> K) : IO K () := fun s => Some ((), s <| os ::= f |>).

Definition gets {A} (f : System K -> A) : IO K A := fun s => Some (f s, s).
Definition modify (f : System K -> System K) : IO K () := fun s => Some ((), f s).

(** A call that opens a descriptor, and one that closes it. *)
Definition opening (f : K -> (NativeError + Z) * K) : IO K (NativeError + Z) := fun s =>
  let '(r, k) := f (os s) in
  Some (r, match r with inr fd => s <| os := k |> <| held ::= cons fd |> | inl _ => s <| os := k |> end).
Definition closing (f : Z -> K -> K) (fd : Z) : IO K () := fun s =>
  Some ((), s <| os ::= f fd |> <| held ::= removeFirst fd |>).

(** [std::expected]: what follows a call that succeeds. *)
Definition onSuccess {E A B} (m : IO K (E + A)) (f : A -> IO K (E + B)) : IO K (E + B) :=
  r ← m; match r with inl e => mret (inl e) | inr a => f a end.
Definition mapError {A} (m : IO K (NativeError + A)) : IO K (SocketError + A) :=
  r ← m; mret (match r with inl code => inl (mapNativeError code) | inr a => inr a end).
End Calls.
Notation "a <- m ; p" := (onSuccess m (fun a => p)) (at level 200, m at level 100, p at level 200) : netlink_scope.

Section Platforms.
Context {K : Type} `{!Kernel K}.

(** ** Addresses *)
Definition swap16 (x : Z) : Z := Z.lor (Z.shiftl (Z.land x 0xFF) 8) (Z.shiftr x 8).
Definition swap32 (x : Z) : Z := Z.lor (Z.shiftl (swap16 (Z.land x 0xFFFF)) 16) (swap16 (Z.shiftr x 16)).
Definition htons (x : Z) : Z := if littleEndian then swap16 x else x.
Definition htonl (x : Z) : Z := if littleEndian then swap32 x else x.
Definition ntohs (x : Z) : Z := htons x.
Definition ntohl (x : Z) : Z := htonl x.

Definition toSockaddr (address : SocketAddress) : sockaddr_in :=
  mkSockaddr (htons (port address)) (htonl (toHostOrder (ip address))).
Definition fromSockaddr (addr : sockaddr_in) : SocketAddress :=
  mkSocketAddress (fromHostOrder (ntohl (s_addr addr))) (ntohs (sin_port addr)).

(** ** Options *)
Definition setIntOption (handle : Z) (name : SocketOption) (value : Z) : IO K (SocketError + ()) :=
  mapError (sys (setsockopt handle name value)).
Definition intOption (handle : Z) (name : SocketOption) : IO K Z :=
  r ← sys (getsockopt handle name); mret (match r with inl _ => 0 | inr value => value end).

(** [int] on Windows, [size_t] elsewhere. *)
Definition clampLength (size : Z) : Z := if bool_decide (platform = OnWindows) then Z.min size (2 ^ 31 - 1) else size.

Definition applyBindOptions (handle : Z) (options : BindOptions) : IO K (SocketError + ()) :=
  _ <- (if reuseAddress options then
          _ <- setIntOption handle SO_REUSEADDR 1;
          if bool_decide (platform = OnWindows) then mret (inr ()) else setIntOption handle SO_REUSEPORT 1
        else mret (inr ()));
  _ <- (if enableBroadcast options then setIntOption handle SO_BROADCAST 1 else mret (inr ()));
  (if 0 <? receiveBufferSize options then _ ← setIntOption handle SO_RCVBUF (receiveBufferSize options); mret () else mret ());;
  (if 0 <? sendBufferSize options then _ ← setIntOption handle SO_SNDBUF (sendBufferSize options); mret () else mret ());;
  (if (0 <? receiveBufferSize options) || (0 <? sendBufferSize options)
   then _ ← intOption handle SO_RCVBUF; _ ← intOption handle SO_SNDBUF; mret () else mret ());;
  mret (inr ()).

Definition bindTo (handle : Z) (address : SocketAddress) : IO K (SocketError + ()) :=
  mapError (sys (bindSocket handle (toSockaddr address))).
Definition localAddressOf (handle : Z) : IO K (SocketError + SocketAddress) :=
  addr <- mapError (sys (getsockname handle)); mret (inr (fromSockaddr addr)).

(** ** Datagrams *)

(** A call is made again for as long as a signal interrupts it. *)
Fixpoint retrying {A} (call : IO K (NativeError + A)) (fuel : nat) : IO K (SocketError + A) :=
  match fuel with
  | O => fun _ => None
  | S fuel =>
    r ← call;
    match r with
    | inr a => mret (inr a)
    | inl code => if isInterrupted code then retrying call fuel else mret (inl (callError code))
    end
  end.

Definition sendDatagram (fuel : nat) (handle : Z) (to : SocketAddress) (data : bytes) : IO K (SocketError + Z) :=
  retrying (sys (sendto handle (ztake (clampLength (zlen data)) data) (toSockaddr to))) fuel.

(** The length of a part is an [ULONG] on Windows. *)
Definition partLength (data : bytes) : bytes :=
  if bool_decide (platform = OnWindows) then ztake (u32 (zlen data)) data else data.
Definition sendDatagramParts (fuel : nat) (handle : Z) (to : SocketAddress) (head body : bytes) : IO K (SocketError + Z) :=
  retrying (sys (sendmsg handle (if bool_decide (body = []) then [partLength head] else [partLength head; partLength body])
    (toSockaddr to))) fuel.

(** Into a buffer of [size] bytes.  Where the datagram is cut off, the error is a value the call yields. *)
Definition receiveDatagram (fuel : nat) (handle size : Z) : IO K (SocketError + bytes * SocketAddress) :=
  d <- retrying (sys (if bool_decide (platform = OnWindows) then recvfrom handle (clampLength size) else recvmsg handle size)) fuel;
  mret (if negb (bool_decide (platform = OnWindows)) && truncated d then inl MessageTooLarge
        else inr (received d, fromSockaddr (from d))).

(** ** Creating and closing *)
Definition disableSigPipe (sock : Z) : IO K () :=
  if bool_decide (platform = OnMac) then _ ← sys (setsockopt sock SO_NOSIGPIPE 1); mret () else mret ().

Definition O_NONBLOCK : Z := if bool_decide (platform = OnMac) then 4 else 0x800.
Definition setNonBlockingPosix (handle : Z) : IO K (SocketError + ()) :=
  mapError (flags <- sys (fcntlGetFlags handle); sys (fcntlSetFlags handle (Z.lor flags O_NONBLOCK))).

Definition createPosix : IO K (SocketError + Z) :=
  sock <- mapError (opening socket);
  (if bool_decide (platform = OnMac) then sys_ (fcntlCloseOnExec sock) else mret ());;
  nonBlocking ← setNonBlockingPosix sock;
  match nonBlocking with
  | inl error => closing closeSocket sock;; mret (inl error)
  | inr _ => disableSigPipe sock;; mret (inr sock)
  end.

(** Windows: [WSAStartup] runs once. *)
Definition ensureInitialized : IO K (SocketError + ()) := fun s =>
  let '(result, s) :=
    match runtime s with
    | Some result => (result, s)
    | None => let '(result, k) := wsaStartup (os s) in (result, s <| os := k |> <| runtime := Some result |>)
    end in
  Some (if result =? 0 then inr () else inl NotInitialized, s).
Definition setNonBlockingWindows (handle : Z) : IO K (SocketError + ()) := mapError (sys (ioctlNonBlocking handle)).
Definition createWindows : IO K (SocketError + Z) :=
  _ <- ensureInitialized;
  sock <- mapError (opening socket);
  nonBlocking ← setNonBlockingWindows sock;
  match nonBlocking with
  | inl error => closing closeSocket sock;; mret (inl error)
  | inr _ => sys_ (ioctlNoConnReset sock);; mret (inr sock)
  end.
Definition createSocket : IO K (SocketError + Z) :=
  if bool_decide (platform = OnWindows) then createWindows else createPosix.

(** [~0]: no descriptor. *)
Definition InvalidNativeHandle : Z := 2 ^ 64 - 1.
Definition closeHandle (handle : Z) : IO K () :=
  if bool_decide (handle = InvalidNativeHandle) then mret () else closing closeSocket handle.
Definition shutdownHandle (handle : Z) (k : K) : K :=
  if bool_decide (handle = InvalidNativeHandle) then k else shutdownSocket handle k.
End Platforms.
