(* ===== verification/SocketLaws.v ===== *)
(** * What the sockets rely on, and the calls on datagrams

    [KernelOk] states what is documented of the system calls; from it follows what
    [receiveDatagram] and the two ways to send a datagram do. *)
From S2P Require Import Prelude ByteOrder IPv4Address Engine SocketErrors SocketPlatform.
From stdpp Require Import list.
#[local] Open Scope Z_scope.

(** ** The state of the system, as far as it matters

    The time, a bound of the signals that will still interrupt a call, the datagrams that
    wait at a socket, whether the interrupt of a waiter is raised ([None] unless it is an
    object for interrupts that is open), and the time a timer is set to. *)
Class Observers (K : Type) := {
  time : K -> TimePoint;
  signals : K -> nat;
  queue : K -> Z -> list (bytes * sockaddr_in);
  raised : K -> Z -> option bool;
  due : K -> Z -> option TimePoint;
}.

Section Laws.
Context {K : Type} `{!Observers K}.

(** Datagrams were taken off a queue while others came in. *)
Definition takes (fd : Z) (l : list (bytes * sockaddr_in)) (k k' : K) : Prop :=
  exists late, queue k fd ++ late = l ++ queue k' fd.

(** Time passes, signals are used up, datagrams come in; the timers stay as they are; and
    so do the interrupts. *)
Definition passes (k k' : K) : Prop :=
  time k <= time k' /\ (signals k' <= signals k)%nat /\ (forall fd, takes fd [] k k').
Definition flows (k k' : K) : Prop := passes k k' /\ (forall t, due k' t = due k t).
Definition calm (k k' : K) : Prop := flows k k' /\ forall h, raised k' h = raised k h.

Lemma takes_trans fd l l' k k' k'' : takes fd l k k' -> takes fd l' k' k'' -> takes fd (l ++ l') k k''.
Proof. intros [a Ha] [b Hb]. exists (a ++ b). by rewrite (assoc_L (++)), Ha, <- (assoc_L (++) l), Hb, (assoc_L (++)). Qed.
Lemma takes_nil fd k : takes fd [] k k.
Proof. exists []. by rewrite (right_id_L [] (++)). Qed.

#[global] Instance passes_preorder : PreOrder passes.
Proof.
  split.
  - intros k. repeat split; [lia|lia|]. intros. apply takes_nil.
  - intros k k' k'' (T & S & Q) (T' & S' & Q'). split_and!; [lia|lia|].
    intros fd. exact (takes_trans fd [] [] _ _ _ (Q fd) (Q' fd)).
Qed.
#[global] Instance flows_preorder : PreOrder flows.
Proof.
  split.
  - intros k. by split.
  - intros k k' k'' [P D] [P' D']. split; [by etrans|]. intros t. by rewrite D', D.
Qed.
#[global] Instance calm_preorder : PreOrder calm.
Proof.
  split.
  - intros k. by split.
  - intros k k' k'' [F R] [F' R']. split; [by etrans|]. intros h. by rewrite R', R.
Qed.
End Laws.

(** ** What is documented of the calls *)
Class KernelOk (K : Type) `{!Kernel K, !Observers K} := {
  ok_clock : forall k, (clock k).1 = time k /\ calm k (clock k).2;
  (** [recvmsg]: the first datagram, cut off to the buffer and marked if it was longer. *)
  ok_recvmsg : forall fd n k, (signals (recvmsg fd n k).2 <= signals k)%nat /\
    match (recvmsg fd n k).1 with
    | inr r => sockaddr_ok (from r) /\ exists d, received r = ztake n d /\ (truncated r = true <-> n < zlen d) /\
        takes fd [(d, from r)] k (recvmsg fd n k).2
    | inl code => callError code <> MessageTooLarge /\ takes fd [] k (recvmsg fd n k).2 /\
        (isInterrupted code = true -> signals (recvmsg fd n k).2 < signals k)%nat
    end;
  (** [recvfrom] of Windows: the first datagram, or [WSAEMSGSIZE] if it was longer. *)
  ok_recvfrom : forall fd n k, (signals (recvfrom fd n k).2 <= signals k)%nat /\
    match (recvfrom fd n k).1 with
    | inr r => sockaddr_ok (from r) /\ zlen (received r) <= n /\ takes fd [(received r, from r)] k (recvfrom fd n k).2
    | inl code =>
        if bool_decide (callError code = MessageTooLarge)
        then exists d a, n < zlen d /\ takes fd [(d, a)] k (recvfrom fd n k).2
        else takes fd [] k (recvfrom fd n k).2 /\
          (isInterrupted code = true -> signals (recvfrom fd n k).2 < signals k)%nat
    end;
  (** [sendmsg] and [WSASendTo]: the parts are one datagram, in their order. *)
  ok_sendmsg : forall fd parts a k, sendmsg fd parts a k = sendto fd (concat parts) a k;
  ok_sendto : forall fd d a k code, (sendto fd d a k).1 = inl code -> isInterrupted code = true ->
    (signals (sendto fd d a k).2 < signals k)%nat;
  ok_socket : forall k fd, (socket k).1 = inr fd -> fd <> InvalidNativeHandle;
  ok_getsockname : forall fd k a, (getsockname fd k).1 = inr a -> sockaddr_ok a;
}.

Section Datagrams.
Context {K : Type} `{!Kernel K, !Observers K, !KernelOk K}.

(** ** Addresses *)
Lemma swap16_arith x : is_uint 16 x -> swap16 x = x mod 256 * 256 + x / 256.
Proof.
  unfold is_uint, swap16. intros H. change 0xFF with (Z.ones 8). rewrite Z.land_ones, Z.shiftr_div_pow2 by lia.
  apply lor_shiftl_add; [lia|]. Z.div_mod_to_equations. lia.
Qed.
Lemma swap16_uint x : is_uint 16 x -> is_uint 16 (swap16 x).
Proof. intros H. rewrite swap16_arith by done. unfold is_uint in *. Z.div_mod_to_equations. lia. Qed.
Lemma swap16_twice x : is_uint 16 x -> swap16 (swap16 x) = x.
Proof.
  intros H. rewrite (swap16_arith (swap16 x)) by by apply swap16_uint. rewrite (swap16_arith x) by done.
  unfold is_uint in H. Z.div_mod_to_equations. lia.
Qed.

Lemma halves x : is_uint 32 x -> is_uint 16 (x mod 2 ^ 16) /\ is_uint 16 (x / 2 ^ 16) /\ x = x / 2 ^ 16 * 2 ^ 16 + x mod 2 ^ 16.
Proof. unfold is_uint. intros. Z.div_mod_to_equations. lia. Qed.
Lemma joined a b : is_uint 16 b -> (a * 2 ^ 16 + b) mod 2 ^ 16 = b /\ (a * 2 ^ 16 + b) / 2 ^ 16 = a.
Proof. unfold is_uint. intros. Z.div_mod_to_equations. lia. Qed.
Lemma swap32_arith x : is_uint 32 x -> swap32 x = swap16 (x mod 2 ^ 16) * 2 ^ 16 + swap16 (x / 2 ^ 16).
Proof.
  intros H. destruct (halves x H) as (_ & Hh & _). unfold swap32. change 0xFFFF with (Z.ones 16).
  rewrite Z.land_ones, Z.shiftr_div_pow2 by lia. apply lor_shiftl_add; [lia|]. by apply swap16_uint.
Qed.
Lemma swap32_uint x : is_uint 32 x -> is_uint 32 (swap32 x).
Proof.
  intros H. destruct (halves x H) as (Hl & Hh & _). rewrite swap32_arith by done.
  apply swap16_uint in Hl, Hh. unfold is_uint in *. lia.
Qed.
Lemma swap32_twice x : is_uint 32 x -> swap32 (swap32 x) = x.
Proof.
  intros H. destruct (halves x H) as (Hl & Hh & E). rewrite (swap32_arith (swap32 x)) by by apply swap32_uint.
  rewrite (swap32_arith x) by done.
  destruct (joined (swap16 (x mod 2 ^ 16)) (swap16 (x / 2 ^ 16))) as [-> ->]; [by apply swap16_uint|].
  by rewrite !swap16_twice, <- E.
Qed.

Lemma htons_twice x : is_uint 16 x -> ntohs (htons x) = x.
Proof. unfold ntohs, htons. intros. destruct littleEndian; [by apply swap16_twice|done]. Qed.
Lemma htonl_twice x : is_uint 32 x -> ntohl (htonl x) = x.
Proof. unfold ntohl, htonl. intros. destruct littleEndian; [by apply swap32_twice|done]. Qed.

(** An address comes back from the system as it was handed to it. *)
Lemma sockaddr_roundtrip a : Engine.address_ok a -> fromSockaddr (toSockaddr a) = a /\ sockaddr_ok (toSockaddr a).
Proof.
  destruct a as [[v] p]. intros [Hi Hp]. cbn in *. unfold fromSockaddr, toSockaddr, sockaddr_ok. cbn.
  rewrite htons_twice, htonl_twice by done. split; [done|]. unfold htons, htonl.
  destruct littleEndian; [|done]. split; [by apply swap16_uint|by apply swap32_uint].
Qed.
Lemma fromSockaddr_ok a : sockaddr_ok a -> Engine.address_ok (fromSockaddr a).
Proof.
  intros [Hp Ha]. unfold fromSockaddr, ntohl, ntohs, htonl, htons. split; cbn; destruct littleEndian;
    first [by apply swap32_uint|by apply swap16_uint|done].
Qed.
Lemma fromSockaddr_inj a b : sockaddr_ok a -> sockaddr_ok b -> fromSockaddr a = fromSockaddr b -> a = b.
Proof.
  destruct a as [p i], b as [p' i']. intros [Hp Hi] [Hp' Hi'] [= Ei Ep]. cbn in *.
  apply (f_equal htonl) in Ei. apply (f_equal htons) in Ep. f_equal.
  - rewrite <- (htons_twice p), <- (htons_twice p') by done. exact Ep.
  - rewrite <- (htonl_twice i), <- (htonl_twice i') by done. exact Ei.
Qed.

(** ** Calls that are repeated *)

(** A call that a signal can interrupt: it is made again until one answers. *)
Lemma retrying_ok {A} (f : K -> (NativeError + A) * K) (done_ : K -> SocketError + A -> K -> Prop) :
  (forall k, match (f k).1 with
     | inr a => done_ k (inr a) (f k).2
     | inl code => if isInterrupted code
         then (signals (f k).2 < signals k)%nat /\ (forall r k', done_ (f k).2 r k' -> done_ k r k')
         else done_ k (inl (callError code)) (f k).2
     end) ->
  forall fuel s, (signals (os s) < fuel)%nat ->
  exists r k, retrying (sys f) fuel s = Some (r, s <| os := k |>) /\ done_ (os s) r k.
Proof.
  intros H. induction fuel as [|fuel IH]; [lia|]. intros s Hs. specialize (H (os s)).
  cbn [retrying]. unfold mbind, io_bind, sys. destruct (f (os s)) as [[code|a] k] eqn:E; cbn in H |- *; [|eauto].
  destruct (isInterrupted code); [|eauto]. destruct H as [Hlt Hd].
  destruct (IH (s <| os := k |>)) as (r & k' & E' & Hr); [cbn; lia|]. exists r, k'. split; [done|by apply Hd].
Qed.
Lemma retrying_mono {A} (m : IO K (NativeError + A)) fuel fuel' s x : (fuel <= fuel')%nat ->
  retrying m fuel s = Some x -> retrying m fuel' s = Some x.
Proof.
  revert fuel' s. induction fuel as [|fuel IH]; [done|]. intros [|fuel'] s Hf; [lia|]. cbn [retrying].
  unfold mbind, io_bind. destruct (m s) as [[[code|a] s']|]; [|done..].
  destruct (isInterrupted code); [|done]. apply IH. lia.
Qed.

(** ** Receiving *)

(** What a receive call did: it took the first datagram, which it hands over whole with
    the address it came from; or it dropped the first one, which is too large; or it took nothing. *)
Definition receives (fd size : Z) (k : K) (r : SocketError + bytes * SocketAddress) (k' : K) : Prop :=
  (signals k' <= signals k)%nat /\
  match r with
  | inr (d, a) => exists x, a = fromSockaddr x /\ sockaddr_ok x /\ zlen d <= clampLength size /\ takes fd [(d, x)] k k'
  | inl MessageTooLarge => exists d x, clampLength size < zlen d /\ takes fd [(d, x)] k k'
  | inl _ => takes fd [] k k'
  end.

Lemma receives_later fd size k k1 r k' : (signals k1 <= signals k)%nat -> takes fd [] k k1 -> receives fd size k1 r k' -> receives fd size k r k'.
Proof.
  intros S T [S' H]. split; [lia|]. revert H. destruct r as [[]|[d a]]; try apply (takes_trans fd [] [] _ _ _ T).
  - intros (d & x & ? & T'). exists d, x. split; [done|]. exact (takes_trans fd [] _ _ _ _ T T').
  - intros (x & ? & ? & ? & T'). exists x. split_and!; [done..|]. exact (takes_trans fd [] _ _ _ _ T T').
Qed.
Lemma receives_error fd size k k' e : (signals k' <= signals k)%nat -> e <> MessageTooLarge -> takes fd [] k k' ->
  receives fd size k (inl e) k'.
Proof. intros S H T. split; [done|]. by destruct e. Qed.
Lemma interrupted_not_large code : isInterrupted code = true -> callError code <> MessageTooLarge.
Proof. by destruct code as [[]|[]]. Qed.

Lemma clampLength_le n : clampLength n <= n.
Proof. unfold clampLength. case_bool_decide; lia. Qed.

(** What [receiveDatagram] makes of what the call yields. *)
Definition datagramOf (r : SocketError + Received) : SocketError + bytes * SocketAddress :=
  match r with
  | inl e => inl e
  | inr d => if negb (bool_decide (platform = OnWindows)) && truncated d then inl MessageTooLarge
             else inr (received d, fromSockaddr (from d))
  end.

Lemma recvmsg_answers fd size k : platform <> OnWindows ->
  match (recvmsg fd size k).1 with
  | inr d => receives fd size k (datagramOf (inr d)) (recvmsg fd size k).2
  | inl code => callError code <> MessageTooLarge /\ takes fd [] k (recvmsg fd size k).2 /\
      (isInterrupted code = true -> (signals (recvmsg fd size k).2 < signals k)%nat)
  end.
Proof.
  intros Hp. destruct (ok_recvmsg fd size k) as [S H]. destruct (recvmsg fd size k) as [[code|d] k']; cbn -[datagramOf] in *; [done|].
  destruct H as (Ha & x & Hd & Ht & T). unfold datagramOf. rewrite bool_decide_false by done. cbn [negb andb].
  assert (clampLength size = size) as Ec by (unfold clampLength; by rewrite bool_decide_false).
  destruct (truncated d) eqn:E; split; [done| |done|]; rewrite Ec.
  - exists x, (from d). split; [by apply Ht|done].
  - assert (zlen x <= size) by (destruct (decide (size < zlen x)) as [L|]; [apply Ht in L; done|lia]).
    exists (from d). rewrite Hd, ztake_ge by done. split_and!; done.
Qed.
Lemma recvfrom_answers fd size k : platform = OnWindows ->
  match (recvfrom fd (clampLength size) k).1 with
  | inr d => receives fd size k (datagramOf (inr d)) (recvfrom fd (clampLength size) k).2
  | inl code => if bool_decide (callError code = MessageTooLarge)
      then receives fd size k (inl MessageTooLarge) (recvfrom fd (clampLength size) k).2
      else takes fd [] k (recvfrom fd (clampLength size) k).2 /\
        (isInterrupted code = true -> (signals (recvfrom fd (clampLength size) k).2 < signals k)%nat)
  end.
Proof.
  intros Hp. destruct (ok_recvfrom fd (clampLength size) k) as [S H].
  destruct (recvfrom fd (clampLength size) k) as [[code|d] k']; cbn -[datagramOf clampLength] in *.
  - case_bool_decide; [by split|done].
  - destruct H as (Ha & Hl & T). unfold datagramOf. rewrite bool_decide_true by done. split; [done|]. exists (from d). by split_and!.
Qed.

Lemma receive_call fd size k :
  let f := if bool_decide (platform = OnWindows) then recvfrom fd (clampLength size) else recvmsg fd size in
  match (f k).1 with
  | inr d => receives fd size k (datagramOf (inr d)) (f k).2
  | inl code => if isInterrupted code
      then (signals (f k).2 < signals k)%nat /\ (forall r k', receives fd size (f k).2 (datagramOf r) k' -> receives fd size k (datagramOf r) k')
      else receives fd size k (inl (callError code)) (f k).2
  end.
Proof.
  cbn zeta. case_bool_decide as Hp.
  - pose proof (recvfrom_answers fd size k Hp) as H. destruct (ok_recvfrom fd (clampLength size) k) as [S _].
    destruct (recvfrom _ _ k) as [[code|d] k']; [|exact H]. cbn [fst snd] in *. destruct (isInterrupted code) eqn:Ei.
    + rewrite bool_decide_false in H by by apply interrupted_not_large. destruct H as [T Hs].
      split; [by apply Hs|]. intros r k1. by apply receives_later.
    + case_bool_decide as El; [by rewrite El|]. apply receives_error; [done|done|apply H].
  - pose proof (recvmsg_answers fd size k Hp) as H. destruct (ok_recvmsg fd size k) as [S _].
    destruct (recvmsg fd size k) as [[code|d] k']; [|exact H]. cbn [fst snd] in *.
    destruct H as (Hm & T & Hs). destruct (isInterrupted code) eqn:Ei.
    + split; [by apply Hs|]. intros r k1. by apply receives_later.
    + by apply receives_error.
Qed.

Lemma receiveDatagram_ok fd size fuel s : (signals (os s) < fuel)%nat ->
  exists r k, receiveDatagram fuel fd size s = Some (r, s <| os := k |>) /\ receives fd size (os s) r k.
Proof.
  intros Hs. destruct (retrying_ok _ (fun k r k' => receives fd size k (datagramOf r) k') (receive_call fd size) fuel s Hs)
    as (r & k & E & Hr).
  exists (datagramOf r), k. split; [|done]. unfold receiveDatagram, onSuccess, mbind, io_bind. rewrite E. by destruct r.
Qed.

(** ** Sending *)
Lemma retrying_ext {A} (m m' : IO K (NativeError + A)) : (forall s, m s = m' s) ->
  forall fuel s, retrying m fuel s = retrying m' fuel s.
Proof.
  intros H. induction fuel as [|fuel IH]; [done|]. intros s. cbn [retrying]. unfold mbind, io_bind. rewrite H.
  destruct (m' s) as [[[code|a] s']|]; [|done..]. by destruct (isInterrupted code).
Qed.
Lemma partLength_small d : zlen d < 2 ^ 32 -> partLength d = d.
Proof.
  intros. unfold partLength. case_bool_decide; [|done].
  rewrite wrap_small by (unfold is_uint, zlen in *; lia). apply ztake_ge. lia.
Qed.
Lemma clampLength_small n : n < 2 ^ 31 -> clampLength n = n.
Proof. intros. unfold clampLength. case_bool_decide; lia. Qed.

(** The parts of a datagram that are not joined first are sent like the datagram they make. *)
Lemma parts_joined fuel fd to head body s : zlen (head ++ body) < 2 ^ 31 ->
  sendDatagramParts fuel fd to head body s = sendDatagram fuel fd to (head ++ body) s.
Proof.
  intros H. assert (zlen head < 2 ^ 32 /\ zlen body < 2 ^ 32) as [Hh Hb] by (unfold zlen in *; rewrite length_app in H; lia).
  apply retrying_ext. intros s'. unfold sys. rewrite ok_sendmsg, clampLength_small by done. rewrite ztake_ge by (done || lia).
  rewrite !partLength_small by done. case_bool_decide as E; [subst body|]; cbn [concat]; by rewrite ?(right_id_L [] (++)).
Qed.

Lemma sendDatagram_returns fd to d fuel s : (signals (os s) < fuel)%nat ->
  exists r k, sendDatagram fuel fd to d s = Some (r, s <| os := k |>).
Proof.
  intros Hs. destruct (retrying_ok (sendto fd (ztake (clampLength (zlen d)) d) (toSockaddr to)) (fun _ _ _ => True)) with (fuel := fuel) (s := s)
    as (r & k & E & _); [|done|by exists r, k].
  intros k. destruct (sendto _ _ _ k) as [[code|n] k'] eqn:E; cbn; [|done]. destruct (isInterrupted code) eqn:Ei; [|done].
  split; [|done]. pose proof (ok_sendto fd (ztake (clampLength (zlen d)) d) (toSockaddr to) k code) as H. rewrite E in H. by apply H.
Qed.
End Datagrams.
