(* ===== verification/ReadWaiter.v ===== *)
(** * Waiting for a datagram

    The three [ReadWaiter]s of [SocketPlatformPosix.cpp] and [SocketPlatformWindows.cpp],
    and the timer of [Util/Timing/WaitableTimerWindows.h].  While a wait is in progress
    other threads interrupt it: what they do is a computation that is run before each
    access to what is shared. *)
From S2P Require Import Prelude Engine SocketErrors SocketPlatform SocketLaws.
From stdpp Require Import list.
#[local] Open Scope Z_scope.

Record timespec := mkTimespec { tv_sec : Z; tv_nsec : Z }.
Inductive Filter := EVFILT_READ | EVFILT_USER.
#[global] Instance Filter_eq_dec : EqDecision Filter.
Proof. solve_decision. Defined.
Inductive WaitResult := WaitObject (i : nat) | WaitTimeout | WaitFailed.

(** A call of another thread on the socket. *)
Inductive OtherCall := CallInterrupt | CallShutdown.

Class WaitKernel (K : Type) := {
  otherCalls : K -> list OtherCall * K;
  closeObject : Z -> K -> K;
  (** Linux; [ppoll] yields the [revents] of both descriptors. *)
  eventfd : K -> (NativeError + Z) * K;
  ppoll : Z -> Z -> timespec -> K -> (NativeError + Z * Z) * K;
  readEvent : Z -> K -> K;
  writeEvent : Z -> K -> K;
  (** macOS *)
  kqueue : K -> (NativeError + Z) * K;
  keventAdd : Z -> Z -> K -> (NativeError + ()) * K;
  keventWait : Z -> timespec -> K -> (NativeError + list Filter) * K;
  keventTrigger : Z -> K -> K;
  (** Windows; a wait is for no time, or without a limit. *)
  createEvent : K -> (NativeError + Z) * K;
  eventSelect : Z -> Z -> K -> (NativeError + ()) * K;
  eventDeselect : Z -> K -> K;
  createTimer : bool -> K -> (NativeError + Z) * K;
  timeBeginPeriod : K -> bool * K;
  timeEndPeriod : K -> K;
  setWaitableTimer : Z -> Z -> K -> K;
  setEvent : Z -> K -> K;
  waitForMultipleObjects : list Z -> bool -> K -> WaitResult * K;
}.

Inductive ReadWaiter :=
| ReadWaiterLinux (mSocket mInterrupt : Z)
| ReadWaiterKqueue (mQueue : Z)
| ReadWaiterWindows (mSocket mReadable mInterrupt mTimer : Z) (mRaisedTickRate : bool).

Section Waiters.
Context {K : Type} `{!Kernel K, !WaitKernel K}.
Context (interfere : IO K ()).

(** Time left until the deadline, never negative. *)
Definition remainingUntil (deadline : TimePoint) : IO K timespec :=
  now ← sys clock;
  let remaining := Z.max (deadline - now) 0 in
  mret (mkTimespec (remaining / 1000000000) (remaining mod 1000000000)).

(** ** Linux *)
Fixpoint waitLinux (fuel : nat) (sock interrupt : Z) (deadline : TimePoint) : IO K (SocketError + ()) :=
  match fuel with
  | O => fun _ => None
  | S fuel =>
    timeout ← remainingUntil deadline;
    interfere;;
    result ← sys (ppoll sock interrupt timeout);
    match result with
    | inl code => if isInterrupted code then waitLinux fuel sock interrupt deadline else mret (inl (mapNativeError code))
    | inr (revents, interrupts) =>
      if (revents =? 0) && (interrupts =? 0) then mret (inl Timeout)
      else if negb (interrupts =? 0) then interfere;; sys_ (readEvent interrupt);; mret (inl Cancelled)
      else mret (inr ())
    end
  end.

(** ** macOS *)
Fixpoint waitKqueue (fuel : nat) (queue : Z) (deadline : TimePoint) : IO K (SocketError + ()) :=
  match fuel with
  | O => fun _ => None
  | S fuel =>
    timeout ← remainingUntil deadline;
    interfere;;
    result ← sys (keventWait queue timeout);
    match result with
    | inl code => if isInterrupted code then waitKqueue fuel queue deadline else mret (inl (mapNativeError code))
    | inr [] => mret (inl Timeout)
    | inr events => if bool_decide (EVFILT_USER ∈ events) then mret (inl Cancelled) else mret (inr ())
    end
  end.

(** ** Windows *)

(** In units of 100 ns. *)
Definition dueIn (deadline now : TimePoint) : Z := Z.max ((deadline - now) `quot` 100) 1.
Definition armFor (timer : Z) (deadline now : TimePoint) : IO K () :=
  armed ← gets mArmedFor;
  if match armed with Some a => (a <=? deadline) && (now <? a) | None => false end then mret ()
  else sys_ (setWaitableTimer timer (dueIn deadline now));; modify (fun s => s <| mArmedFor := Some deadline |>).
Definition onSignalled : IO K () := modify (fun s => s <| mArmedFor := None |>).

Fixpoint waitObjects (fuel : nat) (readable interrupt timer : Z) (deadline : TimePoint) : IO K (SocketError + ()) :=
  match fuel with
  | O => fun _ => None
  | S fuel =>
    now ← sys clock;
    let expired := deadline <=? now in
    (if expired then mret () else armFor timer deadline now);;
    interfere;;
    result ← sys (waitForMultipleObjects (if expired then [interrupt; readable] else [interrupt; readable; timer]) expired);
    match result with
    | WaitObject 0 => mret (inl Cancelled)
    | WaitObject 1 => modify (fun s => s <| mReadableUnread := true |>);; mret (inr ())
    | WaitObject 2 => onSignalled;; waitObjects fuel readable interrupt timer deadline
    | WaitTimeout => mret (inl Timeout)
    | _ => mret (inl UnknownError)
    end
  end.
Definition waitWindows (fuel : nat) (readable interrupt timer : Z) (deadline : TimePoint) : IO K (SocketError + ()) :=
  unread ← gets mReadableUnread;
  if (unread : bool) then mret (inr ()) else waitObjects fuel readable interrupt timer deadline.

(** ** The interface *)
Definition wait (fuel : nat) (w : ReadWaiter) (deadline : TimePoint) : IO K (SocketError + ()) :=
  match w with
  | ReadWaiterLinux sock interrupt => waitLinux fuel sock interrupt deadline
  | ReadWaiterKqueue queue => waitKqueue fuel queue deadline
  | ReadWaiterWindows _ readable interrupt timer _ => waitWindows fuel readable interrupt timer deadline
  end.
End Waiters.

Section Interface.
Context {K : Type} `{!Kernel K, !WaitKernel K}.

Definition raise (w : ReadWaiter) (k : K) : K :=
  match w with
  | ReadWaiterLinux _ interrupt => writeEvent interrupt k
  | ReadWaiterKqueue queue => keventTrigger queue k
  | ReadWaiterWindows _ _ interrupt _ _ => setEvent interrupt k
  end.
Definition onReceiveAttempt (w : ReadWaiter) : IO K () :=
  match w with
  | ReadWaiterWindows _ _ _ _ _ => modify (fun s => s <| mReadableUnread := false |>)
  | _ => mret ()
  end.

(** ** Creating and destroying *)
Definition closeOption (h : option Z) : IO K () :=
  match h with Some h => closing closeObject h | None => mret () end.

(** The members of a waiter of Windows, whether it is valid or not. *)
Definition destroyWindows (sock : Z) (readable interrupt timer : option Z) (raisedTickRate : bool) : IO K () :=
  (if bool_decide (is_Some readable) then sys_ (eventDeselect sock);; closeOption readable else mret ());;
  closeOption interrupt;;
  closeOption timer;;
  if raisedTickRate then sys_ timeEndPeriod else mret ().

Definition destroyWaiter (w : ReadWaiter) : IO K () :=
  match w with
  | ReadWaiterLinux _ interrupt => closing closeObject interrupt
  | ReadWaiterKqueue queue => closing closeObject queue
  | ReadWaiterWindows sock readable interrupt timer raisedTickRate =>
    destroyWindows sock (Some readable) (Some interrupt) (Some timer) raisedTickRate
  end.

Definition nullable {A} (m : IO K (NativeError + A)) : IO K (option A) :=
  r ← m; mret (match r with inl _ => None | inr a => Some a end).

(** The constructor of [WaitableTimer]. *)
Definition makeTimer : IO K (option Z * bool) :=
  timer ← nullable (opening (createTimer true));
  match timer with
  | Some timer => mret (Some timer, false)
  | None => timer ← nullable (opening (createTimer false)); tick ← sys timeBeginPeriod; mret (timer, tick)
  end.

Definition makeWindows (sock : Z) : IO K (option ReadWaiter) :=
  readable ← nullable (opening createEvent);
  interrupt ← nullable (opening createEvent);
  timer ← makeTimer;
  readable ← match readable with
    | None => mret None
    | Some h =>
      selected ← sys (eventSelect sock h);
      match selected with inr _ => mret (Some h) | inl _ => closing closeObject h;; mret None end
    end;
  match readable, interrupt, timer.1 with
  | Some r, Some i, Some t => mret (Some (ReadWaiterWindows sock r i t timer.2))
  | _, _, _ => destroyWindows sock readable interrupt timer.1 timer.2;; mret None
  end.

Definition makeKqueue (sock : Z) : IO K (option ReadWaiter) :=
  queue ← nullable (opening kqueue);
  match queue with
  | None => mret None
  | Some queue =>
    added ← sys (keventAdd queue sock);
    match added with
    | inl _ => closing closeObject queue;; mret None
    | inr _ => mret (Some (ReadWaiterKqueue queue))
    end
  end.

Definition makeLinux (sock : Z) : IO K (option ReadWaiter) :=
  interrupt ← nullable (opening eventfd); mret (ReadWaiterLinux sock <$> interrupt).

Definition createReadWaiter (handle : Z) : IO K (option ReadWaiter) :=
  match platform with
  | OnLinux => makeLinux handle
  | OnMac => makeKqueue handle
  | OnWindows => makeWindows handle
  end.
End Interface.

(** ** What is documented of the calls *)
Definition interruptOf (w : ReadWaiter) : Z :=
  match w with
  | ReadWaiterLinux _ interrupt => interrupt
  | ReadWaiterKqueue queue => queue
  | ReadWaiterWindows _ _ interrupt _ _ => interrupt
  end.
Definition nanoseconds (t : timespec) : Z := tv_sec t * 1000000000 + tv_nsec t.

Class WaitOk (K : Type) `{!Kernel K, !WaitKernel K, !Observers K} := {
  wk_others : forall k, calm k (otherCalls k).2;
  wk_shutdown : forall fd k, calm k (shutdownSocket fd k);
  wk_raise : forall w k, flows k (raise w k) /\
    forall b, raised k (interruptOf w) = Some b -> raised (raise w k) (interruptOf w) = Some true;
  (** A descriptor that is ready ends [ppoll]; nothing but that, and a signal, ends it early. *)
  wk_ppoll : forall sock h t k, flows k (ppoll sock h t k).2 /\ raised (ppoll sock h t k).2 h = raised k h /\
    match (ppoll sock h t k).1 with
    | inl code => mapNativeError code <> Timeout /\ (isInterrupted code = true -> signals (ppoll sock h t k).2 < signals k)%nat
    | inr (r, i) => (forall b, raised k h = Some b -> (i <> 0 <-> b = true)) /\
        (r = 0 -> i = 0 -> time k + nanoseconds t <= time (ppoll sock h t k).2)
    end;
  wk_read : forall h k, flows k (readEvent h k) /\
    forall b, raised k h = Some b -> raised (readEvent h k) h = Some false;
  (** [EV_CLEAR]: an event that is reported is reset. *)
  wk_kevent : forall h t k, flows k (keventWait h t k).2 /\
    match (keventWait h t k).1 with
    | inl code => mapNativeError code <> Timeout /\ raised (keventWait h t k).2 h = raised k h /\
        (isInterrupted code = true -> signals (keventWait h t k).2 < signals k)%nat
    | inr l => (forall b, raised k h = Some b -> (EVFILT_USER ∈ l <-> b = true) /\ raised (keventWait h t k).2 h = Some false) /\
        (l = [] -> time k + nanoseconds t <= time (keventWait h t k).2)
    end;
  (** The first object that is signalled ends the wait and is reset; a timer is signalled
      when its time has come. *)
  wk_objects : forall i r ts now k b, raised k i = Some b ->
    flows k (waitForMultipleObjects (i :: r :: ts) now k).2 /\
    raised (waitForMultipleObjects (i :: r :: ts) now k).2 i =
      Some (match (waitForMultipleObjects (i :: r :: ts) now k).1 with WaitObject 0 => false | _ => b end) /\
    match (waitForMultipleObjects (i :: r :: ts) now k).1 with
    | WaitObject 0 => b = true
    | WaitObject 1 => b = false
    | WaitObject 2 => b = false /\ exists t d, ts = [t] /\ due k t = Some d /\ d <= time (waitForMultipleObjects (i :: r :: ts) now k).2
    | WaitTimeout => now = true /\ b = false
    | _ => True
    end;
  wk_timer : forall t n k, passes k (setWaitableTimer t n k) /\
    (forall h, raised (setWaitableTimer t n k) h = raised k h) /\
    exists d, due (setWaitableTimer t n k) t = Some d /\ time k + 100 * n <= d;
}.

Section WaiterLaws.
Context {K : Type} `{!Kernel K, !WaitKernel K, !Observers K, !KernelOk K, !WaitOk K}.

(** ** How a wait ends *)

(** What happens to the state while a wait with the interrupt [h] is in progress: an
    interrupt that is raised stays raised, a socket that is shut down stays so. *)
Definition during (h : Z) (s s' : System K) : Prop :=
  passes (os s) (os s') /\ held s' = held s /\ (shutdownFlag s = true -> shutdownFlag s' = true) /\
  forall b, raised (os s) h = Some b -> exists b', raised (os s') h = Some b' /\ (b = true -> b' = true).
#[global] Instance during_preorder h : PreOrder (during h).
Proof.
  split.
  - intros s. split_and!; [done..|]. eauto.
  - intros s s' s'' (P & H & F & R) (P' & H' & F' & R'). split_and!; [by etrans|by rewrite H'|auto|].
    intros b Hb. destruct (R b Hb) as (b1 & Hb1 & ?). destruct (R' b1 Hb1) as (b2 & Hb2 & ?). exists b2. auto.
Qed.

(** The last call that waits, made in the state [s]: it reports the interrupt if that is
    raised, and only then resets it; it times out at the deadline only. *)
Definition polls (h : Z) (deadline : TimePoint) (s : System K) (r : SocketError + ()) (s' : System K) : Prop :=
  passes (os s) (os s') /\ held s' = held s /\ (shutdownFlag s = true -> shutdownFlag s' = true) /\
  exists b b', raised (os s) h = Some b /\ raised (os s') h = Some b' /\
  match r with
  | inr _ => b = false /\ b' = false
  | inl Cancelled => b = true /\ b' = false
  | inl Timeout => deadline <= time (os s') /\ b = false /\ b' = false
  | inl _ => b' = b
  end.
Definition waits (h : Z) (deadline : TimePoint) (s : System K) (r : SocketError + ()) (s' : System K) : Prop :=
  exists s1, during h s s1 /\ polls h deadline s1 r s'.

Lemma waits_later h deadline s s1 r s' : during h s s1 -> waits h deadline s1 r s' -> waits h deadline s r s'.
Proof. intros D (s2 & D' & P). exists s2. split; [by etrans|done]. Qed.

(** The calls of other threads that come in between. *)
Definition harmless (h : Z) (interfere : IO K ()) : Prop :=
  forall s, exists s', interfere s = Some ((), s') /\ during h s s' /\ (forall t, due (os s') t = due (os s) t) /\
    mArmedFor s' = mArmedFor s /\ mReadableUnread s' = mReadableUnread s.

Lemma remainingUntil_ok deadline s : exists t k, remainingUntil deadline s = Some (t, s <| os := k |>) /\
  calm (os s) k /\ deadline <= time k + nanoseconds t.
Proof.
  unfold remainingUntil, mbind, io_bind, sys. destruct (ok_clock (os s)) as [E C].
  destruct (clock (os s)) as [now k]. cbn in E, C. eexists _, k. split; [reflexivity|]. split; [done|].
  destruct C as [[(T & _) _] _]. unfold nanoseconds. cbn [tv_sec tv_nsec]. Z.div_mod_to_equations. lia.
Qed.

Lemma during_os h s k : passes (os s) k -> (forall b, raised (os s) h = Some b -> raised k h = Some b) -> during h s (s <| os := k |>).
Proof. intros P R. split_and!; [done..|]. cbn. eauto. Qed.

(** Every wait of POSIX begins like this. *)
Lemma before_poll h interfere deadline s b : harmless h interfere -> raised (os s) h = Some b ->
  exists t s1 b1, (forall A (f : timespec -> IO K A), (timeout ← remainingUntil deadline; interfere;; f timeout) s = f t s1) /\
    during h s s1 /\ raised (os s1) h = Some b1 /\ deadline <= time (os s1) + nanoseconds t.
Proof.
  intros Hi Hb. destruct (remainingUntil_ok deadline s) as (t & k & E & [[P Du] R] & Hd).
  destruct (Hi (s <| os := k |>)) as (s1 & E1 & D1 & _). pose proof D1 as ((T & _) & _ & _ & R1).
  destruct (R1 b) as (b1 & Hb1 & _); [cbn; by rewrite R|]. exists t, s1, b1.
  split_and!; [|etrans; [apply during_os; [done|by intros; rewrite R]|done]|done|cbn in T; lia].
  intros A f. unfold mbind, io_bind. rewrite E. by rewrite E1.
Qed.

Lemma polls_error h deadline (s s' : System K) b e : passes (os s) (os s') -> held s' = held s ->
  (shutdownFlag s = true -> shutdownFlag s' = true) -> raised (os s) h = Some b -> raised (os s') h = Some b ->
  e <> Timeout -> e <> Cancelled -> polls h deadline s (inl e) s'.
Proof. intros. split_and!; [done..|]. exists b, b. split_and!; [done..|]. by destruct e. Qed.
Lemma mapNativeError_not_cancelled code : mapNativeError code <> Cancelled.
Proof. by destruct code as [[]|[]]. Qed.

Lemma waitLinux_ok interfere sock h deadline : harmless h interfere -> forall fuel s b,
  raised (os s) h = Some b -> (signals (os s) < fuel)%nat ->
  exists r s', waitLinux interfere fuel sock h deadline s = Some (r, s') /\ waits h deadline s r s'.
Proof.
  intros Hi. induction fuel as [|fuel IH]; intros s b Hb Hs; [lia|]. cbn [waitLinux].
  destruct (before_poll h interfere deadline s b Hi Hb) as (t & s1 & b1 & E & D & Hb1 & Hd). rewrite E. clear E.
  unfold mbind at 1, io_bind at 1, sys at 1. destruct (wk_ppoll sock h t (os s1)) as ([P _] & R & H).
  destruct (ppoll sock h t (os s1)) as [[code|[rv iv]] k]; cbn [fst snd] in P, R, H.
  - destruct H as [Ht Hsig]. destruct (isInterrupted code).
    + destruct (IH (s1 <| os := k |>) b1) as (r & s' & E & W); [cbn; by rewrite R| |].
      { pose proof D as ((_ & S & _) & _). specialize (Hsig eq_refl). cbn. lia. }
      exists r, s'. split; [done|]. eapply waits_later; [|done]. etrans; [done|]. apply during_os; [done|by intros; rewrite R].
    + eexists _, _. split; [reflexivity|]. exists s1. split; [done|].
      apply (polls_error h deadline s1 _ b1); [done..|by cbn; rewrite R|done|apply mapNativeError_not_cancelled].
  - destruct H as [Hr Ht]. specialize (Hr b1 Hb1). destruct (decide (iv = 0)) as [->|Hiv].
    + destruct b1; [by destruct Hr as [_ []]|]. destruct (rv =? 0) eqn:Erv; cbn [andb negb Z.eqb].
      * eexists _, _. split; [reflexivity|]. exists s1. split; [done|]. split_and!; [done..|].
        exists false, false. cbn. split_and!; [done|by rewrite R| |done..]. specialize (Ht ltac:(lia) eq_refl). cbn in *. lia.
      * eexists _, _. split; [reflexivity|]. exists s1. split; [done|]. split_and!; [done..|].
        exists false, false. cbn. by rewrite R.
    + assert ((iv =? 0) = false) as Ei by lia. rewrite Ei, andb_false_r. cbn [negb].
      destruct (Hi (s1 <| os := k |>)) as (s2 & E2 & (P2 & H2 & F2 & R2) & _).
      destruct (R2 b1) as (b2 & Hb2 & _); [cbn; by rewrite R|]. destruct (wk_read h (os s2)) as [[Pr _] Rr].
      unfold mbind, io_bind. rewrite E2. eexists _, _. split; [reflexivity|]. exists s1. split; [done|].
      split_and!; [cbn in *; etrans; [apply P|]; by etrans|done|done|]. exists b1, false.
      split_and!; [done|exact (Rr b2 Hb2)|by apply Hr|done].
Qed.

Lemma waitKqueue_ok interfere h deadline : harmless h interfere -> forall fuel s b,
  raised (os s) h = Some b -> (signals (os s) < fuel)%nat ->
  exists r s', waitKqueue interfere fuel h deadline s = Some (r, s') /\ waits h deadline s r s'.
Proof.
  intros Hi. induction fuel as [|fuel IH]; intros s b Hb Hs; [lia|]. cbn [waitKqueue].
  destruct (before_poll h interfere deadline s b Hi Hb) as (t & s1 & b1 & E & D & Hb1 & Hd). rewrite E. clear E.
  unfold mbind at 1, io_bind at 1, sys at 1. destruct (wk_kevent h t (os s1)) as ([P _] & H).
  destruct (keventWait h t (os s1)) as [[code|l] k]; cbn [fst snd] in P, H.
  - destruct H as (Ht & R & Hsig). destruct (isInterrupted code).
    + destruct (IH (s1 <| os := k |>) b1) as (r & s' & E & W); [cbn; by rewrite R| |].
      { pose proof D as ((_ & S & _) & _). specialize (Hsig eq_refl). cbn. lia. }
      exists r, s'. split; [done|]. eapply waits_later; [|done]. etrans; [done|]. apply during_os; [done|by intros; rewrite R].
    + eexists _, _. split; [reflexivity|]. exists s1. split; [done|].
      apply (polls_error h deadline s1 _ b1); [done..|by cbn; rewrite R|done|apply mapNativeError_not_cancelled].
  - destruct H as [Hr Ht]. destruct (Hr b1 Hb1) as [Hu Hk].
    assert (forall r, match r with inr _ => b1 = false | inl Cancelled => b1 = true
        | inl Timeout => deadline <= time k /\ b1 = false | inl _ => False end ->
      exists r' s', Some (r, s1 <| os := k |>) = Some (r', s') /\ waits h deadline s r' s') as Hend.
    { intros r Hc. eexists _, _. split; [reflexivity|]. exists s1. split; [done|]. split_and!; [done..|].
      exists b1, false. split_and!; [done..|]. by destruct r as [[]|]; cbn in *; intuition. }
    destruct l as [|x l]; [apply Hend; split; [specialize (Ht eq_refl); lia|]|].
    + destruct b1; [|done]. destruct Hu as [_ Hu]. by apply not_elem_of_nil in Hu.
    + case_bool_decide as Hx; apply Hend; [by apply Hu|]. destruct b1; [by destruct Hx; apply Hu|done].
Qed.

(** *** Windows *)
Lemma armFor_ok h t deadline now s : exists s', armFor t deadline now s = Some ((), s') /\ during h s s' /\
  (mArmedFor s = None -> exists d, due (os s') t = Some d /\ time (os s) + 100 * dueIn deadline now <= d).
Proof.
  unfold armFor, mbind, io_bind, gets. destruct (match mArmedFor s with Some a => _ | None => false end) eqn:E.
  - exists s. split_and!; [done..|]. intros N. by rewrite N in E.
  - destruct (wk_timer t (dueIn deadline now) (os s)) as (P & R & d & Hd & Hle).
    eexists. split; [reflexivity|]. split; [|intros _; exists d; split; [exact Hd|exact Hle]].
    split_and!; [done..|]. cbn. intros b Hb. exists b. by rewrite R.
Qed.

(** One round: the wait ends, or the timer was signalled and the wait goes on. *)
Lemma objects_round interfere r h t deadline s b : harmless h interfere -> raised (os s) h = Some b ->
  (exists res s', (forall fuel, waitObjects interfere (S fuel) r h t deadline s = Some (res, s')) /\ waits h deadline s res s') \/
  exists s2, (forall fuel, waitObjects interfere (S fuel) r h t deadline s = waitObjects interfere fuel r h t deadline s2) /\
    during h s s2 /\ mArmedFor s2 = None /\ time (os s) < deadline /\
    (mArmedFor s = None -> time (os s) + 100 * dueIn deadline (time (os s)) <= time (os s2)).
Proof.
  intros Hi Hb. destruct (ok_clock (os s)) as [En [[Pc Dc] Rc]]. destruct (clock (os s)) as [now k] eqn:Ec. cbn in En, Pc, Dc, Rc. subst now.
  set (s0 := s <| os := k |>). assert (during h s s0) as D0 by (apply during_os; [done|by intros; rewrite Rc]).
  assert (exists s1, (if deadline <=? time (os s) then mret () else armFor t deadline (time (os s))) s0 = Some ((), s1) /\ during h s0 s1 /\
    ((deadline <=? time (os s)) = false -> mArmedFor s = None ->
      exists d, due (os s1) t = Some d /\ time (os s) + 100 * dueIn deadline (time (os s)) <= d)) as (s1 & E1 & D1 & Hdue).
  { destruct (deadline <=? time (os s)); [by exists s0|]. destruct (armFor_ok h t deadline (time (os s)) s0) as (s1 & E1 & D1 & Hd).
    exists s1. split_and!; [done..|]. intros _ N. destruct (Hd N) as (d & ? & ?). exists d. split; [done|].
    destruct Pc as [T _]. cbn in *. lia. }
  destruct (Hi s1) as (s2 & E2 & D2 & Du2 & _). assert (during h s s2) as D by (etrans; [done|by etrans]).
  pose proof D as ((T & _) & _ & _ & R). destruct (R b Hb) as (b2 & Hb2 & _). clear R.
  set (expired := deadline <=? time (os s)) in *.
  assert (exists ts, (if expired then [h; r] else [h; r; t]) = h :: r :: ts /\ ts = if expired then [] else [t]) as (ts & Ets & Hts)
    by (destruct expired; eauto).
  destruct (wk_objects h r ts expired (os s2) b2 Hb2) as ([Pw Dw] & Rw & Hw).
  destruct (waitForMultipleObjects (h :: r :: ts) expired (os s2)) as [res k'] eqn:Ew. cbn [fst snd] in *.
  assert (forall fuel, waitObjects interfere (S fuel) r h t deadline s =
    match res with
    | WaitObject 0 => Some (inl Cancelled, s2 <| os := k' |>)
    | WaitObject 1 => Some (inr (), s2 <| os := k' |> <| mReadableUnread := true |>)
    | WaitObject 2 => waitObjects interfere fuel r h t deadline (s2 <| os := k' |> <| mArmedFor := None |>)
    | WaitTimeout => Some (inl Timeout, s2 <| os := k' |>)
    | _ => Some (inl UnknownError, s2 <| os := k' |>)
    end) as Eq.
  { intros fuel. cbn [waitObjects]. unfold mbind, io_bind. unfold sys at 1. rewrite Ec. cbv beta iota zeta. fold s0 expired. rewrite E1, E2.
    unfold sys. rewrite Ets, Ew. by destruct res as [[|[|[|i]]]| |]. }
  destruct res as [[|[|[|i]]]| |].
  - left. eexists _, _. split; [exact Eq|]. exists s2. split; [done|]. split_and!; [done..|]. by exists b2, false.
  - left. eexists _, _. split; [exact Eq|]. exists s2. split; [done|]. split_and!; [done..|]. by exists b2, b2.
  - right. destruct Hw as (_ & t' & d & Ht' & Hd & Hle). eexists. split; [exact Eq|]. destruct expired eqn:Ex; [by rewrite Hts in Ht'|].
    split_and!; [|done|by apply Z.leb_gt, Ex|].
    + etrans; [exact D|]. split_and!; [done..|]. cbn. intros b' Hb'. exists b'. by rewrite Rw, <- Hb2, Hb'.
    + intros N. destruct (Hdue eq_refl N) as (d' & Hd' & Hle'). rewrite Hts in Ht'. injection Ht' as <-.
      rewrite Du2, Hd' in Hd. injection Hd as <-. cbn. lia.
  - left. eexists _, _. split; [exact Eq|]. exists s2. split; [done|]. by apply (polls_error h deadline s2 _ b2).
  - left. eexists _, _. split; [exact Eq|]. exists s2. split; [done|]. split_and!; [done..|]. destruct Hw as [He ->].
    exists false, false. split_and!; [done..| |done|done]. destruct Pw as [Tw _]. apply Z.leb_le in He. cbn in *. lia.
  - left. eexists _, _. split; [exact Eq|]. exists s2. split; [done|]. by apply (polls_error h deadline s2 _ b2).
Qed.

Definition objectsEnd interfere (r h t : Z) (deadline : TimePoint) (n : nat) (s : System K) : Prop :=
  forall fuel, (n <= fuel)%nat -> exists res s', waitObjects interfere fuel r h t deadline s = Some (res, s') /\ waits h deadline s res s'.

(** A round is one more. *)
Lemma objects_more interfere r h t deadline n s b : harmless h interfere -> raised (os s) h = Some b ->
  (forall s2 b2, raised (os s2) h = Some b2 -> mArmedFor s2 = None -> time (os s) < deadline -> time (os s) <= time (os s2) ->
    (mArmedFor s = None -> time (os s) + 100 * dueIn deadline (time (os s)) <= time (os s2)) ->
    objectsEnd interfere r h t deadline n s2) ->
  objectsEnd interfere r h t deadline (S n) s.
Proof.
  intros Hi Hb Hn [|fuel] Hf; [lia|].
  destruct (objects_round interfere r h t deadline s b Hi Hb) as [(res & s' & E & W)|(s2 & E & D & A & Hlt & Hd)]; [by exists res, s'|].
  pose proof D as ((T & _) & _ & _ & R). destruct (R b Hb) as (b2 & Hb2 & _). rewrite E.
  destruct (Hn s2 b2 Hb2 A Hlt T Hd fuel) as (res & s' & E' & W); [lia|]. exists res, s'. split; [done|]. by eapply waits_later.
Qed.

Lemma dueIn_reaches deadline now : now < deadline -> deadline - 100 < now + 100 * dueIn deadline now /\
  now + 100 <= now + 100 * dueIn deadline now.
Proof. intros. unfold dueIn. rewrite Z.quot_div_nonneg by lia. Z.div_mod_to_equations. lia. Qed.

(** The timer ends at most three rounds: one it was set for before, one that ends within
    100 ns of the deadline, and one after it. *)
Lemma waitObjects_ok interfere r h t deadline s b : harmless h interfere -> raised (os s) h = Some b ->
  objectsEnd interfere r h t deadline 4 s.
Proof.
  intros Hi Hb. eapply objects_more; [done..|]. intros s1 b1 Hb1 A1 _ _ _.
  eapply objects_more; [done..|]. intros s2 b2 Hb2 A2 L1 T1 D1.
  eapply objects_more; [done..|]. intros s3 b3 Hb3 A3 L2 T2 D2.
  eapply objects_more; [done..|]. intros s4 b4 Hb4 A4 L3 _ _. exfalso.
  specialize (D1 A1). specialize (D2 A2). destruct (dueIn_reaches _ _ L1), (dueIn_reaches _ _ L2). lia.
Qed.

(** ** A wait of any platform *)
Definition wait_rounds (s : System K) : nat := S (signals (os s)) `max` 4.

(** On Windows a datagram that was reported and not read since is reported again at once. *)
Definition reportedBefore (w : ReadWaiter) (s : System K) : Prop :=
  match w with ReadWaiterWindows _ _ _ _ _ => mReadableUnread s = true | _ => False end.

Lemma wait_ok interfere w deadline fuel s b : harmless (interruptOf w) interfere -> raised (os s) (interruptOf w) = Some b ->
  (wait_rounds s <= fuel)%nat ->
  exists r s', wait interfere fuel w deadline s = Some (r, s') /\
    (waits (interruptOf w) deadline s r s' \/ reportedBefore w s /\ r = inr () /\ s' = s).
Proof.
  unfold wait_rounds. intros Hi Hb Hf. destruct w as [sock h|h|sock r h t tick]; cbn [wait interruptOf reportedBefore] in *.
  - destruct (waitLinux_ok interfere sock h deadline Hi fuel s b Hb) as (r & s' & E & W); [lia|]. exists r, s'. auto.
  - destruct (waitKqueue_ok interfere h deadline Hi fuel s b Hb) as (r & s' & E & W); [lia|]. exists r, s'. auto.
  - unfold waitWindows, mbind, io_bind, gets. destruct (mReadableUnread s) eqn:U; [exists (inr ()), s; auto|].
    destruct (waitObjects_ok interfere r h t deadline s b Hi Hb fuel) as (res & s' & E & W); [lia|]. exists res, s'. auto.
Qed.
End WaiterLaws.
