(* ===== verification/UdpSocket.v ===== *)
(** * The UDP socket of the engine

    [Socket/SocketHandle.cpp], the owner of a descriptor and its waiter, and
    [Socket/UdpSocket.cpp], with [sendParts] of [Socket/IDatagramSocket.h].  Other threads
    call [interrupt] and [shutdown] of the socket at any time. *)
From S2P Require Import Prelude Constants IPv4Address Engine SocketErrors SocketPlatform SocketLaws ReadWaiter.
From stdpp Require Import list.
#[local] Open Scope Z_scope.

(** ** The handle

    [mState] is empty after a move and after [reset]; its waiter is empty if the system
    refused it.  [State::shutdown] is in the state of the system. *)
Record SocketHandle := mkHandle { mHandle : Z; mState : option (option ReadWaiter) }.
Record UdpSocket := mkUdpSocket { udpHandle : SocketHandle; mLocalAddress : SocketAddress }.

Section Sockets.
Context {K : Type} `{!Kernel K, !WaitKernel K}.

Definition emptyHandle : SocketHandle := mkHandle InvalidNativeHandle None.
Definition newHandle (handle : Z) : IO K SocketHandle :=
  modify (fun s => s <| shutdownFlag := false |> <| mReadableUnread := false |> <| mArmedFor := None |>);;
  waiter ← createReadWaiter handle;
  mret (mkHandle handle (Some waiter)).
Definition isValid (h : SocketHandle) : bool := negb (bool_decide (mHandle h = InvalidNativeHandle)).

(** The waiter is registered on the descriptor: it goes first. *)
Definition reset (h : SocketHandle) : IO K SocketHandle :=
  match mState h with Some (Some w) => destroyWaiter w | _ => mret () end;;
  (if isValid h then closeHandle (mHandle h) else mret ());;
  mret emptyHandle.

(** A move yields the target and what is left of the source. *)
Definition moveConstruct (other : SocketHandle) : SocketHandle * SocketHandle := (other, emptyHandle).
Definition moveAssign (this other : SocketHandle) : IO K (SocketHandle * SocketHandle) :=
  reset this;; mret (other, emptyHandle).

Definition waiterOf (h : SocketHandle) : option ReadWaiter := mjoin (mState h).
Definition interrupt (h : SocketHandle) (s : System K) : System K :=
  match waiterOf h with Some w => s <| os ::= raise w |> | None => s end.
Definition shutdown (h : SocketHandle) (s : System K) : System K :=
  if negb (isValid h) || bool_decide (mState h = None) then s
  else interrupt h (s <| shutdownFlag := true |> <| os ::= shutdownHandle (mHandle h) |>).

(** What other threads do in between. *)
Definition otherCall (h : SocketHandle) (s : System K) (c : OtherCall) : System K :=
  match c with CallInterrupt => interrupt h s | CallShutdown => shutdown h s end.
Definition interfere (h : SocketHandle) : IO K () := fun s =>
  let '(calls, k) := otherCalls (os s) in Some ((), fold_left (otherCall h) calls (s <| os := k |>)).

Definition isShutdown (h : SocketHandle) : IO K bool :=
  interfere h;; gets (fun s => negb (bool_decide (mState h = None)) && shutdownFlag s).

Definition waitReadable (fuel : nat) (h : SocketHandle) (deadline : TimePoint) : IO K (SocketError + ()) :=
  match isValid h, waiterOf h with
  | true, Some w =>
    before ← isShutdown h;
    if (before : bool) then mret (inl SocketClosed)
    else
      ready ← wait (interfere h) fuel w deadline;
      after ← isShutdown h;
      if (after : bool) then mret (inl SocketClosed) else mret ready
  | _, _ => mret (inl InvalidArgument)
  end.

Definition noteReceiveAttempt (h : SocketHandle) : IO K () :=
  match waiterOf h with Some w => onReceiveAttempt w | None => mret () end.

(** ** The socket *)
Definition bind (localAddress : SocketAddress) (options : BindOptions) : IO K (SocketError + UdpSocket) :=
  native <- createSocket;
  handle ← newHandle native;
  result ← (_ <- applyBindOptions (mHandle handle) options;
            _ <- bindTo (mHandle handle) localAddress;
            localAddressOf (mHandle handle));
  match result with
  | inl error => reset handle;; mret (inl error)
  | inr bound => mret (inr (mkUdpSocket handle bound))
  end.
Definition factory : SocketAddress -> BindOptions -> IO K (SocketError + UdpSocket) := bind.

Definition sendTo (fuel : nat) (u : UdpSocket) (destination : SocketAddress) (data : bytes) : IO K (SocketError + Z) :=
  sendDatagram fuel (mHandle (udpHandle u)) destination data.
Definition sendParts (fuel : nat) (u : UdpSocket) (destination : SocketAddress) (head body : bytes) : IO K (SocketError + Z) :=
  sendDatagramParts fuel (mHandle (udpHandle u)) destination head body.

(** [IDatagramSocket::sendParts], which a socket need not override. *)
Definition sendPartsJoined (fuel : nat) (u : UdpSocket) (destination : SocketAddress) (head body : bytes) : IO K (SocketError + Z) :=
  sendTo fuel u destination (head ++ body).

Fixpoint receiveLoop (rounds fuel : nat) (h : SocketHandle) (size timeout deadline : Z) : IO K (SocketError + bytes * SocketAddress) :=
  match rounds with
  | O => fun _ => None
  | S rounds =>
    closed ← isShutdown h;
    if (closed : bool) then mret (inl SocketClosed)
    else
      noteReceiveAttempt h;;
      datagram ← receiveDatagram fuel (mHandle h) size;
      if bool_decide (datagram = inl WouldBlock) then
        if timeout <=? 0 then mret (inl Timeout)
        else
          ready ← waitReadable fuel h deadline;
          match ready with inl error => mret (inl error) | inr _ => receiveLoop rounds fuel h size timeout deadline end
      else mret datagram
  end.
Definition receiveFrom (rounds fuel : nat) (u : UdpSocket) (size timeout : Z) : IO K (SocketError + bytes * SocketAddress) :=
  now ← sys clock; receiveLoop rounds fuel (udpHandle u) size timeout (now + timeout).
Definition waitFor (fuel : nat) (u : UdpSocket) (timeout : Z) : IO K (SocketError + ()) :=
  now ← sys clock; waitReadable fuel (udpHandle u) (now + timeout).
Definition interruptSocket (u : UdpSocket) : System K -> System K := interrupt (udpHandle u).
Definition shutdownUdp (u : UdpSocket) : System K -> System K := shutdown (udpHandle u).
End Sockets.

Section SocketLaws.
Context {K : Type} `{!Kernel K, !WaitKernel K, !Observers K, !KernelOk K, !WaitOk K}.

(** ** What other threads do *)

(** The object the interrupts of a handle are raised on. *)
Definition watched (h : SocketHandle) : Z := match waiterOf h with Some w => interruptOf w | None => 0 end.

Definition benign (h : SocketHandle) (s s' : System K) : Prop :=
  during (watched h) s s' /\ (forall t, due (os s') t = due (os s) t) /\
  mArmedFor s' = mArmedFor s /\ mReadableUnread s' = mReadableUnread s.
#[global] Instance benign_preorder h : PreOrder (benign h).
Proof.
  split.
  - intros s. by split_and!.
  - intros s s' s'' (D & U & A & R) (D' & U' & A' & R'). split_and!; [by etrans|by intros; rewrite U', U|congruence..].
Qed.
Lemma benign_os h s k : calm (os s) k -> benign h s (s <| os := k |>).
Proof. intros [[P D] R]. split_and!; [apply during_os; [done|by intros; rewrite R]|done..]. Qed.

Lemma interrupt_benign h s : benign h s (interrupt h s).
Proof.
  unfold interrupt, watched. destruct (waiterOf h) as [w|] eqn:E; [|done]. destruct (wk_raise w (os s)) as [[P D] R].
  unfold benign, watched. rewrite E. split_and!; [|done..]. split_and!; [done..|]. intros b Hb. exists true. split; [exact (R b Hb)|done].
Qed.
Lemma shutdown_benign h s : benign h s (shutdown h s).
Proof.
  unfold shutdown. destruct (negb (isValid h) || _); [done|]. etrans; [|apply interrupt_benign].
  assert (calm (os s) (shutdownHandle (mHandle h) (os s))) as C by (unfold shutdownHandle; case_bool_decide; [done|apply wk_shutdown]).
  destruct (benign_os h s _ C) as ((P & H & F & R) & U & A & V). split_and!; [|done..]. by split_and!.
Qed.

Lemma interfere_ok h s : exists s', interfere h s = Some ((), s') /\ benign h s s'.
Proof.
  unfold interfere. pose proof (wk_others (os s)) as C. destruct (otherCalls (os s)) as [calls k]. cbn in C.
  eexists. split; [reflexivity|]. etrans; [by apply benign_os|]. generalize (s <| os := k |>).
  induction calls as [|c calls IH]; intros s0; [done|]. cbn. etrans; [|apply IH].
  destruct c; [apply interrupt_benign|apply shutdown_benign].
Qed.
Lemma interfere_harmless h : harmless (watched h) (interfere h).
Proof. intros s. destruct (interfere_ok h s) as (s' & E & D & U & A & R). exists s'. by split_and!. Qed.

(** An interrupt is there when the call returns, a shutdown too. *)
Lemma interrupt_raises h w b (s : System K) : waiterOf h = Some w -> raised (os s) (watched h) = Some b ->
  raised (os (interrupt h s)) (watched h) = Some true.
Proof.
  unfold interrupt, watched. intros E. rewrite E. intros Hb. exact (proj2 (wk_raise w (os s)) b Hb).
Qed.
Lemma shutdown_sets h (s : System K) : isValid h = true -> mState h <> None -> shutdownFlag (shutdown h s) = true.
Proof.
  intros Hv Hs. unfold shutdown. rewrite Hv, bool_decide_false by done. cbn [negb orb]. unfold interrupt. by destruct (waiterOf h).
Qed.

Lemma isShutdown_ok h s : exists b s', isShutdown h s = Some (b, s') /\ benign h s s' /\ (mState h <> None -> b = shutdownFlag s').
Proof.
  destruct (interfere_ok h s) as (s' & E & B). unfold isShutdown, mbind, io_bind. rewrite E. eexists _, s'.
  split; [reflexivity|]. split; [done|]. intros Hs. by rewrite bool_decide_false.
Qed.

(** ** Waiting *)
Lemma waitReadable_ok fuel h w deadline s b : isValid h = true -> waiterOf h = Some w ->
  raised (os s) (watched h) = Some b -> (wait_rounds s <= fuel)%nat ->
  exists r s', waitReadable fuel h deadline s = Some (r, s') /\
    ((r = inl SocketClosed /\ shutdownFlag s' = true) \/
     shutdownFlag s = false /\ shutdownFlag s' = false /\
     exists s1 s2, benign h s s1 /\ benign h s2 s' /\
       (waits (watched h) deadline s1 r s2 \/ reportedBefore w s /\ r = inr () /\ s2 = s1)).
Proof.
  intros Hv Hw Hb Hf. assert (mState h <> None) as Hs by (intros N; unfold waiterOf in Hw; by rewrite N in Hw).
  unfold waitReadable. rewrite Hv, Hw. destruct (isShutdown_ok h s) as (f1 & s1 & E1 & B1 & Hf1).
  unfold mbind, io_bind. rewrite E1, (Hf1 Hs). destruct (shutdownFlag s1) eqn:F1; [by eexists _, s1; split; [|left]|].
  destruct B1 as (D1 & U1 & A1 & V1). pose proof D1 as ((T & Sg & _) & _ & Fl & R1). destruct (R1 b Hb) as (b1 & Hb1 & _).
  assert (watched h = interruptOf w) as Ew by (unfold watched; by rewrite Hw).
  destruct (wait_ok (interfere h) w deadline fuel s1 b1) as (r & s2 & E2 & W).
  { rewrite <- Ew. apply interfere_harmless. }
  { by rewrite <- Ew. }
  { unfold wait_rounds in *. lia. }
  rewrite E2. destruct (isShutdown_ok h s2) as (f3 & s3 & E3 & B3 & Hf3). rewrite E3, (Hf3 Hs).
  destruct (shutdownFlag s3) eqn:F3; [by eexists _, s3; split; [|left]|].
  eexists _, s3. split; [reflexivity|]. right. split_and!; [by destruct (shutdownFlag s); [rewrite Fl in F1|]|done|].
  exists s1, s2. split_and!; [done..|]. rewrite Ew. destruct W as [W|(Rb & W)]; [by left|right]. split; [|done].
  by destruct w; cbn in *; rewrite <- ?V1.
Qed.
End SocketLaws.
