(* ===== verification/SocketPromises.v ===== *)
(** * What the sockets promise to the engine

    Proved of [UdpSocket] on every platform, from what is documented of the system calls. *)
From S2P Require Import Prelude Constants IPv4Address Engine SocketErrors SocketPlatform SocketLaws ReadWaiter UdpSocket.
From stdpp Require Import list.
#[local] Open Scope Z_scope.

Section Promises.
Context {K : Type} `{!Kernel K, !WaitKernel K, !Observers K, !KernelOk K, !WaitOk K}.

(** ** Receiving *)
Lemma noteReceiveAttempt_ok h s : exists v, noteReceiveAttempt h s = Some ((), (s : System K) <| mReadableUnread := v |>).
Proof.
  exists (match waiterOf h with Some (ReadWaiterWindows _ _ _ _ _) => false | _ => mReadableUnread s end).
  unfold noteReceiveAttempt. destruct (waiterOf h) as [[]|]; by destruct s.
Qed.

(** A receive that does not wait. *)
Lemma receiveFrom_ok rounds fuel u size timeout s : timeout <= 0 -> (signals (os s) < fuel)%nat ->
  exists r s', receiveFrom (S rounds) fuel u size timeout s = Some (r, s') /\
    receives (mHandle (udpHandle u)) size (os s) r (os s') /\ r <> inl WouldBlock /\
    (shutdownFlag s = true -> mState (udpHandle u) <> None -> r = inl SocketClosed).
Proof.
  intros Ht Hf. unfold receiveFrom, mbind, io_bind, sys. destruct (ok_clock (os s)) as [_ C].
  destruct (clock (os s)) as [now k]. cbn [fst snd] in C. cbn [receiveLoop].
  destruct (isShutdown_ok (udpHandle u) (s <| os := k |>)) as (f & s1 & E1 & ((P & _ & F & _) & _) & Hfl).
  assert (passes (os s) (os s1)) as (_ & S1 & T1) by (etrans; [apply C|exact P]).
  unfold mbind, io_bind. rewrite E1. destruct f.
  { eexists _, s1. split; [reflexivity|]. split; [by apply receives_error|by split]. }
  destruct (noteReceiveAttempt_ok (udpHandle u) s1) as (v & ->).
  destruct (receiveDatagram_ok (mHandle (udpHandle u)) size fuel (s1 <| mReadableUnread := v |>)) as (r & k2 & -> & R); [cbn; lia|].
  apply (receives_later _ _ (os s)) in R; [|done..].
  assert (forall r0 : SocketError + bytes * SocketAddress, shutdownFlag s = true -> mState (udpHandle u) <> None -> r0 = inl SocketClosed) as Hc.
  { intros r0 Hs Hm. specialize (Hfl Hm). by rewrite (F Hs) in Hfl. }
  case_bool_decide as Er.
  - rewrite (proj2 (Z.leb_le _ _) Ht). subst r. eexists _, _. split; [reflexivity|]. split; [done|]. split; [done|apply Hc].
  - eexists _, _. split; [reflexivity|]. split; [done|]. split; [done|apply Hc].
Qed.

(** As many receives in a row. *)
Fixpoint receiveAll (n fuel : nat) (u : UdpSocket) (size : Z) : IO K (list (SocketError + bytes * SocketAddress)) :=
  match n with
  | O => mret []
  | S n => r ← receiveFrom 1 fuel u size 0; rs ← receiveAll n fuel u size; mret (r :: rs)
  end.

(** The datagrams of the answers, and the ones a buffer has room for, as they are reported. *)
Definition datagrams (rs : list (SocketError + bytes * SocketAddress)) : list (bytes * SocketAddress) :=
  omap (fun r => match r with inr d => Some d | inl _ => None end) rs.
Definition fitting (size : Z) (l : list (bytes * sockaddr_in)) : list (bytes * SocketAddress) :=
  (fun p => (p.1, fromSockaddr p.2)) <$> filter (fun p => zlen p.1 <= clampLength size) l.

Lemma receives_takes fd size k r k' : receives fd size k r k' ->
  exists l, takes fd l k k' /\ datagrams [r] = fitting size l /\
    Forall (fun p => zlen p.1 <= size /\ Engine.address_ok p.2) (datagrams [r]).
Proof.
  intros [_ H]. pose proof (clampLength_le size). destruct r as [e|[d a]].
  - destruct (decide (e = MessageTooLarge)) as [->|Ne].
    + destruct H as (d & x & Hl & T). exists [(d, x)]. split_and!; [done| |constructor].
      unfold fitting. rewrite filter_cons_False by (cbn; lia). done.
    + exists []. split_and!; [by destruct e|done|constructor].
  - destruct H as (x & -> & Hx & Hl & T). exists [(d, x)]. split_and!; [done| |].
    + unfold fitting. by rewrite filter_cons_True by done.
    + constructor; [|constructor]. cbn. split; [lia|by apply fromSockaddr_ok].
Qed.

(** C24: However many datagrams a socket is asked for in a row without waiting, every call
    returns, and what they hand over are the datagrams that were taken off its queue, in
    their order and each once, whole and with the address they came from: none is cut off,
    repeated or made up, and only those too large for the buffer are passed over.  An
    address is in range, a datagram fits the buffer, and no call reports that it would
    block. *)
Theorem receives_in_order n fuel u size s : (signals (os s) < fuel)%nat ->
  exists rs s' l, receiveAll n fuel u size s = Some (rs, s') /\ length rs = n /\
    takes (mHandle (udpHandle u)) l (os s) (os s') /\ datagrams rs = fitting size l /\
    Forall (fun p => zlen p.1 <= size /\ Engine.address_ok p.2) (datagrams rs) /\
    inl WouldBlock ∉ rs.
Proof.
  revert s. induction n as [|n IH]; intros s Hs.
  { exists [], s, []. split_and!; [done|done|apply takes_nil|done|constructor|apply not_elem_of_nil]. }
  destruct (receiveFrom_ok 0 fuel u size 0 s) as (r & s1 & E & R & Hw & _); [done..|].
  destruct (receives_takes _ _ _ _ _ R) as (l & T & Hl & F). pose proof R as [S _].
  destruct (IH s1) as (rs & s' & l' & E' & Hn & T' & Hl' & F' & Hw'); [lia|].
  exists (r :: rs), s', (l ++ l'). cbn [receiveAll]. unfold mbind, io_bind. rewrite E, E'.
  assert (datagrams (r :: rs) = datagrams [r] ++ datagrams rs) as Ed by (unfold datagrams; cbn; by destruct r).
  split_and!; [done|cbn; lia|by eapply takes_trans| | |].
  - unfold fitting in *. by rewrite Ed, Hl, Hl', filter_app, fmap_app.
  - rewrite Ed. by apply Forall_app.
  - rewrite elem_of_cons. intros [<-|]; done.
Qed.

(** ** Sending *)

(** [UdpSocket::sendParts], which does not join the parts first, has the effect of
    [IDatagramSocket::sendParts], which does, for the same number of interruptions: a
    consequence of what is relied on of the system calls that take the parts, and of the
    lengths, which survive their conversions. *)
Lemma sendParts_equivalent fuel u destination head body s : zlen (head ++ body) < 2 ^ 31 ->
  sendParts fuel u destination head body s = sendPartsJoined fuel u destination head body s.
Proof. apply parts_joined. Qed.

(** ** Waiting *)

(** C23: A wait returns.  With an interrupt that is raised it neither reports a datagram nor
    times out: it is cancelled, closed or fails, and unless it is cancelled or closed
    the interrupt is still raised and ends the next wait (on Windows, a datagram that was
    reported before and not read is reported first).  A wait that times out ends no
    earlier than asked; a socket that is shut down before or during the wait is closed. *)
Theorem wait_contract fuel u w timeout s b :
  isValid (udpHandle u) = true -> waiterOf (udpHandle u) = Some w -> raised (os s) (watched (udpHandle u)) = Some b ->
  (wait_rounds s <= fuel)%nat ->
  exists r s', waitFor fuel u timeout s = Some (r, s') /\
    (b = true -> r <> inl Timeout /\ (r = inr () -> reportedBefore w s)) /\
    (b = true -> r = inl Cancelled \/ r = inl SocketClosed \/ raised (os s') (watched (udpHandle u)) = Some true) /\
    (r = inl Timeout -> time (os s) + timeout <= time (os s')) /\
    (shutdownFlag s = true -> r = inl SocketClosed) /\ (r <> inl SocketClosed -> shutdownFlag s' = false).
Proof.
  intros Hv Hw Hb Hf. unfold waitFor, mbind, io_bind, sys. destruct (ok_clock (os s)) as [En [[P _] Rc]].
  destruct (clock (os s)) as [now k]. cbn [fst snd] in En, P, Rc. subst now.
  destruct (waitReadable_ok fuel (udpHandle u) w (time (os s) + timeout) (s <| os := k |>) b) as (r & s' & E & H); [done..|by cbn; rewrite Rc| |].
  { unfold wait_rounds in *. destruct P as (_ & S & _). cbn. lia. }
  exists r, s'. split; [done|]. destruct H as [[-> F]|(F0 & F & s1 & s2 & (D1 & _) & (D2 & _) & W)]; [naive_solver|].
  cbn in F0. rewrite F0. destruct D1 as (_ & _ & _ & R1). destruct (R1 b) as (b1 & Hb1 & M1); [cbn; by rewrite Rc|].
  destruct D2 as ((T2 & _) & _ & _ & R2). destruct W as [(sp & Dp & Pp & _ & _ & bp & b2 & Hbp & Hb2 & Hr)|(Rb & -> & ->)].
  - destruct Dp as (_ & _ & _ & Rp). destruct (Rp b1 Hb1) as (b' & Hb' & Mp). rewrite Hbp in Hb'. injection Hb' as <-.
    destruct (R2 b2 Hb2) as (b3 & Hb3 & M3). destruct b.
    + specialize (Mp (M1 eq_refl)). destruct r as [[]|]; naive_solver.
    + split_and!; [done..| |done|done]. intros ->. destruct Hr as [Hr _]. lia.
  - split_and!; [done| |done..]. intros ->. destruct (R2 b1 Hb1) as (b3 & Hb3 & M3). naive_solver.
Qed.

End Promises.
