(* ===== verification/SocketOwnership.v ===== *)
(** * The descriptors of a socket

    [UdpSocket::bind] acquires a descriptor and the objects of a waiter, and may fail at
    each of its calls; [SocketHandle::reset] and the destructors give them back.  A small
    logic keeps account of what is held. *)
From S2P Require Import Prelude IPv4Address Engine SocketErrors SocketPlatform SocketLaws ReadWaiter UdpSocket.
From stdpp Require Import list.
#[local] Open Scope Z_scope.

Lemma removeFirst_perm x l l' : l ≡ₚ x :: l' -> removeFirst x l ≡ₚ l'.
Proof.
  revert l'. induction l as [|y l IH]; intros l' H; [by apply Permutation_nil_cons in H|]. cbn.
  destruct (Z.eqb_spec x y) as [->|Ne]; [by apply Permutation_cons_inv in H|].
  assert (y ∈ l') as (l1 & l2 & ->)%list_elem_of_split.
  { assert (y ∈ x :: l') as [->|]%elem_of_cons; [rewrite <- H; apply list_elem_of_here|done|done]. }
  rewrite (IH (l1 ++ l2)); [by rewrite Permutation_middle|].
  apply (Permutation_cons_inv (a := y)). rewrite H. by rewrite <- (Permutation_middle _ _ y), perm_swap.
Qed.

Create HintDb accounts.

Section Ownership.
Context {K : Type} `{!Kernel K, !WaitKernel K}.

(** Run with the handles [l], among others, the computation returns; afterwards it holds
    others in their place. *)
Definition accounts {A} (l : list Z) (m : IO K A) (Q : A -> list Z -> Prop) : Prop :=
  forall s h, held s ≡ₚ l ++ h -> exists a s' l', m s = Some (a, s') /\ held s' ≡ₚ l' ++ h /\ Q a l'.

(** *** Rules *)
Lemma accounts_ret {A} l (a : A) Q : Q a l -> accounts l (mret a) Q.
Proof. intros H s h E. by exists a, s, l. Qed.
Lemma accounts_bind {A B} l (m : IO K A) (f : A -> IO K B) Q :
  accounts l m (fun a l' => accounts l' (f a) Q) -> accounts l (mbind f m) Q.
Proof.
  intros H s h E. destruct (H s h E) as (a & s1 & l1 & E1 & H1 & Hf). destruct (Hf s1 h H1) as (b & s2 & l2 & E2 & H2 & HQ).
  exists b, s2, l2. unfold mbind, io_bind. by rewrite E1.
Qed.
Lemma accounts_weaken {A} l (m : IO K A) (P Q : A -> list Z -> Prop) : accounts l m P -> (forall a l', P a l' -> Q a l') -> accounts l m Q.
Proof. intros H W s h E. destruct (H s h E) as (a & s' & l' & ? & ? & ?). exists a, s', l'. auto. Qed.
Lemma accounts_sys {A} l (f : K -> A * K) Q : (forall k, Q (f k).1 l) -> accounts l (sys f) Q.
Proof. intros H s h E. unfold sys. specialize (H (os s)). destruct (f (os s)) as [a k]. by eexists a, _, l. Qed.
Lemma accounts_sys_ l (f : K -> K) Q : Q () l -> accounts l (sys_ f) Q.
Proof. intros H s h E. by eexists (), _, l. Qed.
Lemma accounts_modify l f Q : (forall s, held (f s) = held s) -> Q () l -> accounts l (modify f) Q.
Proof. intros Hf H s h E. eexists (), _, l. split; [reflexivity|]. by rewrite Hf. Qed.
Lemma accounts_opening l (f : K -> (NativeError + Z) * K) Q :
  (forall k, match (f k).1 with inl e => Q (inl e) l | inr fd => Q (inr fd) (fd :: l) end) -> accounts l (opening f) Q.
Proof.
  intros H s h E. unfold opening. specialize (H (os s)). destruct (f (os s)) as [[e|fd] k]; cbn in H.
  - by eexists _, _, l.
  - eexists _, _, (fd :: l). split_and!; [reflexivity| |done]. cbn. by rewrite E.
Qed.
Lemma accounts_closing l l' f fd Q : l ≡ₚ fd :: l' -> Q () l' -> accounts l (closing f fd) Q.
Proof.
  intros Hl H s h E. eexists (), _, l'. split_and!; [reflexivity| |done]. cbn. apply removeFirst_perm. by rewrite E, Hl.
Qed.
Lemma accounts_onSuccess {E A B} l (m : IO K (E + A)) (f : A -> IO K (E + B)) Q :
  accounts l m (fun r l' => match r with inl e => Q (inl e) l' | inr a => accounts l' (f a) Q end) -> accounts l (onSuccess m f) Q.
Proof. intros H. apply accounts_bind. eapply accounts_weaken; [exact H|]. intros [e|a] l' Hr; [by apply accounts_ret|done]. Qed.
Lemma accounts_mapError {A} l (m : IO K (NativeError + A)) Q :
  accounts l m (fun r l' => match r with inl e => Q (inl (mapNativeError e)) l' | inr a => Q (inr a) l' end) -> accounts l (mapError m) Q.
Proof. intros H. apply accounts_bind. eapply accounts_weaken; [exact H|]. intros [e|a] l' Hr; by apply accounts_ret. Qed.
Lemma accounts_if {A} l (b : bool) (m m' : IO K A) Q : accounts l m Q -> accounts l m' Q -> accounts l (if b then m else m') Q.
Proof. by destruct b. Qed.

(** A computation that keeps what it has. *)
Definition keeps {A} (m : IO K A) : Prop := forall l, accounts l m (fun _ l' => l' = l).
Lemma keeps_use {A} l (m : IO K A) (Q : A -> list Z -> Prop) : keeps m -> (forall a, Q a l) -> accounts l m Q.
Proof. intros H HQ. eapply accounts_weaken; [apply H|]. by intros a l' ->. Qed.
Lemma keeps_ret {A} (a : A) : keeps (mret a).
Proof. intros l. by apply accounts_ret. Qed.
Lemma keeps_bind {A B} (m : IO K A) (f : A -> IO K B) : keeps m -> (forall a, keeps (f a)) -> keeps (mbind f m).
Proof. intros H Hf l. apply accounts_bind, keeps_use; [done|]. intros a. apply Hf. Qed.
Lemma keeps_onSuccess {E A B} (m : IO K (E + A)) (f : A -> IO K (E + B)) : keeps m -> (forall a, keeps (f a)) -> keeps (onSuccess m f).
Proof. intros H Hf l. apply accounts_onSuccess, keeps_use; [done|]. intros [e|a]; [done|apply Hf]. Qed.
Lemma keeps_mapError {A} (m : IO K (NativeError + A)) : keeps m -> keeps (mapError m).
Proof. intros H l. apply accounts_mapError, keeps_use; [done|]. by intros [e|a]. Qed.
Lemma keeps_sys {A} (f : K -> A * K) : keeps (sys f).
Proof. intros l. by apply accounts_sys. Qed.
Lemma keeps_sys_ (f : K -> K) : keeps (sys_ f).
Proof. intros l. by apply accounts_sys_. Qed.
Lemma keeps_if {A} (b : bool) (m m' : IO K A) : keeps m -> keeps m' -> keeps (if b then m else m').
Proof. by destruct b. Qed.
End Ownership.
#[export] Hint Resolve keeps_ret keeps_bind keeps_onSuccess keeps_mapError keeps_sys keeps_sys_ keeps_if : accounts.
#[export] Hint Extern 1 (forall _, keeps _) => intros ? : accounts.

Section Descriptors.
Context {K : Type} `{!Kernel K, !WaitKernel K, !Observers K, !KernelOk K}.

Lemma applyBindOptions_keeps fd options : keeps (applyBindOptions fd options).
Proof. unfold applyBindOptions, setIntOption, intOption. auto 20 with accounts. Qed.
Lemma bindTo_keeps fd a : keeps (bindTo fd a).
Proof. unfold bindTo. auto with accounts. Qed.
Lemma disableSigPipe_keeps fd : keeps (disableSigPipe fd).
Proof. unfold disableSigPipe. auto 10 with accounts. Qed.
Lemma ensureInitialized_keeps : keeps ensureInitialized.
Proof.
  unfold ensureInitialized. intros l s h E.
  destruct (runtime s) as [r|]; [by eexists _, s, l|]. destruct (wsaStartup (os s)) as [r k]. by eexists _, _, l.
Qed.

(** Both platforms open a socket, prepare it, and close it again if it cannot be used. *)
Definition opened (l : list Z) (r : SocketError + Z) (l' : list Z) : Prop :=
  match r with inl _ => l' = l | inr fd => l' = fd :: l /\ fd <> InvalidNativeHandle end.
Lemma open_socket l (prepare : Z -> IO K (SocketError + Z)) :
  (forall fd, fd <> InvalidNativeHandle -> accounts (fd :: l) (prepare fd) (opened l)) ->
  accounts l (sock <- mapError (opening socket); prepare sock) (opened l).
Proof.
  intros H. apply accounts_onSuccess, accounts_mapError, accounts_opening. intros k. pose proof (ok_socket k) as Hk.
  destruct (socket k).1 as [e|fd]; [done|]. by apply H, Hk.
Qed.
Lemma checked_socket l fd (check : IO K (SocketError + ())) (configure : IO K ()) : fd <> InvalidNativeHandle ->
  keeps check -> keeps configure ->
  accounts (fd :: l) (nonBlocking ← check;
    match nonBlocking with inl error => closing closeSocket fd;; mret (inl error) | inr _ => configure;; mret (inr fd) end) (opened l).
Proof.
  intros Hfd Hc Hf. apply accounts_bind, keeps_use; [done|]. intros [e|?]; apply accounts_bind.
  - eapply accounts_closing; [reflexivity|]. by apply accounts_ret.
  - apply keeps_use; [done|]. intros _. by apply accounts_ret.
Qed.
Lemma createSocket_accounts l : accounts l createSocket (opened l).
Proof.
  unfold createSocket. apply accounts_if.
  - unfold createWindows. apply accounts_onSuccess, keeps_use; [apply ensureInitialized_keeps|]. intros [e|?]; [done|].
    apply open_socket. intros fd Hfd. apply checked_socket; [done|unfold setNonBlockingWindows|]; auto with accounts.
  - apply open_socket. intros fd Hfd. apply accounts_bind, keeps_use; [auto with accounts|]. intros _.
    apply checked_socket; [done| |apply disableSigPipe_keeps]. unfold setNonBlockingPosix. auto 10 with accounts.
Qed.

(** The objects of a waiter, and all that a handle holds. *)
Definition objectsOf (w : ReadWaiter) : list Z :=
  match w with
  | ReadWaiterLinux _ interrupt => [interrupt]
  | ReadWaiterKqueue queue => [queue]
  | ReadWaiterWindows _ readable interrupt timer _ => [readable; interrupt; timer]
  end.
Definition ownedBy (h : SocketHandle) : list Z :=
  match waiterOf h with Some w => objectsOf w | None => [] end ++ [mHandle h].

Lemma accounts_nullable {A} l (m : IO K (NativeError + A)) Q :
  accounts l m (fun r l' => Q (match r with inl _ => None | inr a => Some a end) l') -> accounts l (nullable m) Q.
Proof. intros H. apply accounts_bind. eapply accounts_weaken; [exact H|]. intros r l' Hr. by apply accounts_ret. Qed.
Lemma accounts_acquire l (f : K -> (NativeError + Z) * K) (Q : option Z -> list Z -> Prop) :
  Q None l -> (forall fd, Q (Some fd) (fd :: l)) -> accounts l (nullable (opening f)) Q.
Proof. intros H0 H1. apply accounts_nullable, accounts_opening. intros k. by destruct (f k).1. Qed.

Lemma accounts_closeOption l l' o Q : l ≡ₚ option_list o ++ l' -> (forall l', l ≡ₚ option_list o ++ l' -> Q () l') -> accounts l (closeOption o) Q.
Proof.
  intros Hl HQ. destruct o as [fd|]; cbn in *; [by eapply accounts_closing; [|apply HQ]|]. apply accounts_ret, HQ. done.
Qed.
Lemma destroyWindows_accounts l l' sock r i t tick Q :
  l ≡ₚ option_list r ++ option_list i ++ option_list t ++ l' -> (forall l'', l'' ≡ₚ l' -> Q () l'') ->
  accounts l (destroyWindows sock r i t tick) Q.
Proof.
  intros Hl HQ. unfold destroyWindows. apply accounts_bind.
  assert (accounts l (closeOption r) (fun _ l1 => l1 ≡ₚ option_list i ++ option_list t ++ l')) as Hr.
  { eapply accounts_closeOption; [exact Hl|]. intros l1 H1. rewrite Hl in H1. by apply Permutation_app_inv_l in H1. }
  eapply accounts_weaken with (P := fun _ l1 => l1 ≡ₚ option_list i ++ option_list t ++ l').
  { destruct r; [|by apply accounts_ret]. rewrite bool_decide_true by done.
    apply accounts_bind, keeps_use; [auto with accounts|]. intros _. exact Hr. }
  intros _ l1 H1. apply accounts_bind. eapply accounts_closeOption; [exact H1|]. intros l2 H2.
  rewrite H1 in H2. apply Permutation_app_inv_l in H2. apply accounts_bind.
  eapply accounts_closeOption; [symmetry; exact H2|]. intros l3 H3.
  apply keeps_use; [auto with accounts|]. intros []. apply HQ. rewrite <- H2 in H3. by apply Permutation_app_inv_l in H3.
Qed.

Definition objects (w : option ReadWaiter) : list Z := match w with Some w => objectsOf w | None => [] end.

Lemma makeTimer_accounts l : accounts l makeTimer (fun t l' => l' = option_list t.1 ++ l).
Proof.
  unfold makeTimer. apply accounts_bind, accounts_acquire; [|intros fd; by apply accounts_ret].
  assert (forall (o : option Z) l1, accounts l1 (tick ← sys timeBeginPeriod; mret (o, tick)) (fun t l' => t.1 = o /\ l' = l1)) as H.
  { intros o l1. apply accounts_bind, keeps_use; [auto with accounts|]. intros tick. by apply accounts_ret. }
  apply accounts_bind, accounts_acquire; [|intros fd]; (eapply accounts_weaken; [apply H|]); by intros [o tick] l' [-> ->].
Qed.

Lemma makeWindows_accounts fd l : accounts l (makeWindows fd) (fun w l' => l' ≡ₚ objects w ++ l).
Proof.
  unfold makeWindows. apply accounts_bind.
  apply accounts_weaken with (P := fun r l' => l' = option_list r ++ l); [by apply accounts_acquire|]. intros r ? ->.
  apply accounts_bind.
  apply accounts_weaken with (P := fun i l' => l' = option_list i ++ option_list r ++ l); [by apply accounts_acquire|]. intros i ? ->.
  apply accounts_bind. eapply accounts_weaken; [apply makeTimer_accounts|]. intros [t tick] ? ->. cbn [fst snd].
  apply accounts_bind. apply accounts_weaken with (P := fun r' l' => l' ≡ₚ option_list r' ++ option_list i ++ option_list t ++ l).
  { destruct r as [h|]; cbn [option_list app]; [|by apply accounts_ret; rewrite Permutation_app_swap_app].
    assert (option_list t ++ option_list i ++ h :: l ≡ₚ h :: option_list i ++ option_list t ++ l) as Hp.
    { rewrite (Permutation_app_swap_app (option_list t)). by rewrite <- !Permutation_middle. }
    apply accounts_bind, keeps_use; [auto with accounts|]. intros [e|?]; [|by apply accounts_ret].
    apply accounts_bind. eapply accounts_closing; [exact Hp|]. by apply accounts_ret. }
  intros r' l' Hl'. destruct r' as [a|], i as [b|], t as [c|]; first [by apply accounts_ret|apply accounts_bind];
    (eapply destroyWindows_accounts; [exact Hl'|]; intros l2 Hl2; by apply accounts_ret).
Qed.

Lemma createReadWaiter_accounts fd l : accounts l (createReadWaiter fd) (fun w l' => l' ≡ₚ objects w ++ l).
Proof.
  unfold createReadWaiter. destruct platform; [| |apply makeWindows_accounts].
  - unfold makeLinux. apply accounts_bind, accounts_acquire; [|intros i]; by apply accounts_ret.
  - unfold makeKqueue. apply accounts_bind, accounts_acquire; [by apply accounts_ret|]. intros q.
    apply accounts_bind, keeps_use; [auto with accounts|]. intros [e|?]; [|by apply accounts_ret].
    apply accounts_bind. eapply accounts_closing; [reflexivity|]. by apply accounts_ret.
Qed.
Lemma destroyWaiter_accounts w l l' Q : l ≡ₚ objectsOf w ++ l' -> (forall l'', l'' ≡ₚ l' -> Q () l'') -> accounts l (destroyWaiter w) Q.
Proof.
  intros Hl HQ. destruct w as [sock i|q|sock r i t tick]; cbn [destroyWaiter objectsOf] in *.
  - eapply accounts_closing; [exact Hl|]. by apply HQ.
  - eapply accounts_closing; [exact Hl|]. by apply HQ.
  - eapply destroyWindows_accounts; [exact Hl|done].
Qed.

(** A handle that is reset gives back all it holds. *)
Lemma reset_accounts h l l' : isValid h = true -> l ≡ₚ ownedBy h ++ l' ->
  accounts l (reset h) (fun h' l'' => h' = emptyHandle /\ l'' ≡ₚ l').
Proof.
  intros Hv Hl. unfold reset. apply accounts_bind.
  apply accounts_weaken with (P := fun _ l1 => l1 ≡ₚ mHandle h :: l').
  { unfold ownedBy, waiterOf in Hl. rewrite <- (assoc_L (++)) in Hl.
    destruct (mState h) as [[w|]|]; cbn in Hl; [eapply destroyWaiter_accounts; [exact Hl|done]|by apply accounts_ret..]. }
  intros _ l1 Hl1. apply accounts_bind. rewrite Hv. unfold closeHandle. unfold isValid in Hv.
  destruct (bool_decide (mHandle h = InvalidNativeHandle)); [done|].
  eapply accounts_closing; [exact Hl1|]. by apply accounts_ret.
Qed.

Lemma newHandle_accounts fd l : fd <> InvalidNativeHandle ->
  accounts (fd :: l) (newHandle fd) (fun h l' => isValid h = true /\ mHandle h = fd /\ l' ≡ₚ ownedBy h ++ l).
Proof.
  intros Hfd. unfold newHandle. apply accounts_bind. apply accounts_modify; [done|]. apply accounts_bind.
  eapply accounts_weaken; [apply createReadWaiter_accounts|]. intros w l' Hl'. apply accounts_ret.
  split_and!; [unfold isValid; by rewrite bool_decide_false|done|]. rewrite Hl'. unfold ownedBy, waiterOf. cbn.
  destruct w; cbn [mjoin option_join objects]; by rewrite <- (assoc_L (++)).
Qed.

Lemma localAddressOf_accounts fd l : accounts l (localAddressOf fd) (fun r l' =>
  l' = l /\ match r with inl _ => True | inr a => Engine.address_ok a end).
Proof.
  unfold localAddressOf. apply accounts_onSuccess, accounts_mapError, accounts_sys. intros k.
  pose proof (ok_getsockname fd k) as H. destruct (getsockname fd k).1 as [e|a]; [done|]. apply accounts_ret.
  split; [done|]. by apply fromSockaddr_ok, H.
Qed.

Lemma bind_accounts localAddress options : accounts [] (bind localAddress options) (fun r l =>
  match r with
  | inl _ => l = []
  | inr u => isValid (udpHandle u) = true /\ Engine.address_ok (mLocalAddress u) /\ l ≡ₚ ownedBy (udpHandle u)
  end).
Proof.
  unfold bind. apply accounts_onSuccess. eapply accounts_weaken; [apply createSocket_accounts|]. intros [e|fd] l; [by intros ->|].
  intros [-> Hfd]. apply accounts_bind. eapply accounts_weaken; [by apply newHandle_accounts|].
  intros h l (Hv & Hh & Hl). rewrite (right_id_L [] (++)) in Hl. apply accounts_bind.
  apply accounts_weaken with (P := fun r l' => l' = l /\ match r with inl _ => True | inr a => Engine.address_ok a end).
  - apply accounts_onSuccess, keeps_use; [apply applyBindOptions_keeps|]. intros [e|?]; [done|].
    apply accounts_onSuccess, keeps_use; [apply bindTo_keeps|]. intros [e|?]; [done|]. apply localAddressOf_accounts.
  - intros [e|a] ? [-> Ha]; [|by apply accounts_ret]. apply accounts_bind.
    eapply accounts_weaken; [apply (reset_accounts h l []); [done|by rewrite (right_id_L [] (++))]|].
    intros ? l' [_ Hl']. apply accounts_ret. by apply Permutation_nil_r in Hl'.
Qed.

(** C25: [UdpSocket::bind] returns on every platform, at whatever call the system fails it.
    If it fails, nothing it opened is left open; if it succeeds, its address is in range
    and what it opened is what the socket holds, of which [reset] closes all and nothing
    else, whenever it is called. *)
Theorem bind_balanced localAddress options s : exists r s', bind localAddress options s = Some (r, s') /\
  match r with
  | inl _ => held s' ≡ₚ held s
  | inr u => Engine.address_ok (mLocalAddress u) /\ held s' ≡ₚ ownedBy (udpHandle u) ++ held s /\
      forall s1 rest, held s1 ≡ₚ ownedBy (udpHandle u) ++ rest ->
      exists s2, reset (udpHandle u) s1 = Some (emptyHandle, s2) /\ held s2 ≡ₚ rest
  end.
Proof.
  destruct (bind_accounts localAddress options s (held s) (reflexivity _)) as (r & s' & l & E & H & Hr).
  exists r, s'. split; [done|]. destruct r as [e|u]; [by subst l|]. destruct Hr as (Hv & Ha & Hl). rewrite Hl in H.
  split_and!; [done..|]. intros s1 rest H1.
  destruct (reset_accounts (udpHandle u) (ownedBy (udpHandle u)) [] Hv) with (s := s1) (h := rest) as (a & s2 & l2 & E2 & H2 & -> & Hl2);
    [by rewrite (right_id_L [] (++))|done|]. exists s2. split; [done|]. by rewrite H2, Hl2.
Qed.
End Descriptors.
