(* ===== verification/SocketExample.v ===== *)
(** * A small operating system

    It shows that what is relied on can hold, and sockets at work on it. *)
From S2P Require Import Prelude Constants IPv4Address Engine SocketErrors SocketPlatform SocketLaws ReadWaiter UdpSocket.
From S2P Require Import SocketPromises SocketOwnership.
From stdpp Require Import list gmap.
#[local] Open Scope Z_scope.

(** The time, the signals that are pending, the datagrams that have arrived, the interrupts
    and timers that exist, the next handle, what was sent, and what other threads will call. *)
Record Toy := mkToy {
  tNow : TimePoint;
  tSignals : nat;
  tInbox : list (bytes * sockaddr_in);
  tRaised : gmap Z bool;
  tTimers : gmap Z TimePoint;
  tNext : Z;
  tSent : list (bytes * sockaddr_in);
  tOthers : list (list OtherCall);
}.
#[global] Instance eta_Toy : Eta Toy := fun r =>
  mkToy (tNow r) (tSignals r) (tInbox r) (tRaised r) (tTimers r) (tNext r) (tSent r) (tOthers r).

Definition inRange (a : sockaddr_in) : sockaddr_in := mkSockaddr (sin_port a mod 2 ^ 16) (s_addr a mod 2 ^ 32).
Definition fresh (k : Toy) : (NativeError + Z) * Toy := (inr (tNext k mod 2 ^ 31), k <| tNext ::= Z.succ |>).

(** A call that a pending signal interrupts. *)
Definition interruptible {A} (f : Toy -> (NativeError + A) * Toy) (k : Toy) : (NativeError + A) * Toy :=
  match tSignals k with S n => (inl (Posix EINTR), k <| tSignals := n |>) | O => f k end.

Definition toyRecv (fits : bool) (fd n : Z) : Toy -> (NativeError + Received) * Toy := interruptible (fun k =>
  match tInbox k with
  | [] => (inl (Posix EAGAIN), k)
  | (d, a) :: rest =>
    (if fits && (n <? zlen d) then inl (Winsock WSAEMSGSIZE) else inr (mkReceived (ztake n d) (n <? zlen d) (inRange a)),
     k <| tInbox := rest |>)
  end).
Definition toySend (fd : Z) (d : bytes) (a : sockaddr_in) : Toy -> (NativeError + Z) * Toy := interruptible (fun k =>
  (inr (zlen d), k <| tSent ::= fun l => l ++ [(d, a)] |>)).

#[export] Instance toy_kernel : Kernel Toy := {|
  platform := OnLinux;
  littleEndian := true;
  clock k := (tNow k, k);
  wsaStartup k := (0, k);
  socket := fresh;
  fcntlGetFlags _ k := (inr 2, k);
  fcntlSetFlags _ _ k := (inr (), k);
  fcntlCloseOnExec _ k := k;
  ioctlNonBlocking _ k := (inr (), k);
  ioctlNoConnReset _ k := k;
  setsockopt _ _ _ k := (inr (), k);
  getsockopt _ _ k := (inr 0, k);
  bindSocket _ a k := (if bool_decide (sin_port a = 0xFFFF) then inl (Posix EADDRINUSE) else inr (), k);
  getsockname _ k := (inr (mkSockaddr 0x8813 0x0701A8C0), k);
  sendto := toySend;
  sendmsg fd parts := toySend fd (concat parts);
  recvfrom := toyRecv true;
  recvmsg := toyRecv false;
  closeSocket _ k := k;
  shutdownSocket _ k := k;
|}.

Definition isRaised (h : Z) (k : Toy) : bool := default false (tRaised k !! h).
Definition setRaised (b : bool) (h : Z) (k : Toy) : Toy := k <| tRaised ::= alter (fun _ => b) h |>.
Definition arrived (k : Toy) : bool := negb (bool_decide (tInbox k = [])).
Definition newObject (k : Toy) : (NativeError + Z) * Toy :=
  (inr (tNext k mod 2 ^ 31), k <| tNext ::= Z.succ |> <| tRaised ::= <[tNext k mod 2 ^ 31 := false]> |>).
Definition sleep (t : timespec) (k : Toy) : Toy := k <| tNow ::= fun n => n + Z.max 0 (nanoseconds t) |>.

#[export] Instance toy_wait : WaitKernel Toy := {|
  otherCalls k := match tOthers k with [] => ([], k) | c :: rest => (c, k <| tOthers := rest |>) end;
  closeObject _ k := k;
  eventfd := newObject;
  ppoll _ h t := interruptible (fun k =>
    (inr (Z.b2z (arrived k), Z.b2z (isRaised h k)), if arrived k || isRaised h k then k else sleep t k));
  readEvent := setRaised false;
  writeEvent := setRaised true;
  kqueue := newObject;
  keventAdd _ _ k := (inr (), k);
  keventWait h t := interruptible (fun k =>
    (inr ((if arrived k then [EVFILT_READ] else []) ++ (if isRaised h k then [EVFILT_USER] else [])),
     setRaised false h (if arrived k || isRaised h k then k else sleep t k)));
  keventTrigger := setRaised true;
  createEvent := newObject;
  eventSelect _ _ k := (inr (), k);
  eventDeselect _ k := k;
  createTimer _ := fresh;
  timeBeginPeriod k := (true, k);
  timeEndPeriod k := k;
  setWaitableTimer t n k := k <| tTimers ::= <[t := tNow k + 100 * n]> |>;
  setEvent := setRaised true;
  waitForMultipleObjects hs now k :=
    match hs with
    | i :: r :: ts =>
      if isRaised i k then (WaitObject 0, setRaised false i k)
      else if arrived k then (WaitObject 1, k)
      else if (now : bool) then (WaitTimeout, k)
      else match ts with
           | [t] => match tTimers k !! t with Some d => (WaitObject 2, k <| tNow ::= Z.max d |>) | None => (WaitFailed, k) end
           | _ => (WaitFailed, k)
           end
    | _ => (WaitFailed, k)
    end;
|}.

#[export] Instance toy_observers : Observers Toy := {|
  time := tNow;
  signals := tSignals;
  queue k _ := prod_map id inRange <$> tInbox k;
  raised k h := tRaised k !! h;
  due k t := tTimers k !! t;
|}.

(** ** It does what is relied on *)
Lemma toy_passes (k k' : Toy) : tNow k <= tNow k' -> (tSignals k' <= tSignals k)%nat -> tInbox k' = tInbox k -> passes k k'.
Proof. intros T S Q. split_and!; [done..|]. intros fd. exists []. cbn. by rewrite Q, (right_id_L [] (++)). Qed.
Lemma toy_flows (k k' : Toy) : tNow k <= tNow k' -> (tSignals k' <= tSignals k)%nat -> tInbox k' = tInbox k -> tTimers k' = tTimers k -> flows k k'.
Proof. intros T S Q D. split; [by apply toy_passes|]. intros t. cbn. by rewrite D. Qed.
Lemma toy_calm (k k' : Toy) : tNow k <= tNow k' -> (tSignals k' <= tSignals k)%nat -> tInbox k' = tInbox k -> tTimers k' = tTimers k ->
  tRaised k' = tRaised k -> calm k k'.
Proof. intros T S Q D R. split; [by apply toy_flows|]. intros h. cbn. by rewrite R. Qed.
Lemma toy_takes (k k' : Toy) fd d a : tInbox k = (d, a) :: tInbox k' -> takes fd [(d, inRange a)] k k'.
Proof. intros E. exists []. cbn. by rewrite E, (right_id_L [] (++)). Qed.
Lemma inRange_ok a : sockaddr_ok (inRange a).
Proof. split; unfold is_uint; cbn; apply Z.mod_pos_bound; lia. Qed.
Lemma setRaised_ok b h k : flows k (setRaised b h k) /\ forall c, tRaised k !! h = Some c -> tRaised (setRaised b h k) !! h = Some b.
Proof. split; [by apply toy_flows|]. intros c Hc. cbn. by rewrite lookup_alter_eq, Hc. Qed.
Lemma isRaised_iff h k b : tRaised k !! h = Some b -> isRaised h k = b.
Proof. unfold isRaised. by intros ->. Qed.
Lemma toy_none (k k' : Toy) fd : tInbox k' = tInbox k -> takes fd [] k k'.
Proof. intros E. exists []. cbn. by rewrite E, (right_id_L [] (++)). Qed.

#[export] Instance toy_ok : KernelOk Toy.
Proof.
  split.
  - intros k. by split.
  - intros fd n k. cbn [recvmsg toy_kernel]. unfold toyRecv, interruptible. destruct (tSignals k) as [|m] eqn:S; cbn [signals toy_observers].
    + destruct (tInbox k) as [|[d a] rest] eqn:E; cbn -[takes]; (split; [lia|]); [by split_and!; [|by apply toy_none|]|].
      split; [apply inRange_ok|]. exists d. split_and!; [done|apply Z.ltb_lt|by apply toy_takes].
    + cbn -[takes]. split; [lia|]. split_and!; [done|by apply toy_none|lia].
  - intros fd n k. cbn [recvfrom toy_kernel]. unfold toyRecv, interruptible. destruct (tSignals k) as [|m] eqn:S; cbn [signals toy_observers].
    + destruct (tInbox k) as [|[d a] rest] eqn:E; cbn -[takes callError]; (split; [lia|]).
      * rewrite bool_decide_false by done. by split; [apply toy_none|].
      * destruct (n <? zlen d) eqn:L; cbn -[takes callError].
        -- rewrite bool_decide_true by done. exists d, (inRange a). split; [lia|by apply toy_takes].
        -- rewrite ztake_ge by lia. split; [apply inRange_ok|split; [lia|by apply toy_takes]].
    + cbn -[takes callError]. split; [lia|]. rewrite bool_decide_false by done. split; [by apply toy_none|lia].
  - done.
  - intros fd d a k code. cbn [sendto toy_kernel]. unfold toySend, interruptible. destruct (tSignals k) as [|m] eqn:S; cbn; [done|lia].
  - intros k fd. cbn. intros [= <-] E. pose proof (Z.mod_pos_bound (tNext k) (2 ^ 31) ltac:(lia)). unfold InvalidNativeHandle in E. lia.
  - intros fd k a [= <-]. by split; unfold is_uint; cbn.
Qed.

Lemma sleep_flows t k : flows k (sleep t k).
Proof. apply toy_flows; cbn; lia || done. Qed.
Lemma toy_signal k m : tSignals k = S m -> calm k (k <| tSignals := m |>).
Proof. intros E. apply toy_calm; cbn; lia || done. Qed.

#[export] Instance toy_waits : WaitOk Toy.
Proof.
  split.
  - intros k. cbn. destruct (tOthers k); by apply toy_calm.
  - intros fd k. by apply toy_calm.
  - intros w k. destruct w; apply setRaised_ok.
  - intros sock h t k. cbn [ppoll toy_wait]. unfold interruptible. destruct (tSignals k) as [|m] eqn:S; cbn [fst snd].
    + split; [destruct (_ || _); [done|apply sleep_flows]|]. split; [by destruct (_ || _)|split].
      * intros b Hb. rewrite (isRaised_iff h k b Hb). by destruct b.
      * destruct (arrived k), (isRaised h k); cbn; lia.
    + destruct (toy_signal k m S) as [F R]. split; [done|]. split; [apply R|]. split; [done|]. intros _. cbn. lia.
  - intros h k. apply setRaised_ok.
  - intros h t k. cbn [keventWait toy_wait]. unfold interruptible. destruct (tSignals k) as [|m] eqn:S; cbn [fst snd].
    + set (k1 := if arrived k || isRaised h k then k else sleep t k). assert (flows k k1) as F by (unfold k1; destruct (_ || _); [done|apply sleep_flows]).
      split; [etrans; [exact F|apply setRaised_ok]|split].
      * intros b Hb. rewrite (isRaised_iff h k b Hb). split; [destruct (arrived k), b; set_solver|].
        apply (proj2 (setRaised_ok false h k1) b). unfold k1. by destruct (_ || _).
      * unfold k1. destruct (arrived k), (isRaised h k); cbn; lia || done.
    + destruct (toy_signal k m S) as [F R]. split; [done|]. split; [done|]. split; [apply R|]. intros _. cbn. lia.
  - intros i r ts now k b Hb. cbn [waitForMultipleObjects toy_wait]. rewrite (isRaised_iff i k b Hb). destruct b.
    { destruct (setRaised_ok false i k) as [F R]. split; [done|]. split; [exact (R true Hb)|done]. }
    destruct (arrived k); [by split; [apply toy_flows|]|]. destruct now; [by split; [apply toy_flows|]|]. destruct ts as [|t [|]]; [by split; [apply toy_flows|]| |by split; [apply toy_flows|]].
    destruct (tTimers k !! t) as [d|] eqn:E; [|by split; [apply toy_flows|]]. cbn [fst snd].
    split; [apply toy_flows; cbn; lia || done|]. split; [done|]. split; [done|]. exists t, d. split_and!; [done|done|cbn; lia].
  - intros t n k. cbn [setWaitableTimer toy_wait]. split; [by apply toy_passes|]. split; [done|]. eexists. cbn. rewrite lookup_insert_eq. split; [done|lia].
Qed.

(** ** Sockets at work *)
Definition sender : sockaddr_in := mkSockaddr 0x8813 0x0701A8C0.
Definition toy0 : Toy :=
  mkToy 1000 2 [([Byte.x01], sender); ([Byte.x02; Byte.x03; Byte.x04], sender); ([Byte.x05; Byte.x06], sender)] ∅ ∅ 3 [] [].
Definition system0 : System Toy := mkSystem toy0 [77] None false false None.
Definition options0 : BindOptions := mkBind true true 4096 4096.
Definition bound0 : option ((SocketError + UdpSocket) * System Toy) := bind (anyAddress 0) options0 system0.
Definition socket0 : UdpSocket :=
  match bound0 with Some (inr u, _) => u | _ => mkUdpSocket emptyHandle (anyAddress 0) end.
Definition system1 : System Toy := match bound0 with Some (_, s) => s | None => system0 end.

Example bound0_holds : udpHandle socket0 = mkHandle 3 (Some (Some (ReadWaiterLinux 3 4))) /\ held system1 = [4; 3; 77] /\
  mLocalAddress socket0 = mkSocketAddress (mkIPv4 0xC0A80107) 5000.
Proof. by vm_compute. Qed.

Lemma receives_in_order_witness : exists rs s' l, receiveAll 4 3 socket0 2 system1 = Some (rs, s') /\
  takes 3 l (os system1) (os s') /\ datagrams rs = fitting 2 l /\
  datagrams rs = [([Byte.x01], mkSocketAddress (mkIPv4 0xC0A80107) 5000); ([Byte.x05; Byte.x06], mkSocketAddress (mkIPv4 0xC0A80107) 5000)].
Proof.
  destruct (receives_in_order 4 3 socket0 2 system1) as (rs & s' & l & E & _ & T & Hl & _); [by vm_compute; lia|].
  exists rs, s', l. split_and!; [done..|].
  assert (datagrams <$> (fst <$> receiveAll 4 3 socket0 2 system1) = Some
    [([Byte.x01], mkSocketAddress (mkIPv4 0xC0A80107) 5000); ([Byte.x05; Byte.x06], mkSocketAddress (mkIPv4 0xC0A80107) 5000)]) as H
    by by vm_compute.
  rewrite E in H. by injection H.
Defined.

Lemma sendParts_equivalent_witness : zlen ([Byte.x01] ++ [Byte.x02]) < 2 ^ 31 /\
  sendParts 3 socket0 (anyAddress 9) [Byte.x01] [Byte.x02] system1 = sendPartsJoined 3 socket0 (anyAddress 9) [Byte.x01] [Byte.x02] system1.
Proof. split; [by vm_compute|]. apply sendParts_equivalent. by vm_compute. Defined.
Example parts_sent : tSent ∘ os ∘ snd <$> sendParts 3 socket0 (anyAddress 9) [Byte.x01] [Byte.x02] system1 =
  Some [([Byte.x01; Byte.x02], mkSockaddr 0x0900 0)].
Proof. by vm_compute. Qed.

(** An interrupt that came before the wait ends it, though datagrams are there. *)
Definition interrupted1 : System Toy := interruptSocket socket0 system1.
Lemma wait_contract_witness : raised (os interrupted1) (watched (udpHandle socket0)) = Some true /\
  exists r s', waitFor 4 socket0 (ms 5) interrupted1 = Some (r, s') /\ r <> inl Timeout /\ r <> inr () /\ r = inl Cancelled.
Proof.
  split; [by vm_compute|].
  destruct (wait_contract 4 socket0 (ReadWaiterLinux 3 4) (ms 5) interrupted1 true) as (r & s' & E & H & _); [by vm_compute..|by vm_compute; lia|].
  destruct (H eq_refl) as [Ht Hr]. exists r, s'. split_and!; [done..|].
  assert (fst <$> waitFor 4 socket0 (ms 5) interrupted1 = Some (inl Cancelled)) as Hc by by vm_compute.
  rewrite E in Hc. by injection Hc.
Defined.

Lemma bind_balanced_witness : exists s', bind (mkSocketAddress unspecified 0xFFFF) options0 system0 = Some (inl AddressInUse, s') /\
  held s' ≡ₚ held system0.
Proof.
  destruct (bind_balanced (mkSocketAddress unspecified 0xFFFF) options0 system0) as (r & s' & E & H).
  assert (fst <$> bind (mkSocketAddress unspecified 0xFFFF) options0 system0 = Some (inl AddressInUse)) as Hc by by vm_compute.
  rewrite E in Hc. injection Hc as ->. by exists s'.
Defined.

(** Another thread interrupts a wait in progress, then shuts the socket down; nothing comes. *)
Definition quiet (others : list (list OtherCall)) : System Toy :=
  system1 <| os ::= fun k => k <| tInbox := [] |> <| tSignals := 0%nat |> <| tOthers := others |> |>.
Example waits_of_a_thread :
  fst <$> waitFor 4 socket0 (ms 5) (quiet []) = Some (inl Timeout) /\
  fst <$> waitFor 4 socket0 (ms 5) (quiet [[]; [CallInterrupt]]) = Some (inl Cancelled) /\
  fst <$> waitFor 4 socket0 (ms 5) (quiet [[]; [CallShutdown]]) = Some (inl SocketClosed) /\
  fst <$> receiveFrom 1 4 socket0 100 0 (quiet [[CallShutdown]]) = Some (inl SocketClosed) /\
  fst <$> receiveFrom 1 4 socket0 100 0 (quiet []) = Some (inl Timeout).
Proof. by vm_compute. Qed.
