(* ===== verification/SocketWorld.v ===== *)
(** * The engine on its sockets

    The engine is verified against the type class [World]; here [UdpSocket]s take the place
    of what [World] says of sockets.  What is left of it, the adapters, the random
    numbers and the other threads of the engine, comes from another world. *)
From S2P Require Import Prelude Constants IPv4Address Engine SocketErrors SocketPlatform SocketLaws ReadWaiter UdpSocket.
From S2P Require Import SocketPromises SocketExample EngineExample.
From stdpp Require Import gmap.
#[local] Open Scope Z_scope.

(** A socket with the fields its threads share, and the state around the engine. *)
Record Slot := mkSlot { slotSocket : UdpSocket; slotShutdown : bool; slotUnread : bool; slotArmed : option TimePoint }.
Record Net (K R : Type) := mkNet {
  netOs : K;
  netHeld : list Z;
  netRuntime : option Z;
  mIoSlot : option Slot;
  mBeaconSlot : option Slot;
  others : R;
}.
Arguments mkNet {K R} _ _ _ _ _ _.
Arguments netOs {K R} _.
Arguments netHeld {K R} _.
Arguments netRuntime {K R} _.
Arguments mIoSlot {K R} _.
Arguments mBeaconSlot {K R} _.
Arguments others {K R} _.
#[global] Instance eta_Net K R : Eta (Net K R) := fun r =>
  mkNet (netOs r) (netHeld r) (netRuntime r) (mIoSlot r) (mBeaconSlot r) (others r).

Section World.
Context {K R : Type} `{!Kernel K, !WaitKernel K, !Observers K, !Engine.World R}.

Definition slotOf (p : Engine.Port) (w : Net K R) : option Slot :=
  match p with Engine.IoPort => mIoSlot w | Engine.BeaconPort => mBeaconSlot w end.

(** The system as one socket sees it, and the state after it did something. *)
Definition enter (w : Net K R) (slot : Slot) : System K :=
  mkSystem (netOs w) (netHeld w) (netRuntime w) (slotShutdown slot) (slotUnread slot) (slotArmed slot).
Definition leave (s : System K) (w : Net K R) : Net K R :=
  w <| netOs := os s |> <| netHeld := held s |> <| netRuntime := runtime s |>.
Definition keepSlot (p : Engine.Port) (slot : option Slot) (w : Net K R) : Net K R :=
  match p with Engine.IoPort => w <| mIoSlot := slot |> | Engine.BeaconPort => w <| mBeaconSlot := slot |> end.

(** A call of the socket of a port; there is none while the engine has not bound one. *)
Definition onSocket {A} (p : Engine.Port) (f : UdpSocket -> IO K (SocketError + A)) (w : Net K R) : (SocketError + A) * Net K R :=
  match slotOf p w with
  | None => (inl UnknownError, w)
  | Some slot =>
    match f (slotSocket slot) (enter w slot) with
    | None => (inl UnknownError, w)
    | Some (r, s) =>
      (r, keepSlot p (Some (mkSlot (slotSocket slot) (shutdownFlag s) (mReadableUnread s) (mArmedFor s))) (leave s w))
    end
  end.

(** Rounds that are enough. *)
Definition roundsFor (w : Net K R) : nat := S (signals (netOs w)) `max` 4.

(** [mIoSocket.reset()] and the like. *)
Definition dropSocket (p : Engine.Port) (w : Net K R) : Net K R :=
  match slotOf p w with
  | None => w
  | Some slot =>
    match UdpSocket.reset (udpHandle (slotSocket slot)) (enter w slot) with
    | None => w
    | Some (_, s) => keepSlot p None (leave s w)
    end
  end.

(** The factory of the engine: the socket that shares its port is the one for beacons; it is
    bound after the other, before which both are gone. *)
Definition makeAt (a : SocketAddress) (options : BindOptions) (w : Net K R) : (SocketError + SocketAddress) * Net K R :=
  let p := if reuseAddress options then Engine.BeaconPort else Engine.IoPort in
  let w := if reuseAddress options then w else dropSocket Engine.BeaconPort (dropSocket Engine.IoPort w) in
  match factory a options (mkSystem (netOs w) (netHeld w) (netRuntime w) false false None) with
  | None => (inl UnknownError, w)
  | Some (inl e, s) => (inl e, leave s w)
  | Some (inr u, s) =>
    (inr (mLocalAddress u), keepSlot p (Some (mkSlot u (shutdownFlag s) (mReadableUnread s) (mArmedFor s))) (leave s w))
  end.

Definition errorOf {A} (r : (SocketError + A) * Net K R) : option SocketError * Net K R :=
  (match r.1 with inl e => Some e | inr _ => None end, r.2).
Definition aside {A} (f : R -> A * R) (w : Net K R) : A * Net K R := let '(a, r) := f (others w) in (a, w <| others := r |>).

#[export] Instance socket_world : Engine.World (Net K R) := {|
  Engine.sendDatagram to d w := errorOf (onSocket Engine.IoPort (fun u => sendTo (roundsFor w) u to d) w);
  Engine.receiveDatagram p w :=
    let '(r, w) := onSocket p (fun u => receiveFrom 1 (roundsFor w) u PackageBufferSize 0) w in
    (match r with inl e => inl e | inr (d, a) => inr (a, d) end, w);
  Engine.waitReadable t w := errorOf (onSocket Engine.IoPort (fun u => waitFor (roundsFor w) u t) w);
  Engine.queryInterface := aside Engine.queryInterface;
  Engine.makeSocket := makeAt;
  Engine.drawStreamID := aside Engine.drawStreamID;
  Engine.otherThreads := aside Engine.otherThreads;
  Engine.capacityOf n := aside (Engine.capacityOf n);
|}.

Context `{!KernelOk K, !WaitOk K}.

Lemma onSocket_receives p w a d : (Engine.receiveDatagram p w).1 = inr (a, d) -> zlen d <= PackageBufferSize /\ Engine.address_ok a.
Proof.
  cbn [Engine.receiveDatagram socket_world]. unfold onSocket. destruct (slotOf p w) as [slot|]; [|done].
  destruct (receiveFrom_ok 0 (roundsFor w) (slotSocket slot) PackageBufferSize 0 (enter w slot)) as (r & s & E & Hr & _).
  { done. }
  { unfold roundsFor. cbn. lia. }
  rewrite E. destruct (receives_takes _ _ _ _ _ Hr) as (l & _ & _ & F). destruct r as [e|[d' a']]; [done|].
  cbn. intros [= -> ->]. by apply (proj1 (Forall_singleton _ (d, a))) in F.
Qed.

Lemma draw_aside fuel used w : is_Some (Engine.draw fuel used (others w)) -> is_Some (Engine.draw fuel used w).
Proof.
  revert w. induction fuel as [|fuel IH]; intros w; cbn; unfold aside; destruct (Engine.drawStreamID (others w)) as [id r]; cbn;
    (destruct (used id); [|by eexists]); [by intros []|]. exact (IH (w <| others := r |>)).
Qed.

(** The rounds are enough: a call of a socket that is bound comes back with its own answer. *)
Lemma rounds_suffice w slot to_ d :
  is_Some (sendTo (roundsFor w) (slotSocket slot) to_ d (enter w slot)) /\
  is_Some (receiveFrom 1 (roundsFor w) (slotSocket slot) PackageBufferSize 0 (enter w slot)) /\
  forall wt timeout b, isValid (udpHandle (slotSocket slot)) = true -> waiterOf (udpHandle (slotSocket slot)) = Some wt ->
    raised (netOs w) (watched (udpHandle (slotSocket slot))) = Some b ->
    is_Some (waitFor (roundsFor w) (slotSocket slot) timeout (enter w slot)).
Proof.
  assert (Hf : (signals (os (enter w slot)) < roundsFor w)%nat) by (unfold roundsFor; cbn; lia). split_and!.
  - destruct (sendDatagram_returns (mHandle (udpHandle (slotSocket slot))) to_ d _ _ Hf) as (r & k & E). by eexists.
  - destruct (receiveFrom_ok 0 (roundsFor w) (slotSocket slot) PackageBufferSize 0 (enter w slot)) as (r & s & E & _); [done..|]. by eexists.
  - intros wt timeout b Hv Hw Hb. destruct (ok_clock (netOs w)) as [En [[P _] Rc]].
    destruct (waitReadable_ok (roundsFor w) (udpHandle (slotSocket slot)) wt (time (netOs w) + timeout) ((enter w slot) <| os := (clock (netOs w)).2 |>) b)
      as (r & s & E & _); [done|done|by cbn; rewrite Rc| |].
    { unfold wait_rounds, roundsFor. destruct P as (_ & S & _). cbn. lia. }
    unfold waitFor, mbind, io_bind, sys. cbn [os enter]. destruct (clock (netOs w)) as [now k]. cbn [fst snd] in *. subst now. rewrite E. by eexists.
Qed.

(** The sockets do what the engine relies on: over them, and over any world for the rest,
    every law of [WorldOk] holds, so that what is proved of the engine holds of the engine
    on its sockets. *)
Lemma sockets_serve_engine fuel : Engine.WorldOk R fuel -> Engine.WorldOk (Net K R) fuel.
Proof.
  intros HR. split.
  - intros p w a d. apply onSocket_receives.
  - intros w. cbn. unfold aside. pose proof (Engine.wo_draw (others w)) as Hd. by destruct (Engine.drawStreamID (others w)).
  - intros used w Hs. apply draw_aside. by apply Engine.wo_fresh.
  - intros w c. cbn. unfold aside. pose proof (Engine.wo_others (others w) c) as Ho. by destruct (Engine.otherThreads (others w)).
Qed.
End World.

(** An engine of the example world, on sockets of the example system. *)
Lemma sockets_serve_engine_witness : Engine.WorldOk Script 500 /\ Engine.WorldOk (Net Toy Script) 500.
Proof. split; [exact script_ok|]. exact (sockets_serve_engine 500 script_ok). Defined.

Definition net0 : Net Toy Script := mkNet toy0 [77] None None None (mkScript [] 7).
Definition net1 : Net Toy Script := (Engine.makeSocket (anyAddress 0) (mkBind true false 4096 4096) net0).2.
Example net1_receives :
  (Engine.receiveDatagram Engine.IoPort net1).1 = inr (mkSocketAddress (mkIPv4 0xC0A80107) 5000, [Byte.x01]) /\
  (Engine.receiveDatagram Engine.BeaconPort net1).1 = inl UnknownError /\
  netHeld net1 = [4; 3; 77] /\ netHeld (Engine.makeSocket (anyAddress 0) (mkBind true false 0 0) net1).2 = [6; 5; 77].
Proof. by vm_compute. Qed.
