(* ===== verification/NetLink.v ===== *)
(** * The class NetLink

    [NetLink.cpp]: the public class holds a [NetLinkCore] and passes every call on.  Here are
    also the parts of [NetLinkCore::start] and [stop] that depend on the calling thread, and
    the destructor.  Whatever an application does through the class is a run of the core. *)
From Stdlib Require Import QArith.
From S2P Require Import Prelude Constants Text IPv4Address Discovery Mailbox MailboxRuns Engine EngineSessions EngineRuns.
From S2P Require Import TaskQueue NetworkInformation Adapters NetLinkCore CoreRuns.
From stdpp Require Import relations.
#[local] Open Scope Z_scope.

Module Facade.
Import Engine Adapters.

(** ** Calls of the core by the thread they come from *)

(** [start], up to [finish]: it returns false, waits for [mLifecycleMutex], or goes on. *)
Inductive Starting := StartFalse | StartWaits | StartGoesOn (c : Core.NetLinkCore).
Definition beginStart (onEventThread : bool) (config : Core.NetLinkConfig) (callbacks : Core.NetLinkCallbacks) (c : Core.NetLinkCore) : Starting :=
  if bool_decide (Core.appId config = []) then StartFalse
  else if onEventThread then StartFalse
  else
    match Core.life c with
    | Core.Free =>
      match Core.engine c with
      | Some r => if Box.isRunning (mMailbox (Core.eng r)) then StartFalse
                  else StartGoesOn (c <| Core.life := Core.Finishing (Core.ByStart config callbacks) |>)
      | None => StartGoesOn (c <| Core.life := Core.Finishing (Core.ByStart config callbacks) |>)
      end
    | _ => StartWaits
    end.

(** [stop], up to the mutex: on the event thread it returns before. *)
Definition beginStop (onEventThread : bool) (c : Core.NetLinkCore) : Core.NetLinkCore :=
  match Core.requestStop c with
  | None => c
  | Some c => if onEventThread then c else c <| Core.stops ::= S |>
  end.

(** The rest of the destructor, once its [stop] was called: when no [stop] waits for the mutex
    any more, its own included, and there is no engine left, [finish] returns at once, and
    the members go; [None] while it waits for the mutex or for the threads. *)
Definition destroy (c : Core.NetLinkCore) : option () :=
  match Core.stops c, Core.life c, Core.mEngine c with O, Core.Free, None => Some () | _, _, _ => None end.

(** ** The class *)
Record NetLink := mkNetLink { core : Core.NetLinkCore }.
Definition newNetLink (dependencies : Core.NetLinkCoreDependencies) : NetLink := mkNetLink (Core.newCore dependencies).
Definition onCore {A} (f : Core.NetLinkCore -> A * Core.NetLinkCore) (n : NetLink) : A * NetLink :=
  let '(a, c) := f (core n) in (a, mkNetLink c).
Definition onCore_ (f : Core.NetLinkCore -> Core.NetLinkCore) (n : NetLink) : NetLink := mkNetLink (f (core n)).

Definition start (onEventThread : bool) (config : Core.NetLinkConfig) (callbacks : Core.NetLinkCallbacks) (n : NetLink) : Starting :=
  beginStart onEventThread config callbacks (core n).
Definition stop (onEventThread : bool) : NetLink -> NetLink := onCore_ (beginStop onEventThread).
Definition startDiscovery : NetLink -> bool * NetLink := onCore Core.startDiscovery.
Definition stopDiscovery : NetLink -> NetLink := onCore_ Core.stopDiscovery.
Definition peers (n : NetLink) : list PeerInfo := Core.peers (core n).
Definition connect (peer : PeerId) : NetLink -> bool * NetLink := onCore (Core.connect peer).
Definition accept (peer : PeerId) : NetLink -> NetLink := onCore_ (Core.accept peer).
Definition decline (peer : PeerId) : NetLink -> NetLink := onCore_ (Core.decline peer).
Definition disconnect (peer : PeerId) : NetLink -> NetLink := onCore_ (Core.disconnect peer).
Definition connectedPeers (n : NetLink) : list PeerId := Core.connectedPeers (core n).

(** The first [send] copies the bytes of the span, the second one moves the vector. *)
Definition sendSpan (peer : PeerId) (type : Z) (data : bytes) (lane : PublicLane) (timeout : Z) : NetLink -> (SendResult + Box.PushWait) * NetLink :=
  onCore (Core.send peer type data lane timeout).
Definition sendVector (peer : PeerId) (type : Z) (data : bytes) (lane : PublicLane) (timeout : Z) : NetLink -> (SendResult + Box.PushWait) * NetLink :=
  onCore (Core.send peer type data lane timeout).
Definition broadcast (type : Z) (data : bytes) (lane : PublicLane) : NetLink -> Z * NetLink := onCore (Core.broadcast type data lane).
Definition stats (peer : PeerId) (n : NetLink) : option PeerStats := Core.stats peer (core n).

Definition getAvailableAdapters (scanned : option (list NetworkAdapterInternal)) : NetLink -> list NetworkAdapter * NetLink :=
  onCore (fun c => let '(l, n) := Adapters.getAvailableAdapters scanned (Core.mNetwork c) in (l, c <| Core.mNetwork := n |>)).
Definition setActiveAdapter (adapterID : Z) (scanned : option (list NetworkAdapterInternal)) : NetLink -> bool * NetLink :=
  onCore (Core.useAdapter adapterID scanned).
Definition getActiveAdapterID (n : NetLink) : Z := Adapters.getActiveAdapterID (Core.mNetwork (core n)).

(** ** Calls *)
Inductive Request :=
| Start (onEventThread : bool) (config : Core.NetLinkConfig) (callbacks : Core.NetLinkCallbacks)
| Stop (onEventThread : bool)
| StartDiscovery | StopDiscovery
| Connect (peer : PeerId) | Accept (peer : PeerId) | Decline (peer : PeerId) | Disconnect (peer : PeerId)
| Send (peer : PeerId) (type : Z) (data : bytes) (lane : PublicLane) (timeout : Z)
| Broadcast (type : Z) (data : bytes) (lane : PublicLane)
| Adapters (scanned : option (list NetworkAdapterInternal))
| SetAdapter (adapterID : Z) (scanned : option (list NetworkAdapterInternal)).

(** What a call makes of the object, before it returns or waits. *)
Definition request (r : Request) (n : NetLink) : NetLink :=
  match r with
  | Start ev config callbacks => match start ev config callbacks n with StartGoesOn c => mkNetLink c | _ => n end
  | Stop ev => stop ev n
  | StartDiscovery => (startDiscovery n).2
  | StopDiscovery => stopDiscovery n
  | Connect peer => (connect peer n).2
  | Accept peer => accept peer n
  | Decline peer => decline peer n
  | Disconnect peer => disconnect peer n
  | Send peer type data lane timeout => (sendSpan peer type data lane timeout n).2
  | Broadcast type data lane => (broadcast type data lane n).2
  | Adapters scanned => (getAvailableAdapters scanned n).2
  | SetAdapter id scanned => (setActiveAdapter id scanned n).2
  end.

Section Facade.
Context {W : Type} `{!World W} (fuel : nat) `{!WorldOk W fuel}.

Lemma start_steps ev config callbacks c c' : beginStart ev config callbacks c = StartGoesOn c' -> Core.core_step fuel c c'.
Proof.
  unfold beginStart. case_bool_decide as Ha; [done|]. destruct ev; [done|]. destruct (Core.life c) eqn:El; try done. intros H.
  assert (Hm : Core.mayStart config c = true /\ c' = c <| Core.life := Core.Finishing (Core.ByStart config callbacks) |>).
  { unfold Core.mayStart. rewrite bool_decide_false by done. destruct (Core.engine c) as [r|]; [|by injection H as <-].
    destruct (Box.isRunning _); [done|]. by injection H as <-. }
  destruct Hm as [Hm ->]. by apply Core.cs_start.
Qed.
(** On the event thread [stop] is a post to the mailbox. *)
Lemma stop_steps ev c : rtc (Core.core_step fuel) c (beginStop ev c).
Proof.
  unfold beginStop. destruct (Core.requestStop c) as [c1|] eqn:E; [|apply rtc_refl]. destruct ev; [|apply rtc_once; by apply Core.cs_stop].
  unfold Core.requestStop in E. destruct (Core.mEngine c) as [g|]; [|done]. injection E as <-. apply rtc_once.
  by apply (Core.cs_call fuel c g (UseMailbox (Post Box.Shutdown 0))).
Qed.

(** Every call of the public class is made of steps of the core. *)
Lemma request_steps r n : rtc (Core.core_step fuel) (core n) (core (request r n)).
Proof.
  destruct n as [c]. destruct r as [ev config callbacks|ev| | |peer|peer|peer|peer|peer type data lane timeout|type data lane|scanned|id scanned];
    cbn [request]; unfold start, stop, startDiscovery, stopDiscovery, connect, accept, decline, disconnect, sendSpan, broadcast, getAvailableAdapters,
    setActiveAdapter, onCore, onCore_; cbn [core].
  - destruct (beginStart ev config callbacks c) as [| |c'] eqn:E; [apply rtc_refl..|]. apply rtc_once. by eapply start_steps.
  - apply stop_steps.
  - pose proof (public_calls fuel c 0 0 [] LReliable 0 0 None) as (H & _). by destruct (Core.startDiscovery c).
  - apply (public_calls fuel c 0 0 [] LReliable 0 0 None).
  - pose proof (public_calls fuel c peer 0 [] LReliable 0 0 None) as (_ & _ & H & _). by destruct (Core.connect peer c).
  - apply (public_calls fuel c peer 0 [] LReliable 0 0 None).
  - apply (public_calls fuel c peer 0 [] LReliable 0 0 None).
  - apply (public_calls fuel c peer 0 [] LReliable 0 0 None).
  - pose proof (public_calls fuel c peer type data lane timeout 0 None) as (_ & _ & _ & _ & _ & _ & H & _). by destruct (Core.send peer type data lane timeout c).
  - pose proof (public_calls fuel c 0 type data lane 0 0 None) as (_ & _ & _ & _ & _ & _ & _ & H & _). by destruct (Core.broadcast type data lane c).
  - destruct (Adapters.getAvailableAdapters scanned (Core.mNetwork c)) as [l n]. apply rtc_once. apply Core.cs_network.
  - pose proof (public_calls fuel c 0 0 [] LReliable 0 id scanned) as (_ & _ & _ & _ & _ & _ & _ & _ & H). by destruct (Core.useAdapter id scanned c).
Qed.

(** When the destructor returns, no thread is left that could use the object. *)
Lemma destroyed_alone deps c : Core.core_run fuel deps c -> destroy c = Some () ->
  (forall g r, Core.runs c !! g = Some r -> Core.thread r = Core.Over) /\ Tasks.mThread (Core.tasks c) = None /\
  Core.dispatched c = Core.history (Core.handedOver <$> Core.runs c).
Proof.
  intros Hrun Hd. unfold destroy in Hd. destruct (Core.stops c); [|done]. destruct (Core.life c); try done. destruct (Core.mEngine c) eqn:He; [done|].
  destruct (finished_told fuel c (Core.core_run_ok _ _ _ Hrun) He) as (H1 & H2 & H3). done.
Qed.
End Facade.
End Facade.
