(* ===== verification/CInterface.v ===== *)
(** * The C interface

    [capi/NetLinkC.cpp] over the class [NetLink].  A pointer that may be null is an option; a
    text field of a C struct is an array of [NL_MAX_STRING] bytes; an array of the caller is
    a list. *)
From Stdlib Require Import QArith.
From S2P Require Import Prelude Constants Text Discovery Mailbox Engine EngineSessions EngineTypes Logging TaskQueue EngineExample.
From S2P Require Import NetworkInformation Adapters NetLinkCore CoreTypes CoreExample NetLink.
From stdpp Require Import list relations.
#[local] Open Scope Z_scope.

Module C.
Import Adapters Core Facade.

(** ** Texts *)
Definition NL_MAX_STRING : Z := 256.
Abbreviation field := (list Byte.byte) (only parsing).
Definition emptyField : field := replicate (Z.to_nat NL_MAX_STRING) Byte.x00.

(** [(c & 0xC0) == 0x80] *)
Definition isContinuation (c : byte) : bool := Z.land (byteZ c) 0xC0 =? 0x80.

(** The loop that gives up the first bytes of a character; [None] is a read past the end. *)
Fixpoint backUp (source : text) (length : nat) : option nat :=
  match length with
  | O => Some O
  | S shorter =>
    match source !! length with
    | None => None
    | Some c => if isContinuation c then backUp source shorter else Some length
    end
  end.

Definition copyString (target : field) (source : text) : option field :=
  let length := Z.min (zlen source) (NL_MAX_STRING - 1) in
  length ← (if length <? zlen source then backUp source (Z.to_nat length) else Some (Z.to_nat length));
  Some (blit target 0 (take length source ++ [Byte.x00])).

(** ** Structs *)
Record NLPeerInfo := mkNLPeer { peerId : Z; peerPort : Z; peerName : field; peerAddress : field; peerVersion : field }.
Record NLNetworkAdapter := mkNLAdapter { nlId : Z; nlPriority : Z; nlName : field; nlNetwork : field; nlIpv4 : field }.
Record NLPeerStats := mkNLStats {
  rttMicroseconds : Z; nlQueued : Z; nlSent : Z; nlReceived : Z; nlRetransmissions : Z;
  nlMediaSent : Z; nlMediaDropped : Z; nlMediaIncomplete : Z; nlMediaLoss : Q }.
Record NLConfig := mkNLConfig {
  nlDisplayName : option text; nlAppId : option text; nlAppVersion : option text;
  nlDiscoveryPort : Z; nlSendQueueBytes : Z; nlMaxSendRate : Z; nlPeerTimeoutMs : Z }.

Definition peerToC (peer : PeerInfo) : option NLPeerInfo :=
  name ← copyString emptyField (displayName peer);
  address ← copyString emptyField (infoAddress peer);
  version ← copyString emptyField (infoVersion peer);
  Some (mkNLPeer (infoId peer) (infoPort peer) name address version).

Definition priorityToC (p : AdapterPriority) : Z := match p with Suppressed => 1 | Available => 2 | Preferred => 3 end.
Definition adapterToC (a : NetworkAdapter) : option NLNetworkAdapter :=
  name ← copyString emptyField (adapterName a);
  network ← copyString emptyField (networkName a);
  ip ← copyString emptyField (ipv4 a);
  Some (mkNLAdapter (id a) (priorityToC (priority a)) name network ip).

Definition laneToC (l : PublicLane) : Z := match l with LReliable => 0 | LBulk => 1 | LMedia => 2 end.
(** [static_cast<netlink::Lane>]: [None] for a number that no enumerator has. *)
Definition laneOf (lane : Z) : option PublicLane :=
  if lane =? 0 then Some LReliable else if lane =? 1 then Some LBulk else if lane =? 2 then Some LMedia else None.
Definition isLane (lane : Z) : bool := (0 <=? lane) && (lane <=? 2).
Definition reasonToC (r : DisconnectReason) : Z :=
  match r with ByLocal => 0 | ByRemote => 1 | ByDeclined => 2 | ByIncompatible => 3 | ByLost => 4 | ByNetworkError => 5 | ByShutdown => 6 end.
Definition resultToC (r : SendResult) : Z :=
  match r with SentQueued => 0 | QueueFull => 1 | SentTooLarge => 2 | NotConnected => 3 | NotRunning => 4 end.
Definition NL_SEND_INVALID : Z := 5.

(** ** Lists: copies what fits and reports how many there are *)
Definition copyOut {A B} (source : list A) (target : option (list B)) (maxCount : Z) (convert : A -> option B) : option (Z * option (list B)) :=
  let total := sint32 (zlen source) in
  match target with
  | Some array =>
    if 0 <? maxCount then
      copies ← mapM convert (ztake (Z.min (zlen source) maxCount) source);
      Some (total, Some (blit array 0 copies))
    else Some (total, target)
  | None => Some (total, None)
  end.

(** ** Callbacks: what a function of [NLCallbacks] is called with *)
Inductive NLCall :=
| NLPeerDiscovered (peer : NLPeerInfo)
| NLPeerLost (peer : Z)
| NLConnectionRequest (peer : NLPeerInfo)
| NLConnected (peer : NLPeerInfo)
| NLDisconnected (peer reason : Z)
| NLMessage (from lane type : Z) (data : bytes) (size : Z)
| NLAdapterChanged (adapter : NLNetworkAdapter)
| NLLog (level : Z) (message : bytes).

Definition levelToC (l : LogLevel) : Z := match l with LogDebug => 0 | LogInfo => 1 | LogWarning => 2 | LogError => 3 end.
(** [std::string(message).c_str()] *)
Definition logToC (level : LogLevel) (message : text) : NLCall := NLLog (levelToC level) (message ++ [Byte.x00]).

Definition toCpp (callbacks : NetLinkCallbacks) : NetLinkCallbacks := callbacks.
Definition callToC (c : Callback) : option NLCall :=
  match c with
  | CallPeerDiscovered info => NLPeerDiscovered <$> peerToC info
  | CallPeerLost peer => Some (NLPeerLost peer)
  | CallConnectionRequest info => NLConnectionRequest <$> peerToC info
  | CallConnected info => NLConnected <$> peerToC info
  | CallDisconnected peer reason => Some (NLDisconnected peer (reasonToC reason))
  | CallMessage peer lane m => Some (NLMessage peer (laneToC lane) (msgType m) (msgData m) (zlen (msgData m)))
  | CallNetworkAdapterChanged a => NLAdapterChanged <$> adapterToC a
  end.

(** ** Functions *)

(** The members of [NetLinkConfig] as they are initialised. *)
Definition defaultConfig : NetLinkConfig := mkNetLinkConfig [] [] [] 5555 (64 * 2 ^ 20) 80000 5000.
Definition noCallbacks : NetLinkCallbacks := mkCallbacks false false false false false false false false.
Definition unlessZero (n fallback : Z) : Z := if n =? 0 then fallback else n.

(** What [start] is called with; [None] without an application id. *)
Definition startArguments (config : NLConfig) (callbacks : option NetLinkCallbacks) : option (NetLinkConfig * NetLinkCallbacks) :=
  match nlAppId config with
  | Some app =>
    Some (mkNetLinkConfig (default [] (nlDisplayName config)) app (default [] (nlAppVersion config))
            (unlessZero (nlDiscoveryPort config) (discoveryPort defaultConfig))
            (unlessZero (nlSendQueueBytes config) (sendQueueBytes defaultConfig))
            (unlessZero (nlMaxSendRate config) (maxSendRate defaultConfig))
            (unlessZero (nlPeerTimeoutMs config) (configTimeout defaultConfig)),
          default noCallbacks (toCpp <$> callbacks))
  | None => None
  end.

(** A function of an instance that may be null. *)
Definition onInstance {A} (fallback : A) (f : NetLink -> A * NetLink) (netlink : option NetLink) : A * option NetLink :=
  match netlink with Some n => let '(a, n) := f n in (a, Some n) | None => (fallback, None) end.

(** [libraryVersion] is [internal::Version], which the build generates; [allocated] says
    whether there is memory. *)
Definition nl_version (libraryVersion : text) : bytes := libraryVersion ++ [Byte.x00].
Definition nl_create (allocated : bool) : option NetLink :=
  if allocated then Some (newNetLink (mkDependencies false defaultTimings)) else None.
(** The destructor begins with [stop]; [nl_destroyed] tells when it returns. *)
Definition nl_destroy (netlink : option NetLink) : option NetLink := stop false <$> netlink.
Definition nl_destroyed (netlink : option NetLink) : bool :=
  match netlink with Some n => bool_decide (destroy (core n) = Some ()) | None => true end.

Definition nl_start (onEventThread : bool) (config : option NLConfig) (callbacks : option NetLinkCallbacks) (netlink : option NetLink) : Starting :=
  match netlink, config with
  | Some n, Some config =>
    match startArguments config callbacks with
    | Some (config, callbacks) => start onEventThread config callbacks n
    | None => StartFalse
    end
  | _, _ => StartFalse
  end.
Definition nl_stop (onEventThread : bool) (netlink : option NetLink) : option NetLink := stop onEventThread <$> netlink.
Definition nl_start_discovery : option NetLink -> bool * option NetLink := onInstance false startDiscovery.
Definition nl_stop_discovery (netlink : option NetLink) : option NetLink := stopDiscovery <$> netlink.
Definition nl_connect (peer : Z) : option NetLink -> bool * option NetLink := onInstance false (connect peer).
Definition nl_accept (peer : Z) (netlink : option NetLink) : option NetLink := accept peer <$> netlink.
Definition nl_decline (peer : Z) (netlink : option NetLink) : option NetLink := decline peer <$> netlink.
Definition nl_disconnect (peer : Z) (netlink : option NetLink) : option NetLink := disconnect peer <$> netlink.

Definition nl_get_peers (netlink : option NetLink) (target : option (list NLPeerInfo)) (maxPeers : Z) : option (Z * option (list NLPeerInfo)) :=
  match netlink with Some n => copyOut (peers n) target maxPeers peerToC | None => Some (0, target) end.
Definition nl_get_connected_peers (netlink : option NetLink) (target : option (list Z)) (maxPeers : Z) : option (Z * option (list Z)) :=
  match netlink with Some n => copyOut (connectedPeers n) target maxPeers Some | None => Some (0, target) end.

(** [data] is null or has [size] bytes. *)
Definition spanOf (data : option bytes) (size : Z) : bytes := match data with Some d => ztake size d | None => [] end.
Definition badData (data : option bytes) (size : Z) : bool := bool_decide (data = None) && (0 <? size).

(** An answer, or a call that waits for room; [None] if [static_cast<Lane>] made a lane of a
    number that is none. *)
Definition nl_send (peer type : Z) (data : option bytes) (size lane timeoutMs : Z) (netlink : option NetLink) :
    option ((Z + Box.PushWait) * option NetLink) :=
  match netlink with
  | None => Some (inl NL_SEND_INVALID, None)
  | Some n =>
    if badData data size || negb (isLane lane) then Some (inl NL_SEND_INVALID, netlink)
    else
      l ← laneOf lane;
      let '(r, n) := sendSpan peer type (spanOf data size) l timeoutMs n in
      Some (match r with inl r => inl (resultToC r) | inr w => inr w end, Some n)
  end.
Definition nl_broadcast (type : Z) (data : option bytes) (size lane : Z) (netlink : option NetLink) : option (Z * option NetLink) :=
  match netlink with
  | None => Some (0, None)
  | Some n =>
    if badData data size || negb (isLane lane) then Some (0, netlink)
    else
      l ← laneOf lane;
      let '(k, n) := broadcast type (spanOf data size) l n in
      Some (k, Some n)
  end.

Definition statsToC (s : PeerStats) : NLPeerStats :=
  mkNLStats (u64 (rtt s)) (bytesQueued s) (statBytesSent s) (statBytesReceived s) (statRetransmissions s)
    (statMediaSent s) (statMediaDropped s) (statMediaIncomplete s) (statMediaLoss s).
Definition nl_get_stats (netlink : option NetLink) (peer : Z) (target : option NLPeerStats) : bool * option NLPeerStats :=
  match netlink, target with
  | Some n, Some _ => match stats peer n with Some s => (true, Some (statsToC s)) | None => (false, target) end
  | _, _ => (false, target)
  end.

Definition nl_get_adapters (scanned : option (list NetworkAdapterInternal)) (target : option (list NLNetworkAdapter)) (maxAdapters : Z)
    (netlink : option NetLink) : option (Z * option (list NLNetworkAdapter)) * option NetLink :=
  match netlink with
  | Some n => let '(available, n) := getAvailableAdapters scanned n in (copyOut available target maxAdapters adapterToC, Some n)
  | None => (Some (0, target), None)
  end.
Definition nl_set_active_adapter (adapterId : Z) (scanned : option (list NetworkAdapterInternal)) : option NetLink -> bool * option NetLink :=
  onInstance false (setActiveAdapter adapterId scanned).
Definition nl_get_active_adapter_id (netlink : option NetLink) : Z :=
  match netlink with Some n => getActiveAdapterID n | None => 0 end.

(** ** UTF-8 *)

(** The bytes of a character by its first one. *)
Definition charLength (c : byte) : option nat :=
  let v := byteZ c in
  if v <? 0x80 then Some 1%nat
  else if (0xC2 <=? v) && (v <=? 0xDF) then Some 2%nat
  else if (0xE0 <=? v) && (v <=? 0xEF) then Some 3%nat
  else if (0xF0 <=? v) && (v <=? 0xF4) then Some 4%nat
  else None.

(** A text whose first [pending] bytes continue a character. *)
Fixpoint continues (pending : nat) (l : text) : bool :=
  match l, pending with
  | [], O => true
  | [], S _ => false
  | c :: l, S pending => isContinuation c && continues pending l
  | c :: l, O => match charLength c with Some (S n) => continues n l | _ => false end
  end.
Definition validUtf8 (l : text) : bool := continues 0 l.

Lemma lead_not_continuation c n : charLength c = Some n -> isContinuation c = false.
Proof. destruct c; (intros _; by vm_compute) || (intros H; discriminate H). Qed.

(** A text may be cut in front of every byte that begins a character, and nowhere else. *)
Lemma cut_valid l : forall p n, continues p l = true ->
  continues p (take n l) = match l !! n with Some c => negb (isContinuation c) | None => true end.
Proof.
  induction l as [|c l IH]; intros p n H.
  { by rewrite take_nil. }
  destruct n as [|n]; [destruct p as [|p]|destruct p as [|p]]; cbn in *.
  - destruct (charLength c) as [m|] eqn:E; [|done]. by rewrite (lead_not_continuation c m E).
  - apply andb_true_iff in H as [-> _]. done.
  - destruct (charLength c) as [[|m]|]; [done| |done]. by apply IH.
  - apply andb_true_iff in H as [-> H]. cbn. by apply IH.
Qed.

(** ** Copying a text *)

(** The last place at or before [n] to cut. *)
Lemma backUp_spec source : forall n, (n < length source)%nat ->
  exists m, backUp source n = Some m /\ (m <= n)%nat /\
    (m = 0%nat \/ exists c, source !! m = Some c /\ isContinuation c = false) /\
    forall j c, (m < j <= n)%nat -> source !! j = Some c -> isContinuation c = true.
Proof.
  induction n as [|n IH]; intros Hn.
  - exists 0%nat. split_and!; [done|lia|by left|]. intros j c Hj. lia.
  - cbn [backUp]. destruct (lookup_lt_is_Some_2 source (S n) Hn) as [c Ec]. rewrite Ec. destruct (isContinuation c) eqn:Hc.
    + destruct IH as (m & E & Hm & Hb & Hj); [lia|]. exists m. split_and!; [done|lia|done|]. intros j c' Hj' Ej.
      destruct (decide (j = S n)) as [->|]; [congruence|]. apply (Hj j); [lia|done].
    + exists (S n). split_and!; [done|lia|right; eauto|]. intros j c' Hj'. lia.
Qed.

(** What a reader of a C string sees. *)
Fixpoint cString (f : field) : text :=
  match f with [] => [] | c :: f => if bool_decide (c = Byte.x00) then [] else c :: cString f end.
Lemma cString_app l f : Byte.x00 ∉ l -> cString (l ++ Byte.x00 :: f) = l.
Proof.
  induction l as [|c l IH]; [done|]. intros [Hc Hl]%not_elem_of_cons. cbn. rewrite bool_decide_false by done. by rewrite IH.
Qed.

(** The length of the copy. *)
Definition copyLength (source : text) : option nat :=
  let length := Z.min (zlen source) (NL_MAX_STRING - 1) in
  if length <? zlen source then backUp source (Z.to_nat length) else Some (Z.to_nat length).
Lemma copyLength_spec source : exists n, copyLength source = Some n /\ Z.of_nat n <= NL_MAX_STRING - 1 /\ (n <= length source)%nat /\
  (zlen source <= NL_MAX_STRING - 1 -> n = length source) /\
  (validUtf8 source = true -> validUtf8 (take n source) = true /\
    forall j, (j <= length source)%nat -> Z.of_nat j <= NL_MAX_STRING - 1 -> validUtf8 (take j source) = true -> (j <= n)%nat).
Proof.
  unfold copyLength, NL_MAX_STRING, zlen. destruct (Z.ltb_spec (Z.min (Z.of_nat (length source)) (256 - 1)) (Z.of_nat (length source))).
  - destruct (backUp_spec source (Z.to_nat (Z.min (Z.of_nat (length source)) (256 - 1)))) as (n & E & Hn & Hb & Hj); [lia|].
    exists n. split_and!; [done|lia..|]. intros Hv. split.
    + destruct Hb as [->|(c & Ec & Hc)]; [done|]. unfold validUtf8. by rewrite cut_valid, Ec, Hc.
    + intros j Hl Hm Hvj. destruct (decide (j <= n)%nat) as [|Hgt]; [done|]. exfalso. unfold validUtf8 in Hvj.
      rewrite cut_valid in Hvj by done. destruct (lookup_lt_is_Some_2 source j) as [c Ec]; [lia|].
      rewrite Ec, (Hj j c) in Hvj by (done || lia). done.
  - exists (length source). split_and!; [f_equal; lia|lia|lia|done|]. intros Hv. rewrite take_ge by lia. split; [done|]. intros; lia.
Qed.

Lemma copyString_total target source : exists f, copyString target source = Some f.
Proof.
  destruct (copyLength_spec source) as (n & E & _). unfold copyLength in E. unfold copyString. rewrite E. by eexists.
Qed.
Lemma peerToC_total peer : exists p, peerToC peer = Some p /\ peerId p = infoId peer /\ peerPort p = infoPort peer.
Proof.
  unfold peerToC. destruct (copyString_total emptyField (displayName peer)) as [f1 ->], (copyString_total emptyField (infoAddress peer)) as [f2 ->],
    (copyString_total emptyField (infoVersion peer)) as [f3 ->]. by eexists.
Qed.
Lemma adapterToC_total a : exists n, adapterToC a = Some n /\ nlId n = id a.
Proof.
  unfold adapterToC. destruct (copyString_total emptyField (adapterName a)) as [f1 ->], (copyString_total emptyField (networkName a)) as [f2 ->],
    (copyString_total emptyField (ipv4 a)) as [f3 ->]. by eexists.
Qed.
(** Whatever the application is told, a function of [NLCallbacks] can be. *)
Lemma callToC_total c : is_Some (callToC c).
Proof.
  destruct c as [info|p|info|info|p r|p l m|a]; cbn; eauto;
    first [destruct (peerToC_total info) as (x & -> & _)|destruct (adapterToC_total a) as (x & -> & _)]; by eexists.
Qed.

(** ** Lists *)
Lemma mapM_total {A B} (f : A -> option B) l : (forall x, is_Some (f x)) -> exists k, mapM f l = Some k /\ length k = length l.
Proof.
  intros H. induction l as [|x l (k & E & Hk)]; [by exists []|]. destruct (H x) as [y Ey].
  exists (y :: k). cbn. rewrite Ey. cbn. rewrite E. split; [done|]. cbn. by rewrite Hk.
Qed.

(** A list function fills no more of the array than the caller said it has, leaves the rest
    as it is, and returns how many there are, so that a call with no array can ask. *)
Lemma copyOut_spec {A B} (source : list A) (array : list B) maxCount (convert : A -> option B) :
  (forall x, is_Some (convert x)) -> 0 <= maxCount <= zlen array -> zlen source < 2 ^ 31 ->
  copyOut source None maxCount convert = Some (zlen source, None) /\
  exists copies, mapM convert (ztake maxCount source) = Some copies /\ zlen copies = Z.min (zlen source) maxCount /\
    copyOut source (Some array) maxCount convert = Some (zlen source, Some (copies ++ zdrop (zlen copies) array)).
Proof.
  intros Hc Hm Hs. assert (sint32 (zlen source) = zlen source) as Et.
  { unfold sint32. rewrite wrap_small by (unfold is_uint, zlen in *; lia). destruct (Z.ltb_spec (zlen source) (2 ^ 31)); lia. }
  unfold copyOut. rewrite Et. split; [done|].
  assert (ztake (Z.min (zlen source) maxCount) source = ztake maxCount source) as Eq.
  { unfold ztake, zlen. destruct (Z.le_gt_cases (Z.of_nat (length source)) maxCount).
    - rewrite Z.min_l, !take_ge by lia. done.
    - by rewrite Z.min_r by lia. }
  destruct (mapM_total convert (ztake maxCount source) Hc) as (copies & E & Hl).
  assert (zlen copies = Z.min (zlen source) maxCount) as Hz by (unfold zlen, ztake in *; rewrite Hl, length_take; lia).
  exists copies. split_and!; [done..|]. destruct (Z.ltb_spec 0 maxCount) as [Hp|Hp].
  - rewrite Eq, E. cbn. unfold blit, ztake. cbn. by rewrite Z.add_0_l.
  - assert (copies = []) as -> by (destruct copies; [done|unfold zlen in *; cbn in Hz; lia]). done.
Qed.

(** ** Starting *)

(** What [nl_start] starts with is a configuration the core can take; without an
    application id it returns false. *)
Lemma startArguments_ok config callbacks cfg cbs : is_uint 32 (nlMaxSendRate config) ->
  startArguments config callbacks = Some (cfg, cbs) ->
  is_uint 32 (maxSendRate cfg) /\ maxSendRate cfg <> 0 /\ Some (appId cfg) = nlAppId config /\
  (onConnectionRequest cbs = false <-> callbacks = None \/ exists c, callbacks = Some c /\ onConnectionRequest c = false).
Proof.
  unfold startArguments. intros Hr. destruct (nlAppId config) as [app|]; [|done]. intros [= <- <-]. cbn. split_and!.
  - unfold unlessZero. destruct (nlMaxSendRate config =? 0); [by vm_compute|done].
  - unfold unlessZero. destruct (Z.eqb_spec (nlMaxSendRate config) 0); done.
  - done.
  - destruct callbacks as [c|]; cbn; [|by split; [left|]]. split; [intros H; right; eauto|]. by intros [|(c' & [= <-] & ?)].
Qed.

(** ** An application that uses the interface *)
Inductive NLFunction :=
| CStart (onEventThread : bool) (config : option NLConfig) (callbacks : option NetLinkCallbacks)
| CStop (onEventThread : bool)
| CStartDiscovery | CStopDiscovery
| CConnect (peer : Z) | CAccept (peer : Z) | CDecline (peer : Z) | CDisconnect (peer : Z)
| CSend (peer type : Z) (data : option bytes) (size lane timeoutMs : Z)
| CBroadcast (type : Z) (data : option bytes) (size lane : Z)
| CGetAdapters (scanned : option (list NetworkAdapterInternal)) (target : option (list NLNetworkAdapter)) (maxAdapters : Z)
| CSetActiveAdapter (adapterId : Z) (scanned : option (list NetworkAdapterInternal)).

(** What a call makes of the instance; the other functions only look at it. *)
Definition call (f : NLFunction) (netlink : option NetLink) : option (option NetLink) :=
  match f with
  | CStart ev config callbacks => Some (match nl_start ev config callbacks netlink with StartGoesOn c => Some (mkNetLink c) | _ => netlink end)
  | CStop ev => Some (nl_stop ev netlink)
  | CStartDiscovery => Some (nl_start_discovery netlink).2
  | CStopDiscovery => Some (nl_stop_discovery netlink)
  | CConnect peer => Some (nl_connect peer netlink).2
  | CAccept peer => Some (nl_accept peer netlink)
  | CDecline peer => Some (nl_decline peer netlink)
  | CDisconnect peer => Some (nl_disconnect peer netlink)
  | CSend peer type data size lane timeoutMs => snd <$> nl_send peer type data size lane timeoutMs netlink
  | CBroadcast type data size lane => snd <$> nl_broadcast type data size lane netlink
  | CGetAdapters scanned target maxAdapters => Some (nl_get_adapters scanned target maxAdapters netlink).2
  | CSetActiveAdapter id scanned => Some (nl_set_active_adapter id scanned netlink).2
  end.

(** [isLane] lets nothing through that is no lane. *)
Lemma isLane_laneOf lane : isLane lane = true -> is_Some (laneOf lane).
Proof. unfold isLane, laneOf. intros H. bool_prop. repeat case_match; try by eexists. lia. Qed.

(** A function does what one of the class does, or leaves the instance as it is. *)
Lemma call_request f n : exists n', call f (Some n) = Some (Some n') /\ (n' = n \/ exists r, n' = request r n).
Proof.
  destruct f as [ev config callbacks|ev| | |peer|peer|peer|peer|peer type data size lane timeoutMs|type data size lane|scanned target maxAdapters|id scanned]; cbn [call].
  - unfold nl_start. destruct config as [config|]; [|eexists; by split; [|left]]. destruct (startArguments config callbacks) as [[cfg cbs]|]; [|eexists; by split; [|left]].
    destruct (start ev cfg cbs n) as [| |c] eqn:E; eexists; (split; [done|]); [by left..|]. right. exists (Start ev cfg cbs). cbn [request]. by rewrite E.
  - eexists. split; [done|]. right. by exists (Stop ev).
  - unfold nl_start_discovery, onInstance. destruct (startDiscovery n) as [b n'] eqn:E. exists n'. split; [done|]. right. exists StartDiscovery. cbn [request]. by rewrite E.
  - eexists. split; [done|]. right. by exists StopDiscovery.
  - unfold nl_connect, onInstance. destruct (connect peer n) as [b n'] eqn:E. exists n'. split; [done|]. right. exists (Connect peer). cbn [request]. by rewrite E.
  - eexists. split; [done|]. right. by exists (Accept peer).
  - eexists. split; [done|]. right. by exists (Decline peer).
  - eexists. split; [done|]. right. by exists (Disconnect peer).
  - unfold nl_send. destruct (isLane lane) eqn:El; [|rewrite orb_true_r; eexists; by split; [|left]]. destruct (isLane_laneOf lane El) as [l ->].
    destruct (_ || _); [eexists; by split; [|left]|]. cbn [mbind option_bind].
    destruct (sendSpan peer type (spanOf data size) l timeoutMs n) as [r n'] eqn:E. exists n'. split; [done|]. right.
    exists (Send peer type (spanOf data size) l timeoutMs). cbn [request]. by rewrite E.
  - unfold nl_broadcast. destruct (isLane lane) eqn:El; [|rewrite orb_true_r; eexists; by split; [|left]]. destruct (isLane_laneOf lane El) as [l ->].
    destruct (_ || _); [eexists; by split; [|left]|]. cbn [mbind option_bind].
    destruct (broadcast type (spanOf data size) l n) as [k n'] eqn:E. exists n'. split; [done|]. right. exists (Broadcast type (spanOf data size) l). cbn [request]. by rewrite E.
  - unfold nl_get_adapters. destruct (getAvailableAdapters scanned n) as [l n'] eqn:E. exists n'. split; [done|]. right. exists (Adapters scanned). cbn [request]. by rewrite E.
  - unfold nl_set_active_adapter, onInstance. destruct (setActiveAdapter id scanned n) as [b n'] eqn:E. exists n'. split; [done|]. right.
    exists (SetAdapter id scanned). cbn [request]. by rewrite E.
Qed.
Lemma call_null f : call f None = Some None.
Proof. by destruct f. Qed.

(** The handle of an application: made, used by any thread while the threads of the
    instance go on, and destroyed, which takes until those threads have ended. *)
Inductive Handle := Null | Made (n : NetLink) | BeingDestroyed (n : NetLink).
Definition instanceOf (h : Handle) : option NetLink := match h with Null => None | Made n | BeingDestroyed n => Some n end.

Section Application.
Context {W : Type} `{!World W} (fuel : nat) `{!WorldOk W fuel}.

Inductive c_step : Handle -> Handle -> Prop :=
| cst_create n : nl_create true = Some n -> c_step Null (Made n)
| cst_call f n n' : call f (Some n) = Some (Some n') -> c_step (Made n) (Made n')
| cst_thread n c : core_step fuel (core n) c -> c_step (Made n) (Made (mkNetLink c))
| cst_destroy n n' : nl_destroy (Some n) = Some n' -> c_step (Made n) (BeingDestroyed n')
| cst_ending n c : core_step fuel (core n) c -> c_step (BeingDestroyed n) (BeingDestroyed (mkNetLink c))
| cst_destroyed n : nl_destroyed (Some n) = true -> c_step (BeingDestroyed n) Null.

Definition defaults : NetLinkCoreDependencies := mkDependencies false defaultTimings.
Definition runsCore (h : Handle) : Prop := forall n, instanceOf h = Some n -> core_run fuel defaults (core n).
Lemma c_step_run h h' : c_step h h' -> runsCore h -> runsCore h'.
Proof.
  intros [n0 E|f n0 n' E|n0 c Hs|n0 n' E|n0 c Hs|n0 _] H n Hn; cbn in Hn; try injection Hn as <-; try specialize (H n0 eq_refl).
  - injection E as <-. apply rtc_refl.
  - destruct (call_request f n0) as (n1 & E1 & Hr). rewrite E1 in E. injection E as <-.
    destruct Hr as [->|[r ->]]; [done|]. unfold core_run in *. etrans; [exact H|apply request_steps].
  - by eapply rtc_r.
  - injection E as <-. unfold core_run in *. etrans; [exact H|apply stop_steps].
  - by eapply rtc_r.
  - done.
Qed.

(** An application that uses the C interface runs the core.  Whatever functions it calls,
    with whatever arguments, from whichever threads, and whatever the threads of the
    instance do in between: its instance is in a state that a run of [NetLinkCore] leads to,
    so that everything shown of such runs holds; whatever the core calls the application
    back with, the function of [NLCallbacks] can be called with; and when [nl_destroy]
    returns, no thread of the instance is left and everything that was handed over has been
    told. *)
Lemma interface_refines h n : rtc c_step Null h -> instanceOf h = Some n ->
  core_run fuel defaults (core n) /\
  (forall g c, (g, c) ∈ called (core n) -> is_Some (callToC c)) /\
  (c_step h Null ->
    (forall g r, runs (core n) !! g = Some r -> thread r = Over) /\ Tasks.mThread (tasks (core n)) = None /\
    dispatched (core n) = history (handedOver <$> runs (core n))).
Proof.
  intros Hr Hn. assert (Hrun : runsCore h).
  { assert (Hgen : forall h1, rtc c_step h1 h -> runsCore h1 -> runsCore h) by (induction 1; [done|]; eauto using c_step_run). by apply (Hgen Null Hr). }
  specialize (Hrun n Hn). split_and!; [done|intros g c _; apply callToC_total|]. inversion 1 as [| | | | |n1 Hd Eh]; subst h.
  injection Hn as ->. apply bool_decide_eq_true in Hd. by apply (destroyed_alone fuel defaults).
Qed.
End Application.

(** The first calls of an application. *)
Definition someConfig : NLConfig := mkNLConfig None (Some [Byte.x61]) None 0 0 0 0.
Definition opened : option NetLink := mjoin (call (CStart false (Some someConfig) None) (nl_create true) ≫= call (CConnect 7)).
Lemma opened_starts : match opened with Some n => match life (core n) with Finishing (ByStart _ _) => True | _ => False end | None => False end.
Proof. by vm_compute. Qed.

(** ** What the functions are told about peers *)

(** A field that holds a text: all of it, and a zero behind it. *)
Record holds (f : field) (t : text) : Prop := {
  ho_size : zlen f = NL_MAX_STRING;
  ho_text : (t ++ [Byte.x00]) `prefix_of` f;
}.
(** A struct that says of a peer what is known of it, at the widths of its members. *)
Record carries (i : PeerInfo) (p : NLPeerInfo) : Prop := {
  ca_id : peerId p = infoId i /\ is_uint 64 (peerId p);
  ca_port : peerPort p = infoPort i /\ is_uint 16 (peerPort p);
  ca_name : holds (peerName p) (displayName i);
  ca_address : holds (peerAddress p) (infoAddress i);
  ca_version : holds (peerVersion p) (infoVersion i);
}.
Definition structOf (c : NLCall) : option NLPeerInfo :=
  match c with NLPeerDiscovered p | NLConnectionRequest p | NLConnected p => Some p | _ => None end.

Lemma copyString_whole source : zlen source <= NL_MAX_STRING - 1 -> exists f, copyString emptyField source = Some f /\ holds f source.
Proof.
  intros Hs. unfold copyString. rewrite Z.min_l by done. rewrite Z.ltb_irrefl. cbn [mbind option_bind]. rewrite (take_ge source) by (unfold zlen; lia).
  eexists. split; [done|]. split.
  - pose proof (zlen_nonneg source). rewrite zlen_blit; [done|done|]. rewrite zlen_app. change (zlen [Byte.x00]) with 1.
    change (zlen emptyField) with NL_MAX_STRING. lia.
  - unfold blit, ztake. cbn [Z.to_nat take app]. by eexists.
Qed.
Lemma peerToC_carries i : info_ok i -> exists p, peerToC i = Some p /\ carries i p.
Proof.
  intros [H1 H2 H3 H4 H5]. unfold peerToC. unfold MaxDisplayName, MaxAddressText, MaxVersionText in *.
  destruct (copyString_whole (displayName i)) as (f1 & -> & Hf1); [unfold NL_MAX_STRING; lia|].
  destruct (copyString_whole (infoAddress i)) as (f2 & -> & Hf2); [unfold NL_MAX_STRING; lia|].
  destruct (copyString_whole (infoVersion i)) as (f3 & -> & Hf3); [unfold NL_MAX_STRING; lia|].
  by eexists.
Qed.

(** C18: what an application in C is told about a peer is what arrived, in full.  Whatever
    datagrams arrive and however the threads take turns: a callback that is told about a
    peer is called with a struct whose id and port are values of 64 and of 16 bits and
    whose texts, the name that the peer chose among them, are whole and end with a zero
    within their fields. *)
Theorem told_values_fit {W : Type} `{!Engine.World W} (fuel : nat) `{!Engine.WorldOk W fuel} deps c : core_run fuel deps c ->
  forall g call i, (g, call) ∈ called c -> callInfo call = Some i ->
  exists nc p, callToC call = Some nc /\ structOf nc = Some p /\ carries i p.
Proof.
  intros Hr g call i Hin Hi. destruct (peerToC_carries i) as (p & E & Hp); [by eapply (called_typed fuel deps c Hr)|].
  destruct call; try done; injection Hi as ->; eexists _, p; cbn; by rewrite E.
Qed.
Lemma inSession_called : exists i, (0%nat, CallConnected i) ∈ called (at_ inSession).
Proof. eexists. vm_compute. repeat first [by left|right]. Qed.
Lemma told_values_fit_witness : exists i p, (0%nat, CallConnected i) ∈ called (at_ inSession) /\ callToC (CallConnected i) = Some (NLConnected p) /\ carries i p.
Proof.
  destruct inSession_called as [i Hi].
  destruct (told_values_fit 500 (mkDependencies true defaultTimings) (at_ inSession) (at_run _ (proj2 inSession_told)) 0%nat (CallConnected i) i Hi eq_refl) as (nc & p & E & Es & Hp).
  exists i, p. split; [exact Hi|]. cbn [callToC] in E |- *. destruct (peerToC i) as [q|]; [|discriminate E]. injection E as <-. injection Es as <-. split; [reflexivity|exact Hp].
Defined.

(** C26: [copyString] never reads or writes outside its arrays.  A text that fits a field of
    the C structs is copied whole; of a longer one a beginning is, which is valid UTF-8 if
    the text is, and then no longer beginning that is valid would have fitted.  The copy
    ends with a zero, and a reader of the C string sees all of it if it has none within. *)
Theorem copyString_spec target source : zlen target = NL_MAX_STRING ->
  exists t f, copyString target source = Some f /\ zlen f = NL_MAX_STRING /\ t `prefix_of` source /\
    (t ++ [Byte.x00]) `prefix_of` f /\ (Byte.x00 ∉ t -> cString f = t) /\
    (zlen source <= NL_MAX_STRING - 1 -> t = source) /\
    (validUtf8 source = true -> validUtf8 t = true /\
      forall t', t' `prefix_of` source -> zlen t' <= NL_MAX_STRING - 1 -> validUtf8 t' = true -> t' `prefix_of` t).
Proof.
  intros Ht. destruct (copyLength_spec source) as (n & E & Hn & Hl & Hw & Hv). unfold copyLength in E. unfold copyString. rewrite E. cbn [mbind option_bind].
  set (rest_ := zdrop (0 + zlen (take n source ++ [Byte.x00])) target).
  assert (blit target 0 (take n source ++ [Byte.x00]) = take n source ++ Byte.x00 :: rest_) as Eb
    by (unfold blit, ztake; cbn [Z.to_nat take app]; by rewrite <- (assoc_L (++))).
  exists (take n source). eexists. split; [reflexivity|]. rewrite Eb. split_and!.
  - unfold zlen in *. rewrite length_app. cbn. unfold rest_, zdrop, zlen. rewrite length_drop, length_app, length_take. cbn.
    unfold NL_MAX_STRING in *. lia.
  - apply prefix_take.
  - exists rest_. by rewrite <- (assoc_L (++)).
  - apply cString_app.
  - intros Hs. rewrite (Hw Hs). by apply take_ge.
  - intros Hu. destruct (Hv Hu) as [Hok Hmax]. split; [done|]. intros t' [x ->] Hz Ht'.
    assert (length t' <= n)%nat as Hle by (apply Hmax; [rewrite length_app; lia|exact Hz|by rewrite take_app_length]).
    exists (take (n - length t') x). by rewrite take_app, (take_ge t') by lia.
Qed.

Lemma copyString_witness : zlen emptyField = NL_MAX_STRING /\
  exists t f, copyString emptyField (replicate 254 Byte.x61 ++ [Byte.xc3; Byte.xa4; Byte.x62]) = Some f /\
    validUtf8 t = true /\ cString f = replicate 254 Byte.x61.
Proof.
  split; [by vm_compute|].
  destruct (copyString_spec emptyField (replicate 254 Byte.x61 ++ [Byte.xc3; Byte.xa4; Byte.x62])) as (t & f & E & _ & _ & _ & _ & _ & Hv); [by vm_compute|].
  exists t, f. split; [done|]. split; [apply Hv; by vm_compute|].
  assert (cString <$> copyString emptyField (replicate 254 Byte.x61 ++ [Byte.xc3; Byte.xa4; Byte.x62]) = Some (replicate 254 Byte.x61)) as H by by vm_compute.
  rewrite E in H. by injection H.
Defined.
End C.
